(* ===== verification/_CoqProject ===== *)
-Q . S2P
Prelude.v
NetTypes.v
NetCore.v
NetInv.v
Reduction.v
ReductionInv.v
EngineInv.v
NetDebug.v
Wiring.v
Weight.v
RunInv.v
ReductionSpec.v
NetSpec.v
SparseNet.v
SparseInv.v
SparseSpec.v
Compact.v
CompactSpec.v
Partition.v
BorderGraph.v
BorderSpec.v
Split.v
SplitInv.v
BorderResolver.v
Remap.v
Merge.v
MergeInv.v
SplitSpec.v
RemapSpec.v
Coordinator.v
CoordinatorSpec.v
Grid.v
GridSpec.v
DeltaGrid.v
Worker.v
DeltaSpec.v
WorkerSpec.v
WorkerRunSpec.v
LocalDispatch.v
DeltaGridSpec.v
Church.v
ChurchSpec.v
Streaming.v
StreamingInv.v
StreamingRun.v
StreamingSpec.v
Frame.v
FrameSpec.v
Retained.v
RetainedSpec.v
Lambda.v
LambdaText.v
LambdaBuild.v
LambdaSpec.v
Isomorphism.v
IsoInv.v
IsoSpec.v
Horner.v
HornerSpec.v
Runtime.v
RuntimeInv.v
RuntimeSpec.v
Shape.v
ArithSpec.v
Generators.v
GeneratorsSpec.v
Streams.v
StreamsSpec.v
TextDsl.v
TextInv.v
TextSpec.v
Codecs.v
CodecsSpec.v
Config.v
Security.v
Commands.v
FilesInv.v
CommandsSpec.v
