(* ===== verification/Prelude.v ===== *)
(** Relativist verification library.

    Relativist reduces interaction-combinator nets on a grid of workers: a
    coordinator splits a net, workers reduce their parts, the parts are merged
    and the wires that cross between them are resolved, round after round,
    until no active pair is left.  This library models the core of the crate
    [relativist-core] as executable functions and proves what its components
    promise.  Paths below are relative to [relativist-core/src/].

    * Conventions

    The model is the release build with the default features.  Identifiers
    ([u32]) and port numbers ([u8]) are [N], with wrap-around or the tested
    bound written where the code has it; [Vec] and [VecDeque] are lists,
    [HashMap] and [HashSet] are [gmap] and [gset], and an [Option] is an
    [option].  A function that takes [&mut self] takes the old state and
    returns the new one.  A function that can panic (assertion, indexing,
    [unwrap]) returns an [outcome], [Done] or [Panic]; a [Result] is a sum.
    Assertions that exist only in debug builds are separate boolean functions
    (NetDebug).  Logging is left out.  Where the code iterates over a hash map,
    the order is that of [map_to_list], or an argument where the result can
    depend on it ([merge_along]).  The six fields of [Net] that only debug
    builds write are one field, [debug_fields].  A loop the code leaves only
    by [break] takes fuel and returns a [fueled] outcome: [None] is "out of
    fuel", and [x ←! e; k] runs [k] after [e].  Durations, and the texts of
    errors, are left out of metrics and messages; counters of 64 bits are
    unbounded.

    * Files

    - Prelude: panics, the [outcome] monad, shared list lemmas, hints.
    - NetTypes (net/types.rs): symbols, agents, port references, slot layout
      and the hand-written encoding of a port reference.  The integer varint
      of the serializer is a parameter with its round-trip law.
    - NetCore (net/core.rs): the dense net and all its operations.
    - NetDebug (net/debug.rs and the debug checks of net/core.rs), with a
      boolean form of the invariant used to evaluate concrete nets.
    - NetInv: the invariant [wf] (bidirectional wires, valid references, clean
      dead slots, sound free list) and the effect of each operation as a
      record ([removed], [created], [plugged], ...).
    - NetSpec: the contracts of the operations, from those records.
    - Reduction (reduction/): dispatch tables, the four interaction rules,
      the engine.  ReductionInv reads each rule as a set of wires plugged into
      a net from which the pair was removed; EngineInv gives the effect of one
      step; Weight counts agents; RunInv follows whole runs; Wiring and
      ReductionSpec hold the theorems.
    - SparseNet (net/sparse.rs, to_sparse and is_behaviorally_equal of
      net/core.rs), SparseInv (the simulation [sim] between a sparse and a
      dense net), SparseSpec.
    - Compact, CompactSpec (partition/compact.rs): the wire form of a subnet.
    - Partition (partition/types.rs): partitions, plans, border ids.
    - BorderGraph, BorderSpec (merge/border_graph.rs and the request codec and
      allocators of merge/border_resolver.rs): the coordinator's index of the
      wires between partitions.
    - Split (partition/split.rs, strategy.rs, helpers.rs): the strategy as a
      type class, wire classification, both subnet builders, the split.
      SplitInv says what each loop computes in terms of the wires the
      allocation cuts ([cuts], [border_of]) and what a plan must satisfy
      ([partitioned]).
    - Merge (merge/core.rs, merge/helpers.rs): the merge, the border index of
      a partition and the changes a round makes to it.  MergeInv shows that
      the merge is the net with its cuts open ([unite]) in which the border
      wires are plugged back.  SplitSpec holds the theorems of both.
    - Remap, RemapSpec (partition/remap.rs): a partition moved to new ids.
    - BorderResolver (merge/border_resolver.rs): how the coordinator resolves
      a border between two principal ports, and what it sends to whom.
    - Coordinator, CoordinatorSpec (coordinator.rs): the push-mode and the
      pull-mode state machines, with the dispatch-mode resolution.
    - Grid, GridSpec (merge/grid.rs, merge/types.rs): configuration, metrics
      and the full-state loop that splits, reduces, merges and resolves.
    - Worker (worker.rs): the push machine, the delta-mode handlers, the pull
      machine.  WorkerSpec is about one delta round, WorkerRunSpec about runs
      of the machines.
    - DeltaGrid (merge/grid.rs): the delta loop, over a class of dispatchers;
      LocalDispatch (merge/grid_delta_integration_tests.rs) is the instance
      that calls the worker's handlers in process.  DeltaSpec follows one
      commutation from the coordinator to two workers and back; DeltaGridSpec
      is about the loop.
    - Streaming (partition/streaming.rs, the wrappers of merge/helpers.rs): a
      net that arrives in batches, cut without being held whole; the batch
      strategies are a class.  StreamingInv is the invariant of the wires
      installed so far, StreamingRun that of the pipeline between batches, over
      streams that are [well_formed]; StreamingSpec holds the theorems and a
      checker for concrete streams.
    - Church, ChurchSpec (encoding/church.rs, encoding/arithmetic.rs): numbers
      and arithmetic as nets, and how results are read back.
    - Lambda, LambdaText, LambdaBuild, LambdaSpec (encoding/codec_lambda.rs):
      lambda terms as text and as nets.  LambdaText is about the parser and the
      printer; LambdaBuild is the invariant of a net under construction
      ([building]: which ports are still open); LambdaSpec follows the encoder
      and the readback.
    - Horner, HornerSpec (encoding/horner.rs, horner_oracle.rs,
      biguint_readback.rs): polynomials as nets, the reference on integers and
      the readback of large numerals.
    - Isomorphism, IsoInv, IsoSpec (bench/isomorphism.rs): the two checkers that
      compare nets.  IsoInv relates the iterative search with explicit stack to
      a recursive one and says which bijections that one finds.
    - Frame, FrameSpec (protocol/types.rs, frame.rs, compression.rs,
      bincode_v2.rs and the serde adapters of partition/types.rs): messages and
      framing; a message is written with its partition in the form of Compact.
      The serializers (of that form), the compression and the checksum are the
      operations of a class, with their documented laws in a second one.
    - Runtime, RuntimeInv, RuntimeSpec (protocol/coordinator.rs, worker.rs,
      self_worker.rs, security/token.rs): the distributed runs, over a class of
      transports.  A connection is an abstract state; what it delivers and which
      timer fires first is its choice, so a theorem over all transports holds
      for every interleaving and every fault.  [Answering] and [Registering]
      are what a connection with a worker behind it does; RuntimeSpec has an
      instance that simulates such workers, and faulty ones.
    - Retained, RetainedSpec (protocol/retained.rs): the coordinator's registry
      of retained partitions.
    - Shape: nets built from nothing, agent by agent ([shape], and [built] for
      finished nets); ArithSpec: what the constructions of encoding/arithmetic.rs
      and encoding/horner.rs build, for every operand, as a plan of agents and
      pairs.
    - Generators, GeneratorsSpec (io/generators.rs): the example nets.
    - Streams, StreamsSpec (bench/streaming.rs): nets turned into streams.
    - TextDsl, TextInv, TextSpec (io/text_dsl.rs, io/types.rs): the text format
      of nets and their summary.
    - Codecs, CodecsSpec (encoding/traits.rs, codec_church.rs, registry.rs,
      recipe.rs and the codecs of horner.rs and codec_lambda.rs): validation of
      encoded nets, the codecs behind their registry, over a class for the JSON
      library, and the recipes.
    - Config (config.rs): the command line's arguments and the configurations
      built from them.
    - Security (security/mod.rs, token.rs, error.rs): tokens, tiers and the
      security configuration.
    - Commands, FilesInv, CommandsSpec (io/mod.rs, io/binary.rs, commands.rs):
      files, UTF-8 and paths, and the commands as steps over a world of files and
      printed text.

    Definitions and proofs are in different files, so that a definition file
    reads like the Rust file it follows.

    * What is shown

    Nets.  [wf] is preserved by every operation under the precondition its
    callers establish, and each operation's effect is given port by port.
    Creation never returns a live id, in every recycling regime; the free
    list validator is exact; two nets merge into a well-formed net under a
    precondition stronger than the documented one, and a counterexample shows
    the documented one is too weak.

    Reduction.  The three non-trivial rules have the wiring of interaction
    combinators, whatever the outside ports are attached to (agents or
    borders), annihilation and commutation also when an agent's auxiliary ports
    are wired to each other.  A step returns, preserves [wf] and keeps every active pair
    queued, so normal form is exactly the absence of active pairs.  Runs keep
    these properties; nets without commutation terminate, with an explicit
    bound.  A pair that shares an auxiliary wire is excluded by hypothesis
    ([comm_safe], [entangled]), and two closed theorems show what the code
    does on such pairs.  [reduce_all] has a fuel argument; the termination
    theorem says any fuel above half the net's measure is enough, as long as
    four ids are left for each unit of it, since the code's loop runs until
    normal form.

    Representations.  The sparse net simulates the dense net operation by
    operation; the two conversions and the compact wire form round-trip; the
    validating receiver is exact and the sanitising one is safe on any input.

    Borders.  Ids are never handed out twice; the graph built from a plan is
    the plan's; its incremental redex index is exact after any sequence of
    operations; the mint registration is all or nothing.

    Split and merge.  With any strategy that gives every live agent a worker
    (the contiguous one does), a split returns a plan whose parts are well
    formed, have complete queues and pass the program's own checks; every
    active pair is queued in one part or listed by the border graph; merging
    the plan gives the net back, wire by wire.  The bounds the machine puts on
    this are the hypothesis [splittable]; two theorems say what happens to the
    ids past them (ranges that overlap, ids spent without any allocation).

    Coordinator.  Every transition follows the state diagram and logs it; a
    merge starts exactly when a round's results are complete, with exactly
    these results; a round completes under any interleaving of membership
    events; the pull machine merges only after the stream has ended, and what
    it merges is exactly its buffer.

    Grid.  A run that reports convergence returns a net without queued pairs,
    otherwise exactly [max_rounds] rounds have run, and the metrics add up;
    for one worker the grid is the sequential reducer; a closed theorem shows
    the result depending on the iteration order of a hash map.  The fuel of
    [run_grid] bounds its rounds and the reductions inside one; with
    [max_rounds] set, [run_grid_fuel] says how much is enough.

    Distributed runs.  With workers that answer, and in the configurations where
    the two loops do the same ([comparable]), the coordinator over the wire
    returns the net and the counters of the in-process grid.  Over any transport
    a round without departures merges exactly the results that the members'
    streams deliver for that round after their assignments, worker ids are never reused, and the per-round vectors stay
    parallel.  Coordinator and worker agree on who is registered.  Closed runs
    show three faults: in strict mode the pairs cut by the split are never
    resolved, the self-worker's stale border index corrupts a hybrid run, and a
    worker that is lost takes its agents with it.

    Delta mode.  What a worker reports is the difference of its border index,
    and applying it gives the coordinator the new index; packaging sends each
    worker exactly what resolutions address to it; a constructor-duplicator
    border, fulfilled by two workers, ends in the wiring of the sequential rule
    when neither agent's auxiliary ports are wired to each other (a theorem
    shows what the resolver asks for otherwise); the request validator is exact;
    a round of a well-formed partition completes with the border index of the
    reduced net.  Whatever the workers answer, the loop's redex index
    stays exact and convergence means that no border joins two principal
    ports.  Three closed theorems show what goes wrong all the same: consumed
    agents stay on the worker, ids are minted past the worker's range, and a
    run over two constructors loses their neighbours' wires.

    Remapping.  The remapped partition is the old one under an injective
    renaming into the new range, without its redirected borders, or an error
    exactly when it does not fit.

    Streaming.  On a well-formed stream, with a strategy that assigns each
    agent of a batch to an existing worker (round-robin and Fennel do), the
    pipeline never panics; the partitions it returns hold each agent once and
    every wire, inside a worker or through a border that the border map and
    both workers' indexes agree on; when it fails for a reference, the stream
    holds that reference and its target came too late or before it; and when
    targets are not late the only failure is the density check, exactly for the
    workers that fail it.  Closed
    theorems show what the code does with five workers, with recycled ids, with
    an unlimited chunk size and with interface ids announced late.

    Encodings.  Every number up to the limit is read back from its encoding;
    the reader returns on every net, and accepts exactly the nets with the
    chain it follows; small results of the arithmetic nets are computed, and a
    closed theorem shows a product that is read back wrong.  The readback of
    large numerals returns on every net, agrees with the small one, and its
    errors are those of the reference; computed runs show which polynomials come
    back right.  A lambda term that is encoded and read back is the same term up
    to the names of its bound variables; the parser reads back exactly the terms
    whose names the grammar allows, and answers on every text.

    Comparing nets.  [nets_isomorphic] decides the existence of an isomorphism;
    [nets_graph_isomorphic] is sound, and complete when no label occurs twice; a
    closed theorem shows that condition is needed.

    Wire.  Headers are a bijection with nine bytes; the messages of a
    connection are read back in order whatever follows, compressed or archived
    or not, a partition in them without the run-time fields of its net; the receiver's verdict is given for every input, and a frame cut
    short is never a message.  A message that decompresses to more than the
    receiver's limit is sent and can never be delivered.

    Retained state.  After any history the registry is a function of what
    happened to each worker since its last release.

    Examples, files and codecs.  Every example generator returns, for every
    size that fits, a well-formed net with exactly the agents and active pairs of
    its plan; the examples made of pairs reduce with one interaction per pair;
    the sparse dual tree is the dense one.  A net printed as text and parsed
    again is the net renumbered, and the parser answers on every text.  A net
    whose labels stand at one port each and that wires no two ports of one agent
    becomes a stream that the partitioner refuses only for its density check.  The registry's verdict is given for every name and input: which
    error, which plan the net is built to, and which inputs make an encoder
    panic.  Recipes divide the work fairly, and hold more than the encoder's net
    when there are fewer pairs than workers.

    Commands.  A net saved to a file is the net that is loaded, up to the fields
    that are not serialised (binary) or the numbering (text).  Encoding to a file,
    reducing that file and decoding the outcome gives what the direct command
    prints, error for error and panic for panic; what the encoders build loses
    nothing in a file, and the decoders read nothing that a file drops.  The
    positional form of [compute] panics on operands the codecs refuse.  The text
    of the coordinator's token file gives a worker a token that is accepted, and
    each refusal of the set-up says what it leaves behind.

    * Not modelled

    Bincode, serde_json and the clock are a class.  Sockets, the asynchronous
    runtime below the transport class, TLS, metrics export, the parsing of the
    command line, the resolution of addresses, the commands that only set up a
    process (coordinator, worker, update, completions) and the benchmarks are left
    out: they call libraries and hold no logic of the reducer. *)
From Stdlib Require Export Lia ZArith.
From Stdlib Require Ascii String.
From stdpp Require Export base tactics numbers option gmap sorting list.

(** ** Machine integers

    The program's identifiers are [u32] and its port numbers [u8]; they are
    modelled by [N], with the upper bound written where the code tests it. *)
Definition u32_MAX : N := 4294967295.

(** [x as u32], and [x + 1] on [u32] in a release build. *)
Definition as_u32 (x : N) : N := (x mod 4294967296)%N.

Definition u32_succ (x : N) : N := ((x + 1) mod 4294967296)%N.

(** Arithmetic on [u64] in a release build. *)
Definition wrap64 (x : N) : N := (x mod 18446744073709551616)%N.

Lemma as_u32_small x : (x ≤ u32_MAX)%N → as_u32 x = x.
Proof. unfold as_u32, u32_MAX. intros. by rewrite N.mod_small by lia. Qed.

Lemma u32_succ_lt x : (x < u32_MAX)%N → u32_succ x = (x + 1)%N.
Proof. unfold u32_succ, u32_MAX. intros. rewrite N.mod_small; lia. Qed.

(** ** Panics

    A Rust function that may panic (an [assert!], an [unwrap], an indexing
    expression) returns an [outcome]: [Done x] is a normal return and [Panic]
    an unwinding panic, which no caller of the modelled code catches. *)
Inductive outcome (A : Type) : Type :=
| Done (a : A)
| Panic.
Arguments Done {A} a.
Arguments Panic {A}.

#[export] Instance outcome_ret : MRet outcome := fun A a => Done a.
#[export] Instance outcome_bind : MBind outcome := fun A B f m =>
  match m with Done a => f a | Panic => Panic end.
#[export] Instance outcome_fmap : FMap outcome := fun A B f m =>
  match m with Done a => Done (f a) | Panic => Panic end.

(** [unwrap] on an [Option], and [v[i]] on a slice, as outcomes. *)
Definition unwrap {A} (o : option A) : outcome A :=
  match o with Some a => Done a | None => Panic end.

(** A [for] loop whose body may panic. *)
Fixpoint fold_outcome {A B} (f : B → A → outcome B) (b : B) (l : list A) : outcome B :=
  match l with
  | [] => Done b
  | x :: l => match f b x with Done b => fold_outcome f b l | Panic => Panic end
  end.

Lemma outcome_bind_Done {A B} (m : outcome A) (f : A → outcome B) b :
  m ≫= f = Done b ↔ ∃ a, m = Done a ∧ f a = Done b.
Proof. destruct m as [a|]; simpl; naive_solver. Qed.

Lemma Done_inj {A} (x y : A) : Done x = Done y → x = y.
Proof. by injection 1. Qed.

Lemma unwrap_Done {A} (o : option A) a : unwrap o = Done a ↔ o = Some a.
Proof. destruct o; simpl; naive_solver. Qed.

(** ** Loops that may diverge

    [None] is fuel exhaustion, [Some Panic] a panic. *)
Definition fueled (A : Type) : Type := option (outcome A).

Definition run_bind {A B} (m : fueled A) (f : A → fueled B) : fueled B :=
  match m with
  | Some (Done a) => f a
  | Some Panic => Some Panic
  | None => None
  end.

Notation "x '←!' y ; z" := (run_bind y (λ x, z))
  (at level 20, y at level 100, z at level 200, only parsing).
Notation "' x '←!' y ; z" := (run_bind y (λ x, z))
  (at level 20, x pattern, y at level 100, z at level 200, only parsing).

Lemma run_bind_Done {A B} (m : fueled A) (f : A → fueled B) b :
  run_bind m f = Some (Done b) ↔ ∃ a, m = Some (Done a) ∧ f a = Some (Done b).
Proof. destruct m as [[a|]|]; cbn; naive_solver. Qed.

(** ** Vectors

    A [Vec<T>] is a list in index order; [push] appends at the end. *)

(** [if v.len() < n { v.resize(n, x) }]. *)
Definition vec_grow {A} (n : nat) (x : A) (l : list A) : list A :=
  if decide (length l < n) then resize n x l else l.

(** [v[i].push(x)] on a vector of vectors. *)
Definition push_at {A} (i : nat) (x : A) (v : list (list A)) : outcome (list (list A)) :=
  match v !! i with Some l => Done (<[i := l ++ [x]]> v) | None => Panic end.

(** [v.pop()]: the last element and the remaining prefix. *)
Definition vec_pop {A} (l : list A) : option (A * list A) :=
  match rev l with
  | [] => None
  | x :: r => Some (x, rev r)
  end.

(** [for (i, x) in v.iter().enumerate().rev() { if p(x) { return Some(i) } }]. *)
Fixpoint find_last_index {A} (p : A → bool) (l : list A) : option nat :=
  match l with
  | [] => None
  | x :: r =>
      match find_last_index p r with
      | Some i => Some (S i)
      | None => if p x then Some 0 else None
      end
  end.

(** A text is the list of its Unicode scalar values. *)
Definition chars (s : String.string) : list N := (λ c, Ascii.N_of_ascii c) <$> String.list_ascii_of_string s.

(** [for p in 0..k] over an unsigned integer. *)
Definition range_u (k : N) : list N := N.of_nat <$> seq 0 (N.to_nat k).

Lemma vec_grow_length {A} n (x : A) l : length (vec_grow n x l) = length l `max` n.
Proof. unfold vec_grow. case_decide; [rewrite length_resize|]; lia. Qed.

Lemma vec_grow_lookup {A} n (x : A) l i :
  vec_grow n x l !! i =
    match l !! i with
    | Some y => Some y
    | None => if decide (i < n) then Some x else None
    end.
Proof.
  unfold vec_grow. case_decide as Hl.
  - rewrite resize_ge by lia. rewrite lookup_app.
    destruct (l !! i) eqn:E; [done|]. apply lookup_ge_None in E.
    case_decide.
    + rewrite lookup_replicate_2; [done|lia].
    + apply lookup_ge_None. rewrite length_replicate. lia.
  - destruct (l !! i) eqn:E; [done|]. apply lookup_ge_None in E.
    rewrite decide_False; [done|lia].
Qed.

Lemma vec_pop_Some {A} (l : list A) x l' : vec_pop l = Some (x, l') ↔ l = l' ++ [x].
Proof.
  unfold vec_pop. split.
  - destruct (rev l) as [|y r] eqn:E; intros [= -> <-].
    rewrite <- (rev_involutive l), E. done.
  - intros ->. rewrite rev_app_distr. simpl. by rewrite rev_involutive.
Qed.

Lemma vec_pop_None {A} (l : list A) : vec_pop l = None ↔ l = [].
Proof.
  unfold vec_pop. destruct (rev l) eqn:E; [|split; [done|intros ->; done]].
  rewrite <- (rev_involutive l), E. done.
Qed.

Lemma find_last_index_Some {A} (p : A → bool) l i :
  find_last_index p l = Some i → ∃ x, l !! i = Some x ∧ p x = true.
Proof.
  revert i. induction l as [|y l IH]; intros i; simpl; [done|].
  destruct (find_last_index p l) as [j|].
  - intros [= <-]. simpl. by apply IH.
  - destruct (p y) eqn:E; [|done]. intros [= <-]. eauto.
Qed.

Lemma find_last_index_None {A} (p : A → bool) l x :
  find_last_index p l = None → x ∈ l → p x = false.
Proof.
  induction l as [|y l IH]; simpl; [set_solver|].
  destruct (find_last_index p l) eqn:E; [done|].
  destruct (p y) eqn:Ey; [done|]. intros _ [->|?]%elem_of_cons; auto.
Qed.

Lemma elem_of_range_u k p : p ∈ range_u k ↔ (p < k)%N.
Proof.
  unfold range_u. rewrite list_elem_of_fmap. setoid_rewrite elem_of_seq.
  split; [intros (n & -> & Hn); lia|]. intros H. exists (N.to_nat p). lia.
Qed.

(** Case analysis on every [match], [if] and [decide] of the goal or of a
    hypothesis, closing the absurd branches. *)
Ltac split_match :=
  repeat (first
    [ progress simplify_eq/=
    | case_match ]); try done.

Create HintDb net.

(** ** Loops *)

Lemma fold_outcome_app {A B} (f : B → A → outcome B) b l1 l2 :
  fold_outcome f b (l1 ++ l2) = fold_outcome f b l1 ≫= λ b', fold_outcome f b' l2.
Proof. revert b. induction l1 as [|x l1 IH]; intros b; [done|]. cbn. by destruct (f b x). Qed.

Lemma fold_outcome_pure {A B} (f : B → A → outcome B) (g : B → A → B) b l :
  (∀ b x, x ∈ l → f b x = Done (g b x)) → fold_outcome f b l = Done (foldl g b l).
Proof.
  revert b. induction l as [|x l IH]; intros b H; [done|]. cbn.
  rewrite H by set_solver. apply IH. intros; apply H; set_solver.
Qed.

Lemma foldl_ext_in {A B} (f g : B → A → B) b l :
  (∀ b x, x ∈ l → f b x = g b x) → foldl f b l = foldl g b l.
Proof.
  revert b. induction l as [|x l IH]; intros b H; [done|]. cbn.
  rewrite H by set_solver. apply IH. intros; apply H; set_solver.
Qed.

(** A loop that fills a map, when no two iterations disagree on a key. *)
Lemma foldl_insert_lookup `{Countable K} {A V} (f : A → K) (g : A → V) (l : list A) (k : K) (v : V) :
  (∀ x y, x ∈ l → y ∈ l → f x = f y → g x = g y) →
  foldl (λ (m : gmap K V) x, <[f x := g x]> m) ∅ l !! k = Some v ↔ ∃ x, x ∈ l ∧ f x = k ∧ g x = v.
Proof.
  induction l as [|y l IH] using rev_ind; intros Hf.
  { cbn. rewrite lookup_empty. split; [done|]. intros (x & []%elem_of_nil & _). }
  rewrite foldl_app. cbn. rewrite lookup_insert. case_decide as Hk.
  - split; [intros [= <-]; exists y; set_solver|]. intros (x & Hx & Hxk & <-).
    f_equal. apply Hf; set_solver.
  - rewrite IH by (intros; apply Hf; set_solver). split.
    + intros (x & Hx & ?). exists x. set_solver.
    + intros (x & [Hx|Hx]%elem_of_app & Hxk & Hg); [by exists x|].
      apply list_elem_of_singleton in Hx as ->. done.
Qed.

Lemma push_at_length {A} i (x : A) v v' : push_at i x v = Done v' → length v' = length v.
Proof. unfold push_at. destruct (v !! i); [|done]. intros [= <-]. apply length_insert. Qed.

Lemma push_at_Done {A} i (x : A) v : (i < length v)%nat → ∃ v', push_at i x v = Done v' ∧
  length v' = length v ∧
  ∀ j, v' !! j = (if decide (i = j) then (λ l, l ++ [x]) <$> v !! j else v !! j).
Proof.
  intros Hi. unfold push_at. destruct (v !! i) as [l|] eqn:E.
  2: { apply lookup_ge_None in E. lia. }
  eexists. split; [done|]. split; [apply length_insert|]. intros j. case_decide as Hj.
  - subst j. rewrite list_lookup_insert_eq by done. by rewrite E.
  - by rewrite list_lookup_insert_ne.
Qed.

(** ** Flattening with indices *)

Lemma elem_of_concat_imap {A B} (f : nat → A → list B) l y :
  y ∈ concat (imap f l) ↔ ∃ i x, l !! i = Some x ∧ y ∈ f i x.
Proof.
  revert f. induction l as [|x l IH]; intros f; cbn.
  { split; [intros []%elem_of_nil|intros (? & ? & ? & _); done]. }
  rewrite elem_of_app, IH. unfold compose. split.
  - intros [Hy|(i & z & Hi & Hy)]; [by exists 0%nat, x|by exists (S i), z].
  - intros ([|i] & z & Hi & Hy); cbn in Hi; [left; by simplify_eq|right; by exists i, z].
Qed.

Lemma NoDup_concat_imap {A B} (f : nat → A → list B) l :
  (∀ i x, l !! i = Some x → NoDup (f i x)) →
  (∀ i j x x' y, l !! i = Some x → l !! j = Some x' → y ∈ f i x → y ∈ f j x' → i = j) →
  NoDup (concat (imap f l)).
Proof.
  revert f. induction l as [|x l IH]; intros f H1 H2; cbn; [constructor|].
  apply NoDup_app. split_and!.
  - by apply (H1 0%nat).
  - intros y Hy (i & z & Hi & Hz)%elem_of_concat_imap. unfold compose in Hz.
    enough (0 = S i)%nat by lia. by apply (H2 _ _ x z y).
  - apply IH; unfold compose.
    + intros i z Hi. by apply (H1 (S i)).
    + intros i j z z' y Hi Hj Hy Hy'. enough (S i = S j) by lia. by apply (H2 _ _ z z' y).
Qed.

Lemma range_u_nodup k : NoDup (range_u k).
Proof. unfold range_u. apply NoDup_fmap_2; [intros ? ?; lia|apply NoDup_seq]. Qed.

(** Nested loops are one loop over the pairs. *)
Lemma foldl_nested {A B C} (f : C → A → B → C) (g : A → list B) (l : list A) (c : C) :
  foldl (λ c x, foldl (λ c y, f c x y) c (g x)) c l =
  foldl (λ c xy, f c xy.1 xy.2) c (l ≫= λ x, pair x <$> g x).
Proof.
  revert c. induction l as [|x l IH]; intros c; cbn; [done|].
  rewrite foldl_app, IH. f_equal. generalize (g x). intros ys. revert c.
  induction ys as [|y ys IHy]; intros c; cbn; [done|]. apply IHy.
Qed.

Lemma foldl_pair {A B X} (f : A → X → A) (g : B → X → B) (l : list X) (a : A) (b : B) :
  foldl (λ c x, (f c.1 x, g c.2 x)) (a, b) l = (foldl f a l, foldl g b l).
Proof. revert a b. induction l as [|x l IH]; intros a b; cbn; [done|]. apply IH. Qed.

Lemma foldl_cond_insert `{Countable K} {A V} (P : A → Prop) `{∀ x, Decision (P x)}
    (f : A → K) (g : A → V) (l : list A) (m : gmap K V) :
  foldl (λ m x, if decide (P x) then m else <[f x := g x]> m) m l =
  foldl (λ m x, <[f x := g x]> m) m (filter (λ x, ¬ P x) l).
Proof.
  revert m. induction l as [|x l IH]; intros m; [done|]. cbn [foldl]. rewrite IH, filter_cons.
  repeat case_decide; done.
Qed.

(** A loop that fills a vector, when no two iterations disagree on an index. *)
Lemma foldl_list_insert_length {A V} (f : A → nat) (g : A → V) (l : list A) (v : list V) :
  length (foldl (λ v x, <[f x := g x]> v) v l) = length v.
Proof. revert v. induction l as [|x l IH]; intros v; cbn; [done|]. by rewrite IH, length_insert. Qed.

Lemma foldl_list_insert_in {A V} (f : A → nat) (g : A → V) (l : list A) (v : list V) x :
  (∀ x y, x ∈ l → y ∈ l → f x = f y → g x = g y) → x ∈ l → (f x < length v)%nat →
  foldl (λ v x, <[f x := g x]> v) v l !! f x = Some (g x).
Proof.
  induction l as [|y l IH] using rev_ind; intros Hf Hx Hl; [by apply elem_of_nil in Hx|].
  rewrite foldl_app. cbn [foldl]. destruct (decide (f y = f x)) as [Hy|Hy].
  - rewrite Hy, list_lookup_insert_eq by (by rewrite foldl_list_insert_length).
    f_equal. apply Hf; set_solver.
  - rewrite list_lookup_insert_ne by done. apply IH; [|set_solver|done].
    intros; apply Hf; set_solver.
Qed.

Lemma foldl_list_insert_out {A V} (f : A → nat) (g : A → V) (l : list A) (v : list V) i :
  (∀ x, x ∈ l → f x ≠ i) → foldl (λ v x, <[f x := g x]> v) v l !! i = v !! i.
Proof.
  revert v. induction l as [|y l IH]; intros v Hi; cbn [foldl]; [done|].
  rewrite IH by (intros; apply Hi; set_solver).
  apply list_lookup_insert_ne. apply Hi. set_solver.
Qed.

Lemma foldl_filter {A} (P : A → Prop) `{∀ x, Decision (P x)} (l acc : list A) :
  foldl (λ q x, if decide (P x) then q ++ [x] else q) acc l = acc ++ filter P l.
Proof.
  revert acc. induction l as [|x l IH]; intros acc; cbn [foldl]; [by rewrite app_nil_r|].
  rewrite IH, filter_cons. case_decide; [|done]. by rewrite <- app_assoc.
Qed.
