(* ===== verification/NetTypes.v ===== *)
(** Fundamental types of interaction nets (net/types.rs): symbols, port
    references, agents, the flat port index, arities, and the compact wire
    encoding of port references. *)
From S2P Require Import Prelude.
Local Open Scope N_scope.

(** ** Identifiers and data types *)

Abbreviation AgentId := N (only parsing).
Abbreviation PortId := N (only parsing).

Inductive Symbol : Type := Con | Dup | Era.

Inductive PortRef : Type :=
| AgentPort (id : AgentId) (p : PortId)
| FreePort (i : N).

Record Agent : Type := mkAgent { symbol : Symbol; agent_id : AgentId }.

#[export] Instance Symbol_eq_dec : EqDecision Symbol.
Proof. solve_decision. Defined.
#[export] Instance PortRef_eq_dec : EqDecision PortRef.
Proof. solve_decision. Defined.
#[export] Instance Agent_eq_dec : EqDecision Agent.
Proof. solve_decision. Defined.

(** [Symbol as u8]. *)
Definition symbol_code (s : Symbol) : N :=
  match s with Con => 0 | Dup => 1 | Era => 2 end.

(** ** Constants and port arithmetic *)

Definition PORTS_PER_SLOT : N := 3.

Definition port_index (agent_id : AgentId) (port_id : PortId) : N :=
  agent_id * PORTS_PER_SLOT + port_id.

Definition DISCONNECTED : PortRef := FreePort u32_MAX.

Definition arity (s : Symbol) : N :=
  match s with Con => 2 | Dup => 2 | Era => 0 end.

Definition total_ports (s : Symbol) : N := arity s + 1.

(** A [BorderMap]: border id to the local port that owns it. *)
Definition BorderMap : Type := gmap N PortRef.

Lemma total_ports_bounds s : 1 ≤ total_ports s ≤ 3.
Proof. destruct s; unfold total_ports; simpl; lia. Qed.

(** The flat index is injective on the three ports of a slot: distinct ports
    never share a cell of the port array. *)
Lemma port_index_inj id p id' p' :
  p < 3 → p' < 3 → port_index id p = port_index id' p' → id = id' ∧ p = p'.
Proof. unfold port_index, PORTS_PER_SLOT. lia. Qed.

Lemma port_index_in_arena id p n :
  p < 3 → (N.to_nat (port_index id p) < 3 * n)%nat ↔ (N.to_nat id < n)%nat.
Proof. unfold port_index, PORTS_PER_SLOT. lia. Qed.

(** ** Wire encoding of port references

    A port reference is a tuple of one to three elements whose first element
    is a tag byte.  Integers travel as varints of the bincode package, which is
    not part of the program: the codec is a parameter, with the prefix
    round-trip law its documentation states. *)
Definition PORTREF_TAG_DISCONNECTED : N := 255.
Definition PORTREF_TAG_AGENT_PORT : N := 0.
Definition PORTREF_TAG_FREE_PORT : N := 1.

Class VarintCodec : Type := {
  put_varint : N → list N;
  get_varint : list N → option (N * list N);
  get_put_varint : ∀ x rest, x ≤ u32_MAX → get_varint (put_varint x ++ rest) = Some (x, rest);
}.

Inductive PortRefError : Type :=
| Truncated
| UnknownTag (tag : N).

(** A [u8] element is one raw byte. *)
Definition get_byte (bs : list N) : option (N * list N) :=
  match bs with [] => None | b :: r => Some (b, r) end.

Section wire.
Context `{VarintCodec}.

Definition serialize (r : PortRef) : list N :=
  match r with
  | FreePort bid =>
      if bid =? u32_MAX then [PORTREF_TAG_DISCONNECTED]
      else PORTREF_TAG_FREE_PORT :: put_varint bid
  | AgentPort id pid => PORTREF_TAG_AGENT_PORT :: put_varint id ++ [pid]
  end.

Definition visit_seq (bs : list N) : (PortRef * list N) + PortRefError :=
  match get_byte bs with
  | None => inr Truncated
  | Some (tag, bs) =>
      if tag =? PORTREF_TAG_DISCONNECTED then inl (FreePort u32_MAX, bs)
      else if tag =? PORTREF_TAG_AGENT_PORT then
        match get_varint bs with
        | None => inr Truncated
        | Some (id, bs) =>
            match get_byte bs with
            | None => inr Truncated
            | Some (pid, bs) => inl (AgentPort id pid, bs)
            end
        end
      else if tag =? PORTREF_TAG_FREE_PORT then
        match get_varint bs with
        | None => inr Truncated
        | Some (bid, bs) => inl (FreePort bid, bs)
        end
      else inr (UnknownTag tag)
  end.
End wire.

(** A port reference the program can hold: every number fits its width. *)
Definition portref_in_range (r : PortRef) : Prop :=
  match r with AgentPort id pid => id ≤ u32_MAX ∧ pid < 256 | FreePort i => i ≤ u32_MAX end.

Section wire_facts.
Context `{VarintCodec}.

Lemma visit_serialize_gen r rest :
  portref_in_range r → visit_seq (serialize r ++ rest) = inl (r, rest).
Proof.
  destruct r as [id pid|i]; simpl.
  - intros [Hid _]. unfold visit_seq. simpl.
    rewrite <- app_assoc. by rewrite (get_put_varint id _ Hid).
  - intros Hi. case_match eqn:E; unfold visit_seq; simpl.
    + apply N.eqb_eq in E. by subst.
    + by rewrite (get_put_varint i _ Hi).
Qed.
End wire_facts.

(** The variable-length integers of bincode's standard configuration, used to
    exhibit the codec interface: one byte below 251, else a marker byte and
    two or four little-endian bytes. *)
Definition le16 (x : N) : list N := [x mod 256; x / 256 mod 256].
Definition le32 (x : N) : list N :=
  [x mod 256; x / 256 mod 256; x / 65536 mod 256; x / 16777216 mod 256].

Definition std_put_varint (x : N) : list N :=
  if x <? 251 then [x]
  else if x <? 65536 then 251 :: le16 x
  else 252 :: le32 x.

Definition std_get_varint (bs : list N) : option (N * list N) :=
  match bs with
  | [] => None
  | b :: r =>
      if b <? 251 then Some (b, r)
      else if b =? 251 then
        match r with
        | a :: c :: r => Some (a + 256 * c, r)
        | _ => None
        end
      else if b =? 252 then
        match r with
        | a :: c :: d :: e :: r => Some (a + 256 * c + 65536 * d + 16777216 * e, r)
        | _ => None
        end
      else None
  end.

(** One base-256 digit: the quotient and the remainder rebuild the number. *)
Lemma digit256 (x b : N) :
  x < 256 * b → ∃ q r, x / 256 = q ∧ x mod 256 = r ∧ x = r + 256 * q ∧ r < 256 ∧ q < b.
Proof.
  intros Hx. exists (x / 256), (x mod 256).
  pose proof (N.div_mod x 256 ltac:(lia)). pose proof (N.mod_lt x 256 ltac:(lia)).
  pose proof (N.Div0.div_lt_upper_bound x 256 b Hx). repeat split; lia.
Qed.

#[export] Program Instance std_varint : VarintCodec :=
  {| put_varint := std_put_varint; get_varint := std_get_varint |}.
Next Obligation.
  intros x rest Hx. unfold std_put_varint, u32_MAX in *.
  destruct (x <? 251) eqn:E1; simpl; [by rewrite E1|].
  destruct (N.ltb_spec x 65536); simpl; do 2 f_equal.
  - destruct (digit256 x 256) as (q & r & -> & -> & Hx' & ? & ?); [lia|].
    rewrite N.mod_small; lia.
  - change 65536 with (256 * 256). change 16777216 with (256 * 256 * 256).
    rewrite <- !N.Div0.div_div.
    destruct (digit256 x 16777216) as (q1 & r1 & -> & -> & ? & ? & ?); [lia|].
    destruct (digit256 q1 65536) as (q2 & r2 & -> & -> & ? & ? & ?); [lia|].
    destruct (digit256 q2 256) as (q3 & r3 & -> & -> & ? & ? & ?); [lia|].
    rewrite N.mod_small; lia.
Qed.

(** ** Properties *)

(** The compact encoding of a port reference decodes to the same
    reference and consumes exactly the bytes written, for the disconnected
    sentinel, an agent port and a free port alike, whatever bytes follow. *)
Theorem portref_wire_roundtrip `{VarintCodec} (r : PortRef) (rest : list N) :
  portref_in_range r → visit_seq (serialize r ++ rest) = inl (r, rest).
Proof. apply visit_serialize_gen. Qed.

Lemma portref_wire_roundtrip_witness :
  visit_seq (serialize (AgentPort 16384 1) ++ [7]) = inl (AgentPort 16384 1, [7]).
Proof. apply (portref_wire_roundtrip (AgentPort 16384 1) [7]). split; vm_compute; congruence. Defined.
