(* ===== verification/NetCore.v ===== *)
(** The dense interaction net (net/core.rs): the [Net] record and its
    operations, in the order of the source file.

    The model is the release build with default cargo features: the
    [debug_assert!]s and the [cfg(debug_assertions)] blocks are compiled out.
    The conditions they test are stated as invariants in NetInv.v and as the
    executable checkers of NetDebug.v, and proved there. *)
From S2P Require Import Prelude NetTypes.
Local Open Scope N_scope.

(** ** Errors (error.rs) *)

Inductive FreeListReason : Type := DuplicateEntry | SlotIsSome.

Inductive NetError : Type :=
| AgentNotFound (id : AgentId)
| InvariantViolation
| SerializeError
| DeserializeError
| FreeListInvalid (id : AgentId) (reason : FreeListReason)
| DenseAllocationExceedsThreshold (arena_len max live_count : N)
| InvalidIdRange (start end_ : N)
| AgentIdOverflow.

(** ** State *)

Inductive RecyclePolicy : Type := DisableUnderDelta | BorderClean.

#[export] Instance RecyclePolicy_eq_dec : EqDecision RecyclePolicy.
Proof. solve_decision. Defined.

(** The six counters and shadows of [Net] that only [cfg(debug_assertions)]
    code writes; a release build carries them at their initial values. *)
Record DebugFields : Type := mkDebugFields {
  protected_tombstones : option (gset AgentId);
  free_list_pops : N;
  free_list_pops_border : N;
  free_list_pops_non_border : N;
  lifo_stalemate_fallbacks : N;
  stalemate_warned : bool;
}.

Definition debug_fields_init : DebugFields := mkDebugFields None 0 0 0 0 false.

Record Net : Type := mkNet {
  agents : list (option Agent);
  ports : list PortRef;
  redex_queue : list (AgentId * AgentId);
  next_id : AgentId;
  root : option PortRef;
  freeport_redirects : gmap N PortRef;
  free_list : list AgentId;
  id_range : option (AgentId * AgentId);
  border_entries_shadow : option (gset AgentId);
  recycle_policy : RecyclePolicy;
  is_in_delta_round : bool;
  streaming_active : bool;
  debug_fields : DebugFields;
}.

(** Field updates. *)
Definition with_arena (a : list (option Agent)) (p : list PortRef) (n : Net) : Net :=
  mkNet a p (redex_queue n) (next_id n) (root n) (freeport_redirects n) (free_list n)
    (id_range n) (border_entries_shadow n) (recycle_policy n) (is_in_delta_round n)
    (streaming_active n) (debug_fields n).
Definition with_redex_queue (q : list (AgentId * AgentId)) (n : Net) : Net :=
  mkNet (agents n) (ports n) q (next_id n) (root n) (freeport_redirects n) (free_list n)
    (id_range n) (border_entries_shadow n) (recycle_policy n) (is_in_delta_round n)
    (streaming_active n) (debug_fields n).
Definition with_next_id (i : AgentId) (n : Net) : Net :=
  mkNet (agents n) (ports n) (redex_queue n) i (root n) (freeport_redirects n) (free_list n)
    (id_range n) (border_entries_shadow n) (recycle_policy n) (is_in_delta_round n)
    (streaming_active n) (debug_fields n).
Definition with_root (r : option PortRef) (n : Net) : Net :=
  mkNet (agents n) (ports n) (redex_queue n) (next_id n) r (freeport_redirects n) (free_list n)
    (id_range n) (border_entries_shadow n) (recycle_policy n) (is_in_delta_round n)
    (streaming_active n) (debug_fields n).
Definition with_redirects (m : gmap N PortRef) (n : Net) : Net :=
  mkNet (agents n) (ports n) (redex_queue n) (next_id n) (root n) m (free_list n)
    (id_range n) (border_entries_shadow n) (recycle_policy n) (is_in_delta_round n)
    (streaming_active n) (debug_fields n).
Definition with_free_list (l : list AgentId) (n : Net) : Net :=
  mkNet (agents n) (ports n) (redex_queue n) (next_id n) (root n) (freeport_redirects n) l
    (id_range n) (border_entries_shadow n) (recycle_policy n) (is_in_delta_round n)
    (streaming_active n) (debug_fields n).
Definition with_shadow (s : option (gset AgentId)) (n : Net) : Net :=
  mkNet (agents n) (ports n) (redex_queue n) (next_id n) (root n) (freeport_redirects n)
    (free_list n) (id_range n) s (recycle_policy n) (is_in_delta_round n)
    (streaming_active n) (debug_fields n).
Definition with_delta_round (b : bool) (n : Net) : Net :=
  mkNet (agents n) (ports n) (redex_queue n) (next_id n) (root n) (freeport_redirects n)
    (free_list n) (id_range n) (border_entries_shadow n) (recycle_policy n) b
    (streaming_active n) (debug_fields n).
Definition with_recycle_policy (p : RecyclePolicy) (n : Net) : Net :=
  mkNet (agents n) (ports n) (redex_queue n) (next_id n) (root n) (freeport_redirects n)
    (free_list n) (id_range n) (border_entries_shadow n) p (is_in_delta_round n)
    (streaming_active n) (debug_fields n).

(** ** Construction *)

Definition new : Net :=
  mkNet [] [] [] 0 None ∅ [] None None DisableUnderDelta false false debug_fields_init.

(** Capacity only pre-allocates: the value is that of [new]. *)
Definition with_capacity (capacity : N) : Net :=
  mkNet [] [] [] 0 None ∅ [] None None DisableUnderDelta false false debug_fields_init.

(** ** Accessors *)

Definition get_agent (n : Net) (id : AgentId) : option Agent :=
  mjoin (agents n !! N.to_nat id).

Definition get_target (n : Net) (port : PortRef) : PortRef :=
  match port with
  | AgentPort id p =>
      let idx := N.to_nat (port_index id p) in
      match ports n !! idx with Some t => t | None => DISCONNECTED end
  | FreePort _ => DISCONNECTED
  end.

Definition is_border_protected (n : Net) (id : AgentId) : bool :=
  match border_entries_shadow n with
  | Some s => bool_decide (id ∈ s)
  | None => false
  end.

Definition is_reduced (n : Net) : bool :=
  match redex_queue n with [] => true | _ :: _ => false end.

Definition is_valid_redex (n : Net) (a b : AgentId) : bool :=
  match get_agent n a, get_agent n b with
  | Some _, Some _ => bool_decide (get_target n (AgentPort a 0) = AgentPort b 0)
  | _, _ => false
  end.

Definition live_agents (n : Net) : list Agent := omap id (agents n).

Definition count_live_agents (n : Net) : nat :=
  length (filter (λ slot, is_Some slot) (agents n)).

(** ** Agent creation *)

(** The free-list pop of [create_agent], with Strategy B's scan below a
    border-protected top. *)
Definition take_free_id (n : Net) (round_protected : bool) : Net * option AgentId :=
  match vec_pop (free_list n) with
  | None => (n, None)
  | Some (id, rest) =>
      let strategy_b_protect_engaged :=
        round_protected && bool_decide (recycle_policy n = BorderClean) in
      if strategy_b_protect_engaged && is_border_protected n id then
        match find_last_index (λ c, negb (is_border_protected n c)) rest with
        | Some idx => (with_free_list (delete idx rest ++ [id]) n, rest !! idx)
        | None => (with_free_list (rest ++ [id]) n, None)
        end
      else (with_free_list rest n, Some id)
  end.

(** [for offset in 0..PORTS_PER_SLOT { ports[base + offset] = DISCONNECTED }]. *)
Definition clear_slot (base : nat) (ps : list PortRef) : list PortRef :=
  <[(base + 2)%nat := DISCONNECTED]>
    (<[(base + 1)%nat := DISCONNECTED]> (<[base := DISCONNECTED]> ps)).

(** Re-initialisation of a recycled slot. *)
Definition install_recycled (n : Net) (id : AgentId) (s : Symbol) : Net :=
  let i := N.to_nat id in
  let ags := vec_grow (i + 1)%nat None (agents n) in
  let ps := vec_grow ((i + 1) * 3)%nat DISCONNECTED (ports n) in
  with_arena (<[i := Some (mkAgent s id)]> ags) (clear_slot (i * 3)%nat ps) n.

(** Fresh allocation at [next_id]; panics when the id space is exhausted. *)
Definition alloc_fresh (n : Net) (s : Symbol) : outcome (Net * AgentId) :=
  if next_id n <? u32_MAX then
    let id := next_id n in
    let i := N.to_nat id in
    let ags := vec_grow (i + 1)%nat None (agents n) in
    let ps := vec_grow ((i + 1) * 3)%nat DISCONNECTED (ports n) in
    Done (with_arena (<[i := Some (mkAgent s id)]> ags) ps (with_next_id (id + 1) n), id)
  else Panic.

Definition create_agent (n : Net) (s : Symbol) : outcome (Net * AgentId) :=
  let round_protected := is_in_delta_round n || streaming_active n in
  let skip_recycle := round_protected && bool_decide (recycle_policy n = DisableUnderDelta) in
  let '(n, pop_id) := if skip_recycle then (n, None) else take_free_id n round_protected in
  match pop_id with
  | Some id => Done (install_recycled n id s, id)
  | None => alloc_fresh n s
  end.

(** ** Wiring *)

Definition set_port (n : Net) (port target : PortRef) : Net :=
  match port with
  | AgentPort id p =>
      let idx := N.to_nat (port_index id p) in
      if decide (idx < length (ports n))%nat
      then with_arena (agents n) (<[idx := target]> (ports n)) n
      else n
  | FreePort _ => n
  end.

(** The redirect bookkeeping of [connect] for two free ports. *)
Definition record_redirects (a b : PortRef) (m : gmap N PortRef) : gmap N PortRef :=
  match a, b with
  | FreePort fa, FreePort fb =>
      let m := if fa =? u32_MAX then m else <[fa := b]> m in
      if fb =? u32_MAX then m else <[fb := a]> m
  | _, _ => m
  end.

(** The redex detection of [connect]. *)
Definition push_redex (a b : PortRef) (q : list (AgentId * AgentId)) : list (AgentId * AgentId) :=
  match a, b with
  | AgentPort ia 0, AgentPort ib 0 => q ++ [(ia, ib)]
  | _, _ => q
  end.

Definition connect (n : Net) (a b : PortRef) : Net :=
  let n := set_port n a b in
  let n := set_port n b a in
  let n := with_redirects (record_redirects a b (freeport_redirects n)) n in
  with_redex_queue (push_redex a b (redex_queue n)) n.

Definition disconnect (n : Net) (port : PortRef) : Net :=
  let target := get_target n port in
  let n := if decide (target = DISCONNECTED) then n else set_port n target DISCONNECTED in
  set_port n port DISCONNECTED.

(** ** Agent removal *)

Definition remove_agent (n : Net) (id : AgentId) : Net :=
  match get_agent n id with
  | None => n
  | Some agent =>
      let n := foldl (λ n p, disconnect n (AgentPort id p)) n
                 (range_u (total_ports (symbol agent))) in
      let n := with_arena (<[N.to_nat id := None]> (agents n)) (ports n) n in
      let n := with_redirects (delete id (freeport_redirects n)) n in
      if is_border_protected n id then n
      else with_free_list (free_list n ++ [id]) n
  end.

(** ** Free-list validation *)

Fixpoint validate_free_ids (n : Net) (seen : gset AgentId) (l : list AgentId) : option NetError :=
  match l with
  | [] => None
  | id :: l =>
      if decide (id ∈ seen) then Some (FreeListInvalid id DuplicateEntry)
      else match get_agent n id with
           | Some _ => Some (FreeListInvalid id SlotIsSome)
           | None => validate_free_ids n ({[id]} ∪ seen) l
           end
  end.

(** [None] is [Ok(())]. *)
Definition validate_free_list (n : Net) : option NetError :=
  validate_free_ids n ∅ (free_list n).

(** [agents.get(id).is_none_or(|s| s.is_none()) && !free_list.contains(&id)]. *)
Definition drain_one (n : Net) (id : AgentId) : Net :=
  match get_agent n id with
  | Some _ => n
  | None =>
      if decide (id ∈ free_list n) then n else with_free_list (free_list n ++ [id]) n
  end.

(** The shadow is a hash set, whose iteration order is unspecified; the model
    iterates [elements]. *)
Definition reconstruct_drain_tombstones (n : Net) : Net :=
  let n := with_delta_round false n in
  match border_entries_shadow n with
  | None => n
  | Some shadow => foldl drain_one (with_shadow None n) (elements shadow)
  end.

(** Decoding is bincode's: a parameter here. *)
Definition from_bytes (decode_value : list N → option Net) (bytes : list N) : Net + NetError :=
  match decode_value bytes with
  | None => inr DeserializeError
  | Some net =>
      match validate_free_list net with
      | Some e => inr e
      | None => inl net
      end
  end.

(** ** Union of two nets *)

(** Live agents of [other] are placed at their index. *)
Definition overlay_agents (a b : list (option Agent)) : list (option Agent) :=
  imap (λ i slot, match mjoin (b !! i) with Some ag => Some ag | None => slot end) a.

(** Non-[DISCONNECTED] targets of [other] are written over [self]'s. *)
Definition overlay_ports (a b : list PortRef) : list PortRef :=
  imap (λ i t, match b !! i with
               | Some t' => if decide (t' = DISCONNECTED) then t else t'
               | None => t
               end) a.

Definition union (self other : Net) : Net :=
  let merged_next_id := next_id self `max` next_id other in
  let agent_capacity := N.to_nat merged_next_id in
  let port_capacity := (agent_capacity * 3)%nat in
  let agents_target_len :=
    ((length (agents self) `max` length (agents other)) `max` agent_capacity)%nat in
  let ports_target_len :=
    (length (ports self) `max` (length (ports other) `max` port_capacity))%nat in
  let ags := resize agents_target_len None (agents self) in
  let ps := resize ports_target_len DISCONNECTED (ports self) in
  {| agents := overlay_agents ags (agents other);
     ports := overlay_ports ps (ports other);
     redex_queue := redex_queue self ++ redex_queue other;
     next_id := merged_next_id;
     root := root self;
     freeport_redirects := freeport_redirects other ∪ freeport_redirects self;
     free_list := free_list self;
     id_range := None;
     border_entries_shadow := None;
     recycle_policy := recycle_policy self;
     is_in_delta_round := false;
     streaming_active := false;
     debug_fields := debug_fields_init |}.

(** What remains of a net once it has been written with [serde], or archived with
    [rkyv], and read back: the fields that both are told to skip have their
    default values. *)
Definition persisted (n : Net) : Net :=
  mkNet (agents n) (ports n) (redex_queue n) (next_id n) (root n) ∅ (free_list n) None None DisableUnderDelta false false debug_fields_init.
