(* ===== verification/NetInv.v ===== *)
(** The well-formedness invariant of a dense net and the behaviour of each
    operation of NetCore.v seen through [get_agent] and [get_target].

    The invariant gathers what the program checks in debug builds: the port
    array covers the arena, ids index their own slot (I2, I3), wires are
    bidirectional and end on existing ports (T1, I1, I2), unused slots are
    disconnected (I6), and the free list holds each dead id at most once
    (I3', SPEC-22 R6, R9). *)
From S2P Require Import Prelude NetTypes NetCore.
Local Open Scope N_scope.

Declare Scope net_scope.
Delimit Scope net_scope with net.
Notation "n .[ id , p ]" := (get_target n (AgentPort id p))
  (at level 1, left associativity, format "n .[ id ,  p ]") : net_scope.
Open Scope net_scope.

(** ** The invariant *)

Definition live (n : Net) (id : AgentId) : Prop := is_Some (get_agent n id).

(** Port [p] of agent [id] exists. *)
Definition valid_port (n : Net) (id : AgentId) (p : PortId) : Prop :=
  ∃ a, get_agent n id = Some a ∧ p < total_ports (symbol a).

Record wf (n : Net) : Prop := {
  wf_ports_len : length (ports n) = (length (agents n) * 3)%nat;
  wf_arena : N.of_nat (length (agents n)) ≤ next_id n;
  wf_u32 : next_id n ≤ u32_MAX;
  wf_ids : ∀ id a, get_agent n id = Some a → agent_id a = id;
  wf_src : ∀ id p, p < 3 → n.[id, p] ≠ DISCONNECTED → valid_port n id p;
  wf_sym : ∀ id p b q, p < 3 → n.[id, p] = AgentPort b q →
    valid_port n b q ∧ n.[b, q] = AgentPort id p ∧ (b, q) ≠ (id, p);
  wf_free_nodup : NoDup (free_list n);
  wf_free_dead : ∀ id, id ∈ free_list n → get_agent n id = None ∧ id < next_id n;
}.

(** The end of a wire that may be plugged: a free port, or an existing port
    with nothing attached. *)
Definition free_end (n : Net) (r : PortRef) : Prop :=
  match r with
  | AgentPort id p => valid_port n id p ∧ n.[id, p] = DISCONNECTED
  | FreePort _ => True
  end.

(** The fields no rewriting operation touches. *)
Definition same_frame (n n' : Net) : Prop :=
  root n' = root n ∧ id_range n' = id_range n ∧
  border_entries_shadow n' = border_entries_shadow n ∧
  recycle_policy n' = recycle_policy n ∧ is_in_delta_round n' = is_in_delta_round n ∧
  streaming_active n' = streaming_active n ∧ debug_fields n' = debug_fields n.

#[export] Instance same_frame_preorder : PreOrder same_frame.
Proof. split; unfold same_frame; [intros n; naive_solver|intros a b c; intuition congruence]. Qed.

(** ** Basic facts *)

Lemma get_agent_arena n id a : get_agent n id = Some a → (N.to_nat id < length (agents n))%nat.
Proof.
  unfold get_agent. intros H. destruct (agents n !! N.to_nat id) eqn:E; [|done].
  by eapply lookup_lt_Some.
Qed.

Lemma valid_port_lt3 n id p : valid_port n id p → p < 3.
Proof. intros (a & _ & Hp). pose proof (total_ports_bounds (symbol a)). lia. Qed.

Lemma valid_port_live n id p : valid_port n id p → live n id.
Proof. intros (a & Ha & _). by exists a. Qed.

Lemma valid_port_0 n id : live n id → valid_port n id 0.
Proof. intros [a Ha]. exists a. split; [done|]. pose proof (total_ports_bounds (symbol a)). lia. Qed.

Lemma valid_port_arena n id p : valid_port n id p → (N.to_nat id < length (agents n))%nat.
Proof. intros (a & Ha & _). by eapply get_agent_arena. Qed.

Lemma valid_port_cell n id p :
  wf n → valid_port n id p → (N.to_nat (port_index id p) < length (ports n))%nat.
Proof.
  intros Hwf Hv. rewrite (wf_ports_len n Hwf), Nat.mul_comm.
  apply port_index_in_arena; eauto using valid_port_lt3, valid_port_arena.
Qed.

Lemma dead_disconnected n id p : wf n → p < 3 → get_agent n id = None → n.[id, p] = DISCONNECTED.
Proof.
  intros Hwf Hp Hd. destruct (decide (n.[id, p] = DISCONNECTED)) as [|Hne]; [done|].
  destruct (wf_src n Hwf id p Hp Hne) as (a & Ha & _). congruence.
Qed.

Lemma live_lt_next n id : wf n → live n id → id < next_id n.
Proof.
  intros Hwf [a Ha]. apply get_agent_arena in Ha. pose proof (wf_arena n Hwf). lia.
Qed.

Lemma wf_no_self n id p : wf n → p < 3 → n.[id, p] ≠ AgentPort id p.
Proof. intros Hwf Hp He. by destruct (wf_sym n Hwf id p id p Hp He) as (_ & _ & ?). Qed.

(** Two ports with the same agent-port target are the same port. *)
Lemma target_inj n id p id' p' b q :
  wf n → p < 3 → p' < 3 → n.[id, p] = AgentPort b q → n.[id', p'] = AgentPort b q →
  id = id' ∧ p = p'.
Proof.
  intros Hwf Hp Hp' H H'.
  destruct (wf_sym n Hwf _ _ _ _ Hp H) as (_ & E & _).
  destruct (wf_sym n Hwf _ _ _ _ Hp' H') as (_ & E' & _).
  rewrite E in E'. by injection E' as -> ->.
Qed.

Lemma valid_port_ext n n' id p :
  get_agent n' id = get_agent n id → valid_port n' id p ↔ valid_port n id p.
Proof. unfold valid_port. by intros ->. Qed.

#[export] Hint Resolve valid_port_lt3 valid_port_live valid_port_0 : net.

(** ** [set_port] *)

Lemma set_port_agents n r t : agents (set_port n r t) = agents n.
Proof. destruct r; simpl; [case_decide|]; done. Qed.

Lemma set_port_get_agent n r t id : get_agent (set_port n r t) id = get_agent n id.
Proof. unfold get_agent. by rewrite set_port_agents. Qed.

Lemma set_port_ports_length n r t : length (ports (set_port n r t)) = length (ports n).
Proof. destruct r; simpl; [case_decide|]; simpl; rewrite ?length_insert; done. Qed.

Lemma set_port_frame n r t :
  same_frame n (set_port n r t) ∧ redex_queue (set_port n r t) = redex_queue n ∧
  next_id (set_port n r t) = next_id n ∧ free_list (set_port n r t) = free_list n ∧
  freeport_redirects (set_port n r t) = freeport_redirects n.
Proof. destruct r; simpl; [case_decide|]; repeat split. Qed.


(** Writing one existing port changes that port only. *)
Lemma set_port_lookup n id p t b q :
  (N.to_nat (port_index id p) < length (ports n))%nat → p < 3 → q < 3 →
  (set_port n (AgentPort id p) t).[b, q] =
    if decide (AgentPort id p = AgentPort b q) then t else n.[b, q].
Proof.
  intros Hc Hp Hq. simpl. rewrite decide_True by done. simpl.
  case_decide as E.
  - injection E as -> ->. by rewrite list_lookup_insert_eq.
  - rewrite list_lookup_insert_ne; [done|]. intros Hi.
    apply E. destruct (port_index_inj id p b q) as [-> ->]; [done..| |done].
    lia.
Qed.

(** ** [connect] *)

Lemma connect_get_agent n a b id : get_agent (connect n a b) id = get_agent n id.
Proof. unfold get_agent. simpl. by rewrite !set_port_agents. Qed.

Lemma connect_frame n a b :
  same_frame n (connect n a b) ∧ next_id (connect n a b) = next_id n ∧
  free_list (connect n a b) = free_list n ∧
  agents (connect n a b) = agents n ∧ length (ports (connect n a b)) = length (ports n) ∧
  redex_queue (connect n a b) = push_redex a b (redex_queue n) ∧
  freeport_redirects (connect n a b) = record_redirects a b (freeport_redirects n).
Proof.
  unfold connect, same_frame. simpl.
  destruct (set_port_frame n a b) as ((?&?&?&?&?&?&?)&?&?&?&?).
  destruct (set_port_frame (set_port n a b) b a) as ((?&?&?&?&?&?&?)&?&?&?&?).
  rewrite !set_port_agents, !set_port_ports_length. intuition congruence.
Qed.

Lemma set_port_end n r t b q :
  wf n → free_end n r → q < 3 →
  (set_port n r t).[b, q] = if decide (r = AgentPort b q) then t else n.[b, q].
Proof.
  intros Hwf He Hq. destruct r as [id p|i]; simpl in He.
  - destruct He as [Hv _].
    apply set_port_lookup; eauto using valid_port_cell with net.
  - by rewrite decide_False.
Qed.

(** The two ends of the new wire see each other; every other port is as it
    was. *)
Lemma connect_target n a b id p :
  wf n → free_end n a → free_end n b → p < 3 →
  (connect n a b).[id, p] =
    if decide (b = AgentPort id p) then a
    else if decide (a = AgentPort id p) then b else n.[id, p].
Proof.
  intros Hwf Ha Hb Hp.
  change ((connect n a b).[id, p]) with ((set_port (set_port n a b) b a).[id, p]).
  destruct b as [ib pb|ib]; simpl in Hb.
  - destruct Hb as [Hv Hd].
    rewrite set_port_lookup; [|rewrite set_port_ports_length; by apply valid_port_cell|eauto with net|done].
    case_decide; [done|]. by apply set_port_end.
  - rewrite decide_False by done. exact (set_port_end n a _ id p Hwf Ha Hp).
Qed.

(** No port is plugged into itself; a free port may appear twice. *)
Definition apart (a b : PortRef) : Prop := ∀ id p, a = AgentPort id p → b ≠ AgentPort id p.

Lemma connect_wf n a b : wf n → free_end n a → free_end n b → apart a b → wf (connect n a b).
Proof.
  intros Hwf Ha Hb Hab.
  assert (Hend : ∀ r id p, free_end n r → r = AgentPort id p → valid_port n id p)
    by (intros ? ? ? He ->; apply He).
  destruct (connect_frame n a b) as (_ & Hn & Hf & Hag & Hpl & _).
  split.
  - rewrite Hpl, Hag. by apply wf_ports_len.
  - rewrite Hn, Hag. by apply wf_arena.
  - rewrite Hn. by apply wf_u32.
  - intros id ag. rewrite connect_get_agent. by apply wf_ids.
  - intros id p Hp. rewrite connect_target by done.
    rewrite (valid_port_ext n); [|apply connect_get_agent].
    repeat case_decide; eauto. by apply wf_src.
  - intros id p c q Hp. rewrite connect_target by done.
    rewrite (valid_port_ext n) by apply connect_get_agent.
    assert (Hsym : ∀ a b, free_end n a → free_end n b → apart a b → b = AgentPort id p → a = AgentPort c q →
      valid_port n c q ∧ (connect n a b).[c, q] = AgentPort id p ∧ (c, q) ≠ (id, p)).
    { intros a' b' Ha' Hb' Hne -> ->. specialize (Hne c q eq_refl).
      split; [apply Ha'|]. split; [|congruence].
      rewrite connect_target; [|done..|eapply valid_port_lt3, Ha'].
      rewrite decide_False by congruence. by rewrite decide_True. }
    case_decide; [|case_decide].
    + intros ->. by eapply Hsym.
    + intros ->. subst a. split; [apply Hb|]. split; [|by intros [= -> ->]; eapply Hab].
      rewrite connect_target; [|done..|eapply valid_port_lt3, Hb].
      by rewrite decide_True.
    + intros E. destruct (wf_sym n Hwf id p c q Hp E) as (Hv & Hs & Hne).
      split; [done|]. split; [|done]. rewrite connect_target by eauto with net.
      assert (Hd : ∀ r, free_end n r → r ≠ AgentPort c q).
      { intros r He ->. destruct He as [_ He]. unfold DISCONNECTED in *. congruence. }
      by rewrite !decide_False by (by apply Hd).
  - rewrite Hf. by apply wf_free_nodup.
  - intros id. rewrite Hf, Hn, connect_get_agent. by apply wf_free_dead.
Qed.

(** ** [disconnect] *)

Lemma disconnect_get_agent n r id : get_agent (disconnect n r) id = get_agent n id.
Proof. unfold disconnect. case_decide; by rewrite !set_port_get_agent. Qed.

Lemma disconnect_frame n r :
  same_frame n (disconnect n r) ∧ next_id (disconnect n r) = next_id n ∧
  free_list (disconnect n r) = free_list n ∧ agents (disconnect n r) = agents n ∧
  length (ports (disconnect n r)) = length (ports n) ∧
  redex_queue (disconnect n r) = redex_queue n ∧
  freeport_redirects (disconnect n r) = freeport_redirects n.
Proof.
  unfold disconnect. set (m := if decide _ then _ else _).
  assert (same_frame n m ∧ next_id m = next_id n ∧ free_list m = free_list n ∧
    agents m = agents n ∧ length (ports m) = length (ports n) ∧
    redex_queue m = redex_queue n ∧ freeport_redirects m = freeport_redirects n)
    as (F & ? & ? & ? & ? & ? & ?).
  { subst m. case_decide; [done|].
    destruct (set_port_frame n (get_target n r) DISCONNECTED) as (?&?&?&?&?).
    by rewrite set_port_agents, set_port_ports_length. }
  destruct (set_port_frame m r DISCONNECTED) as (F'&?&?&?&?).
  rewrite set_port_agents, set_port_ports_length.
  split; [by etrans|]. intuition congruence.
Qed.

(** Both ends of the wire are cleared, nothing else changes. *)
Lemma disconnect_target n id p b q :
  wf n → valid_port n id p → q < 3 →
  (disconnect n (AgentPort id p)).[b, q] =
    if decide ((b, q) = (id, p) ∨ n.[b, q] = AgentPort id p) then DISCONNECTED else n.[b, q].
Proof.
  intros Hwf Hv Hq. assert (Hp : p < 3) by eauto with net.
  unfold disconnect. case_decide as Hd.
  - rewrite set_port_lookup by eauto using valid_port_cell.
    case_decide as E; case_decide as E'; [done| |destruct E' as [[= -> ->]|E'] |done].
    + destruct E'. left. congruence.
    + done.
    + destruct (wf_sym n Hwf b q id p Hq E') as (_ & E2 & _). rewrite Hd in E2. done.
  - rewrite set_port_lookup; [|rewrite set_port_ports_length; by apply valid_port_cell|done..].
    case_decide as E; [rewrite decide_True; [done|left; congruence]|].
    destruct (n.[id, p]) as [c r|i] eqn:Ht.
    + destruct (wf_sym n Hwf id p c r Hp Ht) as (Hv' & Hs & _).
      rewrite set_port_lookup; [|by apply valid_port_cell|eauto with net|done].
      case_decide as E2.
      * rewrite decide_True; [done|right]. injection E2 as -> ->. done.
      * rewrite decide_False; [done|]. intros [[= -> ->]|E3]; [done|].
        destruct (wf_sym n Hwf b q id p Hq E3) as (_ & E4 & _). congruence.
    + rewrite decide_False; [done|]. intros [[= -> ->]|E3]; [done|].
      destruct (wf_sym n Hwf b q id p Hq E3) as (_ & E4 & _). simpl in *. congruence.
Qed.

Lemma disconnect_wf n id p : wf n → valid_port n id p → wf (disconnect n (AgentPort id p)).
Proof.
  intros Hwf Hv.
  destruct (disconnect_frame n (AgentPort id p)) as (_ & Hn & Hf & Hag & Hpl & _).
  split.
  - rewrite Hpl, Hag. by apply wf_ports_len.
  - rewrite Hn, Hag. by apply wf_arena.
  - rewrite Hn. by apply wf_u32.
  - intros ? ?. rewrite disconnect_get_agent. by apply wf_ids.
  - intros b q Hq. rewrite disconnect_target by done.
    rewrite (valid_port_ext n) by apply disconnect_get_agent.
    case_decide; [done|by apply wf_src].
  - intros b q c r Hq. rewrite disconnect_target by done.
    rewrite (valid_port_ext n) by apply disconnect_get_agent.
    case_decide as E; [done|]. intros Ht.
    destruct (wf_sym n Hwf b q c r Hq Ht) as (Hv' & Hs & Hne).
    split; [done|]. split; [|done]. rewrite disconnect_target by eauto with net.
    rewrite decide_False; [done|]. intros [[= -> ->]|E2]; [by destruct E; right|].
    destruct E. left. congruence.
  - rewrite Hf. by apply wf_free_nodup.
  - intros ?. rewrite Hf, Hn, disconnect_get_agent. by apply wf_free_dead.
Qed.

(** Disconnecting a list of ports of one agent, as [remove_agent] does. *)
Definition disconnect_all (n : Net) (id : AgentId) (l : list PortId) : Net :=
  foldl (λ n p, disconnect n (AgentPort id p)) n l.

Definition points_to (id : AgentId) (l : list PortId) (r : PortRef) : bool :=
  match r with
  | AgentPort c p => bool_decide (c = id ∧ p ∈ l)
  | FreePort _ => false
  end.

(** Port reference [r] is a port of agent [id]. *)
Definition owned_by (id : AgentId) (r : PortRef) : bool :=
  match r with AgentPort c _ => c =? id | FreePort _ => false end.

Lemma points_to_cons id p l r :
  points_to id (p :: l) r = bool_decide (r = AgentPort id p) || points_to id l r.
Proof.
  destruct r as [c q|i]; simpl; [|done].
  repeat case_bool_decide; set_solver.
Qed.

(** What [disconnect_all] preserves, and what it does to every port. *)
Record disconnected (n : Net) (id : AgentId) (l : list PortId) (n' : Net) : Prop := {
  dc_wf : wf n';
  dc_agents : agents n' = agents n;
  dc_frame : same_frame n n';
  dc_next : next_id n' = next_id n;
  dc_free : free_list n' = free_list n;
  dc_queue : redex_queue n' = redex_queue n;
  dc_redirects : freeport_redirects n' = freeport_redirects n;
  dc_target : ∀ b q, q < 3 → n'.[b, q] =
    if points_to id l (AgentPort b q) || points_to id l n.[b, q]
    then DISCONNECTED else n.[b, q];
}.

Lemma disconnect_all_spec l n id :
  wf n → (∀ p, p ∈ l → valid_port n id p) → disconnected n id l (disconnect_all n id l).
Proof.
  revert n. induction l as [|p l IH]; intros n Hwf Hl.
  - split; try done. intros b q Hq.
    assert (Hnil : ∀ r, points_to id [] r = false)
      by (intros []; [apply bool_decide_eq_false_2; set_solver|done]).
    by rewrite !Hnil.
  - change (disconnect_all n id (p :: l))
      with (disconnect_all (disconnect n (AgentPort id p)) id l).
    assert (Hv : valid_port n id p) by set_solver.
    destruct (disconnect_frame n (AgentPort id p)) as (F & ? & ? & Hag & ? & ? & ?).
    destruct (IH (disconnect n (AgentPort id p))) as [W A Fr Nx Fl Q R T].
    + by apply disconnect_wf.
    + intros q Hq. apply (valid_port_ext n), Hl; [apply disconnect_get_agent|set_solver].
    + split; [done|by rewrite A|by etrans|congruence..|].
      intros b q Hq. rewrite T, disconnect_target by done.
      rewrite !points_to_cons.
      case_decide as E.
      * trans DISCONNECTED; [by destruct (_ || _)|].
        destruct E as [[= -> ->]|E]; [by rewrite (bool_decide_eq_true_2 (AgentPort id p = _))|].
        rewrite (bool_decide_eq_true_2 (n.[b, q] = _)) by done. by rewrite orb_true_r.
      * rewrite (bool_decide_eq_false_2 (n.[b, q] = _)) by naive_solver.
        rewrite (bool_decide_eq_false_2 (AgentPort b q = _)) by naive_solver. done.
Qed.

(** ** [remove_agent] *)

Lemma clear_agent_get n id x :
  (N.to_nat id < length (agents n))%nat →
  get_agent (with_arena (<[N.to_nat id := None]> (agents n)) (ports n) n) x =
    if decide (x = id) then None else get_agent n x.
Proof.
  intros Hl. unfold get_agent. simpl. case_decide as E.
  - subst. by rewrite list_lookup_insert_eq.
  - rewrite list_lookup_insert_ne; [done|lia].
Qed.

(** The effect of removing a live agent: its slot is empty, every wire that
    touched it is gone, and its id is recyclable unless border-protected. *)
Record removed (n : Net) (id : AgentId) (n' : Net) : Prop := {
  rm_wf : wf n';
  rm_agent : ∀ x, get_agent n' x = if decide (x = id) then None else get_agent n x;
  rm_frame : same_frame n n';
  rm_next : next_id n' = next_id n;
  rm_arena : length (agents n') = length (agents n);
  rm_queue : redex_queue n' = redex_queue n;
  rm_redirects : freeport_redirects n' = delete id (freeport_redirects n);
  rm_free : free_list n' = if is_border_protected n id then free_list n else free_list n ++ [id];
  rm_target : ∀ b q, q < 3 → n'.[b, q] =
    if owned_by id (AgentPort b q) || owned_by id n.[b, q] then DISCONNECTED else n.[b, q];
}.

Definition erase_slot (n : Net) (id : AgentId) : Net :=
  with_redirects (delete id (freeport_redirects n))
    (with_arena (<[N.to_nat id := None]> (agents n)) (ports n) n).

Definition recycle_id (n : Net) (id : AgentId) : Net :=
  if is_border_protected n id then n else with_free_list (free_list n ++ [id]) n.

Lemma erase_slot_get_agent n id x :
  live n id → get_agent (erase_slot n id) x = if decide (x = id) then None else get_agent n x.
Proof. intros [a Ha]. apply (clear_agent_get n). by eapply get_agent_arena. Qed.

Lemma recycle_id_get_agent n id x : get_agent (recycle_id n id) x = get_agent n x.
Proof. unfold recycle_id. by destruct (is_border_protected n id). Qed.

(** An agent with no wire can be erased. *)
Lemma erase_slot_wf n id :
  wf n → live n id → (∀ q, q < 3 → n.[id, q] = DISCONNECTED) → wf (erase_slot n id).
Proof.
  intros Hwf Hlive Hd.
  assert (Hv : ∀ b q, b ≠ id → valid_port n b q → valid_port (erase_slot n id) b q).
  { intros b q Hb. apply valid_port_ext. by rewrite erase_slot_get_agent, decide_False. }
  split; simpl.
  - rewrite length_insert. by apply wf_ports_len.
  - rewrite length_insert. by apply wf_arena.
  - by apply wf_u32.
  - intros x a. rewrite erase_slot_get_agent by done. case_decide; [done|by apply wf_ids].
  - intros b q Hq Ht. apply Hv; [|by apply wf_src].
    intros ->. by apply Ht, Hd.
  - intros b q c r Hq Ht. destruct (wf_sym n Hwf b q c r Hq Ht) as (Hc & Hs & Hne).
    split; [|done]. apply Hv; [|done]. intros ->.
    rewrite Hd in Hs by eauto with net. done.
  - by apply wf_free_nodup.
  - intros x Hx. destruct (wf_free_dead n Hwf x Hx). split; [|done].
    rewrite erase_slot_get_agent by done. by case_decide.
Qed.

Lemma recycle_id_wf n id :
  wf n → get_agent n id = None → id < next_id n → id ∉ free_list n → wf (recycle_id n id).
Proof.
  intros Hwf Hd Hlt Hni. unfold recycle_id. destruct (is_border_protected n id); [done|].
  destruct Hwf as [? ? ? ? ? ? Hnd Hfd]. split; try done; simpl.
  - apply NoDup_app. split; [done|]. split; [set_solver|apply NoDup_singleton].
  - intros x [?| ->%list_elem_of_singleton]%elem_of_app; [by apply Hfd|done].
Qed.

(** In a well-formed net, a target owned by [id] is one of its own ports. *)
Lemma points_to_own n id a r b q :
  wf n → get_agent n id = Some a → q < 3 → n.[b, q] = r →
  points_to id (range_u (total_ports (symbol a))) r = owned_by id r.
Proof.
  intros Hwf Ha Hq E. destruct r as [c r|]; [|done]. simpl.
  destruct (N.eqb_spec c id) as [->|]; [|by apply bool_decide_eq_false_2; intros [? _]].
  apply bool_decide_eq_true_2. split; [done|].
  destruct (wf_sym n Hwf b q id r Hq E) as ((a' & Ha' & Hr) & _).
  apply elem_of_range_u. congruence.
Qed.

Lemma disconnect_own_target n id a b q :
  wf n → get_agent n id = Some a → q < 3 →
  (disconnect_all n id (range_u (total_ports (symbol a)))).[b, q] =
    if owned_by id (AgentPort b q) || owned_by id n.[b, q] then DISCONNECTED else n.[b, q].
Proof.
  intros Hwf Ha Hq.
  assert (Hdc := disconnect_all_spec (range_u (total_ports (symbol a))) n id Hwf).
  rewrite (dc_target _ _ _ _ (Hdc ltac:(intros p Hp%elem_of_range_u; by exists a))) by done.
  erewrite (points_to_own n id a n.[b, q]) by done. simpl.
  destruct (N.eqb_spec b id) as [->|]; [|by rewrite bool_decide_eq_false_2 by (by intros [? _])].
  case_bool_decide as E; [done|]. simpl. destruct (owned_by _ _); [done|].
  destruct (decide (n.[id, q] = DISCONNECTED)) as [|Hd]; [done|].
  destruct (wf_src n Hwf id q Hq Hd) as (a' & Ha' & Hr).
  destruct E. split; [done|]. apply elem_of_range_u. congruence.
Qed.

Lemma remove_agent_spec n id : wf n → live n id → removed n id (remove_agent n id).
Proof.
  intros Hwf [a Ha].
  set (m := disconnect_all n id (range_u (total_ports (symbol a)))).
  assert (Hm : disconnected n id (range_u (total_ports (symbol a))) m).
  { apply disconnect_all_spec; [done|]. intros p Hp%elem_of_range_u. by exists a. }
  destruct Hm as [W A F Nx Fl Q R _].
  assert (Hga : ∀ x, get_agent m x = get_agent n x) by (intros x; unfold get_agent; by rewrite A).
  assert (Hlive : live m id) by (exists a; by rewrite Hga).
  assert (HT := disconnect_own_target n id a). fold m in HT.
  assert (Hdisc : ∀ q, q < 3 → m.[id, q] = DISCONNECTED)
    by (intros q Hq; rewrite HT by done; simpl; by rewrite N.eqb_refl).
  replace (remove_agent n id) with (recycle_id (erase_slot m id) id)
    by (unfold remove_agent; by rewrite Ha).
  assert (Hprot : is_border_protected (erase_slot m id) id = is_border_protected n id)
    by (unfold is_border_protected; simpl; by destruct F as (_ & _ & -> & _)).
  split.
  - apply recycle_id_wf; [by apply erase_slot_wf|..].
    + rewrite erase_slot_get_agent by done. by rewrite decide_True.
    + simpl. rewrite Nx. apply live_lt_next; [done|by exists a].
    + simpl. rewrite Fl. intros Hin. destruct (wf_free_dead n Hwf id Hin). congruence.
  - intros x. rewrite recycle_id_get_agent, erase_slot_get_agent, Hga by done. done.
  - unfold recycle_id. destruct (is_border_protected _ _); exact F.
  - unfold recycle_id. destruct (is_border_protected _ _); exact Nx.
  - unfold recycle_id. rewrite <- A. destruct (is_border_protected _ _); apply length_insert.
  - unfold recycle_id. destruct (is_border_protected _ _); exact Q.
  - unfold recycle_id. rewrite <- R. by destruct (is_border_protected _ _).
  - unfold recycle_id. rewrite Hprot. destruct (is_border_protected n id); cbn [free_list with_free_list erase_slot with_redirects with_arena]; by rewrite Fl.
  - intros b q Hq. rewrite <- HT by done.
    unfold recycle_id. by destruct (is_border_protected _ _).
Qed.

(** ** [create_agent] *)

(** The free-list pop: nothing is lost, and under Strategy B in a protected
    round the popped id is not border-referenced. *)
Lemma take_free_id_spec n b n' o :
  take_free_id n b = (n', o) →
  (∃ l', n' = with_free_list l' n ∧
    match o with Some id => free_list n ≡ₚ id :: l' | None => free_list n = l' end) ∧
  (∀ id, o = Some id → b = true → recycle_policy n = BorderClean → is_border_protected n id = false).
Proof.
  unfold take_free_id. destruct (vec_pop (free_list n)) as [[top rest]|] eqn:Hp.
  2:{ intros [= <- <-]. split; [|done]. exists (free_list n). by destruct n. }
  apply vec_pop_Some in Hp. rewrite Hp.
  destruct (b && bool_decide (recycle_policy n = BorderClean)) eqn:Hb; simpl.
  2:{ intros [= <- <-]. split; [exists rest; split; [done|solve_Permutation]|].
      intros id _ -> Hr. by rewrite bool_decide_eq_true_2 in Hb. }
  destruct (is_border_protected n top) eqn:Ht.
  2:{ intros [= <- <-]. split; [exists rest; split; [done|solve_Permutation]|].
      by intros id [= <-]. }
  destruct (find_last_index _ rest) as [i|] eqn:Hf; intros [= <- <-].
  - destruct (find_last_index_Some _ _ _ Hf) as (c & Hc & Hnp). rewrite Hc. split.
    + exists (delete i rest ++ [top]). split; [done|].
      rewrite (delete_Permutation rest i c) at 1 by done. solve_Permutation.
    + intros id [= <-] _ _. by apply negb_true_iff.
  - split; [|done]. by exists (rest ++ [top]).
Qed.

Lemma place_get_agent n nx ags ps id a x :
  get_agent (with_arena (<[N.to_nat id := Some a]> (vec_grow (N.to_nat id + 1)%nat None ags)) ps nx) x =
    if decide (x = id) then Some a
    else get_agent (with_arena ags (ports n) n) x.
Proof.
  unfold get_agent. simpl. case_decide as E.
  - subst. rewrite list_lookup_insert_eq; [done|]. rewrite vec_grow_length. lia.
  - rewrite list_lookup_insert_ne by lia. rewrite vec_grow_lookup.
    destruct (ags !! N.to_nat x); [done|]. by case_decide.
Qed.

(** Reading a port array with [DISCONNECTED] beyond its end. *)
Definition port_at (ps : list PortRef) (i : nat) : PortRef :=
  match ps !! i with Some t => t | None => DISCONNECTED end.

Lemma port_at_grow ps k i : port_at (vec_grow k DISCONNECTED ps) i = port_at ps i.
Proof. unfold port_at. rewrite vec_grow_lookup. destruct (ps !! i); [done|]. by case_decide. Qed.

Lemma port_at_insert ps j t i :
  port_at (<[j := t]> ps) i = if decide (i = j ∧ (j < length ps)%nat) then t else port_at ps i.
Proof.
  unfold port_at. case_decide as E.
  - destruct E as [-> ?]. by rewrite list_lookup_insert_eq.
  - destruct (decide (i = j)) as [->|]; [|by rewrite list_lookup_insert_ne].
    rewrite list_insert_ge; [done|lia].
Qed.

Lemma port_at_clear ps base i :
  port_at (clear_slot base ps) i =
    if decide (base ≤ i < base + 3)%nat then DISCONNECTED else port_at ps i.
Proof.
  unfold clear_slot. rewrite !port_at_insert, !length_insert.
  repeat case_decide; try done; try lia.
  unfold port_at. rewrite lookup_ge_None_2; [done|lia].
Qed.

(** The effect of a creation: a dead id becomes an unwired agent. *)
Record created (n : Net) (s : Symbol) (n' : Net) (id : AgentId) : Prop := {
  cr_wf : wf n';
  cr_dead : get_agent n id = None;
  cr_origin : id ∈ free_list n ∨ id = next_id n;
  cr_agent : ∀ x, get_agent n' x = if decide (x = id) then Some (mkAgent s id) else get_agent n x;
  cr_target : ∀ b q, q < 3 → n'.[b, q] = n.[b, q];
  cr_frame : same_frame n n';
  cr_next : next_id n ≤ next_id n' ≤ next_id n + 1;
  cr_queue : redex_queue n' = redex_queue n;
  cr_redirects : freeport_redirects n' = freeport_redirects n;
  cr_free : ∀ x, x ∈ free_list n' → x ∈ free_list n;
}.

(** Any net that agrees with [n] except for one more unwired agent. *)
Lemma placed_wf n n' s id :
  wf n → get_agent n id = None → id < next_id n' → next_id n ≤ next_id n' ≤ u32_MAX →
  length (agents n') = (length (agents n) `max` (N.to_nat id + 1))%nat →
  length (ports n') = (length (agents n') * 3)%nat →
  (∀ x, get_agent n' x = if decide (x = id) then Some (mkAgent s id) else get_agent n x) →
  (∀ b q, q < 3 → n'.[b, q] = n.[b, q]) →
  NoDup (free_list n') → (∀ x, x ∈ free_list n' → x ∈ free_list n ∧ x ≠ id) → wf n'.
Proof.
  intros Hwf Hdead Hid Hnx Hla Hlp Hag Ht Hnd Hfr.
  assert (Hv : ∀ b q, valid_port n b q → valid_port n' b q).
  { intros b q (a & Ha & Hq). exists a. split; [|done]. rewrite Hag, decide_False; congruence. }
  split; try done.
  - rewrite Hla. pose proof (wf_arena n Hwf). lia.
  - lia.
  - intros x a. rewrite Hag. case_decide; [by intros [= <-]|by apply wf_ids].
  - intros b q Hq. rewrite Ht by done. intros. by apply Hv, wf_src.
  - intros b q c r Hq. rewrite Ht by done. intros E.
    destruct (wf_sym n Hwf b q c r Hq E) as (Hc & Hs & Hne).
    split; [by apply Hv|]. split; [|done]. rewrite Ht by eauto with net. done.
  - intros x Hx. destruct (Hfr x Hx) as [Hx' Hne].
    destruct (wf_free_dead n Hwf x Hx') as [? ?].
    rewrite Hag, decide_False by done. split; [done|lia].
Qed.

Lemma get_target_port_at n id p : n.[id, p] = port_at (ports n) (N.to_nat (port_index id p)).
Proof. done. Qed.

Lemma install_recycled_spec n n0 s id :
  wf n0 → get_agent n0 id = None → free_list n0 ≡ₚ id :: free_list n →
  n = with_free_list (free_list n) n0 → created n0 s (install_recycled n id s) id.
Proof.
  intros Hwf Hdead Hperm Hn.
  assert (Hin : id ∈ free_list n0) by (rewrite Hperm; set_solver).
  destruct (wf_free_dead n0 Hwf id Hin) as [_ Hlt].
  assert (Hag : ∀ x, get_agent (install_recycled n id s) x =
    if decide (x = id) then Some (mkAgent s id) else get_agent n0 x).
  { intros x. unfold install_recycled. rewrite (place_get_agent n0), Hn. done. }
  assert (Ht : ∀ b q, q < 3 → (install_recycled n id s).[b, q] = n0.[b, q]).
  { intros b q Hq. rewrite !get_target_port_at. unfold install_recycled. simpl.
    rewrite port_at_clear, port_at_grow. rewrite Hn. simpl. case_decide as E; [|done].
    rewrite <- get_target_port_at. symmetry. apply dead_disconnected; [done..|].
    replace b with id; [done|]. unfold port_index, PORTS_PER_SLOT in E. lia. }
  assert (Hnd : NoDup (id :: free_list n)) by (rewrite <- Hperm; by apply wf_free_nodup).
  apply NoDup_cons in Hnd as [Hni Hnd].
  assert (Hsub : ∀ x, x ∈ free_list n → x ∈ free_list n0) by (intros x; rewrite Hperm; set_solver).
  assert (Hnx : next_id (install_recycled n id s) = next_id n0) by (unfold install_recycled; by rewrite Hn).
  assert (Hla : length (agents (install_recycled n id s)) = (length (agents n0) `max` (N.to_nat id + 1))%nat).
  { unfold install_recycled. simpl. rewrite length_insert, vec_grow_length. by rewrite Hn. }
  split; try done; try (by left); try (unfold install_recycled; by rewrite Hn).
  - apply (placed_wf n0 _ s id); try done; rewrite ?Hnx; try done.
    + split; [done|by apply wf_u32].
    + rewrite Hla. unfold install_recycled, clear_slot. simpl.
      rewrite !length_insert, vec_grow_length. rewrite Hn. simpl.
      rewrite (wf_ports_len n0) by done. lia.
    + intros x Hx. split; [by apply Hsub|]. intros ->. by apply Hni.
  - rewrite Hnx. lia.
Qed.

Lemma alloc_fresh_spec n s n' id : wf n → alloc_fresh n s = Done (n', id) → created n s n' id.
Proof.
  intros Hwf. unfold alloc_fresh. destruct (N.ltb_spec (next_id n) u32_MAX); [|done].
  intros [= <- <-].
  assert (Hdead : get_agent n (next_id n) = None).
  { destruct (get_agent n (next_id n)) eqn:E; [|done].
    pose proof (live_lt_next n (next_id n) Hwf ltac:(by eexists)). lia. }
  set (n' := with_arena _ _ _).
  assert (Hag : ∀ x, get_agent n' x =
    if decide (x = next_id n) then Some (mkAgent s (next_id n)) else get_agent n x).
  { intros x. apply (place_get_agent n). }
  assert (Ht : ∀ b q, q < 3 → n'.[b, q] = n.[b, q])
    by (intros b q Hq; rewrite !get_target_port_at; apply port_at_grow).
  assert (Hla : length (agents n') = (length (agents n) `max` (N.to_nat (next_id n) + 1))%nat)
    by (subst n'; simpl; by rewrite length_insert, vec_grow_length).
  split; try done; try (by right).
  - apply (placed_wf n _ s (next_id n)); try done; simpl; try lia.
    + rewrite length_insert, !vec_grow_length, (wf_ports_len n) by done. lia.
    + by apply wf_free_nodup.
    + intros x Hx. split; [done|]. destruct (wf_free_dead n Hwf x Hx). lia.
  - simpl. lia.
Qed.

Lemma create_agent_spec n s n' id : wf n → create_agent n s = Done (n', id) → created n s n' id.
Proof.
  intros Hwf. unfold create_agent.
  set (rp := is_in_delta_round n || streaming_active n).
  destruct (rp && _); [by apply alloc_fresh_spec|].
  destruct (take_free_id n rp) as [m o] eqn:Ht.
  apply take_free_id_spec in Ht as [(l & -> & Hl) _]. destruct o as [i|].
  - intros [= <- <-]. apply install_recycled_spec; try done.
    apply (wf_free_dead n Hwf). rewrite Hl. set_solver.
  - rewrite <- Hl. intros Hc. apply alloc_fresh_spec; [done|]. rewrite <- Hc. by destruct n.
Qed.

(** Creation succeeds as long as the id space is not exhausted. *)
Lemma create_agent_total n s : next_id n < u32_MAX → ∃ n' id, create_agent n s = Done (n', id).
Proof.
  intros Hlt. unfold create_agent.
  set (rp := is_in_delta_round n || streaming_active n).
  destruct (rp && _).
  - unfold alloc_fresh. destruct (N.ltb_spec (next_id n) u32_MAX); [|lia]. eauto.
  - destruct (take_free_id n rp) as [m o] eqn:Ht.
    apply take_free_id_spec in Ht as [(l & -> & Hl) _]. destruct o; [eauto|].
    unfold alloc_fresh. simpl. destruct (N.ltb_spec (next_id n) u32_MAX); [|lia]. eauto.
Qed.
