(* ===== verification/Reduction.v ===== *)
(** The reduction engine (reduction/dispatch.rs, reduction/rules.rs,
    reduction/engine.rs, reduction/mod.rs): rule dispatch, the four
    interaction functions, the reduction loops and their statistics. *)
From S2P Require Import Prelude NetTypes NetCore.
Local Open Scope N_scope.

(** ** Dispatch *)

Inductive Rule : Type := Anni | Comm | Eras | Void.

Inductive SpecificRule : Type := ConCon | ConDup | ConEra | DupDup | DupEra | EraEra.

#[export] Instance Rule_eq_dec : EqDecision Rule.
Proof. solve_decision. Defined.
#[export] Instance SpecificRule_eq_dec : EqDecision SpecificRule.
Proof. solve_decision. Defined.

Definition DISPATCH_TABLE : list (list Rule) :=
  [ [Anni; Comm; Eras];
    [Comm; Anni; Eras];
    [Eras; Eras; Void] ].

Definition SPECIFIC_RULE_TABLE : list (list SpecificRule) :=
  [ [ConCon; ConDup; ConEra];
    [ConDup; DupDup; DupEra];
    [ConEra; DupEra; EraEra] ].

(** [TABLE[a as usize][b as usize]]; the default is never reached, the tables
    being 3 by 3. *)
Definition table_at {A} (d : A) (t : list (list A)) (a b : Symbol) : A :=
  nth (N.to_nat (symbol_code b)) (nth (N.to_nat (symbol_code a)) t []) d.

Definition get_rule (a b : Symbol) : Rule := table_at Void DISPATCH_TABLE a b.

Definition get_specific_rule (a b : Symbol) : SpecificRule :=
  table_at EraEra SPECIFIC_RULE_TABLE a b.

(** [agents[id].unwrap().symbol]. *)
Definition symbol_at (n : Net) (id : AgentId) : outcome Symbol :=
  symbol <$> unwrap (get_agent n id).

Definition normalize_pair (a b : AgentId) (n : Net) : outcome (AgentId * AgentId) :=
  sym_a ← symbol_at n a;
  sym_b ← symbol_at n b;
  mret (if symbol_code sym_a <=? symbol_code sym_b then (a, b) else (b, a)).

(** ** Rules *)

Definition is_removed (n : Net) (r : PortRef) : bool :=
  match r with
  | AgentPort id _ => match get_agent n id with None => true | Some _ => false end
  | FreePort _ => false
  end.

Definition link (n : Net) (a b : PortRef) : Net :=
  if is_removed n a || is_removed n b then n else connect n a b.

Definition interact_void (n : Net) (a b : AgentId) : Net :=
  remove_agent (remove_agent n a) b.

(** The two auxiliary targets [t1], [t2] of [id] are its own auxiliary ports. *)
Definition self_loop (id : AgentId) (t1 t2 : PortRef) : bool :=
  bool_decide (t1 = AgentPort id 2 ∧ t2 = AgentPort id 1).

Definition interact_anni (n : Net) (a_id b_id : AgentId) : outcome Net :=
  sym ← symbol_at n a_id;
  let a1 := get_target n (AgentPort a_id 1) in
  let a2 := get_target n (AgentPort a_id 2) in
  let b1 := get_target n (AgentPort b_id 1) in
  let b2 := get_target n (AgentPort b_id 2) in
  let a_self_loop := self_loop a_id a1 a2 in
  let b_self_loop := self_loop b_id b1 b2 in
  let n := remove_agent (remove_agent n a_id) b_id in
  if a_self_loop && b_self_loop then mret n
  else if b_self_loop then mret (link n a1 a2)
  else if a_self_loop then mret (link n b1 b2)
  else match sym with
       | Con => mret (link (link n a1 b2) a2 b1)
       | Dup => mret (link (link n a1 b1) a2 b2)
       | Era => Panic
       end.

Definition interact_eras (n : Net) (node_id era_id : AgentId) : outcome Net :=
  let a1 := get_target n (AgentPort node_id 1) in
  let a2 := get_target n (AgentPort node_id 2) in
  let looped := self_loop node_id a1 a2 in
  let n := remove_agent (remove_agent n node_id) era_id in
  if looped then mret n
  else
    '(n, e1) ← create_agent n Era;
    '(n, e2) ← create_agent n Era;
    mret (link (link n (AgentPort e1 0) a1) (AgentPort e2 0) a2).

Definition interact_comm (n : Net) (con_id dup_id : AgentId) : outcome Net :=
  let a1 := get_target n (AgentPort con_id 1) in
  let a2 := get_target n (AgentPort con_id 2) in
  let b1 := get_target n (AgentPort dup_id 1) in
  let b2 := get_target n (AgentPort dup_id 2) in
  let con_self_loop := self_loop con_id a1 a2 in
  let dup_self_loop := self_loop dup_id b1 b2 in
  let n := remove_agent (remove_agent n con_id) dup_id in
  if con_self_loop && dup_self_loop then mret n
  else if con_self_loop then
    '(n, r) ← create_agent n Con;
    '(n, s) ← create_agent n Con;
    let n := connect n (AgentPort r 1) (AgentPort r 2) in
    let n := connect n (AgentPort s 1) (AgentPort s 2) in
    mret (link (link n (AgentPort r 0) b1) (AgentPort s 0) b2)
  else if dup_self_loop then
    '(n, p) ← create_agent n Dup;
    '(n, q) ← create_agent n Dup;
    let n := connect n (AgentPort p 1) (AgentPort p 2) in
    let n := connect n (AgentPort q 1) (AgentPort q 2) in
    mret (link (link n (AgentPort p 0) a1) (AgentPort q 0) a2)
  else
    '(n, p) ← create_agent n Dup;
    '(n, q) ← create_agent n Dup;
    '(n, r) ← create_agent n Con;
    '(n, s) ← create_agent n Con;
    let n := link n (AgentPort p 0) a1 in
    let n := link n (AgentPort q 0) a2 in
    let n := link n (AgentPort r 0) b1 in
    let n := link n (AgentPort s 0) b2 in
    let n := connect n (AgentPort p 1) (AgentPort r 1) in
    let n := connect n (AgentPort p 2) (AgentPort s 1) in
    let n := connect n (AgentPort q 1) (AgentPort r 2) in
    mret (connect n (AgentPort q 2) (AgentPort s 2)).

(** ** Engine *)

Inductive StepResult : Type :=
| Reduced (r : Rule) (s : SpecificRule)
| NormalForm.

Definition apply_rule (n : Net) (r : Rule) (a b : AgentId) : outcome Net :=
  match r with
  | Anni => interact_anni n a b
  | Comm => interact_comm n a b
  | Eras => interact_eras n a b
  | Void => mret (interact_void n a b)
  end.

(** Steps 3 to 6 of [reduce_step] on a valid pair. *)
Definition fire (n : Net) (a_id b_id : AgentId) : outcome (Net * StepResult) :=
  '(a, b) ← normalize_pair a_id b_id n;
  sym_a ← symbol_at n a;
  sym_b ← symbol_at n b;
  let rule := get_rule sym_a sym_b in
  n ← apply_rule n rule a b;
  mret (n, Reduced rule (get_specific_rule sym_a sym_b)).

(** The dequeuing loop: [q] is the queue still to be examined. *)
Fixpoint reduce_from (n : Net) (q : list (AgentId * AgentId)) : outcome (Net * StepResult) :=
  match q with
  | [] => mret (with_redex_queue [] n, NormalForm)
  | (a_id, b_id) :: q =>
      let n := with_redex_queue q n in
      if is_valid_redex n a_id b_id then fire n a_id b_id else reduce_from n q
  end.

Definition reduce_step (n : Net) : outcome (Net * StepResult) :=
  reduce_from n (redex_queue n).

Record ReductionStats : Type := mkStats {
  total_interactions : N;
  anni_count : N;
  comm_count : N;
  eras_count : N;
  void_count : N;
  interactions_by_rule : list N;
}.

Definition stats_zero : ReductionStats := mkStats 0 0 0 0 0 (replicate 6 0).

(** [specific as usize]. *)
Definition specific_index (s : SpecificRule) : nat :=
  match s with
  | ConCon => 0 | ConDup => 1 | ConEra => 2 | DupDup => 3 | DupEra => 4 | EraEra => 5
  end.

(** The counter updates shared by the loops.  A [u64] counter cannot reach
    its bound in a feasible run; it is an unbounded [N] here. *)
Definition count_step (st : ReductionStats) (r : Rule) (s : SpecificRule) : ReductionStats :=
  mkStats (total_interactions st + 1)
    (match r with Anni => anni_count st + 1 | _ => anni_count st end)
    (match r with Comm => comm_count st + 1 | _ => comm_count st end)
    (match r with Eras => eras_count st + 1 | _ => eras_count st end)
    (match r with Void => void_count st + 1 | _ => void_count st end)
    (alter N.succ (specific_index s) (interactions_by_rule st)).

(** [reduce_n]: at most [budget] interactions. *)
Fixpoint reduce_n_from (n : Net) (st : ReductionStats) (budget : nat) : outcome (Net * ReductionStats) :=
  match budget with
  | O => mret (n, st)
  | S budget =>
      '(n, r) ← reduce_step n;
      match r with
      | NormalForm => mret (n, st)
      | Reduced rule specific => reduce_n_from n (count_step st rule specific) budget
      end
  end.

Definition reduce_n (n : Net) (budget : nat) : outcome (Net * ReductionStats) :=
  reduce_n_from n stats_zero budget.

(** [reduce_all] loops until normal form and need not terminate; [None] is
    fuel exhaustion. *)
Fixpoint reduce_all_from (fuel : nat) (n : Net) (st : ReductionStats)
    : option (outcome (Net * ReductionStats)) :=
  match fuel with
  | O => None
  | S fuel =>
      match reduce_step n with
      | Panic => Some Panic
      | Done (n, NormalForm) => Some (Done (n, st))
      | Done (n, Reduced rule specific) => reduce_all_from fuel n (count_step st rule specific)
      end
  end.

Definition reduce_all (fuel : nat) (n : Net) : option (outcome (Net * ReductionStats)) :=
  reduce_all_from fuel n stats_zero.

(** [reduce_border_once]: one pass over the pairs queued at entry. *)
Fixpoint border_pass (initial deferred : list (AgentId * AgentId)) (n : Net) (st : ReductionStats)
    : outcome (Net * ReductionStats) :=
  match initial with
  | [] => mret (with_redex_queue (deferred ++ redex_queue n) n, st)
  | (a_id, b_id) :: initial =>
      if is_valid_redex n a_id b_id then
        let deferred := deferred ++ redex_queue n in
        '(n, r) ← reduce_step (with_redex_queue [(a_id, b_id)] n);
        match r with
        | NormalForm => border_pass initial deferred n st
        | Reduced rule specific => border_pass initial deferred n (count_step st rule specific)
        end
      else border_pass initial deferred n st
  end.

Definition reduce_border_once (n : Net) : outcome (Net * ReductionStats) :=
  border_pass (redex_queue n) [] (with_redex_queue [] n) stats_zero.

Definition count_valid_active_pairs (n : Net) : nat :=
  length (filter (λ ab, is_valid_redex n ab.1 ab.2 = true) (redex_queue n)).
