(* ===== verification/ReductionInv.v ===== *)
(** Rewriting preserves well-formedness, and what each rule does to the net.

    A rule is: remove the two agents of the pair, create agents, plug a list
    of wires.  [plug] and its lemma treat the last part once for all rules;
    [pair_gone] and [spawned] describe the first two. *)
From S2P Require Import Prelude NetTypes NetCore NetInv Reduction.
Local Open Scope N_scope.
Open Scope net_scope.

(** ** Plugging a list of wires *)

Abbreviation Wire := (PortRef * PortRef)%type (only parsing).

Definition plug (n : Net) (ws : list Wire) : Net := foldl (λ n w, connect n w.1 w.2) n ws.

Definition ends (ws : list Wire) : list PortRef := flat_map (λ w, [w.1; w.2]) ws.

Definition is_agent_port (r : PortRef) : bool :=
  match r with AgentPort _ _ => true | FreePort _ => false end.

(** Every end can be plugged and no agent port is used twice. *)
Definition pluggable (n : Net) (ws : list Wire) : Prop :=
  Forall (free_end n) (ends ws) ∧
  NoDup (filter (λ r, is_agent_port r = true) (ends ws)).

(** The other end of the wire that [r] is an end of. *)
Fixpoint partner (ws : list Wire) (r : PortRef) : option PortRef :=
  match ws with
  | [] => None
  | (a, b) :: ws =>
      if decide (b = r) then Some a else if decide (a = r) then Some b else partner ws r
  end.

Lemma partner_Some ws r r' : partner ws r = Some r' → r ∈ ends ws.
Proof.
  induction ws as [|[a b] ws IH]; simpl; [done|].
  repeat case_decide; set_solver.
Qed.

Lemma partner_None ws r : partner ws r = None → r ∉ ends ws.
Proof.
  induction ws as [|[a b] ws IH]; simpl; [set_solver|].
  repeat case_decide; set_solver.
Qed.

Lemma plug_get_agent ws n x : get_agent (plug n ws) x = get_agent n x.
Proof.
  revert n. induction ws as [|w ws IH]; intros n; [done|].
  change (plug n (w :: ws)) with (plug (connect n w.1 w.2) ws).
  by rewrite IH, connect_get_agent.
Qed.

(** The queue entries the wires add, in order. *)
Definition wire_redexes (ws : list Wire) : list (AgentId * AgentId) :=
  foldl (λ q w, push_redex w.1 w.2 q) [] ws.

Lemma push_redex_app a b q : push_redex a b q = q ++ push_redex a b [].
Proof. unfold push_redex. repeat case_match; by rewrite ?app_nil_r. Qed.

Lemma fold_redexes_app ws q :
  foldl (λ q w, push_redex w.1 w.2 q) q ws = q ++ wire_redexes ws.
Proof.
  unfold wire_redexes. revert q. induction ws as [|w ws IH]; intros q; simpl; [by rewrite app_nil_r|].
  rewrite IH, (IH (push_redex w.1 w.2 [])), (push_redex_app _ _ q). by rewrite app_assoc.
Qed.

Record plugged (n : Net) (ws : list Wire) (n' : Net) : Prop := {
  pl_wf : wf n';
  pl_frame : same_frame n n';
  pl_next : next_id n' = next_id n;
  pl_free : free_list n' = free_list n;
  pl_queue : redex_queue n' = redex_queue n ++ wire_redexes ws;
  pl_target : ∀ b q, q < 3 →
    n'.[b, q] = match partner ws (AgentPort b q) with Some r => r | None => n.[b, q] end;
}.

Lemma pluggable_cons n a b ws :
  wf n → pluggable n ((a, b) :: ws) →
  free_end n a ∧ free_end n b ∧ apart a b ∧ pluggable (connect n a b) ws ∧
  (∀ r, is_agent_port r = true → r = a ∨ r = b → r ∉ ends ws).
Proof.
  intros Hwf (Hf & Hnd). simpl in *.
  apply Forall_cons in Hf as [Ha Hf]. apply Forall_cons in Hf as [Hb Hf].
  assert (Hout : ∀ r, is_agent_port r = true → r = a ∨ r = b → r ∉ ends ws).
  { intros r Hr Hor Hin.
    assert (Hin' : r ∈ filter (λ r, is_agent_port r = true) (ends ws))
      by (by apply list_elem_of_filter).
    rewrite !filter_cons in Hnd.
    destruct Hor as [<-|<-]; rewrite (decide_True (P := is_agent_port r = true)) in Hnd by done.
    - apply NoDup_cons in Hnd as [Hni _]. apply Hni. case_decide; set_solver.
    - case_decide; repeat (apply NoDup_cons in Hnd as [? Hnd]); done. }
  assert (Hab : apart a b).
  { intros id p -> ->. rewrite !filter_cons, !decide_True in Hnd by done.
    apply NoDup_cons in Hnd as [Hni _]. set_solver. }
  assert (Hnd' : NoDup (filter (λ r, is_agent_port r = true) (ends ws))).
  { rewrite !filter_cons in Hnd. repeat case_decide;
      repeat (apply NoDup_cons in Hnd as [? Hnd]); done. }
  split_and!; try done. split; [|done].
  rewrite Forall_forall in Hf |- *. intros r Hr. specialize (Hf r Hr).
  destruct r as [id p|]; [|done]. destruct Hf as [Hv Hd]. split.
  - by apply (valid_port_ext n); [apply connect_get_agent|].
  - rewrite connect_target by eauto with net.
    assert (Hne' : ∀ x, x = a ∨ x = b → x ≠ AgentPort id p)
      by (intros x Hx ->; by apply (Hout (AgentPort id p))).
    rewrite !decide_False by (apply Hne'; auto). done.
Qed.

Lemma plug_spec ws n : wf n → pluggable n ws → plugged n ws (plug n ws).
Proof.
  revert n. induction ws as [|[a b] ws IH]; intros n Hwf Hpl.
  { split; try done. simpl. by rewrite app_nil_r. }
  destruct (pluggable_cons n a b ws Hwf Hpl) as (Ha & Hb & Hab & Hpl' & Hout).
  destruct (connect_frame n a b) as (F & Hn & Hf & _ & _ & Hq & _).
  destruct (IH (connect n a b)) as [W F' N' FL Q T]; [by apply connect_wf|done|].
  change (plug n ((a, b) :: ws)) with (plug (connect n a b) ws).
  split; [done|by etrans|congruence|congruence|..].
  - rewrite Q, Hq. unfold wire_redexes at 2. simpl. rewrite fold_redexes_app.
    rewrite (push_redex_app a b (redex_queue n)). by rewrite app_assoc.
  - intros c q Hc. rewrite T by done. cbn [partner].
    rewrite connect_target by done.
    destruct (partner ws (AgentPort c q)) eqn:E.
    + apply partner_Some in E. rewrite !decide_False; [done|..];
        intros ->; by apply (Hout (AgentPort c q)); auto.
    + repeat case_decide; done.
Qed.

(** ** Links are the plugs of the wires whose agents still exist *)

Definition link_all (n : Net) (ws : list Wire) : Net := foldl (λ n w, link n w.1 w.2) n ws.

Definition kept (n : Net) (w : Wire) : bool := negb (is_removed n w.1 || is_removed n w.2).

Lemma is_removed_ext n n' r :
  (∀ x, get_agent n' x = get_agent n x) → is_removed n' r = is_removed n r.
Proof. intros H. destruct r; simpl; by rewrite ?H. Qed.

Lemma link_all_plug ws n :
  link_all n ws = plug n (filter (λ w, kept n w = true) ws).
Proof.
  assert (Hgen : ∀ ws n m, (∀ x, get_agent m x = get_agent n x) →
    link_all m ws = plug m (filter (λ w, kept n w = true) ws)).
  { clear. induction ws as [|w ws IH]; intros n m Hm; [done|].
    change (link_all m (w :: ws)) with (link_all (link m w.1 w.2) ws).
    unfold link. rewrite !(is_removed_ext n m) by done. rewrite filter_cons.
    destruct (decide (kept n w = true)) as [E|E].
    - apply negb_true_iff in E. rewrite E. apply IH. intros x. by rewrite connect_get_agent.
    - apply not_true_is_false, negb_false_iff in E. rewrite E. by apply IH. }
  by apply Hgen.
Qed.

(** ** The two agents of a redex *)

Record redex (n : Net) (a b : AgentId) : Prop := {
  rx_a : live n a;
  rx_b : live n b;
  rx_ab : n.[a, 0] = AgentPort b 0;
}.

Lemma is_valid_redex_spec n a b : is_valid_redex n a b = true ↔ redex n a b.
Proof.
  unfold is_valid_redex. split.
  - destruct (get_agent n a) eqn:Ea; [|done]. destruct (get_agent n b) eqn:Eb; [|done].
    intros H%bool_decide_eq_true. by split; [eexists|eexists|].
  - intros [[x Ha] [y Hb] Hab]. rewrite Ha, Hb. by apply bool_decide_eq_true.
Qed.

Definition touches (a b : AgentId) (r : PortRef) : bool := owned_by a r || owned_by b r.

(** The active pair shares an auxiliary wire. *)
Definition entangled (n : Net) (a b : AgentId) : bool :=
  owned_by b n.[a, 1] || owned_by b n.[a, 2].

Lemma redex_sym n a b : wf n → redex n a b → redex n b a.
Proof. intros Hwf [Ha Hb Hab]. split; [done..|]. by destruct (wf_sym n Hwf a 0 b 0) as (_ & ? & _). Qed.

Lemma redex_ne n a b : wf n → redex n a b → a ≠ b.
Proof. intros Hwf [_ _ Hab] ->. by destruct (wf_sym n Hwf b 0 b 0) as (_ & _ & ?). Qed.

Lemma entangled_sym n a b : wf n → redex n a b → entangled n a b = false → entangled n b a = false.
Proof.
  intros Hwf Hr [H1 H2]%orb_false_iff.
  assert (Hab := rx_ab _ _ _ Hr).
  assert (Hp : ∀ p, 0 < p < 3 → owned_by a n.[b, p] = false).
  { intros p Hp. destruct (n.[b, p]) as [c q|] eqn:E; [|done]. simpl.
    destruct (N.eqb_spec c a) as [->|]; [|done].
    destruct (wf_sym n Hwf b p a q ltac:(lia) E) as (Hv & Hs & _).
    assert (q = 0 ∨ q = 1 ∨ q = 2) as [->|[->| ->]] by (apply valid_port_lt3 in Hv; lia).
    - rewrite Hab in Hs. injection Hs as <-. lia.
    - rewrite Hs in H1. simpl in H1. by rewrite N.eqb_refl in H1.
    - rewrite Hs in H2. simpl in H2. by rewrite N.eqb_refl in H2. }
  apply orb_false_iff. split; apply Hp; lia.
Qed.

(** A target of an auxiliary port of the pair is never one of the two
    principal ports. *)
Lemma aux_not_principal n a b x p :
  wf n → redex n a b → (x = a ∨ x = b) → 0 < p < 3 →
  n.[x, p] ≠ AgentPort a 0 ∧ n.[x, p] ≠ AgentPort b 0.
Proof.
  intros Hwf Hr Hx Hp. pose proof (rx_ab _ _ _ (redex_sym n a b Hwf Hr)).
  destruct Hr as [_ _ Hab].
  split; intros E; destruct (wf_sym n Hwf x p _ 0 ltac:(lia) E) as (_ & Hs & _);
    rewrite Hs in *; naive_solver lia.
Qed.

(** An auxiliary port wired to its own agent is a full self loop. *)
Lemma own_target_loop n a b x p :
  wf n → redex n a b → (x = a ∨ x = b) → (p = 1 ∨ p = 2) → owned_by x n.[x, p] = true →
  self_loop x n.[x, 1] n.[x, 2] = true.
Proof.
  intros Hwf Hr Hx Hp Ho. destruct (n.[x, p]) as [c q|] eqn:E; [|done]. simpl in Ho.
  apply N.eqb_eq in Ho as ->.
  destruct (wf_sym n Hwf x p x q ltac:(lia) E) as (Hv & Hs & Hne).
  assert (Hq : q < 3) by eauto with net.
  assert (q ≠ 0).
  { intros ->. destruct (aux_not_principal n a b x p) as [? ?]; [done..|lia|]. naive_solver. }
  apply bool_decide_eq_true_2.
  destruct Hp as [-> | ->].
  - assert (q = 2) as -> by (destruct (decide (q = 1)) as [->|]; [done|lia]). done.
  - assert (q = 1) as -> by (destruct (decide (q = 2)) as [->|]; [done|lia]). done.
Qed.

(** Outside self loops and shared wires the auxiliary targets are outside the
    pair. *)
Lemma aux_outer n a b p :
  wf n → redex n a b → entangled n a b = false →
  self_loop a n.[a, 1] n.[a, 2] = false → (p = 1 ∨ p = 2) → touches a b n.[a, p] = false.
Proof.
  intros Hwf Hr He Hl Hp. apply orb_false_iff. split.
  - destruct (owned_by a n.[a, p]) eqn:E; [|done].
    rewrite (own_target_loop n a b a p) in Hl by auto. done.
  - apply orb_false_iff in He as [? ?]. by destruct Hp as [-> | ->].
Qed.

(** When one agent of the pair loops on itself the pair shares no wire. *)
Lemma self_loop_not_entangled n a b :
  self_loop a n.[a, 1] n.[a, 2] = true → a ≠ b → entangled n a b = false.
Proof.
  intros [E1 E2]%bool_decide_eq_true Hne. unfold entangled. rewrite E1, E2. simpl.
  by rewrite !(proj2 (N.eqb_neq a b)).
Qed.

Lemma touches_comm a b r : touches a b r = touches b a r.
Proof. apply orb_comm. Qed.

(** ** After the pair is removed *)

Record pair_gone (n : Net) (a b : AgentId) (m : Net) : Prop := {
  pg_wf : wf m;
  pg_agent : ∀ x, get_agent m x = if decide (x = a ∨ x = b) then None else get_agent n x;
  pg_frame : same_frame n m;
  pg_next : next_id m = next_id n;
  pg_queue : redex_queue m = redex_queue n;
  pg_target : ∀ c q, q < 3 → m.[c, q] =
    if touches a b (AgentPort c q) || touches a b n.[c, q] then DISCONNECTED else n.[c, q];
}.

Lemma pair_gone_spec n a b :
  wf n → redex n a b → pair_gone n a b (remove_agent (remove_agent n a) b).
Proof.
  intros Hwf Hr. assert (Hne := redex_ne n a b Hwf Hr). destruct Hr as [Ha Hb _].
  destruct (remove_agent_spec n a Hwf Ha) as [W A F N _ Q _ _ T].
  assert (Hb' : live (remove_agent n a) b) by (unfold live; by rewrite A, decide_False).
  destruct (remove_agent_spec _ b W Hb') as [W' A' F' N' _ Q' _ _ T'].
  split; [done| |by etrans|congruence|congruence|].
  - intros x. rewrite A', A. repeat case_decide; naive_solver.
  - intros c q Hq. rewrite T', T by done. unfold touches.
    destruct (owned_by a (AgentPort c q)), (owned_by b (AgentPort c q)), (owned_by a n.[c, q]);
      cbn [orb]; try done; by destruct (owned_by b n.[c, q]).
Qed.

(** A target read before the removal is a pluggable end afterwards, unless it
    pointed into the pair. *)
Lemma outer_end n a b m x p :
  wf n → pair_gone n a b m → (x = a ∨ x = b) → p < 3 →
  touches a b n.[x, p] = false → free_end m n.[x, p].
Proof.
  intros Hwf Hm Hx Hp Ho. destruct (n.[x, p]) as [c q|] eqn:E; [|done].
  destruct (wf_sym n Hwf x p c q Hp E) as (Hv & Hs & _).
  apply orb_false_iff in Ho as [Hoa Hob]. simpl in Hoa, Hob.
  apply N.eqb_neq in Hoa, Hob. split.
  - apply (valid_port_ext n); [|done]. rewrite (pg_agent _ _ _ _ Hm).
    rewrite decide_False; naive_solver.
  - rewrite (pg_target _ _ _ _ Hm) by eauto with net. rewrite Hs.
    assert (touches a b (AgentPort x p) = true) as ->; [|by rewrite orb_true_r].
    unfold touches. simpl. destruct Hx as [-> | ->]; rewrite N.eqb_refl, ?orb_true_r; done.
Qed.

(** A target inside the pair is a removed port. *)
Lemma inner_removed n a b m r :
  pair_gone n a b m → touches a b r = true → is_removed m r = true.
Proof.
  intros Hm Ht. destruct r as [c q|]; [|done]. unfold touches in Ht. simpl in Ht |- *.
  rewrite (pg_agent _ _ _ _ Hm). rewrite decide_True; [done|].
  apply orb_true_iff in Ht as [?%N.eqb_eq|?%N.eqb_eq]; auto.
Qed.

(** Distinct ports have distinct agent-port targets. *)
Lemma targets_nodup n (slots : list (AgentId * PortId)) :
  wf n → NoDup slots → Forall (λ s, s.2 < 3) slots →
  NoDup (filter (λ r, is_agent_port r = true) ((λ s, n.[s.1, s.2]) <$> slots)).
Proof.
  intros Hwf Hnd H3. induction slots as [|[x p] slots IH]; simpl; [constructor|].
  apply NoDup_cons in Hnd as [Hni Hnd]. apply Forall_cons in H3 as [Hp H3]. simpl in Hp.
  rewrite filter_cons. case_decide as E; [|by apply IH].
  apply NoDup_cons. split; [|by apply IH].
  intros [_ ([y q] & Ht & Hin)%list_elem_of_fmap]%list_elem_of_filter.
  change (n.[x, p] = n.[y, q]) in Ht. change (is_agent_port n.[x, p] = true) in E.
  destruct (n.[x, p]) as [c r|] eqn:Ec; [|done].
  rewrite Forall_forall in H3. assert (Hq : q < 3) by exact (H3 _ Hin).
  by destruct (target_inj n x p y q c r Hwf Hp Hq Ec (eq_sym Ht)) as [-> ->].
Qed.

(** ** Agents created by a rule *)

(** [l] lists the created agents, latest first. *)
Record spawned (m : Net) (l : list Agent) (n : Net) : Prop := {
  sp_wf : wf n;
  sp_nodup : NoDup (agent_id <$> l);
  sp_dead : ∀ a, a ∈ l → get_agent m (agent_id a) = None;
  sp_new : ∀ a, a ∈ l → get_agent n (agent_id a) = Some a;
  sp_old : ∀ x, x ∉ agent_id <$> l → get_agent n x = get_agent m x;
  sp_target : ∀ c q, q < 3 → n.[c, q] = m.[c, q];
  sp_frame : same_frame m n;
  sp_next : next_id m ≤ next_id n ≤ next_id m + N.of_nat (length l);
  sp_queue : redex_queue n = redex_queue m;
}.

Lemma spawned_nil m : wf m → spawned m [] m.
Proof. intros Hwf. split; try done; [constructor|set_solver|set_solver|simpl; lia]. Qed.

Lemma spawned_cons m l n s n' e :
  spawned m l n → create_agent n s = Done (n', e) → spawned m (mkAgent s e :: l) n'.
Proof.
  intros [W ND D Nw O T F Nx Q] Hc.
  destruct (create_agent_spec n s n' e W Hc) as [W' Hd' _ A' T' F' Nx' Q' _ _].
  assert (Hfresh : e ∉ agent_id <$> l).
  { intros (a & -> & Ha)%list_elem_of_fmap. rewrite Nw in Hd' by done. done. }
  split; [done|..].
  - simpl. by apply NoDup_cons.
  - intros a [->|Ha]%elem_of_cons; [simpl; by rewrite <- O|by apply D].
  - intros a [->|Ha]%elem_of_cons; rewrite A'; simpl; [by rewrite decide_True|].
    rewrite decide_False; [by apply Nw|]. intros <-. apply Hfresh. by apply list_elem_of_fmap_2.
  - intros x Hx. simpl in Hx. rewrite A', decide_False by set_solver. apply O. set_solver.
  - intros c q Hq. rewrite T' by done. by apply T.
  - by etrans.
  - simpl. lia.
  - congruence.
Qed.

(** Ports of a created agent are pluggable. *)
Lemma spawned_end m l n s e p :
  wf m → spawned m l n → mkAgent s e ∈ l → p < total_ports s → free_end n (AgentPort e p).
Proof.
  intros Hwf Hs Hin Hp. split; [exists (mkAgent s e); split; [by apply (sp_new _ _ _ Hs (mkAgent s e))|done]|].
  pose proof (total_ports_bounds s).
  rewrite (sp_target _ _ _ Hs) by lia. apply dead_disconnected; [done|lia|].
  by apply (sp_dead _ _ _ Hs (mkAgent s e)).
Qed.

(** An end that was pluggable before stays so, and is not a port of a created
    agent. *)
Lemma spawned_free_end m l n r : spawned m l n → free_end m r → free_end n r.
Proof.
  intros Hs Hr. destruct r as [c q|]; [|done]. destruct Hr as [(a & Ha & Hq) Hd].
  split.
  - exists a. split; [|done]. rewrite (sp_old _ _ _ Hs); [done|].
    intros (a' & -> & Hin)%list_elem_of_fmap. rewrite (sp_dead _ _ _ Hs) in Ha; done.
  - rewrite (sp_target _ _ _ Hs); [done|]. pose proof (total_ports_bounds (symbol a)). lia.
Qed.

Lemma spawned_not_new m l n r s e p :
  spawned m l n → mkAgent s e ∈ l → free_end m r → r ≠ AgentPort e p.
Proof.
  intros Hs Hin Hr ->. destruct Hr as [(a & Ha & _) _].
  pose proof (sp_dead _ _ _ Hs _ Hin). simpl in *. congruence.
Qed.

(** ** Completeness of the redex queue *)

(** Every active pair is queued, in one order or the other. *)
Definition queue_complete (n : Net) : Prop :=
  ∀ a b, redex n a b → (a, b) ∈ redex_queue n ∨ (b, a) ∈ redex_queue n.

(** Every active pair but one. *)
Definition queue_complete_but (n : Net) (x y : AgentId) : Prop :=
  ∀ a b, redex n a b →
    (a, b) ∈ redex_queue n ∨ (b, a) ∈ redex_queue n ∨ (a = x ∧ b = y) ∨ (a = y ∧ b = x).

Lemma push_redex_principal a b q : push_redex (AgentPort a 0) (AgentPort b 0) q = q ++ [(a, b)].
Proof. done. Qed.

Lemma partner_queued ws c d :
  partner ws (AgentPort c 0) = Some (AgentPort d 0) →
  (c, d) ∈ wire_redexes ws ∨ (d, c) ∈ wire_redexes ws.
Proof.
  induction ws as [|[a b] ws IH]; [done|]. cbn [partner].
  unfold wire_redexes. simpl. rewrite fold_redexes_app. rewrite !elem_of_app.
  intros H. case_decide as E; [|case_decide as E2].
  - injection H as ->. subst b. rewrite push_redex_principal. set_solver.
  - injection H as ->. subst a. rewrite push_redex_principal. set_solver.
  - destruct (IH H); auto.
Qed.

(** What one application of a rule to the pair [(a, b)] guarantees. *)
Record stepped (n : Net) (a b : AgentId) (n' : Net) : Prop := {
  st_wf : wf n';
  st_frame : same_frame n n';
  st_next : next_id n ≤ next_id n' ≤ next_id n + 4;
  st_queue : queue_complete_but n a b → queue_complete n';
  st_queue_app : ∃ q, redex_queue n' = redex_queue n ++ q ∧
    ∀ c d, redex n' c d →
      (c, d) ∈ q ∨ (d, c) ∈ q ∨ (redex n c d ∧ (c, d) ≠ (a, b) ∧ (d, c) ≠ (a, b));
}.

Lemma stepped_intro n a b m l n1 ws n' :
  wf n → redex n a b → pair_gone n a b m → spawned m l n1 → (length l ≤ 4)%nat →
  pluggable n1 ws → n' = plug n1 ws → stepped n a b n'.
Proof.
  intros Hwf Hr Hm Hs Hl Hpl ->.
  destruct (plug_spec ws n1 (sp_wf _ _ _ Hs) Hpl) as [W F Nx _ Q T].
  pose proof (sp_next _ _ _ Hs). pose proof (pg_next _ _ _ _ Hm).
  assert (Hnew : ∀ c d, redex (plug n1 ws) c d →
    (c, d) ∈ wire_redexes ws ∨ (d, c) ∈ wire_redexes ws ∨
    (redex n c d ∧ (c, d) ≠ (a, b) ∧ (d, c) ≠ (a, b))).
  { intros c d [Hc Hd Hcd].
    rewrite T in Hcd by lia. destruct (partner ws (AgentPort c 0)) as [r|] eqn:E.
    - subst r. destruct (partner_queued ws c d E); auto.
    - rewrite (sp_target _ _ _ Hs), (pg_target _ _ _ _ Hm) in Hcd by lia.
      destruct (touches a b (AgentPort c 0)) eqn:E1; [done|].
      destruct (touches a b n.[c, 0]) eqn:E2; [done|]. simpl in Hcd.
      assert (Hrx : redex n c d).
      { destruct (wf_sym n Hwf c 0 d 0 ltac:(lia) Hcd) as (Hvd & Hdc & _).
        split; [|by eapply valid_port_live|done].
        eapply valid_port_live, (wf_sym n Hwf d 0 c 0); [lia|done]. }
      unfold touches in E1. simpl in E1. apply orb_false_iff in E1 as [?%N.eqb_neq ?%N.eqb_neq].
      right; right. split; [done|]. split; congruence. }
  split.
  - done.
  - etrans; [apply (pg_frame _ _ _ _ Hm)|]. etrans; [apply (sp_frame _ _ _ Hs)|done].
  - rewrite Nx. lia.
  - intros Hqc c d Hrd. rewrite Q, (sp_queue _ _ _ Hs), (pg_queue _ _ _ _ Hm), !elem_of_app.
    destruct (Hnew c d Hrd) as [?|[?|(Hrx & Hn1 & Hn2)]]; auto.
    destruct (Hqc c d Hrx) as [?|[?|[[-> ->]|[-> ->]]]]; auto; by destruct (Hn1 eq_refl) || destruct (Hn2 eq_refl).
  - exists (wire_redexes ws). split; [|done]. by rewrite Q, (sp_queue _ _ _ Hs), (pg_queue _ _ _ _ Hm).
Qed.

(** The shape of every rule: [n'] is [n] without the pair, with the created
    agents [l], and with the wires [ws] plugged in. *)
Definition rewired (n : Net) (a b : AgentId) (l : list Agent) (ws : list Wire) (n' : Net) : Prop :=
  ∃ m n1, pair_gone n a b m ∧ spawned m l n1 ∧ pluggable n1 ws ∧ n' = plug n1 ws.

Lemma rewired_stepped n a b l ws n' :
  wf n → redex n a b → (length l ≤ 4)%nat → rewired n a b l ws n' → stepped n a b n'.
Proof. intros Hwf Hr Hl (m & n1 & Hm & Hs & Hpl & ->). by eapply stepped_intro. Qed.

(** The agents of the new net: the pair is gone, the created agents are there
    (possibly under the pair's ids), the others are untouched. *)
Lemma rewired_created n a b l ws n' x :
  rewired n a b l ws n' → x ∈ l → get_agent n' (agent_id x) = Some x.
Proof. intros (m & n1 & _ & Hs & _ & ->) Hx. rewrite plug_get_agent. by apply (sp_new _ _ _ Hs). Qed.

Lemma rewired_agent n a b l ws n' x :
  rewired n a b l ws n' → x ∉ agent_id <$> l →
  get_agent n' x = if decide (x = a ∨ x = b) then None else get_agent n x.
Proof.
  intros (m & n1 & Hm & Hs & _ & ->) Hx.
  by rewrite plug_get_agent, (sp_old _ _ _ Hs), (pg_agent _ _ _ _ Hm).
Qed.

(** The wiring: a port of a created agent, or one that was attached to the
    pair, is attached where [ws] says; every other port keeps its target. *)
Lemma rewired_target n a b l ws n' c q :
  rewired n a b l ws n' → q < 3 →
  n'.[c, q] = match partner ws (AgentPort c q) with
              | Some r => r
              | None => if touches a b (AgentPort c q) || touches a b n.[c, q]
                        then DISCONNECTED else n.[c, q]
              end.
Proof.
  intros (m & n1 & Hm & Hs & Hpl & ->) Hq.
  rewrite (pl_target _ _ _ (plug_spec ws n1 (sp_wf _ _ _ Hs) Hpl)) by done.
  by rewrite (sp_target _ _ _ Hs), (pg_target _ _ _ _ Hm).
Qed.

(** ** Reconnecting old targets *)

Definition slot_target (n : Net) (s : AgentId * PortId) : PortRef := n.[s.1, s.2].

Definition target_wires (n : Net) (ss : list ((AgentId * PortId) * (AgentId * PortId))) : list Wire :=
  (λ w, (slot_target n w.1, slot_target n w.2)) <$> ss.

Lemma ends_filter_sublist (P : Wire → Prop) `{∀ w, Decision (P w)} ws :
  ends (filter P ws) `sublist_of` ends ws.
Proof.
  induction ws as [|w ws IH]; [done|]. rewrite filter_cons. case_decide; simpl.
  - by do 2 constructor.
  - by do 2 constructor.
Qed.

Lemma sublist_filter_agent (l k : list PortRef) :
  l `sublist_of` k →
  filter (λ r, is_agent_port r = true) l `sublist_of` filter (λ r, is_agent_port r = true) k.
Proof.
  induction 1; [constructor|..]; rewrite !filter_cons; case_decide; by try constructor.
Qed.

Lemma ends_target_wires n ss :
  ends (target_wires n ss) = slot_target n <$> flat_map (λ w, [w.1; w.2]) ss.
Proof. induction ss as [|w ss IH]; [done|]. simpl. by rewrite IH. Qed.

(** The links of an annihilation: those whose ends still exist. *)
Lemma target_links_pluggable n a b m ss :
  wf n → pair_gone n a b m →
  NoDup (flat_map (λ w, [w.1; w.2]) ss) →
  Forall (λ s, (s.1 = a ∨ s.1 = b) ∧ s.2 < 3) (flat_map (λ w, [w.1; w.2]) ss) →
  pluggable m (filter (λ w, kept m w = true) (target_wires n ss)).
Proof.
  intros Hwf Hm Hnd Hss. split.
  - apply Forall_forall. intros r Hr.
    assert (Hk : is_removed m r = false).
    { revert Hr. generalize (target_wires n ss). intros ws Hr.
      unfold ends in Hr. apply list_elem_of_In, in_flat_map in Hr as (w & Hw & Hr).
      apply list_elem_of_In, list_elem_of_filter in Hw as [Hk _].
      apply negb_true_iff, orb_false_iff in Hk as [? ?].
      by destruct Hr as [<-|[<-|[]]]. }
    assert (Hin : r ∈ ends (target_wires n ss))
      by (eapply sublist_subseteq; [apply (ends_filter_sublist (λ w, kept m w = true))|done]).
    rewrite ends_target_wires in Hin. apply list_elem_of_fmap in Hin as ([x p] & -> & Hin).
    rewrite Forall_forall in Hss. destruct (Hss _ Hin) as [Hx Hp].
    apply (outer_end n a b m x p); try done.
    destruct (touches a b n.[x, p]) eqn:E; [|done].
    unfold slot_target in Hk. simpl fst in Hk. simpl snd in Hk.
    by rewrite (inner_removed n a b m _ Hm E) in Hk.
  - eapply sublist_NoDup; [|apply sublist_filter_agent, ends_filter_sublist].
    rewrite ends_target_wires. apply targets_nodup; [done..|].
    eapply Forall_impl; [apply Hss|]. naive_solver.
Qed.

(** ** Plugging created agents and old targets *)

Lemma free_end_not_removed n r : free_end n r → is_removed n r = false.
Proof. destruct r as [c q|]; [|done]. intros [(a & Ha & _) _]. simpl. by rewrite Ha. Qed.

Lemma link_kept n a b : is_removed n a = false → is_removed n b = false → link n a b = connect n a b.
Proof. unfold link. by intros -> ->. Qed.

Lemma connect_is_removed n a b r : is_removed (connect n a b) r = is_removed n r.
Proof. apply is_removed_ext. intros x. apply connect_get_agent. Qed.

Lemma link_is_removed n a b r : is_removed (link n a b) r = is_removed n r.
Proof. unfold link. destruct (_ || _); [done|apply connect_is_removed]. Qed.

(** Replaces the links of surviving ends by connections. *)
Ltac links_kept :=
  rewrite !link_kept; rewrite ?connect_is_removed, ?link_is_removed, ?connect_is_removed;
  try (by apply free_end_not_removed).

Lemma pluggable_mixed n ws news olds :
  ends ws ≡ₚ news ++ olds → Forall (free_end n) news → Forall (free_end n) olds →
  NoDup news → NoDup (filter (λ r, is_agent_port r = true) olds) →
  (∀ r, r ∈ news → r ∉ olds) → pluggable n ws.
Proof.
  intros Hp Hn Ho Hnd Hod Hx. split; [rewrite Hp; by apply Forall_app|].
  rewrite Hp, filter_app. apply NoDup_app. split_and!; [by apply NoDup_filter|..|done].
  intros r [_ ?]%list_elem_of_filter [_ ?]%list_elem_of_filter. by eapply Hx.
Qed.

(** [r] is a port of one of the created agents [l]. *)
Definition new_port (l : list Agent) (r : PortRef) : Prop :=
  ∃ s e p, r = AgentPort e p ∧ mkAgent s e ∈ l ∧ p < total_ports s.

Lemma spawn_pluggable n a b m l n1 ws news slots :
  wf n → pair_gone n a b m → spawned m l n1 →
  Forall (new_port l) news → NoDup news → NoDup slots →
  Forall (λ s, (s.1 = a ∨ s.1 = b) ∧ s.2 < 3 ∧ touches a b (slot_target n s) = false) slots →
  ends ws ≡ₚ news ++ (slot_target n <$> slots) → pluggable n1 ws.
Proof.
  intros Hwf Hm Hs Hnew Hnd Hsd Hsl Hp.
  assert (Hold : Forall (free_end m) (slot_target n <$> slots)).
  { apply Forall_fmap, Forall_forall. intros [x p] Hin. rewrite Forall_forall in Hsl.
    destruct (Hsl _ Hin) as (Hx & Hp3 & Ht). by apply (outer_end n a b m x p). }
  assert (Hwfm := pg_wf _ _ _ _ Hm).
  apply (pluggable_mixed _ _ _ _ Hp); try done.
  - eapply Forall_impl; [apply Hnew|]. intros r (s & e & p & -> & Hin & Hlt).
    by eapply spawned_end.
  - eapply Forall_impl; [apply Hold|]. intros r Hr. by eapply spawned_free_end.
  - apply targets_nodup; [done..|]. eapply Forall_impl; [apply Hsl|]. naive_solver.
  - rewrite Forall_forall in Hnew, Hold. intros r Hr Hr'.
    destruct (Hnew r Hr) as (s & e & p & -> & Hin & _).
    by eapply spawned_not_new; [..|apply (Hold _ Hr')|].
Qed.

(** Pairwise distinctness of an explicit list of ports or slots. *)
Ltac distinct_list :=
  repeat first
    [ apply NoDup_nil_2
    | apply NoDup_cons; split
    | apply not_elem_of_nil
    | apply not_elem_of_cons; split; [intros [=]; congruence|] ].

Lemma era_not_entangled n a b x :
  wf n → redex n a b → get_agent n b = Some x → symbol x = Era → entangled n a b = false.
Proof.
  intros Hwf Hr Hb Hx.
  assert (Hp : ∀ p, p = 1 ∨ p = 2 → owned_by b n.[a, p] = false).
  { intros p Hp. destruct (n.[a, p]) as [c q|] eqn:E; [|done]. simpl.
    destruct (N.eqb_spec c b) as [->|]; [|done].
    destruct (wf_sym n Hwf a p b q ltac:(lia) E) as ((y & Hy & Hq) & _).
    assert (y = x) as -> by congruence.
    assert (Hq1 : q < 1) by (rewrite Hx in Hq; exact Hq).
    destruct (aux_not_principal n a b a p) as [_ Hn]; [auto..|lia|].
    destruct Hn. rewrite E. f_equal. lia. }
  unfold entangled. by rewrite !Hp by auto.
Qed.

(** ** The rules are steps *)

Definition pair_slots (a b : AgentId) (ss : list ((AgentId * PortId) * (AgentId * PortId))) : Prop :=
  NoDup (flat_map (λ w, [w.1; w.2]) ss) ∧
  Forall (λ s, (s.1 = a ∨ s.1 = b) ∧ s.2 < 3) (flat_map (λ w, [w.1; w.2]) ss).

Lemma link_all_rewired n a b ss :
  wf n → redex n a b → pair_slots a b ss →
  let m := remove_agent (remove_agent n a) b in
  rewired n a b [] (filter (λ w, kept m w = true) (target_wires n ss)) (link_all m (target_wires n ss)).
Proof.
  intros Hwf Hr [Hnd Hss] m. pose proof (pair_gone_spec n a b Hwf Hr) as Hm.
  exists m, m. split; [done|]. split; [apply spawned_nil, Hm|].
  split; [by eapply target_links_pluggable|apply link_all_plug].
Qed.

Lemma link_all_stepped n a b ss :
  wf n → redex n a b →
  NoDup (flat_map (λ w, [w.1; w.2]) ss) →
  Forall (λ s, (s.1 = a ∨ s.1 = b) ∧ s.2 < 3) (flat_map (λ w, [w.1; w.2]) ss) →
  stepped n a b (link_all (remove_agent (remove_agent n a) b) (target_wires n ss)).
Proof.
  intros Hwf Hr Hnd Hss. eapply rewired_stepped; [done..| |by apply link_all_rewired]. simpl; lia.
Qed.

Lemma interact_anni_stepped n a b s :
  wf n → redex n a b → symbol_at n a = Done s → s ≠ Era →
  ∃ n', interact_anni n a b = Done n' ∧ stepped n a b n'.
Proof.
  intros Hwf Hr Hs Hne. pose proof (redex_ne n a b Hwf Hr) as Hab.
  assert (Hgen : ∀ ss, NoDup (flat_map (λ w, [w.1; w.2]) ss) →
    Forall (λ s, (s.1 = a ∨ s.1 = b) ∧ s.2 < 3) (flat_map (λ w, [w.1; w.2]) ss) → _)
    by (intros ss; exact (link_all_stepped n a b ss Hwf Hr)).
  unfold interact_anni. rewrite Hs. cbn [mbind outcome_bind].
  destruct (self_loop a _ _) eqn:Ha, (self_loop b _ _) eqn:Hb; cbn [andb];
    [| | |destruct s; [| |done]]; eexists; (split; [reflexivity|]).
  - apply (Hgen []); repeat constructor.
  - apply (Hgen [((b, 1), (b, 2))]); simpl; [distinct_list|].
    repeat constructor; simpl; auto; lia.
  - apply (Hgen [((a, 1), (a, 2))]); simpl; [distinct_list|].
    repeat constructor; simpl; auto; lia.
  - apply (Hgen [((a, 1), (b, 2)); ((a, 2), (b, 1))]); simpl; [distinct_list|].
    repeat constructor; simpl; auto; lia.
  - apply (Hgen [((a, 1), (b, 1)); ((a, 2), (b, 2))]); simpl; [distinct_list|].
    repeat constructor; simpl; auto; lia.
Qed.

Lemma interact_void_stepped n a b : wf n → redex n a b → stepped n a b (interact_void n a b).
Proof. intros Hwf Hr. apply (link_all_stepped n a b [] Hwf Hr); repeat constructor. Qed.

(** Runs the next [create_agent] of a rule: [S] is the [spawned] fact so far
    and [Hroom] bounds the id space. *)
Ltac spawn_step S n' e S' Hnx :=
  lazymatch goal with
  | |- context [create_agent ?n ?s] =>
      let E := fresh "E" in
      destruct (create_agent_total n s) as (n' & e & E);
        [pose proof (sp_next _ _ _ S); simpl length in *; lia|];
      rewrite E; cbn [mbind outcome_bind];
      pose proof (spawned_cons _ _ _ _ _ _ S E) as S'
  end.

(** [Forall P l] on an explicit list, one goal per element. *)
Ltac each_elem := repeat apply Forall_cons_2; try apply Forall_nil_2.

(** Erasure of an agent without a self loop. *)
Definition eras_wires (n : Net) (a e1 e2 : AgentId) : list Wire :=
  [(AgentPort e1 0, n.[a, 1]); (AgentPort e2 0, n.[a, 2])].

Lemma interact_eras_rewired n a b x :
  wf n → redex n a b → get_agent n b = Some x → symbol x = Era → next_id n + 4 ≤ u32_MAX →
  self_loop a n.[a, 1] n.[a, 2] = false →
  ∃ n' e1 e2, interact_eras n a b = Done n' ∧
    rewired n a b [mkAgent Era e2; mkAgent Era e1] (eras_wires n a e1 e2) n'.
Proof.
  intros Hwf Hr Hb Hx Hroom Hl. unfold interact_eras. rewrite Hl.
  pose proof (era_not_entangled n a b x Hwf Hr Hb Hx) as He.
  pose proof (pair_gone_spec n a b Hwf Hr) as Hm.
  set (m := remove_agent (remove_agent n a) b) in *.
  pose proof (spawned_nil m (pg_wf _ _ _ _ Hm)) as S0. pose proof (pg_next _ _ _ _ Hm).
  spawn_step S0 n1 e1 S1 Hroom. spawn_step S1 n2 e2 S2 Hroom.
  assert (He12 : e2 ≠ e1).
  { pose proof (sp_nodup _ _ _ S2) as Hnd. apply NoDup_cons in Hnd as [Hnd _]. set_solver. }
  assert (Hpl : pluggable n2 (eras_wires n a e1 e2)).
  { apply (spawn_pluggable n a b m _ n2 _ [AgentPort e1 0; AgentPort e2 0] [(a, 1); (a, 2)]
      Hwf Hm S2); [|distinct_list|distinct_list| |simpl; solve_Permutation].
    - repeat constructor; eexists Era, _, 0; (split; [done|]); (split; [set_solver|done]).
    - repeat constructor; simpl; auto; try lia; apply aux_outer; auto. }
  eexists _, e1, e2. split; [reflexivity|].
  exists m, n2. split_and!; [done..|].
  destruct Hpl as [Hfe _]. unfold eras_wires in Hfe. simpl in Hfe. rewrite !Forall_cons in Hfe.
  destruct_and!. by links_kept.
Qed.

Lemma interact_eras_stepped n a b x :
  wf n → redex n a b → get_agent n b = Some x → symbol x = Era → next_id n + 4 ≤ u32_MAX →
  ∃ n', interact_eras n a b = Done n' ∧ stepped n a b n'.
Proof.
  intros Hwf Hr Hb Hx Hroom. destruct (self_loop a n.[a, 1] n.[a, 2]) eqn:Hl.
  - eexists. unfold interact_eras. rewrite Hl. split; [reflexivity|]. by apply interact_void_stepped.
  - destruct (interact_eras_rewired n a b x) as (n' & e1 & e2 & H & Hw); [done..|].
    exists n'. split; [done|]. eapply rewired_stepped; [done..| |done]. simpl; lia.
Qed.

Definition one_loop_wires (n : Net) (x r t : AgentId) : list Wire :=
  [(AgentPort r 1, AgentPort r 2); (AgentPort t 1, AgentPort t 2);
   (AgentPort r 0, n.[x, 1]); (AgentPort t 0, n.[x, 2])].

Lemma comm_one_loop_rewired n a b m x k s :
  (x = a ∨ x = b) → wf n → redex n a b → pair_gone n a b m → next_id n + 4 ≤ u32_MAX →
  (∀ p, p = 1 ∨ p = 2 → touches a b n.[x, p] = false) → k = s → total_ports s = 3 →
  ∃ n' r t, ('(n1, r) ← create_agent m s;
         '(n1, t) ← create_agent n1 s;
         let n1 := connect n1 (AgentPort r 1) (AgentPort r 2) in
         let n1 := connect n1 (AgentPort t 1) (AgentPort t 2) in
         mret (link (link n1 (AgentPort r 0) n.[x, 1]) (AgentPort t 0) n.[x, 2])) = Done n' ∧
        rewired n a b [mkAgent s t; mkAgent s r] (one_loop_wires n x r t) n'.
Proof.
  intros Hx Hwf Hr Hm Hroom Hout _ Hs3.
  pose proof (spawned_nil m (pg_wf _ _ _ _ Hm)) as S0. pose proof (pg_next _ _ _ _ Hm).
  spawn_step S0 n1 r S1 Hroom. spawn_step S1 n2 t S2 Hroom.
  assert (Hrt : t ≠ r).
  { pose proof (sp_nodup _ _ _ S2) as Hnd. apply NoDup_cons in Hnd as [Hnd _]. set_solver. }
  assert (Hpl : pluggable n2 (one_loop_wires n x r t)).
  { apply (spawn_pluggable n a b m _ n2 _
      [AgentPort r 1; AgentPort r 2; AgentPort t 1; AgentPort t 2; AgentPort r 0; AgentPort t 0]
      [(x, 1); (x, 2)] Hwf Hm S2); [|distinct_list|distinct_list| |simpl; solve_Permutation].
    - assert (Hp : ∀ e p, (e = r ∨ e = t) → p < 3 →
        new_port [mkAgent s t; mkAgent s r] (AgentPort e p)).
      { intros e p He Hp. exists s, e, p. rewrite Hs3. set_solver. }
      each_elem; apply Hp; auto; lia.
    - each_elem; (split_and!; [done|simpl; lia|apply Hout; auto]). }
  eexists _, r, t. split; [reflexivity|]. exists m, n2. split_and!; [done..|].
  destruct Hpl as [Hfe _]. unfold one_loop_wires in Hfe. simpl in Hfe. rewrite !Forall_cons in Hfe.
  destruct_and!. by links_kept.
Qed.

Definition comm_wires (n : Net) (a b p q r s : AgentId) : list Wire :=
  [(AgentPort p 0, n.[a, 1]); (AgentPort q 0, n.[a, 2]);
   (AgentPort r 0, n.[b, 1]); (AgentPort s 0, n.[b, 2]);
   (AgentPort p 1, AgentPort r 1); (AgentPort p 2, AgentPort s 1);
   (AgentPort q 1, AgentPort r 2); (AgentPort q 2, AgentPort s 2)].

Lemma comm_full_rewired n a b m :
  wf n → redex n a b → pair_gone n a b m → next_id n + 4 ≤ u32_MAX →
  (∀ x p, x = a ∨ x = b → p = 1 ∨ p = 2 → touches a b n.[x, p] = false) →
  ∃ n' p q r s, ('(n1, p) ← create_agent m Dup;
         '(n1, q) ← create_agent n1 Dup;
         '(n1, r) ← create_agent n1 Con;
         '(n1, s) ← create_agent n1 Con;
         let n1 := link n1 (AgentPort p 0) n.[a, 1] in
         let n1 := link n1 (AgentPort q 0) n.[a, 2] in
         let n1 := link n1 (AgentPort r 0) n.[b, 1] in
         let n1 := link n1 (AgentPort s 0) n.[b, 2] in
         let n1 := connect n1 (AgentPort p 1) (AgentPort r 1) in
         let n1 := connect n1 (AgentPort p 2) (AgentPort s 1) in
         let n1 := connect n1 (AgentPort q 1) (AgentPort r 2) in
         mret (connect n1 (AgentPort q 2) (AgentPort s 2))) = Done n' ∧
        rewired n a b [mkAgent Con s; mkAgent Con r; mkAgent Dup q; mkAgent Dup p]
          (comm_wires n a b p q r s) n'.
Proof.
  intros Hwf Hr Hm Hroom Hout. assert (Hab : a ≠ b) by (by apply (redex_ne n)).
  pose proof (spawned_nil m (pg_wf _ _ _ _ Hm)) as S0. pose proof (pg_next _ _ _ _ Hm).
  spawn_step S0 n1 p S1 Hroom. spawn_step S1 n2 q S2 Hroom.
  spawn_step S2 n3 r S3 Hroom. spawn_step S3 n4 s S4 Hroom.
  pose proof (sp_nodup _ _ _ S4) as Hnd. simpl in Hnd.
  rewrite !NoDup_cons, !not_elem_of_cons in Hnd. destruct_and!.
  assert (Hpl : pluggable n4 (comm_wires n a b p q r s)).
  { apply (spawn_pluggable n a b m _ n4 _
      [AgentPort p 0; AgentPort q 0; AgentPort r 0; AgentPort s 0;
       AgentPort p 1; AgentPort r 1; AgentPort p 2; AgentPort s 1;
       AgentPort q 1; AgentPort r 2; AgentPort q 2; AgentPort s 2]
      [(a, 1); (a, 2); (b, 1); (b, 2)] Hwf Hm S4);
      [|distinct_list|distinct_list| |simpl; solve_Permutation].
    - set (l := [mkAgent Con s; mkAgent Con r; mkAgent Dup q; mkAgent Dup p]).
      assert (Hp : ∀ e i, e ∈ [p; q; r; s] → i < 3 → new_port l (AgentPort e i)).
      { intros e i He Hi. rewrite !elem_of_cons in He. destruct He as [->|[->|[->|[->|He]]]];
          [exists Dup|exists Dup|exists Con|exists Con|by apply elem_of_nil in He];
          eexists _, _; (split; [done|split; [set_solver|done]]). }
      each_elem; (apply Hp; [set_solver|lia]).
    - each_elem; (split_and!; [simpl; auto|simpl; lia|apply Hout; auto]). }
  eexists _, p, q, r, s. split; [reflexivity|]. exists m, n4. split_and!; [done..|].
  destruct Hpl as [Hfe _]. unfold comm_wires in Hfe. simpl in Hfe. rewrite !Forall_cons in Hfe.
  destruct_and!. by links_kept.
Qed.

Lemma interact_comm_rewired n a b :
  wf n → redex n a b → entangled n a b = false → next_id n + 4 ≤ u32_MAX →
  self_loop a n.[a, 1] n.[a, 2] = false → self_loop b n.[b, 1] n.[b, 2] = false →
  ∃ n' p q r s, interact_comm n a b = Done n' ∧
    rewired n a b [mkAgent Con s; mkAgent Con r; mkAgent Dup q; mkAgent Dup p]
      (comm_wires n a b p q r s) n'.
Proof.
  intros Hwf Hr He Hroom Ha Hb. unfold interact_comm. rewrite Ha, Hb. cbn [andb].
  pose proof (redex_sym n a b Hwf Hr) as Hr'.
  pose proof (entangled_sym n a b Hwf Hr He) as He'.
  apply (comm_full_rewired n a b); [done|done|by apply pair_gone_spec|done|].
  intros x p [-> | ->] Hp; [by apply aux_outer|]. rewrite touches_comm. by apply aux_outer.
Qed.

Lemma interact_comm_stepped n a b :
  wf n → redex n a b → entangled n a b = false → next_id n + 4 ≤ u32_MAX →
  ∃ n', interact_comm n a b = Done n' ∧ stepped n a b n'.
Proof.
  intros Hwf Hr He Hroom.
  pose proof (redex_sym n a b Hwf Hr) as Hr'.
  pose proof (entangled_sym n a b Hwf Hr He) as He'.
  pose proof (pair_gone_spec n a b Hwf Hr) as Hm.
  assert (Hfin : ∀ n' l ws, interact_comm n a b = Done n' → rewired n a b l ws n' →
    (length l ≤ 4)%nat → ∃ n', interact_comm n a b = Done n' ∧ stepped n a b n').
  { intros n' l ws Hi Hw Hl. exists n'. split; [done|]. by eapply rewired_stepped. }
  destruct (self_loop a n.[a, 1] n.[a, 2]) eqn:Ha, (self_loop b n.[b, 1] n.[b, 2]) eqn:Hb.
  - eexists. unfold interact_comm. rewrite Ha, Hb. split; [reflexivity|]. by apply interact_void_stepped.
  - destruct (comm_one_loop_rewired n a b _ b Con Con (or_intror eq_refl) Hwf Hr Hm Hroom)
      as (n' & r & t & Hp & Hw); [|done..|].
    { intros p Hp. rewrite touches_comm. by apply aux_outer. }
    eapply (Hfin n'); [|exact Hw|simpl; lia]. unfold interact_comm. by rewrite Ha, Hb.
  - destruct (comm_one_loop_rewired n a b _ a Dup Dup (or_introl eq_refl) Hwf Hr Hm Hroom)
      as (n' & r & t & Hp & Hw); [|done..|].
    { intros p Hp. by apply aux_outer. }
    eapply (Hfin n'); [|exact Hw|simpl; lia]. unfold interact_comm. by rewrite Ha, Hb.
  - destruct (interact_comm_rewired n a b Hwf Hr He Hroom Ha Hb) as (n' & p & q & r & s & Hi & Hw).
    apply (Hfin n' _ _ Hi Hw). simpl; lia.
Qed.
