(* ===== verification/EngineInv.v ===== *)
(** The reduction engine: every step keeps the net well formed, normal form
    means no active pair is left, agents are counted, and nets without
    commutation terminate. *)
From S2P Require Import Prelude NetTypes NetCore NetInv Reduction ReductionInv.
Local Open Scope N_scope.
Open Scope net_scope.

(** ** The queue does not matter to well-formedness *)

Lemma with_queue_wf n q : wf n → wf (with_redex_queue q n).
Proof. intros []. by split. Qed.

Lemma with_queue_redex n q a b : redex (with_redex_queue q n) a b ↔ redex n a b.
Proof. split; intros []; by split. Qed.

Lemma stepped_swap n a b n' : stepped n a b n' → stepped n b a n'.
Proof.
  intros [W F N Q (q & Hq & A)]. split; try done.
  - intros H. apply Q. intros c d Hr. destruct (H c d Hr) as [?|[?|[?|?]]]; auto.
  - exists q. split; [done|]. intros c d Hr. destruct (A c d Hr) as [?|[?|(? & ? & ?)]]; auto.
    right; right. split; [done|]. split; congruence.
Qed.

(** ** Dispatch *)

Lemma get_rule_spec a b :
  get_rule a b =
    match a, b with
    | Con, Con | Dup, Dup => Anni
    | Con, Dup | Dup, Con => Comm
    | Era, Era => Void
    | _, _ => Eras
    end.
Proof. by destruct a, b. Qed.

Lemma symbol_at_Done n id s : symbol_at n id = Done s ↔ ∃ a, get_agent n id = Some a ∧ symbol a = s.
Proof. unfold symbol_at. destruct (get_agent n id); simpl; naive_solver. Qed.

(** The pair handed to the rule: the same redex with symbols in order. *)
Lemma normalize_pair_spec n a b :
  wf n → redex n a b →
  ∃ a' b' sa sb, normalize_pair a b n = Done (a', b') ∧
    ((a', b') = (a, b) ∨ (a', b') = (b, a)) ∧ redex n a' b' ∧
    symbol_at n a' = Done sa ∧ symbol_at n b' = Done sb ∧ symbol_code sa ≤ symbol_code sb.
Proof.
  intros Hwf Hr. pose proof (redex_sym n a b Hwf Hr).
  destruct Hr as [[x Hx] [y Hy] ?]. unfold normalize_pair, symbol_at. rewrite Hx, Hy. simpl.
  destruct (N.leb_spec (symbol_code (symbol x)) (symbol_code (symbol y))).
  - exists a, b, (symbol x), (symbol y). rewrite Hx, Hy.
    split_and!; try done; [by left|split; try done; by eexists].
  - exists b, a, (symbol y), (symbol x). rewrite Hx, Hy. split_and!; try done; [by right|lia].
Qed.

(** ** One step *)

(** The pair is a constructor and a duplicator sharing an auxiliary wire. *)
Definition comm_entangled (n : Net) (a b : AgentId) : Prop :=
  entangled n a b = true ∧
  ∃ x y, get_agent n a = Some x ∧ get_agent n b = Some y ∧ get_rule (symbol x) (symbol y) = Comm.

Definition comm_safe (n : Net) : Prop := ∀ a b, redex n a b → ¬ comm_entangled n a b.

Lemma entangled_iff n a b : wf n → redex n a b → entangled n a b = entangled n b a.
Proof.
  intros Hwf Hr. pose proof (redex_sym n a b Hwf Hr) as Hr'.
  destruct (entangled n a b) eqn:E1, (entangled n b a) eqn:E2; try done.
  - by rewrite (entangled_sym n b a Hwf Hr' E2) in E1.
  - by rewrite (entangled_sym n a b Hwf Hr E1) in E2.
Qed.

Lemma apply_rule_stepped n a b sa sb :
  wf n → redex n a b → next_id n + 4 ≤ u32_MAX → symbol_at n a = Done sa →
  symbol_at n b = Done sb → symbol_code sa ≤ symbol_code sb → ¬ comm_entangled n a b →
  ∃ n', apply_rule n (get_rule sa sb) a b = Done n' ∧ stepped n a b n'.
Proof.
  intros Hwf Hr Hroom Ha Hb Hord Hce.
  destruct (proj1 (symbol_at_Done _ _ _) Ha) as (x & Hx & Hxs).
  destruct (proj1 (symbol_at_Done _ _ _) Hb) as (y & Hy & Hys).
  rewrite get_rule_spec.
  destruct sa, sb; try (exfalso; simpl in Hord; lia); cbn [apply_rule].
  - by eapply interact_anni_stepped.
  - apply interact_comm_stepped; try done. apply not_true_is_false. intros He. apply Hce.
    split; [done|]. exists x, y. by rewrite Hxs, Hys.
  - by eapply interact_eras_stepped.
  - by eapply interact_anni_stepped.
  - by eapply interact_eras_stepped.
  - eexists. split; [done|]. by apply interact_void_stepped.
Qed.

Lemma fire_stepped n a b :
  wf n → redex n a b → next_id n + 4 ≤ u32_MAX → ¬ comm_entangled n a b →
  ∃ n' r s, fire n a b = Done (n', Reduced r s) ∧ stepped n a b n'.
Proof.
  intros Hwf Hr Hroom Hce. unfold fire.
  destruct (normalize_pair_spec n a b Hwf Hr) as (a' & b' & sa & sb & -> & Hab & Hr' & Hsa & Hsb & Hle).
  cbn [mbind outcome_bind]. rewrite Hsa, Hsb. cbn [mbind outcome_bind].
  destruct (apply_rule_stepped n a' b' sa sb) as (n' & -> & Hst); try done.
  - destruct Hab as [[= -> ->]|[= -> ->]]; [done|]. intros (He & x & y & Hx & Hy & Hxy).
    apply Hce. split; [by rewrite entangled_iff|]. exists y, x. split_and!; try done.
    by destruct (symbol x), (symbol y).
  - cbn [mbind outcome_bind]. eexists _, _, _. split; [reflexivity|].
    destruct Hab as [[= -> ->]|[= -> ->]]; [done|by apply stepped_swap].
Qed.

(** Discarding stale entries keeps the queue complete. *)
Lemma stale_queue_complete n a b q :
  wf n → redex_queue n = (a, b) :: q → is_valid_redex n a b = false →
  queue_complete n → queue_complete (with_redex_queue q n).
Proof.
  intros Hwf Hq Hst Hqc c d Hr. apply with_queue_redex in Hr. simpl.
  assert (Hne : ∀ x y, redex n x y → (x, y) ≠ (a, b)).
  { intros x y Hxy [= -> ->]. apply is_valid_redex_spec in Hxy. congruence. }
  pose proof (Hne c d Hr). pose proof (Hne d c (redex_sym n c d Hwf Hr)).
  destruct (Hqc c d Hr) as [H'|H']; rewrite Hq in H'; apply elem_of_cons in H' as [?|?]; auto; done.
Qed.

Lemma popped_queue_but n a b q :
  redex_queue n = (a, b) :: q → queue_complete n →
  queue_complete_but (with_redex_queue q n) a b.
Proof.
  intros Hq Hqc c d Hr. apply with_queue_redex in Hr. simpl.
  destruct (Hqc c d Hr) as [H'|H']; rewrite Hq in H'; apply elem_of_cons in H' as [[= -> ->]|?]; auto.
Qed.

(** What [reduce_step] returns on a well-formed net whose commuting pairs share
    no auxiliary wire. *)
Record step_ok (n n' : Net) (r : StepResult) : Prop := {
  so_wf : wf n';
  so_frame : same_frame n n';
  so_next : next_id n ≤ next_id n' ≤ next_id n + 4;
  so_queue : queue_complete n → queue_complete n';
  so_normal : r = NormalForm → redex_queue n' = [] ∧ agents n' = agents n ∧ ports n' = ports n;
}.

Lemma comm_safe_queue n q : comm_safe n → comm_safe (with_redex_queue q n).
Proof. intros H a b Hr. apply with_queue_redex in Hr. exact (H a b Hr). Qed.

Lemma reduce_from_ok n q :
  wf n → comm_safe n → next_id n + 4 ≤ u32_MAX →
  ∃ n' r, reduce_from n q = Done (n', r) ∧ step_ok (with_redex_queue q n) n' r.
Proof.
  revert n. induction q as [|[a b] q IH]; intros n Hwf Hcs Hroom; cbn [reduce_from].
  { eexists _, _. split; [reflexivity|].
    split; try done; [by apply with_queue_wf|simpl; lia]. }
  destruct (is_valid_redex (with_redex_queue q n) a b) eqn:Hv.
  - apply is_valid_redex_spec in Hv.
    destruct (fire_stepped (with_redex_queue q n) a b) as (n' & r & s & Hf & [W F N Q _]);
      [by apply with_queue_wf|done|done|by apply comm_safe_queue|].
    exists n', (Reduced r s). split; [done|]. split; try done.
    intros Hqc. apply Q. by apply (popped_queue_but (with_redex_queue ((a, b) :: q) n)).
  - destruct (IH (with_redex_queue q n)) as (n' & r & Hf & [W F N Q NF]);
      [by apply with_queue_wf|by apply comm_safe_queue|done|].
    exists n', r. split; [done|]. split; try done.
    intros Hqc. apply Q.
    by apply (stale_queue_complete (with_redex_queue ((a, b) :: q) n) a b); [apply with_queue_wf|..].
Qed.

Lemma reduce_step_ok n :
  wf n → comm_safe n → next_id n + 4 ≤ u32_MAX →
  ∃ n' r, reduce_step n = Done (n', r) ∧ step_ok n n' r.
Proof.
  intros Hwf Hcs Hroom. destruct (reduce_from_ok n (redex_queue n) Hwf Hcs Hroom) as (n' & r & H & Hok).
  exists n', r. split; [done|]. by destruct n.
Qed.

(** An empty complete queue leaves no active pair. *)
Lemma empty_queue_normal n : queue_complete n → redex_queue n = [] → ∀ a b, ¬ redex n a b.
Proof. intros Hqc Hq a b Hr. destruct (Hqc a b Hr) as [H|H]; rewrite Hq in H; by apply elem_of_nil in H. Qed.
