(* ===== verification/NetDebug.v ===== *)
(** The debug assertions of net/debug.rs and net/core.rs as executable
    checkers ([true]: no assertion fires), and executable forms of the
    library's own invariants with their soundness, used to discharge
    hypotheses on concrete nets. *)
From S2P Require Import Prelude NetTypes NetCore NetInv Reduction ReductionInv EngineInv.
Local Open Scope N_scope.
Open Scope net_scope.

(** ** The assertions *)

Definition root_agent_id (n : Net) : option AgentId :=
  match root n with Some (AgentPort id 0) => Some id | _ => None end.

(** One iteration of the port loop of [assert_adjacency_consistent]. *)
Definition adjacency_port_ok (n : Net) (a : Agent) (p : PortId) : bool :=
  let port := AgentPort (agent_id a) p in
  let target := get_target n port in
  if (p =? 0) && bool_decide (root_agent_id n = Some (agent_id a)) && bool_decide (target = DISCONNECTED)
  then true
  else if decide (target = DISCONNECTED) then false
  else match target with
       | FreePort _ => true
       | AgentPort _ _ => bool_decide (get_target n target = port)
       end.

Definition assert_adjacency_consistent (n : Net) : bool :=
  forallb (λ a, forallb (adjacency_port_ok n a) (range_u (total_ports (symbol a)))) (live_agents n).

Definition ref_port_ok (n : Net) (a : Agent) (p : PortId) : bool :=
  match get_target n (AgentPort (agent_id a) p) with
  | AgentPort tid tp =>
      match get_agent n tid with
      | Some t => tp <=? arity (symbol t)
      | None => false
      end
  | FreePort _ => true
  end.

Definition assert_refs_valid (n : Net) : bool :=
  forallb (λ a, forallb (ref_port_ok n a) (range_u (total_ports (symbol a)))) (live_agents n).

Definition assert_next_id_valid (n : Net) : bool :=
  forallb (λ idx, match mjoin (agents n !! idx) with
                  | Some _ => N.of_nat idx <? next_id n
                  | None => true
                  end) (seq 0 (length (agents n))).

Definition assert_era_unused_ports_clean (n : Net) : bool :=
  forallb (λ a, if decide (symbol a = Era)
                then forallb (λ p, match ports n !! N.to_nat (port_index (agent_id a) p) with
                                   | Some t => bool_decide (t = DISCONNECTED)
                                   | None => true
                                   end) [1; 2]
                else true) (live_agents n).

Definition assert_root_consistent (n : Net) : bool :=
  match root n with
  | None => true
  | Some (FreePort _) => false
  | Some (AgentPort id p) =>
      (p =? 0) && bool_decide (is_Some (get_agent n id)) &&
      bool_decide (ports n !! N.to_nat (port_index id 0) = Some DISCONNECTED)
  end.

Definition count_stale_redexes (n : Net) : nat :=
  length (filter (λ ab, is_valid_redex n ab.1 ab.2 = false) (redex_queue n)).

Definition assert_all_invariants (n : Net) : bool :=
  assert_adjacency_consistent n && assert_refs_valid n && assert_next_id_valid n &&
  assert_era_unused_ports_clean n && assert_root_consistent n.

Definition assert_no_free_list_port_refs (n : Net) : bool :=
  let free_set : gset AgentId := list_to_set (free_list n) in
  forallb (λ port, match port with
                   | AgentPort id _ => negb (bool_decide (id ∈ free_set))
                   | FreePort _ => true
                   end) (ports n).

Definition debug_check_invariants (n : Net) : bool :=
  assert_no_free_list_port_refs n &&
  bool_decide (NoDup (free_list n)) &&
  forallb (λ id, bool_decide (agents n !! N.to_nat id = Some None)) (free_list n).

(** ** Executable forms of the library's invariants *)

(** The agent ids the arena can hold. *)
Definition slots (n : Net) : list AgentId := N.of_nat <$> seq 0 (length (agents n)).

Definition valid_port_b (n : Net) (id : AgentId) (p : PortId) : bool :=
  match get_agent n id with Some a => p <? total_ports (symbol a) | None => false end.

Definition cell_ok (n : Net) (id : AgentId) (p : PortId) : bool :=
  (bool_decide (n.[id, p] = DISCONNECTED) || valid_port_b n id p) &&
  match n.[id, p] with
  | AgentPort b q => valid_port_b n b q && bool_decide (n.[b, q] = AgentPort id p) &&
                     negb ((b =? id) && (q =? p))
  | FreePort _ => true
  end.

Definition wf_b (n : Net) : bool :=
  (length (ports n) =? length (agents n) * 3)%nat &&
  (N.of_nat (length (agents n)) <=? next_id n) && (next_id n <=? u32_MAX) &&
  forallb (λ id, match get_agent n id with Some a => agent_id a =? id | None => true end) (slots n) &&
  forallb (λ id, forallb (cell_ok n id) [0; 1; 2]) (slots n) &&
  bool_decide (NoDup (free_list n)) &&
  forallb (λ id, bool_decide (get_agent n id = None) && (id <? next_id n)) (free_list n).

Lemma elem_of_slots n id : id ∈ slots n ↔ (N.to_nat id < length (agents n))%nat.
Proof.
  unfold slots. rewrite list_elem_of_fmap. setoid_rewrite elem_of_seq.
  split; [intros (i & -> & ?); lia|]. intros ?. exists (N.to_nat id). lia.
Qed.

Lemma forallb_elem {A} (f : A → bool) l x : forallb f l = true → x ∈ l → f x = true.
Proof. intros H Hx. rewrite forallb_forall in H. apply H. by apply list_elem_of_In. Qed.

Lemma valid_port_b_true n id p : valid_port_b n id p = true ↔ valid_port n id p.
Proof.
  unfold valid_port_b, valid_port. destruct (get_agent n id) as [a|]; [|naive_solver].
  rewrite N.ltb_lt. naive_solver.
Qed.

Lemma target_in_arena n id p :
  length (ports n) = (length (agents n) * 3)%nat → p < 3 →
  n.[id, p] ≠ DISCONNECTED → (N.to_nat id < length (agents n))%nat.
Proof.
  intros Hl Hp Hne. unfold get_target in Hne.
  destruct (ports n !! N.to_nat (port_index id p)) eqn:E; [|done].
  apply lookup_lt_Some in E. unfold port_index, PORTS_PER_SLOT in E. lia.
Qed.

Lemma wf_b_sound n : wf_b n = true → wf n.
Proof.
  unfold wf_b. rewrite !andb_true_iff.
  intros ((((((Hl%Nat.eqb_eq & Ha%N.leb_le) & Hu%N.leb_le) & Hid) & Hc) & Hnd) & Hf).
  assert (Hcell : ∀ id p, p < 3 → n.[id, p] ≠ DISCONNECTED → cell_ok n id p = true).
  { intros id p Hp Hne. assert (Hin : id ∈ slots n) by (apply elem_of_slots; by eapply target_in_arena).
    pose proof (forallb_elem _ _ _ Hc Hin) as Hcp. simpl in Hcp.
    apply (forallb_elem (cell_ok n id) [0; 1; 2]); [done|].
    assert (p = 0 ∨ p = 1 ∨ p = 2) as [->|[->| ->]] by lia; set_solver. }
  split; try done.
  - intros id a Hg. pose proof (forallb_elem _ _ id Hid) as H. simpl in H. rewrite Hg in H.
    apply N.eqb_eq, H, elem_of_slots. by eapply get_agent_arena.
  - intros id p Hp Hne. pose proof (Hcell id p Hp Hne) as H. unfold cell_ok in H.
    rewrite bool_decide_false in H by done. apply andb_true_iff in H as [H _].
    by apply valid_port_b_true.
  - intros id p b q Hp Ht. assert (H : cell_ok n id p = true) by (apply Hcell; [done|by rewrite Ht]).
    unfold cell_ok in H. rewrite Ht in H. rewrite !andb_true_iff, negb_true_iff in H.
    destruct H as (_ & (Hv%valid_port_b_true & Hb%bool_decide_eq_true) & Hne).
    split_and!; [done..|]. intros [= -> ->]. by rewrite !N.eqb_refl in Hne.
  - by apply bool_decide_eq_true in Hnd.
  - intros id Hin. pose proof (forallb_elem _ _ _ Hf Hin) as H. simpl in H.
    by apply andb_true_iff in H as [?%bool_decide_eq_true ?%N.ltb_lt].
Qed.

(** [f] holds of the ends of every active pair. *)
Definition all_redexes (f : AgentId → AgentId → bool) (n : Net) : bool :=
  forallb (λ a, match n.[a, 0] with
                | AgentPort b 0 => if is_valid_redex n a b then f a b else true
                | _ => true
                end) (slots n).

Lemma all_redexes_sound f n : all_redexes f n = true → ∀ a b, redex n a b → f a b = true.
Proof.
  intros H a b Hr. pose proof (proj2 (is_valid_redex_spec n a b) Hr) as Hv.
  destruct Hr as [[x Ha] _ Hab].
  pose proof (forallb_elem _ _ a H ltac:(apply elem_of_slots; by eapply get_agent_arena)) as Hf.
  cbv beta in Hf. by rewrite Hab, Hv in Hf.
Qed.

Definition comm_safe_b (n : Net) : bool :=
  all_redexes (λ a b, negb (entangled n a b &&
    match get_agent n a, get_agent n b with
    | Some x, Some y => bool_decide (get_rule (symbol x) (symbol y) = Comm)
    | _, _ => false
    end)) n.

Lemma comm_safe_b_sound n : comm_safe_b n = true → comm_safe n.
Proof.
  intros H a b Hr [He (x & y & Hx & Hy & Hc)].
  pose proof (all_redexes_sound _ _ H a b Hr) as Hf. cbv beta in Hf.
  by rewrite He, Hx, Hy, bool_decide_true in Hf.
Qed.

Definition queue_complete_b (n : Net) : bool :=
  all_redexes (λ a b, bool_decide ((a, b) ∈ redex_queue n) || bool_decide ((b, a) ∈ redex_queue n)) n.

Lemma queue_complete_b_sound n : queue_complete_b n = true → queue_complete n.
Proof.
  intros H a b Hr. pose proof (all_redexes_sound _ _ H a b Hr) as Hf. cbv beta in Hf.
  by apply orb_true_iff in Hf as [?%bool_decide_eq_true|?%bool_decide_eq_true]; [left|right].
Qed.
