(* ===== verification/Wiring.v ===== *)
(** The wiring each interaction rule produces, port by port: Lafont's rules
    read off the model. *)
From S2P Require Import Prelude NetTypes NetCore NetInv Reduction ReductionInv EngineInv NetDebug.
Local Open Scope N_scope.
Open Scope net_scope.

(** ** Example nets *)

(** A net of two agents on a redex whose auxiliary ports hang on free ports. *)
Definition example_pair (s t : Symbol) : Net :=
  match '(n, a) ← create_agent new s; '(n, b) ← create_agent n t; mret (n, a, b) with
  | Done (n, a, b) =>
      let n := connect n (AgentPort a 0) (AgentPort b 0) in
      let n := if decide (s = Era) then n else
        connect (connect n (AgentPort a 1) (FreePort 11)) (AgentPort a 2) (FreePort 12) in
      if decide (t = Era) then n else
        connect (connect n (AgentPort b 1) (FreePort 21)) (AgentPort b 2) (FreePort 22)
  | Panic => new
  end.

(** The same with an eraser plugged on each auxiliary port. *)
Definition example_closed (s t : Symbol) : Net :=
  let n := example_pair s t in
  foldl (λ n r, match create_agent n Era with
                | Done (n, e) => connect n (AgentPort e 0) r
                | Panic => n
                end) n
    ((if decide (s = Era) then [] else [AgentPort 0 1; AgentPort 0 2]) ++
     (if decide (t = Era) then [] else [AgentPort 1 1; AgentPort 1 2])).

(** The same with the second agent's auxiliary ports wired to each other. *)
Definition example_looped (s t : Symbol) : Net :=
  let n := connect (example_pair s t) (AgentPort 1 1) (AgentPort 1 2) in
  foldl (λ n r, match create_agent n Era with
                | Done (n, e) => connect n (AgentPort e 0) r
                | Panic => n
                end) n [AgentPort 0 1; AgentPort 0 2].

(** ** Lemmas *)

Lemma attached n x i c q :
  wf n → i < 3 → q < 3 → n.[x, i] = AgentPort c q ↔ n.[c, q] = AgentPort x i.
Proof.
  intros Hwf Hi Hq. split; intros E; [by destruct (wf_sym n Hwf x i c q Hi E) as (_ & ? & _)|].
  by destruct (wf_sym n Hwf c q x i Hq E) as (_ & ? & _).
Qed.

(** The port of the pair that an outside port is attached to. *)
Lemma touching_aux n a b c q x p :
  wf n → redex n a b → c ≠ a → c ≠ b → q < 3 → (x = a ∨ x = b) → n.[c, q] = AgentPort x p →
  (p = 1 ∨ p = 2) ∧ n.[x, p] = AgentPort c q.
Proof.
  intros Hwf Hr Ha Hb Hq Hx E. destruct (wf_sym n Hwf c q x p Hq E) as (Hv & Hs & _).
  split; [|done]. apply valid_port_lt3 in Hv.
  destruct (decide (p = 0)) as [->|]; [|lia]. exfalso.
  pose proof (rx_ab _ _ _ Hr) as H1. pose proof (rx_ab _ _ _ (redex_sym _ _ _ Hwf Hr)) as H2.
  destruct Hx as [-> | ->]; congruence.
Qed.

Lemma target_wires_kept n a b m ss :
  wf n → pair_gone n a b m →
  Forall (λ s, (s.1 = a ∨ s.1 = b) ∧ s.2 < 3 ∧ touches a b (slot_target n s) = false)
    (flat_map (λ w, [w.1; w.2]) ss) →
  filter (λ w, kept m w = true) (target_wires n ss) = target_wires n ss.
Proof.
  intros Hwf Hm. induction ss as [|[[x i] [y j]] ss IH]; [done|]. simpl flat_map.
  rewrite !Forall_cons. simpl fst. simpl snd. intros ((Hx & Hi & H1) & (Hy & Hj & H2) & H).
  change (target_wires n (((x, i), (y, j)) :: ss)) with ((n.[x, i], n.[y, j]) :: target_wires n ss).
  rewrite filter_cons_True; [by rewrite IH|]. unfold kept. cbn [fst snd].
  by rewrite !(free_end_not_removed m) by (by eapply outer_end).
Qed.

Definition cross (s : Symbol) (p : PortId) : PortId := if decide (s = Con) then 3 - p else p.

(** The slots whose old targets the rule joins: those of a looping agent drop
    out, and its partner's two wires are joined to each other. *)
Definition anni_slots (n : Net) (s : Symbol) (a b : AgentId) :
    list ((AgentId * PortId) * (AgentId * PortId)) :=
  match self_loop a n.[a, 1] n.[a, 2], self_loop b n.[b, 1] n.[b, 2] with
  | true, true => []
  | false, true => [((a, 1), (a, 2))]
  | true, false => [((b, 1), (b, 2))]
  | false, false =>
      match s with
      | Con => [((a, 1), (b, 2)); ((a, 2), (b, 1))]
      | _ => [((a, 1), (b, 1)); ((a, 2), (b, 2))]
      end
  end.

Lemma interact_anni_rewired n a b s :
  wf n → redex n a b → symbol_at n a = Done s → s ≠ Era → entangled n a b = false →
  ∃ n', interact_anni n a b = Done n' ∧ rewired n a b [] (target_wires n (anni_slots n s a b)) n'.
Proof.
  intros Hwf Hr Hs Hne He. pose proof (redex_ne n a b Hwf Hr) as Hab.
  pose proof (redex_sym n a b Hwf Hr) as Hr'.
  pose proof (entangled_sym n a b Hwf Hr He) as He'.
  unfold interact_anni. rewrite Hs. cbn [mbind outcome_bind].
  set (m := remove_agent (remove_agent n a) b).
  exists (link_all m (target_wires n (anni_slots n s a b))). unfold anni_slots.
  assert (Ht : ∀ x p, x = a ∧ self_loop a n.[a, 1] n.[a, 2] = false ∨
                      x = b ∧ self_loop b n.[b, 1] n.[b, 2] = false → p = 1 ∨ p = 2 →
    (x = a ∨ x = b) ∧ p < 3 ∧ touches a b (slot_target n (x, p)) = false).
  { intros x p Hx Hp. split_and!; [naive_solver|lia|].
    destruct Hx as [[-> Hl]|[-> Hl]]; [by apply aux_outer|]. rewrite touches_comm. by apply aux_outer. }
  destruct (self_loop a _ _) eqn:Ha, (self_loop b _ _) eqn:Hb; cbn [andb].
  all: split; [by destruct s|].
  all: try (destruct s; [| |done]).
  all: match goal with |- rewired _ _ _ _ (target_wires _ ?ss) _ =>
         assert (Hk := target_wires_kept n a b m ss Hwf (pair_gone_spec n a b Hwf Hr));
         rewrite <- Hk at 1;
           [apply link_all_rewired; [done..|split]|]
       end.
  all: first [solve [distinct_list]|each_elem; solve [apply Ht; auto|split; [by auto|reflexivity]]].
Qed.

(** Decides which wire of a list an outside port is the end of, knowing its
    old target. *)
Ltac find_wire Hwf Hq :=
  repeat match goal with
  | |- context [decide (?n.[?x, ?i] = AgentPort ?c ?q)] =>
      let E := fresh "E" in
      destruct (decide (n.[x, i] = AgentPort c q)) as [E|E];
      [apply (attached n x i c q Hwf ltac:(lia) Hq) in E
      |rewrite (attached n x i c q Hwf ltac:(lia) Hq) in E]
  end.

Lemma touches_owner a b x p : touches a b (AgentPort x p) = (x =? a) || (x =? b).
Proof. done. Qed.

Lemma touches_outside a b c q : c ≠ a → c ≠ b → touches a b (AgentPort c q) = false.
Proof. intros. rewrite touches_owner. by rewrite !(proj2 (N.eqb_neq _ _)). Qed.

(** ** Annihilation *)

(** What an annihilation puts on the wire that was attached to port [p] of
    [x], where [y] is the partner of [x] on the redex: the wire crosses to [y],
    or comes back to the other port of [x] when [y] loops on itself. *)
Definition anni_image (n : Net) (s : Symbol) (x y : AgentId) (p : PortId) : PortRef :=
  if self_loop y n.[y, 1] n.[y, 2] then n.[x, 3 - p] else n.[y, cross s p].

(** No outside port is attached to an agent that loops on itself. *)
Lemma looping_not_outside n x c q p :
  wf n → self_loop x n.[x, 1] n.[x, 2] = true → c ≠ x → q < 3 → (p = 1 ∨ p = 2) →
  n.[c, q] ≠ AgentPort x p.
Proof.
  intros Hwf [E1 E2]%bool_decide_eq_true Hc Hq Hp E.
  destruct (wf_sym n Hwf c q x p Hq E) as (_ & Hs & _). destruct Hp as [-> | ->]; congruence.
Qed.

(** C2. Annihilation of two constructors crosses the auxiliary wires and that
    of two duplicators keeps them parallel: after [interact_anni] on a pair of
    a well-formed net whose two agents share no auxiliary wire, each port
    outside the pair that was attached to port [p] of one agent is attached to
    whatever was attached to port [cross p] of the other (an agent port or a
    free port) - or, when that other agent's two auxiliary ports are wired to
    each other, to whatever was attached to the first agent's other auxiliary
    port -, every other outside port keeps its target, and exactly the two
    agents are gone. *)
Theorem interact_anni_wiring n a b s :
  wf n → redex n a b → symbol_at n a = Done s → s ≠ Era → entangled n a b = false →
  ∃ n', interact_anni n a b = Done n' ∧
    (∀ x, get_agent n' x = if decide (x = a ∨ x = b) then None else get_agent n x) ∧
    (∀ c q, c ≠ a → c ≠ b → q < 3 →
      n'.[c, q] = match n.[c, q] with
                  | AgentPort x p =>
                      if x =? a then anni_image n s a b p
                      else if x =? b then anni_image n s b a p
                      else AgentPort x p
                  | FreePort f => FreePort f
                  end).
Proof.
  intros Hwf Hr Hs Hne He.
  destruct (interact_anni_rewired n a b s Hwf Hr Hs Hne He) as (n' & Hn & Hw).
  exists n'. split; [done|]. split.
  { intros x. apply (rewired_agent _ _ _ _ _ _ x Hw). apply not_elem_of_nil. }
  intros c q Hca Hcb Hq. rewrite (rewired_target _ _ _ _ _ _ c q Hw Hq).
  rewrite (touches_outside a b c q Hca Hcb). cbn [orb].
  pose proof (redex_ne n a b Hwf Hr) as Hab.
  assert (Hout : ∀ x p, x = a ∨ x = b → n.[c, q] = AgentPort x p → p = 1 ∨ p = 2).
  { intros x p Hx E. by eapply (touching_aux n a b c q x p). }
  assert (Hla := λ p, looping_not_outside n a c q p Hwf).
  assert (Hlb := λ p, looping_not_outside n b c q p Hwf).
  unfold target_wires, anni_slots, anni_image, slot_target.
  destruct (self_loop a _ _) eqn:Ha, (self_loop b _ _) eqn:Hb; [| | |destruct s; [| |done]];
    cbn [fmap list_fmap fst snd partner]; find_wire Hwf Hq;
    repeat match goal with
    | E : n.[c, q] = AgentPort _ _ |- _ => rewrite E
    end; rewrite ?N.eqb_refl, ?(proj2 (N.eqb_neq a b)), ?(proj2 (N.eqb_neq b a)) by done; try done.
  all: destruct (n.[c, q]) as [x p|] eqn:E'; [|done]; rewrite touches_owner.
  all: destruct (N.eqb_spec x a) as [->|]; [exfalso; destruct (Hout a p) as [-> | ->]; naive_solver|].
  all: destruct (N.eqb_spec x b) as [->|]; [exfalso; destruct (Hout b p) as [-> | ->]; naive_solver|done].
Qed.

Lemma interact_anni_wiring_witness :
  (∃ n', interact_anni (example_closed Con Con) 0 1 = Done n' ∧
    n'.[2, 0] = AgentPort 5 0 ∧ n'.[3, 0] = AgentPort 4 0) ∧
  (∃ n', interact_anni (example_looped Con Con) 0 1 = Done n' ∧
    n'.[2, 0] = AgentPort 3 0 ∧ n'.[3, 0] = AgentPort 2 0).
Proof.
  assert (Hwf : wf (example_closed Con Con)) by (apply wf_b_sound; vm_compute; reflexivity).
  assert (Hr : redex (example_closed Con Con) 0 1)
    by (apply is_valid_redex_spec; vm_compute; reflexivity).
  assert (Hwf' : wf (example_looped Con Con)) by (apply wf_b_sound; vm_compute; reflexivity).
  assert (Hr' : redex (example_looped Con Con) 0 1)
    by (apply is_valid_redex_spec; vm_compute; reflexivity).
  split.
  - destruct (interact_anni_wiring (example_closed Con Con) 0 1 Con Hwf Hr) as (n' & H & _ & Ht);
      [vm_compute; reflexivity|discriminate|vm_compute; reflexivity..|].
    exists n'. split; [exact H|]. split; rewrite Ht by done; vm_compute; reflexivity.
  - destruct (interact_anni_wiring (example_looped Con Con) 0 1 Con Hwf' Hr') as (n' & H & _ & Ht);
      [vm_compute; reflexivity|discriminate|vm_compute; reflexivity..|].
    exists n'. split; [exact H|]. split; rewrite Ht by done; vm_compute; reflexivity.
Defined.

(** ** Created agents *)

(** An agent outside the pair is not one of the created ones. *)
Lemma outside_not_created n a b l ws n' c :
  rewired n a b l ws n' → live n c → c ≠ a → c ≠ b → c ∉ agent_id <$> l.
Proof.
  intros (m & n1 & Hm & Hs & _) [x Hx] Ha Hb (y & -> & Hy)%list_elem_of_fmap.
  pose proof (sp_dead _ _ _ Hs y Hy) as Hd. rewrite (pg_agent _ _ _ _ Hm) in Hd.
  rewrite decide_False in Hd by naive_solver. congruence.
Qed.

Lemma rewired_distinct n a b l ws n' : rewired n a b l ws n' → NoDup (agent_id <$> l).
Proof. intros (m & n1 & _ & Hs & _). apply (sp_nodup _ _ _ Hs). Qed.

(** A target read before the rule is not a port of a created agent. *)
Lemma outer_not_created n a b l ws n' x p e q :
  wf n → rewired n a b l ws n' → (x = a ∨ x = b) → p < 3 →
  touches a b n.[x, p] = false → e ∈ agent_id <$> l → n.[x, p] ≠ AgentPort e q.
Proof.
  intros Hwf Hw Hx Hp Ht He E. rewrite E, touches_owner in Ht.
  apply orb_false_iff in Ht as [Hta%N.eqb_neq Htb%N.eqb_neq].
  destruct (wf_sym n Hwf x p e q Hp E) as (Hv & _).
  exact (outside_not_created n a b l ws n' e Hw (valid_port_live _ _ _ Hv) Hta Htb He).
Qed.

(** ** Erasure *)

(** C4. Erasure: [interact_eras] removes the pair and puts a fresh eraser on
    each of the two auxiliary wires of the erased agent; every other port of
    every other agent keeps its target. *)
Theorem interact_eras_wiring n a b x :
  wf n → redex n a b → get_agent n b = Some x → symbol x = Era → next_id n + 4 ≤ u32_MAX →
  self_loop a n.[a, 1] n.[a, 2] = false →
  ∃ n' e1 e2, interact_eras n a b = Done n' ∧ e1 ≠ e2 ∧
    get_agent n' e1 = Some (mkAgent Era e1) ∧ get_agent n' e2 = Some (mkAgent Era e2) ∧
    n'.[e1, 0] = n.[a, 1] ∧ n'.[e2, 0] = n.[a, 2] ∧
    (∀ y, y ≠ e1 → y ≠ e2 →
      get_agent n' y = if decide (y = a ∨ y = b) then None else get_agent n y) ∧
    (∀ c q, live n c → c ≠ a → c ≠ b → q < 3 →
      n'.[c, q] = match n.[c, q] with
                  | AgentPort y p =>
                      if y =? a then AgentPort (if p =? 1 then e1 else e2) 0 else AgentPort y p
                  | FreePort f => FreePort f
                  end).
Proof.
  intros Hwf Hr Hb Hx Hroom Hl. pose proof (redex_ne n a b Hwf Hr) as Hab.
  destruct (interact_eras_rewired n a b x Hwf Hr Hb Hx Hroom Hl) as (n' & e1 & e2 & Hn & Hw).
  pose proof (rewired_distinct _ _ _ _ _ _ Hw) as Hnd. simpl in Hnd.
  assert (He : e1 ≠ e2) by (apply NoDup_cons in Hnd as [Hnd _]; set_solver).
  pose proof (era_not_entangled n a b x Hwf Hr Hb Hx) as Hent.
  assert (Hat : ∀ p e q, p = 1 ∨ p = 2 → e = e1 ∨ e = e2 → n.[a, p] ≠ AgentPort e q).
  { intros p e q Hp He'. eapply outer_not_created; [done..|auto|lia|by apply aux_outer|].
    set_solver. }
  exists n', e1, e2. split_and!; [done|done|..].
  - apply (rewired_created _ _ _ _ _ _ (mkAgent Era e1) Hw). set_solver.
  - apply (rewired_created _ _ _ _ _ _ (mkAgent Era e2) Hw). set_solver.
  - rewrite (rewired_target _ _ _ _ _ _ e1 0 Hw) by lia. unfold eras_wires. cbn [partner].
    rewrite decide_False by (apply Hat; auto). by rewrite decide_True.
  - rewrite (rewired_target _ _ _ _ _ _ e2 0 Hw) by lia. unfold eras_wires. cbn [partner].
    rewrite !(decide_False (P := n.[_, _] = _)) by (apply Hat; auto).
    by rewrite decide_False, decide_True by congruence.
  - intros y H1 H2. apply (rewired_agent _ _ _ _ _ _ y Hw). set_solver.
  - intros c q Hc Hca Hcb Hq. rewrite (rewired_target _ _ _ _ _ _ c q Hw Hq).
    pose proof (outside_not_created _ _ _ _ _ _ c Hw Hc Hca Hcb) as Hcn. simpl in Hcn.
    rewrite (touches_outside a b c q Hca Hcb). cbn [orb]. unfold eras_wires. cbn [partner].
    rewrite !(decide_False (P := AgentPort _ _ = _)) by set_solver.
    find_wire Hwf Hq;
      try (match goal with E : n.[c, q] = AgentPort a _ |- _ => by rewrite E, N.eqb_refl end).
    destruct (n.[c, q]) as [y p|] eqn:E'; [|done]. rewrite touches_owner.
    assert (Hout : y = a ∨ y = b → p = 1 ∨ p = 2).
    { intros Hy. by eapply (touching_aux n a b c q y p). }
    destruct (N.eqb_spec y a) as [->|]; [exfalso; destruct Hout as [-> | ->]; auto|].
    destruct (N.eqb_spec y b) as [->|]; [|done]. exfalso.
    destruct (touching_aux n a b c q b p) as [Hp Hbp]; auto.
    destruct (wf_src n Hwf b p) as (z & Hz & Hlt); [lia|by rewrite Hbp|].
    rewrite Hb in Hz. injection Hz as <-. rewrite Hx in Hlt. change (p < 1) in Hlt. lia.
Qed.

Lemma interact_eras_wiring_witness :
  ∃ n' e1 e2, interact_eras (example_closed Dup Era) 0 1 = Done n' ∧ e1 ≠ e2 ∧
    n'.[2, 0] = AgentPort e1 0 ∧ n'.[3, 0] = AgentPort e2 0.
Proof.
  assert (Hwf : wf (example_closed Dup Era)) by (apply wf_b_sound; vm_compute; reflexivity).
  assert (Hr : redex (example_closed Dup Era) 0 1)
    by (apply is_valid_redex_spec; vm_compute; reflexivity).
  destruct (interact_eras_wiring (example_closed Dup Era) 0 1 (mkAgent Era 1) Hwf Hr)
    as (n' & e1 & e2 & H & Hne & _ & _ & _ & _ & _ & Ht);
    [vm_compute; reflexivity|reflexivity|vm_compute; discriminate|vm_compute; reflexivity|].
  exists n', e1, e2. split; [exact H|]. split; [exact Hne|].
  split; (rewrite Ht; [vm_compute; reflexivity|vm_compute; by eexists|done..]).
Defined.

(** ** Commutation *)

(** The port that replaces an auxiliary port of the pair, seen from outside. *)
Definition comm_image (a b p q r s : AgentId) (y i : N) : PortRef :=
  if y =? a then AgentPort (if i =? 1 then p else q) 0
  else if y =? b then AgentPort (if i =? 1 then r else s) 0
  else AgentPort y i.

(** [n'] is [n] with the pair replaced by the four agents of the commutation:
    two duplicators on the constructor's old wires, two constructors on the
    duplicator's, wired together as a square. *)
Definition commuted (n : Net) (a b : AgentId) (n' : Net) (p q r s : AgentId) : Prop :=
  NoDup [s; r; q; p] ∧
  (get_agent n' p = Some (mkAgent Dup p) ∧ get_agent n' q = Some (mkAgent Dup q) ∧
   get_agent n' r = Some (mkAgent Con r) ∧ get_agent n' s = Some (mkAgent Con s)) ∧
  (n'.[p, 0] = n.[a, 1] ∧ n'.[q, 0] = n.[a, 2] ∧ n'.[r, 0] = n.[b, 1] ∧ n'.[s, 0] = n.[b, 2]) ∧
  (n'.[p, 1] = AgentPort r 1 ∧ n'.[p, 2] = AgentPort s 1 ∧
   n'.[q, 1] = AgentPort r 2 ∧ n'.[q, 2] = AgentPort s 2) ∧
  (∀ y, y ∉ [s; r; q; p] →
    get_agent n' y = if decide (y = a ∨ y = b) then None else get_agent n y) ∧
  (∀ c j, live n c → c ≠ a → c ≠ b → j < 3 →
    n'.[c, j] = match n.[c, j] with
                | AgentPort y i => comm_image a b p q r s y i
                | FreePort f => FreePort f
                end).

(** [n'] is [n] with the pair replaced by two agents of symbol [k], each with
    its auxiliary ports wired to each other, on the old wires of [x]. *)
Definition loop_copied (n : Net) (a b x : AgentId) (k : Symbol) (n' : Net) (r t : AgentId) : Prop :=
  r ≠ t ∧
  (get_agent n' r = Some (mkAgent k r) ∧ get_agent n' t = Some (mkAgent k t)) ∧
  (n'.[r, 0] = n.[x, 1] ∧ n'.[t, 0] = n.[x, 2]) ∧
  (n'.[r, 1] = AgentPort r 2 ∧ n'.[t, 1] = AgentPort t 2) ∧
  (∀ y, y ∉ [t; r] → get_agent n' y = if decide (y = a ∨ y = b) then None else get_agent n y) ∧
  (∀ c j, live n c → c ≠ a → c ≠ b → j < 3 →
    n'.[c, j] = match n.[c, j] with
                | AgentPort y i => if y =? x then AgentPort (if i =? 1 then r else t) 0
                                   else AgentPort y i
                | FreePort f => FreePort f
                end).

(** [n'] is [n] without the pair: no wire of another agent changes. *)
Definition pair_erased (n : Net) (a b : AgentId) (n' : Net) : Prop :=
  (∀ y, get_agent n' y = if decide (y = a ∨ y = b) then None else get_agent n y) ∧
  (∀ c j, c ≠ a → c ≠ b → j < 3 → n'.[c, j] = n.[c, j]).

Lemma comm_full_wiring n a b :
  wf n → redex n a b → entangled n a b = false → next_id n + 4 ≤ u32_MAX →
  self_loop a n.[a, 1] n.[a, 2] = false → self_loop b n.[b, 1] n.[b, 2] = false →
  ∃ n', interact_comm n a b = Done n' ∧ ∃ p q r s, commuted n a b n' p q r s.
Proof.
  intros Hwf Hr Hent Hroom Ha Hb. pose proof (redex_ne n a b Hwf Hr) as Hab.
  pose proof (redex_sym n a b Hwf Hr) as Hr'. pose proof (entangled_sym n a b Hwf Hr Hent) as Hent'.
  destruct (interact_comm_rewired n a b Hwf Hr Hent Hroom Ha Hb)
    as (n' & p & q & r & s & Hn & Hw).
  pose proof (rewired_distinct _ _ _ _ _ _ Hw) as Hnd. simpl in Hnd.
  assert (Hat : ∀ x i e j, x = a ∨ x = b → i = 1 ∨ i = 2 → e ∈ [s; r; q; p] → n.[x, i] ≠ AgentPort e j).
  { intros x i e j Hx Hi He. eapply outer_not_created; [done..|lia| |exact He].
    destruct Hx as [-> | ->]; [by apply aux_outer|]. rewrite touches_comm. by apply aux_outer. }
  exists n'. split; [done|]. exists p, q, r, s. split; [done|].
  pose proof Hnd as Hnd'. rewrite !NoDup_cons, !not_elem_of_cons in Hnd'. destruct_and!.
  assert (Hnew : ∀ e j t, e ∈ [s; r; q; p] → j < 3 →
    partner (comm_wires n a b p q r s) (AgentPort e j) = Some t → n'.[e, j] = t).
  { intros e j t He Hj E. by rewrite (rewired_target _ _ _ _ _ _ e j Hw Hj), E. }
  split; [|split; [|split; [|split]]].
  - split_and!;
      [apply (rewired_created _ _ _ _ _ _ (mkAgent Dup p) Hw)
      |apply (rewired_created _ _ _ _ _ _ (mkAgent Dup q) Hw)
      |apply (rewired_created _ _ _ _ _ _ (mkAgent Con r) Hw)
      |apply (rewired_created _ _ _ _ _ _ (mkAgent Con s) Hw)]; set_solver.
  - split_and!; (apply Hnew; [set_solver|lia|]); unfold comm_wires; cbn [partner];
      rewrite ?(decide_False (P := n.[_, _] = _)) by (apply Hat; [auto|auto|set_solver]);
      repeat (first [rewrite decide_True by done | rewrite decide_False by congruence]); done.
  - split_and!; (apply Hnew; [set_solver|lia|]); unfold comm_wires; cbn [partner];
      rewrite ?(decide_False (P := n.[_, _] = _)) by (apply Hat; [auto|auto|set_solver]);
      repeat (first [rewrite decide_True by done | rewrite decide_False by congruence]); done.
  - intros y Hy. by apply (rewired_agent _ _ _ _ _ _ y Hw).
  - intros c j Hc Hca Hcb Hj. rewrite (rewired_target _ _ _ _ _ _ c j Hw Hj).
    pose proof (outside_not_created _ _ _ _ _ _ c Hw Hc Hca Hcb) as Hcn. simpl in Hcn.
    rewrite (touches_outside a b c j Hca Hcb). cbn [orb]. unfold comm_wires. cbn [partner].
    rewrite !(decide_False (P := AgentPort _ _ = _)) by set_solver.
    assert (Hba : (b =? a) = false) by (by apply N.eqb_neq).
    unfold comm_image. find_wire Hwf Hj;
      try (match goal with E : n.[c, j] = AgentPort _ _ |- _ => by rewrite E, ?Hba, ?N.eqb_refl end).
    destruct (n.[c, j]) as [y i|] eqn:E'; [|done]. rewrite touches_owner.
    assert (Hout : y = a ∨ y = b → i = 1 ∨ i = 2).
    { intros Hy. by eapply (touching_aux n a b c j y i). }
    destruct (N.eqb_spec y a) as [->|]; [exfalso; destruct Hout as [-> | ->]; auto|].
    destruct (N.eqb_spec y b) as [->|]; [exfalso; destruct Hout as [-> | ->]; auto|done].
Qed.

Lemma comm_one_loop_wiring n a b n' x k r t :
  wf n → redex n a b → (x = a ∨ x = b) → total_ports k = 3 →
  (∀ p, p = 1 ∨ p = 2 → touches a b n.[x, p] = false) →
  (∀ y, (y = a ∨ y = b) → y ≠ x → self_loop y n.[y, 1] n.[y, 2] = true) →
  rewired n a b [mkAgent k t; mkAgent k r] (one_loop_wires n x r t) n' →
  loop_copied n a b x k n' r t.
Proof.
  intros Hwf Hr Hx Hk Hout Hloop Hw.
  pose proof (rewired_distinct _ _ _ _ _ _ Hw) as Hnd. simpl in Hnd.
  assert (Hrt : r ≠ t) by (apply NoDup_cons in Hnd as [Hnd _]; set_solver).
  assert (Hat : ∀ i e j, i = 1 ∨ i = 2 → e ∈ [t; r] → n.[x, i] ≠ AgentPort e j).
  { intros i e j Hi He. eapply (outer_not_created n a b _ _ n' x i e j); [done..|lia|auto|exact He]. }
  assert (Hnew : ∀ e j u, e ∈ [t; r] → j < 3 →
    partner (one_loop_wires n x r t) (AgentPort e j) = Some u → n'.[e, j] = u).
  { intros e j u He Hj E. by rewrite (rewired_target _ _ _ _ _ _ e j Hw Hj), E. }
  split; [done|]. split; [|split; [|split; [|split]]].
  - split; [apply (rewired_created _ _ _ _ _ _ (mkAgent k r) Hw)
           |apply (rewired_created _ _ _ _ _ _ (mkAgent k t) Hw)]; set_solver.
  - split; (apply Hnew; [set_solver|lia|]); unfold one_loop_wires; cbn [partner];
      rewrite ?(decide_False (P := n.[_, _] = _)) by (apply Hat; [auto|set_solver]);
      repeat (first [rewrite decide_True by done | rewrite decide_False by congruence]); done.
  - split; (apply Hnew; [set_solver|lia|]); unfold one_loop_wires; cbn [partner];
      repeat (first [rewrite decide_True by done | rewrite decide_False by congruence]); done.
  - intros y Hy. by apply (rewired_agent _ _ _ _ _ _ y Hw).
  - intros c j Hc Hca Hcb Hj. rewrite (rewired_target _ _ _ _ _ _ c j Hw Hj).
    pose proof (outside_not_created _ _ _ _ _ _ c Hw Hc Hca Hcb) as Hcn. simpl in Hcn.
    rewrite (touches_outside a b c j Hca Hcb). cbn [orb]. unfold one_loop_wires. cbn [partner].
    rewrite !(decide_False (P := AgentPort _ _ = _)) by set_solver. find_wire Hwf Hj;
      try (match goal with E : n.[c, j] = AgentPort _ _ |- _ => by rewrite E, N.eqb_refl end).
    destruct (n.[c, j]) as [y i|] eqn:E'; [|done]. rewrite touches_owner.
    assert (Hp : y = a ∨ y = b → i = 1 ∨ i = 2).
    { intros Hy. by eapply (touching_aux n a b c j y i). }
    destruct (N.eqb_spec y x) as [->|Hyx]; [exfalso; destruct (Hp Hx) as [-> | ->]; auto|].
    assert (Hno : ¬ (y = a ∨ y = b)).
    { intros Hy. eapply (looping_not_outside n y c j i Hwf (Hloop y Hy Hyx)); auto. naive_solver. }
    by rewrite !(proj2 (N.eqb_neq _ _)) by tauto.
Qed.

Lemma both_loops_erased n a b :
  wf n → redex n a b →
  self_loop a n.[a, 1] n.[a, 2] = true → self_loop b n.[b, 1] n.[b, 2] = true →
  pair_erased n a b (remove_agent (remove_agent n a) b).
Proof.
  intros Hwf Hr Ha Hb. pose proof (pair_gone_spec n a b Hwf Hr) as Hm.
  split; [apply (pg_agent _ _ _ _ Hm)|]. intros c j Hca Hcb Hj.
  rewrite (pg_target _ _ _ _ Hm) by done. rewrite (touches_outside a b c j Hca Hcb). cbn [orb].
  destruct (n.[c, j]) as [y i|] eqn:E; [|done]. rewrite touches_owner.
  assert (Hno : y ≠ a ∧ y ≠ b).
  { assert (Hp : y = a ∨ y = b → i = 1 ∨ i = 2).
    { intros Hy. by eapply (touching_aux n a b c j y i). }
    split; intros ->;
      [by apply (looping_not_outside n a c j i); auto|by apply (looping_not_outside n b c j i); auto]. }
  by rewrite !(proj2 (N.eqb_neq _ _)) by tauto.
Qed.

(** C3. Commutation of a constructor [a] and a duplicator [b] that share no
    auxiliary wire, in a well-formed net with room for four more ids. When
    neither agent's auxiliary ports are wired to each other, [interact_comm]
    creates two duplicators [p], [q] on the constructor's old wires and two
    constructors [r], [s] on the duplicator's old wires, and wires the four
    together as a square (p.1-r.1, p.2-s.1, q.1-r.2, q.2-s.2). When only the
    constructor loops on itself it leaves two such looping constructors on the
    duplicator's old wires, when only the duplicator does two looping
    duplicators on the constructor's, and when both do nothing but the removal
    of the pair. No other wire and no other agent changes. *)
Theorem interact_comm_wiring n a b :
  wf n → redex n a b → entangled n a b = false → next_id n + 4 ≤ u32_MAX →
  ∃ n', interact_comm n a b = Done n' ∧
    match self_loop a n.[a, 1] n.[a, 2], self_loop b n.[b, 1] n.[b, 2] with
    | false, false => ∃ p q r s, commuted n a b n' p q r s
    | true, false => ∃ r s, loop_copied n a b b Con n' r s
    | false, true => ∃ p q, loop_copied n a b a Dup n' p q
    | true, true => pair_erased n a b n'
    end.
Proof.
  intros Hwf Hr He Hroom. pose proof (redex_sym n a b Hwf Hr) as Hr'.
  pose proof (entangled_sym n a b Hwf Hr He) as He'. pose proof (pair_gone_spec n a b Hwf Hr) as Hm.
  destruct (self_loop a n.[a, 1] n.[a, 2]) eqn:Ha, (self_loop b n.[b, 1] n.[b, 2]) eqn:Hb.
  - eexists. unfold interact_comm. rewrite Ha, Hb. split; [reflexivity|]. by apply both_loops_erased.
  - destruct (comm_one_loop_rewired n a b _ b Con Con (or_intror eq_refl) Hwf Hr Hm Hroom)
      as (n' & r & t & Hp & Hw); [|done..|].
    { intros p Hp. rewrite touches_comm. by apply aux_outer. }
    exists n'. split; [unfold interact_comm; by rewrite Ha, Hb|]. exists r, t.
    apply comm_one_loop_wiring; auto; [|naive_solver].
    intros p Hp'. rewrite touches_comm. by apply aux_outer.
  - destruct (comm_one_loop_rewired n a b _ a Dup Dup (or_introl eq_refl) Hwf Hr Hm Hroom)
      as (n' & r & t & Hp & Hw); [|done..|].
    { intros p Hp. by apply aux_outer. }
    exists n'. split; [unfold interact_comm; by rewrite Ha, Hb|]. exists r, t.
    apply comm_one_loop_wiring; auto; [|naive_solver].
    intros p Hp'. by apply aux_outer.
  - by apply comm_full_wiring.
Qed.

Lemma interact_comm_wiring_witness :
  (∃ n' p q r s, interact_comm (example_closed Con Dup) 0 1 = Done n' ∧ NoDup [s; r; q; p] ∧
    n'.[2, 0] = AgentPort p 0 ∧ n'.[5, 0] = AgentPort s 0) ∧
  (∃ n' p q, interact_comm (example_looped Con Dup) 0 1 = Done n' ∧ p ≠ q ∧
    n'.[2, 0] = AgentPort p 0 ∧ n'.[3, 0] = AgentPort q 0).
Proof.
  assert (Hwf : wf (example_closed Con Dup)) by (apply wf_b_sound; vm_compute; reflexivity).
  assert (Hr : redex (example_closed Con Dup) 0 1)
    by (apply is_valid_redex_spec; vm_compute; reflexivity).
  assert (Hwf' : wf (example_looped Con Dup)) by (apply wf_b_sound; vm_compute; reflexivity).
  assert (Hr' : redex (example_looped Con Dup) 0 1)
    by (apply is_valid_redex_spec; vm_compute; reflexivity).
  split.
  - assert (La : self_loop 0 (example_closed Con Dup).[0, 1] (example_closed Con Dup).[0, 2] = false)
      by (vm_compute; reflexivity).
    assert (Lb : self_loop 1 (example_closed Con Dup).[1, 1] (example_closed Con Dup).[1, 2] = false)
      by (vm_compute; reflexivity).
    destruct (interact_comm_wiring (example_closed Con Dup) 0 1 Hwf Hr) as (n' & H & Hw);
      [vm_compute; reflexivity|vm_compute; discriminate|].
    rewrite La, Lb in Hw. destruct Hw as (p & q & r & s & Hnd & _ & _ & _ & _ & Ht).
    exists n', p, q, r, s. split; [exact H|]. split; [exact Hnd|].
    split; (rewrite Ht; [vm_compute; reflexivity|vm_compute; by eexists|done..]).
  - assert (La : self_loop 0 (example_looped Con Dup).[0, 1] (example_looped Con Dup).[0, 2] = false)
      by (vm_compute; reflexivity).
    assert (Lb : self_loop 1 (example_looped Con Dup).[1, 1] (example_looped Con Dup).[1, 2] = true)
      by (vm_compute; reflexivity).
    destruct (interact_comm_wiring (example_looped Con Dup) 0 1 Hwf' Hr') as (n' & H & Hw);
      [vm_compute; reflexivity|vm_compute; discriminate|].
    rewrite La, Lb in Hw. destruct Hw as (p & q & Hnd & _ & _ & _ & _ & Ht).
    exists n', p, q. split; [exact H|]. split; [exact Hnd|].
    split; (rewrite Ht; [vm_compute; reflexivity|vm_compute; by eexists|done..]).
Defined.
