(* ===== verification/Weight.v ===== *)
(** Counting agents: a weighted sum over the arena, what each operation and
    each rule does to it, and termination of the nets that never commute. *)
From S2P Require Import Prelude NetTypes NetCore NetInv Reduction ReductionInv EngineInv.
Local Open Scope N_scope.
Open Scope net_scope.

Definition slot_weight (w : Symbol → nat) (slot : option Agent) : nat :=
  match slot with Some a => w (symbol a) | None => 0%nat end.

Fixpoint arena_weight (w : Symbol → nat) (l : list (option Agent)) : nat :=
  match l with
  | [] => 0
  | slot :: l => slot_weight w slot + arena_weight w l
  end.

Definition weight (w : Symbol → nat) (n : Net) : nat := arena_weight w (agents n).

Lemma arena_insert w l i x y :
  l !! i = Some x →
  (arena_weight w (<[i := y]> l) + slot_weight w x = arena_weight w l + slot_weight w y)%nat.
Proof.
  revert i. induction l as [|z l IH]; intros [|i]; cbn; try done.
  - intros [= ->]. lia.
  - intros H. pose proof (IH i H) as Hi. revert Hi.
    change (list_insert i y l) with (<[i := y]> l).  unfold insert in *. lia.
Qed.

Lemma arena_app w l k : arena_weight w (l ++ k) = (arena_weight w l + arena_weight w k)%nat.
Proof. induction l as [|x l IH]; cbn; lia. Qed.

Lemma arena_grow w k l : arena_weight w (vec_grow k None l) = arena_weight w l.
Proof.
  unfold vec_grow. case_decide; [|done]. rewrite resize_ge by lia. rewrite arena_app.
  assert (Hz : ∀ j, arena_weight w (replicate j None) = 0%nat) by (induction j; done).
  rewrite Hz. lia.
Qed.

(** With weight one, the weight is the number of live agents. *)
Lemma weight_count n : weight (λ _, 1%nat) n = count_live_agents n.
Proof.
  unfold weight, count_live_agents. induction (agents n) as [|[x|] l IH]; [done| |];
    cbn [arena_weight slot_weight]; rewrite IH.
  - by rewrite filter_cons_True by (by eexists).
  - rewrite filter_cons_False; [done|]. by intros [? ?].
Qed.

(** A symbol that weighs something is absent from a net of weight zero. *)
Lemma weight_zero w n id a :
  weight w n = 0%nat → get_agent n id = Some a → w (symbol a) = 0%nat.
Proof.
  unfold weight, get_agent. intros Hz Ha.
  destruct (agents n !! N.to_nat id) as [[x|]|] eqn:E; simplify_eq/=.
  pose proof (arena_insert w _ _ _ None E). simpl in *. lia.
Qed.

(** ** Operations *)

Lemma connect_weight w n a b : weight w (connect n a b) = weight w n.
Proof. unfold weight. by destruct (connect_frame n a b) as (_ & _ & _ & -> & _). Qed.

Lemma link_weight w n a b : weight w (link n a b) = weight w n.
Proof. unfold link. destruct (_ || _); [done|apply connect_weight]. Qed.

Lemma disconnect_all_agents l n id : agents (disconnect_all n id l) = agents n.
Proof.
  revert n. induction l as [|p l IH]; intros n; [done|].
  change (disconnect_all n id (p :: l)) with (disconnect_all (disconnect n (AgentPort id p)) id l).
  rewrite IH. by destruct (disconnect_frame n (AgentPort id p)) as (_ & _ & _ & -> & _).
Qed.

Lemma remove_agent_weight w n id a :
  get_agent n id = Some a → (weight w (remove_agent n id) + w (symbol a) = weight w n)%nat.
Proof.
  intros Ha. unfold weight, remove_agent. rewrite Ha.
  change (foldl _ n ?l) with (disconnect_all n id l).
  set (m := disconnect_all _ _ _). assert (Hm : agents m = agents n) by apply disconnect_all_agents.
  assert (He : agents n !! N.to_nat id = Some (Some a)).
  { unfold get_agent in Ha. by destruct (agents n !! N.to_nat id) as [[]|]; simplify_eq/=. }
  pose proof (arena_insert w _ _ _ None He) as Hi. simpl in Hi.
  destruct (is_border_protected _ id); cbn [agents with_free_list with_redirects with_arena];
    rewrite Hm; lia.
Qed.

Lemma create_agent_weight w n s n' id :
  wf n → create_agent n s = Done (n', id) → weight w n' = (weight w n + w s)%nat.
Proof.
  intros Hwf Hc. pose proof (create_agent_spec n s n' id Hwf Hc) as Hcr.
  assert (Hag : agents n' = <[N.to_nat id := Some (mkAgent s id)]> (vec_grow (N.to_nat id + 1)%nat None (agents n))).
  { revert Hc. unfold create_agent.
    assert (Hfresh : ∀ m, alloc_fresh m s = Done (n', id) → agents n' =
      <[N.to_nat id := Some (mkAgent s id)]> (vec_grow (N.to_nat id + 1)%nat None (agents m))).
    { intros m. unfold alloc_fresh. destruct (_ <? _); [|done]. by intros [= <- <-]. }
    set (rp := _ || _). destruct (rp && _); [apply Hfresh|].
    destruct (take_free_id n rp) as [m o] eqn:Ht.
    apply take_free_id_spec in Ht as [(l & -> & _) _].
    destruct o; [by intros [= <- <-]|apply (Hfresh (with_free_list l n))]. }
  unfold weight. rewrite Hag.
  assert (Hslot : vec_grow (N.to_nat id + 1)%nat None (agents n) !! N.to_nat id = Some None).
  { rewrite vec_grow_lookup. pose proof (cr_dead _ _ _ _ Hcr) as Hd. unfold get_agent in Hd.
    destruct (agents n !! N.to_nat id) as [[]|]; simplify_eq/=; [done|].
    rewrite decide_True by lia. done. }
  pose proof (arena_insert w _ _ _ (Some (mkAgent s id)) Hslot) as Hi.
  rewrite arena_grow in Hi. simpl in Hi. lia.
Qed.

(** ** Rules *)

Lemma pair_removed_weight w n a b x y :
  wf n → redex n a b → get_agent n a = Some x → get_agent n b = Some y →
  (weight w (remove_agent (remove_agent n a) b) + w (symbol x) + w (symbol y) = weight w n)%nat.
Proof.
  intros Hwf Hr Ha Hb. pose proof (redex_ne n a b Hwf Hr) as Hne.
  pose proof (remove_agent_weight w n a x Ha).
  assert (Hb' : get_agent (remove_agent n a) b = Some y).
  { rewrite (rm_agent _ _ _ (remove_agent_spec n a Hwf ltac:(by eexists))).
    by rewrite decide_False by done. }
  pose proof (remove_agent_weight w (remove_agent n a) b y Hb'). lia.
Qed.

Lemma interact_anni_weight w n a b n' :
  interact_anni n a b = Done n' → weight w n' = weight w (remove_agent (remove_agent n a) b).
Proof.
  unfold interact_anni. intros (s & _ & H)%outcome_bind_Done. revert H.
  destruct (self_loop a _ _), (self_loop b _ _); cbn [andb];
    [..|destruct s]; intros [= <-]; by rewrite ?link_weight.
Qed.

(** Erasure creates two erasers, or none when the erased agent loops. *)
Lemma interact_eras_weight w n a b n' :
  wf (remove_agent (remove_agent n a) b) → interact_eras n a b = Done n' →
  weight w n' = (weight w (remove_agent (remove_agent n a) b) +
    (if self_loop a n.[a, 1] n.[a, 2] then 0 else 2 * w Era))%nat.
Proof.
  unfold interact_eras. intros Hwf. destruct (self_loop a _ _).
  { intros [= <-]. lia. }
  intros ([n1 e1] & E1 & ([n2 e2] & E2 & [= <-])%outcome_bind_Done)%outcome_bind_Done.
  rewrite !link_weight.
  assert (Hwf1 : wf n1) by exact (cr_wf _ _ _ _ (create_agent_spec _ _ _ _ Hwf E1)).
  rewrite (create_agent_weight w n1 Era n2 e2 Hwf1 E2), (create_agent_weight w _ Era n1 e1 Hwf E1). lia.
Qed.

Lemma created_weight w n s n' id :
  wf n → create_agent n s = Done (n', id) → wf n' ∧ weight w n' = (weight w n + w s)%nat.
Proof.
  intros Hwf E. split; [exact (cr_wf _ _ _ _ (create_agent_spec _ _ _ _ Hwf E))|].
  by eapply create_agent_weight.
Qed.

(** Commutation creates two agents of each kind, less those a loop absorbs. *)
Definition comm_output (n : Net) (a b : AgentId) (w : Symbol → nat) : nat :=
  match self_loop a n.[a, 1] n.[a, 2], self_loop b n.[b, 1] n.[b, 2] with
  | true, true => 0
  | true, false => 2 * w Con
  | false, true => 2 * w Dup
  | false, false => 2 * w Con + 2 * w Dup
  end.

(** Runs the next creation of the goal's program and records its weight. *)
Ltac next_created w Hwf :=
  match goal with
  | |- context [create_agent ?m ?s] =>
      let E := fresh "E" in let Hw := fresh "Hw" in let W := fresh "W" in
      destruct (create_agent m s) as [[? ?]|] eqn:E; cbn [mbind outcome_bind]; [|discriminate];
      destruct (created_weight w _ _ _ _ Hwf E) as [Hw W]
  end.

Lemma interact_comm_weight w n a b n' :
  wf (remove_agent (remove_agent n a) b) → interact_comm n a b = Done n' →
  weight w n' = (weight w (remove_agent (remove_agent n a) b) + comm_output n a b w)%nat.
Proof.
  unfold interact_comm, comm_output. cbv zeta. generalize (remove_agent (remove_agent n a) b).
  intros m Hwf. destruct (self_loop a _ _), (self_loop b _ _); cbn [andb].
  - intros [= <-]. lia.
  - next_created w Hwf. next_created w Hw. intros <-%Done_inj.
    rewrite !link_weight, !connect_weight. lia.
  - next_created w Hwf. next_created w Hw. intros <-%Done_inj.
    rewrite !link_weight, !connect_weight. lia.
  - next_created w Hwf. next_created w Hw. next_created w Hw0. next_created w Hw1.
    intros <-%Done_inj. rewrite !connect_weight, !link_weight. lia.
Qed.

(** ** One interaction *)

(** What the rule creates, in weight, from the pair [a], [b] in dispatch order. *)
Definition rule_output (n : Net) (r : Rule) (a b : AgentId) (w : Symbol → nat) : nat :=
  match r with
  | Anni | Void => 0
  | Eras => if self_loop a n.[a, 1] n.[a, 2] then 0 else 2 * w Era
  | Comm => comm_output n a b w
  end.

Lemma rule_output_le n r a b w :
  (rule_output n r a b w ≤
    match r with Anni | Void => 0 | Eras => 2 * w Era | Comm => 2 * w Con + 2 * w Dup end)%nat.
Proof. unfold rule_output, comm_output. destruct r; repeat case_match; lia. Qed.

Lemma apply_rule_weight w n r a b x y n' :
  wf n → redex n a b → get_agent n a = Some x → get_agent n b = Some y →
  apply_rule n r a b = Done n' →
  (weight w n' + w (symbol x) + w (symbol y) = weight w n + rule_output n r a b w)%nat.
Proof.
  intros Hwf Hr Hx Hy Ha. pose proof (pair_removed_weight w n a b x y Hwf Hr Hx Hy).
  assert (Hwf' : wf (remove_agent (remove_agent n a) b)) by apply (pg_wf _ _ _ _ (pair_gone_spec n a b Hwf Hr)).
  destruct r; cbn [apply_rule rule_output] in *.
  - apply (interact_anni_weight w) in Ha. lia.
  - apply (interact_comm_weight w) in Ha; [lia|done].
  - apply (interact_eras_weight w) in Ha; [lia|done].
  - injection Ha as <-. unfold interact_void. lia.
Qed.
