(* ===== verification/RunInv.v ===== *)
(** Runs of the engine: reachability, what a step and a run of [reduce_n]
    preserve, and the measure that makes commutation-free nets terminate. *)
From S2P Require Import Prelude NetTypes NetCore NetInv Reduction ReductionInv EngineInv Weight.
Local Open Scope N_scope.
Open Scope net_scope.

(** ** Reachability *)

(** Nets reached by firing active pairs in any order, the queue being
    arbitrary: every interleaving the engine can choose while four ids are
    left for the agents a rule may create. *)
Inductive reach (n : Net) : Net → Prop :=
| reach_refl : reach n n
| reach_queue m q : reach n m → reach n (with_redex_queue q m)
| reach_fire m a b m' r :
    reach n m → redex m a b → next_id m + 4 ≤ u32_MAX → fire m a b = Done (m', r) → reach n m'.

#[export] Hint Constructors reach : net.

Lemma reach_trans n m p : reach n m → reach m p → reach n p.
Proof. intros Hm. induction 1; eauto with net. Qed.

Definition always_comm_safe (n : Net) : Prop := ∀ m, reach n m → comm_safe m.

Lemma always_comm_safe_reach n m : always_comm_safe n → reach n m → always_comm_safe m.
Proof. intros H Hm p Hp. apply H. by eapply reach_trans. Qed.

(** ** Inversion of the loops *)

Lemma with_queue_queue q q' n : with_redex_queue q (with_redex_queue q' n) = with_redex_queue q n.
Proof. done. Qed.

Lemma reduce_from_inv n q n' r :
  reduce_from n q = Done (n', r) →
  (r = NormalForm ∧ n' = with_redex_queue [] n) ∨
  (∃ a b q', redex n a b ∧ fire (with_redex_queue q' n) a b = Done (n', r)).
Proof.
  revert n. induction q as [|[a b] q IH]; intros n; cbn [reduce_from].
  { intros H%Done_inj. injection H as <- <-. by left. }
  destruct (is_valid_redex (with_redex_queue q n) a b) eqn:Hv.
  - intros Hf. right. exists a, b, q. split; [|done]. by apply is_valid_redex_spec, with_queue_redex in Hv.
  - intros [[-> ->]|(c & d & q' & Hr & Hf)]%IH; [by left|right].
    exists c, d, q'. split; [|done]. by apply with_queue_redex in Hr.
Qed.

Lemma fire_inv n a b n' r :
  wf n → redex n a b → fire n a b = Done (n', r) →
  ∃ a' b' x y, ((a', b') = (a, b) ∨ (a', b') = (b, a)) ∧
    redex n a' b' ∧ get_agent n a' = Some x ∧ get_agent n b' = Some y ∧
    r = Reduced (get_rule (symbol x) (symbol y)) (get_specific_rule (symbol x) (symbol y)) ∧
    apply_rule n (get_rule (symbol x) (symbol y)) a' b' = Done n'.
Proof.
  intros Hwf Hr. unfold fire.
  destruct (normalize_pair_spec n a b Hwf Hr) as (a' & b' & sa & sb & -> & Hab & Hr' & Hsa & Hsb & _).
  cbn [mbind outcome_bind]. rewrite Hsa, Hsb. cbn [mbind outcome_bind].
  apply symbol_at_Done in Hsa as (x & Hx & <-). apply symbol_at_Done in Hsb as (y & Hy & <-).
  destruct (apply_rule n _ a' b') as [m|] eqn:E; cbn [mbind outcome_bind]; [|discriminate].
  intros H%Done_inj. injection H as <- <-. exists a', b', x, y. by split_and!.
Qed.

Lemma reduce_step_reach n n' r :
  next_id n + 4 ≤ u32_MAX → reduce_step n = Done (n', r) → reach n n'.
Proof.
  intros Hroom [[-> ->]|(a & b & q & Hr & Hf)]%reduce_from_inv; eauto with net.
  eapply reach_fire; [apply reach_queue, reach_refl| |exact Hroom|exact Hf].
  by apply with_queue_redex.
Qed.

(** ** Bounded runs *)

Record run_ok (n n' : Net) : Prop := {
  ro_wf : wf n';
  ro_frame : same_frame n n';
  ro_queue : queue_complete n → queue_complete n';
}.

Lemma run_ok_trans n m p : run_ok n m → run_ok m p → run_ok n p.
Proof. intros [W1 F1 Q1] [W2 F2 Q2]. split; [done| |auto]. by etrans. Qed.

Lemma reduce_n_from_ok k n st :
  wf n → always_comm_safe n → next_id n + 4 * N.of_nat k ≤ u32_MAX →
  ∃ n' st', reduce_n_from n st k = Done (n', st') ∧ run_ok n n' ∧
    total_interactions st ≤ total_interactions st' ≤ total_interactions st + N.of_nat k ∧
    (total_interactions st' < total_interactions st + N.of_nat k → redex_queue n' = []).
Proof.
  revert n st. induction k as [|k IH]; intros n st Hwf Hcs Hroom.
  { exists n, st. split; [done|]. split; [split; [done|reflexivity|done]|]. lia. }
  destruct (reduce_step_ok n Hwf) as (m & r & Hstep & [W F N Q NF]); [by apply Hcs, reach_refl|lia|].
  cbn [reduce_n_from]. rewrite Hstep. cbn [mbind outcome_bind].
  destruct r as [rule sp|].
  - destruct (IH m (count_step st rule sp)) as (p & st' & Hr & Hok & Hle & Hend); [done| |lia|].
    { eapply always_comm_safe_reach; [done|]. by eapply reduce_step_reach; [lia|]. }
    cbn [count_step total_interactions] in *.
    exists p, st'. split; [done|]. split; [by eapply run_ok_trans; [split|]|].
    split; [lia|]. intros ?. apply Hend. lia.
  - exists m, st. split; [done|]. split; [by split|]. split; [lia|]. intros _. by apply NF.
Qed.

(** ** Nets that never commute *)

Definition is_sym (s s' : Symbol) : nat := if decide (s = s') then 1 else 0.

(** Commutation needs a constructor and a duplicator: a net without one of
    the two kinds never commutes. *)
Definition no_comm (n : Net) : Prop := weight (is_sym Con) n = 0%nat ∨ weight (is_sym Dup) n = 0%nat.

Lemma no_comm_rule n a b x y :
  no_comm n → get_agent n a = Some x → get_agent n b = Some y →
  get_rule (symbol x) (symbol y) ≠ Comm.
Proof.
  intros [H|H] Hx Hy; pose proof (weight_zero _ _ _ _ H Hx); pose proof (weight_zero _ _ _ _ H Hy);
    rewrite get_rule_spec; by destruct (symbol x), (symbol y).
Qed.

Lemma no_comm_safe n : no_comm n → comm_safe n.
Proof. intros H a b _ [_ (x & y & Hx & Hy & Hr)]. exact (no_comm_rule n a b x y H Hx Hy Hr). Qed.

(** A symbol that erasure does not create stays absent. *)
Lemma apply_rule_absent s n a b x y r n' :
  s ≠ Era → r ≠ Comm → wf n → redex n a b → get_agent n a = Some x → get_agent n b = Some y →
  apply_rule n r a b = Done n' → weight (is_sym s) n = 0%nat → weight (is_sym s) n' = 0%nat.
Proof.
  intros Hs Hr Hwf Hrd Hx Hy Ha Hz.
  pose proof (apply_rule_weight (is_sym s) n r a b x y n' Hwf Hrd Hx Hy Ha) as Hw.
  pose proof (rule_output_le n r a b (is_sym s)) as Hle.
  assert (He : is_sym s Era = 0%nat) by (unfold is_sym; by rewrite decide_False).
  rewrite He in Hle. destruct r; [lia|done|lia..].
Qed.

Definition measure (n : Net) : nat := weight (λ s, match s with Era => 1 | _ => 3 end)%nat n.

Lemma fire_no_comm n a b n' r :
  wf n → redex n a b → no_comm n → fire n a b = Done (n', r) →
  no_comm n' ∧ (measure n' + 2 ≤ measure n)%nat.
Proof.
  intros Hwf Hr Hnc Hf.
  destruct (fire_inv n a b n' r Hwf Hr Hf) as (a' & b' & x & y & _ & Hr' & Hx & Hy & _ & Ha).
  pose proof (no_comm_rule n a' b' x y Hnc Hx Hy) as Hrule. split.
  - destruct Hnc as [H|H]; [left|right]; by eapply (apply_rule_absent _ n a' b' x y).
  - unfold measure. set (w := λ s : Symbol, _).
    pose proof (apply_rule_weight w n _ a' b' x y n' Hwf Hr' Hx Hy Ha) as Hw.
    pose proof (rule_output_le n (get_rule (symbol x) (symbol y)) a' b' w) as Hle.
    rewrite get_rule_spec in *. unfold w in *. destruct (symbol x), (symbol y); try done; lia.
Qed.

Lemma no_comm_queue n q : no_comm (with_redex_queue q n) ↔ no_comm n.
Proof. done. Qed.

Lemma reach_no_comm n m : wf n → no_comm n → reach n m → wf m ∧ no_comm m.
Proof.
  intros Hwf Hnc. induction 1 as [|m q _ [IH1 IH2]|m a b m' r _ [IH1 IH2] Hr Hroom Hf]; [done| |].
  - split; [by apply with_queue_wf|done].
  - destruct (fire_stepped m a b IH1 Hr Hroom (no_comm_safe m IH2 a b Hr)) as (p & r' & s & Hf' & Hst).
    rewrite Hf in Hf'. apply Done_inj in Hf'. injection Hf' as <- _.
    split; [by destruct Hst|by eapply fire_no_comm].
Qed.

Lemma no_comm_always n : wf n → no_comm n → always_comm_safe n.
Proof. intros Hwf Hnc m Hm. apply no_comm_safe. by eapply reach_no_comm. Qed.

Lemma reduce_step_no_comm n n' rule sp :
  wf n → no_comm n → reduce_step n = Done (n', Reduced rule sp) →
  no_comm n' ∧ (measure n' + 2 ≤ measure n)%nat.
Proof.
  intros Hwf Hnc [[? _]|(a & b & q & Hr & Hf)]%reduce_from_inv; [done|].
  apply (fire_no_comm (with_redex_queue q n) a b) in Hf; [done|by apply with_queue_wf| |done].
  by apply with_queue_redex.
Qed.

(** Fuel above half the measure is enough, and ids grow by at most four per
    interaction. *)
Lemma reduce_all_from_no_comm fuel n st :
  wf n → no_comm n → (measure n < 2 * fuel)%nat →
  next_id n + 4 * N.of_nat fuel ≤ u32_MAX →
  ∃ n' st', reduce_all_from fuel n st = Some (Done (n', st')) ∧ run_ok n n' ∧
    redex_queue n' = [] ∧
    2 * total_interactions st' + N.of_nat (measure n') ≤
      2 * total_interactions st + N.of_nat (measure n).
Proof.
  revert n st. induction fuel as [|fuel IH]; intros n st Hwf Hnc Hfuel Hroom; [lia|].
  destruct (reduce_step_ok n Hwf) as (m & r & Hstep & [W F N Q NF]); [by apply no_comm_safe|lia|].
  cbn [reduce_all_from]. rewrite Hstep. destruct r as [rule sp|].
  - destruct (reduce_step_no_comm n m rule sp Hwf Hnc Hstep) as [Hnc' Hm].
    destruct (IH m (count_step st rule sp)) as (p & st' & Hr & Hok & Hend & Hle); [done..|lia|lia|].
    cbn [count_step total_interactions] in *.
    exists p, st'. split; [done|]. split; [by eapply run_ok_trans; [split|]|]. split; [done|]. lia.
  - destruct (NF eq_refl) as (Hq & Ha & _).
    exists m, st. split; [done|]. split; [by split|]. split; [done|].
    unfold measure, weight. rewrite Ha. lia.
Qed.

(** ** One border pass *)

(** Every active pair is in the list, in one order or the other. *)
Definition covered (n : Net) (l : list (AgentId * AgentId)) : Prop :=
  ∀ a b, redex n a b → (a, b) ∈ l ∨ (b, a) ∈ l.

Lemma reduce_step_singleton n a b :
  is_valid_redex n a b = true →
  reduce_step (with_redex_queue [(a, b)] n) = fire (with_redex_queue [] n) a b.
Proof.
  intros Hv. unfold reduce_step. cbn [reduce_from redex_queue with_redex_queue].
  change (is_valid_redex _ a b) with (is_valid_redex n a b). by rewrite Hv.
Qed.

Lemma covered_stale n a b l :
  wf n → is_valid_redex n a b = false → covered n ((a, b) :: l) → covered n l.
Proof.
  intros Hwf Hv Hc c d Hr. pose proof (redex_sym n c d Hwf Hr) as Hr'.
  apply is_valid_redex_spec in Hr as Hv1. apply is_valid_redex_spec in Hr' as Hv2.
  destruct (Hc c d Hr) as [H|H]; apply elem_of_cons in H as [[= -> ->]|?]; auto; congruence.
Qed.

Lemma border_pass_ok initial deferred n st :
  wf n → always_comm_safe n → next_id n + 4 * N.of_nat (length initial) ≤ u32_MAX →
  ∃ n' st', border_pass initial deferred n st = Done (n', st') ∧ wf n' ∧ same_frame n n' ∧
    (covered n (initial ++ deferred ++ redex_queue n) → queue_complete n') ∧
    total_interactions st ≤ total_interactions st' ≤
      total_interactions st + N.of_nat (length initial).
Proof.
  revert deferred n st. induction initial as [|[a b] initial IH]; intros deferred n st Hwf Hcs Hroom.
  { eexists _, _. split; [reflexivity|]. split; [by apply with_queue_wf|]. split; [done|].
    split; [|simpl; lia]. intros Hc a b Hr%with_queue_redex. exact (Hc a b Hr). }
  cbn [border_pass]. simpl length in *. destruct (is_valid_redex n a b) eqn:Hv.
  - rewrite reduce_step_singleton by done.
    pose proof (proj1 (is_valid_redex_spec n a b) Hv) as Hr.
    assert (Hrm : redex (with_redex_queue [] n) a b) by (by apply with_queue_redex).
    destruct (fire_stepped (with_redex_queue [] n) a b) as (m & r & s & Hf & [W F N _ (q & Hq & Hnew)]);
      [by apply with_queue_wf|done|cbn [next_id with_redex_queue]; lia| |].
    { apply comm_safe_queue; [|done]. apply Hcs, reach_refl. }
    rewrite Hf. cbn [mbind outcome_bind]. cbn [next_id with_redex_queue] in N.
    destruct (IH (deferred ++ redex_queue n) m (count_step st r s)) as (n' & st' & H & W' & F' & Q' & T');
      [done| |lia|].
    { eapply always_comm_safe_reach; [exact Hcs|].
      eapply reach_fire; [apply reach_queue, reach_refl|done| |exact Hf].
      cbn [next_id with_redex_queue]. lia. }
    cbn [count_step total_interactions] in T'.
    exists n', st'. split; [done|]. split; [done|]. split; [by etrans|]. split; [|lia].
    intros Hc. apply Q'. intros c d Hcd. rewrite Hq. cbn [redex_queue with_redex_queue app].
    destruct (Hnew c d Hcd) as [?|[?|(Hr' & Hn1 & Hn2)]]; [set_solver|set_solver|].
    apply with_queue_redex in Hr'. destruct (Hc c d Hr') as [H'|H']; set_solver.
  - destruct (IH deferred n st) as (n' & st' & H & W' & F' & Q' & T'); [done..|lia|].
    exists n', st'. split_and!; try done; [|lia|lia].
    intros Hc. apply Q'. by eapply covered_stale.
Qed.
