(* ===== verification/ReductionSpec.v ===== *)
(** What the reduction engine guarantees: steps, runs, termination, normal
    forms, statistics, and the one shape of active pair the rules do not
    handle. *)
From S2P Require Import Prelude NetTypes NetCore NetInv Reduction ReductionInv EngineInv Weight.
From S2P Require Import RunInv NetDebug Wiring.
Local Open Scope N_scope.
Open Scope net_scope.

Lemma example_wf s t : wf (example_closed s t).
Proof. apply wf_b_sound. by destruct s, t; vm_compute. Qed.

Lemma example_queue s t : queue_complete (example_closed s t).
Proof. apply queue_complete_b_sound. by destruct s, t; vm_compute. Qed.

Lemma example_comm_safe s t : comm_safe (example_closed s t).
Proof. apply comm_safe_b_sound. by destruct s, t; vm_compute. Qed.

(** ** Steps *)

(** C1. [reduce_step] on a well-formed net with room for four more ids and no
    constructor-duplicator pair that shares an auxiliary wire returns without
    a panic; the new net is well formed (bidirectional wires, valid
    references, clean dead slots, sound free list), keeps the fields
    reduction must not touch, allocates at most four ids, and keeps every
    active pair queued. *)
Theorem reduce_step_sound n :
  wf n → comm_safe n → next_id n + 4 ≤ u32_MAX →
  ∃ n' r, reduce_step n = Done (n', r) ∧ wf n' ∧ same_frame n n' ∧
    next_id n ≤ next_id n' ≤ next_id n + 4 ∧ (queue_complete n → queue_complete n').
Proof.
  intros Hwf Hcs Hroom. destruct (reduce_step_ok n Hwf Hcs Hroom) as (n' & r & H & [W F N Q _]).
  by exists n', r.
Qed.

Lemma reduce_step_sound_witness :
  ∃ n' r, reduce_step (example_closed Con Dup) = Done (n', r) ∧ wf n' ∧ queue_complete n'.
Proof.
  destruct (reduce_step_sound (example_closed Con Dup) (example_wf _ _) (example_comm_safe _ _))
    as (n' & r & H & W & _ & _ & Q); [vm_compute; discriminate|].
  exists n', r. split; [exact H|]. split; [exact W|]. apply Q, example_queue.
Defined.

Lemma fire_not_normal n a b n' : fire n a b ≠ Done (n', NormalForm).
Proof.
  unfold fire. destruct (normalize_pair a b n) as [[a' b']|]; cbn [mbind outcome_bind]; [|discriminate].
  destruct (symbol_at n a'); cbn [mbind outcome_bind]; [|discriminate].
  destruct (symbol_at n b'); cbn [mbind outcome_bind]; [|discriminate].
  destruct (apply_rule _ _ _ _); cbn [mbind outcome_bind]; [|discriminate].
  intros H%Done_inj. discriminate.
Qed.

(** Entries are examined in queue order; stale ones are dropped. *)
Lemma reduce_from_fifo n q stale a b rest :
  q = stale ++ (a, b) :: rest →
  Forall (λ p, is_valid_redex n p.1 p.2 = false) stale → is_valid_redex n a b = true →
  reduce_from n q = fire (with_redex_queue rest n) a b.
Proof.
  intros -> Hst Hv. revert n Hst Hv. induction stale as [|[c d] stale IH]; intros n Hst Hv;
    cbn [app reduce_from].
  - change (is_valid_redex (with_redex_queue rest n) a b) with (is_valid_redex n a b). by rewrite Hv.
  - apply Forall_cons in Hst as [Hcd Hst]. simpl in Hcd.
    change (is_valid_redex (with_redex_queue _ n) c d) with (is_valid_redex n c d). rewrite Hcd.
    by rewrite IH.
Qed.

(** [reduce_step] is first-in first-out: it discards the stale entries at
    the front of the queue and fires exactly the first valid pair, leaving the
    entries behind it queued. *)
Theorem reduce_step_fifo n stale a b rest :
  redex_queue n = stale ++ (a, b) :: rest →
  Forall (λ p, is_valid_redex n p.1 p.2 = false) stale → is_valid_redex n a b = true →
  reduce_step n = fire (with_redex_queue rest n) a b.
Proof. apply reduce_from_fifo. Qed.

Lemma reduce_step_fifo_witness :
  let n := with_redex_queue [(3, 4); (7, 9); (0, 1); (0, 1)] (example_closed Con Con) in
  reduce_step n = fire (with_redex_queue [(0, 1)] n) 0 1.
Proof.
  apply (reduce_step_fifo _ [(3, 4); (7, 9)]); [reflexivity| |vm_compute; reflexivity].
  apply Forall_cons_2; [vm_compute; reflexivity|].
  apply Forall_cons_2; [vm_compute; reflexivity|apply Forall_nil_2].
Defined.

Lemma reduce_from_stale n q :
  Forall (λ p, is_valid_redex n p.1 p.2 = false) q →
  reduce_from n q = Done (with_redex_queue [] n, NormalForm).
Proof.
  revert n. induction q as [|[a b] q IH]; intros n Hq; [done|].
  apply Forall_cons in Hq as [Hab Hq]. simpl in Hab. cbn [reduce_from].
  change (is_valid_redex (with_redex_queue q n) a b) with (is_valid_redex n a b). rewrite Hab.
  by rewrite IH.
Qed.

(** Normal form is exactly the absence of active pairs: on a well-formed
    net whose active pairs are all queued, [reduce_step] answers [NormalForm]
    (and then only empties the queue) if and only if no two live agents face
    each other through their principal ports. *)
Theorem reduce_step_normal_form n :
  wf n → queue_complete n →
  reduce_step n = Done (with_redex_queue [] n, NormalForm) ↔ ∀ a b, ¬ redex n a b.
Proof.
  intros Hwf Hqc. split.
  - intros H a b Hr.
    assert (Hall : ∀ q m, agents m = agents n → ports m = ports n →
      ((a, b) ∈ q ∨ (b, a) ∈ q) → ∀ n', reduce_from m q ≠ Done (n', NormalForm)).
    { assert (Hv : ∀ m c d, agents m = agents n → ports m = ports n →
        is_valid_redex m c d = is_valid_redex n c d).
      { intros m c d Ha Hp. unfold is_valid_redex, get_agent, get_target. by rewrite Ha, Hp. }
      induction q as [|[c d] q IH]; intros m Ha Hp Hin n'.
      - destruct Hin as [Hin|Hin]; by apply elem_of_nil in Hin.
      - cbn [reduce_from]. rewrite (Hv (with_redex_queue q m)) by done.
        destruct (is_valid_redex n c d) eqn:E; [apply fire_not_normal|].
        apply IH; [done|done|].
        pose proof (proj2 (is_valid_redex_spec _ _ _) Hr).
        pose proof (proj2 (is_valid_redex_spec _ _ _) (redex_sym _ _ _ Hwf Hr)).
        rewrite !elem_of_cons in Hin. destruct Hin as [[[= -> ->]|?]|[[= -> ->]|?]]; auto; congruence. }
    by apply (Hall (redex_queue n) n eq_refl eq_refl (Hqc a b Hr) _ H).
  - intros Hno. apply reduce_from_stale, Forall_forall. intros [a b] _.
    apply not_true_is_false. intros Hv. by apply (Hno a b), is_valid_redex_spec.
Qed.

Lemma reduce_step_normal_form_witness :
  ∃ n' r, reduce_step (example_closed Era Era) = Done (n', r) ∧
    (reduce_step n' = Done (with_redex_queue [] n', NormalForm) ↔ ∀ a b, ¬ redex n' a b) ∧
    reduce_step n' = Done (with_redex_queue [] n', NormalForm).
Proof.
  eexists _, _. split; [vm_compute; reflexivity|]. split; [|vm_compute; reflexivity].
  apply reduce_step_normal_form; [apply wf_b_sound|apply queue_complete_b_sound];
    vm_compute; reflexivity.
Defined.

(** ** Runs *)

(** C6. A bounded run keeps everything a step keeps: if no reachable net has a
    constructor-duplicator pair sharing an auxiliary wire and the id space has
    room for four ids per interaction, [reduce_n] with budget [k] returns a
    well-formed net with every active pair queued, performs at most [k]
    interactions, and stops early only in normal form. *)
Theorem reduce_n_sound n k :
  wf n → queue_complete n → always_comm_safe n → next_id n + 4 * N.of_nat k ≤ u32_MAX →
  ∃ n' st, reduce_n n k = Done (n', st) ∧ wf n' ∧ same_frame n n' ∧ queue_complete n' ∧
    total_interactions st ≤ N.of_nat k ∧
    (total_interactions st < N.of_nat k → ∀ a b, ¬ redex n' a b).
Proof.
  intros Hwf Hqc Hcs Hroom.
  destruct (reduce_n_from_ok k n stats_zero Hwf Hcs Hroom) as (n' & st & H & [W F Q] & Hle & Hend).
  exists n', st. cbn [stats_zero total_interactions] in *. split_and!; try done; [by apply Q|lia|].
  intros Hlt. apply empty_queue_normal; [by apply Q|]. apply Hend. lia.
Qed.

Lemma example_no_comm s : no_comm (example_closed s s).
Proof. destruct s; [right|left|left]; vm_compute; reflexivity. Qed.

Lemma reduce_n_sound_witness :
  ∃ n' st, reduce_n (example_closed Con Con) 7 = Done (n', st) ∧ wf n' ∧
    ∀ a b, ¬ redex n' a b.
Proof.
  destruct (reduce_n_sound (example_closed Con Con) 7 (example_wf _ _) (example_queue _ _)
    (no_comm_always _ (example_wf _ _) (example_no_comm Con)))
    as (n' & st & H & W & _ & _ & _ & Hend); [vm_compute; discriminate|].
  assert (Hst : total_interactions st < 7).
  { assert (Hd : match reduce_n (example_closed Con Con) 7 with
                 | Done (_, st) => total_interactions st <? 7 | Panic => false end = true)
      by (vm_compute; reflexivity).
    rewrite H in Hd. by apply N.ltb_lt. }
  exists n', st. split; [exact H|]. split; [exact W|]. exact (Hend Hst).
Defined.

(** C5. Termination without commutation: a well-formed net that has each of its
    active pairs in the queue and lacks constructors or lacks duplicators (so
    that commutation never fires) is brought by [reduce_all] to a
    well-formed normal form.  Half the measure (three per constructor or
    duplicator, one per eraser) bounds the number of interactions, and any
    fuel above half the measure is enough, as long as the net has four
    unused ids left for each unit of it (the id counter plus four times the
    fuel is at most [u32::MAX]). *)
Theorem reduce_all_terminates n fuel :
  wf n → queue_complete n → no_comm n → (measure n < 2 * fuel)%nat →
  next_id n + 4 * N.of_nat fuel ≤ u32_MAX →
  ∃ n' st, reduce_all fuel n = Some (Done (n', st)) ∧ wf n' ∧ (∀ a b, ¬ redex n' a b) ∧
    2 * total_interactions st + N.of_nat (measure n') ≤ N.of_nat (measure n).
Proof.
  intros Hwf Hqc Hnc Hfuel Hroom.
  destruct (reduce_all_from_no_comm fuel n stats_zero Hwf Hnc Hfuel Hroom)
    as (n' & st & H & [W F Q] & Hend & Hle).
  exists n', st. cbn [stats_zero total_interactions] in Hle. split_and!; try done.
  apply empty_queue_normal; auto.
Qed.

Lemma reduce_all_terminates_witness :
  ∃ n' st, reduce_all 6 (example_closed Dup Dup) = Some (Done (n', st)) ∧
    ∀ a b, ¬ redex n' a b.
Proof.
  destruct (reduce_all_terminates (example_closed Dup Dup) 6 (example_wf _ _) (example_queue _ _)
    (example_no_comm Dup)) as (n' & st & H & _ & Hno & _);
    [apply Nat.ltb_lt; vm_compute; reflexivity|vm_compute; discriminate|].
  exists n', st. split; [exact H|exact Hno].
Defined.

(** One border pass: [reduce_border_once] fires only pairs queued when it
    starts (so it performs at most that many interactions), defers the pairs
    these create, and returns a well-formed net in which every active pair is
    queued. *)
Theorem reduce_border_once_sound n :
  wf n → queue_complete n → always_comm_safe n →
  next_id n + 4 * N.of_nat (length (redex_queue n)) ≤ u32_MAX →
  ∃ n' st, reduce_border_once n = Done (n', st) ∧ wf n' ∧ same_frame n n' ∧ queue_complete n' ∧
    total_interactions st ≤ N.of_nat (length (redex_queue n)).
Proof.
  intros Hwf Hqc Hcs Hroom. unfold reduce_border_once.
  destruct (border_pass_ok (redex_queue n) [] (with_redex_queue [] n) stats_zero)
    as (n' & st & H & W & F & Q & T);
    [by apply with_queue_wf| |done|].
  { eapply always_comm_safe_reach; [exact Hcs|]. apply reach_queue, reach_refl. }
  exists n', st. cbn [stats_zero total_interactions] in T. split_and!; try done; [|lia].
  apply Q. intros a b Hr%with_queue_redex. cbn [redex_queue with_redex_queue app].
  rewrite app_nil_r. exact (Hqc a b Hr).
Qed.

Lemma reduce_border_once_sound_witness :
  ∃ n' st, reduce_border_once (example_closed Con Con) = Done (n', st) ∧ wf n' ∧ queue_complete n' ∧
    total_interactions st ≤ 1.
Proof.
  destruct (reduce_border_once_sound (example_closed Con Con) (example_wf _ _) (example_queue _ _)
    (no_comm_always _ (example_wf _ _) (example_no_comm Con)))
    as (n' & st & H & W & _ & Q & T); [vm_compute; discriminate|].
  exists n', st. split; [exact H|]. split; [exact W|]. split; [exact Q|].
  etrans; [exact T|]. vm_compute. discriminate.
Defined.

(** ** Statistics *)

(** The per-rule and per-category counters describe the same run. *)
Definition stats_ok (st : ReductionStats) : Prop :=
  ∃ c0 c1 c2 c3 c4 c5,
    interactions_by_rule st = [c0; c1; c2; c3; c4; c5] ∧
    anni_count st = c0 + c3 ∧ comm_count st = c1 ∧ eras_count st = c2 + c4 ∧ void_count st = c5 ∧
    total_interactions st = c0 + c1 + c2 + c3 + c4 + c5.

Lemma count_step_ok st x y :
  stats_ok st → stats_ok (count_step st (get_rule x y) (get_specific_rule x y)).
Proof.
  intros (c0 & c1 & c2 & c3 & c4 & c5 & Hl & Ha & Hc & He & Hv & Ht).
  destruct st as [t a c e v l]. simpl in *. subst.
  destruct x, y;
    (lazymatch goal with
     | |- stats_ok (count_step _ ?r ?s) =>
         let r' := eval vm_compute in r in let s' := eval vm_compute in s in
         change r with r'; change s with s'
     end);
    unfold stats_ok, count_step;
    cbn [anni_count comm_count eras_count void_count total_interactions interactions_by_rule
         specific_index alter list_alter];
    do 6 eexists; (split; [reflexivity|]); lia.
Qed.

Lemma fire_rules n a b n' r s :
  fire n a b = Done (n', Reduced r s) → ∃ x y, r = get_rule x y ∧ s = get_specific_rule x y.
Proof.
  unfold fire. destruct (normalize_pair a b n) as [[a' b']|]; cbn [mbind outcome_bind]; [|discriminate].
  destruct (symbol_at n a') as [x|]; cbn [mbind outcome_bind]; [|discriminate].
  destruct (symbol_at n b') as [y|]; cbn [mbind outcome_bind]; [|discriminate].
  destruct (apply_rule _ _ _ _); cbn [mbind outcome_bind]; [|discriminate].
  intros H%Done_inj. injection H as _ <- <-. eauto.
Qed.

Lemma reduce_step_rules n n' r s :
  reduce_step n = Done (n', Reduced r s) → ∃ x y, r = get_rule x y ∧ s = get_specific_rule x y.
Proof. intros [[? _]|(a & b & q & _ & Hf)]%reduce_from_inv; [done|]. by eapply fire_rules. Qed.

Lemma reduce_n_from_stats k n st n' st' :
  stats_ok st → reduce_n_from n st k = Done (n', st') → stats_ok st'.
Proof.
  revert n st. induction k as [|k IH]; intros n st Hst; cbn [reduce_n_from].
  { intros H%Done_inj. by injection H as <- <-. }
  destruct (reduce_step n) as [[m [r s|]]|] eqn:E; cbn [mbind outcome_bind]; [| |discriminate].
  - apply IH. destruct (reduce_step_rules _ _ _ _ E) as (x & y & -> & ->). by apply count_step_ok.
  - intros H%Done_inj. by injection H as <- <-.
Qed.

(** The statistics of a run are consistent whatever the net: the six
    per-rule counters add up to the total, and the four category counters are
    the sums of their rules (annihilations are CON-CON plus DUP-DUP, and so
    on). *)
Theorem reduce_n_stats n k n' st : reduce_n n k = Done (n', st) → stats_ok st.
Proof. apply reduce_n_from_stats. by exists 0, 0, 0, 0, 0, 0. Qed.

Lemma reduce_n_stats_witness :
  ∃ n' st, reduce_n (example_closed Con Dup) 3 = Done (n', st) ∧ stats_ok st.
Proof.
  assert (H : is_Some (match reduce_n (example_closed Con Dup) 3 with Done p => Some p | Panic => None end))
    by (vm_compute; by eexists).
  destruct (reduce_n (example_closed Con Dup) 3) as [[n' st]|] eqn:E; [|by destruct H].
  exists n', st. split; [reflexivity|]. exact (reduce_n_stats _ _ _ _ E).
Defined.

(** ** Agents *)

(** Agents are accounted for exactly: an interaction consumes two agents
    and creates none (annihilation, void), two (erasure, none if the erased
    agent loops on itself), or four (commutation, less two for each agent
    that loops on itself). *)
Theorem fire_agent_balance n a b n' r s :
  wf n → redex n a b → fire n a b = Done (n', Reduced r s) →
  ∃ a' b', ((a', b') = (a, b) ∨ (a', b') = (b, a)) ∧
    (count_live_agents n' + 2 = count_live_agents n + rule_output n r a' b' (λ _, 1))%nat.
Proof.
  intros Hwf Hr Hf.
  destruct (fire_inv n a b n' _ Hwf Hr Hf) as (a' & b' & x & y & Hab & Hr' & Hx & Hy & [= -> _] & Ha).
  exists a', b'. split; [done|].
  pose proof (apply_rule_weight (λ _, 1%nat) n _ a' b' x y n' Hwf Hr' Hx Hy Ha) as H.
  rewrite !weight_count in H. lia.
Qed.

Lemma fire_agent_balance_witness :
  ∃ n' r s, fire (example_closed Con Dup) 0 1 = Done (n', Reduced r s) ∧
    (count_live_agents n' = count_live_agents (example_closed Con Dup) + 2)%nat.
Proof.
  destruct (fire (example_closed Con Dup) 0 1) as [[n' [r s|]]|] eqn:E;
    [|by apply fire_not_normal in E|vm_compute in E; discriminate].
  exists n', r, s. split; [reflexivity|].
  destruct (fire_agent_balance (example_closed Con Dup) 0 1 n' r s (example_wf _ _)
    ltac:(apply is_valid_redex_spec; vm_compute; reflexivity) E) as (a' & b' & Hab & Hn).
  assert (r = Comm) as -> by (vm_compute in E; by injection E).
  assert (Ho : rule_output (example_closed Con Dup) Comm a' b' (λ _, 1%nat) = 4%nat).
  { destruct Hab as [[= -> ->]|[= -> ->]]; vm_compute; reflexivity. }
  rewrite Ho in Hn. lia.
Defined.

(** ** Active pairs that share an auxiliary wire *)

(** Agents 0 and 1 on a redex with port [p] of one wired to port [q] of the
    other, and an eraser on the remaining auxiliary port of each. *)
Definition shared_pair (s t : Symbol) (p q : PortId) : Net :=
  match '(n, _) ← create_agent new s; '(n, _) ← create_agent n t;
        '(n, _) ← create_agent n Era; '(n, _) ← create_agent n Era; mret n with
  | Done n =>
      let n := connect n (AgentPort 0 0) (AgentPort 1 0) in
      let n := connect n (AgentPort 0 p) (AgentPort 1 q) in
      let n := connect n (AgentPort 2 0) (AgentPort 0 (3 - p)) in
      connect n (AgentPort 3 0) (AgentPort 1 (3 - q))
  | Panic => new
  end.

(** The hypothesis on commuting pairs is needed: on a well-formed net that
    passes every debug assertion, whose only active pair is a constructor and
    a duplicator sharing an auxiliary wire, [reduce_step] returns normally a
    net that violates bidirectionality: the ids recycled for the new agents
    make the targets read before the removal look live again. *)
Theorem entangled_commutation_corrupts :
  let n := shared_pair Con Dup 1 1 in
  wf n ∧ queue_complete n ∧ assert_all_invariants n = true ∧ comm_entangled n 0 1 ∧
  ∃ n' r, reduce_step n = Done (n', r) ∧ ¬ wf n' ∧ assert_adjacency_consistent n' = false ∧
    n'.[4, 0] = AgentPort 0 1 ∧ n'.[0, 1] = AgentPort 4 2.
Proof.
  assert (Hwf : wf (shared_pair Con Dup 1 1)) by (apply wf_b_sound; vm_compute; reflexivity).
  split; [done|]. split; [apply queue_complete_b_sound; vm_compute; reflexivity|].
  split; [vm_compute; reflexivity|]. split.
  { split; [vm_compute; reflexivity|]. exists (mkAgent Con 0), (mkAgent Dup 1). split_and!; vm_compute; reflexivity. }
  destruct (reduce_step (shared_pair Con Dup 1 1)) as [[n' r]|] eqn:E; [|vm_compute in E; discriminate].
  exists n', r. split; [done|].
  assert (H5 : n'.[4, 0] = AgentPort 0 1) by (vm_compute in E; injection E as <- _; vm_compute; reflexivity).
  assert (H0 : n'.[0, 1] = AgentPort 4 2) by (vm_compute in E; injection E as <- _; vm_compute; reflexivity).
  split_and!; [|vm_compute in E; injection E as <- _; vm_compute; reflexivity|done|done].
  intros Hwf'. destruct (wf_sym n' Hwf' 4 0 0 1 ltac:(lia) H5) as (_ & H & _). congruence.
Qed.

(** Annihilation loses a wire when two constructors share the wire of
    their first auxiliary ports: the step returns a well-formed net, but the
    two outside ports that should now face each other (the new active pair
    of the two erasers) are left disconnected, so the linearity assertion
    that held before the step fails after it. *)
Theorem twisted_annihilation_disconnects :
  let n := shared_pair Con Con 1 1 in
  wf n ∧ queue_complete n ∧ assert_all_invariants n = true ∧
  ∃ n' r, reduce_step n = Done (n', r) ∧ wf n' ∧ assert_adjacency_consistent n' = false ∧
    live n' 2 ∧ live n' 3 ∧ n'.[2, 0] = DISCONNECTED ∧ n'.[3, 0] = DISCONNECTED.
Proof.
  split; [apply wf_b_sound; vm_compute; reflexivity|].
  split; [apply queue_complete_b_sound; vm_compute; reflexivity|].
  split; [vm_compute; reflexivity|].
  destruct (reduce_step (shared_pair Con Con 1 1)) as [[n' r]|] eqn:E; vm_compute in E; [|discriminate].
  injection E as <- <-. eexists _, _. split; [reflexivity|].
  split_and!; [apply wf_b_sound|..]; try (vm_compute; reflexivity); vm_compute; by eexists.
Qed.
