(* ===== verification/NetSpec.v ===== *)
(** What the operations of the dense net guarantee: creation and recycling,
    removal, free-list validation, union, and the debug assertions a release
    build leaves out. *)
From S2P Require Import Prelude NetTypes NetCore NetInv Reduction ReductionInv EngineInv NetDebug Wiring.
Local Open Scope N_scope.
Open Scope net_scope.

(** ** Creation and recycling *)

(** Two agents wired through a free border, then the first one removed. *)
Definition example_recycled : Net :=
  match '(n, a) ← create_agent new Con; '(n, b) ← create_agent n Dup; mret (n, a, b) with
  | Done (n, a, b) => remove_agent (connect n (AgentPort a 1) (AgentPort b 1)) a
  | Panic => new
  end.

(** [create_agent] on a well-formed net returns an id no live agent has:
    a recycled one or [next_id]; the net stays well formed, gains exactly
    that unwired agent, keeps every other agent, wire, queue entry and
    redirect, and recycles no id twice. *)
Theorem create_agent_sound n s n' id :
  wf n → create_agent n s = Done (n', id) →
  wf n' ∧ get_agent n id = None ∧ (id ∈ free_list n ∨ id = next_id n) ∧ id ∉ free_list n' ∧
  (∀ x, get_agent n' x = if decide (x = id) then Some (mkAgent s id) else get_agent n x) ∧
  (∀ b q, q < 3 → n'.[b, q] = n.[b, q]) ∧ (∀ q, q < 3 → n'.[id, q] = DISCONNECTED) ∧
  redex_queue n' = redex_queue n ∧ freeport_redirects n' = freeport_redirects n.
Proof.
  intros Hwf Hc. destruct (create_agent_spec n s n' id Hwf Hc) as [W D O A T F N Q R L].
  split_and!; try done.
  - intros Hin. destruct (wf_free_dead n' W id Hin) as [Hd _]. by rewrite A, decide_True in Hd.
  - intros q Hq. rewrite T by done. by apply dead_disconnected.
Qed.

Lemma create_agent_sound_witness :
  ∃ n', create_agent example_recycled Era = Done (n', 0) ∧ wf n' ∧ 0 ∉ free_list n'.
Proof.
  destruct (create_agent example_recycled Era) as [[n' id]|] eqn:E; [|vm_compute in E; discriminate].
  assert (Hwf : wf example_recycled) by (apply wf_b_sound; vm_compute; reflexivity).
  destruct (create_agent_sound _ _ _ _ Hwf E) as (W & _ & _ & Hni & _).
  assert (id = 0) as -> by (vm_compute in E; by injection E).
  exists n'. split; [reflexivity|]. split; [exact W|exact Hni].
Defined.

(** [create_agent] panics only when the id space is exhausted: with
    [next_id] below the [u32] maximum it always returns, and with an empty
    free list it returns exactly then. *)
Theorem create_agent_returns n s :
  (next_id n < u32_MAX → create_agent n s ≠ Panic) ∧
  (free_list n = [] → create_agent n s = Panic ↔ u32_MAX ≤ next_id n).
Proof.
  assert (Ht : next_id n < u32_MAX → create_agent n s ≠ Panic).
  { intros H. destruct (create_agent_total n s H) as (n' & id & E). by rewrite E. }
  split; [done|]. intros Hf. split.
  - intros Hp. destruct (N.lt_ge_cases (next_id n) u32_MAX) as [H|H]; [by apply Ht in H|done].
  - intros Hm. unfold create_agent, take_free_id. rewrite Hf. cbn [vec_pop rev].
    assert (Ha : alloc_fresh n s = Panic).
    { unfold alloc_fresh. destruct (N.ltb_spec (next_id n) u32_MAX); [lia|done]. }
    by destruct (_ && _).
Qed.

Lemma create_agent_returns_witness :
  create_agent example_recycled Con ≠ Panic ∧
  create_agent (with_next_id u32_MAX new) Con = Panic.
Proof.
  split.
  - apply (proj1 (create_agent_returns example_recycled Con)). vm_compute. reflexivity.
  - apply (proj2 (create_agent_returns (with_next_id u32_MAX new) Con)); [reflexivity|].
    vm_compute. discriminate.
Defined.

(** Recycling during a delta round (or while streaming) never hands out a
    border id: under Strategy A ([DisableUnderDelta]) nothing is recycled at
    all and the free list is untouched; under Strategy B ([BorderClean]) an id
    the border shadow protects is returned only as the fresh [next_id]. *)
Theorem create_agent_delta_round n s n' id :
  is_in_delta_round n || streaming_active n = true → create_agent n s = Done (n', id) →
  match recycle_policy n with
  | DisableUnderDelta => id = next_id n ∧ free_list n' = free_list n ∧ next_id n' = next_id n + 1
  | BorderClean => is_border_protected n id = true → id = next_id n ∧ free_list n' ≡ₚ free_list n
  end.
Proof.
  intros Hb. unfold create_agent. rewrite Hb. cbn [andb].
  destruct (recycle_policy n) eqn:Hp.
  - rewrite bool_decide_true by done. unfold alloc_fresh.
    destruct (next_id n <? u32_MAX); [|discriminate]. intros H%Done_inj. by injection H as <- <-.
  - rewrite bool_decide_false by done.
    destruct (take_free_id n true) as [m o] eqn:Ht.
    apply take_free_id_spec in Ht as [(l & -> & Hl) Hprot]. destruct o as [i|].
    + intros H%Done_inj. injection H as <- <-. by rewrite (Hprot i).
    + unfold alloc_fresh. cbn [next_id with_free_list].
      destruct (next_id n <? u32_MAX); [|discriminate]. intros H%Done_inj. injection H as <- <-.
      intros _. split; [done|]. cbn [free_list with_arena with_next_id with_free_list]. by rewrite <- Hl.
Qed.

Lemma create_agent_delta_round_witness :
  let n := with_shadow (Some {[0; 2; 7]}) (with_free_list [7; 0]
             (with_recycle_policy BorderClean (with_delta_round true example_recycled))) in
  ∃ n', create_agent n Con = Done (n', 2) ∧ free_list n' ≡ₚ [7; 0].
Proof.
  intros n. destruct (create_agent n Con) as [[n' id]|] eqn:E; [|vm_compute in E; discriminate].
  assert (id = 2) as -> by (vm_compute in E; by injection E).
  exists n'. split; [reflexivity|].
  assert (Hd : is_in_delta_round n || streaming_active n = true) by (vm_compute; reflexivity).
  apply (create_agent_delta_round n Con n' 2 Hd E). vm_compute. reflexivity.
Defined.

(** ** Removal and wiring *)

(** [remove_agent] on a live agent of a well-formed net clears its slot
    and both ends of each of its wires, changes no other agent or wire, leaves
    the queue alone, and makes the id recyclable unless the border shadow
    protects it; on a dead id it does nothing. *)
Theorem remove_agent_sound n id :
  wf n →
  (live n id →
    wf (remove_agent n id) ∧
    (∀ x, get_agent (remove_agent n id) x = if decide (x = id) then None else get_agent n x) ∧
    (∀ b q, q < 3 → (remove_agent n id).[b, q] =
      if owned_by id (AgentPort b q) || owned_by id n.[b, q] then DISCONNECTED else n.[b, q]) ∧
    redex_queue (remove_agent n id) = redex_queue n ∧
    free_list (remove_agent n id) =
      if is_border_protected n id then free_list n else free_list n ++ [id]) ∧
  (¬ live n id → remove_agent n id = n).
Proof.
  intros Hwf. split.
  - intros Hl. destruct (remove_agent_spec n id Hwf Hl). by split_and!.
  - intros Hd. unfold remove_agent. destruct (get_agent n id) eqn:E; [|done].
    destruct Hd. by exists a.
Qed.

Lemma remove_agent_sound_witness :
  wf (remove_agent example_recycled 1) ∧ free_list (remove_agent example_recycled 1) = [0; 1].
Proof.
  assert (Hwf : wf example_recycled) by (apply wf_b_sound; vm_compute; reflexivity).
  destruct (proj1 (remove_agent_sound example_recycled 1 Hwf)) as (W & _ & _ & _ & F);
    [vm_compute; by eexists|].
  split; [exact W|]. rewrite F. vm_compute. reflexivity.
Defined.

(** [connect] on two unplugged ends (existing unwired agent ports or free
    ports, not twice the same port) keeps the net well formed, makes the two
    ends see each other, touches no other wire, queues the pair exactly when
    both ends are principal ports (keeping the queue complete), and records
    the redirects of two free ports. *)
Theorem connect_sound n a b :
  wf n → free_end n a → free_end n b → apart a b →
  wf (connect n a b) ∧
  (∀ id p, p < 3 → (connect n a b).[id, p] =
    if decide (b = AgentPort id p) then a
    else if decide (a = AgentPort id p) then b else n.[id, p]) ∧
  redex_queue (connect n a b) = push_redex a b (redex_queue n) ∧
  (queue_complete n → queue_complete (connect n a b)) ∧
  freeport_redirects (connect n a b) = record_redirects a b (freeport_redirects n).
Proof.
  intros Hwf Ha Hb Hab. destruct (connect_frame n a b) as (_ & _ & _ & _ & _ & Q & R).
  split_and!; try done; [by apply connect_wf|intros; by apply connect_target|].
  intros Hqc c d [Hc Hd Hcd]. rewrite Q. rewrite connect_target in Hcd by done.
  unfold live in Hc, Hd. rewrite !connect_get_agent in Hc, Hd.
  rewrite push_redex_app, !elem_of_app. case_decide as E1; [|case_decide as E2].
  - subst a b. rewrite push_redex_principal. set_solver.
  - subst a b. rewrite push_redex_principal. set_solver.
  - destruct (Hqc c d); [by split|auto|auto].
Qed.

Lemma connect_sound_witness :
  let n := remove_agent example_recycled 1 in
  ∃ m, create_agent n Con = Done (m, 1) ∧
    wf (connect m (AgentPort 1 0) (FreePort 5)) ∧
    (connect m (AgentPort 1 0) (FreePort 5)).[1, 0] = FreePort 5.
Proof.
  intros n. destruct (create_agent n Con) as [[m id]|] eqn:E; [|vm_compute in E; discriminate].
  assert (id = 1) as -> by (vm_compute in E; by injection E).
  assert (Hwf : wf m) by (vm_compute in E; injection E as <-; apply wf_b_sound; vm_compute; reflexivity).
  assert (Hm : m.[1, 0] = DISCONNECTED) by (vm_compute in E; injection E as <-; reflexivity).
  assert (Ha : get_agent m 1 = Some (mkAgent Con 1)) by (vm_compute in E; injection E as <-; reflexivity).
  exists m. split; [reflexivity|].
  destruct (connect_sound m (AgentPort 1 0) (FreePort 5) Hwf) as (W & T & _).
  - split; [exists (mkAgent Con 1); split; [exact Ha|reflexivity]|exact Hm].
  - exact I.
  - intros ? ? _. discriminate.
  - split; [exact W|]. rewrite T by done. rewrite decide_False by discriminate.
    apply decide_True. reflexivity.
Defined.

(** [disconnect] on an existing port clears that port and the port it was
    wired to, and nothing else; the net stays well formed. *)
Theorem disconnect_sound n id p :
  wf n → valid_port n id p →
  wf (disconnect n (AgentPort id p)) ∧
  (∀ b q, q < 3 → (disconnect n (AgentPort id p)).[b, q] =
    if decide ((b, q) = (id, p) ∨ n.[b, q] = AgentPort id p) then DISCONNECTED else n.[b, q]).
Proof.
  intros Hwf Hv. split; [by apply disconnect_wf|]. intros b q Hq. by apply disconnect_target.
Qed.

Lemma disconnect_sound_witness :
  let n := example_pair Con Dup in
  (disconnect n (AgentPort 0 0)).[1, 0] = DISCONNECTED.
Proof.
  intros n. assert (Hwf : wf n) by (apply wf_b_sound; vm_compute; reflexivity).
  destruct (disconnect_sound n 0 0 Hwf) as [_ T];
    [apply valid_port_b_true; vm_compute; reflexivity|].
  rewrite T by done. apply decide_True. right. vm_compute. reflexivity.
Defined.

(** ** Free-list validation *)

Definition free_list_ok (n : Net) : Prop :=
  NoDup (free_list n) ∧ ∀ id, id ∈ free_list n → get_agent n id = None.

(** The first offending entry and why. *)
Lemma validate_free_ids_spec n seen l :
  match validate_free_ids n seen l with
  | None => NoDup l ∧ (∀ id, id ∈ l → id ∉ seen ∧ get_agent n id = None)
  | Some e => ∃ l1 id l2, l = l1 ++ id :: l2 ∧
      ((e = FreeListInvalid id DuplicateEntry ∧ (id ∈ seen ∨ id ∈ l1)) ∨
       (e = FreeListInvalid id SlotIsSome ∧ live n id)) ∧
      NoDup l1 ∧ (∀ x, x ∈ l1 → x ∉ seen ∧ get_agent n x = None)
  end.
Proof.
  revert seen. induction l as [|id l IH]; intros seen; cbn [validate_free_ids].
  { split; [constructor|]. intros id H. by apply elem_of_nil in H. }
  case_decide as Hs.
  { exists [], id, l. split; [done|]. split; [by left; auto|].
    split; [constructor|]. intros x H. by apply elem_of_nil in H. }
  destruct (get_agent n id) as [a|] eqn:Ha.
  { exists [], id, l. split; [done|]. split; [right; split; [done|by exists a]|].
    split; [constructor|]. intros x H. by apply elem_of_nil in H. }
  specialize (IH ({[id]} ∪ seen)).
  destruct (validate_free_ids n ({[id]} ∪ seen) l) as [e|].
  - destruct IH as (l1 & x & l2 & -> & He & Hnd & Hl1). exists (id :: l1), x, l2.
    split; [done|]. split; [|split].
    + destruct He as [[-> Hx]|He]; [left; split; [done|]|by right].
      destruct Hx as [Hx|Hx]; [|set_solver]. set_solver.
    + apply NoDup_cons. split; [|done]. intros Hin. destruct (Hl1 id Hin). set_solver.
    + intros y [->|Hy]%elem_of_cons; [done|]. destruct (Hl1 y Hy). set_solver.
  - destruct IH as [Hnd Hl]. split.
    + apply NoDup_cons. split; [|done]. intros Hin. destruct (Hl id Hin). set_solver.
    + intros y [->|Hy]%elem_of_cons; [done|]. destruct (Hl y Hy). set_solver.
Qed.

(** [validate_free_list] accepts exactly the sound free lists (no
    duplicate, every entry a dead slot); when it rejects, it reports the first
    offending entry with the reason that applies to it. *)
Theorem validate_free_list_exact n :
  (validate_free_list n = None ↔ free_list_ok n) ∧
  (∀ e, validate_free_list n = Some e → ∃ l1 id l2, free_list n = l1 ++ id :: l2 ∧
    NoDup l1 ∧ (∀ x, x ∈ l1 → get_agent n x = None) ∧
    ((e = FreeListInvalid id DuplicateEntry ∧ id ∈ l1) ∨
     (e = FreeListInvalid id SlotIsSome ∧ live n id))).
Proof.
  unfold validate_free_list. pose proof (validate_free_ids_spec n ∅ (free_list n)) as H.
  destruct (validate_free_ids n ∅ (free_list n)) as [e|].
  - destruct H as (l1 & id & l2 & Hl & He & Hnd & Hl1).
    assert (Hcase : (e = FreeListInvalid id DuplicateEntry ∧ id ∈ l1) ∨
                    (e = FreeListInvalid id SlotIsSome ∧ live n id)).
    { destruct He as [[-> [?|?]]|?]; [set_solver|by left|by right]. }
    split.
    + split; [done|]. intros [Hn Hd]. exfalso. rewrite Hl in Hn, Hd.
      destruct Hcase as [[_ Hin]|[_ [a Ha]]].
      * apply NoDup_app in Hn as (_ & Hx & _). apply (Hx id Hin). set_solver.
      * rewrite (Hd id) in Ha by set_solver. done.
    + intros e' [= <-]. exists l1, id, l2. split_and!; try done. intros x Hx. by apply Hl1.
  - destruct H as [Hn Hd]. split; [|done]. split; [|done]. intros _. split; [done|].
    intros id Hid. by apply Hd.
Qed.

Lemma validate_free_list_exact_witness :
  ∃ l1 id l2, free_list (with_free_list [0; 5; 0] example_recycled) = l1 ++ id :: l2 ∧ NoDup l1 ∧ id ∈ l1.
Proof.
  destruct (proj2 (validate_free_list_exact (with_free_list [0; 5; 0] example_recycled))
    (FreeListInvalid 0 DuplicateEntry)) as (l1 & id & l2 & Hl & Hn & _ & Hc);
    [vm_compute; reflexivity|].
  exists l1, id, l2. split; [exact Hl|]. split; [exact Hn|].
  destruct Hc as [[_ H]|[H _]]; [exact H|discriminate].
Defined.

(** [from_bytes] returns a net only when the bytes decode to it and its
    free list is sound, and otherwise an error: [DeserializeError] when the
    decoder fails, the validation error when it does not. *)
Theorem from_bytes_validates decode bytes :
  match from_bytes decode bytes with
  | inl n => decode bytes = Some n ∧ free_list_ok n
  | inr e => (e = DeserializeError ∧ decode bytes = None) ∨
             (∃ n, decode bytes = Some n ∧ validate_free_list n = Some e ∧ ¬ free_list_ok n)
  end.
Proof.
  unfold from_bytes. destruct (decode bytes) as [n|]; [|by left].
  pose proof (validate_free_list_exact n) as [Hv _].
  destruct (validate_free_list n) as [e|] eqn:E.
  - right. exists n. split_and!; [done|done|]. intros Hok. apply Hv in Hok. congruence.
  - split; [done|]. by apply Hv.
Qed.

(** ** Draining tombstones *)

Lemma drain_one_spec n id :
  wf n → id < next_id n →
  wf (drain_one n id) ∧ agents (drain_one n id) = agents n ∧ ports (drain_one n id) = ports n ∧
  next_id (drain_one n id) = next_id n ∧
  (∀ x, x ∈ free_list (drain_one n id) ↔ x ∈ free_list n ∨ (x = id ∧ get_agent n id = None)).
Proof.
  intros Hwf Hlt. unfold drain_one. destruct (get_agent n id) as [a|] eqn:E.
  { split_and!; try done. naive_solver. }
  case_decide as Hin.
  { split_and!; try done. intros x. naive_solver. }
  split_and!; try done.
  - destruct Hwf as [? ? ? ? ? ? Hnd Hfd]. split; try done; simpl.
    + apply NoDup_app. split_and!; [done| |apply NoDup_singleton]. set_solver.
    + intros x [Hx|Hx]%elem_of_app; [by apply Hfd|]. apply list_elem_of_singleton in Hx as ->. done.
  - intros x. simpl. rewrite elem_of_app, list_elem_of_singleton. naive_solver.
Qed.

Lemma drain_all_spec l n :
  wf n → (∀ id, id ∈ l → id < next_id n) →
  let n' := foldl drain_one n l in
  wf n' ∧ agents n' = agents n ∧ ports n' = ports n ∧ next_id n' = next_id n ∧
  (∀ x, x ∈ free_list n' ↔ x ∈ free_list n ∨ (x ∈ l ∧ get_agent n x = None)).
Proof.
  revert n. induction l as [|id l IH]; intros n Hwf Hl; cbn [foldl].
  { split_and!; try done. intros x. rewrite elem_of_nil. naive_solver. }
  destruct (drain_one_spec n id Hwf) as (W & A & P & N & F); [apply Hl; set_solver|].
  destruct (IH (drain_one n id) W) as (W' & A' & P' & N' & F').
  { intros x Hx. rewrite N. apply Hl. set_solver. }
  split_and!; try congruence. intros x. rewrite F', F.
  assert (Hg : get_agent (drain_one n id) x = get_agent n x) by (unfold get_agent; by rewrite A).
  rewrite Hg, elem_of_cons. naive_solver.
Qed.

(** Leaving a delta round with a shadow of known ids:
    [reconstruct_drain_tombstones] keeps the net well formed and every agent
    and wire, clears the round flag and the shadow, and adds to the free list
    exactly the dead ids of the shadow, none twice. *)
Theorem reconstruct_drain_sound n shadow :
  wf n → border_entries_shadow n = Some shadow → (∀ id, id ∈ shadow → id < next_id n) →
  let n' := reconstruct_drain_tombstones n in
  wf n' ∧ agents n' = agents n ∧ ports n' = ports n ∧ NoDup (free_list n') ∧
  (∀ x, x ∈ free_list n' ↔ x ∈ free_list n ∨ (x ∈ shadow ∧ get_agent n x = None)) ∧
  is_in_delta_round n' = false ∧ border_entries_shadow n' = None.
Proof.
  intros Hwf Hs Hlt n'. subst n'. unfold reconstruct_drain_tombstones.
  cbn [border_entries_shadow with_delta_round]. rewrite Hs.
  set (m := with_shadow None (with_delta_round false n)).
  assert (Wm : wf m) by (destruct Hwf; by split).
  destruct (drain_all_spec (elements shadow) m Wm) as (W & A & P & N & F).
  { intros id Hid%elem_of_elements. by apply Hlt. }
  assert (Hfr : ∀ l m, is_in_delta_round (foldl drain_one m l) = is_in_delta_round m ∧
    border_entries_shadow (foldl drain_one m l) = border_entries_shadow m).
  { induction l as [|x l IH]; intros m'; [done|]. cbn [foldl].
    destruct (IH (drain_one m' x)) as [-> ->]. unfold drain_one.
    destruct (get_agent m' x); [done|]. by case_decide. }
  destruct (Hfr (elements shadow) m) as [-> ->].
  split_and!; try done; [by apply wf_free_nodup|].
  intros x. rewrite F, elem_of_elements. done.
Qed.

Lemma reconstruct_drain_sound_witness :
  let n := with_shadow (Some {[0; 1]}) (with_free_list [] example_recycled) in
  0 ∈ free_list (reconstruct_drain_tombstones n) ∧ 1 ∉ free_list (reconstruct_drain_tombstones n).
Proof.
  intros n. assert (Hwf : wf n) by (apply wf_b_sound; vm_compute; reflexivity).
  destruct (reconstruct_drain_sound n {[0; 1]} Hwf eq_refl) as (_ & _ & _ & _ & F & _).
  { intros id [->%elem_of_singleton| ->%elem_of_singleton]%elem_of_union; vm_compute; reflexivity. }
  split; rewrite F.
  - right. split; [set_solver|vm_compute; reflexivity].
  - intros [H|[_ H]]; [vm_compute in H; by apply elem_of_nil in H|vm_compute in H; discriminate].
Defined.

(** ** Union *)

Definition live_disjoint (n m : Net) : Prop := ∀ id, live n id → get_agent m id = None.

Lemma imap_lookup_port (l k : list PortRef) i :
  port_at (overlay_ports l k) i =
    if decide (i < length l)%nat
    then if decide (port_at k i = DISCONNECTED) then port_at l i else port_at k i
    else DISCONNECTED.
Proof.
  unfold overlay_ports, port_at. rewrite list_lookup_imap. destruct (l !! i) as [t|] eqn:E.
  - apply lookup_lt_Some in E as Hlt. rewrite (decide_True (P := (i < _)%nat)) by done. cbn [fmap option_fmap option_map].
    destruct (k !! i) as [t'|]; cbn; [done|]. by rewrite decide_True.
  - apply lookup_ge_None in E. rewrite decide_False by lia. done.
Qed.

Lemma port_at_resize l k i : (length l ≤ k)%nat → port_at (resize k DISCONNECTED l) i = port_at l i.
Proof.
  intros Hl. rewrite resize_ge by done. unfold port_at. rewrite lookup_app.
  destruct (l !! i) eqn:E; [done|]. apply lookup_ge_None in E.
  destruct (replicate _ _ !! _) eqn:E'; [|done]. by apply lookup_replicate in E' as [-> _].
Qed.

Lemma target_port_at n id p : n.[id, p] = port_at (ports n) (N.to_nat (port_index id p)).
Proof. done. Qed.

Lemma union_target n m id p :
  (union n m).[id, p] = if decide (m.[id, p] = DISCONNECTED) then n.[id, p] else m.[id, p].
Proof.
  rewrite !target_port_at. unfold union. cbn [ports]. rewrite imap_lookup_port, port_at_resize by lia.
  rewrite length_resize. set (i := N.to_nat (port_index id p)).
  case_decide as Hi; [done|].
  assert (Hn : ports n !! i = None) by (apply lookup_ge_None; lia).
  assert (Hm : ports m !! i = None) by (apply lookup_ge_None; lia).
  unfold port_at. by rewrite Hn, Hm, decide_True.
Qed.

Lemma union_get_agent n m id :
  get_agent (union n m) id = match get_agent m id with Some a => Some a | None => get_agent n id end.
Proof.
  unfold union, get_agent, overlay_agents. cbn [agents]. rewrite list_lookup_imap.
  set (k := ((length (agents n) `max` length (agents m)) `max` N.to_nat (next_id n `max` next_id m))%nat).
  rewrite resize_ge by lia. rewrite lookup_app.
  destruct (agents n !! N.to_nat id) as [x|] eqn:E.
  - cbn. by destruct (agents m !! N.to_nat id) as [[]|].
  - apply lookup_ge_None in E. destruct (replicate _ _ !! _) as [x|] eqn:E'.
    + apply lookup_replicate in E' as [-> _]. cbn. by destruct (agents m !! N.to_nat id) as [[]|].
    + apply lookup_ge_None in E'. rewrite length_replicate in E'.
      rewrite (lookup_ge_None_2 (agents m)) by lia. done.
Qed.

Lemma union_lengths n m :
  wf n → wf m →
  length (agents (union n m)) = N.to_nat (next_id n `max` next_id m) ∧
  length (ports (union n m)) = (N.to_nat (next_id n `max` next_id m) * 3)%nat.
Proof.
  intros Hn Hm. unfold union. cbn [agents ports]. unfold overlay_agents, overlay_ports.
  rewrite !length_imap, !length_resize, (wf_ports_len n Hn), (wf_ports_len m Hm).
  pose proof (wf_arena n Hn). pose proof (wf_arena m Hm). lia.
Qed.

(** Wires of the two nets do not meet. *)
Lemma disjoint_wires n m id p b q :
  wf n → wf m → live_disjoint n m → p < 3 → n.[id, p] = AgentPort b q →
  m.[id, p] = DISCONNECTED ∧ m.[b, q] = DISCONNECTED.
Proof.
  intros Hn Hm Hd Hp E. destruct (wf_sym n Hn id p b q Hp E) as (Hv & Hs & _).
  assert (Hvi : valid_port n id p).
  { apply (wf_src n Hn); [done|]. by rewrite E. }
  split; (apply dead_disconnected; [done|eauto with net|apply Hd; eauto with net]).
Qed.

Lemma union_live_l n m id p : live_disjoint n m → valid_port n id p → valid_port (union n m) id p.
Proof.
  intros Hd Hv. apply (valid_port_ext n); [|done]. rewrite union_get_agent.
  by rewrite Hd by eauto with net.
Qed.

Lemma union_live_r n m id p : valid_port m id p → valid_port (union n m) id p.
Proof.
  intros Hv. apply (valid_port_ext m); [|done]. rewrite union_get_agent.
  by destruct Hv as (a & -> & _).
Qed.

Lemma union_wf n m :
  wf n → wf m → live_disjoint n m → (∀ id, id ∈ free_list n → get_agent m id = None) →
  wf (union n m).
Proof.
  intros Hn Hm Hd Hf. destruct (union_lengths n m Hn Hm) as [La Lp].
  split.
  - congruence.
  - rewrite La. cbn [next_id union]. lia.
  - cbn [next_id union]. pose proof (wf_u32 n Hn). pose proof (wf_u32 m Hm). lia.
  - intros id a. rewrite union_get_agent. destruct (get_agent m id) eqn:E.
    + intros [= <-]. by apply (wf_ids m Hm).
    + by apply (wf_ids n Hn).
  - intros id p Hp. rewrite union_target. case_decide as E; intros Hne.
    + apply union_live_l; [done|]. by apply (wf_src n Hn).
    + apply union_live_r. by apply (wf_src m Hm).
  - intros id p b q Hp. rewrite !union_target. case_decide as E; intros Ht.
    + destruct (disjoint_wires n m id p b q Hn Hm Hd Hp Ht) as [_ Hb].
      destruct (wf_sym n Hn id p b q Hp Ht) as (Hv & Hs & Hne).
      rewrite decide_True by done. split; [by apply union_live_l|done].
    + destruct (wf_sym m Hm id p b q Hp Ht) as (Hv & Hs & Hne).
      rewrite decide_False by (by rewrite Hs). split; [by apply union_live_r|done].
  - apply (wf_free_nodup n Hn).
  - intros id Hid. destruct (wf_free_dead n Hn id Hid) as [Hi Hlt].
    rewrite union_get_agent, Hf by done. split; [done|]. cbn [next_id union]. lia.
Qed.

(** [Net::union] of two well-formed nets with disjoint live ids, where no
    id free in the first is live in the second, is well formed; it has the
    agents of both, the wires of both, the active pairs of both and no other,
    and a complete queue when both queues were. *)
Theorem union_sound n m :
  wf n → wf m → live_disjoint n m → (∀ id, id ∈ free_list n → get_agent m id = None) →
  wf (union n m) ∧
  (∀ id, get_agent (union n m) id =
    match get_agent m id with Some a => Some a | None => get_agent n id end) ∧
  (∀ a b, redex (union n m) a b ↔ redex n a b ∨ redex m a b) ∧
  (queue_complete n → queue_complete m → queue_complete (union n m)).
Proof.
  intros Hn Hm Hd Hf.
  assert (Hr : ∀ a b, redex (union n m) a b ↔ redex n a b ∨ redex m a b).
  { intros a b. split.
    - intros [_ _ Hab]. rewrite union_target in Hab. case_decide as E; [left|right].
      + destruct (wf_sym n Hn a 0 b 0 ltac:(lia) Hab) as (Hv & _).
        split; [|by eauto with net|done].
        eapply valid_port_live, (wf_src n Hn a 0); [lia|by rewrite Hab].
      + destruct (wf_sym m Hm a 0 b 0 ltac:(lia) Hab) as (Hv & _).
        split; [|by eauto with net|done].
        eapply valid_port_live, (wf_src m Hm a 0); [lia|by rewrite Hab].
    - assert (Hl : ∀ x, live n x ∨ live m x → live (union n m) x).
      { intros x Hx. unfold live. rewrite union_get_agent.
        destruct (get_agent m x) eqn:E; [by eexists|].
        destruct Hx as [?|[? ?]]; [done|congruence]. }
      intros [[Ha Hb Hab]|[Ha Hb Hab]]; (split; [auto|auto|]); rewrite union_target.
      + destruct (disjoint_wires n m a 0 b 0 Hn Hm Hd ltac:(lia) Hab) as [-> _].
        by rewrite decide_True.
      + by rewrite Hab, decide_False. }
  split_and!; [by apply union_wf|apply union_get_agent|done|].
  intros Qn Qm a b Hab. cbn [redex_queue union]. rewrite !elem_of_app.
  apply Hr in Hab as [Hab|Hab]; [destruct (Qn a b Hab)|destruct (Qm a b Hab)]; auto.
Qed.

Lemma empty_arena_disjoint n m : Forall (λ s, s = None) (agents n) → live_disjoint n m.
Proof.
  intros H id [a Ha]. exfalso. unfold get_agent in Ha.
  destruct (agents n !! N.to_nat id) as [s|] eqn:E; [|done].
  by rewrite (Forall_lookup_1 _ _ _ _ H E) in Ha.
Qed.

(** The second net of the examples: one eraser at id 1, id 0 removed. *)
Definition example_other : Net :=
  match '(n, a) ← create_agent new Dup; '(n, b) ← create_agent n Era; mret (n, a) with
  | Done (n, a) => remove_agent n a
  | Panic => new
  end.

Lemma union_sound_witness :
  let n := with_free_list [] (remove_agent example_recycled 1) in
  wf (union n example_other) ∧ get_agent (union n example_other) 1 = Some (mkAgent Era 1).
Proof.
  intros n.
  destruct (union_sound n example_other) as (W & A & _ & _).
  - apply wf_b_sound. vm_compute. reflexivity.
  - apply wf_b_sound. vm_compute. reflexivity.
  - apply empty_arena_disjoint. vm_compute. repeat constructor.
  - intros id H. by apply elem_of_nil in H.
  - split; [exact W|]. rewrite A. vm_compute. reflexivity.
Defined.

(** Disjoint live ids, the documented precondition, do not make the union
    sound: when an id free in the first net is live in the second, the union
    of two well-formed nets fails free-list validation, and its next
    [create_agent] hands out the id of a live agent. *)
Theorem union_free_list_clash :
  let n := remove_agent example_recycled 1 in
  let m := example_other in
  wf n ∧ wf m ∧ live_disjoint n m ∧
  validate_free_list (union n m) = Some (FreeListInvalid 1 SlotIsSome) ∧
  ∃ n', create_agent (union n m) Con = Done (n', 1) ∧ live (union n m) 1.
Proof.
  split; [apply wf_b_sound; vm_compute; reflexivity|].
  split; [apply wf_b_sound; vm_compute; reflexivity|].
  split; [apply empty_arena_disjoint; vm_compute; repeat constructor|].
  split; [vm_compute; reflexivity|].
  eexists. split; [vm_compute; reflexivity|]. vm_compute. by eexists.
Qed.

(** ** The debug assertions *)

(** T1: every existing port is wired, except the principal port of the root. *)
Definition linear (n : Net) : Prop :=
  ∀ id p, valid_port n id p → n.[id, p] = DISCONNECTED → p = 0 ∧ root n = Some (AgentPort id 0).

Definition root_ok (n : Net) : Prop :=
  match root n with
  | None => True
  | Some (AgentPort id p) => p = 0 ∧ live n id ∧ n.[id, 0] = DISCONNECTED
  | Some (FreePort _) => False
  end.

Lemma elem_of_live_agents n a : wf n → a ∈ live_agents n → get_agent n (agent_id a) = Some a.
Proof.
  intros Hwf Ha. unfold live_agents in Ha. apply list_elem_of_omap in Ha as (s & Hs & Hid).
  change (s = Some a) in Hid. subst s.
  apply list_elem_of_lookup in Hs as (i & Hi).
  assert (Hg : get_agent n (N.of_nat i) = Some a) by (unfold get_agent; by rewrite Nat2N.id, Hi).
  by rewrite (wf_ids n Hwf _ _ Hg).
Qed.

Lemma forallb_intro {A} (f : A → bool) l : (∀ x, x ∈ l → f x = true) → forallb f l = true.
Proof. intros H. apply forallb_forall. intros x Hx. by apply H, list_elem_of_In. Qed.

Lemma wf_adjacency n : wf n → linear n → assert_adjacency_consistent n = true.
Proof.
  intros Hwf Hlin. apply forallb_intro. intros a Ha%elem_of_live_agents; [|done].
  apply forallb_intro. intros p Hp%elem_of_range_u.
  assert (Hv : valid_port n (agent_id a) p) by (by exists a).
  unfold adjacency_port_ok. destruct (decide (n.[agent_id a, p] = DISCONNECTED)) as [E|E].
  - destruct (Hlin _ _ Hv E) as [-> Hr]. unfold root_agent_id. rewrite Hr, !bool_decide_true by done. done.
  - rewrite (bool_decide_false (_ = DISCONNECTED)) by done. rewrite andb_false_r.
    destruct (n.[agent_id a, p]) as [b q|] eqn:Et; [|done].
    apply bool_decide_true. by apply (wf_sym n Hwf _ _ _ _ (valid_port_lt3 _ _ _ Hv)).
Qed.

Lemma wf_refs n : wf n → assert_refs_valid n = true.
Proof.
  intros Hwf. apply forallb_intro. intros a Ha%elem_of_live_agents; [|done].
  apply forallb_intro. intros p Hp%elem_of_range_u.
  assert (Hv : valid_port n (agent_id a) p) by (by exists a). unfold ref_port_ok.
  destruct (n.[agent_id a, p]) as [b q|] eqn:Et; [|done].
  destruct (wf_sym n Hwf _ _ _ _ (valid_port_lt3 _ _ _ Hv) Et) as ((t & -> & Hq) & _).
  apply N.leb_le. unfold total_ports in Hq. lia.
Qed.

Lemma wf_next_id_ok n : wf n → assert_next_id_valid n = true.
Proof.
  intros Hwf. apply forallb_intro. intros i Hi%elem_of_seq.
  destruct (mjoin (agents n !! i)); [|done]. apply N.ltb_lt. pose proof (wf_arena n Hwf). lia.
Qed.

Lemma wf_era_clean n : wf n → assert_era_unused_ports_clean n = true.
Proof.
  intros Hwf. apply forallb_intro. intros a Ha%elem_of_live_agents; [|done].
  case_decide as Hs; [|done]. apply forallb_intro. intros p Hp.
  destruct (ports n !! N.to_nat (port_index (agent_id a) p)) as [t|] eqn:E; [|done].
  apply bool_decide_true. assert (Ht : n.[agent_id a, p] = t) by (unfold get_target; by rewrite E).
  destruct (decide (t = DISCONNECTED)) as [|Hne]; [done|].
  assert (Hp3 : 0 < p < 3) by (apply elem_of_cons in Hp as [->|Hp]; [lia|]; apply list_elem_of_singleton in Hp; lia).
  destruct (wf_src n Hwf (agent_id a) p) as (x & Hx & Hlt); [lia|by rewrite Ht|].
  rewrite Ha in Hx. injection Hx as <-. rewrite Hs in Hlt. change (p < 1) in Hlt. lia.
Qed.

Lemma wf_root_ok n : wf n → root_ok n → assert_root_consistent n = true.
Proof.
  intros Hwf. unfold root_ok, assert_root_consistent.
  destruct (root n) as [[id p|]|]; [|done..]. intros (-> & Hl & Ht).
  rewrite bool_decide_true by done.
  destruct (lookup_lt_is_Some_2 (ports n) _ (valid_port_cell n id 0 Hwf (valid_port_0 n id Hl))) as [t E].
  unfold get_target in Ht. rewrite E in Ht. subst t. by rewrite E, bool_decide_true.
Qed.

Lemma wf_no_free_refs n : wf n → assert_no_free_list_port_refs n = true.
Proof.
  intros Hwf. apply forallb_intro. intros t Ht. destruct t as [b q|]; [|done].
  apply negb_true_iff, bool_decide_false. rewrite elem_of_list_to_set. intros Hb.
  apply list_elem_of_lookup in Ht as (i & Hi).
  set (id := N.of_nat i / 3). set (p := N.of_nat i mod 3).
  assert (Hidx : N.to_nat (port_index id p) = i).
  { unfold port_index, PORTS_PER_SLOT, id, p. pose proof (N.div_mod (N.of_nat i) 3). lia. }
  assert (Hp : p < 3) by (apply N.mod_lt; lia).
  assert (E : n.[id, p] = AgentPort b q) by (unfold get_target; by rewrite Hidx, Hi).
  destruct (wf_sym n Hwf id p b q Hp E) as ((a & Ha & _) & _).
  destruct (wf_free_dead n Hwf b Hb). congruence.
Qed.

(** The library's invariant subsumes the debug assertions the release
    build leaves out: on every well-formed net the reference, id, eraser and
    free-list assertions hold, and with all ports wired and a well-placed root
    so does the whole of [assert_all_invariants]. *)
Theorem wf_passes_debug_assertions n :
  wf n →
  assert_refs_valid n = true ∧ assert_next_id_valid n = true ∧
  assert_era_unused_ports_clean n = true ∧ assert_no_free_list_port_refs n = true ∧
  (linear n → root_ok n → assert_all_invariants n = true).
Proof.
  intros Hwf. split_and!; [by apply wf_refs|by apply wf_next_id_ok|by apply wf_era_clean
    |by apply wf_no_free_refs|].
  intros Hl Hr. unfold assert_all_invariants.
  by rewrite wf_adjacency, wf_refs, wf_next_id_ok, wf_era_clean, wf_root_ok.
Qed.

Lemma wf_passes_debug_assertions_witness :
  assert_refs_valid example_recycled = true ∧ assert_no_free_list_port_refs example_recycled = true.
Proof.
  destruct (wf_passes_debug_assertions example_recycled) as (H1 & _ & _ & H4 & _);
    [apply wf_b_sound; vm_compute; reflexivity|].
  split; [exact H1|exact H4].
Defined.
