(* ===== verification/SparseNet.v ===== *)
(** The sparse interaction net (net/sparse.rs) and the conversions between it
    and the dense net ([Net::to_sparse], [SparseNet::to_dense],
    [Net::is_behaviorally_equal]). *)
From S2P Require Import Prelude NetTypes NetCore.
Local Open Scope N_scope.

Record SparseNet : Type := mkSparse {
  s_agents : gmap AgentId Agent;
  s_ports : gmap (AgentId * PortId) PortRef;
  s_redex_queue : list (AgentId * AgentId);
  s_next_id : AgentId;
  s_root : option PortRef;
  s_freeport_redirects : gmap N PortRef;
}.

Module Sparse.

Definition new : SparseNet := mkSparse ∅ ∅ [] 0 None ∅.

(** Capacity only pre-allocates buckets. *)
Definition with_capacity (capacity : N) : SparseNet := mkSparse ∅ ∅ [] 0 None ∅.

Definition create_agent (s : SparseNet) (sym : Symbol) : outcome (SparseNet * AgentId) :=
  if s_next_id s <? u32_MAX then
    let id := s_next_id s in
    Done (mkSparse (<[id := mkAgent sym id]> (s_agents s)) (s_ports s) (s_redex_queue s)
            (id + 1) (s_root s) (s_freeport_redirects s), id)
  else Panic.

(** [id.saturating_add(1)] on [u32]. *)
Definition saturating_succ (id : AgentId) : AgentId := (id + 1) `min` u32_MAX.

Definition create_agent_at (s : SparseNet) (id : AgentId) (sym : Symbol) : SparseNet :=
  mkSparse (<[id := mkAgent sym id]> (s_agents s)) (s_ports s) (s_redex_queue s)
    (if s_next_id s <=? id then saturating_succ id else s_next_id s)
    (s_root s) (s_freeport_redirects s).

(** [ports.remove(&(id, p))] followed by the removal of the reverse entry. *)
Definition remove_wire (id : AgentId) (ps : gmap (AgentId * PortId) PortRef) (p : PortId)
    : gmap (AgentId * PortId) PortRef :=
  match ps !! (id, p) with
  | Some (AgentPort tid tp) => delete (tid, tp) (delete (id, p) ps)
  | _ => delete (id, p) ps
  end.

Definition remove_agent (s : SparseNet) (id : AgentId) : SparseNet :=
  match s_agents s !! id with
  | None => s
  | Some agent =>
      mkSparse (delete id (s_agents s))
        (foldl (remove_wire id) (s_ports s) (range_u (total_ports (symbol agent))))
        (s_redex_queue s) (s_next_id s) (s_root s) (delete id (s_freeport_redirects s))
  end.

Definition write_port (s : SparseNet) (port target : PortRef) : SparseNet :=
  match port with
  | FreePort _ => s
  | AgentPort id p =>
      let skip := match s_agents s !! id with
                  | Some agent => total_ports (symbol agent) <=? p
                  | None => false
                  end in
      if skip then s
      else if decide (target = DISCONNECTED) then s
      else mkSparse (s_agents s) (<[(id, p) := target]> (s_ports s)) (s_redex_queue s)
             (s_next_id s) (s_root s) (s_freeport_redirects s)
  end.

Definition connect (s : SparseNet) (a b : PortRef) : SparseNet :=
  let s := write_port s a b in
  let s := write_port s b a in
  mkSparse (s_agents s) (s_ports s) (push_redex a b (s_redex_queue s)) (s_next_id s) (s_root s)
    (record_redirects a b (s_freeport_redirects s)).

Definition disconnect (s : SparseNet) (port : PortRef) : SparseNet :=
  match port with
  | FreePort _ => s
  | AgentPort id p =>
      mkSparse (s_agents s) (remove_wire id (s_ports s) p) (s_redex_queue s) (s_next_id s)
        (s_root s) (s_freeport_redirects s)
  end.

Definition get_target (s : SparseNet) (port : PortRef) : PortRef :=
  match port with
  | AgentPort id p => default DISCONNECTED (s_ports s !! (id, p))
  | FreePort _ => DISCONNECTED
  end.

Definition get_agent (s : SparseNet) (id : AgentId) : option Agent := s_agents s !! id.

Definition is_reduced (s : SparseNet) : bool :=
  match s_redex_queue s with [] => true | _ :: _ => false end.

Definition count_live_agents (s : SparseNet) : nat := size (s_agents s).

(** Iteration order is unspecified; [map_to_list]'s is one of them. *)
Definition live_agents (s : SparseNet) : list Agent := (map_to_list (s_agents s)).*2.

(** ** To the dense representation *)

Definition MAX_DENSE_ARENA_SLOTS : N := 16777216.

(** [agents.keys().max().copied().unwrap_or(0)]. *)
Definition max_id (s : SparseNet) : AgentId :=
  foldr N.max 0 (map_to_list (s_agents s)).*1.

(** [for (&id, &agent) in &self.agents { agents[id as usize] = Some(agent) }]. *)
Definition dense_agents (s : SparseNet) (arena_len : nat) : list (option Agent) :=
  foldr (λ e l, <[N.to_nat e.1 := Some e.2]> l) (replicate arena_len None)
    (map_to_list (s_agents s)).

(** The port loop; out-of-range indices are skipped. *)
Definition dense_ports (s : SparseNet) (arena_len : nat) : list PortRef :=
  foldr (λ e l, let idx := N.to_nat (port_index e.1.1 e.1.2) in
                if decide (idx < length l)%nat then <[idx := e.2]> l else l)
    (replicate (arena_len * 3) DISCONNECTED) (map_to_list (s_ports s)).

(** The dead slots of [agents[lo..hi]], ascending. *)
Definition dead_slots (ags : list (option Agent)) (lo hi : nat) : list AgentId :=
  if decide (lo < hi)%nat
  then N.of_nat <$> filter (λ i, mjoin (ags !! i) = None) (seq lo (hi - lo))
  else [].

Definition to_dense (s : SparseNet) (id_range : option (AgentId * AgentId)) : Net + NetError :=
  let bad :=
    match id_range with
    | Some (lo, hi) => if hi <? lo then Some (InvalidIdRange lo hi) else None
    | None => None
    end in
  match bad with
  | Some e => inr e
  | None =>
      let arena_len := max_id s + 1 in
      if MAX_DENSE_ARENA_SLOTS <? arena_len
      then inr (DenseAllocationExceedsThreshold arena_len MAX_DENSE_ARENA_SLOTS
                  (N.of_nat (size (s_agents s))))
      else
        let len := N.to_nat arena_len in
        let ags := dense_agents s len in
        let '(lo, hi) := match id_range with
                         | Some (lo, hi) => (N.to_nat lo, N.to_nat hi)
                         | None => (0%nat, len)
                         end in
        let hi := (hi `min` len)%nat in
        let lo := (lo `min` len)%nat in
        inl {| agents := ags;
               ports := dense_ports s len;
               redex_queue := s_redex_queue s;
               next_id := s_next_id s;
               root := s_root s;
               freeport_redirects := s_freeport_redirects s;
               free_list := dead_slots ags lo hi;
               id_range := id_range;
               border_entries_shadow := None;
               recycle_policy := DisableUnderDelta;
               is_in_delta_round := false;
               streaming_active := false;
               debug_fields := debug_fields_init |}
  end.

(** ** Debug assertion *)

Definition entry_ok (s : SparseNet) (e : (AgentId * PortId) * PortRef) : bool :=
  match e.2 with
  | FreePort _ => true
  | AgentPort b_id b_p =>
      (bool_decide (s_root s = Some e.2) ||
       bool_decide (s_ports s !! (b_id, b_p) = Some (AgentPort e.1.1 e.1.2))) &&
      match s_agents s !! b_id with
      | Some agent => b_p <? total_ports (symbol agent)
      | None => false
      end
  end.

Definition assert_invariants (s : SparseNet) : bool :=
  forallb (entry_ok s) (map_to_list (s_ports s)).

End Sparse.

(** ** From the dense representation *)

(** The port loop of [to_sparse] for one agent. *)
Definition sparse_agent_ports (n : Net) (a : Agent) (m : gmap (AgentId * PortId) PortRef)
    : gmap (AgentId * PortId) PortRef :=
  foldl (λ m p,
    match ports n !! N.to_nat (port_index (agent_id a) p) with
    | Some target => if decide (target = DISCONNECTED) then m else <[(agent_id a, p) := target]> m
    | None => m
    end) m (range_u (total_ports (symbol a))).

Definition to_sparse (n : Net) : SparseNet :=
  mkSparse
    (foldl (λ m a, <[agent_id a := a]> m) ∅ (live_agents n))
    (foldl (λ m a, sparse_agent_ports n a m) ∅ (live_agents n))
    (redex_queue n) (next_id n) (root n) (freeport_redirects n).

(** ** Behavioural equality *)

(** [Ord] on id pairs. *)
Definition pair_le (x y : AgentId * AgentId) : Prop := x.1 < y.1 ∨ (x.1 = y.1 ∧ x.2 ≤ y.2).

#[export] Instance pair_le_dec : RelDecision pair_le.
Proof. intros x y. unfold pair_le. apply _. Defined.

Definition same_targets (self other : Net) (a : Agent) : bool :=
  forallb (λ p, bool_decide (get_target self (AgentPort (agent_id a) p) =
                             get_target other (AgentPort (agent_id a) p)))
    (range_u (total_ports (symbol a))).

Definition is_behaviorally_equal (self other : Net) : bool :=
  bool_decide (live_agents self = live_agents other) &&
  forallb (same_targets self other) (live_agents self) &&
  bool_decide (merge_sort pair_le (redex_queue self) = merge_sort pair_le (redex_queue other)) &&
  bool_decide (root self = root other) &&
  bool_decide (next_id self = next_id other) &&
  bool_decide (freeport_redirects self = freeport_redirects other) &&
  bool_decide (free_list self = free_list other).
