(* ===== verification/SparseInv.v ===== *)
(** The sparse net implements the dense one: the simulation relation, and
    that every sparse operation preserves it. *)
From S2P Require Import Prelude NetTypes NetCore NetInv Reduction ReductionInv EngineInv NetDebug.
From S2P Require Import Wiring NetSpec SparseNet.
Local Open Scope N_scope.
Open Scope net_scope.

(** The sparse net [s] and the dense net [n] are the same abstract net. *)
Record sim (s : SparseNet) (n : Net) : Prop := {
  sim_agents : ∀ id, s_agents s !! id = get_agent n id;
  sim_target : ∀ id p, p < 3 → Sparse.get_target s (AgentPort id p) = n.[id, p];
  sim_entry : ∀ id p t, s_ports s !! (id, p) = Some t → p < 3 ∧ t ≠ DISCONNECTED;
  sim_queue : s_redex_queue s = redex_queue n;
  sim_next : s_next_id s = next_id n;
  sim_root : s_root s = root n;
  sim_redirects : s_freeport_redirects s = freeport_redirects n;
}.

(** No id is recycled: Strategy A in a delta round or while streaming. *)
Definition no_recycle (n : Net) : Prop :=
  is_in_delta_round n || streaming_active n = true ∧ recycle_policy n = DisableUnderDelta.

Lemma no_recycle_frame n n' : same_frame n n' → no_recycle n → no_recycle n'.
Proof. intros (_ & _ & _ & Hp & Hd & Hs & _) [H1 H2]. split; congruence. Qed.

(** A fresh id, not a recycled one. *)
Definition allocates (n : Net) (sym : Symbol) : Prop := create_agent n sym = alloc_fresh n sym.

Lemma no_recycle_allocates n sym : no_recycle n → allocates n sym.
Proof. intros [Hb Hp]. unfold allocates, create_agent. rewrite Hb, Hp. cbn [andb]. by rewrite bool_decide_true by done. Qed.

Lemma no_free_allocates n sym : free_list n = [] → is_in_delta_round n = false ∧ streaming_active n = false → allocates n sym.
Proof. intros F [I1 I2]. unfold allocates, create_agent. rewrite I1, I2. cbn [orb andb]. unfold take_free_id. by rewrite F. Qed.

Lemma allocates_id n s n' id :
  allocates n s → create_agent n s = Done (n', id) → id = next_id n ∧ next_id n' = next_id n + 1.
Proof.
  intros ->. unfold alloc_fresh.
  destruct (next_id n <? u32_MAX); [|discriminate]. intros H%Done_inj. by injection H as <- <-.
Qed.

Lemma sim_lookup s n id p :
  sim s n → p < 3 → s_ports s !! (id, p) = if decide (n.[id, p] = DISCONNECTED) then None else Some n.[id, p].
Proof.
  intros Hs Hp. pose proof (sim_target s n Hs id p Hp) as Ht. unfold Sparse.get_target in Ht.
  destruct (s_ports s !! (id, p)) as [t|] eqn:E; cbn [from_option] in Ht.
  - destruct (sim_entry s n Hs id p t E). rewrite <- Ht. by rewrite decide_False.
  - by rewrite decide_True.
Qed.

(** ** Creation *)

Lemma sim_create s n sym :
  sim s n → wf n → allocates n sym →
  match Sparse.create_agent s sym, create_agent n sym with
  | Done (s', id), Done (n', id') => id = id' ∧ sim s' n'
  | Panic, Panic => True
  | _, _ => False
  end.
Proof.
  intros Hs Hwf Hnr. unfold Sparse.create_agent. rewrite (sim_next s n Hs).
  destruct (create_agent n sym) as [[n' id]|] eqn:E.
  - destruct (allocates_id n sym n' id Hnr E) as [-> Hnx].
    destruct (create_agent_spec n sym n' _ Hwf E) as [W D O A T F N Q R _].
    pose proof (wf_u32 n' W). destruct (N.ltb_spec (next_id n) u32_MAX); [|lia].
    split; [done|]. destruct Hs as [SA ST SE SQ SN SR SF].
    split; cbn [s_agents s_redex_queue s_next_id s_root s_freeport_redirects].
    + intros x. rewrite A. case_decide as Ex; [subst; by rewrite lookup_insert_eq|].
      by rewrite lookup_insert_ne by done.
    + intros x p Hp. rewrite T by done. by rewrite <- ST by done.
    + exact SE.
    + congruence.
    + congruence.
    + rewrite SR. by destruct F as (-> & _).
    + congruence.
  - destruct (N.ltb_spec (next_id n) u32_MAX) as [Hlt|]; [|done].
    destruct (create_agent_total n sym Hlt) as (? & ? & ?). congruence.
Qed.

(** ** Wiring *)

(** A write the two nets perform alike: the port exists, and it is not a
    disconnection of a wired port (which the sparse net ignores). *)
Definition writable (n : Net) (r t : PortRef) : Prop :=
  match r with
  | AgentPort id p =>
      valid_port n id p ∧ (N.to_nat (port_index id p) < length (ports n))%nat ∧
      (t = DISCONNECTED → n.[id, p] = DISCONNECTED)
  | FreePort _ => True
  end.

Lemma sim_write s n r t : sim s n → writable n r t → sim (Sparse.write_port s r t) (set_port n r t).
Proof.
  intros Hs Hw. destruct r as [id p|]; [|done].
  destruct Hw as (Hv & Hlt & Hdis). pose proof Hv as (a & Ha & Hp).
  pose proof (valid_port_lt3 _ _ _ Hv) as Hp3.
  destruct (set_port_frame n (AgentPort id p) t) as ((Fr & _) & Q & N & _ & R).
  assert (Hg : ∀ x, get_agent (set_port n (AgentPort id p) t) x = get_agent n x)
    by (intros x; apply set_port_get_agent).
  unfold Sparse.write_port. rewrite (sim_agents s n Hs), Ha.
  destruct (N.leb_spec (total_ports (symbol a)) p); [lia|].
  case_decide as Et.
  - split; try by (try rewrite Hg; destruct Hs; try congruence; auto).
    intros b q Hq. rewrite set_port_lookup by done. rewrite (sim_target s n Hs) by done.
    case_decide as E; [|done]. injection E as <- <-. rewrite Hdis by done. done.
  - split; cbn [s_agents s_ports s_redex_queue s_next_id s_root s_freeport_redirects];
      try by (try rewrite Hg; destruct Hs; try congruence; auto).
    + intros b q Hq. rewrite set_port_lookup by done. unfold Sparse.get_target. cbn [s_ports].
      case_decide as E.
      * injection E as <- <-. by rewrite lookup_insert_eq.
      * rewrite lookup_insert_ne by congruence. by apply (sim_target s n Hs).
    + intros b q t'. rewrite lookup_insert_Some. intros [[[= <- <-] <-]|[_ He]]; [done|].
      exact (sim_entry s n Hs b q t' He).
Qed.

Lemma sim_connect s n a b :
  sim s n → wf n → free_end n a → free_end n b → apart a b →
  sim (Sparse.connect s a b) (connect n a b).
Proof.
  intros Hs Hwf Ha Hb Hab.
  assert (Hw : ∀ r t, free_end n r → writable n r t).
  { intros [id p|] t He; [|done]. destruct He as [Hv Hd]. split; [done|]. split; [|done].
    by apply valid_port_cell. }
  assert (H1 : sim (Sparse.write_port s a b) (set_port n a b)) by (by apply sim_write; auto).
  assert (H2 : sim (Sparse.write_port (Sparse.write_port s a b) b a) (set_port (set_port n a b) b a)).
  { apply sim_write; [done|]. pose proof (Hw b a Hb) as Hwb. destruct b as [id p|]; [|done].
    destruct Hwb as (Hv & Hlt & Hdis). split; [|split].
    - by apply (valid_port_ext n); [apply set_port_get_agent|].
    - by rewrite set_port_ports_length.
    - intros ->. by apply Hdis. }
  destruct H2 as [A T E Q N R F].
  split; cbn [s_agents s_ports s_redex_queue s_next_id s_root s_freeport_redirects Sparse.connect];
    try done; unfold connect; cbn; congruence.
Qed.

(** Removing one wire, on the two sides. *)
Lemma remove_wire_lookup id ps p c q :
  Sparse.remove_wire id ps p !! (c, q) =
    if decide ((c, q) = (id, p) ∨ ps !! (id, p) = Some (AgentPort c q)) then None else ps !! (c, q).
Proof.
  unfold Sparse.remove_wire. destruct (ps !! (id, p)) as [[tid tp|]|] eqn:E.
  - case_decide as Hd.
    + destruct Hd as [->|[= -> ->]]; [|by rewrite lookup_delete_eq].
      destruct (decide ((tid, tp) = (id, p))) as [->|]; [by rewrite lookup_delete_eq|].
      by rewrite lookup_delete_ne, lookup_delete_eq by done.
    + rewrite !lookup_delete_ne; [done|..]; intros ?; apply Hd; [left|right]; congruence.
  - case_decide as Hd.
    + destruct Hd as [->|]; [|done]. by rewrite lookup_delete_eq.
    + rewrite lookup_delete_ne; [done|]. intros ?. apply Hd. left. congruence.
  - case_decide as Hd.
    + destruct Hd as [->|]; [|done]. by rewrite lookup_delete_eq.
    + rewrite lookup_delete_ne; [done|]. intros ?. apply Hd. left. congruence.
Qed.

Lemma sim_disconnect s n id p :
  sim s n → wf n → valid_port n id p →
  sim (Sparse.disconnect s (AgentPort id p)) (disconnect n (AgentPort id p)).
Proof.
  intros Hs Hwf Hv. pose proof (valid_port_lt3 _ _ _ Hv) as Hp.
  destruct (disconnect_frame n (AgentPort id p)) as ((Fr & _) & N & _ & A & _ & Q & R).
  assert (Hent : ∀ c q, q < 3 → s_ports (Sparse.disconnect s (AgentPort id p)) !! (c, q) =
    let t := (disconnect n (AgentPort id p)).[c, q] in if decide (t = DISCONNECTED) then None else Some t).
  { intros c q Hq. cbn [Sparse.disconnect s_ports]. cbv zeta.
    rewrite remove_wire_lookup, disconnect_target, !(sim_lookup s n) by done.
    assert (Hiff : ((c, q) = (id, p) ∨ (if decide (n.[id, p] = DISCONNECTED) then None else Some n.[id, p]) =
      Some (AgentPort c q)) ↔ ((c, q) = (id, p) ∨ n.[c, q] = AgentPort id p)).
    { rewrite <- (attached n id p c q Hwf Hp Hq). case_decide as E.
      - rewrite E. split; intros [?|?]; auto; done.
      - split; intros [?|Hx]; auto; right; [by injection Hx|by rewrite Hx]. }
    lazymatch type of Hiff with
    | ?P ↔ ?Q => destruct (decide P) as [Hd|Hd];
        [rewrite (decide_True (P := Q)) by (by apply Hiff); by rewrite decide_True
        |rewrite (decide_False (P := Q)) by (by rewrite <- Hiff); done]
    end. }
  split.
  - intros x. rewrite disconnect_get_agent. apply (sim_agents s n Hs).
  - intros c q Hq. unfold Sparse.get_target. rewrite (Hent c q Hq). cbv zeta.
    case_decide as E; [by rewrite E|done].
  - intros c q t Ht. cbn [Sparse.disconnect s_ports] in Ht. rewrite remove_wire_lookup in Ht.
    case_decide; [done|]. exact (sim_entry s n Hs c q t Ht).
  - cbn [Sparse.disconnect s_redex_queue s_next_id s_root s_freeport_redirects]. destruct Hs; congruence.
  - cbn [Sparse.disconnect s_redex_queue s_next_id s_root s_freeport_redirects]. destruct Hs; congruence.
  - cbn [Sparse.disconnect s_redex_queue s_next_id s_root s_freeport_redirects]. destruct Hs; congruence.
  - cbn [Sparse.disconnect s_redex_queue s_next_id s_root s_freeport_redirects]. destruct Hs; congruence.
Qed.

(** ** Removal *)

(** The sparse net with its port map replaced. *)
Definition with_entries (s : SparseNet) (ps : gmap (AgentId * PortId) PortRef) : SparseNet :=
  mkSparse (s_agents s) ps (s_redex_queue s) (s_next_id s) (s_root s) (s_freeport_redirects s).

Lemma sim_disconnect_all l s n id :
  sim s n → wf n → (∀ p, p ∈ l → valid_port n id p) →
  sim (with_entries s (foldl (Sparse.remove_wire id) (s_ports s) l)) (disconnect_all n id l).
Proof.
  revert s n. induction l as [|p l IH]; intros s n Hs Hwf Hl.
  { destruct s. exact Hs. }
  change (disconnect_all n id (p :: l)) with (disconnect_all (disconnect n (AgentPort id p)) id l).
  assert (Hv : valid_port n id p) by (apply Hl; set_solver).
  apply (IH (Sparse.disconnect s (AgentPort id p))).
  - by apply sim_disconnect.
  - by apply disconnect_wf.
  - intros q Hq. apply (valid_port_ext n); [apply disconnect_get_agent|]. apply Hl. set_solver.
Qed.

Lemma sim_remove s n id :
  sim s n → wf n → sim (Sparse.remove_agent s id) (remove_agent n id).
Proof.
  intros Hs Hwf. unfold Sparse.remove_agent. rewrite (sim_agents s n Hs).
  destruct (get_agent n id) as [a|] eqn:Ha; [|unfold remove_agent; by rewrite Ha].
  destruct (remove_agent_spec n id Hwf ltac:(by exists a)) as [W A F N _ Q R _ T].
  assert (Hd : sim (with_entries s (foldl (Sparse.remove_wire id) (s_ports s) (range_u (total_ports (symbol a)))))
    (disconnect_all n id (range_u (total_ports (symbol a))))).
  { apply sim_disconnect_all; [done..|]. intros p Hp%elem_of_range_u. by exists a. }
  assert (Hports : ∀ b q, (remove_agent n id).[b, q] =
    (disconnect_all n id (range_u (total_ports (symbol a)))).[b, q]).
  { intros b q. unfold remove_agent. rewrite Ha.
    change (foldl _ n ?l) with (disconnect_all n id l).
    by destruct (is_border_protected _ id). }
  destruct Hs as [SA ST SE SQ SN SR SF]. destruct Hd as [DA DT DE DQ DN DR DF].
  split; cbn [s_agents s_redex_queue s_next_id s_root s_freeport_redirects].
  - intros x. rewrite A. case_decide as Ex; [subst; by rewrite lookup_delete_eq|].
    by rewrite lookup_delete_ne by done.
  - intros b q Hq. rewrite Hports. by apply DT.
  - exact DE.
  - congruence.
  - congruence.
  - rewrite SR. by destruct F as (-> & _).
  - by rewrite R, SF.
Qed.

(** ** From dense to sparse *)

Lemma fold_agents (f : AgentId → option Agent) l (m : gmap AgentId Agent) id :
  (∀ a, a ∈ l → f (agent_id a) = Some a) →
  foldl (λ m a, <[agent_id a := a]> m) m l !! id =
    if decide (id ∈ agent_id <$> l) then f id else m !! id.
Proof.
  revert m. induction l as [|a l IH]; intros m Hf; cbn [foldl].
  { by rewrite decide_False by (apply not_elem_of_nil). }
  rewrite IH by (intros x Hx; apply Hf; set_solver). rewrite fmap_cons.
  destruct (decide (id ∈ agent_id <$> l)) as [H|H].
  - by rewrite decide_True by set_solver.
  - destruct (decide (agent_id a = id)) as [<-|Hne].
    + rewrite lookup_insert_eq, decide_True by set_solver. symmetry. apply Hf. set_solver.
    + rewrite lookup_insert_ne by done. by rewrite decide_False by set_solver.
Qed.

Lemma live_agents_elem n id a : get_agent n id = Some a → a ∈ live_agents n.
Proof.
  unfold get_agent, live_agents. intros H.
  destruct (agents n !! N.to_nat id) as [x|] eqn:E; [|done]. change (x = Some a) in H. subst x.
  apply list_elem_of_omap. exists (Some a). split; [|done]. by eapply list_elem_of_lookup_2.
Qed.

(** Entries read off the dense net. *)
Definition entries_of (n : Net) (m : gmap (AgentId * PortId) PortRef) : Prop :=
  ∀ id p t, m !! (id, p) = Some t → t = n.[id, p] ∧ t ≠ DISCONNECTED ∧ valid_port n id p.

Lemma sparse_agent_ports_step n a m l :
  get_agent n (agent_id a) = Some a → (∀ p, p ∈ l → p < total_ports (symbol a)) →
  entries_of n m →
  let m' := foldl (λ m p,
    match ports n !! N.to_nat (port_index (agent_id a) p) with
    | Some target => if decide (target = DISCONNECTED) then m else <[(agent_id a, p) := target]> m
    | None => m
    end) m l in
  entries_of n m' ∧ (∀ k, is_Some (m !! k) → is_Some (m' !! k)) ∧
  (∀ p, p ∈ l → n.[agent_id a, p] ≠ DISCONNECTED → is_Some (m' !! (agent_id a, p))).
Proof.
  intros Ha. revert m. induction l as [|p l IH]; intros m Hl Hm; cbn [foldl].
  { split_and!; [done|done|]. intros p Hp. by apply elem_of_nil in Hp. }
  set (m1 := match ports n !! _ with Some _ => _ | None => _ end).
  assert (Hm1 : entries_of n m1 ∧ (∀ k, is_Some (m !! k) → is_Some (m1 !! k)) ∧
    (n.[agent_id a, p] ≠ DISCONNECTED → is_Some (m1 !! (agent_id a, p)))).
  { subst m1. unfold get_target.
    destruct (ports n !! N.to_nat (port_index (agent_id a) p)) as [t|] eqn:E; [|done].
    case_decide as Et; [done|]. split_and!.
    - intros id q t'. rewrite lookup_insert_Some. intros [[[= <- <-] <-]|[_ H]]; [|by apply Hm].
      split_and!; [by unfold get_target; rewrite E|done|]. exists a. split; [done|]. apply Hl. set_solver.
    - intros k [t' Hk]. destruct (decide (k = (agent_id a, p))) as [->|].
      + by rewrite lookup_insert_eq.
      + rewrite lookup_insert_ne by done. by exists t'.
    - by rewrite lookup_insert_eq. }
  destruct Hm1 as (He & Hmono & Hp).
  destruct (IH m1) as (He' & Hmono' & Hl'); [intros q Hq; apply Hl; set_solver|done|].
  split_and!; [done|auto|]. intros q [->|Hq]%elem_of_cons Hne; auto.
Qed.

Lemma to_sparse_entries n l m :
  (∀ a, a ∈ l → get_agent n (agent_id a) = Some a) → entries_of n m →
  let m' := foldl (λ m a, sparse_agent_ports n a m) m l in
  entries_of n m' ∧ (∀ k, is_Some (m !! k) → is_Some (m' !! k)) ∧
  (∀ a p, a ∈ l → p < total_ports (symbol a) → n.[agent_id a, p] ≠ DISCONNECTED →
    is_Some (m' !! (agent_id a, p))).
Proof.
  revert m. induction l as [|a l IH]; intros m Hl Hm; cbn [foldl].
  { split_and!; [done|done|]. intros a p Ha. by apply elem_of_nil in Ha. }
  destruct (sparse_agent_ports_step n a m (range_u (total_ports (symbol a)))) as (He & Hmono & Hp);
    [apply Hl; set_solver|by intros p Hp%elem_of_range_u|done|].
  change (foldl _ m (range_u (total_ports (symbol a)))) with (sparse_agent_ports n a m) in *.
  destruct (IH (sparse_agent_ports n a m)) as (He' & Hmono' & Hl');
    [intros x Hx; apply Hl; set_solver|done|].
  split_and!; [done|auto|]. intros x p [->|Hx]%elem_of_cons Hlt Hne; [|by apply Hl'].
  apply Hmono', Hp; [by apply elem_of_range_u|done].
Qed.

Lemma to_sparse_sim n : wf n → sim (to_sparse n) n.
Proof.
  intros Hwf.
  assert (Hl : ∀ a, a ∈ live_agents n → get_agent n (agent_id a) = Some a)
    by (intros a; by apply elem_of_live_agents).
  destruct (to_sparse_entries n (live_agents n) ∅ Hl) as (He & _ & Hin).
  { intros id p t H. by rewrite lookup_empty in H. }
  change (foldl _ ∅ (live_agents n)) with (s_ports (to_sparse n)) in He, Hin.
  split; try done.
  - intros id. cbn [s_agents to_sparse]. rewrite (fold_agents (get_agent n)) by done.
    case_decide as H; [done|]. rewrite lookup_empty. destruct (get_agent n id) as [a|] eqn:E; [|done].
    exfalso. apply H. apply list_elem_of_fmap. exists a. split; [|by eapply live_agents_elem].
    by rewrite (wf_ids n Hwf id a E).
  - intros id p Hp. unfold Sparse.get_target.
    destruct (s_ports (to_sparse n) !! (id, p)) as [t|] eqn:E; cbn [from_option].
    + by destruct (He id p t E) as [-> _].
    + destruct (decide (n.[id, p] = DISCONNECTED)) as [->|Hne]; [done|].
      destruct (wf_src n Hwf id p Hp Hne) as (a & Ha & Hlt).
      pose proof (wf_ids n Hwf id a Ha) as <-.
      destruct (Hin a p (live_agents_elem n _ a Ha) Hlt Hne) as [t Ht]. congruence.
  - intros id p t Ht. destruct (He id p t Ht) as (_ & Hne & Hv). split; [by eapply valid_port_lt3|done].
Qed.

(** ** From sparse to dense *)

Record swf (s : SparseNet) : Prop := {
  sw_agent : ∀ id a, s_agents s !! id = Some a → agent_id a = id ∧ id < s_next_id s;
  sw_u32 : s_next_id s ≤ u32_MAX;
  sw_entry : ∀ id p t, s_ports s !! (id, p) = Some t →
    t ≠ DISCONNECTED ∧ ∃ a, s_agents s !! id = Some a ∧ p < total_ports (symbol a);
  sw_sym : ∀ id p b q, s_ports s !! (id, p) = Some (AgentPort b q) →
    s_ports s !! (b, q) = Some (AgentPort id p) ∧ (b, q) ≠ (id, p);
}.

Lemma max_id_bound s id a : s_agents s !! id = Some a → id ≤ Sparse.max_id s.
Proof.
  intros H%elem_of_map_to_list. unfold Sparse.max_id.
  assert (Hin : id ∈ (map_to_list (s_agents s)).*1) by (by apply (list_elem_of_fmap_2 fst _ (id, a))).
  revert Hin. generalize (map_to_list (s_agents s)).*1. intros l.
  induction l as [|x l IH]; intros Hin; [by apply elem_of_nil in Hin|]. cbn [foldr].
  apply elem_of_cons in Hin as [->|Hin]; [lia|]. specialize (IH Hin). lia.
Qed.

Lemma max_id_next s : swf s → 0 < s_next_id s → Sparse.max_id s < s_next_id s.
Proof.
  intros Hs H0. unfold Sparse.max_id.
  assert (Hall : Forall (λ x, x < s_next_id s) (map_to_list (s_agents s)).*1).
  { apply Forall_forall. intros x ([k a] & -> & Hin)%list_elem_of_fmap.
    apply elem_of_map_to_list in Hin. by apply (sw_agent s Hs k a). }
  induction Hall as [|x l Hx _ IH]; cbn [foldr]; lia.
Qed.

Lemma dense_agents_lookup (l : list (AgentId * Agent)) len id :
  (∀ e, e ∈ l → (N.to_nat e.1 < len)%nat) →
  mjoin (foldr (λ e l, <[N.to_nat e.1 := Some e.2]> l) (replicate len None) l !! N.to_nat id) =
    (list_to_map l : gmap AgentId Agent) !! id.
Proof.
  assert (Hlen : ∀ l : list (AgentId * Agent),
    length (foldr (λ e l, <[N.to_nat e.1 := Some e.2]> l) (replicate len None) l) = len).
  { induction l0 as [|e l0 IH]; cbn [foldr]; [apply length_replicate|by rewrite length_insert]. }
  induction l as [|[k a] l IH]; intros Hl; cbn [foldr list_to_map fst snd].
  - rewrite lookup_empty. destruct (replicate len None !! N.to_nat id) as [x|] eqn:E; [|done].
    by apply lookup_replicate in E as [-> _].
  - assert (Hk : (N.to_nat k < len)%nat) by (apply (Hl (k, a)); set_solver).
    destruct (decide (k = id)) as [->|Hne].
    + rewrite list_lookup_insert_eq by (by rewrite Hlen). by rewrite lookup_insert_eq.
    + rewrite list_lookup_insert_ne by lia. rewrite lookup_insert_ne by done.
      apply IH. intros e He. apply Hl. set_solver.
Qed.

Lemma dense_ports_lookup (l : list ((AgentId * PortId) * PortRef)) len id p :
  (∀ e, e ∈ l → e.1.2 < 3 ∧ (N.to_nat e.1.1 < len)%nat) → p < 3 →
  port_at (foldr (λ e l, let idx := N.to_nat (port_index e.1.1 e.1.2) in
                  if decide (idx < length l)%nat then <[idx := e.2]> l else l)
            (replicate (len * 3) DISCONNECTED) l) (N.to_nat (port_index id p)) =
    default DISCONNECTED ((list_to_map l : gmap (AgentId * PortId) PortRef) !! (id, p)).
Proof.
  intros Hl Hp.
  set (F := foldr (λ e l, let idx := N.to_nat (port_index e.1.1 e.1.2) in
                  if decide (idx < length l)%nat then <[idx := e.2]> l else l)
            (replicate (len * 3) DISCONNECTED)).
  assert (Hlen : ∀ l, length (F l) = (len * 3)%nat).
  { induction l0 as [|e l0 IH]; cbn; [apply length_replicate|].
    fold (F l0). case_decide; [by rewrite length_insert|done]. }
  induction l as [|[[k q] t] l IH].
  - cbn. unfold port_at. destruct (replicate _ _ !! _) as [x|] eqn:E; [|done].
    by apply lookup_replicate in E as [-> _].
  - change (F (((k, q), t) :: l)) with
      (let idx := N.to_nat (port_index k q) in
       if decide (idx < length (F l))%nat then <[idx := t]> (F l) else F l).
    destruct (Hl ((k, q), t)) as [Hq Hk]; [set_solver|]. cbn [fst snd] in Hq, Hk. cbv zeta.
    assert (Hidx : (N.to_nat (port_index k q) < length (F l))%nat).
    { rewrite Hlen. unfold port_index, PORTS_PER_SLOT. lia. }
    rewrite decide_True by done. rewrite port_at_insert. rewrite list_to_map_cons.
    destruct (decide ((k, q) = (id, p))) as [[= -> ->]|Hne].
    + rewrite decide_True by done. by rewrite lookup_insert_eq.
    + rewrite decide_False.
      * rewrite lookup_insert_ne by done. apply IH. intros e He. apply Hl. set_solver.
      * intros [E _]. apply Hne. destruct (port_index_inj id p k q Hp Hq) as [-> ->]; [lia|done].
Qed.

Lemma dead_slots_elem ags lo hi id :
  id ∈ Sparse.dead_slots ags lo hi ↔
    (lo ≤ N.to_nat id < hi)%nat ∧ mjoin (ags !! N.to_nat id) = None.
Proof.
  unfold Sparse.dead_slots. case_decide as H.
  - rewrite list_elem_of_fmap. setoid_rewrite list_elem_of_filter. setoid_rewrite elem_of_seq. split.
    + intros (i & -> & Hd & Hi). rewrite Nat2N.id. split; [lia|done].
    + intros [Hi Hd]. exists (N.to_nat id). rewrite N2Nat.id. split; [done|]. split; [done|lia].
  - split; [intros Hx; by apply elem_of_nil in Hx|]. lia.
Qed.

Lemma dead_slots_nodup ags lo hi : NoDup (Sparse.dead_slots ags lo hi).
Proof.
  unfold Sparse.dead_slots. case_decide; [|constructor].
  apply (NoDup_fmap_2 N.of_nat). apply NoDup_filter, NoDup_seq.
Qed.

(** The dense net that [to_dense] builds. *)
Record densified (s : SparseNet) (r : option (AgentId * AgentId)) (n : Net) : Prop := {
  dn_agents : agents n = Sparse.dense_agents s (N.to_nat (Sparse.max_id s + 1));
  dn_ports : ports n = Sparse.dense_ports s (N.to_nat (Sparse.max_id s + 1));
  dn_sim : sim s n;
  dn_free : ∀ id, id ∈ free_list n ↔
    id ≤ Sparse.max_id s ∧ get_agent n id = None ∧
    match r with Some (lo, hi) => lo ≤ id < hi | None => True end;
  dn_nodup : NoDup (free_list n);
  dn_range : id_range n = r;
}.

Lemma to_dense_ok s r :
  swf s → Sparse.max_id s < Sparse.MAX_DENSE_ARENA_SLOTS →
  match r with Some (lo, hi) => lo ≤ hi | None => True end →
  ∃ n, Sparse.to_dense s r = inl n ∧ densified s r n.
Proof.
  intros Hs Hmax Hr. unfold Sparse.to_dense.
  assert (Hbad : match r with
                 | Some (lo, hi) => if hi <? lo then Some (InvalidIdRange lo hi) else None
                 | None => None
                 end = None).
  { destruct r as [[lo hi]|]; [|done]. by destruct (N.ltb_spec hi lo); [lia|]. }
  rewrite Hbad. cbv zeta.
  destruct (N.ltb_spec Sparse.MAX_DENSE_ARENA_SLOTS (Sparse.max_id s + 1)); [lia|].
  set (len := N.to_nat (Sparse.max_id s + 1)).
  set (lohi := match r with Some (lo, hi) => (N.to_nat lo, N.to_nat hi) | None => (0%nat, len) end).
  destruct lohi as [lo hi] eqn:Elh. subst lohi.
  eexists. split; [reflexivity|].
  assert (HA : ∀ x, mjoin (Sparse.dense_agents s len !! N.to_nat x) = s_agents s !! x).
  { intros x. unfold Sparse.dense_agents. rewrite dense_agents_lookup.
    - by rewrite list_to_map_to_list.
    - intros [k a] He%elem_of_map_to_list. pose proof (max_id_bound s k a He). cbn [fst]. lia. }
  split; cbn [agents ports free_list id_range]; [done|done| | |apply dead_slots_nodup|done].
  - split; [| | |reflexivity..].
    + intros id. unfold get_agent. cbn [agents]. by rewrite HA.
    + intros id p Hp. rewrite target_port_at. cbn [ports]. unfold Sparse.dense_ports.
      rewrite dense_ports_lookup; [by rewrite list_to_map_to_list| |done].
      intros [[k q] t] He%elem_of_map_to_list. cbn [fst snd].
      destruct (sw_entry s Hs k q t He) as (_ & a & Ha & Hlt).
      pose proof (max_id_bound s k a Ha). pose proof (total_ports_bounds (symbol a)). lia.
    + intros id p t Ht. destruct (sw_entry s Hs id p t Ht) as (Hne & a & _ & Hlt).
      pose proof (total_ports_bounds (symbol a)). split; [lia|done].
  - intros id. rewrite dead_slots_elem, HA. unfold get_agent. cbn [agents]. rewrite HA.
    destruct r as [[l h]|]; injection Elh as <- <-; [|subst len]; split; intros; destruct_and?; split_and?; try done; lia.
Qed.

Lemma sim_swf s n : sim s n → wf n → swf s.
Proof.
  intros Hs Hwf.
  assert (Hent : ∀ id p t, s_ports s !! (id, p) = Some t → p < 3 ∧ n.[id, p] = t ∧ t ≠ DISCONNECTED).
  { intros id p t Ht. destruct (sim_entry s n Hs id p t Ht) as [Hp Hne]. split_and!; try done.
    rewrite <- (sim_target s n Hs) by done. unfold Sparse.get_target. by rewrite Ht. }
  split.
  - intros id a. rewrite (sim_agents s n Hs), (sim_next s n Hs). intros Ha.
    split; [by apply (wf_ids n Hwf)|]. apply live_lt_next; [done|by exists a].
  - rewrite (sim_next s n Hs). by apply wf_u32.
  - intros id p t Ht. destruct (Hent id p t Ht) as (Hp & Hd & Hne). split; [done|].
    destruct (wf_src n Hwf id p Hp) as (a & Ha & Hlt); [congruence|].
    exists a. by rewrite (sim_agents s n Hs).
  - intros id p b q Ht. destruct (Hent id p _ Ht) as (Hp & Hd & Hne).
    destruct (wf_sym n Hwf id p b q Hp Hd) as (Hv & Hbk & Hne').
    split; [|done]. rewrite (sim_lookup s n b q Hs) by (by eapply valid_port_lt3). by rewrite Hbk, decide_False.
Qed.

Lemma densified_wf s r n : swf s → 0 < s_next_id s → densified s r n → wf n.
Proof.
  intros Hs H0 [DA DP Hsim Hf Hnd _]. pose proof (max_id_next s Hs H0) as Hmax.
  assert (La : length (agents n) = N.to_nat (Sparse.max_id s + 1)).
  { rewrite DA. unfold Sparse.dense_agents. generalize (map_to_list (s_agents s)). intros l.
    induction l as [|e l IH]; cbn [foldr]; [apply length_replicate|by rewrite length_insert]. }
  assert (Lp : length (ports n) = (length (agents n) * 3)%nat).
  { rewrite La, DP. unfold Sparse.dense_ports. generalize (map_to_list (s_ports s)). intros l.
    induction l as [|e l IH]; cbn [foldr]; [apply length_replicate|].
    case_decide; [by rewrite length_insert|done]. }
  assert (Hent : ∀ id p, p < 3 → n.[id, p] ≠ DISCONNECTED → s_ports s !! (id, p) = Some n.[id, p]).
  { intros id p Hp Hne. rewrite (sim_lookup s n id p Hsim Hp). by rewrite decide_False. }
  split; [done|rewrite La, <- (sim_next s n Hsim); lia|rewrite <- (sim_next s n Hsim); apply (sw_u32 s Hs)|..].
  - intros id a. rewrite <- (sim_agents s n Hsim). intros Ha. by apply (sw_agent s Hs).
  - intros id p Hp Hne. destruct (sw_entry s Hs id p _ (Hent id p Hp Hne)) as (_ & a & Ha & Hlt).
    exists a. by rewrite <- (sim_agents s n Hsim).
  - intros id p b q Hp Ht. pose proof (Hent id p Hp ltac:(by rewrite Ht)) as He. rewrite Ht in He.
    destruct (sw_sym s Hs id p b q He) as [Hb Hne]. split; [|split; [|done]].
    + destruct (sw_entry s Hs b q _ Hb) as (_ & a & Ha & Hlt).
      exists a. by rewrite <- (sim_agents s n Hsim).
    + destruct (sim_entry s n Hsim b q _ Hb) as [Hq _].
      rewrite <- (sim_target s n Hsim) by done. unfold Sparse.get_target. by rewrite Hb.
  - done.
  - intros id Hid. apply Hf in Hid as (Hle & Hd & _). split; [done|].
    rewrite <- (sim_next s n Hsim). lia.
Qed.
