(* ===== verification/SparseSpec.v ===== *)
(** What the sparse net guarantees: it refines the dense net, and the two
    representations convert into each other without loss. *)
From S2P Require Import Prelude NetTypes NetCore NetInv Reduction ReductionInv EngineInv NetDebug.
From S2P Require Import Wiring NetSpec SparseNet SparseInv.
Local Open Scope N_scope.
Open Scope net_scope.

(** ** Refinement *)

(** The operations the two representations share. *)
Inductive NetOp : Type :=
| OpCreate (s : Symbol)
| OpConnect (a b : PortRef)
| OpDisconnect (id : AgentId) (p : PortId)
| OpRemove (id : AgentId).

Definition dense_op (n : Net) (o : NetOp) : outcome (Net * option AgentId) :=
  match o with
  | OpCreate s => '(n, id) ← create_agent n s; mret (n, Some id)
  | OpConnect a b => mret (connect n a b, None)
  | OpDisconnect id p => mret (disconnect n (AgentPort id p), None)
  | OpRemove id => mret (remove_agent n id, None)
  end.

Definition sparse_op (s : SparseNet) (o : NetOp) : outcome (SparseNet * option AgentId) :=
  match o with
  | OpCreate sym => '(s, id) ← Sparse.create_agent s sym; mret (s, Some id)
  | OpConnect a b => mret (Sparse.connect s a b, None)
  | OpDisconnect id p => mret (Sparse.disconnect s (AgentPort id p), None)
  | OpRemove id => mret (Sparse.remove_agent s id, None)
  end.

(** What a caller may ask: [connect] on unplugged ends, [disconnect] on an
    existing port; creation and removal always. *)
Definition legal (n : Net) (o : NetOp) : Prop :=
  match o with
  | OpCreate _ | OpRemove _ => True
  | OpConnect a b => free_end n a ∧ free_end n b ∧ apart a b
  | OpDisconnect id p => valid_port n id p
  end.

Lemma op_refines s n o :
  sim s n → wf n → no_recycle n → legal n o →
  match sparse_op s o, dense_op n o with
  | Done (s', i), Done (n', j) => i = j ∧ sim s' n' ∧ wf n' ∧ no_recycle n'
  | Panic, Panic => True
  | _, _ => False
  end.
Proof.
  intros Hs Hwf Hnr Hl. destruct o as [sym|a b|id p|id]; cbn [sparse_op dense_op].
  - pose proof (sim_create s n sym Hs Hwf (no_recycle_allocates n sym Hnr)) as H.
    destruct (Sparse.create_agent s sym) as [[s' i]|], (create_agent n sym) as [[n' j]|] eqn:E;
      cbn [mbind outcome_bind mret outcome_ret]; try done.
    destruct H as [-> Hs']. destruct (create_agent_spec n sym n' j Hwf E) as [W _ _ _ _ F _ _ _ _].
    split_and!; try done. by eapply no_recycle_frame.
  - destruct Hl as (Ha & Hb & Hab). cbn [mret outcome_ret].
    split_and!; [done|by apply sim_connect|by apply connect_wf|].
    eapply no_recycle_frame; [apply connect_frame|done].
  - cbn [mret outcome_ret]. split_and!; [done|by apply sim_disconnect|by apply disconnect_wf|].
    eapply no_recycle_frame; [apply disconnect_frame|done].
  - cbn [mret outcome_ret]. pose proof (sim_remove s n id Hs Hwf) as Hsim.
    destruct (get_agent n id) as [a|] eqn:E.
    + assert (Hlive : live n id) by (by exists a). destruct (remove_agent_spec n id Hwf Hlive) as [W _ F _ _ _ _ _ _].
      split_and!; [done|done|done|by eapply no_recycle_frame].
    + assert (Hdead : remove_agent n id = n) by (unfold remove_agent; by rewrite E).
      rewrite Hdead in *. by split_and!.
Qed.

Fixpoint dense_run (n : Net) (ops : list NetOp) : outcome (Net * list (option AgentId)) :=
  match ops with
  | [] => mret (n, [])
  | o :: ops => '(n, i) ← dense_op n o; '(n, is_) ← dense_run n ops; mret (n, i :: is_)
  end.

Fixpoint sparse_run (s : SparseNet) (ops : list NetOp) : outcome (SparseNet * list (option AgentId)) :=
  match ops with
  | [] => mret (s, [])
  | o :: ops => '(s, i) ← sparse_op s o; '(s, is_) ← sparse_run s ops; mret (s, i :: is_)
  end.

(** Every operation of the script is legal when it is reached. *)
Fixpoint legal_run (n : Net) (ops : list NetOp) : Prop :=
  match ops with
  | [] => True
  | o :: ops => legal n o ∧ match dense_op n o with Done (n, _) => legal_run n ops | Panic => True end
  end.

(** C36. The sparse net implements the dense net: starting from nets that
    represent the same graph, any legal script of creations, connections,
    disconnections and removals gives the same ids, panics on one side exactly
    when it panics on the other, and ends in nets that again represent the
    same graph (same agents, targets, queue, redirects, root and next id), as
    long as the dense net does not recycle ids. *)
Theorem sparse_refines_dense s n ops :
  sim s n → wf n → no_recycle n → legal_run n ops →
  match sparse_run s ops, dense_run n ops with
  | Done (s', ids), Done (n', ids') => ids = ids' ∧ sim s' n' ∧ wf n'
  | Panic, Panic => True
  | _, _ => False
  end.
Proof.
  revert s n. induction ops as [|o ops IH]; intros s n Hs Hwf Hnr Hl; cbn [sparse_run dense_run]; [done|].
  destruct Hl as [Ho Hl]. pose proof (op_refines s n o Hs Hwf Hnr Ho) as H.
  destruct (sparse_op s o) as [[s1 i]|], (dense_op n o) as [[n1 j]|]; cbn [mbind outcome_bind]; try done.
  destruct H as (-> & Hs1 & Hwf1 & Hnr1). specialize (IH s1 n1 Hs1 Hwf1 Hnr1 Hl).
  destruct (sparse_run s1 ops) as [[s2 is2]|], (dense_run n1 ops) as [[n2 js2]|];
    cbn [mbind outcome_bind mret outcome_ret]; try done.
  by destruct IH as (-> & ? & ?).
Qed.

Lemma both_done (x : outcome (SparseNet * list (option AgentId))) (y : outcome (Net * list (option AgentId))) :
  x ≠ Panic →
  match x, y with
  | Done (s', ids), Done (n', ids') => ids = ids' ∧ sim s' n' ∧ wf n'
  | Panic, Panic => True
  | _, _ => False
  end →
  ∃ s n ids, x = Done (s, ids) ∧ y = Done (n, ids) ∧ sim s n ∧ wf n.
Proof.
  destruct x as [[s ids]|], y as [[n ids']|]; try done. intros _ (-> & ? & ?). by exists s, n, ids'.
Qed.

(** A dense net in a delta round of Strategy A. *)
Definition example_round : Net := with_delta_round true new.

Lemma sparse_refines_dense_witness :
  let ops := [OpCreate Con; OpCreate Dup; OpConnect (AgentPort 0 0) (AgentPort 1 0);
              OpConnect (AgentPort 0 1) (AgentPort 1 2); OpDisconnect 0 1; OpRemove 0; OpCreate Era] in
  ∃ s n ids, sparse_run Sparse.new ops = Done (s, ids) ∧ dense_run example_round ops = Done (n, ids) ∧
    sim s n ∧ wf n.
Proof.
  intros ops.
  assert (Hsim : sim Sparse.new example_round).
  { split; try reflexivity.
    intros id p t Ht. unfold Sparse.new in Ht. cbn [s_ports] in Ht. by rewrite lookup_empty in Ht. }
  assert (Hwf : wf example_round) by (apply wf_b_sound; vm_compute; reflexivity).
  assert (Hl : legal_run example_round ops).
  { assert (Hv : ∀ m i p, valid_port_b m i p = true → valid_port m i p) by (intros; by apply valid_port_b_true).
    cbv -[valid_port free_end apart].
    repeat split; try discriminate; try (apply Hv; vm_compute; reflexivity);
      try (vm_compute; reflexivity); try (intros ? ? [= <- <-]; discriminate). }
  apply both_done; [vm_compute; discriminate|].
  exact (sparse_refines_dense Sparse.new example_round ops Hsim Hwf (conj eq_refl eq_refl) Hl).
Defined.

(** ** Conversions *)

(** [to_dense] succeeds on every well-formed sparse net whose largest id
    fits the arena cap and whose range is not inverted: the dense net
    represents the same graph, its free list is exactly the dead slots of the
    arena inside the range (each once), and it is well formed once any id has
    been issued. *)
Theorem to_dense_sound s r :
  swf s → Sparse.max_id s < Sparse.MAX_DENSE_ARENA_SLOTS →
  match r with Some (lo, hi) => lo ≤ hi | None => True end →
  ∃ n, Sparse.to_dense s r = inl n ∧ sim s n ∧ NoDup (free_list n) ∧
    (∀ id, id ∈ free_list n ↔ id ≤ Sparse.max_id s ∧ s_agents s !! id = None ∧
      match r with Some (lo, hi) => lo ≤ id < hi | None => True end) ∧
    (0 < s_next_id s → wf n).
Proof.
  intros Hs Hmax Hr. destruct (to_dense_ok s r Hs Hmax Hr) as (n & Hn & Hd).
  pose proof Hd as [_ _ Hsim Hf Hnd _]. exists n. split_and!; try done.
  - intros id. rewrite Hf. by rewrite (sim_agents s n Hsim).
  - intros H0. by eapply densified_wf.
Qed.

(** Agents 3 and 5 wired to each other, 5 to a border; ids up to 5 issued. *)
Definition example_sparse : SparseNet :=
  Sparse.connect
    (Sparse.connect (Sparse.create_agent_at (Sparse.create_agent_at Sparse.new 3 Era) 5 Con)
      (AgentPort 3 0) (AgentPort 5 0)) (AgentPort 5 1) (FreePort 9).

Lemma example_sparse_swf : swf example_sparse.
Proof.
  assert (Ha : s_agents example_sparse = {[3 := mkAgent Era 3; 5 := mkAgent Con 5]})
    by (vm_compute; reflexivity).
  assert (Hp : s_ports example_sparse =
    {[(3, 0) := AgentPort 5 0; (5, 0) := AgentPort 3 0; (5, 1) := FreePort 9]}) by (vm_compute; reflexivity).
  split.
  - rewrite Ha. intros id a H. apply lookup_insert_Some in H as [[<- <-]|[_ H]]; [done|].
    by apply lookup_singleton_Some in H as [<- <-].
  - vm_compute. discriminate.
  - rewrite Hp, Ha. intros id p t H.
    apply lookup_insert_Some in H as [[[= <- <-] <-]|[_ H]]; [split; [done|by eexists]|].
    apply lookup_insert_Some in H as [[[= <- <-] <-]|[_ H]]; [split; [done|by eexists]|].
    apply lookup_singleton_Some in H as [[= <- <-] <-]. split; [done|by eexists].
  - rewrite Hp. intros id p b q H.
    apply lookup_insert_Some in H as [[[= <- <-] [= <- <-]]|[_ H]]; [done|].
    apply lookup_insert_Some in H as [[[= <- <-] [= <- <-]]|[_ H]]; [done|].
    by apply lookup_singleton_Some in H as [[= <- <-] [=]].
Qed.

Lemma to_dense_sound_witness :
  ∃ n, Sparse.to_dense example_sparse (Some (1, 5)) = inl n ∧ wf n ∧ 4 ∈ free_list n ∧ 0 ∉ free_list n.
Proof.
  destruct (to_dense_sound example_sparse (Some (1, 5)) example_sparse_swf)
    as (n & H & _ & _ & Hf & W); [vm_compute; reflexivity|vm_compute; discriminate|].
  exists n. split; [exact H|]. split; [apply W; vm_compute; reflexivity|]. split; rewrite Hf.
  - split_and!; vm_compute; congruence.
  - intros (_ & _ & Hlo & _). by apply Hlo.
Defined.

(** [to_dense] rejects, and only rejects, an inverted range and an arena
    above the allocation cap, in that order, with the error that names the
    cause; the cap is tested on the largest live id plus one, whatever the
    range. *)
Theorem to_dense_rejects s r :
  match Sparse.to_dense s r with
  | inr e =>
      (∃ lo hi, r = Some (lo, hi) ∧ hi < lo ∧ e = InvalidIdRange lo hi) ∨
      ((∀ lo hi, r = Some (lo, hi) → lo ≤ hi) ∧
       Sparse.MAX_DENSE_ARENA_SLOTS < Sparse.max_id s + 1 ∧
       e = DenseAllocationExceedsThreshold (Sparse.max_id s + 1) Sparse.MAX_DENSE_ARENA_SLOTS
             (N.of_nat (size (s_agents s))))
  | inl _ =>
      (∀ lo hi, r = Some (lo, hi) → lo ≤ hi) ∧ Sparse.max_id s + 1 ≤ Sparse.MAX_DENSE_ARENA_SLOTS
  end.
Proof.
  unfold Sparse.to_dense. cbv zeta.
  destruct r as [[lo hi]|].
  - destruct (N.ltb_spec hi lo); [left; by exists lo, hi|].
    assert (Hr : ∀ l h, Some (lo, hi) = Some (l, h) → l ≤ h) by (intros l h [= <- <-]; done).
    destruct (N.ltb_spec Sparse.MAX_DENSE_ARENA_SLOTS (Sparse.max_id s + 1)); [by right|done].
  - destruct (N.ltb_spec Sparse.MAX_DENSE_ARENA_SLOTS (Sparse.max_id s + 1)); [by right|done].
Qed.

(** Arenas that agree slot by slot have the same agents in the same order. *)
Lemma live_agents_ext (l k : list (option Agent)) :
  (∀ i, mjoin (l !! i) = mjoin (k !! i)) → omap id l = omap id k.
Proof.
  assert (Hnil : ∀ k : list (option Agent), (∀ i, None = mjoin (k !! i)) → [] = omap id k).
  { induction k0 as [|x k0 IH]; intros H; [done|].
    pose proof (H 0%nat) as H0. cbn in H0. subst x. cbn. apply IH. intros i. exact (H (S i)). }
  revert k. induction l as [|x l IH]; intros k H.
  - apply Hnil. intros i. rewrite <- H. by rewrite lookup_nil.
  - destruct k as [|y k].
    + symmetry. apply Hnil. intros i. rewrite H. by rewrite lookup_nil.
    + pose proof (H 0%nat) as H0. cbn in H0. subst y. cbn.
      rewrite (IH k) by (intros i; exact (H (S i))). done.
Qed.

Lemma live_agents_sim n m :
  (∀ id, get_agent n id = get_agent m id) → live_agents n = live_agents m.
Proof.
  intros H. apply live_agents_ext. intros i. specialize (H (N.of_nat i)).
  unfold get_agent in H. by rewrite Nat2N.id in H.
Qed.

(** The round trip through the sparse representation is lossless: for a
    well-formed net with an issued id and ids below the cap,
    [to_sparse] followed by [to_dense(None)] yields a well-formed net with the
    same agents and targets, and the two are behaviourally equal exactly when
    the original free list was the dead slots of the compacted arena in
    ascending order. *)
Theorem sparse_round_trip n :
  wf n → 0 < next_id n → Sparse.max_id (to_sparse n) < Sparse.MAX_DENSE_ARENA_SLOTS →
  ∃ m, Sparse.to_dense (to_sparse n) None = inl m ∧ wf m ∧
    (∀ id, get_agent m id = get_agent n id) ∧ (∀ id p, p < 3 → m.[id, p] = n.[id, p]) ∧
    (is_behaviorally_equal n m = true ↔ free_list n = free_list m).
Proof.
  intros Hwf H0 Hmax. pose proof (to_sparse_sim n Hwf) as Hsim.
  pose proof (sim_swf _ _ Hsim Hwf) as Hswf.
  destruct (to_dense_ok (to_sparse n) None Hswf Hmax I) as (m & Hm & Hd).
  pose proof Hd as [_ _ Hsm _ _ _].
  assert (Ha : ∀ id, get_agent m id = get_agent n id).
  { intros id. by rewrite <- (sim_agents _ _ Hsm), (sim_agents _ _ Hsim). }
  assert (Ht : ∀ id p, p < 3 → m.[id, p] = n.[id, p]).
  { intros id p Hp. by rewrite <- (sim_target _ _ Hsm), (sim_target _ _ Hsim). }
  exists m. split_and!; [done| |done|done|].
  { eapply densified_wf; [exact Hswf|by rewrite (sim_next _ _ Hsim)|exact Hd]. }
  unfold is_behaviorally_equal. rewrite !andb_true_iff, !bool_decide_eq_true.
  rewrite <- (sim_queue _ _ Hsm), <- (sim_root _ _ Hsm), <- (sim_next _ _ Hsm), <- (sim_redirects _ _ Hsm).
  rewrite (sim_queue _ _ Hsim), (sim_root _ _ Hsim), (sim_next _ _ Hsim), (sim_redirects _ _ Hsim).
  assert (Hl : live_agents n = live_agents m) by (by apply live_agents_sim).
  assert (Hs : forallb (same_targets n m) (live_agents n) = true).
  { apply forallb_intro. intros a _. apply forallb_intro. intros p Hp%elem_of_range_u.
    apply bool_decide_true. symmetry. apply Ht. pose proof (total_ports_bounds (symbol a)). lia. }
  tauto.
Qed.

Lemma sparse_round_trip_witness :
  ∃ m, Sparse.to_dense (to_sparse (example_closed Con Dup)) None = inl m ∧ wf m ∧
    is_behaviorally_equal (example_closed Con Dup) m = true.
Proof.
  assert (Hwf : wf (example_closed Con Dup)) by (apply wf_b_sound; vm_compute; reflexivity).
  destruct (sparse_round_trip (example_closed Con Dup) Hwf) as (m & Hm & W & _ & _ & Heq);
    [vm_compute; reflexivity|vm_compute; reflexivity|].
  exists m. split; [exact Hm|]. split; [exact W|]. apply Heq.
  assert (Hf : match Sparse.to_dense (to_sparse (example_closed Con Dup)) None with
               | inl m => bool_decide (free_list (example_closed Con Dup) = free_list m) | inr _ => false
               end = true) by (vm_compute; reflexivity).
  rewrite Hm in Hf. by apply bool_decide_eq_true in Hf.
Defined.

(** The one net [to_dense] spoils: the empty net converts to a dense net
    whose free list holds id 0, which was never issued, so two successive
    creations return the same id and the second overwrites the first agent. *)
Theorem to_dense_empty_duplicates :
  wf new ∧ to_sparse new = Sparse.new ∧
  ∃ n n1 n2, Sparse.to_dense (to_sparse new) None = inl n ∧ ¬ wf n ∧
    create_agent n Con = Done (n1, 0) ∧ create_agent n1 Dup = Done (n2, 0) ∧
    get_agent n2 0 = Some (mkAgent Dup 0) ∧ count_live_agents n2 = 1%nat.
Proof.
  split; [apply wf_b_sound; vm_compute; reflexivity|]. split; [vm_compute; reflexivity|].
  set (n := match Sparse.to_dense (to_sparse new) None with inl n => n | inr _ => new end).
  set (n1 := match create_agent n Con with Done (m, _) => m | Panic => n end).
  exists n, n1, (match create_agent n1 Dup with Done (m, _) => m | Panic => n end).
  split; [vm_compute; reflexivity|]. split; [|split_and!; vm_compute; reflexivity].
  intros Hwf. assert (H : 0 < 0); [|lia].
  apply (wf_free_dead n Hwf 0). apply list_elem_of_singleton. vm_compute. reflexivity.
Qed.

(** ** Behavioural equality *)

#[export] Instance pair_le_total : Total pair_le.
Proof. intros [a b] [c d]. unfold pair_le. cbn. lia. Qed.

#[export] Instance pair_le_trans : Transitive pair_le.
Proof. intros [a b] [c d] [e f]. unfold pair_le. cbn. lia. Qed.

#[export] Instance pair_le_antisymm : AntiSymm (=) pair_le.
Proof. intros [a b] [c d]. unfold pair_le. cbn. intros H1 H2. f_equal; lia. Qed.

Lemma merge_sort_eq l k : merge_sort pair_le l = merge_sort pair_le k ↔ l ≡ₚ k.
Proof.
  split.
  - intros H. rewrite <- (merge_sort_Permutation pair_le l), H. apply merge_sort_Permutation.
  - intros H. apply (StronglySorted_unique pair_le).
    + apply (StronglySorted_merge_sort pair_le).
    + apply (StronglySorted_merge_sort pair_le).
    + by rewrite !merge_sort_Permutation.
Qed.

(** [is_behaviorally_equal] decides: same live agents, same target for
    every port of every live agent, the same queue up to order (with
    multiplicity), and equal root, next id, redirects and free list (with
    order); arena padding never matters. *)
Theorem behavioral_equality_exact n m :
  is_behaviorally_equal n m = true ↔
    live_agents n = live_agents m ∧
    (∀ a p, a ∈ live_agents n → p < total_ports (symbol a) →
      n.[agent_id a, p] = m.[agent_id a, p]) ∧
    redex_queue n ≡ₚ redex_queue m ∧ root n = root m ∧ next_id n = next_id m ∧
    freeport_redirects n = freeport_redirects m ∧ free_list n = free_list m.
Proof.
  unfold is_behaviorally_equal. rewrite !andb_true_iff, !bool_decide_eq_true, merge_sort_eq.
  assert (Hs : forallb (same_targets n m) (live_agents n) = true ↔
    (∀ a p, a ∈ live_agents n → p < total_ports (symbol a) → n.[agent_id a, p] = m.[agent_id a, p])).
  { split.
    - intros H a p Ha Hp. pose proof (forallb_elem _ _ a H Ha) as H1.
      unfold same_targets in H1.
      pose proof (forallb_elem _ _ p H1 ltac:(by apply elem_of_range_u)) as H2. cbv beta in H2.
      by apply bool_decide_eq_true in H2.
    - intros H. apply forallb_intro. intros a Ha. apply forallb_intro. intros p Hp%elem_of_range_u.
      apply bool_decide_true. by apply H. }
  rewrite Hs. tauto.
Qed.
