(* ===== verification/Compact.v ===== *)
(** The compact wire form of a partition's net (partition/compact.rs): only
    live slots travel, with the arena size needed to rebuild the dense net. *)
From S2P Require Import Prelude NetTypes NetCore.
Local Open Scope N_scope.

Inductive CompactSubnetError : Type :=
| FreeListIdOutOfBounds (id : AgentId) (arena_len : N)
| FreeListIdAboveNextId (id next_id : AgentId)
| FreeListDuplicateId (id : AgentId)
| FreeListOverlapsLiveAgent (id : AgentId).

(** [(AgentId, Agent, [PortRef; 3])]. *)
Record LiveSlot : Type := mkLiveSlot {
  slot_id : AgentId;
  slot_agent : Agent;
  slot_ports : PortRef * PortRef * PortRef;
}.

Record CompactSubnet : Type := mkCompact {
  agent_arena_len : N;
  c_live : list LiveSlot;
  c_redex_queue : list (AgentId * AgentId);
  c_next_id : AgentId;
  c_root : option PortRef;
  c_free_list : list AgentId;
}.

Module Compact.

(** The three ports of a slot; indexing panics out of range. *)
Definition slot_entry (ps : list PortRef) (idx : nat) (a : Agent) : outcome LiveSlot :=
  let base := N.to_nat (port_index (as_u32 (N.of_nat idx)) 0) in
  p0 ← unwrap (ps !! base);
  p1 ← unwrap (ps !! (base + 1)%nat);
  p2 ← unwrap (ps !! (base + 2)%nat);
  mret (mkLiveSlot (as_u32 (N.of_nat idx)) a (p0, p1, p2)).

(** The scan of the arena from index [idx]. *)
Fixpoint live_slots (ps : list PortRef) (idx : nat) (ags : list (option Agent)) : outcome (list LiveSlot) :=
  match ags with
  | [] => mret []
  | None :: ags => live_slots ps (S idx) ags
  | Some a :: ags =>
      e ← slot_entry ps idx a;
      es ← live_slots ps (S idx) ags;
      mret (e :: es)
  end.

Definition from_net (n : Net) : outcome CompactSubnet :=
  live ← live_slots (ports n) 0 (agents n);
  mret (mkCompact (as_u32 (N.of_nat (length (agents n)))) live (redex_queue n) (next_id n)
          (root n) (free_list n)).

(** [live.iter().map(|(id, _, _)| *id).collect()]. *)
Definition live_ids (c : CompactSubnet) : gset AgentId := list_to_set (slot_id <$> c_live c).

Fixpoint check_free (c : CompactSubnet) (seen : gset AgentId) (l : list AgentId)
    : option CompactSubnetError :=
  match l with
  | [] => None
  | id :: l =>
      if agent_arena_len c <=? id then Some (FreeListIdOutOfBounds id (agent_arena_len c))
      else if c_next_id c <=? id then Some (FreeListIdAboveNextId id (c_next_id c))
      else if bool_decide (id ∈ seen) then Some (FreeListDuplicateId id)
      else if bool_decide (id ∈ live_ids c) then Some (FreeListOverlapsLiveAgent id)
      else check_free c ({[id]} ∪ seen) l
  end.

(** [None] is [Ok(())]. *)
Definition validate_free_list (c : CompactSubnet) : option CompactSubnetError :=
  match c_free_list c with
  | [] => None
  | l => check_free c ∅ l
  end.

(** One live entry scattered into the arenas; ids beyond the arena are
    dropped (and only logged). *)
Definition scatter (acc : list (option Agent) * list PortRef) (e : LiveSlot)
    : list (option Agent) * list PortRef :=
  let '(ags, ps) := acc in
  let idx := N.to_nat (slot_id e) in
  if decide (idx < length ags)%nat then
    let ags := <[idx := Some (slot_agent e)]> ags in
    let base := N.to_nat (port_index (slot_id e) 0) in
    if decide (base + 3 ≤ length ps)%nat then
      let '(p0, p1, p2) := slot_ports e in
      (ags, <[(base + 2)%nat := p2]> (<[(base + 1)%nat := p1]> (<[base := p0]> ps)))
    else (ags, ps)
  else (ags, ps).

Definition into_net_unchecked (c : CompactSubnet) : Net :=
  let len := N.to_nat (agent_arena_len c) in
  let '(ags, ps) :=
    foldl scatter (replicate len None, replicate (len * 3) DISCONNECTED) (c_live c) in
  {| agents := ags;
     ports := ps;
     redex_queue := c_redex_queue c;
     next_id := c_next_id c;
     root := c_root c;
     freeport_redirects := ∅;
     free_list := c_free_list c;
     id_range := None;
     border_entries_shadow := None;
     recycle_policy := DisableUnderDelta;
     is_in_delta_round := false;
     streaming_active := false;
     debug_fields := debug_fields_init |}.

(** The [retain] of [into_net]; its closure inserts into [seen] only after
    the other tests. *)
Fixpoint retain_valid (c : CompactSubnet) (seen : gset AgentId) (l : list AgentId) : list AgentId :=
  match l with
  | [] => []
  | id :: l =>
      if (id <? agent_arena_len c) && (id <? c_next_id c) && negb (bool_decide (id ∈ live_ids c))
      then if bool_decide (id ∈ seen) then retain_valid c seen l
           else id :: retain_valid c ({[id]} ∪ seen) l
      else retain_valid c seen l
  end.

Definition with_c_free_list (l : list AgentId) (c : CompactSubnet) : CompactSubnet :=
  mkCompact (agent_arena_len c) (c_live c) (c_redex_queue c) (c_next_id c) (c_root c) l.

Definition into_net (c : CompactSubnet) : Net :=
  match validate_free_list c with
  | None => into_net_unchecked c
  | Some _ => into_net_unchecked (with_c_free_list (retain_valid c ∅ (c_free_list c)) c)
  end.

Definition try_into_net (c : CompactSubnet) : Net + CompactSubnetError :=
  match validate_free_list c with
  | Some e => inr e
  | None => inl (into_net_unchecked c)
  end.

(** The serde adapters: the (de)serializer is serde's. *)
Definition serialize_subnet_compact {R} (serialize : CompactSubnet → R) (n : Net) : outcome R :=
  serialize <$> from_net n.

Definition deserialize_subnet_compact {B} (deserialize : B → option CompactSubnet) (b : B)
    : option (Net + CompactSubnetError) :=
  try_into_net <$> deserialize b.

End Compact.
