(* ===== verification/CompactSpec.v ===== *)
(** What the compact wire form guarantees: a lossless round trip, and a
    receiver no payload can make recycle a live or duplicate id. *)
From S2P Require Import Prelude NetTypes NetCore NetInv Reduction ReductionInv EngineInv NetDebug.
From S2P Require Import Wiring NetSpec Compact.
Local Open Scope N_scope.
Open Scope net_scope.

(** ** Round trip *)

Lemma insert_app_head {A} (pre : list A) x y l : <[length pre := x]> (pre ++ y :: l) = pre ++ x :: l.
Proof. rewrite insert_app_r_alt by lia. by rewrite Nat.sub_diag. Qed.

Lemma insert_app_head_k {A} (pre : list A) k x l :
  <[(length pre + k)%nat := x]> (pre ++ l) = pre ++ <[k := x]> l.
Proof. rewrite insert_app_r_alt by lia. do 2 f_equal. lia. Qed.

(** Scattering one entry at the end of what is already rebuilt. *)
Lemma scatter_head pre_a pre_p a x y z k l :
  length pre_p = (length pre_a * 3)%nat → N.of_nat (length pre_a) ≤ u32_MAX →
  Compact.scatter (pre_a ++ None :: replicate k None, pre_p ++ DISCONNECTED :: DISCONNECTED :: DISCONNECTED :: l)
    (mkLiveSlot (N.of_nat (length pre_a)) a (x, y, z)) =
  (pre_a ++ Some a :: replicate k None, pre_p ++ x :: y :: z :: l).
Proof.
  intros Hl Hu. unfold Compact.scatter. cbn [slot_id slot_agent slot_ports].
  rewrite Nat2N.id. rewrite decide_True by (rewrite length_app; cbn; lia).
  rewrite insert_app_head.
  assert (Hb : N.to_nat (port_index (N.of_nat (length pre_a)) 0) = length pre_p).
  { unfold port_index, PORTS_PER_SLOT. lia. }
  rewrite Hb. rewrite decide_True by (rewrite length_app; cbn; lia).
  rewrite <- (Nat.add_0_r (length pre_p)) at 3. by rewrite !insert_app_head_k.
Qed.

Lemma slot_entry_head pre_p i a x y z l :
  length pre_p = (i * 3)%nat → N.of_nat i ≤ u32_MAX →
  Compact.slot_entry (pre_p ++ x :: y :: z :: l) i a = Done (mkLiveSlot (N.of_nat i) a (x, y, z)).
Proof.
  intros Hl Hu. unfold Compact.slot_entry. rewrite as_u32_small by done.
  assert (Hb : N.to_nat (port_index (N.of_nat i) 0) = length pre_p).
  { unfold port_index, PORTS_PER_SLOT. lia. }
  rewrite Hb. rewrite !lookup_app_r by lia.
  replace (length pre_p - length pre_p)%nat with 0%nat by lia.
  replace (length pre_p + 1 - length pre_p)%nat with 1%nat by lia.
  by replace (length pre_p + 2 - length pre_p)%nat with 2%nat by lia.
Qed.

Lemma scatter_live ags ps pre_a pre_p :
  length pre_p = (length pre_a * 3)%nat → length ps = (length ags * 3)%nat →
  N.of_nat (length pre_a + length ags) ≤ u32_MAX →
  (∀ j k, ags !! j = Some None → (k < 3)%nat → ps !! (j * 3 + k)%nat = Some DISCONNECTED) →
  ∃ es, Compact.live_slots (pre_p ++ ps) (length pre_a) ags = Done es ∧
    foldl Compact.scatter
      (pre_a ++ replicate (length ags) None, pre_p ++ replicate (length ags * 3) DISCONNECTED) es =
    (pre_a ++ ags, pre_p ++ ps).
Proof.
  revert ps pre_a pre_p. induction ags as [|s ags IH]; intros ps pre_a pre_p Hl Hp Hu Hd.
  { destruct ps; [|done]. exists []. by rewrite !app_nil_r. }
  destruct ps as [|x [|y [|z ps]]]; try (cbn in Hp; lia).
  destruct (IH ps (pre_a ++ [s]) (pre_p ++ [x; y; z])) as (es & He & Hf).
  - rewrite !length_app, Hl. cbn. lia.
  - cbn in Hp. lia.
  - rewrite length_app. cbn in *. lia.
  - intros j k Hj Hk. exact (Hd (S j) k Hj Hk).
  - repeat rewrite <- app_assoc in He. repeat rewrite <- app_assoc in Hf. cbn [app] in He, Hf.
    rewrite length_app, Nat.add_1_r in He.
    destruct s as [a|]; cbn [Compact.live_slots].
    + rewrite slot_entry_head by (try done; cbn in Hu; lia).
      cbn [mbind outcome_bind]. rewrite He. cbn [mbind outcome_bind].
      eexists. split; [reflexivity|]. cbn [foldl].
      change (replicate (length (Some a :: ags)) None) with (@None Agent :: replicate (length ags) None).
      change (replicate (length (Some a :: ags) * 3) DISCONNECTED) with
        (DISCONNECTED :: DISCONNECTED :: DISCONNECTED :: replicate (length ags * 3) DISCONNECTED).
      rewrite scatter_head by (try done; cbn in Hu; lia). exact Hf.
    + exists es. split; [done|].
      assert (Hx : ∀ k, (k < 3)%nat → (x :: y :: z :: ps) !! k = Some DISCONNECTED)
        by (intros k Hk; exact (Hd 0%nat k eq_refl Hk)).
      pose proof (Hx 0%nat ltac:(lia)) as [= ->]. pose proof (Hx 1%nat ltac:(lia)) as [= ->].
      pose proof (Hx 2%nat ltac:(lia)) as [= ->]. exact Hf.
Qed.

Lemma live_slots_ids ps i ags es e :
  Compact.live_slots ps i ags = Done es → e ∈ es →
  ∃ j a, ags !! j = Some (Some a) ∧ slot_id e = as_u32 (N.of_nat (i + j)) ∧ slot_agent e = a.
Proof.
  revert i es. induction ags as [|[a|] ags IH]; intros i es; cbn [Compact.live_slots].
  - intros <-%Done_inj H. by apply elem_of_nil in H.
  - intros (x & Hx & (xs & Hxs & <-%Done_inj)%outcome_bind_Done)%outcome_bind_Done He.
    apply elem_of_cons in He as [->|He].
    + exists 0%nat, a. split; [done|]. unfold Compact.slot_entry in Hx.
      apply outcome_bind_Done in Hx as (p0 & _ & (p1 & _ & (p2 & _ & <-%Done_inj)%outcome_bind_Done)%outcome_bind_Done).
      cbn. by rewrite Nat.add_0_r.
    + destruct (IH (S i) xs Hxs He) as (j & b & Hj & Hid & Hb). exists (S j), b.
      split_and!; [done| |done]. rewrite Hid. do 2 f_equal. lia.
  - intros Hes He. destruct (IH (S i) es Hes He) as (j & b & Hj & Hid & Hb). exists (S j), b.
    split_and!; [done| |done]. rewrite Hid. do 2 f_equal. lia.
Qed.

(** The conditions the receiver imposes on a free list. *)
Definition free_entry_ok (c : CompactSubnet) (id : AgentId) : Prop :=
  id < agent_arena_len c ∧ id < c_next_id c ∧ id ∉ Compact.live_ids c.

Lemma check_free_spec c seen l :
  match Compact.check_free c seen l with
  | None => NoDup l ∧ ∀ id, id ∈ l → id ∉ seen ∧ free_entry_ok c id
  | Some e => ∃ l1 id l2, l = l1 ++ id :: l2 ∧ NoDup l1 ∧
      (∀ x, x ∈ l1 → x ∉ seen ∧ free_entry_ok c x) ∧
      ((e = FreeListIdOutOfBounds id (agent_arena_len c) ∧ agent_arena_len c ≤ id) ∨
       (e = FreeListIdAboveNextId id (c_next_id c) ∧ c_next_id c ≤ id) ∨
       (e = FreeListDuplicateId id ∧ (id ∈ seen ∨ id ∈ l1)) ∨
       (e = FreeListOverlapsLiveAgent id ∧ id ∈ Compact.live_ids c))
  end.
Proof.
  assert (Hnil : ∀ (P : AgentId → Prop) x, x ∈ @nil AgentId → P x)
    by (intros P x Hx; by apply elem_of_nil in Hx).
  revert seen. induction l as [|id l IH]; intros seen; cbn [Compact.check_free].
  { split; [constructor|]. intros id. apply (Hnil (λ id, id ∉ seen ∧ free_entry_ok c id)). }
  assert (Hhere : ∀ P : Prop, P → ∃ l1 x l2, id :: l = l1 ++ x :: l2 ∧ NoDup l1 ∧
    (∀ y, y ∈ l1 → y ∉ seen ∧ free_entry_ok c y) ∧ l1 = [] ∧ x = id ∧ P).
  { intros P HP. exists [], id, l. split_and!; try done; [constructor|].
    intros y. apply (Hnil (λ y, y ∉ seen ∧ free_entry_ok c y)). }
  destruct (N.leb_spec (agent_arena_len c) id) as [H1|H1].
  { destruct (Hhere _ H1) as (l1 & x & l2 & ? & ? & ? & -> & -> & ?). exists [], id, l2. auto 10. }
  destruct (N.leb_spec (c_next_id c) id) as [H2|H2].
  { destruct (Hhere _ H2) as (l1 & x & l2 & ? & ? & ? & -> & -> & ?). exists [], id, l2. auto 10. }
  case_bool_decide as H3.
  { destruct (Hhere _ H3) as (l1 & x & l2 & ? & ? & ? & -> & -> & ?). exists [], id, l2. auto 10. }
  case_bool_decide as H4.
  { destruct (Hhere _ H4) as (l1 & x & l2 & ? & ? & ? & -> & -> & ?). exists [], id, l2. auto 10. }
  assert (Hok : id ∉ seen ∧ free_entry_ok c id) by done.
  specialize (IH ({[id]} ∪ seen)). destruct (Compact.check_free c ({[id]} ∪ seen) l) as [e|].
  - destruct IH as (l1 & x & l2 & -> & Hnd & Hl1 & He). exists (id :: l1), x, l2.
    split; [done|]. split; [|split].
    + apply NoDup_cons. split; [|done]. intros Hin. destruct (Hl1 id Hin). set_solver.
    + intros y [->|Hy]%elem_of_cons; [done|]. destruct (Hl1 y Hy). set_solver.
    + destruct He as [?|[?|[[? Hx]|?]]]; auto. right; right; left. split; [done|]. set_solver.
  - destruct IH as [Hnd Hl]. split.
    + apply NoDup_cons. split; [|done]. intros Hin. destruct (Hl id Hin). set_solver.
    + intros y [->|Hy]%elem_of_cons; [done|]. destruct (Hl y Hy). set_solver.
Qed.

Lemma validate_None c :
  Compact.validate_free_list c = None ↔ NoDup (c_free_list c) ∧ ∀ id, id ∈ c_free_list c → free_entry_ok c id.
Proof.
  assert (Hv : Compact.validate_free_list c = Compact.check_free c ∅ (c_free_list c))
    by (unfold Compact.validate_free_list; by destruct (c_free_list c)).
  rewrite Hv. pose proof (check_free_spec c ∅ (c_free_list c)) as H.
  destruct (Compact.check_free c ∅ (c_free_list c)) as [e|].
  - destruct H as (l1 & id & l2 & Hl & Hnd & Hl1 & He). split; [done|]. intros [Hn Hok]. exfalso.
    assert (Hid : free_entry_ok c id) by (apply Hok; rewrite Hl; set_solver).
    destruct Hid as (? & ? & ?). destruct He as [[_ ?]|[[_ ?]|[[_ [?|Hin]]|[_ ?]]]]; try lia; try done.
    rewrite Hl in Hn. apply NoDup_app in Hn as (_ & Hx & _). apply (Hx id Hin). set_solver.
  - split; [|done]. intros _. destruct H as [? Hl]. split; [done|]. intros id Hid. by apply Hl.
Qed.

(** The compact form of a well-formed net is valid and inflates to the net
    without its skipped fields. *)
Lemma compact_inflates n :
  wf n → (∀ id, id ∈ free_list n → (N.to_nat id < length (agents n))%nat) →
  ∃ c, Compact.from_net n = Done c ∧ Compact.validate_free_list c = None ∧ Compact.into_net_unchecked c = persisted n.
Proof.
  intros Hwf Hfr.
  assert (Hu : N.of_nat (length (agents n)) ≤ u32_MAX).
  { pose proof (wf_arena n Hwf). pose proof (wf_u32 n Hwf). lia. }
  destruct (scatter_live (agents n) (ports n) [] []) as (es & He & Hf); try done.
  { exact (wf_ports_len n Hwf). }
  { intros j k Hj Hk. assert (Hlt : (j < length (agents n))%nat) by (by eapply lookup_lt_Some).
    pose proof (dead_disconnected n (N.of_nat j) (N.of_nat k) Hwf ltac:(lia)) as Hd.
    unfold get_agent, get_target in Hd. rewrite Nat2N.id, Hj in Hd. specialize (Hd eq_refl).
    assert (Hi : N.to_nat (port_index (N.of_nat j) (N.of_nat k)) = (j * 3 + k)%nat).
    { unfold port_index, PORTS_PER_SLOT. lia. }
    rewrite Hi in Hd. destruct (lookup_lt_is_Some_2 (ports n) (j * 3 + k)%nat) as [t Ht].
    { rewrite (wf_ports_len n Hwf). lia. }
    by rewrite Ht in Hd |- *; subst t. }
  cbn [app length] in He, Hf.
  set (c := mkCompact (N.of_nat (length (agents n))) es (redex_queue n) (next_id n) (root n) (free_list n)).
  assert (Hc : Compact.from_net n = Done c).
  { unfold Compact.from_net. rewrite He. cbn [mbind outcome_bind]. by rewrite as_u32_small. }
  assert (Hv : Compact.validate_free_list c = None).
  { apply validate_None. split; [apply (wf_free_nodup n Hwf)|]. intros id Hid.
    destruct (wf_free_dead n Hwf id Hid) as [Hd Hlt]. pose proof (Hfr id Hid).
    split_and!; cbn [agent_arena_len c_next_id c]; [lia|done|].
    unfold Compact.live_ids. cbn [c_live c]. rewrite elem_of_list_to_set.
    intros (e & Heid & Hin)%list_elem_of_fmap.
    destruct (live_slots_ids _ _ _ _ e He Hin) as (j & a & Hj & Hje & _).
    assert ((j < length (agents n))%nat) by (by eapply lookup_lt_Some).
    change (0 + j)%nat with j in Hje. rewrite as_u32_small in Hje by lia. rewrite Heid, Hje in Hd.
    unfold get_agent in Hd. by rewrite Nat2N.id, Hj in Hd. }
  exists c. split; [done|]. split; [done|].
  unfold Compact.into_net_unchecked. cbn [agent_arena_len c_live c]. by rewrite Nat2N.id, Hf.
Qed.

(** C37. The wire round trip is lossless: for every well-formed net whose free
    ids lie in the arena, [from_net] returns and the validating inflator
    accepts its result; the rebuilt net has the same arena slot by slot, the
    same port array, queue, next id, root and free list (order included);
    only the run-time fields (redirects, range, round flags) are reset. *)
Theorem compact_round_trip n :
  wf n → (∀ id, id ∈ free_list n → (N.to_nat id < length (agents n))%nat) →
  ∃ c m, Compact.from_net n = Done c ∧ Compact.try_into_net c = inl m ∧ Compact.into_net c = m ∧
    agents m = agents n ∧ ports m = ports n ∧ redex_queue m = redex_queue n ∧
    next_id m = next_id n ∧ root m = root n ∧ free_list m = free_list n ∧
    freeport_redirects m = ∅ ∧ id_range m = None ∧ border_entries_shadow m = None.
Proof.
  intros Hwf Hfr. destruct (compact_inflates n Hwf Hfr) as (c & Hc & Hv & Hi). exists c, (persisted n).
  unfold Compact.try_into_net, Compact.into_net. rewrite Hv, Hi. by split_and!.
Qed.

Lemma compact_round_trip_witness :
  ∃ c m, Compact.from_net example_recycled = Done c ∧ Compact.try_into_net c = inl m ∧
    agents m = agents example_recycled ∧ free_list m = [0].
Proof.
  destruct (compact_round_trip example_recycled) as (c & m & Hc & Hm & _ & A & _ & _ & _ & _ & F & _).
  - apply wf_b_sound. vm_compute. reflexivity.
  - intros id Hid. assert (Hf : free_list example_recycled = [0]) by (vm_compute; reflexivity).
    rewrite Hf in Hid. apply list_elem_of_singleton in Hid as ->.
    apply Nat.ltb_lt. vm_compute. reflexivity.
  - exists c, m. split; [exact Hc|]. split; [exact Hm|]. split; [exact A|].
    rewrite F. vm_compute. reflexivity.
Defined.

(** ** Hostile payloads *)

(** The validating receiver is exact: [try_into_net] accepts a payload if
    and only if its free list has no duplicate and every entry is inside the
    arena, below [next_id] and not a live id; otherwise it reports the first
    entry that violates a condition, with a condition that entry violates. *)
Theorem try_into_net_exact c :
  (NoDup (c_free_list c) ∧ (∀ id, id ∈ c_free_list c → free_entry_ok c id) →
    Compact.try_into_net c = inl (Compact.into_net_unchecked c)) ∧
  (∀ e, Compact.try_into_net c = inr e → ∃ l1 id l2, c_free_list c = l1 ++ id :: l2 ∧
    NoDup l1 ∧ (∀ x, x ∈ l1 → free_entry_ok c x) ∧
    ((e = FreeListIdOutOfBounds id (agent_arena_len c) ∧ agent_arena_len c ≤ id) ∨
     (e = FreeListIdAboveNextId id (c_next_id c) ∧ c_next_id c ≤ id) ∨
     (e = FreeListDuplicateId id ∧ id ∈ l1) ∨
     (e = FreeListOverlapsLiveAgent id ∧ id ∈ Compact.live_ids c))).
Proof.
  unfold Compact.try_into_net. split.
  - intros H. by rewrite (proj2 (validate_None c) H).
  - intros e. destruct (Compact.validate_free_list c) as [e'|] eqn:E; [|done]. intros [= <-].
    assert (Hv : Compact.validate_free_list c = Compact.check_free c ∅ (c_free_list c))
      by (unfold Compact.validate_free_list; by destruct (c_free_list c)).
    rewrite Hv in E. pose proof (check_free_spec c ∅ (c_free_list c)) as H. rewrite E in H.
    destruct H as (l1 & id & l2 & Hl & Hnd & Hl1 & He). exists l1, id, l2.
    split_and!; [done|done|intros x Hx; by apply Hl1|].
    destruct He as [?|[?|[[? [?|?]]|?]]]; auto. set_solver.
Qed.

(** A hostile payload: one live agent at id 1, and a free list with an id out
    of the arena, the live id, and a duplicate. *)
Definition example_payload : CompactSubnet :=
  mkCompact 4 [mkLiveSlot 1 (mkAgent Era 1) (FreePort 7, DISCONNECTED, DISCONNECTED)] [] 3 None
    [2; 9; 1; 0; 2].

Lemma try_into_net_exact_witness :
  ∃ l1 l2, c_free_list example_payload = l1 ++ 9 :: l2 ∧ ∀ x, x ∈ l1 → free_entry_ok example_payload x.
Proof.
  destruct (proj2 (try_into_net_exact example_payload) (FreeListIdOutOfBounds 9 4))
    as (l1 & id & l2 & Hl & _ & Hok & Hc); [vm_compute; reflexivity|].
  assert (id = 9) as -> by (destruct Hc as [[[= ->] _]|[[[=] _]|[[[=] _]|[[=] _]]]]; reflexivity).
  exists l1, l2. split; [exact Hl|exact Hok].
Defined.

Lemma retain_valid_elem c seen l id :
  id ∈ Compact.retain_valid c seen l ↔ id ∈ l ∧ id ∉ seen ∧ free_entry_ok c id.
Proof.
  revert seen. induction l as [|x l IH]; intros seen; cbn [Compact.retain_valid].
  { split; [intros H; by apply elem_of_nil in H|]. intros [H _]. by apply elem_of_nil in H. }
  assert (Hok : (x <? agent_arena_len c) && (x <? c_next_id c) && negb (bool_decide (x ∈ Compact.live_ids c)) = true
    ↔ free_entry_ok c x).
  { unfold free_entry_ok. rewrite !andb_true_iff, negb_true_iff, !N.ltb_lt, bool_decide_eq_false. tauto. }
  destruct (_ && _ && _).
  - pose proof (proj1 Hok eq_refl) as Hx. case_bool_decide as Hs.
    + rewrite IH, elem_of_cons. naive_solver.
    + rewrite !elem_of_cons, IH. split.
      * intros [->|(? & ? & ?)]; [by auto|]. split_and!; [auto|set_solver|done].
      * intros ([->|Hl] & Hns & Ho); [by left|].
        destruct (decide (id = x)) as [->|Hne]; [by left|]. right. split_and!; [done|set_solver|done].
  - rewrite IH, elem_of_cons. split; [naive_solver|].
    intros ([->|?] & ? & Ho); [|by auto]. apply Hok in Ho. done.
Qed.

Lemma retain_valid_nodup c seen l : NoDup (Compact.retain_valid c seen l).
Proof.
  revert seen. induction l as [|x l IH]; intros seen; cbn [Compact.retain_valid]; [constructor|].
  destruct (_ && _ && _); [|done]. case_bool_decide; [done|].
  apply NoDup_cons. split; [|done]. rewrite retain_valid_elem. set_solver.
Qed.

(** Rebuilt agents come from live entries. *)
Lemma scatter_agents es acc i a :
  (foldl Compact.scatter acc es).1 !! i = Some (Some a) →
  acc.1 !! i = Some (Some a) ∨ ∃ e, e ∈ es ∧ N.to_nat (slot_id e) = i.
Proof.
  revert acc. induction es as [|e es IH]; intros acc; cbn [foldl]; [by left|].
  intros [H|(x & Hx & Hi)]%IH; [|right; exists x; split; [set_solver|done]].
  destruct acc as [ags ps]. unfold Compact.scatter in H.
  destruct (decide (N.to_nat (slot_id e) = i)) as [<-|Hne]; [right; exists e; split; [set_solver|done]|left].
  case_decide; [|done]. case_decide; destruct (slot_ports e) as [[p0 p1] p2];
    cbn [fst] in H |- *; by rewrite list_lookup_insert_ne in H.
Qed.

Lemma into_net_unchecked_dead c id : id ∉ Compact.live_ids c → get_agent (Compact.into_net_unchecked c) id = None.
Proof.
  intros Hni. unfold Compact.into_net_unchecked.
  destruct (foldl Compact.scatter _ (c_live c)) as [ags ps] eqn:E. unfold get_agent. cbn [agents].
  destruct (ags !! N.to_nat id) as [[a|]|] eqn:Ea; [|done..]. exfalso.
  assert (H : (foldl Compact.scatter (replicate (N.to_nat (agent_arena_len c)) None,
    replicate (N.to_nat (agent_arena_len c) * 3) DISCONNECTED) (c_live c)).1 !! N.to_nat id = Some (Some a))
    by (by rewrite E).
  apply scatter_agents in H as [H|(e & He & Hid)].
  - cbn [fst] in H. by apply lookup_replicate in H as [H _].
  - apply Hni. unfold Compact.live_ids. rewrite elem_of_list_to_set.
    apply list_elem_of_fmap. exists e. split; [lia|done].
Qed.

Lemma into_net_unchecked_free c : free_list (Compact.into_net_unchecked c) = c_free_list c.
Proof. unfold Compact.into_net_unchecked. by destruct (foldl _ _ _). Qed.

(** The sanitising receiver is safe for every payload whatever: the net
    [into_net] builds always has a sound free list (no duplicate, no live
    slot, every id in the arena and below [next_id]), so the dense validator
    accepts it; the list keeps every sound id of the payload and adds none;
    and on payloads the validator accepts it is the plain inflation. *)
Theorem into_net_sanitises c :
  let n := Compact.into_net c in
  NoDup (free_list n) ∧
  (∀ id, id ∈ free_list n ↔ id ∈ c_free_list c ∧ free_entry_ok c id) ∧
  (∀ id, id ∈ free_list n → get_agent n id = None) ∧
  validate_free_list n = None ∧
  (Compact.validate_free_list c = None → n = Compact.into_net_unchecked c).
Proof.
  assert (Hmain : NoDup (free_list (Compact.into_net c)) ∧
    (∀ id, id ∈ free_list (Compact.into_net c) ↔ id ∈ c_free_list c ∧ free_entry_ok c id) ∧
    (∀ id, id ∈ free_list (Compact.into_net c) → get_agent (Compact.into_net c) id = None)).
  { unfold Compact.into_net. destruct (Compact.validate_free_list c) as [e|] eqn:E.
    - rewrite into_net_unchecked_free. cbn [Compact.with_c_free_list c_free_list].
      split; [apply retain_valid_nodup|]. split.
      + intros id. rewrite retain_valid_elem. set_solver.
      + intros id (_ & _ & _ & _ & Hl)%retain_valid_elem. by apply into_net_unchecked_dead.
    - apply validate_None in E as [Hnd Hok]. rewrite into_net_unchecked_free.
      split; [done|]. split.
      + intros id. split; [auto|]. by intros [? _].
      + intros id Hid. apply into_net_unchecked_dead. by apply Hok. }
  destruct Hmain as (H1 & H2 & H3). cbv zeta. split_and!; try done.
  - by apply validate_free_list_exact.
  - intros H. unfold Compact.into_net. by rewrite H.
Qed.
