(* ===== verification/Partition.v ===== *)
(** The partition data shared by the split, merge and coordinator parts
    (partition/types.rs). *)
From S2P Require Import Prelude NetTypes NetCore.
Local Open Scope N_scope.

Abbreviation WorkerId := N (only parsing).

(** Declaration order and codes are part of the wire format. *)
Inductive LeaveKind : Type := AfterResult | Urgent.

#[export] Instance LeaveKind_eq_dec : EqDecision LeaveKind.
Proof. solve_decision. Defined.

Record IdRange : Type := mkIdRange { range_start : AgentId; range_end : AgentId }.

#[export] Instance IdRange_eq_dec : EqDecision IdRange.
Proof. solve_decision. Defined.

(** [saturating_sub] on [u32]. *)
Definition range_len (r : IdRange) : N := range_end r - range_start r.

Definition range_is_empty (r : IdRange) : bool := range_end r <=? range_start r.

Record Partition : Type := mkPartition {
  subnet : Net;
  worker_id : WorkerId;
  free_port_index : gmap N PortRef;
  p_id_range : IdRange;
  border_id_start : N;
  border_id_end : N;
}.

Definition empty_partition (worker_id : WorkerId) : Partition :=
  mkPartition new worker_id ∅ (mkIdRange 0 0) 0 0.

(** [n as u32]. *)
Definition agent_count (p : Partition) : N :=
  N.of_nat (count_live_agents (subnet p)) mod 4294967296.

Record PartitionPlan : Type := mkPlan {
  partitions : list Partition;
  plan_borders : gmap N (PortRef * PortRef);
  next_border_id : N;
}.

Definition plan_default : PartitionPlan := mkPlan [] ∅ 0.

Definition with_next_border_id (next_border_id : N) : PartitionPlan := mkPlan [] ∅ next_border_id.

(** [PartitionArenaTooSparse] is the source's
    [PartitionError::DenseAllocationExceedsThreshold]: [NetError] has a variant
    of that name too.  The messages carried as strings are the errors they
    print. *)
Inductive PartitionError : Type :=
| TooFewAgents (agents k : N)
| AllocateBatchExceedsCapacity (requested capacity : N)
| BorderIdSpaceExhausted (requested available : N)
| NewRangeTooSmall (partition_size range_size : N)
| PartitionArenaTooSparse (partition_index effective_arena_size live_count : N)
| InvariantViolation (e : NetError)
| UnresolvedForwardReferences (agent_id : AgentId)
| ArenaConversionFailed (e : NetError)
| InvalidNumWorkers
| InvalidStrategyParameter (name value : list N)
| StrategyReturnedInvalidWorker (worker_id num_workers : N)
| StrategyReturnedUnknownAgent (agent_id : AgentId)
| PendingConnectionExpired (agent_id : AgentId) (age budget : N).

(** [allocate_border_ids]: the new plan and the range [start..end), or the
    error, which leaves the plan as it is. *)
Definition allocate_border_ids (plan : PartitionPlan) (count : N)
    : PartitionPlan * ((N * N) + PartitionError) :=
  let available := u32_MAX - next_border_id plan in
  if available <? count then (plan, inr (BorderIdSpaceExhausted count available))
  else
    let start := next_border_id plan in
    let end_ := start + count in
    (mkPlan (partitions plan) (plan_borders plan) end_, inl (start, end_)).
