(* ===== verification/BorderGraph.v ===== *)
(** The coordinator's view of the inter-partition wires
    (merge/border_graph.rs), with the request-id codec and the allocators of
    merge/border_resolver.rs it works with. *)
From S2P Require Import Prelude NetTypes NetCore Partition.
Local Open Scope N_scope.

(** merge/helpers.rs *)
Definition is_principal_pair (a b : PortRef) : bool :=
  match a, b with AgentPort _ 0, AgentPort _ 0 => true | _, _ => false end.

Record BorderState : Type := mkBorder {
  border_id : N;
  side_a : PortRef;
  side_b : PortRef;
  worker_a : WorkerId;
  worker_b : WorkerId;
  is_redex : bool;
}.

Record BorderDelta : Type := mkDelta { d_border_id : N; new_target : PortRef }.

Record MintedAgent : Type := mkMinted { request_id : N; minted_agent_id : AgentId }.

Record AddBorderEntry : Type := mkEntry {
  e_border_id : N;
  e_side_a : PortRef;
  e_side_b : PortRef;
  e_worker_a : WorkerId;
  e_worker_b : WorkerId;
}.

Inductive PendingPortRef : Type :=
| Concrete (p : PortRef)
| Pending (commutation_id agent_slot port_slot : N).

Record PendingNewBorder : Type := mkPending {
  n_border_id : N;
  n_side_a : PendingPortRef;
  n_side_b : PendingPortRef;
  n_worker_a : WorkerId;
  n_worker_b : WorkerId;
}.

(** error.rs.  The texts are replaced by the values they are printed from;
    [CountMismatch] is the [DispatchFailed] of the final collection. *)
Inductive GridError : Type :=
| ProtocolViolation (request_id worker_id cid_low28 agent_slot : N)
| DispatchFailed (round : N) (message : list N)
| CountMismatch (round expected got : N)
| WorkerTimeout (worker_id round : N).

Record BorderGraph : Type := mkGraph {
  borders : gmap N BorderState;
  worker_borders : list (list N);
  active_redexes : gset N;
  pending_new_borders : list PendingNewBorder;
  resolved_mints : gmap (N * N) AgentId;
}.

(** ** Request ids (merge/border_resolver.rs)

    [commutation_id] is a [u64], the request id a [u32]. *)

Definition low28 : N := 268435455.

Definition encode_request_id (commutation_id agent_slot : N) : N :=
  N.lor (N.shiftl (N.land (commutation_id mod 4294967296) low28) 4 mod 4294967296)
    (N.land agent_slot 15).

Definition decode_request_id (request_id : N) : N * N :=
  (N.land (N.shiftr request_id 4) low28, N.land request_id 15).

Module Border.

Definition set_borders (b : gmap N BorderState) (a : gset N) (g : BorderGraph) : BorderGraph :=
  mkGraph b (worker_borders g) a (pending_new_borders g) (resolved_mints g).

(** [worker_borders[w].push(bid)]: indexing panics out of range. *)
Definition push_worker (w : WorkerId) (bid : N) (wb : list (list N)) : outcome (list (list N)) :=
  l ← unwrap (wb !! N.to_nat w);
  mret (<[N.to_nat w := l ++ [bid]]> wb).

(** ** Construction *)

(** The sightings of one partition, appended to those so far. *)
Definition sight_partition (m : gmap N (list (WorkerId * PortRef))) (p : Partition)
    : gmap N (list (WorkerId * PortRef)) :=
  foldl (λ m e, <[e.1 := default [] (m !! e.1) ++ [(worker_id p, e.2)]]> m) m
    (map_to_list (free_port_index p)).

Definition collect_sightings (plan : PartitionPlan) : gmap N (list (WorkerId * PortRef)) :=
  foldl sight_partition ∅ (partitions plan).

(** The two validation loops of C3. *)
Definition c3_ok (plan : PartitionPlan) (m : gmap N (list (WorkerId * PortRef))) : bool :=
  forallb (λ e, (length (default [] (m !! e.1)) =? 2)%nat) (map_to_list (plan_borders plan)) &&
  forallb (λ e, (length e.2 =? 2)%nat && bool_decide (is_Some (plan_borders plan !! e.1)))
    (map_to_list m).

(** One border from its two sightings. *)
Definition install (g : BorderGraph) (e : N * list (WorkerId * PortRef)) : outcome BorderGraph :=
  let '(bid, sights) := e in
  '(wa, pa) ← unwrap (sights !! 0%nat);
  '(wb, pb) ← unwrap (sights !! 1%nat);
  let redex := is_principal_pair pa pb in
  let state := mkBorder bid pa pb wa wb redex in
  wbs ← push_worker wa bid (worker_borders g);
  wbs ← push_worker wb bid wbs;
  mret (mkGraph (<[bid := state]> (borders g)) wbs
          (if redex then {[bid]} ∪ active_redexes g else active_redexes g)
          (pending_new_borders g) (resolved_mints g)).

Fixpoint install_all (g : BorderGraph) (l : list (N * list (WorkerId * PortRef))) : outcome BorderGraph :=
  match l with
  | [] => mret g
  | e :: l => g ← install g e; install_all g l
  end.

Definition from_partition_plan (plan : PartitionPlan) : outcome BorderGraph :=
  let m := collect_sightings plan in
  if c3_ok plan m
  then install_all (mkGraph ∅ (replicate (length (partitions plan)) []) ∅ [] ∅) (map_to_list m)
  else Panic.

(** ** Deltas *)

Definition apply_delta (w : WorkerId) (g : BorderGraph) (d : BorderDelta) : BorderGraph :=
  let bid := d_border_id d in
  match borders g !! bid with
  | None => g
  | Some state =>
      let updates_a := worker_a state =? w in
      let updates_b := worker_b state =? w in
      if negb updates_a && negb updates_b then g
      else
        let was_redex := is_redex state in
        let a := if updates_a then new_target d else side_a state in
        let b := if updates_a then side_b state else new_target d in
        if bool_decide (a = DISCONNECTED) && bool_decide (b = DISCONNECTED) then
          set_borders (delete bid (borders g))
            (if was_redex then active_redexes g ∖ {[bid]} else active_redexes g) g
        else
          let is_redex_now := is_principal_pair a b in
          let state := mkBorder (border_id state) a b (worker_a state) (worker_b state) is_redex_now in
          set_borders (<[bid := state]> (borders g))
            (match was_redex, is_redex_now with
             | false, true => {[bid]} ∪ active_redexes g
             | true, false => active_redexes g ∖ {[bid]}
             | _, _ => active_redexes g
             end) g
  end.

Definition apply_deltas (w : WorkerId) (ds : list BorderDelta) (g : BorderGraph) : BorderGraph :=
  foldl (apply_delta w) g ds.

(** ** Queries; a set's iteration order is unspecified, [elements] is one *)

Definition detect_border_redexes (g : BorderGraph) : list (N * BorderState) :=
  omap (λ bid, (λ s, (bid, s)) <$> borders g !! bid) (elements (active_redexes g)).

Definition len (g : BorderGraph) : nat := size (borders g).
Definition is_empty (g : BorderGraph) : bool := bool_decide (borders g = ∅).
Definition has_no_redexes (g : BorderGraph) : bool := bool_decide (active_redexes g = ∅).
Definition active_redex_count (g : BorderGraph) : nat := size (active_redexes g).

(** ** Removal and insertion *)

Definition remove_border (bid : N) (g : BorderGraph) : BorderGraph * option BorderState :=
  match borders g !! bid with
  | None => (g, None)
  | Some state =>
      (set_borders (delete bid (borders g))
         (if is_redex state then active_redexes g ∖ {[bid]} else active_redexes g) g, Some state)
  end.

Definition entry_state (e : AddBorderEntry) : BorderState :=
  mkBorder (e_border_id e) (e_side_a e) (e_side_b e) (e_worker_a e) (e_worker_b e)
    (is_principal_pair (e_side_a e) (e_side_b e)).

Definition add_border_state (g : BorderGraph) (e : AddBorderEntry) : outcome BorderGraph :=
  let bid := e_border_id e in
  let n_workers := N.of_nat (length (worker_borders g)) in
  if bool_decide (is_Some (borders g !! bid)) then Panic
  else if n_workers <=? e_worker_a e then Panic
  else if n_workers <=? e_worker_b e then Panic
  else
    wbs ← push_worker (e_worker_a e) bid (worker_borders g);
    wbs ← push_worker (e_worker_b e) bid wbs;
    mret (mkGraph (<[bid := entry_state e]> (borders g)) wbs
            (if is_redex (entry_state e) then {[bid]} ∪ active_redexes g else active_redexes g)
            (pending_new_borders g) (resolved_mints g)).

Fixpoint add_border_states (es : list AddBorderEntry) (g : BorderGraph) : outcome BorderGraph :=
  match es with
  | [] => mret g
  | e :: es => g ← add_border_state g e; add_border_states es g
  end.

(** Known borders are kept; workers are the placeholder 0. *)
Definition extend_one (g : BorderGraph) (e : N * (PortRef * PortRef)) : BorderGraph :=
  let '(bid, (a, b)) := e in
  if bool_decide (is_Some (borders g !! bid)) then g
  else
    let redex := is_principal_pair a b in
    set_borders (<[bid := mkBorder bid a b 0 0 redex]> (borders g))
      (if redex then {[bid]} ∪ active_redexes g else active_redexes g) g.

Definition extend_with_chunk_borders (m : gmap N (PortRef * PortRef)) (g : BorderGraph) : BorderGraph :=
  foldl extend_one g (map_to_list m).

(** ** Pending borders and minted agents *)

Definition enqueue_pending_borders (bs : list PendingNewBorder) (g : BorderGraph) : BorderGraph :=
  mkGraph (borders g) (worker_borders g) (active_redexes g) (pending_new_borders g ++ bs)
    (resolved_mints g).

(** [(commutation_id as u32) & 0x0FFF_FFFF]. *)
Definition cid_low28 (commutation_id : N) : N := N.land (commutation_id mod 4294967296) low28.

Definition pending_port_matches (port : PendingPortRef) (cid slot : N) : bool :=
  match port with
  | Pending c s _ => (cid_low28 c =? cid) && (s =? slot)
  | Concrete _ => false
  end.

Definition try_resolve_port_ref (port : PendingPortRef) (mints : gmap (N * N) AgentId) : option PortRef :=
  match port with
  | Concrete p => Some p
  | Pending c s p => (λ mid, AgentPort mid p) <$> mints !! (cid_low28 c, s)
  end.

Definition matches_outstanding (g : BorderGraph) (m : MintedAgent) : bool :=
  let '(cid, slot) := decode_request_id (request_id m) in
  existsb (λ b, pending_port_matches (n_side_a b) cid slot || pending_port_matches (n_side_b b) cid slot)
    (pending_new_borders g).

Definition record_mint (mints : gmap (N * N) AgentId) (m : MintedAgent) : gmap (N * N) AgentId :=
  <[decode_request_id (request_id m) := minted_agent_id m]> mints.

(** The entry a pending border resolves to, if both sides do. *)
Definition resolve_border (mints : gmap (N * N) AgentId) (b : PendingNewBorder) : option AddBorderEntry :=
  match try_resolve_port_ref (n_side_a b) mints, try_resolve_port_ref (n_side_b b) mints with
  | Some a, Some s => Some (mkEntry (n_border_id b) a s (n_worker_a b) (n_worker_b b))
  | _, _ => None
  end.

(** The state after the walk over the queue: promoted entries, residual
    queue, and the ids to replace. *)
Fixpoint partition_pending (bs : gmap N BorderState) (mints : gmap (N * N) AgentId)
    (l : list PendingNewBorder) : list AddBorderEntry * list PendingNewBorder * list N :=
  match l with
  | [] => ([], [], [])
  | b :: l =>
      let '(resolved, still, replace) := partition_pending bs mints l in
      match resolve_border mints b with
      | Some e =>
          (e :: resolved, still,
           if bool_decide (is_Some (bs !! n_border_id b)) then n_border_id b :: replace else replace)
      | None => (resolved, b :: still, replace)
      end
  end.

Definition register_minted_agents (w : WorkerId) (mints : list MintedAgent) (g : BorderGraph)
    : outcome (BorderGraph * (list (N * BorderState) + GridError)) :=
  match find (λ m, negb (matches_outstanding g m)) mints with
  | Some m =>
      let '(cid, slot) := decode_request_id (request_id m) in
      mret (g, inr (ProtocolViolation (request_id m) w cid slot))
  | None =>
      let cache := foldl record_mint (resolved_mints g) mints in
      let '(resolved, still, replace) := partition_pending (borders g) cache (pending_new_borders g) in
      let g := mkGraph (borders g) (worker_borders g) (active_redexes g) still cache in
      let g := foldl (λ g bid, (remove_border bid g).1) g replace in
      g ← add_border_states resolved g;
      mret (g, inl ((λ e, (e_border_id e, entry_state e)) <$> resolved))
  end.

End Border.

(** ** Allocators (merge/border_resolver.rs) *)

(** [max(keys).saturating_add(1)], 0 for an empty graph. *)
Definition border_alloc_from_graph (g : BorderGraph) : N :=
  match (map_to_list (borders g)).*1 with
  | [] => 0
  | k :: ks => (foldr N.max k ks + 1) `min` u32_MAX
  end.

Definition border_alloc_next (next : N) : outcome (N * N) :=
  if next <? u32_MAX then Done (next + 1, next) else Panic.
