(* ===== verification/BorderSpec.v ===== *)
(** What the border graph guarantees: its redex index is always exact, the
    borders follow the deltas, and minted agents finalise exactly the borders
    that waited for them. *)
From S2P Require Import Prelude NetTypes NetCore Partition BorderGraph.
Local Open Scope N_scope.

(** ** Border-id allocation *)

Fixpoint allocate_all (plan : PartitionPlan) (counts : list N) : list (N * N) :=
  match counts with
  | [] => []
  | c :: counts =>
      match allocate_border_ids plan c with
      | (plan, inl r) => r :: allocate_all plan counts
      | (plan, inr _) => allocate_all plan counts
      end
  end.

Definition in_range (r : N * N) (id : N) : Prop := r.1 ≤ id < r.2.

Lemma allocate_all_bounds plan counts r :
  next_border_id plan ≤ u32_MAX → r ∈ allocate_all plan counts → next_border_id plan ≤ r.1 ∧ r.1 ≤ r.2 ≤ u32_MAX.
Proof.
  revert plan. induction counts as [|c counts IH]; intros plan Hp Hr; cbn [allocate_all] in Hr.
  { by apply elem_of_nil in Hr. }
  unfold allocate_border_ids in Hr.
  destruct (N.ltb_spec (u32_MAX - next_border_id plan) c) as [H|H]; [by apply IH|].
  apply elem_of_cons in Hr as [->|Hr]; [cbn; lia|].
  apply IH in Hr; cbn [next_border_id] in *; lia.
Qed.

(** Border ids are never handed out twice: however many ranges
    [allocate_border_ids] grants, interleaved with refused requests, each id
    lies in at most one of them, no range reaches the [DISCONNECTED] sentinel
    [u32::MAX], and none overlaps the ids below the initial cursor. *)
Theorem allocate_border_ids_disjoint plan counts i j r s id :
  next_border_id plan ≤ u32_MAX →
  allocate_all plan counts !! i = Some r → allocate_all plan counts !! j = Some s →
  in_range r id → next_border_id plan ≤ id < u32_MAX ∧ (in_range s id → i = j).
Proof.
  intros Hp. revert plan i j Hp. induction counts as [|c counts IH]; intros plan i j Hp Hi Hj Hr.
  { cbn in Hi. by rewrite lookup_nil in Hi. }
  pose proof (allocate_all_bounds plan (c :: counts) r Hp (list_elem_of_lookup_2 _ _ _ Hi)) as Hb.
  split; [unfold in_range in Hr; lia|]. intros Hs.
  cbn [allocate_all] in Hi, Hj. unfold allocate_border_ids in Hi, Hj.
  destruct (N.ltb_spec (u32_MAX - next_border_id plan) c) as [H|H].
  { by apply (IH plan i j). }
  set (plan' := mkPlan _ _ _) in *. assert (Hp' : next_border_id plan' ≤ u32_MAX) by (cbn; lia).
  assert (Hlater : ∀ k t, allocate_all plan' counts !! k = Some t → next_border_id plan + c ≤ t.1).
  { intros k t Ht. exact (proj1 (allocate_all_bounds plan' counts t Hp' (list_elem_of_lookup_2 _ _ _ Ht))). }
  unfold in_range in *.
  destruct i as [|i], j as [|j]; cbn in Hi, Hj; [done| | |].
  - injection Hi as <-. apply Hlater in Hj. cbn in Hr. lia.
  - injection Hj as <-. apply Hlater in Hi. cbn in Hs. lia.
  - f_equal. by apply (IH plan' i j).
Qed.

Lemma allocate_border_ids_disjoint_witness :
  let plan := with_next_border_id 100 in
  allocate_all plan [5; 4294967295; 7] = [(100, 105); (105, 112)] ∧ 100 ≤ 106 < u32_MAX.
Proof.
  split; [vm_compute; reflexivity|].
  refine (proj1 (allocate_border_ids_disjoint (with_next_border_id 100) [5; 4294967295; 7] 1 0
    (105, 112) (100, 105) 106 _ _ _ _)); vm_compute; repeat split; congruence.
Defined.

(** ** Request ids *)

Lemma lor_shift4 a b : b < 2 ^ 4 → N.lor (N.shiftl a 4) b = a * 2 ^ 4 + b.
Proof.
  intros Hb.
  assert (Hd : N.land (N.shiftl a 4) b = 0).
  { apply N.bits_inj_0. intros i. rewrite N.land_spec. apply andb_false_iff.
    destruct (N.lt_ge_cases i 4) as [Hi|Hi]; [left; by apply N.shiftl_spec_low|right].
    destruct (N.eq_dec b 0) as [->|Hne]; [apply N.bits_0|].
    apply N.bits_above_log2. apply N.lt_le_trans with 4; [|done]. apply N.log2_lt_pow2; lia. }
  by rewrite <- N.lxor_lor, <- N.add_nocarry_lxor, N.shiftl_mul_pow2 by done.
Qed.

Lemma land_low28 x : N.land x low28 = x mod 2 ^ 28.
Proof. apply (N.land_ones x 28). Qed.

Lemma land_low4 x : N.land x 15 = x mod 2 ^ 4.
Proof. apply (N.land_ones x 4). Qed.

(** The mint correlation code is lossless on the documented envelope and
    total on the wire: decoding an encoded pair with a commutation id below
    2^28 and a slot below 16 gives the pair back, and encoding what any
    [u32] decodes to gives that [u32] back. *)
Theorem request_id_codec :
  (∀ c s, c < 2 ^ 28 → s < 16 →
    encode_request_id c s ≤ u32_MAX ∧ decode_request_id (encode_request_id c s) = (c, s)) ∧
  (∀ r, r ≤ u32_MAX →
    encode_request_id (decode_request_id r).1 (decode_request_id r).2 = r).
Proof.
  split.
  - intros c s Hc Hs. unfold encode_request_id, decode_request_id.
    rewrite !land_low28, !land_low4.
    rewrite (N.mod_small c), (N.mod_small c), (N.mod_small s), N.shiftl_mul_pow2 by lia.
    rewrite (N.mod_small (c * 2 ^ 4)), <- N.shiftl_mul_pow2, lor_shift4 by lia.
    rewrite N.shiftr_div_pow2. split; [unfold u32_MAX; lia|].
    rewrite (N.add_comm (c * 2 ^ 4)), N.div_add, N.Div0.mod_add by lia.
    rewrite (N.div_small s), (N.mod_small s), N.add_0_l, N.mod_small by lia. done.
  - intros r Hr. unfold u32_MAX in Hr. unfold encode_request_id, decode_request_id. cbn [fst snd].
    rewrite !land_low28, !land_low4, N.shiftr_div_pow2.
    pose proof (N.div_mod r (2 ^ 4) ltac:(lia)). pose proof (N.mod_lt r (2 ^ 4) ltac:(lia)).
    set (q := r / 2 ^ 4) in *. set (m := r mod 2 ^ 4) in *. assert (q < 2 ^ 28) by lia.
    rewrite !(N.mod_small q), (N.mod_small m), N.shiftl_mul_pow2 by lia.
    rewrite (N.mod_small (q * 2 ^ 4)), <- N.shiftl_mul_pow2, lor_shift4 by lia. lia.
Qed.

(** ** The redex index *)

(** Every border knows its own id and whether its ends are both principal,
    and the index holds exactly the borders that say so. *)
Record gwf (g : BorderGraph) : Prop := {
  gw_border : ∀ bid st, borders g !! bid = Some st →
    border_id st = bid ∧ is_redex st = is_principal_pair (side_a st) (side_b st);
  gw_active : ∀ bid, bid ∈ active_redexes g ↔ ∃ st, borders g !! bid = Some st ∧ is_redex st = true;
}.

(** Storing a border and correcting the index for it. *)
Lemma gwf_store g g' bid st :
  gwf g → border_id st = bid → is_redex st = is_principal_pair (side_a st) (side_b st) →
  borders g' = <[bid := st]> (borders g) →
  (∀ x, x ∈ active_redexes g' ↔ if decide (x = bid) then is_redex st = true else x ∈ active_redexes g) →
  gwf g'.
Proof.
  intros [Hb Ha] Hid Hr HB HA. split.
  - intros x s. rewrite HB, lookup_insert_Some. intros [[<- <-]|[_ H]]; [done|by apply Hb].
  - intros x. rewrite HA, HB. case_decide as E.
    + subst x. rewrite lookup_insert_eq. naive_solver.
    + rewrite lookup_insert_ne by done. apply Ha.
Qed.

Lemma gwf_forget g g' bid :
  gwf g → borders g' = delete bid (borders g) →
  (∀ x, x ∈ active_redexes g' ↔ x ≠ bid ∧ x ∈ active_redexes g) → gwf g'.
Proof.
  intros [Hb Ha] HB HA. split.
  - intros x s. rewrite HB, lookup_delete_Some. intros [_ H]. by apply Hb.
  - intros x. rewrite HA, HB, Ha. setoid_rewrite lookup_delete_Some. naive_solver.
Qed.

(** A border's own index entry. *)
Lemma gwf_index g bid st :
  gwf g → borders g !! bid = Some st → bid ∈ active_redexes g ↔ is_redex st = true.
Proof. intros Hg Hst. rewrite (gw_active g Hg). rewrite Hst. naive_solver. Qed.

Lemma gwf_unknown g bid : gwf g → borders g !! bid = None → bid ∉ active_redexes g.
Proof. intros Hg Hn. rewrite (gw_active g Hg), Hn. naive_solver. Qed.

Lemma apply_delta_gwf w g d : gwf g → gwf (Border.apply_delta w g d).
Proof.
  intros Hg. unfold Border.apply_delta. set (bid := d_border_id d).
  destruct (borders g !! bid) as [st|] eqn:Est; [|done].
  destruct (negb _ && negb _); [done|].
  set (a := if worker_a st =? w then _ else _). set (b := if worker_a st =? w then _ else _).
  destruct (gw_border g Hg bid st Est) as [Hid Hr]. pose proof (gwf_index g bid st Hg Est) as Hix.
  destruct (bool_decide (a = DISCONNECTED) && bool_decide (b = DISCONNECTED)).
  - apply (gwf_forget g _ bid); [done|done|]. intros x. cbn [active_redexes Border.set_borders].
    destruct (is_redex st) eqn:Er; [set_solver|].
    split; [|by intros [_ ?]]. intros Hx. split; [|done]. intros ->. by apply Hix in Hx.
  - eapply (gwf_store g _ bid (mkBorder (border_id st) a b (worker_a st) (worker_b st) (is_principal_pair a b)));
      [done|done|done|done|].
    intros x. cbn [active_redexes Border.set_borders is_redex].
    destruct (is_redex st) eqn:Er, (is_principal_pair a b) eqn:En; case_decide as Ex;
      try (subst x); try set_solver.
Qed.

Lemma apply_deltas_gwf w ds g : gwf g → gwf (Border.apply_deltas w ds g).
Proof.
  unfold Border.apply_deltas. revert g. induction ds as [|d ds IH]; intros g Hg; [done|].
  cbn [foldl]. by apply IH, apply_delta_gwf.
Qed.

Lemma remove_border_gwf bid g : gwf g → gwf (Border.remove_border bid g).1.
Proof.
  intros Hg. unfold Border.remove_border. destruct (borders g !! bid) as [st|] eqn:Est; [|done].
  pose proof (gwf_index g bid st Hg Est) as Hix.
  apply (gwf_forget g _ bid); [done|done|]. intros x. cbn [active_redexes Border.set_borders fst].
  destruct (is_redex st) eqn:Er; [set_solver|].
  split; [|by intros [_ ?]]. intros Hx. split; [|done]. intros ->. by apply Hix in Hx.
Qed.

(** Storing a border under an id that was unknown. *)
Lemma gwf_insert_new g bid st wbs p m :
  gwf g → borders g !! bid = None → border_id st = bid →
  is_redex st = is_principal_pair (side_a st) (side_b st) →
  gwf (mkGraph (<[bid := st]> (borders g)) wbs
        (if is_redex st then {[bid]} ∪ active_redexes g else active_redexes g) p m).
Proof.
  intros Hg Hn Hid Hr. pose proof (gwf_unknown g bid Hg Hn).
  eapply (gwf_store g _ bid st); [done|done|done|done|]. intros x. cbn [active_redexes].
  destruct (is_redex st); case_decide; try (subst x); set_solver.
Qed.

Lemma add_border_state_spec g e g' :
  Border.add_border_state g e = Done g' →
  borders g !! e_border_id e = None ∧
  borders g' = <[e_border_id e := Border.entry_state e]> (borders g) ∧
  (gwf g → gwf g') ∧ length (worker_borders g') = length (worker_borders g) ∧
  pending_new_borders g' = pending_new_borders g ∧ resolved_mints g' = resolved_mints g.
Proof.
  unfold Border.add_border_state. case_bool_decide as Hs; [done|].
  apply eq_None_not_Some in Hs.
  destruct (_ <=? e_worker_a e); [done|]. destruct (_ <=? e_worker_b e); [done|].
  assert (Hpush : ∀ w b wb wb', Border.push_worker w b wb = Done wb' → length wb' = length wb).
  { intros w b wb wb' (l & _ & <-%Done_inj)%outcome_bind_Done. apply length_insert. }
  intros (w1 & H1 & (w2 & H2 & <-%Done_inj)%outcome_bind_Done)%outcome_bind_Done.
  cbn [borders worker_borders pending_new_borders resolved_mints].
  split_and!; try done; [intros Hg; by apply gwf_insert_new|].
  by rewrite (Hpush _ _ _ _ H2), (Hpush _ _ _ _ H1).
Qed.

Lemma add_border_states_gwf es g g' : gwf g → Border.add_border_states es g = Done g' → gwf g'.
Proof.
  revert g. induction es as [|e es IH]; intros g Hg; cbn [Border.add_border_states].
  { by intros <-%Done_inj. }
  intros (g1 & H1 & H2)%outcome_bind_Done.
  apply add_border_state_spec in H1 as (_ & _ & H1 & _). apply (IH g1); auto.
Qed.

Lemma extend_gwf m g : gwf g → gwf (Border.extend_with_chunk_borders m g).
Proof.
  unfold Border.extend_with_chunk_borders. generalize (map_to_list m). intros l. revert g.
  induction l as [|[bid [a b]] l IH]; intros g Hg; [done|]. cbn [foldl]. apply IH.
  unfold Border.extend_one. case_bool_decide as Hs; [done|].
  apply eq_None_not_Some in Hs. by apply gwf_insert_new.
Qed.

Lemma install_gwf g e g' : gwf g → borders g !! e.1 = None → Border.install g e = Done g' → gwf g'.
Proof.
  intros Hg Hn. destruct e as [bid s]. unfold Border.install.
  intros ([wa pa] & _ & H)%outcome_bind_Done. revert H.
  intros ([wb pb] & _ & H)%outcome_bind_Done. revert H.
  intros (w1 & _ & (w2 & _ & <-%Done_inj)%outcome_bind_Done)%outcome_bind_Done.
  by apply (gwf_insert_new g bid (mkBorder bid pa pb wa wb (is_principal_pair pa pb))).
Qed.

Lemma register_gwf w mints g g' r :
  gwf g → Border.register_minted_agents w mints g = Done (g', r) → gwf g'.
Proof.
  intros Hg. unfold Border.register_minted_agents.
  destruct (find _ mints) as [m|].
  { destruct (decode_request_id (request_id m)). intros H%Done_inj. by injection H as <- _. }
  destruct (Border.partition_pending _ _ _) as [[resolved still] replace].
  set (g1 := foldl _ _ replace). assert (Hg1 : gwf g1).
  { subst g1. set (g0 := mkGraph _ _ _ _ _). assert (Hg0 : gwf g0) by (by destruct Hg).
    generalize dependent g0. induction replace as [|b l IH]; intros g0 Hg0; [done|].
    cbn [foldl]. apply IH, remove_border_gwf, Hg0. }
  intros (g2 & H2 & H)%outcome_bind_Done. apply Done_inj in H. injection H as <- _.
  by eapply add_border_states_gwf.
Qed.

(** ** Construction *)

(** The sightings of a border, in partition order. *)
Definition sights (ps : list Partition) (bid : N) : list (WorkerId * PortRef) :=
  omap (λ p, (λ port, (worker_id p, port)) <$> free_port_index p !! bid) ps.

Lemma sight_fold w (l : list (N * PortRef)) (m : gmap N (list (WorkerId * PortRef))) bid :
  NoDup l.*1 →
  foldl (λ m e, <[e.1 := default [] (m !! e.1) ++ [(w, e.2)]]> m) m l !! bid =
    match (list_to_map l : gmap N PortRef) !! bid with
    | Some port => Some (default [] (m !! bid) ++ [(w, port)])
    | None => m !! bid
    end.
Proof.
  revert m. induction l as [|[k v] l IH]; intros m Hnd; cbn [foldl].
  { by rewrite list_to_map_nil, lookup_empty. }
  cbn in Hnd. apply NoDup_cons in Hnd as [Hk Hnd]. rewrite IH by done.
  rewrite list_to_map_cons. cbn [fst snd].
  destruct (decide (k = bid)) as [->|Hne].
  - rewrite lookup_insert_eq. rewrite (not_elem_of_list_to_map_1 (M := gmap N) l bid) by done.
    by rewrite lookup_insert_eq.
  - rewrite !lookup_insert_ne by done. done.
Qed.

Lemma sight_partition_lookup m p bid :
  Border.sight_partition m p !! bid =
    match free_port_index p !! bid with
    | Some port => Some (default [] (m !! bid) ++ [(worker_id p, port)])
    | None => m !! bid
    end.
Proof.
  unfold Border.sight_partition. rewrite sight_fold by apply NoDup_fst_map_to_list.
  by rewrite list_to_map_to_list.
Qed.

Lemma collect_lookup plan bid :
  Border.collect_sightings plan !! bid =
    match sights (partitions plan) bid with [] => None | l => Some l end.
Proof.
  unfold Border.collect_sightings.
  assert (Hgen : ∀ ps m, foldl Border.sight_partition m ps !! bid =
    match sights ps bid with [] => m !! bid | l => Some (default [] (m !! bid) ++ l) end).
  { induction ps as [|p ps IH]; intros m; [done|]. cbn [foldl]. rewrite IH, sight_partition_lookup.
    unfold sights. cbn [omap list_omap]. destruct (free_port_index p !! bid) as [port|]; cbn [fmap option_fmap option_map].
    - destruct (omap _ ps) as [|x l]; [done|]. cbn. by rewrite <- app_assoc.
    - done. }
  rewrite Hgen. destruct (sights _ _); [by rewrite lookup_empty|done].
Qed.

(** C3: every declared border is seen exactly twice, every seen one is
    declared. *)
Definition c3 (plan : PartitionPlan) : Prop :=
  (∀ bid, is_Some (plan_borders plan !! bid) → length (sights (partitions plan) bid) = 2%nat) ∧
  (∀ bid, sights (partitions plan) bid ≠ [] →
    length (sights (partitions plan) bid) = 2%nat ∧ is_Some (plan_borders plan !! bid)).

Lemma c3_ok_true plan : Border.c3_ok plan (Border.collect_sightings plan) = true ↔ c3 plan.
Proof.
  unfold Border.c3_ok, c3. rewrite andb_true_iff, !forallb_forall.
  assert (Hd : ∀ bid, default [] (Border.collect_sightings plan !! bid) = sights (partitions plan) bid).
  { intros bid. rewrite collect_lookup. by destruct (sights _ _). }
  split; intros [H1 H2]; split.
  - intros bid [v Hv]. rewrite <- Hd. apply Nat.eqb_eq, (H1 (bid, v)).
    by apply list_elem_of_In, elem_of_map_to_list.
  - intros bid Hne. specialize (H2 (bid, sights (partitions plan) bid)).
    rewrite andb_true_iff, bool_decide_eq_true, Nat.eqb_eq in H2. apply H2.
    apply list_elem_of_In, elem_of_map_to_list. rewrite collect_lookup. by destruct (sights _ _).
  - intros [bid v] Hin%list_elem_of_In%elem_of_map_to_list. cbn [fst]. rewrite Hd.
    apply Nat.eqb_eq, H1. by exists v.
  - intros [bid v] Hin%list_elem_of_In%elem_of_map_to_list. rewrite collect_lookup in Hin. cbn [fst snd].
    destruct (H2 bid) as [Hl Hs]; [by destruct (sights _ _)|].
    assert (sights (partitions plan) bid = v) as <- by (destruct (sights _ _); by simplify_eq).
    by rewrite andb_true_iff, bool_decide_eq_true, Nat.eqb_eq.
Qed.

Definition workers_dense (plan : PartitionPlan) : Prop :=
  ∀ p, p ∈ partitions plan → (N.to_nat (worker_id p) < length (partitions plan))%nat.

Lemma install_total g bid wa pa wb pb :
  (N.to_nat wa < length (worker_borders g))%nat → (N.to_nat wb < length (worker_borders g))%nat →
  ∃ g', Border.install g (bid, [(wa, pa); (wb, pb)]) = Done g' ∧
    borders g' = <[bid := mkBorder bid pa pb wa wb (is_principal_pair pa pb)]> (borders g) ∧
    length (worker_borders g') = length (worker_borders g).
Proof.
  intros Ha Hb. unfold Border.install. cbn [lookup list_lookup unwrap mbind outcome_bind].
  assert (Hpush : ∀ w wbs, (N.to_nat w < length wbs)%nat →
    ∃ wbs', Border.push_worker w bid wbs = Done wbs' ∧ length wbs' = length wbs).
  { intros w wbs Hw. unfold Border.push_worker. destruct (lookup_lt_is_Some_2 wbs _ Hw) as [l ->].
    cbn. eexists. split; [reflexivity|]. apply length_insert. }
  destruct (Hpush wa (worker_borders g) Ha) as (w1 & -> & H1). cbn [mbind outcome_bind].
  destruct (Hpush wb w1 ltac:(lia)) as (w2 & -> & H2). cbn [mbind outcome_bind mret outcome_ret].
  eexists. split; [reflexivity|]. cbn. split; [done|lia].
Qed.

Lemma install_all_spec l g :
  gwf g → NoDup l.*1 → (∀ e, e ∈ l → borders g !! e.1 = None) →
  (∀ e, e ∈ l → ∃ wa pa wb pb, e.2 = [(wa, pa); (wb, pb)] ∧
    (N.to_nat wa < length (worker_borders g))%nat ∧ (N.to_nat wb < length (worker_borders g))%nat) →
  ∃ g', Border.install_all g l = Done g' ∧ gwf g' ∧
    (∀ bid, borders g' !! bid =
      match (list_to_map l : gmap N (list (WorkerId * PortRef))) !! bid with
      | Some [(wa, pa); (wb, pb)] => Some (mkBorder bid pa pb wa wb (is_principal_pair pa pb))
      | _ => borders g !! bid
      end).
Proof.
  revert g. induction l as [|[k v] l IH]; intros g Hg Hnd Hnone Hl; cbn [Border.install_all].
  { exists g. split; [done|]. split; [done|]. intros bid. by rewrite list_to_map_nil, lookup_empty. }
  cbn in Hnd. apply NoDup_cons in Hnd as [Hk Hnd].
  destruct (Hl (k, v)) as (wa & pa & wb & pb & Hv & Hwa & Hwb); [set_solver|]. cbn in Hv. subst v.
  destruct (install_total g k wa pa wb pb Hwa Hwb) as (g1 & H1 & HB & Hlen).
  rewrite H1. cbn [mbind outcome_bind].
  destruct (IH g1) as (g' & H' & Hg' & HB'); [|done| | |].
  - apply (install_gwf g (k, [(wa, pa); (wb, pb)]) g1 Hg); [apply (Hnone (k, _)); set_solver|done].
  - intros e He. rewrite HB. rewrite lookup_insert_ne; [apply Hnone; set_solver|].
    intros E. apply Hk. rewrite E. by apply list_elem_of_fmap_2.
  - intros e He. destruct (Hl e) as (wa' & pa' & wb' & pb' & Hev & ? & ?); [set_solver|].
    exists wa', pa', wb', pb'. by rewrite Hlen.
  - exists g'. split; [done|]. split; [done|]. intros bid. rewrite HB', list_to_map_cons. cbn [fst snd].
    destruct (decide (k = bid)) as [->|Hne].
    + rewrite lookup_insert_eq. rewrite (not_elem_of_list_to_map_1 (M := gmap N) l bid) by done.
      by rewrite HB, lookup_insert_eq.
    + rewrite !lookup_insert_ne by done. rewrite HB. by rewrite lookup_insert_ne by done.
Qed.

Lemma sights_worker ps bid w port : (w, port) ∈ sights ps bid → ∃ p, p ∈ ps ∧ worker_id p = w.
Proof.
  intros (p & Hp & Hs)%list_elem_of_omap. exists p. split; [done|].
  destruct (free_port_index p !! bid); [|done]. by injection Hs.
Qed.

(** [from_partition_plan] builds the graph the plan describes: it returns
    when the plan satisfies C3 (each declared border has exactly two
    sightings, each sighted border is declared) and worker ids are dense, it
    panics when C3 fails, and the graph has, for each border, the two
    sightings in partition order as its sides with the principal-pair flag of
    those sides, no other border, and an exact redex index. *)
Theorem from_partition_plan_sound plan :
  (¬ c3 plan → Border.from_partition_plan plan = Panic) ∧
  (c3 plan → workers_dense plan → ∃ g, Border.from_partition_plan plan = Done g ∧ gwf g ∧
    (∀ bid, borders g !! bid =
      match sights (partitions plan) bid with
      | [(wa, pa); (wb, pb)] => Some (mkBorder bid pa pb wa wb (is_principal_pair pa pb))
      | _ => None
      end) ∧
    (∀ bid, is_Some (borders g !! bid) ↔ is_Some (plan_borders plan !! bid))).
Proof.
  unfold Border.from_partition_plan. split.
  - intros Hn. destruct (Border.c3_ok plan _) eqn:E; [|done]. by apply c3_ok_true in E.
  - intros Hc Hw. rewrite (proj2 (c3_ok_true plan) Hc).
    set (g0 := mkGraph ∅ _ ∅ [] ∅). set (m := Border.collect_sightings plan).
    assert (Hpair : ∀ bid l, m !! bid = Some l → l = sights (partitions plan) bid ∧
      ∃ x y, sights (partitions plan) bid = [x; y]).
    { intros bid l Hl. unfold m in Hl. rewrite collect_lookup in Hl.
      destruct (sights (partitions plan) bid) as [|x s] eqn:E; [done|]. injection Hl as <-.
      split; [done|]. destruct (proj2 Hc bid) as [Hlen _]; [by rewrite E|]. rewrite E in Hlen.
      destruct s as [|y [|]]; try (cbn in Hlen; lia). by exists x, y. }
    destruct (install_all_spec (map_to_list m) g0) as (g & Hg & Hgw & HB).
    + split; cbn [borders active_redexes g0].
      * intros bid st H. by rewrite lookup_empty in H.
      * intros bid. split; [set_solver|]. intros (st & H & _). by rewrite lookup_empty in H.
    + apply NoDup_fst_map_to_list.
    + intros e _. apply lookup_empty.
    + intros [bid l] He%elem_of_map_to_list. destruct (Hpair bid l He) as (-> & [wa pa] & [wb pb] & Hs).
      exists wa, pa, wb, pb. split; [done|]. cbn [worker_borders g0]. rewrite length_replicate.
      destruct (sights_worker (partitions plan) bid wa pa) as (p & Hp & <-); [rewrite Hs; set_solver|].
      destruct (sights_worker (partitions plan) bid wb pb) as (q & Hq & <-); [rewrite Hs; set_solver|].
      split; by apply Hw.
    + exists g. split; [done|]. split; [done|].
      assert (HB' : ∀ bid, borders g !! bid =
        match sights (partitions plan) bid with
        | [(wa, pa); (wb, pb)] => Some (mkBorder bid pa pb wa wb (is_principal_pair pa pb))
        | _ => None
        end).
      { intros bid. rewrite HB, list_to_map_to_list. cbn [borders g0]. rewrite lookup_empty.
        destruct (m !! bid) as [l|] eqn:El.
        - destruct (Hpair bid l El) as (-> & [wa pa] & [wb pb] & ->). done.
        - unfold m in El. rewrite collect_lookup in El. by destruct (sights _ _). }
      split; [done|]. intros bid. rewrite HB'. split.
      * intros [st Hst]. apply (proj2 Hc bid). intros E. by rewrite E in Hst.
      * intros Hs. pose proof (proj1 Hc bid Hs) as Hlen.
        destruct (sights (partitions plan) bid) as [|[wa pa] [|[wb pb] [|]]]; try (cbn in Hlen; lia). by eexists.
Qed.

(** Two partitions joined by border 4, principal to principal, and border 6,
    auxiliary to principal. *)
Definition example_plan : PartitionPlan :=
  mkPlan
    [mkPartition new 0 {[4 := AgentPort 1 0; 6 := AgentPort 1 1]} (mkIdRange 0 10) 4 8;
     mkPartition new 1 {[4 := AgentPort 11 0; 6 := AgentPort 12 0]} (mkIdRange 10 20) 4 8]
    {[4 := (AgentPort 1 0, AgentPort 11 0); 6 := (AgentPort 1 1, AgentPort 12 0)]} 8.

Lemma example_plan_ok : c3 example_plan ∧ workers_dense example_plan.
Proof.
  split; [apply c3_ok_true; vm_compute; reflexivity|].
  intros p Hp. unfold example_plan in Hp. cbn [partitions] in Hp.
  rewrite !elem_of_cons in Hp. destruct Hp as [->|[->|Hp]]; [cbn; lia|cbn; lia|by apply elem_of_nil in Hp].
Qed.

Lemma from_partition_plan_sound_witness :
  ∃ g, Border.from_partition_plan example_plan = Done g ∧ gwf g ∧
    borders g !! 4 = Some (mkBorder 4 (AgentPort 1 0) (AgentPort 11 0) 0 1 true).
Proof.
  destruct example_plan_ok as [Hc Hw].
  destruct (proj2 (from_partition_plan_sound example_plan) Hc Hw) as (g & Hg & Hgw & HB & _).
  exists g. split; [exact Hg|]. split; [exact Hgw|]. rewrite HB. vm_compute. reflexivity.
Defined.

(** ** Runs of the coordinator's primitives *)

Inductive BorderOp : Type :=
| OpDeltas (w : WorkerId) (ds : list BorderDelta)
| OpRemoveBorder (bid : N)
| OpAdd (es : list AddBorderEntry)
| OpExtend (m : gmap N (PortRef * PortRef))
| OpEnqueue (bs : list PendingNewBorder)
| OpRegister (w : WorkerId) (mints : list MintedAgent).

Definition border_op (g : BorderGraph) (o : BorderOp) : outcome BorderGraph :=
  match o with
  | OpDeltas w ds => mret (Border.apply_deltas w ds g)
  | OpRemoveBorder bid => mret (Border.remove_border bid g).1
  | OpAdd es => Border.add_border_states es g
  | OpExtend m => mret (Border.extend_with_chunk_borders m g)
  | OpEnqueue bs => mret (Border.enqueue_pending_borders bs g)
  | OpRegister w mints => '(g, _) ← Border.register_minted_agents w mints g; mret g
  end.

Fixpoint border_run (g : BorderGraph) (ops : list BorderOp) : outcome BorderGraph :=
  match ops with
  | [] => mret g
  | o :: ops => g ← border_op g o; border_run g ops
  end.

Lemma border_op_gwf g o g' : gwf g → border_op g o = Done g' → gwf g'.
Proof.
  intros Hg. destruct o as [w ds|bid|es|m|bs|w mints]; cbn [border_op].
  - intros <-%Done_inj. by apply apply_deltas_gwf.
  - intros <-%Done_inj. by apply remove_border_gwf.
  - by apply add_border_states_gwf.
  - intros <-%Done_inj. by apply extend_gwf.
  - intros <-%Done_inj. by destruct Hg.
  - intros ([g1 r] & H & <-%Done_inj)%outcome_bind_Done. by eapply register_gwf.
Qed.

Lemma border_run_gwf ops g g' : gwf g → border_run g ops = Done g' → gwf g'.
Proof.
  revert g. induction ops as [|o ops IH]; intros g Hg; cbn [border_run].
  { by intros <-%Done_inj. }
  intros (g1 & H1 & H2)%outcome_bind_Done. apply (IH g1); [|done]. by eapply border_op_gwf.
Qed.

Lemma elem_of_detect g bid st :
  gwf g → (bid, st) ∈ Border.detect_border_redexes g ↔
    borders g !! bid = Some st ∧ is_principal_pair (side_a st) (side_b st) = true.
Proof.
  intros Hg. unfold Border.detect_border_redexes. rewrite list_elem_of_omap.
  setoid_rewrite elem_of_elements. split.
  - intros (x & Hx & H). destruct (borders g !! x) as [s|] eqn:E; [|done]. injection H as <- <-.
    split; [done|]. apply (gwf_index g x s Hg E) in Hx.
    by rewrite <- (proj2 (gw_border g Hg x s E)).
  - intros [Hst Hp]. exists bid. rewrite Hst. split; [|done].
    apply (gwf_index g bid st Hg Hst). by rewrite (proj2 (gw_border g Hg bid st Hst)).
Qed.

(** C38. The incremental redex index is exact at all times: after any sequence
    of delta batches, removals, insertions, streaming extensions, enqueues
    and mint registrations on a graph built from a plan,
    [detect_border_redexes] lists exactly the live borders whose two current
    sides are both principal ports, each once, so [has_no_redexes] (the BSP
    loop's termination test) answers true exactly when there is none. *)
Theorem border_index_exact plan g0 ops g :
  Border.from_partition_plan plan = Done g0 → c3 plan → workers_dense plan →
  border_run g0 ops = Done g →
  (∀ bid st, (bid, st) ∈ Border.detect_border_redexes g ↔
    borders g !! bid = Some st ∧ is_principal_pair (side_a st) (side_b st) = true) ∧
  NoDup (Border.detect_border_redexes g).*1 ∧
  (Border.has_no_redexes g = true ↔
    ∀ bid st, borders g !! bid = Some st → is_principal_pair (side_a st) (side_b st) = false).
Proof.
  intros H0 Hc Hw Hrun.
  destruct (proj2 (from_partition_plan_sound plan) Hc Hw) as (g1 & H1 & Hg0 & _).
  rewrite H0 in H1. apply Done_inj in H1 as <-.
  pose proof (border_run_gwf ops g0 g Hg0 Hrun) as Hg. split_and!.
  - intros bid st. by apply elem_of_detect.
  - unfold Border.detect_border_redexes. generalize (NoDup_elements (active_redexes g)).
    generalize (elements (active_redexes g)). intros l. induction l as [|x l IH]; intros Hnd; [constructor|].
    apply NoDup_cons in Hnd as [Hx Hnd]. cbn [omap list_omap].
    destruct (borders g !! x) as [s|]; cbn [fmap option_fmap option_map]; [|by apply IH].
    cbn. apply NoDup_cons. split; [|by apply IH].
    intros ([y s'] & Hy & (z & Hz & Hs)%list_elem_of_omap)%list_elem_of_fmap. cbn in Hy. subst y.
    destruct (borders g !! z); [|done]. injection Hs as -> _. done.
  - unfold Border.has_no_redexes. rewrite bool_decide_eq_true. split.
    + intros He bid st Hst. apply not_true_is_false. intros Hp.
      apply (not_elem_of_empty (C := gset N) bid). rewrite <- He.
      apply (gwf_index g bid st Hg Hst). by rewrite (proj2 (gw_border g Hg bid st Hst)).
    + intros Hall. apply set_eq. intros bid. split; [|set_solver]. intros Hin.
      apply (gw_active g Hg) in Hin as (st & Hst & Hr).
      rewrite (proj2 (gw_border g Hg bid st Hst)), (Hall bid st Hst) in Hr. done.
Qed.

Lemma border_index_exact_witness :
  ∃ g0 g, Border.from_partition_plan example_plan = Done g0 ∧
    border_run g0 [OpDeltas 0 [mkDelta 4 DISCONNECTED; mkDelta 6 (AgentPort 3 0)];
                   OpDeltas 1 [mkDelta 4 DISCONNECTED]; OpRemoveBorder 9] = Done g ∧
    ∀ bid st, (bid, st) ∈ Border.detect_border_redexes g ↔
      borders g !! bid = Some st ∧ is_principal_pair (side_a st) (side_b st) = true.
Proof.
  destruct example_plan_ok as [Hc Hw].
  destruct (proj2 (from_partition_plan_sound example_plan) Hc Hw) as (g0 & H0 & _).
  set (ops := [OpDeltas 0 [mkDelta 4 DISCONNECTED; mkDelta 6 (AgentPort 3 0)];
               OpDeltas 1 [mkDelta 4 DISCONNECTED]; OpRemoveBorder 9]).
  exists g0, ((Border.remove_border 9 (Border.apply_deltas 1 [mkDelta 4 DISCONNECTED]
    (Border.apply_deltas 0 [mkDelta 4 DISCONNECTED; mkDelta 6 (AgentPort 3 0)] g0))).1).
  split; [exact H0|]. split; [reflexivity|].
  exact (proj1 (border_index_exact example_plan g0 ops _ H0 Hc Hw eq_refl)).
Defined.

(** ** Deltas *)

(** A delta moves exactly the reporting worker's side: an unknown border
    or a worker that owns neither side changes nothing; when both sides end
    up disconnected the border dies; otherwise the border keeps its id, its
    workers and its other side. No other border changes. *)
Theorem apply_delta_exact w g d :
  let g' := Border.apply_delta w g d in
  (∀ bid, bid ≠ d_border_id d → borders g' !! bid = borders g !! bid) ∧
  borders g' !! d_border_id d =
    match borders g !! d_border_id d with
    | None => None
    | Some st =>
        if negb (worker_a st =? w) && negb (worker_b st =? w) then Some st
        else
          let a := if worker_a st =? w then new_target d else side_a st in
          let b := if worker_a st =? w then side_b st else new_target d in
          if decide (a = DISCONNECTED ∧ b = DISCONNECTED) then None
          else Some (mkBorder (border_id st) a b (worker_a st) (worker_b st) (is_principal_pair a b))
    end.
Proof.
  cbv zeta. unfold Border.apply_delta. set (bid0 := d_border_id d).
  destruct (borders g !! bid0) as [st|] eqn:Est; [|by rewrite Est].
  destruct (negb _ && negb _); [by rewrite Est|].
  set (a := if worker_a st =? w then _ else _). set (b := if worker_a st =? w then _ else _).
  destruct (decide (a = DISCONNECTED ∧ b = DISCONNECTED)) as [[Ea Eb]|Hne].
  - rewrite !bool_decide_true by done. cbn [andb borders Border.set_borders]. split.
    + intros bid Hb. by rewrite lookup_delete_ne.
    + by rewrite lookup_delete_eq.
  - assert (bool_decide (a = DISCONNECTED) && bool_decide (b = DISCONNECTED) = false) as ->.
    { apply andb_false_iff. destruct (decide (a = DISCONNECTED)); [|left; by apply bool_decide_false].
      right. apply bool_decide_false. tauto. }
    cbn [borders Border.set_borders]. split.
    + intros bid Hb. by rewrite lookup_insert_ne.
    + by rewrite lookup_insert_eq.
Qed.

(** ** Minted agents *)

Lemma partition_pending_spec bs mints l :
  Border.partition_pending bs mints l =
    (omap (Border.resolve_border mints) l,
     filter (λ b, Border.resolve_border mints b = None) l,
     n_border_id <$> filter (λ b, is_Some (Border.resolve_border mints b) ∧ is_Some (bs !! n_border_id b)) l).
Proof.
  induction l as [|b l IH]; [done|]. cbn [Border.partition_pending]. rewrite IH.
  cbn [omap list_omap]. destruct (Border.resolve_border mints b) as [e|] eqn:E.
  - rewrite (filter_cons_False (λ b, Border.resolve_border mints b = None)) by congruence.
    case_bool_decide as Hs.
    + rewrite filter_cons_True by (rewrite E; split; [by eexists|done]). done.
    + rewrite filter_cons_False by (rewrite E; naive_solver). done.
  - rewrite filter_cons_True by done.
    rewrite filter_cons_False by (rewrite E; intros [[? ?] _]; done). done.
Qed.

Lemma resolve_border_id mints b e : Border.resolve_border mints b = Some e →
  e_border_id e = n_border_id b ∧ e_worker_a e = n_worker_a b ∧ e_worker_b e = n_worker_b b.
Proof.
  unfold Border.resolve_border. destruct (Border.try_resolve_port_ref _ _); [|done].
  destruct (Border.try_resolve_port_ref _ _); [|done]. by intros [= <-].
Qed.

Lemma remove_all_borders l g bid :
  borders (foldl (λ g b, (Border.remove_border b g).1) g l) !! bid =
    if decide (bid ∈ l) then None else borders g !! bid.
Proof.
  revert g. induction l as [|b l IH]; intros g; cbn [foldl].
  { by rewrite decide_False by (apply not_elem_of_nil). }
  rewrite IH. unfold Border.remove_border. destruct (borders g !! b) as [st|] eqn:E; cbn [fst borders Border.set_borders].
  - destruct (decide (bid ∈ l)) as [H|H]; [by rewrite decide_True by set_solver|].
    destruct (decide (bid = b)) as [->|Hne].
    + by rewrite lookup_delete_eq, decide_True by set_solver.
    + by rewrite lookup_delete_ne, decide_False by set_solver.
  - destruct (decide (bid ∈ l)) as [H|H]; [by rewrite decide_True by set_solver|].
    destruct (decide (bid = b)) as [->|Hne]; [by rewrite decide_True by set_solver|].
    by rewrite decide_False by set_solver.
Qed.

Lemma remove_all_frame l g :
  let g' := foldl (λ g b, (Border.remove_border b g).1) g l in
  worker_borders g' = worker_borders g ∧ pending_new_borders g' = pending_new_borders g ∧
  resolved_mints g' = resolved_mints g.
Proof.
  revert g. induction l as [|b l IH]; intros g; cbn [foldl]; [done|].
  destruct (IH (Border.remove_border b g).1) as (-> & -> & ->).
  unfold Border.remove_border. by destruct (borders g !! b).
Qed.

Lemma add_border_states_total es g :
  NoDup (e_border_id <$> es) → (∀ e, e ∈ es → borders g !! e_border_id e = None) →
  (∀ e, e ∈ es → (N.to_nat (e_worker_a e) < length (worker_borders g))%nat ∧
                 (N.to_nat (e_worker_b e) < length (worker_borders g))%nat) →
  ∃ g', Border.add_border_states es g = Done g' ∧
    pending_new_borders g' = pending_new_borders g ∧ resolved_mints g' = resolved_mints g ∧
    length (worker_borders g') = length (worker_borders g) ∧
    (∀ e, e ∈ es → borders g' !! e_border_id e = Some (Border.entry_state e)) ∧
    (∀ bid, bid ∉ e_border_id <$> es → borders g' !! bid = borders g !! bid).
Proof.
  revert g. induction es as [|e es IH]; intros g Hnd Hnone Hw; cbn [Border.add_border_states].
  { exists g. split_and!; try done. intros e He. by apply elem_of_nil in He. }
  rewrite fmap_cons in Hnd. apply NoDup_cons in Hnd as [Hni Hnd].
  assert (H1 : ∃ g1, Border.add_border_state g e = Done g1).
  { destruct (Hw e) as [Ha Hb]; [set_solver|]. unfold Border.add_border_state.
    rewrite bool_decide_false by (rewrite (Hnone e) by set_solver; intros [? ?]; done).
    destruct (N.leb_spec (N.of_nat (length (worker_borders g))) (e_worker_a e)); [lia|].
    destruct (N.leb_spec (N.of_nat (length (worker_borders g))) (e_worker_b e)); [lia|].
    unfold Border.push_worker. destruct (lookup_lt_is_Some_2 _ _ Ha) as [l1 ->]. cbn [unwrap mbind outcome_bind mret outcome_ret].
    destruct (lookup_lt_is_Some_2 (<[N.to_nat (e_worker_a e) := l1 ++ [e_border_id e]]> (worker_borders g))
      (N.to_nat (e_worker_b e))) as [l2 ->]; [by rewrite length_insert|].
    cbn [unwrap mbind outcome_bind mret outcome_ret]. by eexists. }
  destruct H1 as (g1 & H1). rewrite H1. cbn [mbind outcome_bind].
  destruct (add_border_state_spec g e g1 H1) as (_ & HB & _ & Hlen & Hp & Hm).
  destruct (IH g1 Hnd) as (g' & H' & P' & M' & L' & Hin & Hout).
  - intros x Hx. rewrite HB, lookup_insert_ne; [apply Hnone; set_solver|].
    intros E. apply Hni. rewrite E. by apply list_elem_of_fmap_2.
  - intros x Hx. rewrite Hlen. apply Hw. set_solver.
  - exists g'. split; [done|]. do 3 (split; [congruence|]). split.
    + intros x [->|Hx]%elem_of_cons; [|by apply Hin]. rewrite Hout by done. by rewrite HB, lookup_insert_eq.
    + intros bid Hb. rewrite fmap_cons in Hb. rewrite Hout by set_solver.
      rewrite HB, lookup_insert_ne by set_solver. done.
Qed.

(** A batch whose mints are all expected. *)
Lemma register_total w mints g :
  let cache := foldl Border.record_mint (resolved_mints g) mints in
  let promoted := omap (Border.resolve_border cache) (pending_new_borders g) in
  find (λ m, negb (Border.matches_outstanding g m)) mints = None →
  NoDup (e_border_id <$> promoted) →
  (∀ b, b ∈ pending_new_borders g → (N.to_nat (n_worker_a b) < length (worker_borders g))%nat ∧
                                    (N.to_nat (n_worker_b b) < length (worker_borders g))%nat) →
  ∃ g', Border.register_minted_agents w mints g =
      Done (g', inl ((λ e, (e_border_id e, Border.entry_state e)) <$> promoted)) ∧
    pending_new_borders g' = filter (λ b, Border.resolve_border cache b = None) (pending_new_borders g) ∧
    resolved_mints g' = cache ∧ length (worker_borders g') = length (worker_borders g) ∧
    (∀ e, e ∈ promoted → borders g' !! e_border_id e = Some (Border.entry_state e)) ∧
    (∀ bid, bid ∉ e_border_id <$> promoted → borders g' !! bid = borders g !! bid).
Proof.
  intros cache promoted Hf Hnd Hw. unfold Border.register_minted_agents. rewrite Hf.
  fold cache. rewrite partition_pending_spec.
  fold promoted. set (still := filter _ _). set (replace := n_border_id <$> _).
  set (g0 := mkGraph _ _ _ still cache).
  destruct (remove_all_frame replace g0) as (WB & PB & RB).
  assert (Hpro : ∀ e, e ∈ promoted → ∃ b, b ∈ pending_new_borders g ∧ Border.resolve_border cache b = Some e)
    by (intros e He; by apply list_elem_of_omap in He).
  assert (Hrep : ∀ bid, bid ∈ replace → bid ∈ e_border_id <$> promoted).
  { intros bid (b & -> & Hb)%list_elem_of_fmap. apply list_elem_of_filter in Hb as [[[e He] _] Hb].
    apply list_elem_of_fmap. exists e. destruct (resolve_border_id cache b e He) as [<- _].
    split; [done|]. apply list_elem_of_omap. by exists b. }
  destruct (add_border_states_total promoted (foldl (λ g b, (Border.remove_border b g).1) g0 replace) Hnd)
    as (g' & Hg' & P' & M' & L' & Hin & Hout).
  + intros e He. rewrite remove_all_borders. case_decide as Hd; [done|].
    destruct (Hpro e He) as (b & Hb & Hres). destruct (resolve_border_id cache b e Hres) as (Hid & _).
    rewrite Hid in *. cbn [borders g0]. apply eq_None_not_Some. intros Hs. apply Hd.
    apply list_elem_of_fmap. exists b. split; [done|]. apply list_elem_of_filter. split; [|done].
    split; [by eexists|done].
  + intros e He. rewrite WB. cbn [worker_borders g0].
    destruct (Hpro e He) as (b & Hb & Hres).
    destruct (resolve_border_id cache b e Hres) as (_ & -> & ->). by apply Hw.
  + exists g'. rewrite Hg'. cbn [mbind outcome_bind mret outcome_ret]. split_and!; try done.
    * rewrite P', PB. done.
    * by rewrite M', RB.
    * by rewrite L', WB.
    * intros bid Hb. rewrite Hout by done. rewrite remove_all_borders.
      rewrite decide_False by (intros Hr; by apply Hb, Hrep). done.
Qed.

(** [register_minted_agents] is all or nothing. A batch with a mint that
    no outstanding pending port asks for changes nothing and reports the first
    such mint with its decoded pair. Otherwise, when the borders that become
    resolved have distinct ids and known workers, it returns: exactly the
    pending borders with both sides resolved under the updated mint cache are
    promoted, in queue order, each replacing any live border of its id; the
    rest stay queued in order; every other border is untouched. *)
Theorem register_minted_agents_exact w mints g :
  (∀ m, find (λ m, negb (Border.matches_outstanding g m)) mints = Some m →
    Border.register_minted_agents w mints g =
      Done (g, inr (ProtocolViolation (request_id m) w
        (decode_request_id (request_id m)).1 (decode_request_id (request_id m)).2))) ∧
  (find (λ m, negb (Border.matches_outstanding g m)) mints = None →
   let cache := foldl Border.record_mint (resolved_mints g) mints in
   let promoted := omap (Border.resolve_border cache) (pending_new_borders g) in
   NoDup (e_border_id <$> promoted) →
   (∀ b, b ∈ pending_new_borders g → (N.to_nat (n_worker_a b) < length (worker_borders g))%nat ∧
                                     (N.to_nat (n_worker_b b) < length (worker_borders g))%nat) →
   ∃ g', Border.register_minted_agents w mints g =
       Done (g', inl ((λ e, (e_border_id e, Border.entry_state e)) <$> promoted)) ∧
     pending_new_borders g' = filter (λ b, Border.resolve_border cache b = None) (pending_new_borders g) ∧
     resolved_mints g' = cache ∧
     (∀ e, e ∈ promoted → borders g' !! e_border_id e = Some (Border.entry_state e)) ∧
     (∀ bid, bid ∉ e_border_id <$> promoted → borders g' !! bid = borders g !! bid)).
Proof.
  split.
  - intros m Hm. unfold Border.register_minted_agents. rewrite Hm. by destruct (decode_request_id (request_id m)).
  - intros Hf cache promoted Hnd Hw. destruct (register_total w mints g Hf Hnd Hw) as (g' & H & P & M & _ & Hin & Hout).
    by exists g'.
Qed.

(** One border waiting for slot 0 of commutation 3, another for slot 1. *)
Definition example_pending : BorderGraph :=
  mkGraph {[7 := mkBorder 7 (AgentPort 1 1) (AgentPort 9 0) 0 1 false]} [[7]; [7]] ∅
    [mkPending 7 (Pending 3 0 0) (Concrete (AgentPort 9 0)) 0 1;
     mkPending 8 (Pending 3 1 0) (Concrete (AgentPort 9 1)) 0 1] ∅.

Lemma register_minted_agents_exact_witness :
  ∃ g', Border.register_minted_agents 0 [mkMinted (encode_request_id 3 0) 5] example_pending =
      Done (g', inl [(7, mkBorder 7 (AgentPort 5 0) (AgentPort 9 0) 0 1 true)]) ∧
    pending_new_borders g' = [mkPending 8 (Pending 3 1 0) (Concrete (AgentPort 9 1)) 0 1] ∧
    borders g' !! 7 = Some (mkBorder 7 (AgentPort 5 0) (AgentPort 9 0) 0 1 true).
Proof.
  destruct (proj2 (register_minted_agents_exact 0 [mkMinted (encode_request_id 3 0) 5] example_pending))
    as (g' & H & P & _ & Hin & _).
  - vm_compute. reflexivity.
  - vm_compute. apply NoDup_singleton.
  - intros b Hb. unfold example_pending in Hb. cbn [pending_new_borders] in Hb.
    rewrite !elem_of_cons in Hb. destruct Hb as [->|[->|Hb]]; [cbn; lia|cbn; lia|by apply elem_of_nil in Hb].
  - exists g'. split; [rewrite H; vm_compute; reflexivity|]. split; [rewrite P; vm_compute; reflexivity|].
    apply (Hin (mkEntry 7 (AgentPort 5 0) (AgentPort 9 0) 0 1)). vm_compute. left.
Defined.
