(* ===== verification/Split.v ===== *)
(** The split of a net into partitions (partition/split.rs, strategy.rs and
    helpers.rs; PartitionConfig of partition/types.rs). *)
From S2P Require Import Prelude NetTypes NetCore SparseNet Partition.
Local Open Scope N_scope.

(** ** Strategies *)

Abbreviation Allocation := (gmap AgentId WorkerId) (only parsing).

(** The trait: one operation, which may panic. *)
Class PartitionStrategy : Type := allocate : Net → N → outcome Allocation.

(** Indices of the occupied slots, [i as AgentId]. *)
Definition arena_ids (n : Net) : list AgentId :=
  concat (imap (λ i slot, match slot with Some _ => [as_u32 (N.of_nat i)] | None => [] end) (agents n)).

(** [total.div_ceil(n)]; the caller excludes [n = 0]. *)
Definition div_ceil (total n : N) : N := (total + n - 1) `div` n.

(** [ContiguousIdStrategy]. *)
Definition contiguous_allocate (n : Net) (num_workers : N) : outcome Allocation :=
  let ids := merge_sort N.le (arena_ids n) in
  let total := N.of_nat (length ids) in
  if total =? 0 then Done ∅
  else if num_workers =? 0 then Panic
  else
    let chunk_size := div_ceil total num_workers in
    Done (foldl (λ m e, <[e.2 := e.1]> m) ∅
            (imap (λ i id, (as_u32 (N.of_nat i `div` chunk_size), id)) ids)).

#[export] Instance ContiguousIdStrategy : PartitionStrategy := contiguous_allocate.

(** ** Id ranges *)

Definition max_freeport_id (n : Net) : option N :=
  foldl (λ m r,
    match r with
    | FreePort id =>
        if decide (r = DISCONNECTED) then m
        else Some (match m with Some current => current `max` id | None => id end)
    | AgentPort _ _ => m
    end) None (ports n).

Definition chunk_size (base_next_id : N) : N := 100000 `max` (base_next_id * 10).

(** Range [i] of [num_workers], in [u64] clamped to [u32]. *)
Definition id_range_at (num_workers base_next_id i : N) : IdRange :=
  let chunk := chunk_size base_next_id in
  let start_64 := wrap64 (base_next_id + wrap64 (i * chunk)) in
  let end_64 :=
    if i =? num_workers - 1 then u32_MAX
    else wrap64 (base_next_id + wrap64 ((i + 1) * chunk)) in
  mkIdRange (start_64 `min` (u32_MAX - 1)) (end_64 `min` u32_MAX).

Definition compute_id_ranges (num_workers base_next_id : N) : outcome (list IdRange) :=
  if 0 <? num_workers then Done (id_range_at num_workers base_next_id <$> range_u num_workers)
  else Panic.

(** A [BTreeSet] iterates in ascending order. *)
Definition ascending (s : gset WorkerId) : list WorkerId := merge_sort N.le (elements s).

Definition partition_index_of (worker_id : WorkerId) (active_workers : gset WorkerId)
    (hybrid_mode : bool) : option N :=
  if hybrid_mode && (worker_id =? 0) then Some 0
  else
    '(i, _) ← list_find (λ id, id = worker_id) (ascending active_workers);
    Some (as_u32 (as_u32 (N.of_nat i) + if hybrid_mode then 1 else 0)).

(** Only [config.hybrid_coordinator] is read of the grid configuration. *)
Definition compute_round_id_ranges (hybrid_coordinator : bool) (active_workers : gset WorkerId)
    (base_next_id : N) : outcome (gmap WorkerId IdRange) :=
  let offset := if hybrid_coordinator then 1 else 0 in
  let k_eff := as_u32 (as_u32 (N.of_nat (size active_workers)) + offset) in
  if k_eff =? 0 then Done ∅
  else
    ranges ← compute_id_ranges k_eff base_next_id;
    m ← (if hybrid_coordinator then r ← unwrap (ranges !! 0%nat); mret {[0 := r]} else mret ∅);
    fold_outcome (λ m e,
      r ← unwrap (ranges !! (e.1 + N.to_nat offset)%nat); mret (<[e.2 := r]> m))
      m (imap pair (ascending active_workers)).

(** ** Wire classification *)

Record WireClassification : Type := mkWires {
  wc_borders : gmap N (PortRef * PortRef);
  border_entries : list (list (AgentId * PortId * N));
  wc_border_id_end : N;
  wc_border_id_start : N;
}.

(** The ports of the live agents, in the order of the two loops. *)
Definition port_list (n : Net) : list (AgentId * PortId) :=
  concat (imap (λ i slot,
    match slot with
    | Some a => (λ p, (as_u32 (N.of_nat i), p)) <$> range_u (total_ports (symbol a))
    | None => []
    end) (agents n)).

(** The body of the loops: a wire between two workers, seen from its smaller
    agent id, gets the next border id and an entry on both sides. *)
Definition classify_port (n : Net) (sigma : Allocation) (c : WireClassification)
    (port : AgentId * PortId) : outcome WireClassification :=
  let '(agent_id, port_id) := port in
  match get_target n (AgentPort agent_id port_id) with
  | AgentPort other_id other_port =>
      if agent_id <? other_id then
        w_a ← unwrap (sigma !! agent_id);
        w_b ← unwrap (sigma !! other_id);
        if w_a =? w_b then mret c
        else
          let bid := wc_border_id_end c in
          entries ← push_at (N.to_nat w_a) (agent_id, port_id, bid) (border_entries c);
          entries ← push_at (N.to_nat w_b) (other_id, other_port, bid) entries;
          mret (mkWires
                  (<[bid := (AgentPort agent_id port_id, AgentPort other_id other_port)]> (wc_borders c))
                  entries (u32_succ bid) (wc_border_id_start c))
      else mret c
  | FreePort _ => mret c
  end.

Definition first_border_id (n : Net) : N :=
  match max_freeport_id n with Some id => u32_succ id | None => 0 end.

Definition classify_wires (n : Net) (sigma : Allocation) (num_workers : N) : outcome WireClassification :=
  let start := first_border_id n in
  fold_outcome (classify_port n sigma)
    (mkWires ∅ (replicate (N.to_nat num_workers) []) start start) (port_list n).

(** ** Subnets *)

Definition BorderEntry : Type := AgentId * PortId * N.

(** [border_overrides]: the border id that replaces a port's target. *)
Definition border_overrides (entries : list BorderEntry) : gmap (AgentId * PortId) N :=
  foldl (λ m e, <[(e.1.1, e.1.2) := e.2]> m) ∅ entries.

(** [worker_agents.iter().max()]. *)
Definition max_agent (ids : list AgentId) : option AgentId :=
  match ids with [] => None | x :: l => Some (foldl N.max x l) end.

Definition port_cell (agent_id : AgentId) (port_id : PortId) : nat :=
  (N.to_nat agent_id * 3 + N.to_nat port_id)%nat.

(** One port of a copied agent: its override, else the net's cell. *)
Definition copy_port (n : Net) (ov : gmap (AgentId * PortId) N) (agent_id : AgentId)
    (ps : list PortRef) (port_id : PortId) : outcome (list PortRef) :=
  let idx := port_cell agent_id port_id in
  match ov !! (agent_id, port_id) with
  | Some bid => mret (<[idx := FreePort bid]> ps)
  | None => target ← unwrap (ports n !! idx); mret (<[idx := target]> ps)
  end.

(** One agent: its slot and its three cells. *)
Definition copy_agent (n : Net) (ov : gmap (AgentId * PortId) N)
    (acc : list (option Agent) * list PortRef) (agent_id : AgentId)
    : outcome (list (option Agent) * list PortRef) :=
  agent ← unwrap (mjoin (agents n !! N.to_nat agent_id));
  ps ← fold_outcome (copy_port n ov agent_id) acc.2 (range_u PORTS_PER_SLOT);
  mret (<[N.to_nat agent_id := Some agent]> acc.1, ps).

(** [sigma.get(&a) == Some(&w) && sigma.get(&b) == Some(&w)]. *)
Definition same_worker (sigma : Allocation) (w : WorkerId) (p : AgentId * AgentId) : bool :=
  bool_decide (sigma !! p.1 = Some w) && bool_decide (sigma !! p.2 = Some w).

(** The queue entries whose two agents are in the subnet. *)
Definition keep_redex (sigma : Allocation) (w : WorkerId) (ags : list (option Agent))
    (q : list (AgentId * AgentId)) (p : AgentId * AgentId) : outcome (list (AgentId * AgentId)) :=
  if same_worker sigma w p then
    a ← unwrap (ags !! N.to_nat p.1);
    match a with
    | None => mret q
    | Some _ =>
        b ← unwrap (ags !! N.to_nat p.2);
        mret (match b with Some _ => q ++ [p] | None => q end)
    end
  else mret q.

(** Dead slots of the arena inside the range, ascending. *)
Definition dead_in_range (ags : list (option Agent)) (r : AgentId * AgentId) : list AgentId :=
  let range_end := r.2 `min` as_u32 (N.of_nat (length ags)) in
  filter (λ id, ags !! N.to_nat id = Some None) ((λ i, r.1 + i) <$> range_u (range_end - r.1)).

Definition shadow_of (entries : list BorderEntry) : option (gset AgentId) :=
  match entries with [] => None | _ => Some (list_to_set ((λ e, e.1.1) <$> entries)) end.

Definition build_subnet (n : Net) (worker_agents : list AgentId) (sigma : Allocation)
    (entries : list BorderEntry) (worker_id : WorkerId) (id_range : AgentId * AgentId) : outcome Net :=
  match max_agent worker_agents with
  | None => Done NetCore.new
  | Some max_id =>
      let agents_len := (N.to_nat max_id + 1)%nat in
      let ov := border_overrides entries in
      '(ags, ps) ← fold_outcome (copy_agent n ov)
        (replicate agents_len None, replicate (agents_len * 3) DISCONNECTED) worker_agents;
      q ← fold_outcome (keep_redex sigma worker_id ags) [] (redex_queue n);
      mret (mkNet ags ps q id_range.1 None (freeport_redirects n) (dead_in_range ags id_range)
              (Some id_range) (shadow_of entries) DisableUnderDelta false false debug_fields_init)
  end.

(** One port of an agent in the sparse path: only real ports, no sentinel. *)
Definition sparse_port (n : Net) (ov : gmap (AgentId * PortId) N) (agent_id : AgentId)
    (m : gmap (AgentId * PortId) PortRef) (port_id : PortId) : gmap (AgentId * PortId) PortRef :=
  let target :=
    match ov !! (agent_id, port_id) with
    | Some bid => FreePort bid
    | None =>
        match ports n !! port_cell agent_id port_id with
        | Some target => target
        | None => DISCONNECTED
        end
    end in
  if decide (target = DISCONNECTED) then m else <[(agent_id, port_id) := target]> m.

Definition sparse_agent (n : Net) (ov : gmap (AgentId * PortId) N)
    (acc : gmap AgentId Agent * gmap (AgentId * PortId) PortRef) (agent_id : AgentId)
    : outcome (gmap AgentId Agent * gmap (AgentId * PortId) PortRef) :=
  agent ← unwrap (mjoin (agents n !! N.to_nat agent_id));
  mret (<[agent_id := agent]> acc.1,
        foldl (sparse_port n ov agent_id) acc.2 (range_u (total_ports (symbol agent)))).

Definition build_subnet_sparse (n : Net) (worker_agents : list AgentId) (sigma : Allocation)
    (entries : list BorderEntry) (worker_id : WorkerId) (id_range : AgentId * AgentId) : outcome Net :=
  match worker_agents with
  | [] =>
      Done (mkNet [] [] [] id_range.1 None ∅ [] (Some id_range) None DisableUnderDelta false false
              debug_fields_init)
  | _ =>
      let ov := border_overrides entries in
      '(ags, ps) ← fold_outcome (sparse_agent n ov) (∅, ∅) worker_agents;
      let q := filter (λ p,
        same_worker sigma worker_id p = true ∧ p.1 ∈ worker_agents ∧ p.2 ∈ worker_agents)
        (redex_queue n) in
      let sparse := mkSparse ags ps q id_range.1 None (freeport_redirects n) in
      let result :=
        match Sparse.to_dense sparse (Some id_range) with
        | inl net => net
        | inr _ => NetCore.new
        end in
      mret (with_shadow (shadow_of entries) result)
  end.

(** [PartitionConfig]. *)
Record PartitionConfig : Type := mkPartitionConfig {
  sparse_build : bool;
  cfg_recycle_policy : RecyclePolicy;
}.

Definition config_default : PartitionConfig := mkPartitionConfig true DisableUnderDelta.

(** [max_live_id + 1], 0 for a worker without agents. *)
Definition effective_arena_size (worker_agents : list AgentId) : N :=
  match max_agent worker_agents with Some m => m + 1 | None => 0 end.

Definition build_subnet_with_config (config : PartitionConfig) (partition_index : nat) (n : Net)
    (worker_agents : list AgentId) (sigma : Allocation) (entries : list BorderEntry)
    (worker_id : WorkerId) (id_range : AgentId * AgentId) : outcome (Net + PartitionError) :=
  let live_count := N.of_nat (length worker_agents) in
  let arena := effective_arena_size worker_agents in
  let threshold_exceeded := 4 * live_count <? arena in
  let force_sparse_for_empty := bool_decide (worker_agents = []) && sparse_build config in
  if threshold_exceeded && negb (sparse_build config) then
    Done (inr (PartitionArenaTooSparse (N.of_nat partition_index) arena live_count))
  else if threshold_exceeded || force_sparse_for_empty then
    sub ← build_subnet_sparse n worker_agents sigma entries worker_id id_range;
    mret (inl (with_recycle_policy (cfg_recycle_policy config) sub))
  else
    sub ← build_subnet n worker_agents sigma entries worker_id id_range;
    mret (inl (with_recycle_policy (cfg_recycle_policy config) sub)).

(** ** The split *)

(** Step 3: the agents of each worker, in the map's iteration order. *)
Definition group_agents (sigma : Allocation) (num_workers : N) : outcome (list (list AgentId)) :=
  fold_outcome (λ v e, push_at (N.to_nat e.2) e.1 v) (replicate (N.to_nat num_workers) [])
    (map_to_list sigma).

Definition propagate_root (n : Net) (sigma : Allocation) (worker_id : WorkerId) : option PortRef :=
  match root n with
  | Some (AgentPort id port) =>
      if bool_decide (sigma !! id = Some worker_id) then Some (AgentPort id port) else None
  | _ => None
  end.

(** The index of one partition, collected from its border entries. *)
Definition entry_index (entries : list BorderEntry) : gmap N PortRef :=
  foldl (λ m e, <[e.2 := AgentPort e.1.1 e.1.2]> m) ∅ entries.

Definition trivial_plan (n : Net) : PartitionPlan :=
  mkPlan [mkPartition n 0 ∅ (mkIdRange 0 u32_MAX) 0 0] ∅ 0.

(** The body of the partition loop, for worker [i]. *)
Definition make_partition (config : PartitionConfig) (n : Net) (sigma : Allocation)
    (worker_agents : list (list AgentId)) (wires : WireClassification) (ranges : list IdRange)
    (i : nat) : outcome Partition :=
  r ← unwrap (ranges !! i);
  mine ← unwrap (worker_agents !! i);
  entries ← unwrap (border_entries wires !! i);
  let w := as_u32 (N.of_nat i) in
  built ← build_subnet_with_config config i n mine sigma entries w (range_start r, range_end r);
  match built with
  | inr _ => Panic
  | inl sub =>
      let min_next_id := match max_agent mine with Some m => u32_succ m | None => 0 end in
      let sub := with_next_id (next_id sub `max` min_next_id) sub in
      let sub := with_root (propagate_root n sigma w) sub in
      mret (mkPartition sub w (entry_index entries) r (wc_border_id_start wires) (wc_border_id_end wires))
  end.

Definition split_with_config `{PartitionStrategy} (n : Net) (num_workers : N) (config : PartitionConfig)
    : outcome PartitionPlan :=
  if num_workers =? 0 then Panic
  else if num_workers <=? 1 then
    let plan := trivial_plan (with_recycle_policy (cfg_recycle_policy config) n) in mret plan
  else
    sigma ← allocate n num_workers;
    worker_agents ← group_agents sigma num_workers;
    wires ← classify_wires n sigma num_workers;
    ranges ← compute_id_ranges num_workers (next_id n);
    parts ← fold_outcome (λ ps i,
      p ← make_partition config n sigma worker_agents wires ranges i; mret (ps ++ [p]))
      [] (seq 0 (N.to_nat num_workers));
    mret (mkPlan parts (wc_borders wires) (wc_border_id_end wires)).

Definition split `{PartitionStrategy} (n : Net) (num_workers : N) : outcome PartitionPlan :=
  split_with_config n num_workers config_default.

(** ** The debug assertions on a plan *)

(** Ids of the occupied slots of all partitions. *)
Definition plan_ids (ps : list Partition) : list AgentId := ps ≫= λ p, arena_ids (subnet p).

Definition assert_c1_coverage (original : Net) (ps : list Partition) : bool :=
  bool_decide (NoDup (plan_ids ps)) &&
  (length (plan_ids ps) =? length (arena_ids original))%nat.

(** The workers whose index holds a border. *)
Definition found_in (ps : list Partition) (bid : N) : list WorkerId :=
  worker_id <$> filter (λ p, is_Some (free_port_index p !! bid)) ps.

Definition assert_c3_border_consistency (ps : list Partition) (borders : gmap N (PortRef * PortRef)) : bool :=
  forallb (λ bid,
    match found_in ps bid with [a; b] => negb (a =? b) | _ => false end)
    (fst <$> map_to_list borders).
