(* ===== verification/SplitInv.v ===== *)
(** The wires a split cuts, and what the classification loop, the subnet
    builders and the partition loop of Split.v compute from them. *)
From S2P Require Import Prelude NetTypes NetCore NetInv Reduction ReductionInv SparseNet SparseInv Partition Split.
Local Open Scope N_scope.
Open Scope net_scope.

(** ** Cuts *)

Abbreviation Slot := (AgentId * PortId)%type (only parsing).

(** The wire at a port, when the port is its smaller end and its agents belong
    to different workers. *)
Definition cut (n : Net) (sigma : gmap AgentId WorkerId) (x : Slot) : option (Slot * Slot) :=
  match n.[x.1, x.2] with
  | AgentPort o q =>
      if x.1 <? o then
        if decide (sigma !! x.1 = sigma !! o) then None else Some (x, (o, q))
      else None
  | FreePort _ => None
  end.

Definition cuts (n : Net) (sigma : gmap AgentId WorkerId) : list (Slot * Slot) :=
  omap (cut n sigma) (port_list n).

Definition slot_port (x : Slot) : PortRef := AgentPort x.1 x.2.

(** Port [x] is an end of the [bid - start]-th cut. *)
Definition border_of (cs : list (Slot * Slot)) (start : N) (x : Slot) (bid : N) : Prop :=
  ∃ k c, cs !! k = Some c ∧ bid = start + N.of_nat k ∧ (c.1 = x ∨ c.2 = x).

(** What a strategy must return: the live agents, each with a worker. *)
Record allocation_ok (n : Net) (num_workers : N) (sigma : gmap AgentId WorkerId) : Prop := {
  al_dom : ∀ id, is_Some (sigma !! id) ↔ live n id;
  al_range : ∀ id w, sigma !! id = Some w → w < num_workers;
}.

Lemma wf_index n i a : wf n → agents n !! i = Some a → as_u32 (N.of_nat i) = N.of_nat i.
Proof.
  intros Hwf Hi. apply lookup_lt_Some in Hi. apply as_u32_small.
  pose proof (wf_arena n Hwf). pose proof (wf_u32 n Hwf). lia.
Qed.

Lemma elem_of_port_list n id p : wf n → (id, p) ∈ port_list n ↔ valid_port n id p.
Proof.
  intros Hwf. unfold port_list. rewrite elem_of_concat_imap. unfold valid_port, get_agent. split.
  - intros (i & [a|] & Hi & Hx); [|by apply elem_of_nil in Hx].
    apply list_elem_of_fmap in Hx as (q & [= -> ->] & Hq%elem_of_range_u).
    exists a. rewrite (wf_index n i (Some a)) by done. rewrite Nat2N.id, Hi. done.
  - intros (a & Ha & Hp). destruct (agents n !! N.to_nat id) as [[b|]|] eqn:E; simplify_eq/=.
    eexists (N.to_nat id), (Some _). split; [exact E|]. apply list_elem_of_fmap. exists p.
    rewrite (wf_index n _ _ Hwf E), N2Nat.id. split; [done|]. by apply elem_of_range_u.
Qed.

Lemma port_list_nodup n : wf n → NoDup (port_list n).
Proof.
  intros Hwf. apply NoDup_concat_imap.
  - intros i [a|] _; [|constructor]. apply NoDup_fmap_2; [intros ? ? [=]; done|apply range_u_nodup].
  - intros i j x x' y Hi Hj Hy Hy'.
    destruct x as [a|]; [|by apply elem_of_nil in Hy]. destruct x' as [b|]; [|by apply elem_of_nil in Hy'].
    apply list_elem_of_fmap in Hy as (p & -> & _). apply list_elem_of_fmap in Hy' as (q & [= He _] & _).
    rewrite (wf_index n _ _ Hwf Hi), (wf_index n _ _ Hwf Hj) in He. lia.
Qed.

(** A cut is a wire of the net between two workers, listed from its smaller
    end, once. *)
Lemma elem_of_cuts n sigma x y : wf n →
  (x, y) ∈ cuts n sigma ↔ valid_port n x.1 x.2 ∧ n.[x.1, x.2] = slot_port y ∧ x.1 < y.1 ∧
    sigma !! x.1 ≠ sigma !! y.1.
Proof.
  intros Hwf. unfold cuts. rewrite list_elem_of_omap. unfold cut. split.
  - intros ([i p] & Hin%elem_of_port_list & Hc); [|done]. cbn [fst snd] in *.
    destruct (n.[i, p]) as [o q|] eqn:E; [|done]. destruct (N.ltb_spec i o); [|done].
    case_decide; [done|]. simplify_eq/=. by split_and!.
  - intros (Hv & Hxy & Hlt & Hs). exists x. destruct x as [i p], y as [o q]. cbn [fst snd] in *.
    split; [by apply elem_of_port_list|]. rewrite Hxy. unfold slot_port. cbn [fst snd].
    rewrite (proj2 (N.ltb_lt i o)) by done. by rewrite decide_False.
Qed.

(** Reading a cut from either end. *)
Lemma cut_ends n sigma c x : wf n → c ∈ cuts n sigma → c.1 = x ∨ c.2 = x →
  valid_port n x.1 x.2 ∧
  n.[x.1, x.2] = slot_port (if decide (c.1 = x) then c.2 else c.1) ∧
  sigma !! c.1.1 ≠ sigma !! c.2.1 ∧ c.1 ≠ c.2.
Proof.
  intros Hwf Hc Hx. destruct c as [[i p] [o q]]. apply (elem_of_cuts _ _ _ _ Hwf) in Hc.
  cbn [fst snd] in *. destruct Hc as (Hv & Ht & Hlt & Hs).
  destruct (wf_sym n Hwf i p o q (valid_port_lt3 _ _ _ Hv) Ht) as (Hv' & Ht' & _).
  assert ((i, p) ≠ (o, q)) by (intros [= ->]; lia).
  destruct Hx as [<-|<-]; cbn [fst snd]; split_and!; try done; case_decide; first [congruence | exact Ht | exact Ht'].
Qed.

Lemma cuts_nodup n sigma : wf n → NoDup (cuts n sigma).
Proof.
  intros Hwf. unfold cuts. pose proof (port_list_nodup n Hwf) as Hnd.
  induction Hnd as [|x l Hx _ IH]; [constructor|]. cbn. destruct (cut n sigma x) as [c|] eqn:E; [|done].
  constructor; [|done]. rewrite list_elem_of_omap. intros (y & Hy & Hcy).
  enough (x = y) by congruence. unfold cut in E, Hcy.
  repeat (case_match; simplify_eq/=).
Qed.

(** Two cuts that share an end are the same. *)
Lemma border_of_cut n sigma k k' c c' x : wf n →
  cuts n sigma !! k = Some c → cuts n sigma !! k' = Some c' →
  c.1 = x ∨ c.2 = x → c'.1 = x ∨ c'.2 = x → k = k' ∧ c = c'.
Proof.
  intros Hwf Hk Hk' Hx Hx'.
  enough (c = c') as -> by (split; [by eapply NoDup_lookup; [by apply cuts_nodup|..]|done]).
  apply list_elem_of_lookup_2 in Hk, Hk'.
  destruct (cut_ends n sigma c x Hwf Hk Hx) as (_ & Ht & _ & Hne).
  destruct (cut_ends n sigma c' x Hwf Hk' Hx') as (_ & Ht' & _ & Hne').
  destruct c as [[i p] [o q]], c' as [[i' p'] [o' q']].
  apply (elem_of_cuts _ _ _ _ Hwf) in Hk as (_ & _ & Hlt & _).
  apply (elem_of_cuts _ _ _ _ Hwf) in Hk' as (_ & _ & Hlt' & _).
  cbn [fst snd] in *. rewrite Ht in Ht'. unfold slot_port in Ht'.
  destruct Hx as [<-|<-], Hx' as [Hx'|Hx']; repeat case_decide; simplify_eq/=; try done; lia.
Qed.

Lemma border_of_inj n sigma start x bid bid' : wf n →
  border_of (cuts n sigma) start x bid → border_of (cuts n sigma) start x bid' → bid = bid'.
Proof.
  intros Hwf (k & c & Hk & -> & Hx) (k' & c' & Hk' & -> & Hx').
  by destruct (border_of_cut n sigma k k' c c' x Hwf Hk Hk' Hx Hx') as [-> _].
Qed.

Lemma border_of_dec cs start x : (∃ bid, border_of cs start x bid) ∨ ∀ bid, ¬ border_of cs start x bid.
Proof.
  destruct (decide (Exists (λ c, c.1 = x ∨ c.2 = x) cs)) as [H|H].
  - left. apply Exists_exists in H as (c & (k & Hk)%list_elem_of_lookup_1 & Hc). by eexists _, k, c.
  - right. intros bid (k & c & Hk%list_elem_of_lookup_2 & _ & Hc). apply H, Exists_exists. by exists c.
Qed.

(** The ports that are cut are those whose wire leaves the worker. *)
Lemma border_of_iff n sigma start x : wf n →
  (∃ bid, border_of (cuts n sigma) start x bid) ↔
  ∃ o q, valid_port n x.1 x.2 ∧ n.[x.1, x.2] = AgentPort o q ∧ sigma !! x.1 ≠ sigma !! o.
Proof.
  intros Hwf. split.
  - intros (bid & k & c & Hk%list_elem_of_lookup_2 & _ & Hx).
    destruct (cut_ends n sigma c x Hwf Hk Hx) as (Hv & Ht & Hs & _).
    eexists _, _. split; [done|]. split; [exact Ht|].
    case_decide; destruct Hx as [<-|<-]; try done; congruence.
  - intros (o & q & Hv & Ht & Hs). destruct x as [i p]. cbn [fst snd] in *.
    destruct (wf_sym n Hwf i p o q (valid_port_lt3 _ _ _ Hv) Ht) as (Hv' & Ht' & Hne).
    assert (i ≠ o) by congruence.
    assert (∃ c, c ∈ cuts n sigma ∧ (c.1 = (i, p) ∨ c.2 = (i, p))) as (c & Hc & Hx).
    { destruct (decide (i < o)).
      - exists ((i, p), (o, q)). split; [|by left]. by apply elem_of_cuts.
      - exists ((o, q), (i, p)). split; [|by right]. apply elem_of_cuts; [done|]. cbn [fst snd].
        split_and!; try done. lia. }
    apply list_elem_of_lookup_1 in Hc as (k & Hk). eexists _, k, c. by split_and!.
Qed.

Lemma slot_port_inj x y : slot_port x = slot_port y → x = y.
Proof. destruct x, y. unfold slot_port. cbn. by intros [= -> ->]. Qed.

(** A principal wire between two workers is a cut. *)
Lemma crossing_cut n sigma x y : wf n → redex n x y → sigma !! x ≠ sigma !! y →
  ∃ j c, cuts n sigma !! j = Some c ∧ (c = ((x, 0), (y, 0)) ∨ c = ((y, 0), (x, 0))).
Proof.
  intros Hwf [[a Ha] _ Hxy] Hd.
  destruct (proj2 (border_of_iff n sigma 0 (x, 0) Hwf)) as (bid & j & c & Hc & _ & Hx).
  { exists y, 0. split_and!; [|done|done]. exists a. split; [done|].
    pose proof (total_ports_bounds (symbol a)). cbn. lia. }
  exists j, c. split; [done|]. apply list_elem_of_lookup_2 in Hc.
  destruct (cut_ends n sigma c _ Hwf Hc Hx) as (_ & Ht & _ & Hne).
  cbn [fst snd] in Ht. rewrite Hxy in Ht. change (AgentPort y 0) with (slot_port (y, 0)) in Ht.
  apply slot_port_inj in Ht. destruct c as [c1 c2]. cbn [fst snd] in *.
  destruct Hx as [->| ->]; case_decide; try congruence; subst; auto.
Qed.

(** ** Live ids, in order *)

Lemma elem_of_arena_ids n id : wf n → id ∈ arena_ids n ↔ live n id.
Proof.
  intros Hwf. unfold arena_ids. rewrite elem_of_concat_imap. unfold live, get_agent. split.
  - intros (i & [a|] & Hi & Hx); [|by apply elem_of_nil in Hx].
    apply list_elem_of_singleton in Hx as ->. rewrite (wf_index n i (Some a)) by done.
    rewrite Nat2N.id, Hi. by exists a.
  - intros [a Ha]. destruct (agents n !! N.to_nat id) as [[b|]|] eqn:E; simplify_eq/=.
    exists (N.to_nat id), (Some a). split; [done|]. rewrite (wf_index n _ _ Hwf E), N2Nat.id. set_solver.
Qed.

Lemma arena_ids_nodup n : wf n → NoDup (arena_ids n).
Proof.
  intros Hwf. apply NoDup_concat_imap.
  - intros i [a|] _; repeat constructor; set_solver.
  - intros i j [a|] [b|] y Hi Hj Hy Hy'; try (by apply elem_of_nil in Hy); try (by apply elem_of_nil in Hy').
    apply list_elem_of_singleton in Hy as ->. apply list_elem_of_singleton in Hy' as E.
    rewrite (wf_index n _ _ Hwf Hi), (wf_index n _ _ Hwf Hj) in E. lia.
Qed.

Lemma length_arena_ids n : length (arena_ids n) = count_live_agents n.
Proof.
  unfold arena_ids, count_live_agents.
  assert (∀ f : nat → AgentId, length (concat (imap (λ i slot, match slot with Some _ => [f i] | None => [] end) (agents n)))
    = length (filter (λ slot, is_Some slot) (agents n))) as H; [|apply (H (λ i, as_u32 (N.of_nat i)))].
  induction (agents n) as [|[a|] l IH]; intros f; [done|..]; rewrite filter_cons.
  - rewrite decide_True by (by eexists). cbn [imap concat length app]. f_equal. apply (IH (f ∘ S)).
  - rewrite decide_False by (by intros [? ?]). cbn [imap concat app]. apply (IH (f ∘ S)).
Qed.

Definition sorted_ids (n : Net) : list AgentId := merge_sort N.le (arena_ids n).

Lemma sorted_ids_perm n : sorted_ids n ≡ₚ arena_ids n.
Proof. apply merge_sort_Permutation. Qed.

Lemma strongly_sorted_lookup l i j x y : StronglySorted N.le l → l !! i = Some x → l !! j = Some y →
  (i ≤ j)%nat → x ≤ y.
Proof.
  intros Hs. revert i j. induction Hs as [|z l Hs IH Hz]; intros i j Hi Hj Hij; [done|].
  destruct i as [|i], j as [|j]; cbn in Hi, Hj; simplify_eq; [lia| |lia|by apply (IH i j); [..|lia]].
  rewrite Forall_lookup in Hz. by eapply Hz.
Qed.

(** ** Classification *)

(** The border entries of worker [w] for the cuts [cs], numbered from [bid]. *)
Fixpoint side_entries (sigma : gmap AgentId WorkerId) (w : WorkerId) (bid : N) (cs : list (Slot * Slot))
    : list BorderEntry :=
  match cs with
  | [] => []
  | (x, y) :: cs =>
      (if decide (sigma !! x.1 = Some w) then [(x.1, x.2, bid)] else []) ++
      (if decide (sigma !! y.1 = Some w) then [(y.1, y.2, bid)] else []) ++
      side_entries sigma w (bid + 1) cs
  end.

Lemma elem_of_side_entries sigma w start cs id p bid :
  (id, p, bid) ∈ side_entries sigma w start cs ↔
  sigma !! id = Some w ∧ border_of cs start (id, p) bid.
Proof.
  revert start. induction cs as [|[x y] cs IH]; intros start; cbn [side_entries].
  { split; [intros []%elem_of_nil|intros (_ & k & c & Hk & _); done]. }
  rewrite !elem_of_app, IH. unfold border_of. split.
  - intros [H|[H|(Hs & k & c & Hk & -> & Hc)]].
    + case_decide; [|by apply elem_of_nil in H]. apply list_elem_of_singleton in H as [= -> -> ->].
      split; [done|]. exists 0%nat, (x, y). split_and!; [done|lia|]. left. by destruct x.
    + case_decide; [|by apply elem_of_nil in H]. apply list_elem_of_singleton in H as [= -> -> ->].
      split; [done|]. exists 0%nat, (x, y). split_and!; [done|lia|]. right. by destruct y.
    + split; [done|]. exists (S k), c. split_and!; [done|lia|done].
  - intros (Hs & [|k] & c & Hk & -> & Hc); cbn in Hk; simplify_eq/=.
    + rewrite N.add_0_r. destruct Hc as [Hc|Hc]; cbn [fst snd] in *; subst.
      * left. cbn [fst snd]. rewrite decide_True by done. set_solver.
      * right. left. cbn [fst snd]. rewrite decide_True by done. set_solver.
    + right. right. split; [done|]. exists k, c. split_and!; [done|lia|done].
Qed.

(** One iteration: nothing, or the next cut. *)
Lemma classify_port_spec n k sigma c x :
  wf n → allocation_ok n k sigma → valid_port n x.1 x.2 → length (border_entries c) = N.to_nat k →
  match cut n sigma x with
  | None => classify_port n sigma c x = Done c
  | Some (_, y) => ∃ entries, classify_port n sigma c x =
      Done (mkWires (<[wc_border_id_end c := (slot_port x, slot_port y)]> (wc_borders c)) entries
              (u32_succ (wc_border_id_end c)) (wc_border_id_start c)) ∧
      length entries = N.to_nat k ∧
      ∀ w, entries !! w =
        (λ es, es ++ side_entries sigma (N.of_nat w) (wc_border_id_end c) [(x, y)]) <$> border_entries c !! w
  end.
Proof.
  intros Hwf Hal Hv Hlen. destruct x as [i p]. cbn [fst snd] in Hv. unfold cut, classify_port. cbn [fst snd].
  destruct (n.[i, p]) as [o q|] eqn:E; [|done]. destruct (N.ltb_spec i o) as [Hlt|]; [|done].
  destruct (wf_sym n Hwf i p o q (valid_port_lt3 _ _ _ Hv) E) as (Hv' & _ & _).
  destruct (proj2 (al_dom n k sigma Hal i) (valid_port_live _ _ _ Hv)) as [wa Hwa].
  destruct (proj2 (al_dom n k sigma Hal o) (valid_port_live _ _ _ Hv')) as [wb Hwb].
  pose proof (al_range n k sigma Hal _ _ Hwa). pose proof (al_range n k sigma Hal _ _ Hwb).
  rewrite Hwa, Hwb. cbn [unwrap mbind outcome_bind]. destruct (N.eqb_spec wa wb) as [->|Hne].
  { by rewrite decide_True. }
  rewrite decide_False by congruence.
  destruct (push_at_Done (N.to_nat wa) (i, p, wc_border_id_end c) (border_entries c)) as (e1 & He1 & Hl1 & L1); [lia|].
  destruct (push_at_Done (N.to_nat wb) (o, q, wc_border_id_end c) e1) as (e2 & He2 & Hl2 & L2); [lia|].
  rewrite He1. cbn [mbind outcome_bind]. rewrite He2. eexists. split; [done|]. split; [congruence|].
  intros w. rewrite L2, L1. cbn [side_entries fst snd]. rewrite Hwa, Hwb.
  destruct (border_entries c !! w) as [es|]; cbn; [|by repeat case_decide].
  repeat case_decide; simplify_eq/=; rewrite ?N2Nat.id, ?Nat2N.id in *;
    first [lia | congruence | by rewrite ?app_nil_r].
Qed.

(** The wire classification of the ports [l], started at [c]. *)
Record classified (sigma : gmap AgentId WorkerId) (c : WireClassification) (cs : list (Slot * Slot))
    (c' : WireClassification) : Prop := {
  cl_start : wc_border_id_start c' = wc_border_id_start c;
  cl_end : wc_border_id_end c' = wc_border_id_end c + N.of_nat (length cs);
  cl_len : length (border_entries c') = length (border_entries c);
  cl_borders : ∀ bid, wc_borders c' !! bid =
    match (if bid <? wc_border_id_end c then None else cs !! N.to_nat (bid - wc_border_id_end c)) with
    | Some x => Some (slot_port x.1, slot_port x.2)
    | None => wc_borders c !! bid
    end;
  cl_entries : ∀ w, border_entries c' !! w =
    (λ es, es ++ side_entries sigma (N.of_nat w) (wc_border_id_end c) cs) <$> border_entries c !! w;
}.

Lemma classify_fold n k sigma l c :
  wf n → allocation_ok n k sigma → Forall (λ x, valid_port n x.1 x.2) l →
  length (border_entries c) = N.to_nat k →
  wc_border_id_end c + N.of_nat (length (omap (cut n sigma) l)) ≤ u32_MAX →
  ∃ c', fold_outcome (classify_port n sigma) c l = Done c' ∧ classified sigma c (omap (cut n sigma) l) c'.
Proof.
  intros Hwf Hal Hl. revert c. induction Hl as [|x l Hx _ IH]; intros c Hlen Hmax.
  { exists c. split; [done|]. split; cbn; try done; [lia|..]; intros.
    - by destruct (_ <? _).
    - destruct (border_entries c !! w); cbn; by rewrite ?app_nil_r. }
  pose proof (classify_port_spec n k sigma c x Hwf Hal Hx Hlen) as Hstep.
  cbn [omap list_omap] in *. cbn [fold_outcome]. destruct (cut n sigma x) as [[x' y]|] eqn:Ec.
  2: { rewrite Hstep. by apply IH. }
  assert (x' = x) as -> by (unfold cut in Ec; repeat case_match; by simplify_eq).
  destruct Hstep as (es & -> & Hles & Les). cbn [length] in Hmax.
  edestruct IH as (c' & -> & [ST E LN BD EN]); [exact Hles|..].
  { cbn. rewrite u32_succ_lt by lia. lia. }
  exists c'. split; [done|]. cbn in *. rewrite u32_succ_lt in * by lia. split; cbn.
  - done.
  - rewrite E. lia.
  - lia.
  - intros bid. rewrite BD. destruct (N.ltb_spec bid (wc_border_id_end c)) as [Hb|Hb].
    + rewrite (proj2 (N.ltb_lt _ _)) by lia. by rewrite lookup_insert_ne by lia.
    + destruct (decide (bid = wc_border_id_end c)) as [->|Hne].
      * rewrite (proj2 (N.ltb_lt _ _)) by lia. rewrite lookup_insert_eq, N.sub_diag. done.
      * rewrite (proj2 (N.ltb_ge _ _)) by lia.
        replace (N.to_nat (bid - wc_border_id_end c)) with (S (N.to_nat (bid - (wc_border_id_end c + 1)))) by lia.
        rewrite lookup_cons_ne_0 by done. cbn [Nat.pred].
        case_match; [done|]. by rewrite lookup_insert_ne by lia.
  - intros w. rewrite EN, Les. cbn. destruct (border_entries c !! w); [|done]. cbn.
    by rewrite !app_nil_r, <- !app_assoc.
Qed.

(** The whole classification. *)
Record wires_of (n : Net) (num_workers : N) (sigma : gmap AgentId WorkerId) (c : WireClassification) : Prop := {
  wo_start : wc_border_id_start c = first_border_id n;
  wo_end : wc_border_id_end c = first_border_id n + N.of_nat (length (cuts n sigma));
  wo_borders : ∀ bid a b, wc_borders c !! bid = Some (a, b) ↔
    ∃ k x, cuts n sigma !! k = Some x ∧ bid = first_border_id n + N.of_nat k ∧
      a = slot_port x.1 ∧ b = slot_port x.2;
  wo_entries : ∀ w, (w < N.to_nat num_workers)%nat → ∃ es, border_entries c !! w = Some es ∧
    ∀ id p bid, (id, p, bid) ∈ es ↔
      sigma !! id = Some (N.of_nat w) ∧ border_of (cuts n sigma) (first_border_id n) (id, p) bid;
}.

Lemma classify_wires_spec n k sigma :
  wf n → allocation_ok n k sigma →
  first_border_id n + N.of_nat (length (cuts n sigma)) ≤ u32_MAX →
  ∃ c, classify_wires n sigma k = Done c ∧ wires_of n k sigma c.
Proof.
  intros Hwf Hal Hmax. unfold classify_wires.
  set (c0 := mkWires ∅ (replicate (N.to_nat k) []) (first_border_id n) (first_border_id n)).
  destruct (classify_fold n k sigma (port_list n) c0 Hwf Hal) as (c & Hc & [ST E L BD EN]).
  { apply Forall_forall. intros [i p] Hx. by apply elem_of_port_list in Hx. }
  { cbn. by rewrite length_replicate. }
  { exact Hmax. }
  exists c. split; [exact Hc|]. fold (cuts n sigma) in *. cbn in *. split; [done|done|..].
  - intros bid a b. rewrite BD, lookup_empty. split.
    + destruct (N.ltb_spec bid (first_border_id n)); [done|].
      destruct (cuts n sigma !! N.to_nat (bid - first_border_id n)) as [x|] eqn:Ex; [|done].
      intros [= <- <-]. eexists _, x. split; [exact Ex|]. split_and!; [lia|done|done].
    + intros (j & x & Hj & -> & -> & ->). rewrite (proj2 (N.ltb_ge _ _)) by lia.
      replace (N.to_nat (first_border_id n + N.of_nat j - first_border_id n)) with j by lia. by rewrite Hj.
  - intros w Hw. rewrite EN, lookup_replicate_2 by lia. cbn. eexists. split; [done|].
    intros. apply elem_of_side_entries.
Qed.

(** ** Subnets *)

(** The content of a copied port: its border, else the net's target. *)
Definition port_value (n : Net) (ov : gmap Slot N) (x : Slot) : PortRef :=
  match ov !! x with
  | Some bid => FreePort bid
  | None => match ports n !! port_cell x.1 x.2 with Some t => t | None => DISCONNECTED end
  end.

Lemma port_cell_index id p : N.to_nat (port_index id p) = port_cell id p.
Proof. unfold port_index, port_cell, PORTS_PER_SLOT. lia. Qed.

Lemma get_target_cell n id p :
  n.[id, p] = match ports n !! port_cell id p with Some t => t | None => DISCONNECTED end.
Proof. unfold get_target. by rewrite port_cell_index. Qed.

Lemma port_cell_inj x y : x.2 < 3 → y.2 < 3 → port_cell x.1 x.2 = port_cell y.1 y.2 → x = y.
Proof.
  destruct x as [i p], y as [j q]. unfold port_cell. cbn [fst snd]. intros.
  assert (i = j) by lia. subst. f_equal. lia.
Qed.

(** The part of [n] that worker [w] gets, seen through the accessors. *)
Record subnet_of (n : Net) (sigma : gmap AgentId WorkerId) (w : WorkerId) (start : N)
    (r : AgentId * AgentId) (sub : Net) : Prop := {
  sn_agent : ∀ id, get_agent sub id = if decide (sigma !! id = Some w) then get_agent n id else None;
  sn_cut : ∀ id p bid, p < 3 → sigma !! id = Some w →
    border_of (cuts n sigma) start (id, p) bid → sub.[id, p] = FreePort bid;
  sn_copy : ∀ id p, p < 3 → sigma !! id = Some w →
    (∀ bid, ¬ border_of (cuts n sigma) start (id, p) bid) → sub.[id, p] = n.[id, p];
  sn_dead : ∀ id p, p < 3 → sigma !! id ≠ Some w → sub.[id, p] = DISCONNECTED;
  sn_ports_len : length (ports sub) = (length (agents sub) * 3)%nat;
  sn_arena : ∀ m, (∀ id, sigma !! id = Some w → id < m) → N.of_nat (length (agents sub)) ≤ m;
  sn_queue : redex_queue sub = filter (λ p, same_worker sigma w p = true) (redex_queue n);
  sn_free : ∀ id, id ∈ free_list sub →
    get_agent sub id = None ∧ id < N.of_nat (length (agents sub));
  sn_free_nodup : NoDup (free_list sub);
}.

Lemma match_nonempty {A X} (l : list A) (a b : X) :
  l ≠ [] → match l with [] => a | _ :: _ => b end = b.
Proof. by destruct l. Qed.

Lemma max_agent_spec mine m : max_agent mine = Some m → m ∈ mine ∧ ∀ id, id ∈ mine → id ≤ m.
Proof.
  unfold max_agent. destruct mine as [|x l]; [done|]. intros [= <-].
  assert (∀ l x, foldl N.max x l ∈ x :: l ∧ ∀ id, id ∈ x :: l → id ≤ foldl N.max x l) as H.
  { clear. induction l as [|y l IH]; intros x; cbn [foldl].
    - split; [set_solver|]. intros id Hid. apply list_elem_of_singleton in Hid. lia.
    - destruct (IH (x `max` y)) as [H1 H2]. split.
      + apply elem_of_cons in H1 as [H1|H1]; [|set_solver]. rewrite H1.
        destruct (N.max_spec x y) as [[_ ->]|[_ ->]]; set_solver.
      + pose proof (H2 (x `max` y) ltac:(set_solver)).
        intros id [->|[->|Hid]%elem_of_cons]%elem_of_cons; [lia|lia|]. apply H2. set_solver. }
  apply H.
Qed.

(** A wire that is not cut stays inside the worker. *)
Lemma inner_wire n sigma w start id p b q : wf n → p < 3 → sigma !! id = Some w →
  (∀ bid, ¬ border_of (cuts n sigma) start (id, p) bid) → n.[id, p] = AgentPort b q →
  valid_port n b q ∧ sigma !! b = Some w ∧ n.[b, q] = AgentPort id p ∧ (b, q) ≠ (id, p) ∧
  (∀ bid, ¬ border_of (cuts n sigma) start (b, q) bid).
Proof.
  intros Hwf Hp Hs Hnb Ht. destruct (wf_sym n Hwf id p b q Hp Ht) as (Hv & Hback & Hne).
  assert (Hv' : valid_port n id p) by (apply (wf_src n Hwf); [done|by rewrite Ht]).
  assert (Hsb : sigma !! b = Some w).
  { destruct (decide (sigma !! id = sigma !! b)) as [<-|Hd]; [done|]. exfalso.
    destruct (proj2 (border_of_iff n sigma start (id, p) Hwf)) as [bid Hb]; [|by apply (Hnb bid)].
    by exists b, q. }
  split_and!; try done. intros bid Hb.
  destruct (proj1 (border_of_iff n sigma start (b, q) Hwf)) as (o & q' & _ & Ht' & Hd); [by exists bid|].
  cbn [fst snd] in *. rewrite Hback in Ht'. injection Ht' as <- <-. congruence.
Qed.

(** A subnet with room for its arena is well formed. *)
Lemma subnet_wf n sigma w start r sub :
  wf n → subnet_of n sigma w start r sub →
  N.of_nat (length (agents sub)) ≤ next_id sub → next_id sub ≤ u32_MAX → wf sub.
Proof.
  intros Hwf Hs Hlen Hmax. pose proof Hs as [GA CUT COPY DEAD LP _ _ FR FN].
  assert (Hcase : ∀ id p, p < 3 → sigma !! id = Some w →
    (∃ bid, sub.[id, p] = FreePort bid ∧ valid_port n id p) ∨
    ((∀ bid, ¬ border_of (cuts n sigma) start (id, p) bid) ∧ sub.[id, p] = n.[id, p])).
  { intros id p Hp Hw. destruct (border_of_dec (cuts n sigma) start (id, p)) as [[bid Hb]|Hnb].
    - left. exists bid. split; [by apply CUT|].
      destruct (proj1 (border_of_iff n sigma start (id, p) Hwf)) as (?&?&?&_); [|done]. by exists bid.
    - right. split; [done|]. by apply COPY. }
  assert (Hvalid : ∀ id p, sigma !! id = Some w → valid_port n id p → valid_port sub id p).
  { intros id p Hw (a & Ha & Hp). exists a. by rewrite GA, decide_True. }
  split; try done.
  - intros id a. rewrite GA. case_decide; [|done]. by apply wf_ids.
  - intros id p Hp Hne. destruct (decide (sigma !! id = Some w)) as [Hw|Hw]; [|by rewrite DEAD in Hne].
    apply Hvalid; [done|]. destruct (Hcase id p Hp Hw) as [(bid & _ & Hv)|[_ E]]; [done|].
    apply (wf_src n Hwf); [done|]. by rewrite <- E.
  - intros id p b q Hp Ht. destruct (decide (sigma !! id = Some w)) as [Hw|Hw]; [|by rewrite DEAD in Ht].
    destruct (Hcase id p Hp Hw) as [(bid & E & _)|[Hnb E]]; [by rewrite E in Ht|].
    rewrite E in Ht. destruct (inner_wire n sigma w start id p b q Hwf Hp Hw Hnb Ht) as (Hv & Hwb & Hback & Hne & Hnb').
    split; [by apply Hvalid|]. split; [|done]. rewrite COPY; [done| |done|done]. by eapply valid_port_lt3.
  - intros id Hid. destruct (FR id Hid). split; [done|]. lia.
Qed.

Section subnet.
Context (n : Net) (k : N) (sigma : gmap AgentId WorkerId) (w : WorkerId) (start : N).
Context (mine : list AgentId) (es : list BorderEntry) (r : AgentId * AgentId).
Context (Hwf : wf n) (Hal : allocation_ok n k sigma).
Context (Hmine : ∀ id, id ∈ mine ↔ sigma !! id = Some w).
Context (Hes : ∀ id p bid, (id, p, bid) ∈ es ↔
  sigma !! id = Some w ∧ border_of (cuts n sigma) start (id, p) bid).

Lemma mine_live id : id ∈ mine → ∃ a, get_agent n id = Some a ∧ agents n !! N.to_nat id = Some (Some a).
Proof.
  intros Hid%Hmine. destruct (proj1 (al_dom n k sigma Hal id)) as [a Ha]; [by exists w|].
  exists a. split; [done|]. unfold get_agent in Ha.
  destruct (agents n !! N.to_nat id) as [[b|]|]; by simplify_eq/=.
Qed.

Lemma overrides_lookup id p bid :
  border_overrides es !! (id, p) = Some bid ↔
  sigma !! id = Some w ∧ border_of (cuts n sigma) start (id, p) bid.
Proof.
  rewrite <- Hes. unfold border_overrides.
  rewrite (foldl_insert_lookup (λ e : BorderEntry, (e.1.1, e.1.2)) snd).
  - split; [|intros; by exists (id, p, bid)]. intros ([[i q] b] & He & [= <- <-] & <-). done.
  - intros [[i q] b] [[i' q'] b'] H1%Hes H2%Hes [= -> ->]. cbn.
    eapply border_of_inj; [done|apply H1|apply H2].
Qed.

Lemma value_cut id p bid : sigma !! id = Some w → border_of (cuts n sigma) start (id, p) bid →
  port_value n (border_overrides es) (id, p) = FreePort bid.
Proof. intros. unfold port_value. by rewrite (proj2 (overrides_lookup id p bid)). Qed.

Lemma value_copy id p : (∀ bid, ¬ border_of (cuts n sigma) start (id, p) bid) →
  port_value n (border_overrides es) (id, p) = n.[id, p].
Proof.
  intros H. unfold port_value. rewrite get_target_cell.
  destruct (border_overrides es !! (id, p)) as [bid|] eqn:E; [|done].
  apply overrides_lookup in E as [_ E]. by apply H in E.
Qed.

(** Ports an agent does not have are disconnected, hence not cut. *)
Lemma value_unused id a p : p < 3 → get_agent n id = Some a → total_ports (symbol a) ≤ p →
  port_value n (border_overrides es) (id, p) = DISCONNECTED.
Proof.
  intros Hp Ha Hle.
  assert (Hv : ¬ valid_port n id p) by (intros (b & Hb & ?); simplify_eq; lia).
  rewrite value_copy.
  - destruct (decide (n.[id, p] = DISCONNECTED)) as [|Hne]; [done|]. by apply (wf_src n Hwf) in Hne.
  - intros bid Hb. apply Hv. destruct (proj1 (border_of_iff n sigma start (id, p) Hwf)) as (? & ? & ? & _); [|done].
    by exists bid.
Qed.

(** Both builders keep the queue entries whose agents are both here. *)
Lemma same_worker_live x : same_worker sigma w x = true → x.1 ∈ mine ∧ x.2 ∈ mine.
Proof.
  unfold same_worker. intros [H1 H2]%andb_prop.
  apply bool_decide_eq_true in H1, H2. by rewrite !Hmine.
Qed.

(** *** The dense builder *)

Lemma copy_agent_pure (acc : list (option Agent) * list PortRef) id : id ∈ mine →
  copy_agent n (border_overrides es) acc id =
  Done (<[N.to_nat id := get_agent n id]> acc.1,
        foldl (λ ps p, <[port_cell id p := port_value n (border_overrides es) (id, p)]> ps) acc.2
          (range_u PORTS_PER_SLOT)).
Proof.
  intros Hid. destruct (mine_live id Hid) as (a & Ha & Hslot). unfold copy_agent.
  change (mjoin (agents n !! N.to_nat id)) with (get_agent n id). rewrite Ha.
  cbn [unwrap mbind outcome_bind].
  rewrite (fold_outcome_pure _
    (λ ps p, <[port_cell id p := port_value n (border_overrides es) (id, p)]> ps)); [done|].
  intros ps p Hp%elem_of_range_u. unfold copy_port, port_value. cbn [fst snd].
  destruct (border_overrides es !! (id, p)); [done|].
  destruct (ports n !! port_cell id p) eqn:E; [done|]. exfalso. apply lookup_ge_None in E.
  apply lookup_lt_Some in Hslot. rewrite (wf_ports_len n Hwf) in E.
  unfold port_cell, PORTS_PER_SLOT in *. lia.
Qed.

(** The cells written: three per agent. *)
Definition cells : list Slot := mine ≫= λ id, pair id <$> range_u PORTS_PER_SLOT.

Lemma elem_of_cells x : x ∈ cells ↔ x.1 ∈ mine ∧ x.2 < 3.
Proof.
  unfold cells. rewrite list_elem_of_bind. destruct x as [i p]. cbn [fst snd]. split.
  - intros (id & (q & [= -> ->] & Hq%elem_of_range_u)%list_elem_of_fmap & Hid). done.
  - intros [Hi Hp]. exists i. split; [|done]. apply list_elem_of_fmap. exists p.
    split; [done|]. by apply elem_of_range_u.
Qed.

Lemma port_value_fun (x y : Slot) : x ∈ cells → y ∈ cells → port_cell x.1 x.2 = port_cell y.1 y.2 →
  port_value n (border_overrides es) x = port_value n (border_overrides es) y.
Proof. intros [_ Hx]%elem_of_cells [_ Hy]%elem_of_cells H. by rewrite (port_cell_inj x y Hx Hy H). Qed.

Lemma mine_none id : sigma !! id ≠ Some w → id ∉ mine.
Proof. by rewrite Hmine. Qed.

Lemma dense_arrays m : max_agent mine = Some m →
  let len := (N.to_nat m + 1)%nat in
  ∃ ags ps, fold_outcome (copy_agent n (border_overrides es))
      (replicate len None, replicate (len * 3) DISCONNECTED) mine = Done (ags, ps) ∧
    length ags = len ∧ length ps = (len * 3)%nat ∧
    (∀ id, id ∈ mine → ags !! N.to_nat id = Some (get_agent n id)) ∧
    (∀ id, id ∉ mine → mjoin (ags !! N.to_nat id) = None) ∧
    (∀ id p, p < 3 → id ∈ mine → ps !! port_cell id p = Some (port_value n (border_overrides es) (id, p))) ∧
    (∀ id p t, p < 3 → id ∉ mine → ps !! port_cell id p = Some t → t = DISCONNECTED).
Proof.
  intros Hm len. destruct (max_agent_spec mine m Hm) as [_ Hle].
  rewrite (fold_outcome_pure _ (λ acc id, (<[N.to_nat id := get_agent n id]> acc.1,
    foldl (λ ps p, <[port_cell id p := port_value n (border_overrides es) (id, p)]> ps) acc.2
      (range_u PORTS_PER_SLOT)))) by (intros; by apply copy_agent_pure).
  rewrite (foldl_pair (λ ags id, <[N.to_nat id := get_agent n id]> ags)
    (λ ps id, foldl (λ ps p, <[port_cell id p := port_value n (border_overrides es) (id, p)]> ps) ps
      (range_u PORTS_PER_SLOT))).
  rewrite (foldl_nested (λ ps id p, <[port_cell id p := port_value n (border_overrides es) (id, p)]> ps)).
  fold cells. eexists _, _. split; [reflexivity|]. split_and!.
  - by rewrite foldl_list_insert_length, length_replicate.
  - rewrite (foldl_list_insert_length (λ x : Slot, port_cell x.1 x.2)
      (λ x, port_value n (border_overrides es) (x.1, x.2))). apply length_replicate.
  - intros id Hid. apply (foldl_list_insert_in N.to_nat (get_agent n)); [|done|].
    + intros x y _ _ E. f_equal. lia.
    + rewrite length_replicate. specialize (Hle id Hid). lia.
  - intros id Hid. rewrite foldl_list_insert_out.
    + destruct (replicate len None !! N.to_nat id) as [x|] eqn:E; [|done].
      by apply lookup_replicate in E as [-> _].
    + intros x Hx E. apply Hid. by replace id with x by lia.
  - intros id p Hp Hid.
    apply (foldl_list_insert_in (λ x : Slot, port_cell x.1 x.2)
      (λ x, port_value n (border_overrides es) (x.1, x.2)) cells _ (id, p)).
    + intros [i q] [i' q'] H1 H2 E. cbn [fst snd]. by apply port_value_fun.
    + by apply elem_of_cells.
    + cbn [fst snd]. rewrite length_replicate. specialize (Hle id Hid). unfold port_cell. lia.
  - intros id p t Hp Hid. rewrite foldl_list_insert_out.
    + by intros [-> _]%lookup_replicate.
    + intros x [Hx Hx2]%elem_of_cells E.
      apply Hid. by rewrite (port_cell_inj x (id, p) Hx2 Hp E) in Hx.
Qed.

Lemma keep_redex_pure ags q x :
  (∀ id, id ∈ mine → ags !! N.to_nat id = Some (get_agent n id)) →
  keep_redex sigma w ags q x = Done (if decide (same_worker sigma w x = true) then q ++ [x] else q).
Proof.
  intros Hags. unfold keep_redex. case_decide as Hs.
  2: { destruct (same_worker sigma w x); [done|]. done. }
  rewrite Hs. destruct (same_worker_live x Hs) as [H1 H2].
  destruct (mine_live _ H1) as (a & Ha & _), (mine_live _ H2) as (b & Hb & _).
  rewrite (Hags _ H1), Ha. cbn [unwrap mbind outcome_bind]. by rewrite (Hags _ H2), Hb.
Qed.

Lemma empty_subnet : mine = [] → subnet_of n sigma w start r NetCore.new.
Proof.
  intros H0. assert (Hnone : ∀ id, sigma !! id ≠ Some w).
  { intros id Hid%Hmine. rewrite H0 in Hid. by apply elem_of_nil in Hid. }
  split; try done.
  - intros id. by rewrite decide_False.
  - intros id p bid _ Hid. by apply Hnone in Hid.
  - intros id p _ Hid. by apply Hnone in Hid.
  - intros m _. cbn. lia.
  - cbn. induction (redex_queue n) as [|x q IH]; [done|]. rewrite filter_cons, decide_False; [done|].
    intros [H _]%same_worker_live. rewrite H0 in H. by apply elem_of_nil in H.
  - intros id Hid. by apply elem_of_nil in Hid.
  - constructor.
Qed.

Lemma dead_in_range_spec ags id : id ∈ dead_in_range ags r →
  ags !! N.to_nat id = Some None ∧ id < N.of_nat (length ags).
Proof.
  intros [H _]%list_elem_of_filter. split; [done|]. apply lookup_lt_Some in H. lia.
Qed.

Lemma dead_in_range_nodup ags : NoDup (dead_in_range ags r).
Proof. apply NoDup_filter, NoDup_fmap_2; [intros ? ?; lia|apply range_u_nodup]. Qed.

Lemma build_subnet_spec : ∃ sub, build_subnet n mine sigma es w r = Done sub ∧
  subnet_of n sigma w start r sub ∧ root sub = None ∧ (mine ≠ [] → next_id sub = r.1).
Proof.
  unfold build_subnet. destruct (max_agent mine) as [m|] eqn:Em.
  2: { assert (mine = []) as E by (by destruct mine). exists NetCore.new.
       split_and!; [done|by apply empty_subnet|done|done]. }
  destruct (dense_arrays m Em) as (ags & ps & -> & La & Lp & A1 & A0 & P1 & P0).
  cbn [mbind outcome_bind].
  rewrite (fold_outcome_pure _ (λ q x, if decide (same_worker sigma w x = true) then q ++ [x] else q))
    by (intros; by apply keep_redex_pure).
  rewrite foldl_filter. cbn [mbind outcome_bind app]. eexists. split; [done|].
  destruct (max_agent_spec mine m Em) as [Hin Hle].
  split_and!; try done. split; cbn [agents ports redex_queue free_list].
  - intros id. unfold get_agent at 1. cbn [agents]. case_decide as Hs.
    + by rewrite A1 by (by apply Hmine).
    + apply A0. by apply mine_none.
  - intros id p bid Hp Hs Hb. rewrite get_target_cell. cbn [ports].
    rewrite P1 by (done || by apply Hmine). by apply value_cut.
  - intros id p Hp Hs Hb. rewrite get_target_cell. cbn [ports].
    rewrite P1 by (done || by apply Hmine). by apply value_copy.
  - intros id p Hp Hs. rewrite get_target_cell. cbn [ports].
    destruct (ps !! port_cell id p) as [t|] eqn:E; [|done]. eapply P0; [exact Hp| |exact E].
    by apply mine_none.
  - by rewrite La, Lp.
  - intros m' Hm'. rewrite La. specialize (Hm' m (proj1 (Hmine m) Hin)). lia.
  - done.
  - intros id [Hd Hlt]%dead_in_range_spec. split; [|done]. unfold get_agent. cbn [agents]. by rewrite Hd.
  - apply dead_in_range_nodup.
Qed.

(** *** The sparse builder *)

Definition agent_of (id : AgentId) : Agent := default (mkAgent Era 0) (get_agent n id).

Definition sparse_cells : list Slot := mine ≫= λ id, pair id <$> range_u (total_ports (symbol (agent_of id))).

Lemma elem_of_sparse_cells x : x ∈ sparse_cells ↔ x.1 ∈ mine ∧ valid_port n x.1 x.2.
Proof.
  unfold sparse_cells. rewrite list_elem_of_bind. destruct x as [i p]. cbn [fst snd]. split.
  - intros (id & (q & [= -> ->] & Hq%elem_of_range_u)%list_elem_of_fmap & Hid). split; [done|].
    destruct (mine_live id Hid) as (a & Ha & _). exists a. split; [done|].
    unfold agent_of in Hq. by rewrite Ha in Hq.
  - intros [Hi (a & Ha & Hp)]. exists i. split; [|done]. apply list_elem_of_fmap. exists p.
    split; [done|]. apply elem_of_range_u. unfold agent_of. by rewrite Ha.
Qed.

Lemma sparse_maps :
  ∃ ags ps, fold_outcome (sparse_agent n (border_overrides es)) (∅, ∅) mine = Done (ags, ps) ∧
    (∀ id, ags !! id = if decide (sigma !! id = Some w) then get_agent n id else None) ∧
    (∀ x t, ps !! x = Some t ↔ x ∈ sparse_cells ∧ t ≠ DISCONNECTED ∧
      port_value n (border_overrides es) x = t).
Proof.
  rewrite (fold_outcome_pure _ (λ acc id, (<[id := agent_of id]> acc.1,
    foldl (λ m p, if decide (port_value n (border_overrides es) (id, p) = DISCONNECTED) then m
                  else <[(id, p) := port_value n (border_overrides es) (id, p)]> m)
      acc.2 (range_u (total_ports (symbol (agent_of id))))))).
  2: { intros acc id Hid. destruct (mine_live id Hid) as (a & Ha & _). unfold sparse_agent.
       change (mjoin (agents n !! N.to_nat id)) with (get_agent n id). unfold agent_of.
       by rewrite Ha. }
  rewrite (foldl_pair (λ m id, <[id := agent_of id]> m)
    (λ m id, foldl (λ m p, if decide (port_value n (border_overrides es) (id, p) = DISCONNECTED) then m
                  else <[(id, p) := port_value n (border_overrides es) (id, p)]> m)
      m (range_u (total_ports (symbol (agent_of id)))))).
  rewrite (foldl_nested (λ m id p, if decide (port_value n (border_overrides es) (id, p) = DISCONNECTED)
    then m else <[(id, p) := port_value n (border_overrides es) (id, p)]> m)).
  fold sparse_cells. eexists _, _. split; [reflexivity|]. split.
  - intros id. apply option_eq. intros a. rewrite (foldl_insert_lookup (λ x, x) agent_of).
    2: { intros x y _ _ E. by f_equal. }
    case_decide as Hs.
    + split.
      * intros (x & Hx & <- & <-). destruct (mine_live x Hx) as (a & Ha & _). unfold agent_of. by rewrite Ha.
      * intros Ha. exists id. split; [by apply Hmine|]. split; [done|]. unfold agent_of. by rewrite Ha.
    + split; [|done]. intros (x & Hx%Hmine & <- & _). done.
  - intros x t.
    rewrite (foldl_cond_insert (λ x : Slot, port_value n (border_overrides es) (x.1, x.2) = DISCONNECTED)
      (λ x : Slot, (x.1, x.2)) (λ x, port_value n (border_overrides es) (x.1, x.2))).
    rewrite (foldl_insert_lookup (λ x : Slot, (x.1, x.2))).
    2: { intros [i p] [j q] _ _ [= -> ->]. done. }
    setoid_rewrite list_elem_of_filter. split.
    + intros ([i p] & [Hne Hin] & <- & <-). done.
    + intros (Hin & Hne & <-). exists x. destruct x as [i p]. by split_and!.
Qed.

Lemma dense_agents_length s len : length (Sparse.dense_agents s len) = len.
Proof.
  unfold Sparse.dense_agents. generalize (map_to_list (s_agents s)). intros l.
  induction l as [|e l IH]; cbn [foldr]; [apply length_replicate|by rewrite length_insert].
Qed.

Lemma max_id_lt s m : (∀ id a, s_agents s !! id = Some a → id < m) → Sparse.max_id s + 1 ≤ 1 `max` m.
Proof.
  intros H. unfold Sparse.max_id.
  assert (Hall : Forall (λ x, x < m) (map_to_list (s_agents s)).*1).
  { apply Forall_forall. intros x ([i a] & -> & Hin)%list_elem_of_fmap.
    apply elem_of_map_to_list in Hin. by apply (H i a). }
  induction Hall as [|x l Hx _ IH]; cbn [foldr]; lia.
Qed.

Lemma subnet_of_ext sub sub' : agents sub' = agents sub → ports sub' = ports sub →
  redex_queue sub' = redex_queue sub → free_list sub' = free_list sub →
  subnet_of n sigma w start r sub → subnet_of n sigma w start r sub'.
Proof.
  intros EA EP EQ EF [H1 H2 H3 H4 H5 H6 H7 H8 H9].
  assert (GA : ∀ id, get_agent sub' id = get_agent sub id) by (intros; unfold get_agent; by rewrite EA).
  assert (GT : ∀ id p, sub'.[id, p] = sub.[id, p]) by (intros; unfold get_target; by rewrite EP).
  split; intros; rewrite ?GA, ?GT, ?EA, ?EP, ?EQ, ?EF in *; eauto.
Qed.

Lemma value_cases id p : sigma !! id = Some w →
  (∃ bid, border_of (cuts n sigma) start (id, p) bid ∧
    port_value n (border_overrides es) (id, p) = FreePort bid) ∨
  ((∀ bid, ¬ border_of (cuts n sigma) start (id, p) bid) ∧
    port_value n (border_overrides es) (id, p) = n.[id, p]).
Proof.
  intros Hs. destruct (border_overrides es !! (id, p)) as [bid|] eqn:E.
  - left. exists bid. apply overrides_lookup in E as [_ Hb]. split; [done|]. by apply value_cut.
  - right. assert (Hnb : ∀ bid, ¬ border_of (cuts n sigma) start (id, p) bid).
    { intros bid Hb. rewrite (proj2 (overrides_lookup id p bid)) in E; done. }
    split; [done|]. by apply value_copy.
Qed.

Lemma sparse_swf ags ps q : r.1 ≤ u32_MAX → (∀ id, id ∈ mine → id < r.1) →
  (∀ id, ags !! id = if decide (sigma !! id = Some w) then get_agent n id else None) →
  (∀ x t, ps !! x = Some t ↔ x ∈ sparse_cells ∧ t ≠ DISCONNECTED ∧
      port_value n (border_overrides es) x = t) →
  swf (mkSparse ags ps q r.1 None (freeport_redirects n)).
Proof.
  intros Hr Hlt HA HP. split; cbn [s_agents s_ports s_next_id].
  - intros id a. rewrite HA. case_decide as Hs; [|done]. intros Ha.
    split; [by apply (wf_ids n Hwf)|]. by apply Hlt, Hmine.
  - done.
  - intros id p t ([Hid (a & Ha & Hp)]%elem_of_sparse_cells & Hne & _)%HP. split; [done|].
    exists a. cbn [fst snd] in *. rewrite HA, decide_True by (by apply Hmine). done.
  - intros id p b q'. rewrite !HP, !elem_of_sparse_cells. cbn [fst snd].
    intros ([Hid Hv] & _ & Hval). pose proof (proj1 (Hmine id) Hid) as Hs.
    destruct (value_cases id p Hs) as [(bid & _ & E)|[Hnb E]]; rewrite E in Hval; [done|].
    destruct (inner_wire n sigma w start id p b q' Hwf (valid_port_lt3 _ _ _ Hv) Hs Hnb Hval) as (Hvb & Hsb & Hback & Hne & Hnb').
    split; [|done]. split; [split; [by apply Hmine|done]|]. split; [done|].
    rewrite value_copy by done. done.
Qed.

Lemma build_subnet_sparse_spec :
  r.1 ≤ r.2 → r.1 ≤ u32_MAX → (∀ id, id ∈ mine → id < r.1 ∧ id < Sparse.MAX_DENSE_ARENA_SLOTS) →
  ∃ sub, build_subnet_sparse n mine sigma es w r = Done sub ∧
  subnet_of n sigma w start r sub ∧ root sub = None ∧ next_id sub = r.1.
Proof.
  intros Hr12 Hr Hlt. unfold build_subnet_sparse. destruct (decide (mine = [])) as [E0|E0].
  { rewrite E0. eexists. split; [done|]. split_and!; try done.
    by apply (subnet_of_ext NetCore.new), empty_subnet. }
  rewrite match_nonempty by done.
  destruct sparse_maps as (ags & ps & -> & HA & HP). cbn [mbind outcome_bind].
  set (q := filter _ (redex_queue n)).
  pose proof (sparse_swf ags ps q Hr (λ id Hid, proj1 (Hlt id Hid)) HA HP) as Hswf.
  set (sp := mkSparse ags ps q r.1 None (freeport_redirects n)) in *.
  assert (Hags : ∀ id a, ags !! id = Some a → id ∈ mine).
  { intros id a. rewrite HA. case_decide; [|done]. intros _. by apply Hmine. }
  assert (Hmax : Sparse.max_id sp < Sparse.MAX_DENSE_ARENA_SLOTS).
  { pose proof (max_id_lt sp Sparse.MAX_DENSE_ARENA_SLOTS) as Hm. unfold Sparse.MAX_DENSE_ARENA_SLOTS in *.
    enough (Sparse.max_id sp + 1 ≤ 1 `max` 16777216) by lia. apply Hm.
    intros id a Ha. by apply Hlt, (Hags id a). }
  destruct (to_dense_ok sp (Some r) Hswf Hmax) as (sub & Hsub & HD); [by destruct r|].
  rewrite Hsub. eexists. split; [done|].
  assert (H0 : 0 < s_next_id sp).
  { cbn. destruct (max_agent mine) as [m|] eqn:Em; [|by destruct mine].
    destruct (Hlt m); [by apply (max_agent_spec mine)|lia]. }
  pose proof (densified_wf sp (Some r) sub Hswf H0 HD) as Hwsub.
  destruct HD as [DA DP Hsim Hfree Hnd _].
  split_and!; [|change (root sub = None); by rewrite <- (sim_root sp sub Hsim)
    |change (next_id sub = r.1); by rewrite <- (sim_next sp sub Hsim)].
  apply (subnet_of_ext sub); try done.
  assert (HT : ∀ id p, p < 3 → sub.[id, p] = default DISCONNECTED (ps !! (id, p))).
  { intros id p Hp. rewrite <- (sim_target sp sub Hsim) by done. unfold Sparse.get_target. cbn.
    by destruct (ps !! (id, p)). }
  assert (HV : ∀ id p, p < 3 → sigma !! id = Some w →
    sub.[id, p] = port_value n (border_overrides es) (id, p)).
  { intros id p Hp Hs. rewrite HT by done. destruct (ps !! (id, p)) as [t|] eqn:E.
    - apply HP in E as (_ & _ & ->). done.
    - destruct (decide (port_value n (border_overrides es) (id, p) = DISCONNECTED)) as [->|Hne]; [done|].
      exfalso. assert (Hid : id ∈ mine) by (by apply Hmine). destruct (mine_live id Hid) as (a & Ha & _).
      destruct (N.ltb_spec p (total_ports (symbol a))).
      + enough (ps !! (id, p) = Some (port_value n (border_overrides es) (id, p))) by congruence.
        apply HP. split; [|done]. apply elem_of_sparse_cells. split; [done|]. by exists a.
      + by rewrite (value_unused id a p) in Hne. }
  split.
  - intros id. by rewrite <- (sim_agents sp sub Hsim), <- HA.
  - intros id p bid Hp Hs Hb. rewrite HV by done. by apply value_cut.
  - intros id p Hp Hs Hb. rewrite HV by done. by apply value_copy.
  - intros id p Hp Hs. rewrite HT by done. destruct (ps !! (id, p)) as [t|] eqn:E; [|done].
    apply HP in E as ([Hid _]%elem_of_sparse_cells & _). by apply Hmine in Hid.
  - by apply wf_ports_len.
  - intros m Hm. pose proof (max_id_lt sp m) as Hle. rewrite DA.
    rewrite dense_agents_length. assert (1 ≤ m).
    { destruct (max_agent mine) as [x|] eqn:Em; [|by destruct mine].
      enough (x < m) by lia. apply Hm, Hmine. by apply (max_agent_spec mine). }
    enough (Sparse.max_id sp + 1 ≤ 1 `max` m) by lia. apply Hle. intros id a Ha.
    by apply Hm, Hmine, (Hags id a).
  - rewrite <- (sim_queue sp sub Hsim). cbn. subst q. apply list_filter_iff. intros x. split.
    + by intros (? & _).
    + intros Hx. split; [done|]. by apply same_worker_live.
  - intros id Hid. apply Hfree in Hid as (Hle & Hd & _). split; [done|].
    rewrite DA, dense_agents_length. lia.
  - done.
Qed.

(** *** The configured builder *)

Lemma build_subnet_with_config_spec config i :
  sparse_build config = true → r.1 ≤ r.2 → r.1 ≤ u32_MAX →
  (∀ id, id ∈ mine → id < r.1 ∧ id < Sparse.MAX_DENSE_ARENA_SLOTS) →
  ∃ sub, build_subnet_with_config config i n mine sigma es w r = Done (inl sub) ∧
    subnet_of n sigma w start r sub ∧ root sub = None ∧ next_id sub = r.1.
Proof.
  intros Hcfg Hr12 Hr Hlt. unfold build_subnet_with_config. rewrite Hcfg, andb_false_r, andb_true_r.
  destruct ((4 * N.of_nat (length mine) <? effective_arena_size mine) || bool_decide (mine = [])) eqn:Eb.
  - destruct build_subnet_sparse_spec as (sub & -> & Hs & Hroot & Hn); [done..|].
    eexists. split; [done|]. split_and!; [|done|done]. by apply (subnet_of_ext sub).
  - apply orb_false_iff in Eb as [_ Eb%bool_decide_eq_false].
    destruct build_subnet_spec as (sub & -> & Hs & Hroot & Hn).
    eexists. split; [done|]. split_and!; [|done|by apply Hn]. by apply (subnet_of_ext sub).
Qed.

End subnet.

(** ** Grouping *)

Lemma group_fold (l : list (AgentId * WorkerId)) v :
  Forall (λ e, (N.to_nat e.2 < length v)%nat) l →
  ∃ v', fold_outcome (λ v e, push_at (N.to_nat e.2) e.1 v) v l = Done v' ∧ length v' = length v ∧
    ∀ w, v' !! w = (λ es, es ++ (filter (λ e, N.to_nat e.2 = w) l).*1) <$> v !! w.
Proof.
  intros Hl. revert v Hl. induction l as [|[id w0] l IH]; intros v Hl.
  { exists v. split_and!; try done. intros w. cbn. destruct (v !! w); cbn; by rewrite ?app_nil_r. }
  apply Forall_cons in Hl as [H0 Hl]. cbn [fst snd] in H0.
  destruct (push_at_Done (N.to_nat w0) id v H0) as (v1 & Hv1 & L1 & A1).
  cbn [fold_outcome fst snd]. rewrite Hv1. destruct (IH v1) as (v' & -> & L2 & A2).
  { rewrite L1. done. }
  exists v'. split_and!; [done|congruence|]. intros w. rewrite A2, A1, filter_cons. cbn [fst snd].
  destruct (decide (N.to_nat w0 = w)); destruct (v !! w); cbn; try done. by rewrite <- app_assoc.
Qed.

Lemma group_agents_spec n k sigma : allocation_ok n k sigma →
  ∃ v, group_agents sigma k = Done v ∧ ∀ w, (w < N.to_nat k)%nat → ∃ l, v !! w = Some l ∧
    ∀ id, id ∈ l ↔ sigma !! id = Some (N.of_nat w).
Proof.
  intros Hal. unfold group_agents.
  destruct (group_fold (map_to_list sigma) (replicate (N.to_nat k) [])) as (v & -> & _ & A).
  { apply Forall_forall. intros [id w] Hin%elem_of_map_to_list. rewrite length_replicate.
    pose proof (al_range n k sigma Hal id w Hin). cbn [snd]. lia. }
  exists v. split; [done|]. intros w Hw. rewrite A, lookup_replicate_2 by done. cbn.
  eexists. split; [done|]. intros id. rewrite list_elem_of_fmap. setoid_rewrite list_elem_of_filter. split.
  - intros ([i w'] & -> & <- & Hin%elem_of_map_to_list). cbn [fst snd]. by rewrite N2Nat.id.
  - intros Hs. exists (id, N.of_nat w). cbn [fst snd]. rewrite Nat2N.id.
    split; [done|]. split; [done|]. by apply elem_of_map_to_list.
Qed.

(** ** Ranges *)

Lemma id_range_at_spec k base i : k ≤ 16777216 → base < u32_MAX → i < k →
  base ≤ range_start (id_range_at k base i) ≤ range_end (id_range_at k base i) ∧
  range_end (id_range_at k base i) ≤ u32_MAX.
Proof.
  intros Hk Hb Hi. unfold id_range_at, chunk_size, wrap64, u32_MAX in *. cbn [range_start range_end].
  set (ch := 100000 `max` (base * 10)). assert (Hch : 0 < ch ≤ 42949672950) by lia.
  assert ((i + 1) * ch ≤ 16777216 * 42949672950) by (apply N.mul_le_mono; lia).
  assert (i * ch ≤ (i + 1) * ch) by (apply N.mul_le_mono_r; lia).
  rewrite (N.mod_small (i * ch)), (N.mod_small (base + i * ch)) by lia.
  destruct (i =? k - 1); [lia|].
  rewrite (N.mod_small ((i + 1) * ch)), (N.mod_small (base + (i + 1) * ch)) by lia. lia.
Qed.

(** ** The plan *)

(** The index of a partition: its ends of the cuts, by border id. *)
Lemma entry_index_lookup n sigma w start es bid x : wf n →
  (∀ id p b, (id, p, b) ∈ es ↔ sigma !! id = Some w ∧ border_of (cuts n sigma) start (id, p) b) →
  entry_index es !! bid = Some x ↔
  ∃ id p, x = AgentPort id p ∧ sigma !! id = Some w ∧ border_of (cuts n sigma) start (id, p) bid.
Proof.
  intros Hwf Hes. unfold entry_index.
  rewrite (foldl_insert_lookup snd (λ e : BorderEntry, AgentPort e.1.1 e.1.2)).
  - split.
    + intros ([[id p] b] & Hin%Hes & <- & <-). by exists id, p.
    + intros (id & p & -> & Hs & Hb). exists (id, p, bid). split_and!; [by apply Hes|done|done].
  - intros [[i p] b] [[j q] b'] [Hi Hb]%Hes [Hj Hb']%Hes E. cbn in E. subst b'. cbn.
    destruct Hb as (k1 & c & Hc & E1 & Hx), Hb' as (k2 & c' & Hc' & E2 & Hy).
    assert (k1 = k2) by lia. subst k2. rewrite Hc in Hc'. injection Hc' as <-.
    apply list_elem_of_lookup_2 in Hc. destruct (cut_ends n sigma c _ Hwf Hc Hx) as (_ & _ & Hd & _).
    destruct Hx as [Hx|Hx], Hy as [Hy|Hy]; rewrite Hx, Hy in Hd || rewrite Hx in Hy; cbn in *; congruence.
Qed.

(** The partition of worker [w]. *)
Record partition_of (n : Net) (sigma : gmap AgentId WorkerId) (w : WorkerId) (p : Partition) : Prop := {
  po_worker : worker_id p = w;
  po_subnet : ∃ r, subnet_of n sigma w (first_border_id n) r (subnet p);
  po_wf : wf (subnet p);
  po_root : root (subnet p) = propagate_root n sigma w;
  po_next : next_id n ≤ next_id (subnet p);
  po_index : ∀ bid x, free_port_index p !! bid = Some x ↔
    ∃ id q, x = AgentPort id q ∧ sigma !! id = Some w ∧
      border_of (cuts n sigma) (first_border_id n) (id, q) bid;
  po_borders : border_id_start p = first_border_id n ∧
    border_id_end p = first_border_id n + N.of_nat (length (cuts n sigma));
  po_start : next_id (subnet p) = range_start (p_id_range p);
}.

Record partitioned (n : Net) (num_workers : N) (sigma : gmap AgentId WorkerId) (plan : PartitionPlan) : Prop := {
  pd_len : length (partitions plan) = N.to_nat num_workers;
  pd_parts : ∀ i p, partitions plan !! i = Some p → partition_of n sigma (N.of_nat i) p;
  pd_ranges : ∀ i p, partitions plan !! i = Some p →
    p_id_range p = id_range_at num_workers (next_id n) (N.of_nat i);
  pd_borders : ∀ bid a b, plan_borders plan !! bid = Some (a, b) ↔
    ∃ k x, cuts n sigma !! k = Some x ∧ bid = first_border_id n + N.of_nat k ∧
      a = slot_port x.1 ∧ b = slot_port x.2;
  pd_next : next_border_id plan = first_border_id n + N.of_nat (length (cuts n sigma));
}.

(** What a net must satisfy for the split to be within the machine's bounds. *)
Record splittable (n : Net) (num_workers : N) (sigma : gmap AgentId WorkerId) : Prop := {
  sp_workers : num_workers ≤ 16777216;
  sp_next : next_id n < u32_MAX;
  sp_ids : ∀ id, live n id → id < Sparse.MAX_DENSE_ARENA_SLOTS;
  sp_ports : ∀ f, FreePort f ∈ ports n → f ≤ u32_MAX;
  sp_borders : first_border_id n + N.of_nat (length (cuts n sigma)) ≤ u32_MAX;
}.

Lemma make_partition_spec n k sigma config v wires ranges i :
  wf n → allocation_ok n k sigma → splittable n k sigma → sparse_build config = true →
  (i < N.to_nat k)%nat →
  (∃ l, v !! i = Some l ∧ ∀ id, id ∈ l ↔ sigma !! id = Some (N.of_nat i)) →
  wires_of n k sigma wires →
  ranges !! i = Some (id_range_at k (next_id n) (N.of_nat i)) →
  ∃ p, make_partition config n sigma v wires ranges i = Done p ∧ partition_of n sigma (N.of_nat i) p ∧
    p_id_range p = id_range_at k (next_id n) (N.of_nat i).
Proof.
  intros Hwf Hal [Hk Hnext Hids _ Hb] Hcfg Hi (mine & Hv & Hmine) Hw Hr.
  destruct (wo_entries n k sigma wires Hw i Hi) as (es & Hes & Helem).
  destruct (id_range_at_spec k (next_id n) (N.of_nat i)) as [[Hr1 Hr2] Hr3]; [done|done|lia|].
  set (r := id_range_at k (next_id n) (N.of_nat i)) in *.
  assert (Hlive : ∀ id, id ∈ mine → live n id) by (intros id Hid%Hmine; apply (al_dom n k sigma Hal); by eexists).
  unfold make_partition. rewrite Hr, Hv. cbn [unwrap mbind outcome_bind].
  unfold BorderEntry in *. rewrite Hes. cbn [unwrap mbind outcome_bind].
  rewrite (as_u32_small (N.of_nat i)) by (unfold u32_MAX; lia).
  destruct (build_subnet_with_config_spec n k sigma (N.of_nat i) (first_border_id n) mine es
    (range_start r, range_end r) Hwf Hal Hmine Helem config i Hcfg) as (sub & -> & Hs & _ & Hn).
  { cbn [fst snd]. lia. } { cbn [fst snd]. lia. }
  { intros id Hid. cbn [fst snd]. pose proof (live_lt_next n id Hwf (Hlive id Hid)). split; [lia|]. by apply Hids, Hlive. }
  cbn [mbind outcome_bind]. eexists. split; [done|]. cbn [fst snd] in Hn.
  set (m := match max_agent mine with Some m => u32_succ m | None => 0 end).
  set (sub' := with_root (propagate_root n sigma (N.of_nat i)) (with_next_id (next_id sub `max` m) sub)).
  assert (Hs' : subnet_of n sigma (N.of_nat i) (first_border_id n) (range_start r, range_end r) sub')
    by (by apply (subnet_of_ext n sigma (N.of_nat i) _ _ sub)).
  assert (Hm : (∀ id, id ∈ mine → id < m) ∧ m ≤ next_id n).
  { subst m. destruct (max_agent mine) as [x|] eqn:Ex; [|split; [|lia]; by destruct mine; [intros ? []%elem_of_nil|]].
    destruct (max_agent_spec mine x Ex) as [Hin Hle].
    pose proof (live_lt_next n x Hwf (Hlive x Hin)). rewrite u32_succ_lt by lia.
    split; [|lia]. intros id Hid. specialize (Hle id Hid). lia. }
  destruct Hm as [Hm1 Hm2]. split; [|done].
  split; cbn [p_id_range worker_id subnet free_port_index border_id_start border_id_end]; try done.
  - by eexists.
  - eapply (subnet_wf n sigma (N.of_nat i)); [done|exact Hs'|..]; cbn.
    + pose proof (sn_arena _ _ _ _ _ _ Hs' m) as Ha. cbn in Ha.
      enough (N.of_nat (length (agents sub)) ≤ m) by lia. apply Ha. intros id Hid. by apply Hm1, Hmine.
    + rewrite Hn. lia.
  - cbn. rewrite Hn. lia.
  - intros bid x. by apply entry_index_lookup.
  - by rewrite (wo_start n k sigma wires Hw), (wo_end n k sigma wires Hw).
  - change (next_id sub `max` m = range_start r). rewrite Hn. lia.
Qed.

(** The partition loop, when every iteration returns. *)
Lemma collect_loop {A B} (f : A → outcome B) (Q : A → B → Prop) (l : list A) (acc : list B) :
  (∀ x, x ∈ l → ∃ y, f x = Done y ∧ Q x y) →
  ∃ ys, fold_outcome (λ acc x, y ← f x; mret (acc ++ [y])) acc l = Done (acc ++ ys) ∧ Forall2 Q l ys.
Proof.
  revert acc. induction l as [|x l IH]; intros acc H.
  { exists []. rewrite app_nil_r. split; [done|constructor]. }
  destruct (H x) as (y & Hy & Hq); [set_solver|]. cbn [fold_outcome]. rewrite Hy.
  cbn [mbind outcome_bind mret outcome_ret].
  destruct (IH (acc ++ [y])) as (ys & -> & Hall); [intros; apply H; set_solver|].
  exists (y :: ys). rewrite <- app_assoc. split; [done|]. by constructor.
Qed.

Lemma split_spec `{PartitionStrategy} n k config sigma :
  wf n → 2 ≤ k → allocate n k = Done sigma → allocation_ok n k sigma → splittable n k sigma →
  sparse_build config = true →
  ∃ plan, split_with_config n k config = Done plan ∧ partitioned n k sigma plan.
Proof.
  intros Hwf Hk Hs Hal Hsp Hcfg. unfold split_with_config.
  destruct (N.eqb_spec k 0); [lia|]. destruct (N.leb_spec k 1); [lia|].
  rewrite Hs. cbn [mbind outcome_bind].
  destruct (group_agents_spec n k sigma Hal) as (v & -> & Hv). cbn [mbind outcome_bind].
  destruct (classify_wires_spec n k sigma Hwf Hal (sp_borders n k sigma Hsp)) as (c & -> & Hc).
  cbn [mbind outcome_bind]. unfold compute_id_ranges. rewrite (proj2 (N.ltb_lt _ _)) by lia.
  cbn [mbind outcome_bind].
  destruct (collect_loop
    (make_partition config n sigma v c (id_range_at k (next_id n) <$> range_u k))
    (λ i p, partition_of n sigma (N.of_nat i) p ∧ p_id_range p = id_range_at k (next_id n) (N.of_nat i)) (seq 0 (N.to_nat k)) []) as (ps & Hps & Hall).
  { intros i Hi%elem_of_seq. apply make_partition_spec with (k := k); try done; [lia|by apply Hv; lia|].
    rewrite list_lookup_fmap. unfold range_u. rewrite list_lookup_fmap, lookup_seq_lt by lia. done. }
  rewrite Hps. cbn [mbind outcome_bind app]. eexists. split; [done|].
  split; cbn [partitions plan_borders next_border_id].
  - by rewrite <- (Forall2_length _ _ _ Hall), length_seq.
  - intros i p Hp. destruct (Forall2_lookup_r _ _ _ _ _ Hall Hp) as (j & Hj & Hpo).
    apply lookup_seq in Hj as [-> _]. apply Hpo.
  - intros i p Hp. destruct (Forall2_lookup_r _ _ _ _ _ Hall Hp) as (j & Hj & Hpo).
    apply lookup_seq in Hj as [-> _]. apply Hpo.
  - apply (wo_borders n k sigma c Hc).
  - apply (wo_end n k sigma c Hc).
Qed.
