(* ===== verification/BorderResolver.v ===== *)
(** The coordinator's resolution of border redexes (merge/border_resolver.rs):
    one function per rule, the dispatcher, and the packaging per worker.  The
    request ids and the border-id allocator are in BorderGraph.v. *)
From S2P Require Import Prelude NetTypes NetCore Partition BorderGraph.
Local Open Scope N_scope.

(** ** Data *)

Record WorkerDeltas : Type := mkWorkerDeltas {
  wd_border_deltas : list BorderDelta;
  wd_local_reconnections : list (PortRef * PortRef);
}.

Record CommutationBatch : Type := mkBatch {
  commutation_id : N;
  cb_worker : WorkerId;
  target_symbols : list Symbol;
  local_wiring : list (N * N * PortRef);
}.

Record BorderResolution : Type := mkResolution {
  worker_deltas : list (WorkerId * WorkerDeltas);
  br_resolved_borders : list (N * WorkerId * WorkerId);
  br_new_borders : list AddBorderEntry;
  br_pending_commutations : list CommutationBatch;
  br_pending_new_borders : list PendingNewBorder;
}.

Record RoundStartDispatch : Type := mkDispatch {
  rs_border_deltas : list BorderDelta;
  rs_local_reconnections : list (PortRef * PortRef);
  rs_resolved_borders : list N;
  rs_new_borders : list (N * PortRef);
  rs_pending_commutations : list CommutationBatch;
}.

Definition dispatch_default : RoundStartDispatch := mkDispatch [] [] [] [] [].

(** [LocalWiringHint] and [PendingCommutation], the wire form of a batch. *)
Record LocalWiringHint : Type := mkHint { src_slot : N; src_port : N; hint_target : PortRef }.

Record PendingCommutation : Type := mkPendingCommutation {
  pc_request_id : N;
  pc_target_symbols : list Symbol;
  pc_local_wiring : list LocalWiringHint;
}.

Definition commutation_batch_to_pending (b : CommutationBatch) : PendingCommutation :=
  mkPendingCommutation (encode_request_id (commutation_id b) 0) (target_symbols b)
    ((λ w, mkHint w.1.1 w.1.2 w.2) <$> local_wiring b).

(** ** Packaging *)

Definition extend_deltas (wd : WorkerDeltas) (d : RoundStartDispatch) : RoundStartDispatch :=
  mkDispatch (rs_border_deltas d ++ wd_border_deltas wd) (rs_local_reconnections d ++ wd_local_reconnections wd)
    (rs_resolved_borders d) (rs_new_borders d) (rs_pending_commutations d).
Definition push_resolved (bid : N) (d : RoundStartDispatch) : RoundStartDispatch :=
  mkDispatch (rs_border_deltas d) (rs_local_reconnections d) (rs_resolved_borders d ++ [bid])
    (rs_new_borders d) (rs_pending_commutations d).
Definition push_new (e : N * PortRef) (d : RoundStartDispatch) : RoundStartDispatch :=
  mkDispatch (rs_border_deltas d) (rs_local_reconnections d) (rs_resolved_borders d)
    (rs_new_borders d ++ [e]) (rs_pending_commutations d).
Definition push_batch (b : CommutationBatch) (d : RoundStartDispatch) : RoundStartDispatch :=
  mkDispatch (rs_border_deltas d) (rs_local_reconnections d) (rs_resolved_borders d)
    (rs_new_borders d) (rs_pending_commutations d ++ [b]).

(** [&mut per_worker[w]]: indexing panics out of range. *)
Definition at_worker (w : WorkerId) (f : RoundStartDispatch → RoundStartDispatch)
    (v : list RoundStartDispatch) : outcome (list RoundStartDispatch) :=
  d ← unwrap (v !! N.to_nat w); mret (<[N.to_nat w := f d]> v).

Definition package_resolved (v : list RoundStartDispatch) (r : N * WorkerId * WorkerId)
    : outcome (list RoundStartDispatch) :=
  let '(bid, wa, wb) := r in
  v ← at_worker wa (push_resolved bid) v;
  if wa =? wb then mret v else at_worker wb (push_resolved bid) v.

Definition package_entry (v : list RoundStartDispatch) (e : AddBorderEntry) : outcome (list RoundStartDispatch) :=
  v ← at_worker (e_worker_a e) (push_new (e_border_id e, e_side_a e)) v;
  if e_worker_a e =? e_worker_b e then mret v
  else at_worker (e_worker_b e) (push_new (e_border_id e, e_side_b e)) v.

Definition package_one (acc : list RoundStartDispatch * list PendingNewBorder) (r : BorderResolution)
    : outcome (list RoundStartDispatch * list PendingNewBorder) :=
  v ← fold_outcome (λ v e, at_worker e.1 (extend_deltas e.2) v) acc.1 (worker_deltas r);
  v ← fold_outcome package_resolved v (br_resolved_borders r);
  v ← fold_outcome package_entry v (br_new_borders r);
  v ← fold_outcome (λ v b, at_worker (cb_worker b) (push_batch b) v) v (br_pending_commutations r);
  mret (v, acc.2 ++ br_pending_new_borders r).

Definition package_resolutions_with_pending (rs : list BorderResolution) (num_workers : nat)
    : outcome (list (WorkerId * RoundStartDispatch) * list PendingNewBorder) :=
  '(v, pending) ← fold_outcome package_one (replicate num_workers dispatch_default, []) rs;
  mret (imap (λ w d, (as_u32 (N.of_nat w), d)) v, pending).

Definition package_resolutions (rs : list BorderResolution) (num_workers : nat)
    : outcome (list (WorkerId * RoundStartDispatch)) :=
  '(d, _) ← package_resolutions_with_pending rs num_workers; mret d.

(** ** Allocation of commutation ids ([u64], checked) *)

Definition u64_MAX : N := 18446744073709551615.

Definition commutation_alloc_next (next : N) : outcome (N * N) :=
  if next =? u64_MAX then Panic else Done (next, next + 1).

(** ** Materialisation *)

Definition materialize_agent (p : Partition) (port : PortRef) : option (AgentId * Symbol) :=
  match port with
  | AgentPort id 0 => (λ a, (id, symbol a)) <$> mjoin (agents (subnet p) !! N.to_nat id)
  | _ => None
  end.

Definition assert_agent (p : Partition) (port : PortRef) : outcome (AgentId * Symbol) :=
  unwrap (materialize_agent p port).

(** ** The rules *)

(** Both target reads of a consumed agent. *)
Definition aux_targets (p : Partition) (id : AgentId) : PortRef * PortRef :=
  (get_target (subnet p) (AgentPort id 1), get_target (subnet p) (AgentPort id 2)).

Definition resolved_of (st : BorderState) : list (N * WorkerId * WorkerId) :=
  [(border_id st, worker_a st, worker_b st)].

Definition resolve_con_con (st : BorderState) (pa pb : Partition) (id_a id_b : AgentId) : BorderResolution :=
  let '(t_a1, t_a2) := aux_targets pa id_a in
  let '(t_b1, t_b2) := aux_targets pb id_b in
  mkResolution [(worker_a st, mkWorkerDeltas [] [(t_a1, t_b2); (t_a2, t_b1)])] (resolved_of st) [] [] [].

Definition resolve_dup_dup (st : BorderState) (pa pb : Partition) (id_a id_b : AgentId) : BorderResolution :=
  let '(t_a1, t_a2) := aux_targets pa id_a in
  let '(t_b1, t_b2) := aux_targets pb id_b in
  mkResolution [(worker_a st, mkWorkerDeltas [] [(t_a1, t_b1); (t_a2, t_b2)])] (resolved_of st) [] [] [].

Definition resolve_era_era (st : BorderState) : BorderResolution :=
  mkResolution [] (resolved_of st) [] [] [].

Definition SLOT_MARKER_BASE : N := u32_MAX - 10000.

Definition slot_marker (slot : N) : AgentId := SLOT_MARKER_BASE + slot.

(** The wiring of the batch being filled, the pending borders, the next id. *)
Abbreviation Emit := (list (N * N * PortRef) * list PendingNewBorder * N)%type (only parsing).

Definition emit_external_principal (target : PortRef) (target_home : WorkerId) (cid new_slot : N)
    (new_worker : WorkerId) (acc : Emit) : outcome Emit :=
  let '(wiring, pending, next) := acc in
  match target with
  | AgentPort _ _ =>
      if new_worker =? target_home then mret (wiring ++ [(new_slot, 0, target)], pending, next)
      else
        '(next, bid) ← border_alloc_next next;
        mret (wiring, pending ++ [mkPending bid (Pending cid new_slot 0) (Concrete target) new_worker target_home], next)
  | FreePort _ =>
      '(next, bid) ← border_alloc_next next;
      mret (wiring, pending ++ [mkPending bid (Pending cid new_slot 0) (Concrete target) new_worker target_home], next)
  end.

(** Slots 0 and 1 of the constructor's worker are p and r, those of the
    duplicator's worker q and s. *)
Definition resolve_con_dup (st : BorderState) (p_con p_dup : Partition) (id_con id_dup : AgentId)
    (worker_con worker_dup : WorkerId) (next_border next_cid : N) : outcome (BorderResolution * N * N) :=
  let '(t_c1, t_c2) := aux_targets p_con id_con in
  let '(t_d1, t_d2) := aux_targets p_dup id_dup in
  '(cid_con, next_cid) ← commutation_alloc_next next_cid;
  '(cid_dup, next_cid) ← commutation_alloc_next next_cid;
  '(con_w, pend, nb) ← emit_external_principal t_c1 worker_con cid_con 0 worker_con ([], [], next_border);
  '(dup_w, pend, nb) ← emit_external_principal t_c2 worker_con cid_dup 0 worker_dup ([], pend, nb);
  '(con_w, pend, nb) ← emit_external_principal t_d1 worker_dup cid_con 1 worker_con (con_w, pend, nb);
  '(dup_w, pend, nb) ← emit_external_principal t_d2 worker_dup cid_dup 1 worker_dup (dup_w, pend, nb);
  let con_w := con_w ++ [(0, 1, AgentPort (slot_marker 1) 1)] in
  let dup_w := dup_w ++ [(0, 2, AgentPort (slot_marker 1) 2)] in
  '(nb, bid1) ← border_alloc_next nb;
  '(nb, bid2) ← border_alloc_next nb;
  let pend := pend ++
    [mkPending bid1 (Pending cid_con 0 2) (Pending cid_dup 1 1) worker_con worker_dup;
     mkPending bid2 (Pending cid_dup 0 1) (Pending cid_con 1 2) worker_dup worker_con] in
  mret (mkResolution [] (resolved_of st) []
          [mkBatch cid_con worker_con [Dup; Con] con_w; mkBatch cid_dup worker_dup [Dup; Con] dup_w] pend,
        nb, next_cid).

Definition emit_erasure_principal (g : BorderGraph) (target : PortRef) (cid era_slot : N) (era_worker : WorkerId)
    (acc : list (N * N * PortRef) * list PendingNewBorder) : list (N * N * PortRef) * list PendingNewBorder :=
  match target with
  | AgentPort _ _ => (acc.1 ++ [(era_slot, 0, target)], acc.2)
  | FreePort bid =>
      match borders g !! bid with
      | Some existing =>
          let '(other_side, other_worker) :=
            if worker_a existing =? era_worker then (side_b existing, worker_b existing)
            else (side_a existing, worker_a existing) in
          (acc.1, acc.2 ++ [mkPending bid (Pending cid era_slot 0) (Concrete other_side) era_worker other_worker])
      | None =>
          (acc.1, acc.2 ++ [mkPending bid (Pending cid era_slot 0) (Concrete target) era_worker era_worker])
      end
  end.

Definition resolve_non_era_era (st : BorderState) (g : BorderGraph) (p : Partition) (non_era_id : AgentId)
    (worker_non_era : WorkerId) (next_cid : N) : outcome (BorderResolution * N) :=
  let '(t_1, t_2) := aux_targets p non_era_id in
  '(cid, next_cid) ← commutation_alloc_next next_cid;
  let acc := emit_erasure_principal g t_1 cid 0 worker_non_era ([], []) in
  let '(wiring, pending) := emit_erasure_principal g t_2 cid 1 worker_non_era acc in
  mret (mkResolution [] (resolved_of st) [] [mkBatch cid worker_non_era [Era; Era] wiring] pending, next_cid).

(** The dispatcher: the graph and the two allocators go in and out. *)
Definition resolve_border_redex (g : BorderGraph) (parts : list Partition) (bid next_border next_cid : N)
    : outcome (BorderResolution * BorderGraph * N * N) :=
  st ← unwrap (borders g !! bid);
  pa ← unwrap (parts !! N.to_nat (worker_a st));
  pb ← unwrap (parts !! N.to_nat (worker_b st));
  '(id_a, sym_a) ← assert_agent pa (side_a st);
  '(id_b, sym_b) ← assert_agent pb (side_b st);
  '(r, nb, nc) ←
    match sym_a, sym_b with
    | Con, Con => mret (resolve_con_con st pa pb id_a id_b, next_border, next_cid)
    | Dup, Dup => mret (resolve_dup_dup st pa pb id_a id_b, next_border, next_cid)
    | Era, Era => mret (resolve_era_era st, next_border, next_cid)
    | Con, Dup => resolve_con_dup st pa pb id_a id_b (worker_a st) (worker_b st) next_border next_cid
    | Dup, Con => resolve_con_dup st pb pa id_b id_a (worker_b st) (worker_a st) next_border next_cid
    | Con, Era | Dup, Era =>
        '(r, nc) ← resolve_non_era_era st g pa id_a (worker_a st) next_cid; mret (r, next_border, nc)
    | Era, Con | Era, Dup =>
        '(r, nc) ← resolve_non_era_era st g pb id_b (worker_b st) next_cid; mret (r, next_border, nc)
    end;
  mret (r, (Border.remove_border bid g).1, nb, nc).
