(* ===== verification/Remap.v ===== *)
(** The renumbering of a reclaimed partition (partition/remap.rs). *)
From S2P Require Import Prelude NetTypes NetCore Partition Split.
Local Open Scope N_scope.

Module Remap.

(** [live_ids]: the occupied slots, sorted. *)
Definition live_ids (n : Net) : list AgentId := merge_sort N.le (arena_ids n).

(** [id_map]: rank [r] in the order of old ids becomes [start + r]. *)
Definition id_map (n : Net) (start : AgentId) : gmap AgentId AgentId :=
  foldl (λ m e, <[e.1 := e.2]> m) ∅
    (imap (λ rank old_id, (old_id, as_u32 (start + as_u32 (N.of_nat rank)))) (live_ids n)).

(** An agent port goes through the map; one outside the map is left as it is. *)
Definition map_target (m : gmap AgentId AgentId) (t : PortRef) : PortRef :=
  match t with
  | AgentPort ref_id port =>
      match m !! ref_id with Some mapped => AgentPort mapped port | None => t end
  | FreePort _ => t
  end.

(** One cell of a copied agent. *)
Definition copy_cell (n : Net) (m : gmap AgentId AgentId) (old_id new_id : AgentId)
    (ps : list PortRef) (port_id : PortId) : list PortRef :=
  let old_target := match ports n !! port_cell old_id port_id with Some t => t | None => DISCONNECTED end in
  <[port_cell new_id port_id := map_target m old_target]> ps.

(** One iteration over the map: the agent's slot and its three cells. *)
Definition copy_agent (n : Net) (m : gmap AgentId AgentId)
    (acc : list (option Agent) * list PortRef) (e : AgentId * AgentId)
    : outcome (list (option Agent) * list PortRef) :=
  agent ← unwrap (mjoin (agents n !! N.to_nat e.1));
  mret (<[N.to_nat e.2 := Some (mkAgent (symbol agent) e.2)]> acc.1,
        foldl (copy_cell n m e.1 e.2) acc.2 (range_u PORTS_PER_SLOT)).

(** The queue keeps the pairs whose two ids are mapped. *)
Definition map_pair (m : gmap AgentId AgentId) (x : AgentId * AgentId) : option (AgentId * AgentId) :=
  a ← m !! x.1; b ← m !! x.2; Some (a, b).

(** An entry of the index, or the root: dropped when its agent is not mapped. *)
Definition map_port (m : gmap AgentId AgentId) (r : PortRef) : option PortRef :=
  match r with
  | AgentPort old_id port => (λ new_id, AgentPort new_id port) <$> m !! old_id
  | FreePort _ => Some r
  end.

Definition remap_partition_ids (p : Partition) (new_range : IdRange)
    : outcome (Partition + PartitionError) :=
  let n := subnet p in
  let count := agent_count p in
  let start := range_start new_range in
  if range_len new_range <? count then Done (inr (NewRangeTooSmall count (range_len new_range)))
  else if count =? 0 then
    Done (inl (mkPartition (with_next_id start NetCore.new) (worker_id p) ∅ new_range
                 (border_id_start p) (border_id_end p)))
  else
    let m := id_map n start in
    let arena_len := N.to_nat (start + count - 1 + 1) in
    '(ags, ps) ← fold_outcome (copy_agent n m)
      (replicate arena_len None, replicate (arena_len * 3) DISCONNECTED) (map_to_list m);
    let sub := mkNet ags ps (omap (map_pair m) (redex_queue n)) (start + count)
                 (root n ≫= map_port m) ∅ [] None None DisableUnderDelta false false debug_fields_init in
    mret (inl (mkPartition sub (worker_id p) (omap (map_port m) (free_port_index p)) new_range
                 (border_id_start p) (border_id_end p))).

End Remap.
