(* ===== verification/Merge.v ===== *)
(** The merge of partitions into a net, and the maintenance of a partition's
    border index between rounds (merge/core.rs and merge/helpers.rs). *)
From S2P Require Import Prelude NetTypes NetCore Partition BorderGraph.
Local Open Scope N_scope.

(** ** Border index of a partition *)

(** [bid >= start && bid < end && bid != u32::MAX]. *)
Definition is_boundary (border_id_start border_id_end bid : N) : bool :=
  (border_id_start <=? bid) && (bid <? border_id_end) && negb (bid =? u32_MAX).

(** Phase 1 on one port. *)
Definition scan_port (n : Net) (lo hi : N) (slot : N) (a : Agent) (m : gmap N PortRef) (p : PortId)
    : gmap N PortRef :=
  match get_target n (AgentPort slot p) with
  | FreePort bid => if is_boundary lo hi bid then <[bid := AgentPort (agent_id a) p]> m else m
  | AgentPort _ _ => m
  end.

Definition scan_agents (n : Net) (lo hi : N) : gmap N PortRef :=
  foldl (λ m e,
    match e.2 with
    | Some a => foldl (scan_port n lo hi (as_u32 (N.of_nat e.1)) a) m (range_u (total_ports (symbol a)))
    | None => m
    end) ∅ (imap pair (agents n)).

(** Phase 2: [entry(fid).or_insert(target)] for the redirects of the range. *)
Definition rebuild_free_port_index (n : Net) (lo hi : N) : gmap N PortRef :=
  foldl (λ m e,
    if is_boundary lo hi e.1 then
      match m !! e.1 with Some _ => m | None => <[e.1 := e.2]> m end
    else m) (scan_agents n lo hi) (map_to_list (freeport_redirects n)).

Definition compute_border_activity (p : Partition) : bool :=
  existsb (λ e, match e.2 with AgentPort _ 0 => true | _ => false end) (map_to_list (free_port_index p)).

Definition drain_stale_redexes (n : Net) : Net :=
  with_redex_queue (filter (λ p, is_valid_redex n p.1 p.2 = true) (redex_queue n)) n.

(** ** The round's changes to a partition *)

Definition with_subnet (n : Net) (p : Partition) : Partition :=
  mkPartition n (worker_id p) (free_port_index p) (p_id_range p) (border_id_start p) (border_id_end p).
Definition with_index (m : gmap N PortRef) (p : Partition) : Partition :=
  mkPartition (subnet p) (worker_id p) m (p_id_range p) (border_id_start p) (border_id_end p).
Definition with_border_end (e : N) (p : Partition) : Partition :=
  mkPartition (subnet p) (worker_id p) (free_port_index p) (p_id_range p) (border_id_start p) e.

(** Disconnects the agent port the index holds for a border. *)
Definition release_border (bid : N) (p : Partition) : Partition :=
  match free_port_index p !! bid with
  | Some (AgentPort id q) => with_subnet (disconnect (subnet p) (AgentPort id q)) p
  | _ => p
  end.

Definition attach_border (bid : N) (target : PortRef) (p : Partition) : Partition :=
  with_index (<[bid := target]> (free_port_index p))
    (with_subnet (connect (subnet p) target (FreePort bid)) p).

Definition apply_border_delta (p : Partition) (d : BorderDelta) : Partition :=
  let p := release_border (d_border_id d) p in
  if decide (new_target d = DISCONNECTED) then
    with_index (delete (d_border_id d) (free_port_index p)) p
  else attach_border (d_border_id d) (new_target d) p.

Definition resolve_border (p : Partition) (bid : N) : Partition :=
  let p := release_border bid p in with_index (delete bid (free_port_index p)) p.

Definition add_new_border (p : Partition) (e : N * PortRef) : Partition :=
  let p := attach_border e.1 e.2 p in
  if negb (e.1 =? u32_MAX) && (border_id_end p <=? e.1)
  then with_border_end ((e.1 + 1) `min` u32_MAX) p else p.

Definition apply_border_deltas_to_partition (p : Partition) (deltas : list BorderDelta)
    (resolved : list N) (new_borders : list (N * PortRef)) : Partition :=
  foldl add_new_border (foldl resolve_border (foldl apply_border_delta p deltas) resolved) new_borders.

Definition compute_outgoing_deltas (previous current : gmap N PortRef) : list BorderDelta :=
  omap (λ e, if decide (previous !! e.1 = Some e.2) then None else Some (mkDelta e.1 e.2))
    (map_to_list current) ++
  omap (λ e, match current !! e.1 with Some _ => None | None => Some (mkDelta e.1 DISCONNECTED) end)
    (map_to_list previous).

(** ** Merge *)

(** Step 2 on one port of a copied agent. *)
Definition merge_port (borders : gmap N (PortRef * PortRef)) (n : Net) (i : nat)
    (ps : list PortRef) (p : PortId) : list PortRef :=
  let target := get_target n (AgentPort (as_u32 (N.of_nat i)) p) in
  let idx := (i * 3 + N.to_nat p)%nat in
  if decide (target = DISCONNECTED) then ps
  else match target with
       | AgentPort _ _ => <[idx := target]> ps
       | FreePort fid =>
           match borders !! fid with
           | Some _ => <[idx := DISCONNECTED]> ps
           | None => <[idx := target]> ps
           end
       end.

Definition merge_agent (borders : gmap N (PortRef * PortRef)) (n : Net)
    (acc : list (option Agent) * list PortRef) (e : nat * option Agent)
    : list (option Agent) * list PortRef :=
  match e.2 with
  | None => acc
  | Some a =>
      let ags := vec_grow (e.1 + 1)%nat None acc.1 in
      let ps := vec_grow ((e.1 + 1) * 3)%nat DISCONNECTED acc.2 in
      (<[e.1 := Some a]> ags,
       foldl (merge_port borders n e.1) ps (range_u (total_ports (symbol a))))
  end.

Definition merge_partition (borders : gmap N (PortRef * PortRef))
    (acc : list (option Agent) * list PortRef) (p : Partition) : list (option Agent) * list PortRef :=
  foldl (merge_agent borders (subnet p)) acc (imap pair (agents (subnet p))).

(** The root of the last partition that has one. *)
Definition merged_root (ps : list Partition) : option PortRef :=
  foldl (λ r p, match root (subnet p) with Some x => Some x | None => r end) None ps.

Definition max_of (l : list N) : N := foldl N.max 0 l.

Definition max_arena (ps : list Partition) : nat := foldl Nat.max 0%nat ((λ p, length (agents (subnet p))) <$> ps).

(** Steps 1 and 2: agents and inner wires; border ports are left disconnected. *)
Definition unite (plan : PartitionPlan) : Net :=
  let ps := partitions plan in
  let len := max_arena ps in
  let arena := foldl (merge_partition (plan_borders plan))
    (replicate len None, replicate (len * 3) DISCONNECTED) ps in
  with_root (merged_root ps)
    (with_arena arena.1 arena.2
       (with_next_id (max_of ((λ p, next_id (subnet p)) <$> ps)) NetCore.new)).

(** The endpoint of a border: the first agent port the indices hold for it,
    else the first redirect. *)
Fixpoint border_endpoint (resolved : option PortRef) (ps : list Partition) (bid : N) : option PortRef :=
  match ps with
  | [] => resolved
  | p :: ps =>
      match free_port_index p !! bid with
      | Some (AgentPort id q) => Some (AgentPort id q)
      | Some (FreePort f) =>
          border_endpoint (match resolved with Some r => Some r | None => Some (FreePort f) end) ps bid
      | None => border_endpoint resolved ps bid
      end
  end.

Definition MAX_CHAIN_DEPTH : nat := 8.

(** [resolve_freeport_chain], [fuel] being the iterations left. *)
Fixpoint resolve_chain (borders : gmap N (PortRef * PortRef)) (ps : list Partition)
    (fuel : nat) (current : PortRef) : PortRef :=
  match fuel with
  | O => current
  | S fuel =>
      match current with
      | AgentPort _ _ => current
      | FreePort bid =>
          match borders !! bid with
          | None => current
          | Some _ =>
              match border_endpoint None ps bid with
              | None => current
              | Some r =>
                  if decide (r = current) then current
                  else match r with
                       | AgentPort _ _ => r
                       | FreePort _ => resolve_chain borders ps fuel r
                       end
              end
          end
      end
  end.

(** [current_a] and [current_b]: the first and the last sighting. *)
Definition border_sides (ps : list Partition) (bid : N) : option (PortRef * PortRef) :=
  match omap (λ p, free_port_index p !! bid) ps with
  | a :: b :: l => Some (a, List.last l b)
  | _ => None
  end.

(** Step 3 on one border. *)
Definition restore_border (borders : gmap N (PortRef * PortRef)) (ps : list Partition)
    (acc : Net * N) (bid : N) : Net * N :=
  match border_sides ps bid with
  | Some (port_a, port_b) =>
      let a := resolve_chain borders ps MAX_CHAIN_DEPTH port_a in
      let b := resolve_chain borders ps MAX_CHAIN_DEPTH port_b in
      (connect acc.1 a b, if is_principal_pair a b then u32_succ acc.2 else acc.2)
  | None => acc
  end.

(** Free-list reconciliation: [acc] is the list so far and the ids seen. *)
Definition reclaim (n : Net) (acc : list AgentId * gset AgentId) (id : AgentId)
    : list AgentId * gset AgentId :=
  if bool_decide (agents n !! N.to_nat id = Some None) && negb (bool_decide (id ∈ acc.2))
  then (acc.1 ++ [id], {[id]} ∪ acc.2) else acc.

Definition merged_free_list (n : Net) (ps : list Partition) : list AgentId :=
  (foldl (reclaim n) ([], ∅) (ps ≫= λ p, free_list (subnet p))).1.

(** The merged net and the number of border redexes.  Step 3 iterates over a
    hash map, in an order that changes from run to run: [keys] is that order. *)
Definition merge_along (keys : list N) (plan : PartitionPlan) : Net * N :=
  let ps := partitions plan in
  let '(result, count) := foldl (restore_border (plan_borders plan) ps) (unite plan, 0) keys in
  (with_free_list (merged_free_list result ps) result, count).

Definition border_keys (plan : PartitionPlan) : list N := (map_to_list (plan_borders plan)).*1.

Definition merge (plan : PartitionPlan) : Net * N := merge_along (border_keys plan) plan.
