(* ===== verification/MergeInv.v ===== *)
(** What the merge computes from a plan that partitions a net: the united net
    is the net with its cuts open, and restoring the borders plugs them. *)
From S2P Require Import Prelude NetTypes NetCore NetInv Reduction ReductionInv.
From S2P Require Import Partition BorderGraph Split SplitInv Merge.
Local Open Scope N_scope.
Open Scope net_scope.

(** ** Uniting the arenas *)

Abbreviation Arena := (list (option Agent) * list PortRef)%type (only parsing).

(** What step 2 writes for a port with target [t]. *)
Definition cleaned (borders : gmap N (PortRef * PortRef)) (t : PortRef) : PortRef :=
  match t with
  | AgentPort _ _ => t
  | FreePort fid => match borders !! fid with Some _ => DISCONNECTED | None => t end
  end.

Definition sized (len : nat) (acc : Arena) : Prop :=
  length acc.1 = len ∧ length acc.2 = (len * 3)%nat.

(** Slot [j] and its cells are the same in both arenas. *)
Definition same_at (j : nat) (acc acc' : Arena) : Prop :=
  acc'.1 !! j = acc.1 !! j ∧ ∀ q, (q < 3)%nat → acc'.2 !! (j * 3 + q)%nat = acc.2 !! (j * 3 + q)%nat.

#[export] Instance same_at_preorder j : PreOrder (same_at j).
Proof.
  split; [by intros acc|]. intros a b c [H1 H2] [H3 H4]. split; [congruence|].
  intros q Hq. by rewrite H4, H2.
Qed.

Lemma merge_port_length borders sub i ps p : length (merge_port borders sub i ps p) = length ps.
Proof. unfold merge_port. repeat case_match; by rewrite ?length_insert. Qed.

Lemma merge_port_out borders sub i ps p c : c ≠ (i * 3 + N.to_nat p)%nat →
  merge_port borders sub i ps p !! c = ps !! c.
Proof. intros H. unfold merge_port. repeat case_match; by rewrite ?list_lookup_insert_ne by done. Qed.

Lemma merge_port_in borders sub i ps p : as_u32 (N.of_nat i) = N.of_nat i →
  ps !! (i * 3 + N.to_nat p)%nat = Some DISCONNECTED →
  merge_port borders sub i ps p !! (i * 3 + N.to_nat p)%nat = Some (cleaned borders sub.[N.of_nat i, p]).
Proof.
  intros Hi Hps. unfold merge_port. rewrite Hi. pose proof (lookup_lt_Some _ _ _ Hps) as Hl.
  destruct (sub.[N.of_nat i, p]) as [b q|f]; cbn [cleaned].
  - rewrite decide_False by done. by rewrite list_lookup_insert_eq.
  - case_decide as Hd.
    + rewrite Hps, Hd. by destruct (borders !! f).
    + destruct (borders !! f); by rewrite list_lookup_insert_eq.
Qed.

(** All ports of one agent. *)
Lemma merge_ports_spec borders sub i l ps : NoDup l → Forall (λ p, p < 3) l →
  as_u32 (N.of_nat i) = N.of_nat i →
  let ps' := foldl (merge_port borders sub i) ps l in
  length ps' = length ps ∧
  (∀ c, (∀ p, p ∈ l → c ≠ (i * 3 + N.to_nat p)%nat) → ps' !! c = ps !! c) ∧
  (∀ p, p ∈ l → ps !! (i * 3 + N.to_nat p)%nat = Some DISCONNECTED →
    ps' !! (i * 3 + N.to_nat p)%nat = Some (cleaned borders sub.[N.of_nat i, p])).
Proof.
  intros Hnd Hl Hi. revert ps. induction Hnd as [|x l Hx Hnd IH]; intros ps ps'; subst ps'; cbn [foldl].
  { split_and!; try done. intros p Hp. by apply elem_of_nil in Hp. }
  apply Forall_cons in Hl as [Hx3 Hl].
  destruct (IH Hl (merge_port borders sub i ps x)) as (L & O & I). split_and!.
  - by rewrite L, merge_port_length.
  - intros c Hc. rewrite O by (intros; apply Hc; set_solver). apply merge_port_out, Hc. set_solver.
  - intros p [->|Hp]%elem_of_cons Hd.
    + rewrite O; [by apply merge_port_in|]. intros y Hy E.
      apply Hx. by replace x with y by lia.
    + apply I; [done|]. rewrite merge_port_out; [done|]. intros E. apply Hx.
      by replace x with p by lia.
Qed.

Lemma vec_grow_id {A} m (x : A) l : (m ≤ length l)%nat → vec_grow m x l = l.
Proof. intros. unfold vec_grow. by rewrite decide_False by lia. Qed.

Section arena.
Context (borders : gmap N (PortRef * PortRef)) (len : nat) (sub : Net).
Context (Hwf : wf sub) (Hlen : (length (agents sub) ≤ len)%nat).

Lemma sub_index j a : agents sub !! j = Some a → as_u32 (N.of_nat j) = N.of_nat j ∧ (j < len)%nat.
Proof.
  intros Hj. split; [by eapply wf_index|]. apply lookup_lt_Some in Hj. lia.
Qed.

(** One slot: nothing for a dead one; an agent's slot and cells otherwise. *)
Lemma merge_agent_spec acc i o : sized len acc → agents sub !! i = Some o →
  let acc' := merge_agent borders sub acc (i, o) in
  sized len acc' ∧ (∀ j, j ≠ i ∨ o = None → same_at j acc acc') ∧
  (∀ a, o = Some a → (∀ q, (q < 3)%nat → acc.2 !! (i * 3 + q)%nat = Some DISCONNECTED) →
    acc'.1 !! i = Some (Some a) ∧
    ∀ q, q < 3 → acc'.2 !! (i * 3 + N.to_nat q)%nat = Some (cleaned borders sub.[N.of_nat i, q])).
Proof.
  intros [L1 L2] Hi acc'. destruct (sub_index i o Hi) as [Hidx Hlt].
  destruct o as [a|]; [|by subst acc'].
  subst acc'. unfold merge_agent. cbn [fst snd]. rewrite !vec_grow_id by lia.
  pose proof (total_ports_bounds (symbol a)) as Ht.
  destruct (merge_ports_spec borders sub i (range_u (total_ports (symbol a))) acc.2) as (L & O & I).
  { apply range_u_nodup. } { apply Forall_forall. intros p Hp%elem_of_range_u. lia. } { done. }
  unfold sized, same_at. cbn [fst snd]. split_and!.
  - by rewrite length_insert.
  - by rewrite L.
  - intros j [Hj|?]; [|done]. split; [by rewrite list_lookup_insert_ne by lia|].
    intros q Hq. apply O. intros p Hp%elem_of_range_u. lia.
  - intros a' [= <-] Hd. split; [by rewrite list_lookup_insert_eq by lia|]. intros q Hq.
    destruct (N.ltb_spec q (total_ports (symbol a))) as [Hq'|Hq'].
    + apply I; [by apply elem_of_range_u|]. apply Hd. lia.
    + rewrite O by (intros p Hp%elem_of_range_u; lia). rewrite Hd by lia.
      assert (sub.[N.of_nat i, q] = DISCONNECTED) as ->.
      { destruct (decide (sub.[N.of_nat i, q] = DISCONNECTED)) as [|Hne]; [done|].
        destruct (wf_src sub Hwf (N.of_nat i) q Hq Hne) as (b & Hb & Hlt').
        unfold get_agent in Hb. rewrite Nat2N.id, Hi in Hb. cbn in Hb. simplify_eq. lia. }
      cbn. by destruct (borders !! u32_MAX).
Qed.

Lemma merge_agents_spec l acc : sized len acc → NoDup l.*1 →
  Forall (λ e, agents sub !! e.1 = Some e.2) l →
  let acc' := foldl (merge_agent borders sub) acc l in
  sized len acc' ∧ (∀ j, (∀ a, (j, Some a) ∉ l) → same_at j acc acc') ∧
  (∀ j a, (j, Some a) ∈ l → (∀ q, (q < 3)%nat → acc.2 !! (j * 3 + q)%nat = Some DISCONNECTED) →
    acc'.1 !! j = Some (Some a) ∧
    ∀ q, q < 3 → acc'.2 !! (j * 3 + N.to_nat q)%nat = Some (cleaned borders sub.[N.of_nat j, q])).
Proof.
  intros Hsz Hnd Hl. revert acc Hsz. induction l as [|[i o] l IH]; intros acc Hsz; cbn [foldl].
  { split_and!; try done. intros j a Hj. by apply elem_of_nil in Hj. }
  apply NoDup_cons in Hnd as [Hi Hnd]. apply Forall_cons in Hl as [Hio Hl]. cbn [fst snd] in *.
  destruct (merge_agent_spec acc i o Hsz Hio) as (S1 & O1 & I1).
  destruct (IH Hnd Hl _ S1) as (S2 & O2 & I2).
  assert (Hout : ∀ j a, (j, Some a) ∈ l → j ≠ i).
  { intros j a Hj ->. apply Hi. apply list_elem_of_fmap. by exists (i, Some a). }
  split_and!; [done|..].
  - intros j Hj. etrans; [apply O1|apply O2; intros a Ha; apply (Hj a); set_solver].
    destruct (decide (j = i)) as [->|]; [right|by left].
    destruct o as [a|]; [|done]. exfalso. apply (Hj a). set_solver.
  - intros j a [E|Hj]%elem_of_cons Hd.
    + injection E as -> <-. destruct (I1 a eq_refl Hd) as [A1 P1].
      destruct (O2 i) as [A2 P2]; [intros b Hb; by apply (Hout i b)|].
      split; [by rewrite A2|]. intros q Hq. rewrite P2 by lia. by apply P1.
    + apply I2; [done|]. intros q Hq. destruct (O1 j) as [_ P]; [left; by apply (Hout j a)|].
      rewrite P by done. by apply Hd.
Qed.

Lemma imap_pair_spec {A} (l : list A) :
  NoDup (imap pair l).*1 ∧ ∀ i x, (i, x) ∈ imap pair l ↔ l !! i = Some x.
Proof.
  assert (Hin : ∀ i x, (i, x) ∈ imap pair l ↔ l !! i = Some x).
  { intros i x. rewrite list_elem_of_lookup. setoid_rewrite list_lookup_imap. split.
    - intros (j & Hj). destruct (l !! j) eqn:E; [|done]. cbn in Hj. by simplify_eq.
    - intros Hi. exists i. by rewrite Hi. }
  split; [|done]. clear Hin. apply NoDup_alt. intros i j x. rewrite !list_lookup_fmap, !list_lookup_imap.
  destruct (l !! i), (l !! j); cbn; intros; by simplify_eq.
Qed.

(** A whole partition. *)
Lemma merge_subnet_spec acc : sized len acc →
  let acc' := foldl (merge_agent borders sub) acc (imap pair (agents sub)) in
  sized len acc' ∧ (∀ j, get_agent sub (N.of_nat j) = None → same_at j acc acc') ∧
  (∀ j a, get_agent sub (N.of_nat j) = Some a →
    (∀ q, (q < 3)%nat → acc.2 !! (j * 3 + q)%nat = Some DISCONNECTED) →
    acc'.1 !! j = Some (Some a) ∧
    ∀ q, q < 3 → acc'.2 !! (j * 3 + N.to_nat q)%nat = Some (cleaned borders sub.[N.of_nat j, q])).
Proof.
  intros Hsz. destruct (imap_pair_spec (agents sub)) as [Hnd Hin].
  destruct (merge_agents_spec (imap pair (agents sub)) acc Hsz Hnd) as (S1 & O & I).
  { apply Forall_forall. intros [i o] He. by apply Hin. }
  unfold get_agent. split_and!; [done|..].
  - intros j Hj. apply O. intros a Ha%Hin. rewrite Nat2N.id, Ha in Hj. done.
  - intros j a Hj. apply I, Hin. rewrite Nat2N.id in Hj.
    destruct (agents sub !! j) as [[b|]|]; by simplify_eq/=.
Qed.

End arena.

(** All partitions: each id is live in at most one. *)
Lemma merge_partitions_spec borders len ps acc :
  Forall (λ p, wf (subnet p) ∧ (length (agents (subnet p)) ≤ len)%nat) ps → sized len acc →
  let acc' := foldl (merge_partition borders) acc ps in
  sized len acc' ∧
  (∀ j, Forall (λ p, get_agent (subnet p) (N.of_nat j) = None) ps → same_at j acc acc') ∧
  (∀ j a l1 p l2, ps = l1 ++ p :: l2 → get_agent (subnet p) (N.of_nat j) = Some a →
    Forall (λ q, get_agent (subnet q) (N.of_nat j) = None) (l1 ++ l2) →
    (∀ q, (q < 3)%nat → acc.2 !! (j * 3 + q)%nat = Some DISCONNECTED) →
    acc'.1 !! j = Some (Some a) ∧
    ∀ q, q < 3 → acc'.2 !! (j * 3 + N.to_nat q)%nat = Some (cleaned borders (subnet p).[N.of_nat j, q])).
Proof.
  intros Hps. revert acc. induction Hps as [|p ps [Hwf Hlen] _ IH]; intros acc Hsz; cbn [foldl].
  { split_and!; try done. intros j a l1 p l2 E. by destruct l1. }
  destruct (merge_subnet_spec borders len (subnet p) Hwf Hlen acc Hsz) as (S1 & O1 & I1).
  fold (merge_partition borders acc p) in *.
  destruct (IH _ S1) as (S2 & O2 & I2). split_and!; [done|..].
  - intros j [Hj Hjs]%Forall_cons. etrans; [by apply O1|by apply O2].
  - intros j a l1 p' l2 E Ha Hout Hd. destruct l1 as [|p1 l1]; injection E as -> ->.
    + destruct (I1 j a Ha Hd) as [A1 P1]. destruct (O2 j Hout) as [A2 P2].
      split; [by rewrite A2|]. intros q Hq. rewrite P2 by lia. by apply P1.
    + apply Forall_cons in Hout as [Hp1 Hout]. eapply I2; [done|done|done|].
      intros q Hq. destruct (O1 j Hp1) as [_ P]. rewrite P by done. by apply Hd.
Qed.

Lemma foldl_max_nat l x y : (x ≤ y ∨ x ∈ l)%nat → (x ≤ foldl Nat.max y l)%nat.
Proof.
  revert y. induction l as [|z l IH]; intros y H; cbn [foldl].
  - destruct H as [H|H]; [done|by apply elem_of_nil in H].
  - apply IH. rewrite elem_of_cons in H. destruct H as [H|[->|H]]; [left; lia|left; lia|by right].
Qed.

Lemma max_arena_le ps p : p ∈ ps → (length (agents (subnet p)) ≤ max_arena ps)%nat.
Proof. intros Hp. apply foldl_max_nat. right. apply list_elem_of_fmap. by exists p. Qed.

Lemma max_arena_bound ps m : Forall (λ p, (length (agents (subnet p)) ≤ m)%nat) ps → (max_arena ps ≤ m)%nat.
Proof.
  intros H. unfold max_arena. assert (0 ≤ m)%nat as Hm by lia. revert Hm. generalize 0%nat.
  induction H as [|p ps Hp _ IH]; intros x Hx; cbn [fmap list_fmap foldl]; [done|]. apply IH. lia.
Qed.

Lemma max_of_bounds l : (∀ x, x ∈ l → x ≤ max_of l) ∧ (∀ m, Forall (λ x, x ≤ m) l → max_of l ≤ m).
Proof.
  unfold max_of.
  assert (∀ y, (∀ x, x = y ∨ x ∈ l → x ≤ foldl N.max y l) ∧
    ∀ m, y ≤ m → Forall (λ x, x ≤ m) l → foldl N.max y l ≤ m) as H.
  { induction l as [|z l IH]; intros y; cbn [foldl].
    - split; [intros x [->|Hx]; [lia|by apply elem_of_nil in Hx]|done].
    - destruct (IH (y `max` z)) as [H1 H2]. split.
      + intros x. rewrite elem_of_cons. pose proof (H1 (y `max` z) (or_introl eq_refl)).
        intros [->|[->|Hx]]; [lia|lia|]. by apply H1; right.
      + intros m Hy [Hz Hl]%Forall_cons. apply H2; [lia|done]. }
  split; [intros x Hx; apply H; by right|]. intros m Hm. apply H; [lia|done].
Qed.

(** ** Free ports already in the net *)

Definition max_step (m : option N) (r : PortRef) : option N :=
  match r with
  | FreePort id =>
      if decide (r = DISCONNECTED) then m
      else Some (match m with Some current => current `max` id | None => id end)
  | AgentPort _ _ => m
  end.

Lemma max_step_spec l m0 : let res := foldl max_step m0 l in
  (∀ f, f ≠ u32_MAX → (∃ x, m0 = Some x ∧ f ≤ x) ∨ FreePort f ∈ l → ∃ m, res = Some m ∧ f ≤ m) ∧
  (∀ m, res = Some m → m0 = Some m ∨ (FreePort m ∈ l ∧ m ≠ u32_MAX)).
Proof.
  revert m0. induction l as [|r l IH]; intros m0 res; subst res; cbn [foldl].
  { split; [|by left]. intros f _ [H|H]; [done|by apply elem_of_nil in H]. }
  destruct (IH (max_step m0 r)) as [H1 H2]. split.
  - intros f Hf H. apply H1; [done|]. rewrite elem_of_cons in H.
    destruct H as [(x & -> & Hx)|[<-|H]]; [left|left|by right].
    + unfold max_step. repeat case_match; eexists; split; try done. lia.
    + unfold max_step. rewrite decide_False by (by intros [= ->]). eexists. split; [done|].
      destruct m0; lia.
  - intros m Hm. destruct (H2 m Hm) as [E|[? ?]]; [|right; split; [set_solver|done]].
    unfold max_step in E. destruct r as [|f]; [by left|]. case_decide as Hd; [by left|].
    assert (f ≠ u32_MAX) by (intros ->; by apply Hd).
    injection E as <-. destruct m0 as [c|]; [|right; set_solver].
    destruct (N.max_spec c f) as [[_ ->]|[_ ->]]; [right; set_solver|by left].
Qed.

(** Every free port of the net is below the first border id. *)
Lemma first_border_above n f : (∀ f, FreePort f ∈ ports n → f ≤ u32_MAX) →
  FreePort f ∈ ports n → f ≠ u32_MAX → f < first_border_id n.
Proof.
  intros Hty Hin Hf. destruct (max_step_spec (ports n) None) as [H1 H2].
  destruct (H1 f Hf) as (m & Hm & Hle); [by right|].
  destruct (H2 m Hm) as [?|[Hm' Hne]]; [done|]. specialize (Hty m Hm').
  unfold first_border_id. change (max_freeport_id n) with (foldl max_step None (ports n)). rewrite Hm.
  rewrite u32_succ_lt by lia. lia.
Qed.

Lemma target_in_ports n id p f : n.[id, p] = FreePort f → f ≠ u32_MAX → FreePort f ∈ ports n.
Proof.
  rewrite get_target_cell. destruct (ports n !! port_cell id p) as [t|] eqn:E.
  - intros -> _. by apply list_elem_of_lookup_2 in E.
  - intros [= <-]. done.
Qed.

(** ** Two sightings of a border *)

Lemma omap_none {A B} (f : A → option B) l : Forall (λ x, f x = None) l → omap f l = [].
Proof. induction 1 as [|x l Hx _ IH]; [done|]. cbn. by rewrite Hx. Qed.

Lemma omap_two {A B} (f : A → option B) l i j x y a b : (i < j)%nat →
  l !! i = Some a → l !! j = Some b → f a = Some x → f b = Some y →
  (∀ m z, l !! m = Some z → m ≠ i → m ≠ j → f z = None) → omap f l = [x; y].
Proof.
  intros Hij Hi Hj Ha Hb Hout. rewrite <- (take_drop_middle l i a Hi).
  assert (Hj' : drop (S i) l !! (j - S i)%nat = Some b) by (rewrite lookup_drop; rewrite <- Hj; f_equal; lia).
  rewrite <- (take_drop_middle (drop (S i) l) _ b Hj'), omap_app. cbn. rewrite Ha, omap_app. cbn. rewrite Hb.
  rewrite !omap_none; [done|..]; apply Forall_lookup; intros m z Hm.
  - rewrite drop_drop, lookup_drop in Hm. apply (Hout _ z Hm); lia.
  - apply lookup_take_Some in Hm as [Hm ?]. rewrite lookup_drop in Hm. apply (Hout _ z Hm); lia.
  - apply lookup_take_Some in Hm as [Hm ?]. apply (Hout _ z Hm); lia.
Qed.

(** ** Wires with distinct ends *)

Lemma in_ends ws r : r ∈ ends ws ↔ ∃ w, w ∈ ws ∧ (r = w.1 ∨ r = w.2).
Proof.
  unfold ends. induction ws as [|w ws IH]; cbn [flat_map].
  - split; [intros []%elem_of_nil|intros (? & []%elem_of_nil & _)].
  - rewrite elem_of_app, IH. split.
    + intros [H|(w' & Hw & Hr)]; [exists w|exists w']; set_solver.
    + intros (w' & [->|Hw]%elem_of_cons & Hr); [left|right; by exists w']. set_solver.
Qed.

Lemma partner_of ws a b : NoDup (ends ws) → (a, b) ∈ ws →
  partner ws a = Some b ∧ partner ws b = Some a.
Proof.
  induction ws as [|[x y] ws IH]; intros Hnd Hin; [by apply elem_of_nil in Hin|].
  cbn [ends flat_map fst snd app] in Hnd. apply NoDup_cons in Hnd as [Hx Hnd].
  apply NoDup_cons in Hnd as [Hy Hnd]. fold (ends ws) in *. rewrite elem_of_cons in Hx. cbn [partner].
  apply elem_of_cons in Hin as [[= -> ->]|Hin].
  - rewrite (decide_True (P := y = y)) by done. rewrite decide_False by (intros ->; apply Hx; by left).
    by rewrite decide_True.
  - assert (a ∈ ends ws ∧ b ∈ ends ws) as [Ha Hb].
    { split; apply in_ends; exists (a, b); cbn; auto. }
    rewrite !decide_False by (intros ->; tauto). by apply IH.
Qed.

(** A wire per border, no two sharing an end. *)
Lemma ends_nodup (f : N → option Wire) l : NoDup l →
  (∀ b w, f b = Some w → w.1 ≠ w.2) →
  (∀ b b' w w' r, f b = Some w → f b' = Some w' → r = w.1 ∨ r = w.2 → r = w'.1 ∨ r = w'.2 → b = b') →
  NoDup (ends (omap f l)).
Proof.
  intros Hnd Hne Hdisj. induction Hnd as [|x l Hx _ IH]; [constructor|]. cbn [omap list_omap].
  destruct (f x) as [w|] eqn:E; [|done]. cbn [ends flat_map app]. fold (ends (omap f l)).
  assert (Hout : ∀ r, r = w.1 ∨ r = w.2 → r ∉ ends (omap f l)).
  { intros r Hr (w' & (b & Hb & Hfb)%list_elem_of_omap & Hr')%in_ends. apply Hx.
    by rewrite (Hdisj x b w w' r E Hfb Hr Hr'). }
  apply NoDup_cons. split.
  - rewrite elem_of_cons. intros [H|H]; [by apply (Hne x w E)|]. by apply (Hout w.1); auto.
  - apply NoDup_cons. split; [by apply Hout; right|done].
Qed.

Lemma elem_of_wire_redexes ws x y :
  (x, y) ∈ wire_redexes ws ↔ (AgentPort x 0, AgentPort y 0) ∈ ws.
Proof.
  unfold wire_redexes. induction ws as [|w ws IH]; cbn [foldl]; [by rewrite !elem_of_nil|].
  rewrite fold_redexes_app. unfold wire_redexes. rewrite elem_of_app, IH, elem_of_cons.
  assert (Hone : (x, y) ∈ push_redex w.1 w.2 [] ↔ (AgentPort x 0, AgentPort y 0) = w).
  { destruct w as [[i [|p]|] [j [|q]|]]; cbn; rewrite ?elem_of_nil, ?list_elem_of_singleton;
      split; intros H; try done; try by injection H as -> ->. }
  by rewrite Hone.
Qed.

Lemma wire_redexes_nodup ws : NoDup (ends ws) → NoDup (wire_redexes ws).
Proof.
  induction ws as [|w ws IH]; intros Hnd; [constructor|].
  cbn [ends flat_map app] in Hnd. apply NoDup_cons in Hnd as [Hx Hnd]. apply NoDup_cons in Hnd as [Hy Hnd].
  fold (ends ws) in *. unfold wire_redexes. cbn [foldl]. rewrite fold_redexes_app.
  apply NoDup_app. split_and!; [|intros [x y] H1 H2|by apply IH].
  - destruct w as [[i [|p]|] [j [|q]|]]; cbn; repeat constructor; set_solver.
  - apply elem_of_wire_redexes in H2. apply Hx. apply elem_of_cons. right. apply in_ends.
    eexists. split; [exact H2|]. left.
    destruct w as [[i [|p]|] [j [|q]|]]; cbn in H1; rewrite ?elem_of_nil, ?list_elem_of_singleton in H1;
      try done. by injection H1 as -> ->.
Qed.

(** Step 3, when the indices hold agent ports: plug the wires and count the
    principal ones. *)
Lemma resolve_agent_port borders ps id p :
  resolve_chain borders ps MAX_CHAIN_DEPTH (AgentPort id p) = AgentPort id p.
Proof. done. Qed.

Definition agent_wire (w : Wire) : Prop :=
  ∃ i p j q, w = (AgentPort i p, AgentPort j q).

Lemma wire_redexes_cons w ws : wire_redexes (w :: ws) = push_redex w.1 w.2 [] ++ wire_redexes ws.
Proof. unfold wire_redexes at 1. cbn [foldl]. by rewrite fold_redexes_app. Qed.

Lemma principal_redex w :
  length (push_redex w.1 w.2 []) = if is_principal_pair w.1 w.2 then 1%nat else 0%nat.
Proof. by destruct w as [[i [|p]|] [j [|q]|]]. Qed.

Lemma restore_fold borders ps l acc :
  (∀ bid w, bid ∈ l → border_sides ps bid = Some w → agent_wire w) →
  let ws := omap (border_sides ps) l in
  acc.2 + N.of_nat (length (wire_redexes ws)) ≤ u32_MAX →
  foldl (restore_border borders ps) acc l =
    (plug acc.1 ws, acc.2 + N.of_nat (length (wire_redexes ws))).
Proof.
  revert acc. induction l as [|bid l IH]; intros [m c] Hl ws Hmax; subst ws; cbn [foldl omap list_omap].
  { cbn. by rewrite N.add_0_r. }
  cbn [omap list_omap] in Hmax. unfold restore_border at 2.
  destruct (border_sides ps bid) as [w|] eqn:E.
  2: { apply IH; [|done]. intros b w Hb. apply Hl. set_solver. }
  destruct (Hl bid w ltac:(set_solver) E) as (i & p & j & q & ->). rewrite !resolve_agent_port.
  rewrite wire_redexes_cons, length_app, principal_redex in Hmax |- *. cbn [fst snd] in *.
  rewrite IH.
  - cbn [fst snd]. f_equal. destruct (is_principal_pair _ _); [|lia].
    rewrite u32_succ_lt by lia. lia.
  - intros b w Hb. apply Hl. set_solver.
  - cbn [fst snd]. destruct (is_principal_pair _ _); [|lia]. rewrite u32_succ_lt by lia. lia.
Qed.

(** ** The united net *)

Section united.
Context (n : Net) (k : N) (sigma : gmap AgentId WorkerId) (plan : PartitionPlan).
Context (Hwf : wf n) (Hal : allocation_ok n k sigma) (Hsp : splittable n k sigma).
Context (Hpd : partitioned n k sigma plan).

Abbreviation start := (first_border_id n).
Abbreviation cut_border := (border_of (cuts n sigma) start).

(** The partition of a live agent's worker, and the others. *)
Lemma owner id w : sigma !! id = Some w → ∃ l1 p l2, partitions plan = l1 ++ p :: l2 ∧
  partition_of n sigma w p ∧ Forall (λ p, get_agent (subnet p) id = None) (l1 ++ l2).
Proof.
  intros Hs. pose proof (al_range n k sigma Hal id w Hs) as Hw.
  destruct (lookup_lt_is_Some_2 (partitions plan) (N.to_nat w)) as [p Hp].
  { rewrite (pd_len n k sigma plan Hpd). lia. }
  pose proof (pd_parts n k sigma plan Hpd _ p Hp) as Hpo. rewrite N2Nat.id in Hpo.
  exists (take (N.to_nat w) (partitions plan)), p, (drop (S (N.to_nat w)) (partitions plan)).
  split; [by rewrite take_drop_middle|]. split; [done|].
  assert (Hother : ∀ i q, partitions plan !! i = Some q → i ≠ N.to_nat w → get_agent (subnet q) id = None).
  { intros i q Hq Hi. pose proof (pd_parts n k sigma plan Hpd i q Hq) as [_ [r Hsub] _ _ _ _ _].
    rewrite (sn_agent _ _ _ _ _ _ Hsub), decide_False; [done|]. intros E. rewrite Hs in E. injection E as ->.
    by rewrite Nat2N.id in Hi. }
  apply Forall_app. split; apply Forall_lookup; intros i q Hq.
  - apply lookup_take_Some in Hq as [Hq Hi]. apply (Hother i q Hq). lia.
  - rewrite lookup_drop in Hq. apply (Hother _ q Hq). lia.
Qed.

Lemma unowned id : sigma !! id = None → Forall (λ p, get_agent (subnet p) id = None) (partitions plan).
Proof.
  intros Hs. apply Forall_lookup. intros i q Hq.
  pose proof (pd_parts n k sigma plan Hpd i q Hq) as [_ [r Hsub] _ _ _ _ _].
  rewrite (sn_agent _ _ _ _ _ _ Hsub), decide_False; congruence.
Qed.

Lemma parts_wf : Forall (λ p, wf (subnet p) ∧ (length (agents (subnet p)) ≤ max_arena (partitions plan))%nat)
  (partitions plan).
Proof.
  apply Forall_forall. intros p Hp. split; [|by apply max_arena_le].
  apply list_elem_of_lookup in Hp as (i & Hi). by apply (po_wf _ _ _ _ (pd_parts n k sigma plan Hpd i p Hi)).
Qed.

Abbreviation init_arena := (let len := max_arena (partitions plan) in
  (replicate len (@None Agent), replicate (len * 3) DISCONNECTED)).

Lemma unite_arena :
  let acc := foldl (merge_partition (plan_borders plan)) init_arena (partitions plan) in
  agents (unite plan) = acc.1 ∧ ports (unite plan) = acc.2 ∧ sized (max_arena (partitions plan)) acc ∧
  (∀ id, sigma !! id = None → same_at (N.to_nat id) init_arena acc) ∧
  (∀ id w a, sigma !! id = Some w → get_agent n id = Some a → ∃ p, partition_of n sigma w p ∧
    acc.1 !! N.to_nat id = Some (Some a) ∧
    ∀ q, q < 3 → acc.2 !! port_cell id q = Some (cleaned (plan_borders plan) (subnet p).[id, q])).
Proof.
  intros acc. split; [done|]. split; [done|].
  destruct (merge_partitions_spec (plan_borders plan) _ _ init_arena parts_wf) as (Sz & O & I).
  { split; cbn; apply length_replicate. }
  fold acc in Sz, O, I. split; [done|]. split.
  - intros id Hs. apply O. rewrite N2Nat.id. by apply unowned.
  - intros id w a Hs Ha. destruct (owner id w Hs) as (l1 & p & l2 & E & Hpo & Hout).
    pose proof Hpo as [_ [r Hsub] Hwp _ _ _ _].
    assert (Hag : get_agent (subnet p) id = Some a).
    { rewrite (sn_agent _ _ _ _ _ _ Hsub). by rewrite decide_True. }
    exists p. split; [done|]. specialize (I (N.to_nat id) a l1 p l2 E). rewrite N2Nat.id in I.
    apply I; [done|done|]. intros q Hq. cbn. apply lookup_replicate_2.
    pose proof (get_agent_arena _ _ _ Hag).
    pose proof (max_arena_le (partitions plan) p ltac:(rewrite E; set_solver)). lia.
Qed.

Lemma unite_agent id : get_agent (unite plan) id = get_agent n id.
Proof.
  destruct unite_arena as (EA & _ & _ & O & I). unfold get_agent at 1. rewrite EA.
  destruct (sigma !! id) as [w|] eqn:Hs.
  - destruct (proj1 (al_dom n k sigma Hal id)) as [a Ha]; [by exists w|].
    destruct (I id w a Hs Ha) as (p & _ & -> & _). by rewrite Ha.
  - destruct (O id Hs) as [-> _]. cbn.
    assert (get_agent n id = None) as ->.
    { destruct (get_agent n id) eqn:E; [|done]. destruct (proj2 (al_dom n k sigma Hal id)) as [w Hw]; [by eexists|].
      congruence. }
    destruct (replicate _ _ !! _) as [x|] eqn:E; [|done]. by apply lookup_replicate in E as [-> _].
Qed.

(** A port of the united net: open if it was cut, else as in the net. *)
Lemma border_known bid : is_Some (plan_borders plan !! bid) ↔
  ∃ x, cut_border x bid.
Proof.
  split.
  - intros [[a b] H]. apply (pd_borders n k sigma plan Hpd) in H as (j & c & Hc & -> & _ & _).
    exists c.1, j, c. auto.
  - intros (x & j & c & Hc & -> & _). eexists (slot_port c.1, slot_port c.2).
    apply (pd_borders n k sigma plan Hpd). by exists j, c.
Qed.

Lemma old_free_port id p : (∃ f, n.[id, p] = FreePort f) → cleaned (plan_borders plan) n.[id, p] = n.[id, p].
Proof.
  intros [f E]. rewrite E. cbn. destruct (plan_borders plan !! f) eqn:Eb; [|done].
  destruct (proj1 (border_known f)) as (x & j & c & Hc & -> & _); [by eexists|].
  apply lookup_lt_Some in Hc. pose proof (sp_borders n k sigma Hsp).
  assert (Hf : start + N.of_nat j ≠ u32_MAX) by lia.
  pose proof (first_border_above n _ (sp_ports n k sigma Hsp) (target_in_ports n id p _ E Hf) Hf). lia.
Qed.

Lemma unite_target id p : p < 3 →
  ((∃ bid, cut_border (id, p) bid) → (unite plan).[id, p] = DISCONNECTED) ∧
  ((∀ bid, ¬ cut_border (id, p) bid) → (unite plan).[id, p] = n.[id, p]).
Proof.
  intros Hp. destruct unite_arena as (_ & EP & _ & O & I). rewrite get_target_cell, EP.
  destruct (sigma !! id) as [w|] eqn:Hs.
  - destruct (proj1 (al_dom n k sigma Hal id)) as [a Ha]; [by exists w|].
    destruct (I id w a Hs Ha) as (pt & [_ [r Hsub] _ _ _ _ _] & _ & P). rewrite (P p Hp). split.
    + intros [bid Hb]. rewrite (sn_cut _ _ _ _ _ _ Hsub id p bid Hp Hs Hb). cbn [cleaned].
      destruct (proj2 (border_known bid)) as [x ->]; [by exists (id, p)|done].
    + intros Hnb. rewrite (sn_copy _ _ _ _ _ _ Hsub id p) by done.
      destruct (n.[id, p]) eqn:E; [done|]. rewrite <- E. apply old_free_port. by eexists.
  - assert (Hdead : get_agent n id = None).
    { destruct (get_agent n id) eqn:E; [|done]. destruct (proj2 (al_dom n k sigma Hal id)) as [w Hw]; [by eexists|].
      congruence. }
    assert (Hnv : ¬ valid_port n id p) by (intros (a & Ha & _); congruence).
    destruct (O id Hs) as [_ P]. specialize (P (N.to_nat p) ltac:(lia)).
    assert (Hd : match (foldl (merge_partition (plan_borders plan)) init_arena (partitions plan)).2 !! port_cell id p
      with Some t => t | None => DISCONNECTED end = DISCONNECTED).
    { etrans; [apply (f_equal (λ o, match o with Some t => t | None => DISCONNECTED end) P)|]. cbn.
      destruct (replicate _ _ !! _) as [x|] eqn:E; [|done]. by apply lookup_replicate in E as [-> _]. }
    split; [done|]. intros _. etrans; [exact Hd|].
    destruct (decide (n.[id, p] = DISCONNECTED)) as [|Hne]; [done|]. by apply (wf_src n Hwf) in Hne.
Qed.

Lemma unite_next : 0 < k → next_id n ≤ next_id (unite plan) ∧
  N.of_nat (max_arena (partitions plan)) ≤ next_id (unite plan) ≤ u32_MAX.
Proof.
  intros Hk. change (next_id (unite plan)) with (max_of ((λ p, next_id (subnet p)) <$> partitions plan)).
  destruct (max_of_bounds ((λ p, next_id (subnet p)) <$> partitions plan)) as [H1 H2].
  assert (Hpart : ∀ p, p ∈ partitions plan → wf (subnet p) ∧ next_id n ≤ next_id (subnet p) ∧
    next_id (subnet p) ≤ max_of ((λ p, next_id (subnet p)) <$> partitions plan)).
  { intros p Hp. pose proof Hp as (i & Hi)%list_elem_of_lookup.
    destruct (pd_parts n k sigma plan Hpd i p Hi). split_and!; [done|done|].
    apply H1, list_elem_of_fmap. by exists p. }
  split_and!.
  - destruct (lookup_lt_is_Some_2 (partitions plan) 0%nat) as [p Hp].
    { rewrite (pd_len n k sigma plan Hpd). lia. }
    apply list_elem_of_lookup_2 in Hp. destruct (Hpart p Hp) as (_ & ? & ?). lia.
  - pose proof (max_arena_bound (partitions plan)
      (N.to_nat (max_of ((λ p, next_id (subnet p)) <$> partitions plan)))) as H3.
    enough (max_arena (partitions plan) ≤ N.to_nat (max_of ((λ p, next_id (subnet p)) <$> partitions plan)))%nat by lia.
    apply H3, Forall_forall. intros p Hp. destruct (Hpart p Hp) as (Hw & _ & ?).
    pose proof (wf_arena _ Hw). lia.
  - apply H2, Forall_forall. intros x (p & -> & Hp)%list_elem_of_fmap.
    destruct (Hpart p Hp) as (Hw & _ & _). apply (wf_u32 _ Hw).
Qed.

Lemma unite_wf : 0 < k → wf (unite plan).
Proof.
  intros Hk. destruct unite_arena as (EA & EP & [L1 L2] & _). destruct (unite_next Hk) as (_ & N1 & N2).
  assert (V : ∀ id p, valid_port n id p → valid_port (unite plan) id p).
  { intros id p (a & Ha & Hp). exists a. by rewrite unite_agent. }
  split.
  - by rewrite EA, EP, L1, L2.
  - by rewrite EA, L1.
  - done.
  - intros id a. rewrite unite_agent. by apply wf_ids.
  - intros id p Hp Hne. destruct (unite_target id p Hp) as [T1 T2].
    destruct (border_of_dec (cuts n sigma) start (id, p)) as [Hb|Hb]; [by rewrite (T1 Hb) in Hne|].
    rewrite (T2 Hb) in Hne. apply V. by apply (wf_src n Hwf).
  - intros id p b q Hp Ht. destruct (unite_target id p Hp) as [T1 T2].
    destruct (border_of_dec (cuts n sigma) start (id, p)) as [Hb|Hb]; [by rewrite (T1 Hb) in Ht|].
    rewrite (T2 Hb) in Ht. assert (Hv : valid_port n id p) by (apply (wf_src n Hwf); [done|by rewrite Ht]).
    destruct (proj2 (al_dom n k sigma Hal id)) as [w Hw]; [by eapply valid_port_live|].
    destruct (inner_wire n sigma w start id p b q Hwf Hp Hw Hb Ht) as (Hv' & _ & Hback & Hne & Hb').
    split; [by apply V|]. split; [|done].
    destruct (unite_target b q (valid_port_lt3 _ _ _ Hv')) as [_ T3]. by rewrite (T3 Hb').
  - constructor.
  - intros id Hid. by apply elem_of_nil in Hid.
Qed.

(** *** The wires of the borders *)

Lemma index_at i p bid x : partitions plan !! i = Some p →
  free_port_index p !! bid = Some x ↔
  ∃ j c y, cuts n sigma !! j = Some c ∧ bid = start + N.of_nat j ∧ (c.1 = y ∨ c.2 = y) ∧
    x = slot_port y ∧ sigma !! y.1 = Some (N.of_nat i).
Proof.
  intros Hp. rewrite (po_index _ _ _ _ (pd_parts n k sigma plan Hpd i p Hp)). split.
  - intros (id & q & -> & Hs & j & c & Hc & -> & Hy). by exists j, c, (id, q).
  - intros (j & c & y & Hc & -> & Hy & -> & Hs). exists y.1, y.2. split_and!; [done|done|].
    exists j, c. by destruct y.
Qed.

(** A cut is in the indices of two partitions, that of each end. *)
Lemma two_sightings j c : cuts n sigma !! j = Some c → ∃ i i' p p' x x',
  (i < i')%nat ∧ partitions plan !! i = Some p ∧ partitions plan !! i' = Some p' ∧
  free_port_index p !! (start + N.of_nat j) = Some x ∧ free_port_index p' !! (start + N.of_nat j) = Some x' ∧
  ((x, x') = (slot_port c.1, slot_port c.2) ∨ (x, x') = (slot_port c.2, slot_port c.1)) ∧
  ∀ m q, partitions plan !! m = Some q → m ≠ i → m ≠ i' → free_port_index q !! (start + N.of_nat j) = None.
Proof.
  intros Hc. pose proof (list_elem_of_lookup_2 _ _ _ Hc) as Hin.
  destruct (cut_ends n sigma c c.1 Hwf Hin (or_introl eq_refl)) as (V1 & _ & Hd & _).
  destruct (cut_ends n sigma c c.2 Hwf Hin (or_intror eq_refl)) as (V2 & _ & _ & _).
  destruct (proj2 (al_dom n k sigma Hal c.1.1) (valid_port_live _ _ _ V1)) as [wa Ha].
  destruct (proj2 (al_dom n k sigma Hal c.2.1) (valid_port_live _ _ _ V2)) as [wb Hb].
  rewrite Ha, Hb in Hd. assert (Hw : wa ≠ wb) by congruence.
  assert (Hat : ∀ y w, c.1 = y ∨ c.2 = y → sigma !! y.1 = Some w →
    ∃ p, partitions plan !! N.to_nat w = Some p ∧
      free_port_index p !! (start + N.of_nat j) = Some (slot_port y)).
  { intros y w Hy Hs. destruct (lookup_lt_is_Some_2 (partitions plan) (N.to_nat w)) as [p Hp].
    { rewrite (pd_len n k sigma plan Hpd). pose proof (al_range n k sigma Hal _ _ Hs). lia. }
    exists p. split; [done|]. apply (index_at _ _ _ _ Hp). exists j, c, y. by rewrite N2Nat.id. }
  destruct (Hat c.1 wa) as (pa & Hpa & Fa); [by left|done|].
  destruct (Hat c.2 wb) as (pb & Hpb & Fb); [by right|done|].
  assert (Hother : ∀ i p, partitions plan !! i = Some p → i ≠ N.to_nat wa → i ≠ N.to_nat wb →
    free_port_index p !! (start + N.of_nat j) = None).
  { intros i p Hp Hi1 Hi2. destruct (free_port_index p !! _) as [x|] eqn:Hx; [|done]. exfalso.
    apply (index_at _ _ _ _ Hp) in Hx as (j' & c' & y & Hc' & Ej & Hy & _ & Hs).
    assert (j' = j) by lia. subst j'. rewrite Hc in Hc'. injection Hc' as <-.
    destruct Hy as [<-|<-]; rewrite Hs in *; simplify_eq; lia. }
  destruct (decide (wa < wb)).
  - exists (N.to_nat wa), (N.to_nat wb). repeat eexists; eauto; lia.
  - exists (N.to_nat wb), (N.to_nat wa). repeat eexists; eauto; lia.
Qed.

(** The two ends of a cut, the one of the smaller worker first. *)
Lemma sides_of_cut j c : cuts n sigma !! j = Some c → ∃ w,
  border_sides (partitions plan) (start + N.of_nat j) = Some w ∧
  (w = (slot_port c.1, slot_port c.2) ∨ w = (slot_port c.2, slot_port c.1)).
Proof.
  intros Hc. destruct (two_sightings j c Hc) as (i & i' & p & p' & x & x' & Hi & Hp & Hp' & Hx & Hx' & Hor & Hout).
  exists (x, x'). split; [|done]. unfold border_sides.
  by rewrite (omap_two _ _ i i' _ _ _ _ Hi Hp Hp' Hx Hx') by done.
Qed.

End united.

(** ** Restoring the borders *)

Definition border_wires (keys : list N) (plan : PartitionPlan) : list Wire :=
  omap (border_sides (partitions plan)) keys.

Section restored.
Context (n : Net) (k : N) (sigma : gmap AgentId WorkerId) (plan : PartitionPlan) (keys : list N).
Context (Hwf : wf n) (Hal : allocation_ok n k sigma) (Hsp : splittable n k sigma).
Context (Hpd : partitioned n k sigma plan) (Hkeys : keys ≡ₚ border_keys plan).

Abbreviation start := (first_border_id n).

(** The wire [w] is the cut [c], in either direction. *)
Definition wire_of_cut (c : Slot * Slot) (w : Wire) : Prop :=
  w = (slot_port c.1, slot_port c.2) ∨ w = (slot_port c.2, slot_port c.1).

Lemma side_cut bid w : border_sides (partitions plan) bid = Some w →
  ∃ j c, cuts n sigma !! j = Some c ∧ bid = start + N.of_nat j ∧ wire_of_cut c w.
Proof.
  intros Hw. assert (∃ x, x ∈ omap (λ p, free_port_index p !! bid) (partitions plan)) as (x & Hx).
  { unfold border_sides in Hw. destruct (omap _ _) as [|x l]; [done|]. exists x. set_solver. }
  apply list_elem_of_omap in Hx as (p & (i & Hi)%list_elem_of_lookup & Hx).
  apply (index_at n k sigma plan Hpd _ _ _ _ Hi) in Hx as (j & c & y & Hc & -> & _).
  exists j, c. split; [done|]. split; [done|].
  destruct (sides_of_cut n k sigma plan Hwf Hal Hpd j c Hc) as (w' & Hw' & Hor).
  rewrite Hw in Hw'. injection Hw' as <-. exact Hor.
Qed.

Lemma elem_of_keys bid : bid ∈ keys ↔
  ∃ j c, cuts n sigma !! j = Some c ∧ bid = start + N.of_nat j.
Proof.
  rewrite Hkeys. unfold border_keys. rewrite list_elem_of_fmap. split.
  - intros ([b [x y]] & -> & Hin%elem_of_map_to_list).
    apply (pd_borders n k sigma plan Hpd) in Hin as (j & c & Hc & -> & _). by exists j, c.
  - intros (j & c & Hc & ->). exists (start + N.of_nat j, (slot_port c.1, slot_port c.2)).
    split; [done|]. apply elem_of_map_to_list, (pd_borders n k sigma plan Hpd). by exists j, c.
Qed.

Lemma keys_nodup : NoDup keys.
Proof. rewrite Hkeys. apply NoDup_fst_map_to_list. Qed.

Lemma border_wires_cut w : w ∈ border_wires keys plan → ∃ c, c ∈ cuts n sigma ∧ wire_of_cut c w.
Proof.
  intros (bid & _ & Hw)%list_elem_of_omap. destruct (side_cut bid w Hw) as (j & c & Hc & _ & Hor).
  exists c. split; [by eapply list_elem_of_lookup_2|done].
Qed.

Lemma cut_border_wires c : c ∈ cuts n sigma → ∃ w, w ∈ border_wires keys plan ∧ wire_of_cut c w.
Proof.
  intros (j & Hj)%list_elem_of_lookup. destruct (sides_of_cut n k sigma plan Hwf Hal Hpd j c Hj) as (w & Hw & Hor).
  exists w. split; [|exact Hor]. apply list_elem_of_omap. exists (start + N.of_nat j). split; [|done].
  apply elem_of_keys. by exists j, c.
Qed.

Lemma wire_ends c w r : wire_of_cut c w → r = w.1 ∨ r = w.2 → ∃ x, r = slot_port x ∧ (c.1 = x ∨ c.2 = x).
Proof. intros [->| ->] [->| ->]; cbn [fst snd]; eauto. Qed.

Lemma border_wires_ends : NoDup (ends (border_wires keys plan)).
Proof.
  apply ends_nodup.
  - apply keys_nodup.
  - intros bid w Hw. destruct (side_cut bid w Hw) as (j & c & Hc & _ & Hor).
    apply list_elem_of_lookup_2 in Hc. destruct (cut_ends n sigma c c.1 Hwf Hc (or_introl eq_refl)) as (_ & _ & _ & Hne).
    destruct Hor as [->| ->]; cbn [fst snd]; intros E%slot_port_inj; congruence.
  - intros b b' w w' r Hw Hw' Hr Hr'.
    destruct (side_cut b w Hw) as (j & c & Hc & -> & Hor).
    destruct (side_cut b' w' Hw') as (j' & c' & Hc' & -> & Hor').
    destruct (wire_ends c w r Hor Hr) as (x & -> & Hx).
    destruct (wire_ends c' w' _ Hor' Hr') as (x' & ->%slot_port_inj & Hx').
    by destruct (border_of_cut n sigma j j' c c' x' Hwf Hc Hc' Hx Hx') as [-> _].
Qed.

Lemma border_wires_pluggable : pluggable (unite plan) (border_wires keys plan).
Proof.
  split.
  - apply Forall_forall. intros r (w & (c & Hc & Hor)%border_wires_cut & Hr)%in_ends.
    destruct (wire_ends c w r Hor Hr) as ([id p] & -> & Hx).
    destruct (cut_ends n sigma c (id, p) Hwf Hc Hx) as (Hv & _). cbn [fst snd] in Hv.
    split.
    + destruct Hv as (a & Ha & Hp). exists a. split; [|done].
      by rewrite (unite_agent n k sigma plan Hwf Hal Hsp Hpd).
    + apply list_elem_of_lookup in Hc as (j & Hj).
      apply (unite_target n k sigma plan Hwf Hal Hsp Hpd id p (valid_port_lt3 _ _ _ Hv)).
      by exists (start + N.of_nat j), j, c.
  - apply NoDup_filter, border_wires_ends.
Qed.

Lemma border_wires_count : N.of_nat (length (wire_redexes (border_wires keys plan))) ≤ u32_MAX.
Proof.
  pose proof (sp_borders n k sigma Hsp).
  enough (length (wire_redexes (border_wires keys plan)) ≤ length (cuts n sigma))%nat by lia.
  assert (H1 : ∀ ws, (length (wire_redexes ws) ≤ length ws)%nat).
  { induction ws as [|w ws IH]; [done|]. rewrite wire_redexes_cons, length_app, principal_redex. cbn [length].
    destruct (is_principal_pair _ _); lia. }
  assert (H2 : ∀ (f : N → option Wire) l, (length (omap f l) ≤ length l)%nat).
  { intros f. induction l as [|x l IH]; [done|]. cbn. destruct (f x); cbn; lia. }
  etrans; [apply H1|]. etrans; [apply H2|].
  assert (H3 : keys ⊆+ (λ j, start + N.of_nat j) <$> seq 0 (length (cuts n sigma))).
  { apply NoDup_submseteq; [apply keys_nodup|]. intros bid (j & c & Hc & ->)%elem_of_keys.
    apply list_elem_of_fmap. exists j. split; [done|]. apply elem_of_seq. apply lookup_lt_Some in Hc. lia. }
  apply submseteq_length in H3. by rewrite length_fmap, length_seq in H3.
Qed.

(** The merge: the cut wires are plugged back into the united net. *)
Lemma merge_plugs : 0 < k → ∃ m,
  plugged (unite plan) (border_wires keys plan) m ∧ (∀ id, get_agent m id = get_agent n id) ∧
  merge_along keys plan = (with_free_list (merged_free_list m (partitions plan)) m,
                N.of_nat (length (redex_queue m))).
Proof.
  intros Hk. pose proof (unite_wf n k sigma plan Hwf Hal Hsp Hpd Hk) as Hwu.
  exists (plug (unite plan) (border_wires keys plan)).
  pose proof (plug_spec _ _ Hwu border_wires_pluggable) as Hpl. split; [done|]. split.
  { intros id. rewrite plug_get_agent. by apply (unite_agent n k sigma plan Hwf Hal Hsp Hpd). }
  unfold merge_along.
  rewrite restore_fold.
  - rewrite (pl_queue _ _ _ Hpl). done.
  - intros bid w _ Hw. destruct (side_cut bid w Hw) as (j & c & _ & _ & Hor).
    destruct Hor as [->| ->]; unfold slot_port; repeat eexists.
  - cbn [snd]. rewrite N.add_0_l. exact border_wires_count.
Qed.

(** Every port of the merged net is as in the net. *)
Lemma merged_target m id p : plugged (unite plan) (border_wires keys plan) m → p < 3 → m.[id, p] = n.[id, p].
Proof.
  intros Hpl Hp. rewrite (pl_target _ _ _ Hpl) by done.
  destruct (unite_target n k sigma plan Hwf Hal Hsp Hpd id p Hp) as [_ T2].
  destruct (border_of_dec (cuts n sigma) start (id, p)) as [(bid & j & c & Hj & _ & Hx)|Hnb].
  - apply list_elem_of_lookup_2 in Hj. destruct (cut_border_wires c Hj) as (w & Hw & Hor).
    destruct (cut_ends n sigma c (id, p) Hwf Hj Hx) as (_ & Ht & _ & Hne). cbn [fst snd] in Ht.
    assert (∀ a b, w = (a, b) → partner (border_wires keys plan) a = Some b ∧ partner (border_wires keys plan) b = Some a) as HP.
    { intros a b ->. by apply partner_of; [apply border_wires_ends|]. }
    rewrite Ht. clear Ht. change (AgentPort id p) with (slot_port (id, p)).
    destruct Hor as [->| ->]; destruct (HP _ _ eq_refl) as [P1 P2];
      destruct Hx as [<-|<-]; case_decide; try congruence; by rewrite ?P1, ?P2.
  - destruct (partner (border_wires keys plan) (AgentPort id p)) as [r|] eqn:E; [|by apply T2].
    apply partner_Some, in_ends in E as (w & (c & (j & Hj)%list_elem_of_lookup & Hor)%border_wires_cut & Hr).
    destruct (wire_ends c w _ Hor Hr) as (x & E & Hx). change (AgentPort id p) with (slot_port (id, p)) in E.
    apply slot_port_inj in E as <-. exfalso. eapply Hnb. by exists j, c.
Qed.

(** The queue of the merged net: the principal wires that were cut. *)
Lemma merged_queue m x y : plugged (unite plan) (border_wires keys plan) m →
  (x, y) ∈ redex_queue m ∨ (y, x) ∈ redex_queue m ↔ redex n x y ∧ sigma !! x ≠ sigma !! y.
Proof.
  intros Hpl. rewrite (pl_queue _ _ _ Hpl). change (redex_queue (unite plan)) with (@nil (AgentId * AgentId)).
  cbn [app]. rewrite !elem_of_wire_redexes. split.
  - intros H. assert (∃ c, c ∈ cuts n sigma ∧ (c = ((x, 0), (y, 0)) ∨ c = ((y, 0), (x, 0)))) as (c & Hc & E).
    { destruct H as [H|H]; apply border_wires_cut in H as (c & Hc & [E|E]); exists c; (split; [done|]);
        destruct c as [[i p] [j q]]; unfold slot_port in E; cbn [fst snd] in E; injection E as -> -> -> ->; auto. }
    destruct (cut_ends n sigma c (x, 0) Hwf Hc) as (Hv & Ht & Hd & Hne).
    { destruct E as [->| ->]; auto. }
    assert (n.[x, 0] = AgentPort y 0 ∧ sigma !! x ≠ sigma !! y) as [Hxy Hs].
    { destruct E as [->| ->]; cbn [fst snd] in *; case_decide; try congruence; auto. }
    destruct (wf_sym n Hwf x 0 y 0 ltac:(lia) Hxy) as (Hv' & _).
    split; [|done]. split; [by eapply valid_port_live|by eapply valid_port_live|done].
  - intros [Hr Hd]. destruct (crossing_cut n sigma x y Hwf Hr Hd) as (j & c & Hc%list_elem_of_lookup_2 & E).
    destruct (cut_border_wires c Hc) as (w & Hw & Hor). destruct E as [->| ->], Hor as [->| ->]; auto.
Qed.

End restored.

(** ** The free list and the root of the merged net *)

Definition reclaimed (n : Net) (l : list AgentId) (acc : list AgentId * gset AgentId) : Prop :=
  NoDup acc.1 ∧ (∀ id, id ∈ acc.1 ↔ id ∈ acc.2) ∧
  ∀ id, id ∈ acc.1 ↔ id ∈ l ∧ agents n !! N.to_nat id = Some None.

Lemma reclaim_spec n l0 acc l : reclaimed n l0 acc → reclaimed n (l0 ++ l) (foldl (reclaim n) acc l).
Proof.
  revert l0 acc. induction l as [|x l IH]; intros l0 acc H; cbn [foldl]; [by rewrite app_nil_r|].
  replace (l0 ++ x :: l) with ((l0 ++ [x]) ++ l) by (by rewrite <- app_assoc).
  apply IH. destruct acc as [ids seen], H as (H1 & H2 & H3). cbn [fst snd] in *. unfold reclaim. cbn [fst snd].
  destruct (bool_decide (agents n !! N.to_nat x = Some None)) eqn:Ed; cbn [andb].
  - apply bool_decide_eq_true in Ed. case_bool_decide as Hs; cbn [negb].
    + split_and!; cbn [fst snd]; [done|done|]. intros id. rewrite elem_of_app, list_elem_of_singleton, H3.
      apply H2, H3 in Hs as [Hx _]. split; [tauto|]. intros [[?| ->] ?]; auto.
    + rewrite <- H2 in Hs. split_and!; cbn [fst snd].
      * apply NoDup_app. split_and!; [done| |repeat constructor; set_solver].
        intros y Hy ->%list_elem_of_singleton. done.
      * intros id. rewrite elem_of_app, list_elem_of_singleton, elem_of_union, elem_of_singleton, H2. tauto.
      * intros id. rewrite !elem_of_app, !list_elem_of_singleton, H3.
        split; [intros [?| ->]; tauto|tauto].
  - apply bool_decide_eq_false in Ed. split_and!; cbn [fst snd]; [done|done|]. intros id.
    rewrite elem_of_app, list_elem_of_singleton, H3. split; [tauto|]. by intros [[?| ->] ?].
Qed.

Lemma merged_free_list_spec n ps :
  NoDup (merged_free_list n ps) ∧
  ∀ id, id ∈ merged_free_list n ps ↔
    (∃ p, p ∈ ps ∧ id ∈ free_list (subnet p)) ∧ agents n !! N.to_nat id = Some None.
Proof.
  destruct (reclaim_spec n [] ([], ∅) (ps ≫= λ p, free_list (subnet p))) as (H1 & _ & H3).
  { split_and!; cbn [fst snd]; [constructor|set_solver|set_solver]. }
  split; [done|]. intros id. unfold merged_free_list. rewrite H3. cbn [app].
  rewrite list_elem_of_bind. split; intros [(p & ? & ?) ?]; (split; [by exists p|done]).
Qed.

Lemma merged_free_list_wf n ps : wf n → wf (with_free_list (merged_free_list n ps) n).
Proof.
  intros Hwf. destruct (merged_free_list_spec n ps) as [H1 H2]. destruct Hwf. split; try done.
  intros id [_ Hd]%H2. split.
  - change (mjoin (agents n !! N.to_nat id) = None). by rewrite Hd.
  - apply lookup_lt_Some in Hd. cbn. lia.
Qed.

(** Every partition that has a root has the same one. *)
Lemma merged_root_spec ps r : (∀ p x, p ∈ ps → root (subnet p) = Some x → r = Some x) →
  (∀ x, r = Some x → ∃ p, p ∈ ps ∧ root (subnet p) = Some x) → merged_root ps = r.
Proof.
  intros H1 H2. unfold merged_root.
  enough (∀ r0, (r0 = None ∨ r0 = r) → (r0 = r ∨ ∃ p, p ∈ ps ∧ is_Some (root (subnet p))) →
    foldl (λ r p, match root (subnet p) with Some x => Some x | None => r end) r0 ps = r) as H.
  { apply H; [by left|]. destruct r as [x|]; [right|by left].
    destruct (H2 x eq_refl) as (p & Hp & Hx). exists p. rewrite Hx. eauto. }
  clear H2. induction ps as [|p ps IH]; intros r0 Hr0 Hex; cbn [foldl].
  { destruct Hex as [?|(p & []%elem_of_nil & _)]. done. }
  assert (H1' : ∀ p x, p ∈ ps → root (subnet p) = Some x → r = Some x) by (intros q x Hq; apply H1; set_solver).
  destruct (root (subnet p)) as [x|] eqn:E.
  - apply IH; [done|right|left]; symmetry; by apply (H1 p); [set_solver|].
  - apply IH; [done|done|]. destruct Hex as [?|(q & [->|Hq]%elem_of_cons & Hs)]; [by left| |right; by exists q].
    rewrite E in Hs. by destruct Hs.
Qed.
