(* ===== verification/SplitSpec.v ===== *)
(** What splitting a net promises: the strategy's allocation, the ranges of
    ids, the plan, and that merging the plan gives the net back. *)
From S2P Require Import Prelude NetTypes NetCore NetInv Reduction ReductionInv EngineInv NetDebug.
From S2P Require Import SparseNet Partition BorderGraph BorderSpec Split SplitInv Merge MergeInv.
Local Open Scope N_scope.
Open Scope net_scope.

(** ** Id ranges *)

Definition in_range (id : AgentId) (r : IdRange) : Prop := range_start r ≤ id < range_end r.

Definition disjoint_ranges (l : list IdRange) : Prop :=
  ∀ i j r s id, l !! i = Some r → l !! j = Some s → in_range id r → in_range id s → i = j.

Lemma id_range_at_eq k base i : k ≤ 16777216 → base < u32_MAX → i < k →
  range_start (id_range_at k base i) = (base + i * chunk_size base) `min` (u32_MAX - 1) ∧
  range_end (id_range_at k base i) =
    if decide (i = k - 1) then u32_MAX else (base + (i + 1) * chunk_size base) `min` u32_MAX.
Proof.
  intros Hk Hb Hi. unfold id_range_at. cbn [range_start range_end].
  assert (Hch : 0 < chunk_size base ≤ 42949672950) by (unfold chunk_size, u32_MAX in *; lia).
  set (ch := chunk_size base) in *. unfold wrap64, u32_MAX in *.
  assert ((i + 1) * ch ≤ 16777216 * 42949672950) by (apply N.mul_le_mono; lia).
  assert (i * ch ≤ (i + 1) * ch) by (apply N.mul_le_mono_r; lia).
  rewrite (N.mod_small (i * ch)), (N.mod_small (base + i * ch)) by lia. split; [done|].
  destruct (N.eqb_spec i (k - 1)); [by rewrite decide_True|]. rewrite decide_False by done.
  by rewrite (N.mod_small ((i + 1) * ch)), (N.mod_small (base + (i + 1) * ch)) by lia.
Qed.

Lemma range_at_lookup k base i r : (id_range_at k base <$> range_u k) !! i = Some r →
  (i < N.to_nat k)%nat ∧ r = id_range_at k base (N.of_nat i).
Proof.
  rewrite list_lookup_fmap. unfold range_u. rewrite list_lookup_fmap.
  destruct (seq 0 (N.to_nat k) !! i) as [j|] eqn:E; [|done]. cbn. intros [= <-].
  apply lookup_seq in E as [-> ?]. done.
Qed.

(** The ranges of the workers: each is non-empty and starts where the one
    before ends; they are pairwise disjoint exactly when the last one starts
    below [u32::MAX]: past that, the clamps make ranges share ids. *)
Theorem compute_id_ranges_exact k base : 0 < k ≤ 16777216 → base < u32_MAX →
  ∃ l, compute_id_ranges k base = Done l ∧ length l = N.to_nat k ∧
  (∀ i r, l !! i = Some r → base ≤ range_start r < range_end r ∧ range_end r ≤ u32_MAX) ∧
  (disjoint_ranges l ↔ base + (k - 1) * chunk_size base < u32_MAX) ∧
  (base + (k - 1) * chunk_size base < u32_MAX →
    ∀ i r s, l !! i = Some r → l !! S i = Some s → range_end r = range_start s).
Proof.
  intros Hk Hb. unfold compute_id_ranges. rewrite (proj2 (N.ltb_lt 0 k)) by lia.
  assert (Hch : 0 < chunk_size base) by (unfold chunk_size; lia).
  set (l := id_range_at k base <$> range_u k). set (ch := chunk_size base) in *.
  assert (Hmono : ∀ i j, i ≤ j → i * ch ≤ j * ch) by (intros; by apply N.mul_le_mono_r).
  assert (Hl : ∀ i r, l !! i = Some r → (i < N.to_nat k)%nat ∧
    range_start r = (base + N.of_nat i * ch) `min` (u32_MAX - 1) ∧
    range_end r = if decide (N.of_nat i = k - 1) then u32_MAX else (base + (N.of_nat i + 1) * ch) `min` u32_MAX).
  { intros i r Hr. apply range_at_lookup in Hr as [Hi ->]. split; [done|]. apply id_range_at_eq; lia. }
  exists l. split; [done|]. split_and!.
  - unfold l, range_u. by rewrite !length_fmap, length_seq.
  - intros i r (Hi & -> & ->)%Hl. pose proof (Hmono (N.of_nat i) (N.of_nat i + 1) ltac:(lia)).
    pose proof (N.mul_add_distr_r (N.of_nat i) 1 ch). unfold u32_MAX in *. case_decide; lia.
  - split.
    + intros Hd. destruct (decide (base + (k - 1) * ch < u32_MAX)) as [|Hge]; [done|]. exfalso.
      assert (2 ≤ k) by (destruct (decide (k = 1)) as [->|]; lia).
      assert (Hat : ∀ i, (i < N.to_nat k)%nat → l !! i = Some (id_range_at k base (N.of_nat i))).
      { intros i Hi. unfold l. rewrite list_lookup_fmap. unfold range_u. rewrite list_lookup_fmap.
        by rewrite lookup_seq_lt. }
      pose proof (Hat (N.to_nat (k - 2)) ltac:(lia)) as H1. pose proof (Hat (N.to_nat (k - 1)) ltac:(lia)) as H2.
      destruct (Hl _ _ H1) as (_ & S1 & E1). destruct (Hl _ _ H2) as (_ & S2 & E2).
      rewrite !N2Nat.id in *. rewrite decide_False in E1 by lia. rewrite decide_True in E2 by done.
      replace (k - 2 + 1) with (k - 1) in E1 by lia.
      enough (N.to_nat (k - 2) = N.to_nat (k - 1)) by lia.
      apply (Hd _ _ _ _ (u32_MAX - 1) H1 H2); unfold in_range; rewrite ?S1, ?E1, ?S2, ?E2; unfold u32_MAX in *; lia.
    + intros Hlt i j r s id (Hi & R1 & R2)%Hl (Hj & S1 & S2)%Hl Hr Hs. unfold in_range in *.
      rewrite R1, R2 in Hr. rewrite S1, S2 in Hs.
      destruct (lt_eq_lt_dec i j) as [[Hij|]|Hij]; [|done|]; exfalso.
      * rewrite decide_False in Hr by lia. pose proof (Hmono (N.of_nat i + 1) (N.of_nat j) ltac:(lia)).
        pose proof (Hmono (N.of_nat j) (k - 1) ltac:(lia)). lia.
      * rewrite (decide_False (P := N.of_nat j = k - 1)) in Hs by lia.
        pose proof (Hmono (N.of_nat j + 1) (N.of_nat i) ltac:(lia)). pose proof (Hmono (N.of_nat i) (k - 1) ltac:(lia)). lia.
  - intros Hlt i r s (Hi & _ & ->)%Hl (Hj & -> & _)%Hl. rewrite decide_False by lia.
    pose proof (Hmono (N.of_nat (S i)) (k - 1) ltac:(lia)).
    replace (N.of_nat i + 1) with (N.of_nat (S i)) by lia. lia.
Qed.

(** With two workers and 400 million ids in use, both may mint id
    [u32::MAX - 1]. *)
Lemma compute_id_ranges_exact_witness :
  ∃ l, compute_id_ranges 2 400000000 = Done l ∧ ¬ disjoint_ranges l.
Proof.
  destruct (compute_id_ranges_exact 2 400000000) as (l & Hl & _ & _ & Hd & _); [lia|done|].
  exists l. split; [done|]. rewrite Hd. vm_compute. discriminate.
Defined.

(** ** The contiguous strategy *)

(** Agent number [i] in the order of ids goes to worker [i / chunk]. *)
Lemma contiguous_lookup n k : 0 < k ≤ u32_MAX →
  let chunk := div_ceil (N.of_nat (length (sorted_ids n))) k in
  NoDup (sorted_ids n) →
  ∃ sigma, contiguous_allocate n k = Done sigma ∧ ∀ id w,
    sigma !! id = Some w ↔ ∃ i, sorted_ids n !! i = Some id ∧ w = N.of_nat i `div` chunk ∧ w < k.
Proof.
  intros Hk chunk Hnd. unfold contiguous_allocate. fold (sorted_ids n).
  set (total := N.of_nat (length (sorted_ids n))) in *.
  destruct (N.eqb_spec total 0) as [E|E].
  { exists ∅. split; [done|]. intros id w. rewrite lookup_empty. split; [done|]. intros (i & Hi & _).
    apply lookup_lt_Some in Hi. lia. }
  rewrite (proj2 (N.eqb_neq k 0)) by lia. eexists. split; [done|]. intros id w. fold chunk.
  assert (Hch : 0 < chunk ∧ total ≤ chunk * k).
  { unfold chunk, div_ceil. pose proof (N.div_mod (total + k - 1) k ltac:(lia)).
    pose proof (N.mod_lt (total + k - 1) k ltac:(lia)). split; [|lia].
    apply N.div_str_pos. lia. }
  assert (Hw : ∀ i, (i < length (sorted_ids n))%nat → N.of_nat i `div` chunk < k ∧
    as_u32 (N.of_nat i `div` chunk) = N.of_nat i `div` chunk).
  { intros i Hi. assert (N.of_nat i `div` chunk < k) by (apply N.Div0.div_lt_upper_bound; lia).
    split; [done|]. apply as_u32_small. lia. }
  rewrite (foldl_insert_lookup snd fst).
  - split.
    + intros (e & He & <- & <-). apply list_elem_of_lookup in He as (i & Hi). rewrite list_lookup_imap in Hi.
      destruct (sorted_ids n !! i) as [x|] eqn:Ex; [|done]. cbn in Hi. injection Hi as <-. cbn [fst snd].
      destruct (Hw i (lookup_lt_Some _ _ _ Ex)) as [H1 H2]. rewrite H2. by exists i.
    + intros (i & Hi & -> & _). destruct (Hw i (lookup_lt_Some _ _ _ Hi)) as [H1 H2].
      exists (N.of_nat i `div` chunk, id). split; [|done]. apply list_elem_of_lookup. exists i.
      rewrite list_lookup_imap, Hi. cbn. by rewrite H2.
  - intros x y Hx Hy E'. apply list_elem_of_lookup in Hx as (i & Hi), Hy as (j & Hj).
    rewrite list_lookup_imap in Hi, Hj.
    destruct (sorted_ids n !! i) eqn:Ei; [|done]. destruct (sorted_ids n !! j) eqn:Ej; [|done].
    cbn in Hi, Hj. injection Hi as <-. injection Hj as <-. cbn [fst snd] in *. subst.
    by rewrite (NoDup_lookup _ _ _ _ Hnd Ei Ej).
Qed.

(** The contiguous strategy gives every live agent, and nothing else, to a
    worker; workers follow the order of ids; no worker gets more than
    [ceil(|A| / workers)] agents. *)
Theorem contiguous_allocate_exact n k : wf n → 0 < k ≤ u32_MAX →
  ∃ sigma, contiguous_allocate n k = Done sigma ∧ allocation_ok n k sigma ∧
  (∀ a b wa wb, sigma !! a = Some wa → sigma !! b = Some wb → a ≤ b → wa ≤ wb) ∧
  (∀ w, N.of_nat (length (filter (λ e, e.2 = w) (map_to_list sigma)))
          ≤ div_ceil (N.of_nat (count_live_agents n)) k).
Proof.
  intros Hwf Hk. assert (Hnd : NoDup (sorted_ids n)) by (rewrite sorted_ids_perm; by apply arena_ids_nodup).
  assert (Hin : ∀ id, live n id ↔ ∃ i, sorted_ids n !! i = Some id).
  { intros id. by rewrite <- list_elem_of_lookup, sorted_ids_perm, elem_of_arena_ids. }
  assert (Hlen : length (sorted_ids n) = count_live_agents n) by (by rewrite sorted_ids_perm, length_arena_ids).
  destruct (contiguous_lookup n k Hk Hnd) as (sigma & -> & Hs). rewrite Hlen in Hs.
  set (chunk := div_ceil _ _) in *. exists sigma. split; [done|].
  assert (Htot : N.of_nat (count_live_agents n) ≤ chunk * k).
  { unfold chunk, div_ceil. pose proof (N.div_mod (N.of_nat (count_live_agents n) + k - 1) k ltac:(lia)).
    pose proof (N.mod_lt (N.of_nat (count_live_agents n) + k - 1) k ltac:(lia)). lia. }
  split_and!.
  - split.
    + intros id. rewrite Hin. split.
      * intros [w (i & Hi & _)%Hs]. by exists i.
      * intros [i Hi]. exists (N.of_nat i `div` chunk). apply Hs. exists i. split_and!; [done|done|].
        apply lookup_lt_Some in Hi. apply N.Div0.div_lt_upper_bound. lia.
    + by intros id w (i & _ & _ & Hw)%Hs.
  - intros a b wa wb (i & Hi & -> & _)%Hs (j & Hj & -> & _)%Hs Hab. apply N.Div0.div_le_mono.
    destruct (decide (i ≤ j)%nat) as [|Hij]; [lia|].
    pose proof (strongly_sorted_lookup _ j i b a (StronglySorted_merge_sort N.le (arena_ids n)) Hj Hi ltac:(lia)).
    assert (a = b) as -> by lia. rewrite (NoDup_lookup _ _ _ _ Hnd Hi Hj). done.
  - intros w. set (l := (filter (λ e, e.2 = w) (map_to_list sigma)).*1).
    enough (l ⊆+ (λ i, default 0 (sorted_ids n !! i)) <$> seq (N.to_nat (w * chunk)) (N.to_nat chunk)) as Hsub.
    { apply submseteq_length in Hsub. unfold l in Hsub. rewrite !length_fmap, length_seq in Hsub. lia. }
    apply NoDup_submseteq.
    + unfold l. apply (sublist_NoDup _ (map_to_list sigma).*1); [apply NoDup_fst_map_to_list|].
      apply fmap_sublist, sublist_filter.
    + intros id ([id' w'] & -> & [E Hin']%list_elem_of_filter)%list_elem_of_fmap.
      apply elem_of_map_to_list in Hin'. cbn [fst snd] in *. subst w'.
      apply Hs in Hin' as (i & Hi & Hw & _). apply list_elem_of_fmap. exists i. rewrite Hi. split; [done|].
      apply lookup_lt_Some in Hi as Hlt. assert (chunk ≠ 0) by lia.
      pose proof (N.div_mod (N.of_nat i) chunk ltac:(done)). pose proof (N.mod_lt (N.of_nat i) chunk ltac:(done)).
      rewrite (N.mul_comm chunk), <- Hw in *. clearbody chunk.
      apply elem_of_seq. clear Hw. generalize dependent (N.of_nat i `mod` chunk). generalize (w * chunk). lia.
Qed.

(** ** The plan of a split *)

Section plan.
Context (n : Net) (k : N) (sigma : gmap AgentId WorkerId) (plan : PartitionPlan).
Context (Hwf : wf n) (Hal : allocation_ok n k sigma) (Hsp : splittable n k sigma).
Context (Hpd : partitioned n k sigma plan).

Abbreviation start := (first_border_id n).

(** The two sightings of a cut, and no sighting of anything else. *)
Lemma sights_cut j c : cuts n sigma !! j = Some c → ∃ wa pa wb pb,
  sights (partitions plan) (start + N.of_nat j) = [(wa, pa); (wb, pb)] ∧ wa ≠ wb ∧ wire_of_cut c (pa, pb).
Proof.
  intros Hc. destruct (two_sightings n k sigma plan Hwf Hal Hpd j c Hc)
    as (i & i' & p & p' & x & x' & Hi & Hp & Hp' & Hx & Hx' & Hor & Hout).
  exists (worker_id p), x, (worker_id p'), x'. split_and!; [|  |exact Hor].
  - unfold sights. apply (omap_two _ _ i i' _ _ p p'); [done..| | |].
    + by rewrite Hx. + by rewrite Hx'.
    + intros m q Hq Hm Hm'. by rewrite (Hout m q).
  - rewrite (po_worker _ _ _ _ (pd_parts n k sigma plan Hpd i p Hp)),
      (po_worker _ _ _ _ (pd_parts n k sigma plan Hpd i' p' Hp')). lia.
Qed.

Lemma sights_other bid : sights (partitions plan) bid ≠ [] →
  ∃ j c, cuts n sigma !! j = Some c ∧ bid = start + N.of_nat j.
Proof.
  intros Hne. destruct (sights (partitions plan) bid) as [|x l] eqn:E; [done|].
  assert (x ∈ sights (partitions plan) bid) as Hx by (rewrite E; set_solver).
  apply list_elem_of_omap in Hx as (p & (i & Hi)%list_elem_of_lookup & Hx).
  destruct (free_port_index p !! bid) as [y|] eqn:Ey; [|done].
  apply (index_at n k sigma plan Hpd _ _ _ _ Hi) in Ey as (j & c & _ & Hc & -> & _). by exists j, c.
Qed.

Lemma border_cut bid : is_Some (plan_borders plan !! bid) ↔
  ∃ j c, cuts n sigma !! j = Some c ∧ bid = start + N.of_nat j.
Proof.
  split.
  - intros [[a b] H]. apply (pd_borders n k sigma plan Hpd) in H as (j & c & Hc & -> & _ & _). by exists j, c.
  - intros (j & c & Hc & ->). exists (slot_port c.1, slot_port c.2).
    apply (pd_borders n k sigma plan Hpd). by exists j, c.
Qed.

Lemma split_c3 : c3 plan.
Proof.
  split.
  - intros bid (j & c & Hc & ->)%border_cut. by destruct (sights_cut j c Hc) as (?&?&?&?&->&_).
  - intros bid Hne. apply sights_other in Hne as H. rewrite border_cut. split; [|done].
    destruct H as (j & c & Hc & ->). by destruct (sights_cut j c Hc) as (?&?&?&?&->&_).
Qed.

Lemma split_workers_dense : workers_dense plan.
Proof.
  intros p (i & Hi)%list_elem_of_lookup.
  rewrite (po_worker _ _ _ _ (pd_parts n k sigma plan Hpd i p Hi)), Nat2N.id. by eapply lookup_lt_Some.
Qed.

(** The program's own checks on the plan. *)
Lemma found_in_sights ps bid : found_in ps bid = (sights ps bid).*1.
Proof.
  unfold found_in, sights. induction ps as [|p ps IH]; [done|]. rewrite filter_cons. cbn [omap list_omap].
  case_decide as Hd.
  - destruct Hd as [x Hx]. rewrite Hx. cbn. by f_equal.
  - destruct (free_port_index p !! bid) eqn:E; [|done]. exfalso. apply Hd. by eexists.
Qed.

Lemma split_checks : assert_c3_border_consistency (partitions plan) (plan_borders plan) = true.
Proof.
  unfold assert_c3_border_consistency. apply forallb_forall. intros bid Hb%list_elem_of_In.
  apply (elem_of_keys n k sigma plan _ Hpd (reflexivity _)) in Hb as (j & c & Hc & ->).
  destruct (sights_cut j c Hc) as (wa & pa & wb & pb & Hs & Hne & _).
  rewrite found_in_sights, Hs. cbn. by rewrite (proj2 (N.eqb_neq wa wb)).
Qed.

(** Each live agent is in one subnet, that of its worker. *)
Lemma elem_of_plan_ids id : id ∈ plan_ids (partitions plan) ↔ live n id.
Proof.
  unfold plan_ids. rewrite list_elem_of_bind. split.
  - intros (p & Hid & (i & Hi)%list_elem_of_lookup).
    destruct (pd_parts n k sigma plan Hpd i p Hi) as [_ [r Hsub] Hwp _ _ _ _ _].
    apply elem_of_arena_ids in Hid as [a Ha]; [|done]. rewrite (sn_agent _ _ _ _ _ _ Hsub) in Ha.
    case_decide; [|done]. by exists a.
  - intros Hl. destruct (proj2 (al_dom n k sigma Hal id) Hl) as [w Hw].
    destruct (owner n k sigma plan Hal Hpd id w Hw) as (l1 & p & l2 & E & Hpo & _).
    exists p. rewrite E. split; [|set_solver]. destruct Hpo as [_ [r Hsub] Hwp _ _ _ _ _].
    apply elem_of_arena_ids; [done|]. unfold live. by rewrite (sn_agent _ _ _ _ _ _ Hsub), decide_True.
Qed.

Lemma plan_ids_nodup : NoDup (plan_ids (partitions plan)).
Proof.
  unfold plan_ids. assert (Hsub : ∀ i p, partitions plan !! i = Some p →
    wf (subnet p) ∧ ∀ id, live (subnet p) id → sigma !! id = Some (N.of_nat i)).
  { intros i p Hi. destruct (pd_parts n k sigma plan Hpd i p Hi) as [_ [r Hs] Hwp _ _ _ _ _].
    split; [done|]. intros id [a Ha]. rewrite (sn_agent _ _ _ _ _ _ Hs) in Ha. by case_decide. }
  apply NoDup_bind.
  - intros p q id (i & Hi)%list_elem_of_lookup (j & Hj)%list_elem_of_lookup Hp Hq.
    destruct (Hsub i p Hi) as [W1 L1], (Hsub j q Hj) as [W2 L2].
    apply elem_of_arena_ids, L1 in Hp; [|done]. apply elem_of_arena_ids, L2 in Hq; [|done].
    rewrite Hp in Hq. injection Hq as ->%(inj N.of_nat). congruence.
  - intros p (i & Hi)%list_elem_of_lookup. by apply arena_ids_nodup, (Hsub i p Hi).
  - apply NoDup_alt. intros i j p Hi Hj.
    pose proof (po_worker _ _ _ _ (pd_parts n k sigma plan Hpd i p Hi)).
    pose proof (po_worker _ _ _ _ (pd_parts n k sigma plan Hpd j p Hj)). lia.
Qed.

Lemma split_coverage : assert_c1_coverage n (partitions plan) = true.
Proof.
  unfold assert_c1_coverage. pose proof plan_ids_nodup as Hnd.
  rewrite bool_decide_true by done. cbn [andb]. apply Nat.eqb_eq, Permutation_length, NoDup_Permutation.
  - done. - by apply arena_ids_nodup.
  - intros id. by rewrite elem_of_plan_ids, elem_of_arena_ids.
Qed.

(** A wire is active in a subnet when it is in the net and is not cut. *)
Lemma subnet_redex i p x y : partitions plan !! i = Some p →
  redex (subnet p) x y ↔ redex n x y ∧ sigma !! x = Some (N.of_nat i) ∧ sigma !! y = Some (N.of_nat i).
Proof.
  intros Hi. destruct (pd_parts n k sigma plan Hpd i p Hi) as [_ [r Hs] _ _ _ _ _].
  assert (Hlive : ∀ id, live (subnet p) id ↔ live n id ∧ sigma !! id = Some (N.of_nat i)).
  { intros id. unfold live. rewrite (sn_agent _ _ _ _ _ _ Hs). case_decide; [tauto|].
    split; [by intros [? ?]|by intros [_ ?]]. }
  split.
  - intros [[Lx Sx]%Hlive [Ly Sy]%Hlive Hxy]. split; [|done]. split; [done|done|].
    destruct (border_of_dec (cuts n sigma) start (x, 0)) as [[bid Hb]|Hnb].
    + rewrite (sn_cut _ _ _ _ _ _ Hs x 0 bid ltac:(lia) Sx Hb) in Hxy. done.
    + by rewrite (sn_copy _ _ _ _ _ _ Hs x 0 ltac:(lia) Sx Hnb) in Hxy.
  - intros [[Lx Ly Hxy] [Sx Sy]]. split; [by apply Hlive|by apply Hlive|].
    rewrite (sn_copy _ _ _ _ _ _ Hs x 0 ltac:(lia) Sx); [done|]. intros bid Hb.
    destruct (proj1 (border_of_iff n sigma start (x, 0) Hwf)) as (o & q & _ & Ho & Hd); [by exists bid|].
    cbn [fst snd] in *. rewrite Hxy in Ho. injection Ho as <- <-. congruence.
Qed.

Lemma subnet_queue_complete i p : partitions plan !! i = Some p → queue_complete n → queue_complete (subnet p).
Proof.
  intros Hi Hq x y Hxy. apply (subnet_redex i p x y Hi) in Hxy as (Hr & Sx & Sy).
  destruct (pd_parts n k sigma plan Hpd i p Hi) as [_ [r Hs] _ _ _ _ _].
  rewrite (sn_queue _ _ _ _ _ _ Hs), !list_elem_of_filter. unfold same_worker. cbn [fst snd].
  rewrite !bool_decide_true by done. destruct (Hq x y Hr); auto.
Qed.

(** The coordinator's border graph of the plan, seen through the cuts. *)
Lemma graph_borders g bid a b wa wb st :
  (∀ bid, borders g !! bid =
      match sights (partitions plan) bid with
      | [(wa, pa); (wb, pb)] => Some (mkBorder bid pa pb wa wb (is_principal_pair pa pb))
      | _ => None
      end) →
  borders g !! bid = Some st → a = side_a st → b = side_b st → wa = worker_a st → wb = worker_b st →
  wa ≠ wb ∧ ∃ c, c ∈ cuts n sigma ∧ wire_of_cut c (a, b).
Proof.
  intros HB Hst -> -> -> ->. rewrite HB in Hst.
  destruct (sights_other bid) as (j & c & Hc & ->); [by intros E; rewrite E in Hst|].
  destruct (sights_cut j c Hc) as (wa & pa & wb & pb & Hs & Hne & Hor). rewrite Hs in Hst.
  injection Hst as <-. split; [done|]. exists c. split; [by eapply list_elem_of_lookup_2|done].
Qed.

End plan.

(** ** An example: two workers, one inner and one crossing active pair *)

(** The bounds of [splittable], decided. *)
Definition splittable_b (n : Net) (k : N) (sigma : gmap AgentId WorkerId) : bool :=
  (k <=? 16777216) && (next_id n <? u32_MAX) && (next_id n <=? Sparse.MAX_DENSE_ARENA_SLOTS) &&
  forallb (λ r, match r with FreePort f => f <=? u32_MAX | AgentPort _ _ => true end) (ports n) &&
  (first_border_id n + N.of_nat (length (cuts n sigma)) <=? u32_MAX).

Lemma splittable_b_sound n k sigma : wf n → splittable_b n k sigma = true → splittable n k sigma.
Proof.
  unfold splittable_b. rewrite !andb_true_iff, !N.leb_le, N.ltb_lt. intros Hwf ((((H1 & H2) & H3) & H4) & H5).
  split; [done|done| | |done].
  - intros id Hid. pose proof (live_lt_next n id Hwf Hid). lia.
  - intros f Hf. apply (forallb_elem _ _ _ H4) in Hf. by apply N.leb_le.
Qed.

Definition example_net : Net :=
  match
    '(n, _) ← create_agent new Era; '(n, _) ← create_agent n Era; '(n, _) ← create_agent n Con;
    '(n, _) ← create_agent n Dup; '(n, _) ← create_agent n Era; '(n, _) ← create_agent n Era; mret n
  with
  | Done n =>
      with_root (Some (AgentPort 4 0))
        (foldl (λ n w, connect n w.1 w.2) n
          [(AgentPort 0 0, AgentPort 1 0); (AgentPort 2 0, AgentPort 3 0); (AgentPort 2 1, AgentPort 4 0);
           (AgentPort 2 2, AgentPort 3 2); (AgentPort 3 1, AgentPort 5 0)])
  | Panic => new
  end.

Definition example_sigma : gmap AgentId WorkerId :=
  match contiguous_allocate example_net 2 with Done sigma => sigma | Panic => ∅ end.

Lemma example_allocation :
  allocate example_net 2 = Done example_sigma ∧ allocation_ok example_net 2 example_sigma.
Proof.
  assert (Hwf : wf example_net) by (apply wf_b_sound; vm_compute; reflexivity).
  destruct (contiguous_lookup example_net 2) as (sigma & Hs & Hl); [done| |].
  { rewrite sorted_ids_perm. by apply arena_ids_nodup. }
  assert (E : example_sigma = sigma) by (unfold example_sigma; by rewrite Hs). rewrite E. split; [exact Hs|].
  split.
  - intros id. rewrite <- elem_of_arena_ids, <- sorted_ids_perm, list_elem_of_lookup by done. split.
    + intros [w (i & Hi & _)%Hl]. by exists i.
    + intros [i Hi]. exists (N.of_nat i `div` div_ceil (N.of_nat (length (sorted_ids example_net))) 2).
      apply Hl. exists i. split; [done|]. split; [done|].
      apply lookup_lt_Some in Hi. assert (Hlen : length (sorted_ids example_net) = 6%nat) by (vm_compute; reflexivity).
      rewrite Hlen in *. change (div_ceil (N.of_nat 6) 2) with 3. apply N.Div0.div_lt_upper_bound. lia.
  - intros id w (i & _ & _ & Hw)%Hl. exact Hw.
Qed.

Lemma example_hyps : wf example_net ∧ queue_complete example_net ∧ splittable example_net 2 example_sigma.
Proof.
  assert (Hwf : wf example_net) by (apply wf_b_sound; vm_compute; reflexivity).
  split_and!; [done|apply queue_complete_b_sound; vm_compute; reflexivity|].
  apply splittable_b_sound; [done|]. vm_compute. reflexivity.
Qed.

Lemma contiguous_allocate_exact_witness :
  ∃ sigma, contiguous_allocate example_net 2 = Done sigma ∧ allocation_ok example_net 2 sigma.
Proof.
  destruct (contiguous_allocate_exact example_net 2) as (sigma & H & Hal & _);
    [apply example_hyps|vm_compute; split; [reflexivity|discriminate]|].
  exists sigma. split; [exact H|exact Hal].
Defined.

(** C30. A split of a well-formed net that queues its active pairs, among two
    workers or more, with a strategy that gives each live agent one of them and
    the sparse subnet builder (the default configuration), within the machine's
    bounds ([splittable]: at most 2^24 workers, agent ids below 2^24, labels in
    [u32], a free id left, and room in [u32] for the border ids of the cut
    wires), returns a plan that partitions the net (each agent in its worker's subnet with its wires, the wires between
    workers replaced on both sides by the same fresh border id), passes the
    program's coverage and border checks, and hands every worker a well-formed
    net whose queue holds each of its active pairs. *)
Theorem split_sound `{PartitionStrategy} n k config sigma :
  wf n → queue_complete n → 2 ≤ k → allocate n k = Done sigma → allocation_ok n k sigma →
  splittable n k sigma → sparse_build config = true →
  ∃ plan, split_with_config n k config = Done plan ∧ partitioned n k sigma plan ∧
    assert_c1_coverage n (partitions plan) = true ∧
    assert_c3_border_consistency (partitions plan) (plan_borders plan) = true ∧
    ∀ p, p ∈ partitions plan → wf (subnet p) ∧ queue_complete (subnet p).
Proof.
  intros Hwf Hq Hk Ha Hal Hsp Hcfg.
  destruct (split_spec n k config sigma Hwf Hk Ha Hal Hsp Hcfg) as (plan & Hplan & Hpd).
  exists plan. split_and!; [done|done|by eapply split_coverage|by eapply split_checks|].
  intros p (i & Hi)%list_elem_of_lookup.
  split; [exact (po_wf _ _ _ _ (pd_parts n k sigma plan Hpd i p Hi))|by eapply subnet_queue_complete].
Qed.

Lemma split_sound_witness :
  ∃ plan, split example_net 2 = Done plan ∧ partitioned example_net 2 example_sigma plan ∧
    assert_c1_coverage example_net (partitions plan) = true.
Proof.
  destruct example_hyps as (Hwf & Hq & Hsp). destruct example_allocation as [Ha Hal].
  destruct (split_sound example_net 2 config_default example_sigma Hwf Hq) as (plan & H & Hp & C & _);
    [vm_compute; discriminate|exact Ha|exact Hal|exact Hsp|reflexivity|].
  exists plan. split; [exact H|]. split; [exact Hp|exact C].
Defined.

(** A split loses no work: the border graph built from the plan exists,
    and each active pair of the net is queued in one worker's subnet, or is a
    border between two workers that the graph lists as a border redex; never
    both. *)
Theorem split_conserves_redexes `{PartitionStrategy} n k config sigma :
  wf n → queue_complete n → 2 ≤ k → allocate n k = Done sigma → allocation_ok n k sigma →
  splittable n k sigma → sparse_build config = true →
  ∃ plan g, split_with_config n k config = Done plan ∧ Border.from_partition_plan plan = Done g ∧ gwf g ∧
    ∀ x y, redex n x y →
    let inside := ∃ p, p ∈ partitions plan ∧ redex (subnet p) x y ∧
      ((x, y) ∈ redex_queue (subnet p) ∨ (y, x) ∈ redex_queue (subnet p)) in
    let across := ∃ bid st, (bid, st) ∈ Border.detect_border_redexes g ∧ worker_a st ≠ worker_b st ∧
      ((side_a st, side_b st) = (AgentPort x 0, AgentPort y 0) ∨
       (side_a st, side_b st) = (AgentPort y 0, AgentPort x 0)) in
    (inside ↔ sigma !! x = sigma !! y) ∧ (across ↔ sigma !! x ≠ sigma !! y).
Proof.
  intros Hwf Hq Hk Ha Hal Hsp Hcfg.
  destruct (split_spec n k config sigma Hwf Hk Ha Hal Hsp Hcfg) as (plan & Hplan & Hpd).
  destruct (proj2 (from_partition_plan_sound plan) (split_c3 n k sigma plan Hwf Hal Hsp Hpd)
    (split_workers_dense n k sigma plan Hpd)) as (g & Hg & Hgw & HB & _).
  exists plan, g. split_and!; [done|done|done|]. intros x y Hr inside across. split.
  - split.
    + intros (p & (i & Hi)%list_elem_of_lookup & Hxy & _).
      apply (subnet_redex n k sigma plan Hwf Hpd i p x y Hi) in Hxy as (_ & Sx & Sy). congruence.
    + intros Hs. destruct (proj2 (al_dom n k sigma Hal x) (rx_a _ _ _ Hr)) as [w Hw].
      destruct (lookup_lt_is_Some_2 (partitions plan) (N.to_nat w)) as [p Hp].
      { rewrite (pd_len n k sigma plan Hpd). pose proof (al_range n k sigma Hal x w Hw). lia. }
      assert (Hrp : redex (subnet p) x y).
      { apply (subnet_redex n k sigma plan Hwf Hpd _ p x y Hp). rewrite N2Nat.id. split_and!; [done|done|congruence]. }
      exists p. split; [by eapply list_elem_of_lookup_2|]. split; [done|].
      by eapply subnet_queue_complete.
  - split.
    + intros (bid & st & [Hst _]%elem_of_detect & _ & Hor); [|done].
      destruct (graph_borders n k sigma plan Hwf Hal Hsp Hpd g bid _ _ _ _ st HB Hst eq_refl eq_refl eq_refl eq_refl)
        as (_ & c & Hc & Hw).
      destruct (cut_ends n sigma c c.1 Hwf Hc (or_introl eq_refl)) as (_ & _ & Hd & _).
      destruct c as [[c1 p1] [c2 p2]]. unfold wire_of_cut, slot_port in *. cbn [fst snd] in *.
      destruct Hw as [E|E], Hor as [E'|E']; cbn [fst snd] in E; rewrite E in E'; simplify_eq; congruence.
    + intros Hs. destruct (crossing_cut n sigma x y Hwf Hr Hs) as (j & c & Hc & Hor).
      destruct (sights_cut n k sigma plan Hwf Hal Hpd j c Hc) as (wa & pa & wb & pb & Hsg & Hne & Hw).
      exists (first_border_id n + N.of_nat j), (mkBorder (first_border_id n + N.of_nat j) pa pb wa wb (is_principal_pair pa pb)).
      rewrite elem_of_detect, HB, Hsg by done. cbn [side_a side_b worker_a worker_b].
      destruct Hor as [->| ->], Hw as [[= -> ->]|[= -> ->]]; auto.
Qed.

Lemma split_conserves_redexes_witness :
  ∃ plan g, split example_net 2 = Done plan ∧ Border.from_partition_plan plan = Done g ∧
    (∃ p, p ∈ partitions plan ∧ redex (subnet p) 0 1) ∧
    ∃ bid st, (bid, st) ∈ Border.detect_border_redexes g ∧ worker_a st ≠ worker_b st.
Proof.
  destruct example_hyps as (Hwf & Hq & Hsp). destruct example_allocation as [Ha Hal].
  destruct (split_conserves_redexes example_net 2 config_default example_sigma Hwf Hq)
    as (plan & g & H & Hg & _ & Hr); [vm_compute; discriminate|exact Ha|exact Hal|exact Hsp|reflexivity|].
  exists plan, g. split; [exact H|]. split; [exact Hg|]. split.
  - destruct (Hr 0 1) as [[_ Hin] _]; [apply is_valid_redex_spec; vm_compute; reflexivity|].
    destruct Hin as (p & Hp & Hrd & _); [vm_compute; reflexivity|].
    exists p. split; [exact Hp|exact Hrd].
  - destruct (Hr 2 3) as [_ [_ Hac]]; [apply is_valid_redex_spec; vm_compute; reflexivity|].
    destruct Hac as (bid & st & Hst & Hne & _); [vm_compute; discriminate|].
    exists bid, st. split; [exact Hst|exact Hne].
Defined.

(** ** Splitting and merging *)

(** The root a merged net has: agent ports of live agents survive the split. *)
Definition agent_root (n : Net) : option PortRef :=
  match root n with
  | Some (AgentPort id p) => if decide (is_Some (get_agent n id)) then Some (AgentPort id p) else None
  | _ => None
  end.

Section round_trip.
Context (n : Net) (k : N) (sigma : gmap AgentId WorkerId) (plan : PartitionPlan).
Context (Hwf : wf n) (Hk : 2 ≤ k) (Hal : allocation_ok n k sigma) (Hsp : splittable n k sigma).
Context (Hpd : partitioned n k sigma plan).

Lemma merged_root_eq : merged_root (partitions plan) = agent_root n.
Proof.
  assert (Hr : ∀ i p, partitions plan !! i = Some p → root (subnet p) = propagate_root n sigma (N.of_nat i)).
  { intros i p Hi. exact (po_root _ _ _ _ (pd_parts n k sigma plan Hpd i p Hi)). }
  apply merged_root_spec.
  - intros p x (i & Hi)%list_elem_of_lookup. rewrite (Hr i p Hi). unfold propagate_root, agent_root.
    destruct (root n) as [[id q|]|]; [|done|done]. case_bool_decide as Hs; [|done]. intros [= <-].
    rewrite decide_True; [done|]. apply (al_dom n k sigma Hal). by eexists.
  - intros x Hx. unfold agent_root in Hx. destruct (root n) as [[id q|]|] eqn:Er; try done.
    case_decide as Hl; [|done]. injection Hx as <-.
    destruct (proj2 (al_dom n k sigma Hal id) Hl) as [w Hw].
    destruct (lookup_lt_is_Some_2 (partitions plan) (N.to_nat w)) as [p Hp].
    { rewrite (pd_len n k sigma plan Hpd). pose proof (al_range n k sigma Hal id w Hw). lia. }
    exists p. split; [by eapply list_elem_of_lookup_2|]. rewrite (Hr _ p Hp), N2Nat.id.
    unfold propagate_root. rewrite Er. by rewrite bool_decide_true.
Qed.

Lemma merged_next_id :
  next_id (unite plan) = (next_id n + (k - 1) * chunk_size (next_id n)) `min` (u32_MAX - 1).
Proof.
  change (next_id (unite plan)) with (max_of ((λ p, next_id (subnet p)) <$> partitions plan)).
  destruct (max_of_bounds ((λ p, next_id (subnet p)) <$> partitions plan)) as [H1 H2].
  assert (Hn : ∀ i p, partitions plan !! i = Some p → N.of_nat i < k ∧
    next_id (subnet p) = (next_id n + N.of_nat i * chunk_size (next_id n)) `min` (u32_MAX - 1)).
  { intros i p Hi. pose proof (lookup_lt_Some _ _ _ Hi) as Hlt. rewrite (pd_len n k sigma plan Hpd) in Hlt.
    split; [lia|]. rewrite (po_start _ _ _ _ (pd_parts n k sigma plan Hpd i p Hi)).
    rewrite (pd_ranges n k sigma plan Hpd i p Hi).
    apply id_range_at_eq; [apply (sp_workers n k sigma Hsp)|apply (sp_next n k sigma Hsp)|lia]. }
  apply N.le_antisymm.
  - apply H2, Forall_forall. intros x (p & -> & (i & Hi)%list_elem_of_lookup)%list_elem_of_fmap.
    destruct (Hn i p Hi) as [Hlt ->].
    assert (N.of_nat i * chunk_size (next_id n) ≤ (k - 1) * chunk_size (next_id n)) by (apply N.mul_le_mono_r; lia).
    lia.
  - destruct (lookup_lt_is_Some_2 (partitions plan) (N.to_nat (k - 1))) as [p Hp].
    { rewrite (pd_len n k sigma plan Hpd). lia. }
    destruct (Hn _ p Hp) as [_ E]. rewrite N2Nat.id in E. rewrite <- E. apply H1, list_elem_of_fmap.
    exists p. split; [done|]. by eapply list_elem_of_lookup_2.
Qed.

End round_trip.

(** C29. Splitting a net and merging the plan gives the net back, for a
    well-formed net, two workers or more, a strategy that gives each live agent
    one of them, the sparse subnet builder (the default configuration), and
    within the machine's bounds ([splittable]): at most 2^24 workers, agent ids
    below 2^24, labels in [u32], a free id left, and room in [u32] for the
    border ids of the cut wires.  The merge has the same agents, the same
    target at every port, and the root when it is a live agent's port.  The
    merged queue holds the active pairs that cross two workers, each once, and
    their number is returned; the others are the workers'.  All this whatever
    the order in which the border map is iterated. *)
Theorem split_merge_round_trip `{PartitionStrategy} n k config sigma :
  wf n → 2 ≤ k → allocate n k = Done sigma → allocation_ok n k sigma →
  splittable n k sigma → sparse_build config = true →
  ∃ plan, split_with_config n k config = Done plan ∧ ∀ keys, keys ≡ₚ border_keys plan →
  ∃ m count, merge_along keys plan = (m, count) ∧ wf m ∧
    (∀ id, get_agent m id = get_agent n id) ∧
    (∀ id p, p < 3 → m.[id, p] = n.[id, p]) ∧
    root m = agent_root n ∧
    (∀ x y, (x, y) ∈ redex_queue m ∨ (y, x) ∈ redex_queue m ↔ redex n x y ∧ sigma !! x ≠ sigma !! y) ∧
    NoDup (redex_queue m) ∧ count = N.of_nat (length (redex_queue m)).
Proof.
  intros Hwf Hk Ha Hal Hsp Hcfg.
  destruct (split_spec n k config sigma Hwf Hk Ha Hal Hsp Hcfg) as (plan & Hplan & Hpd).
  exists plan. split; [done|]. intros keys Hkeys.
  destruct (merge_plugs n k sigma plan keys Hwf Hal Hsp Hpd Hkeys ltac:(lia)) as (m & Hpl & Hag & Hm).
  eexists _, _. split; [exact Hm|].
  pose proof (pl_queue _ _ _ Hpl) as Hq. split_and!; cbn [redex_queue root with_free_list].
  - by apply merged_free_list_wf, (pl_wf _ _ _ Hpl).
  - exact Hag.
  - intros id p Hp. change (m.[id, p] = n.[id, p]). by eapply merged_target.
  - destruct (pl_frame _ _ _ Hpl) as [-> _]. by eapply merged_root_eq.
  - intros x y. by eapply merged_queue.
  - rewrite Hq. apply wire_redexes_nodup. by eapply border_wires_ends.
  - done.
Qed.

Lemma split_merge_round_trip_witness :
  ∃ plan m, split example_net 2 = Done plan ∧ merge plan = (m, N.of_nat (length (redex_queue m))) ∧ wf m ∧
    m.[2, 1] = AgentPort 4 0 ∧ root m = Some (AgentPort 4 0) ∧
    ((2, 3) ∈ redex_queue m ∨ (3, 2) ∈ redex_queue m).
Proof.
  destruct example_hyps as (Hwf & _ & Hsp). destruct example_allocation as [Ha Hal].
  destruct (split_merge_round_trip example_net 2 config_default example_sigma Hwf)
    as (plan & H & Hmerge);
    [vm_compute; discriminate|exact Ha|exact Hal|exact Hsp|reflexivity|].
  destruct (Hmerge _ (reflexivity _)) as (m & c & Hm & W & _ & T & R & Q & _ & ->).
  exists plan, m. split_and!; [exact H|exact Hm|exact W|rewrite T by lia; vm_compute; reflexivity| |].
  - rewrite R. vm_compute. reflexivity.
  - apply Q. split; [apply is_valid_redex_spec; vm_compute; reflexivity|vm_compute; discriminate].
Defined.

(** One split and merge raises [next_id] to the start of the last worker's
    range even when no worker creates an agent: at least eleven times its value,
    plus one hundred thousand, until it sticks one below [u32::MAX]. *)
Theorem split_merge_consumes_ids `{PartitionStrategy} n k config sigma :
  wf n → 2 ≤ k → allocate n k = Done sigma → allocation_ok n k sigma →
  splittable n k sigma → sparse_build config = true →
  ∃ plan, split_with_config n k config = Done plan ∧
    next_id (merge plan).1 = (next_id n + (k - 1) * chunk_size (next_id n)) `min` (u32_MAX - 1) ∧
    (11 * next_id n) `max` 100000 `min` (u32_MAX - 1) ≤ next_id (merge plan).1.
Proof.
  intros Hwf Hk Ha Hal Hsp Hcfg.
  destruct (split_spec n k config sigma Hwf Hk Ha Hal Hsp Hcfg) as (plan & Hplan & Hpd).
  destruct (merge_plugs n k sigma plan _ Hwf Hal Hsp Hpd (reflexivity _) ltac:(lia)) as (m & Hpl & Hag & Hm).
  exists plan. split; [done|]. unfold merge. rewrite Hm. cbn [fst next_id with_free_list].
  rewrite (pl_next _ _ _ Hpl). rewrite (merged_next_id n k sigma plan Hk Hsp Hpd). split; [done|].
  assert (1 * chunk_size (next_id n) ≤ (k - 1) * chunk_size (next_id n)) by (apply N.mul_le_mono_r; lia).
  unfold chunk_size in *. lia.
Qed.

Lemma split_merge_consumes_ids_witness :
  ∃ plan, split example_net 2 = Done plan ∧ next_id example_net = 6 ∧ next_id (merge plan).1 = 100006.
Proof.
  destruct example_hyps as (Hwf & _ & Hsp). destruct example_allocation as [Ha Hal].
  destruct (split_merge_consumes_ids example_net 2 config_default example_sigma Hwf)
    as (plan & H & Hn & _); [vm_compute; discriminate|exact Ha|exact Hal|exact Hsp|reflexivity|].
  exists plan. split; [exact H|]. split; [vm_compute; reflexivity|]. rewrite Hn. vm_compute. reflexivity.
Defined.
