(* ===== verification/RemapSpec.v ===== *)
(** Renumbering a partition is an order-preserving isomorphism onto the first
    ids of the new range. *)
From S2P Require Import Prelude NetTypes NetCore NetInv Reduction ReductionInv NetDebug.
From S2P Require Import Partition Split SplitInv SplitSpec Remap.
Local Open Scope N_scope.
Open Scope net_scope.

(** ** The map *)

Section map.
Context (n : Net) (start : AgentId).
Context (Hwf : wf n) (Hmax : start + N.of_nat (count_live_agents n) ≤ u32_MAX).

Abbreviation m := (Remap.id_map n start).

Lemma live_ids_nodup : NoDup (Remap.live_ids n).
Proof. change (NoDup (sorted_ids n)). rewrite sorted_ids_perm. by apply arena_ids_nodup. Qed.

Lemma live_ids_length : length (Remap.live_ids n) = count_live_agents n.
Proof. change (length (sorted_ids n) = count_live_agents n). by rewrite sorted_ids_perm, length_arena_ids. Qed.

Lemma id_map_lookup x y : m !! x = Some y ↔
  ∃ i, Remap.live_ids n !! i = Some x ∧ y = start + N.of_nat i.
Proof.
  unfold Remap.id_map. rewrite (foldl_insert_lookup fst snd).
  - assert (Hv : ∀ i z, Remap.live_ids n !! i = Some z → as_u32 (start + as_u32 (N.of_nat i)) = start + N.of_nat i).
    { intros i z Hi%lookup_lt_Some. rewrite live_ids_length in Hi.
      rewrite (as_u32_small (N.of_nat i)), as_u32_small by lia. done. }
    split.
    + intros (e & (i & Hi)%list_elem_of_lookup & <- & <-). rewrite list_lookup_imap in Hi.
      destruct (Remap.live_ids n !! i) as [z|] eqn:Ez; [|done]. cbn in Hi. injection Hi as <-.
      exists i. cbn [fst snd]. by rewrite (Hv i z).
    + intros (i & Hi & ->). exists (x, start + N.of_nat i). split; [|done].
      apply list_elem_of_lookup. exists i. rewrite list_lookup_imap, Hi. cbn. by rewrite (Hv i x).
  - intros a b (i & Hi)%list_elem_of_lookup (j & Hj)%list_elem_of_lookup E.
    rewrite list_lookup_imap in Hi, Hj.
    destruct (Remap.live_ids n !! i) eqn:Ei; [|done]. destruct (Remap.live_ids n !! j) eqn:Ej; [|done].
    cbn in Hi, Hj. injection Hi as <-. injection Hj as <-. cbn [fst snd] in *. subst.
    by rewrite (NoDup_lookup _ _ _ _ live_ids_nodup Ei Ej).
Qed.

Lemma id_map_dom x : is_Some (m !! x) ↔ live n x.
Proof.
  assert (Hin : live n x ↔ ∃ i, Remap.live_ids n !! i = Some x).
  { change (Remap.live_ids n) with (sorted_ids n). by rewrite <- list_elem_of_lookup, sorted_ids_perm, elem_of_arena_ids. }
  rewrite Hin. split.
  - intros [y (i & Hi & _)%id_map_lookup]. by exists i.
  - intros [i Hi]. exists (start + N.of_nat i). apply id_map_lookup. by exists i.
Qed.

Lemma id_map_mono x x' y y' : m !! x = Some y → m !! x' = Some y' → x < x' ↔ y < y'.
Proof.
  intros (i & Hi & ->)%id_map_lookup (j & Hj & ->)%id_map_lookup.
  pose proof (StronglySorted_merge_sort N.le (arena_ids n)) as Hs. change (merge_sort _ _) with (Remap.live_ids n) in Hs.
  destruct (lt_eq_lt_dec i j) as [[Hij|Hij]|Hij].
  - pose proof (strongly_sorted_lookup _ _ _ _ _ Hs Hi Hj ltac:(lia)).
    assert (x ≠ x') by (intros ->; pose proof (NoDup_lookup _ _ _ _ live_ids_nodup Hi Hj); lia). lia.
  - subst. rewrite Hi in Hj. injection Hj as ->. lia.
  - pose proof (strongly_sorted_lookup _ _ _ _ _ Hs Hj Hi ltac:(lia)). lia.
Qed.

Lemma id_map_inj x x' y : m !! x = Some y → m !! x' = Some y → x = x'.
Proof.
  intros H H'. pose proof (id_map_mono x x' y y H H'). pose proof (id_map_mono x' x y y H' H). lia.
Qed.

(** The new ids: the first ones of the range. *)
Lemma id_map_range y : (∃ x, m !! x = Some y) ↔ start ≤ y < start + N.of_nat (count_live_agents n).
Proof.
  rewrite <- live_ids_length. split.
  - intros [x (i & Hi%lookup_lt_Some & ->)%id_map_lookup]. lia.
  - intros Hy. destruct (lookup_lt_is_Some_2 (Remap.live_ids n) (N.to_nat (y - start))) as [x Hx]; [lia|].
    exists x. apply id_map_lookup. eexists. split; [exact Hx|]. lia.
Qed.

(** ** The arrays *)

Definition pairs : list (AgentId * AgentId) := map_to_list m.

Lemma elem_of_pairs x y : (x, y) ∈ pairs ↔ m !! x = Some y.
Proof. apply elem_of_map_to_list. Qed.

(** The value written in the cell [port] of the pair [e]. *)
Definition cell_value (x : AgentId * AgentId * PortId) : PortRef :=
  Remap.map_target m n.[x.1.1, x.2].

Lemma copy_cells_pure acc e : e ∈ pairs →
  Remap.copy_agent n m acc e =
  Done (<[N.to_nat e.2 := (λ a, mkAgent (symbol a) e.2) <$> get_agent n e.1]> acc.1,
        foldl (λ ps p, <[port_cell e.2 p := cell_value (e, p)]> ps) acc.2 (range_u PORTS_PER_SLOT)).
Proof.
  destruct e as [x y]. intros Hxy%elem_of_pairs. unfold Remap.copy_agent. cbn [fst snd].
  destruct (proj1 (id_map_dom x)) as [a Ha]; [by eexists|].
  change (mjoin (agents n !! N.to_nat x)) with (get_agent n x). rewrite Ha. cbn [unwrap mbind outcome_bind].
  f_equal. f_equal. apply foldl_ext_in. intros ps p _. unfold Remap.copy_cell, cell_value. cbn [fst snd].
  by rewrite get_target_cell.
Qed.

Lemma remap_arrays len : start + N.of_nat (count_live_agents n) ≤ N.of_nat len → ∃ ags ps,
  fold_outcome (Remap.copy_agent n m) (replicate len None, replicate (len * 3) DISCONNECTED) pairs = Done (ags, ps) ∧
  length ags = len ∧ length ps = (len * 3)%nat ∧
  (∀ x y, m !! x = Some y → ags !! N.to_nat y = Some ((λ a, mkAgent (symbol a) y) <$> get_agent n x)) ∧
  (∀ y, (∀ x, m !! x ≠ Some y) → mjoin (ags !! N.to_nat y) = None) ∧
  (∀ x y p, p < 3 → m !! x = Some y → ps !! port_cell y p = Some (Remap.map_target m n.[x, p])) ∧
  (∀ y p t, p < 3 → (∀ x, m !! x ≠ Some y) → ps !! port_cell y p = Some t → t = DISCONNECTED).
Proof.
  intros Hlen.
  rewrite (fold_outcome_pure _ (λ acc e,
    (<[N.to_nat e.2 := (λ a, mkAgent (symbol a) e.2) <$> get_agent n e.1]> acc.1,
     foldl (λ ps p, <[port_cell e.2 p := cell_value (e, p)]> ps) acc.2 (range_u PORTS_PER_SLOT))))
    by (intros; by apply copy_cells_pure).
  rewrite (foldl_pair (λ ags e, <[N.to_nat e.2 := (λ a, mkAgent (symbol a) e.2) <$> get_agent n e.1]> ags)
    (λ ps e, foldl (λ ps p, <[port_cell e.2 p := cell_value (e, p)]> ps) ps (range_u PORTS_PER_SLOT))).
  rewrite (foldl_nested (λ ps e p, <[port_cell e.2 p := cell_value (e, p)]> ps)).
  set (cells := pairs ≫= _). set (slot_of := λ e : AgentId * AgentId, N.to_nat e.2).
  set (cell_of := λ x : AgentId * AgentId * PortId, port_cell x.1.2 x.2).
  assert (Hcells : ∀ x y p, (x, y, p) ∈ cells ↔ m !! x = Some y ∧ p < 3).
  { intros x y p. unfold cells. rewrite list_elem_of_bind. split.
    - intros ([x' y'] & (q & [= -> -> ->] & Hq%elem_of_range_u)%list_elem_of_fmap & He%elem_of_pairs). done.
    - intros [Hm Hp]. exists (x, y). split; [|by apply elem_of_pairs]. apply list_elem_of_fmap. exists p.
      split; [done|]. by apply elem_of_range_u. }
  assert (Hy : ∀ x y, m !! x = Some y → y < N.of_nat len).
  { intros x y Hm. destruct (proj1 (id_map_range y)); [by exists x|]. lia. }
  assert (Hcv : ∀ x y, cell_value (x, y) = cell_value (x.1, x.2, y)) by (by intros [? ?]).
  eexists _, _. split; [reflexivity|]. split_and!.
  - by rewrite (foldl_list_insert_length slot_of), length_replicate.
  - rewrite (foldl_list_insert_length cell_of (λ x, cell_value (x.1, x.2))). apply length_replicate.
  - intros x y Hm. apply (foldl_list_insert_in slot_of (λ e, (λ a, mkAgent (symbol a) e.2) <$> get_agent n e.1) _ _ (x, y)).
    + intros [a b] [a' b'] H1%elem_of_pairs H2%elem_of_pairs E. unfold slot_of in E. cbn [fst snd] in *.
      assert (b = b') as -> by lia. by rewrite (id_map_inj _ _ _ H1 H2).
    + by apply elem_of_pairs.
    + unfold slot_of. rewrite length_replicate. specialize (Hy x y Hm). cbn [snd]. lia.
  - intros y Hm. rewrite (foldl_list_insert_out slot_of).
    + destruct (replicate len None !! N.to_nat y) as [z|] eqn:E; [|done]. by apply lookup_replicate in E as [-> _].
    + intros [a b] H1%elem_of_pairs E. unfold slot_of in E. cbn [snd] in E. apply (Hm a). by replace y with b by lia.
  - intros x y p Hp Hm. apply (foldl_list_insert_in cell_of (λ x, cell_value (x.1, x.2)) _ _ (x, y, p)).
    + intros [[a b] q] [[a' b'] q'] [H1 Hq]%Hcells [H2 Hq']%Hcells E. unfold cell_of in E. cbn [fst snd] in *.
      apply (port_cell_inj (b, q) (b', q') Hq Hq') in E as [= -> ->]. by rewrite (id_map_inj _ _ _ H1 H2).
    + by apply Hcells.
    + unfold cell_of, port_cell. cbn [fst snd]. rewrite length_replicate. specialize (Hy x y Hm). lia.
  - intros y p t Hp Hm. rewrite (foldl_list_insert_out cell_of).
    + by intros [-> _]%lookup_replicate.
    + intros [[a b] q] [H1 Hq]%Hcells E. unfold cell_of in E. cbn [fst snd] in E.
      apply (port_cell_inj (b, q) (y, p) Hq Hp) in E as [= -> ->]. by apply (Hm a).
Qed.

End map.

(** ** The renumbered net *)

(** [n'] is [n] with its live agents renumbered by [m]. *)
Record renumbered (n : Net) (m : gmap AgentId AgentId) (n' : Net) : Prop := {
  rn_live : ∀ y, live n' y ↔ ∃ x, m !! x = Some y;
  rn_agent : ∀ x y, m !! x = Some y → get_agent n' y = (λ a, mkAgent (symbol a) y) <$> get_agent n x;
  rn_target : ∀ x y q, q < 3 → m !! x = Some y → n'.[y, q] = Remap.map_target m n.[x, q];
  rn_dead : ∀ y q, q < 3 → (∀ x, m !! x ≠ Some y) → n'.[y, q] = DISCONNECTED;
}.

Section renumbered.
Context (n : Net) (m : gmap AgentId AgentId) (n' : Net).
Context (Hwf : wf n) (Hdom : ∀ x, is_Some (m !! x) ↔ live n x).
Context (Hinj : ∀ x x' y, m !! x = Some y → m !! x' = Some y → x = x').
Context (Hrn : renumbered n m n').

Lemma rn_valid x y q : m !! x = Some y → valid_port n x q ↔ valid_port n' y q.
Proof.
  intros Hm. unfold valid_port. rewrite (rn_agent _ _ _ Hrn x y Hm). split.
  - intros (a & -> & Hq). by exists (mkAgent (symbol a) y).
  - intros (b & Hb & Hq). destruct (get_agent n x) as [a|]; [|done]. injection Hb as <-. by exists a.
Qed.

(** Wires correspond. *)
Lemma rn_wire x y q b s : q < 3 → m !! x = Some y → n'.[y, q] = AgentPort b s ↔
  ∃ x', m !! x' = Some b ∧ n.[x, q] = AgentPort x' s.
Proof.
  intros Hq Hm. rewrite (rn_target _ _ _ Hrn x y q Hq Hm). split.
  - intros Ht. destruct (n.[x, q]) as [o s'|f] eqn:E; [|done]. cbn in Ht.
    destruct (wf_sym n Hwf x q o s' Hq E) as (Hv & _).
    destruct (proj2 (Hdom o) (valid_port_live _ _ _ Hv)) as [z Hz]. rewrite Hz in Ht.
    injection Ht as <- <-. by exists o.
  - intros (x' & Hx' & ->). cbn. by rewrite Hx'.
Qed.

Lemma rn_preimage y q : q < 3 → n'.[y, q] ≠ DISCONNECTED → ∃ x, m !! x = Some y.
Proof.
  intros Hq Hne. destruct (decide (is_Some (get_agent n' y))) as [Hl|Hl]; [by apply (rn_live _ _ _ Hrn)|].
  exfalso. apply Hne, (rn_dead _ _ _ Hrn); [done|]. intros x Hx. apply Hl, (rn_live _ _ _ Hrn). by exists x.
Qed.

Lemma renumbered_wf : length (ports n') = (length (agents n') * 3)%nat →
  N.of_nat (length (agents n')) ≤ next_id n' → next_id n' ≤ u32_MAX → free_list n' = [] → wf n'.
Proof.
  intros H1 H2 H3 H4. split; try done.
  - intros y b Hb. destruct (proj1 (rn_live _ _ _ Hrn y)) as [x Hx]; [by exists b|].
    rewrite (rn_agent _ _ _ Hrn x y Hx) in Hb. destruct (get_agent n x); [|done]. by injection Hb as <-.
  - intros y q Hq Hne. destruct (rn_preimage y q Hq Hne) as [x Hx]. apply (rn_valid x y q Hx).
    apply (wf_src n Hwf); [done|]. rewrite (rn_target _ _ _ Hrn x y q Hq Hx) in Hne.
    intros E. by rewrite E in Hne.
  - intros y q b s Hq Ht. destruct (rn_preimage y q Hq) as [x Hx]; [by rewrite Ht|].
    destruct (proj1 (rn_wire x y q b s Hq Hx) Ht) as (x' & Hx' & Hxt).
    destruct (wf_sym n Hwf x q x' s Hq Hxt) as (Hv & Hback & Hne). split_and!.
    + by apply (rn_valid x' b s Hx').
    + apply (rn_wire x' b s y q (valid_port_lt3 _ _ _ Hv) Hx'). by exists x.
    + intros [= -> ->]. by rewrite (Hinj _ _ _ Hx' Hx) in Hne.
  - rewrite H4. constructor.
  - rewrite H4. intros y Hy. by apply elem_of_nil in Hy.
Qed.

Lemma rn_redex x x' y y' : m !! x = Some y → m !! x' = Some y' → redex n x x' ↔ redex n' y y'.
Proof.
  intros Hx Hx'. assert (Hl : ∀ a b, m !! a = Some b → live n' b) by (intros a b Hab; apply (rn_live _ _ _ Hrn); by exists a).
  assert (Hl' : ∀ a b, m !! a = Some b → live n a) by (intros a b Hab; apply Hdom; by exists b).
  split.
  - intros [_ _ Ht]. split; [by eapply Hl|by eapply Hl|]. apply (rn_wire x y 0 y' 0 ltac:(lia) Hx). by exists x'.
  - intros [_ _ Ht]. split; [by eapply Hl'|by eapply Hl'|].
    destruct (proj1 (rn_wire x y 0 y' 0 ltac:(lia) Hx) Ht) as (z & Hz & Hzt). by rewrite (Hinj _ _ _ Hx' Hz).
Qed.

(** A complete queue stays complete. *)
Lemma rn_queue : redex_queue n' = omap (Remap.map_pair m) (redex_queue n) → queue_complete n → queue_complete n'.
Proof.
  intros Hq Hc y y' Hr. pose proof Hr as [Ly Ly' _].
  destruct (proj1 (rn_live _ _ _ Hrn y) Ly) as [x Hx]. destruct (proj1 (rn_live _ _ _ Hrn y') Ly') as [x' Hx'].
  assert (Hin : ∀ a b c d, m !! a = Some c → m !! b = Some d → (a, b) ∈ redex_queue n → (c, d) ∈ redex_queue n').
  { intros a b c d Ha Hb Hab. rewrite Hq. apply list_elem_of_omap. exists (a, b). split; [done|].
    unfold Remap.map_pair. cbn [fst snd]. by rewrite Ha, Hb. }
  apply (rn_redex x x' y y' Hx Hx') in Hr. destruct (Hc x x' Hr); [left|right]; by eapply Hin.
Qed.

End renumbered.

(** ** The operation *)

Lemma agent_count_wf p : wf (subnet p) →
  agent_count p = N.of_nat (count_live_agents (subnet p)) ∧ N.of_nat (count_live_agents (subnet p)) ≤ u32_MAX.
Proof.
  intros Hwf. pose proof (wf_arena _ Hwf). pose proof (wf_u32 _ Hwf).
  assert (count_live_agents (subnet p) ≤ length (agents (subnet p)))%nat by apply length_filter.
  split; [apply N.mod_small; unfold u32_MAX in *; lia|lia].
Qed.

Lemma empty_at_wf start : start ≤ u32_MAX → wf (with_next_id start NetCore.new).
Proof.
  intros Hs. assert (Hn : wf NetCore.new) by (apply wf_b_sound; vm_compute; reflexivity).
  destruct Hn as [H1 _ _ H4 H5 H6 H7 _]. split; try done; [cbn; lia|]. intros id Hid. by apply elem_of_nil in Hid.
Qed.

(** C35. Remapping a partition with a well-formed net.  The error is returned
    exactly when the range is too small for the live agents.  Without live
    agents the result is the empty net at the start of the range, with an empty
    border index.  Otherwise the live agents become, in the order of their ids,
    the first ids of the range; every wire, label and symbol follows and the
    new net is well formed; the new queue holds, in order, the old pairs of live
    agents renumbered (so a complete queue stays complete); the root and each
    entry of the border index that names a live agent's port follow it, those
    that name a dead agent are dropped and those that are labels kept; the
    worker and its border range stay.  What does not follow: the net's table of
    redirected borders is emptied. *)
Theorem remap_partition_ids_sound p r : wf (subnet p) → range_start r ≤ range_end r ≤ u32_MAX →
  let n := subnet p in
  let k := N.of_nat (count_live_agents n) in
  let m := Remap.id_map n (range_start r) in
  (range_len r < k ↔ Remap.remap_partition_ids p r = Done (inr (NewRangeTooSmall k (range_len r)))) ∧
  (k ≤ range_len r → ∃ p', Remap.remap_partition_ids p r = Done (inl p') ∧
    let n' := subnet p' in
    worker_id p' = worker_id p ∧ border_id_start p' = border_id_start p ∧ border_id_end p' = border_id_end p ∧
    p_id_range p' = r ∧ next_id n' = range_start r + k ∧ wf n' ∧ freeport_redirects n' = ∅ ∧
    if k =? 0 then live_agents n' = [] ∧ redex_queue n' = [] ∧ root n' = None ∧ free_port_index p' = ∅
    else
      renumbered n m n' ∧
      (∀ x, is_Some (m !! x) ↔ live n x) ∧
      (∀ y, (∃ x, m !! x = Some y) ↔ range_start r ≤ y < range_start r + k) ∧
      (∀ x x' y y', m !! x = Some y → m !! x' = Some y' → x < x' ↔ y < y') ∧
      redex_queue n' = omap (Remap.map_pair m) (redex_queue n) ∧ (queue_complete n → queue_complete n') ∧
      root n' = root n ≫= Remap.map_port m ∧
      (∀ bid, free_port_index p' !! bid = free_port_index p !! bid ≫= Remap.map_port m)).
Proof.
  intros Hwf Hr n k m. destruct (agent_count_wf p Hwf) as [Hc _]. unfold Remap.remap_partition_ids.
  rewrite Hc. fold n k m. split.
  { split; [intros Hlt; by rewrite (proj2 (N.ltb_lt _ _))|]. destruct (N.ltb_spec (range_len r) k) as [|_]; [done|].
    destruct (k =? 0); [done|]. destruct (fold_outcome _ _ _) as [[ags ps]|]; done. }
  intros Hle. rewrite (proj2 (N.ltb_ge _ _)) by done. destruct (N.eqb_spec k 0) as [Hk0|Hk0].
  - eexists. split; [reflexivity|]. cbn [subnet worker_id border_id_start border_id_end p_id_range free_port_index].
    split_and!; try done; [rewrite Hk0; cbn; lia|]. apply empty_at_wf. lia.
  - assert (Hk : 0 < k) by lia.
    assert (Hmax : range_start r + N.of_nat (count_live_agents n) ≤ u32_MAX) by (unfold range_len in Hle; fold k; lia).
    destruct (remap_arrays n (range_start r) Hwf Hmax (N.to_nat (range_start r + k - 1 + 1)))
      as (ags & ps & E & L1 & L2 & A & D & T & F); [lia|].
    unfold pairs in E. fold m in E. rewrite E. cbn [mbind outcome_bind]. eexists. split; [reflexivity|]. cbn [subnet].
    set (n' := mkNet _ _ _ _ _ _ _ _ _ _ _ _ _).
    assert (Hrn : renumbered n m n').
    { split.
      - intros y. split.
        + intros [b Hb]. destruct (decide (range_start r ≤ y < range_start r + k)) as [Hy|Hy].
          * by apply (id_map_range n (range_start r) Hwf Hmax).
          * change (mjoin (ags !! N.to_nat y) = Some b) in Hb. rewrite D in Hb; [done|].
            intros x Hx. apply Hy, (id_map_range n (range_start r) Hwf Hmax). by exists x.
        + intros [x Hx]. destruct (proj1 (id_map_dom n (range_start r) Hwf Hmax x)) as [a Ha]; [by exists y|].
          exists (mkAgent (symbol a) y). change (mjoin (ags !! N.to_nat y) = Some (mkAgent (symbol a) y)).
          rewrite (A x y Hx), Ha. done.
      - intros x y Hx. change (mjoin (ags !! N.to_nat y) = (λ a, mkAgent (symbol a) y) <$> get_agent n x).
        by rewrite (A x y Hx).
      - intros x y q Hq Hx. rewrite get_target_cell. change (ports n') with ps. by rewrite (T x y q Hq Hx).
      - intros y q Hq Hx. rewrite get_target_cell. change (ports n') with ps.
        destruct (ps !! port_cell y q) as [t|] eqn:Et; [|done]. by apply (F y q t). }
    assert (Hinj := id_map_inj n (range_start r) Hwf Hmax). fold m in Hinj.
    assert (Hdom := id_map_dom n (range_start r) Hwf Hmax). fold m in Hdom.
    split_and!; try done.
    + apply (renumbered_wf n m n' Hwf Hdom Hinj Hrn); [by cbn; rewrite L1, L2| | |done]; cbn; rewrite ?L1; lia.
    + exact (id_map_range n (range_start r) Hwf Hmax).
    + apply (id_map_mono n (range_start r) Hwf Hmax).
    + by apply (rn_queue n m n' Hwf Hdom Hinj Hrn).
    + intros bid. cbn [free_port_index]. apply lookup_omap.
Qed.

Definition example_partition : Partition :=
  mkPartition example_net 3 {[7 := AgentPort 5 0; 9 := FreePort 7]} (mkIdRange 0 50) 7 10.

Lemma remap_partition_ids_sound_witness :
  Remap.remap_partition_ids example_partition (mkIdRange 100 105) = Done (inr (NewRangeTooSmall 6 5)) ∧
  ∃ p', Remap.remap_partition_ids example_partition (mkIdRange 100 200) = Done (inl p') ∧ wf (subnet p') ∧
    free_port_index p' !! 7 = Some (AgentPort 105 0) ∧ next_id (subnet p') = 106.
Proof.
  assert (Hwf : wf (subnet example_partition)) by apply example_hyps.
  split.
  - destruct (remap_partition_ids_sound example_partition (mkIdRange 100 105) Hwf) as [H _];
      [vm_compute; split; discriminate|]. apply H. vm_compute. reflexivity.
  - destruct (remap_partition_ids_sound example_partition (mkIdRange 100 200) Hwf) as [_ H];
      [vm_compute; split; discriminate|].
    assert (E : (N.of_nat (count_live_agents (subnet example_partition)) =? 0) = false) by (vm_compute; reflexivity).
    cbv zeta in H. rewrite E in H.
    destruct H as (p' & H & _ & _ & _ & _ & N & W & _ & _ & _ & _ & _ & _ & _ & _ & I); [vm_compute; discriminate|].
    exists p'. split; [exact H|]. split; [exact W|]. rewrite I, N. split; vm_compute; reflexivity.
Defined.
