(* ===== verification/Coordinator.v ===== *)
(** The coordinator's two state machines (coordinator.rs): the push-mode BSP
    machine [transition] and the pull-mode machine of
    [CoordinatorPullContext], with the dispatch-mode resolution. *)
From S2P Require Import Prelude NetTypes NetCore Partition.
Local Open Scope N_scope.

(** ** Strings

    A [String] is its sequence of Unicode scalar values; lengths and
    truncation count UTF-8 bytes. *)
Definition utf8_len (c : N) : N :=
  if c <? 128 then 1 else if c <? 2048 then 2 else if c <? 65536 then 3 else 4.

Fixpoint str_len (s : list N) : N :=
  match s with [] => 0 | c :: s => utf8_len c + str_len s end.

(** [String::truncate]: panics when the new length falls inside a character. *)
Fixpoint str_truncate (n : N) (s : list N) : outcome (list N) :=
  match s with
  | [] => Done []
  | c :: s =>
      if n =? 0 then Done []
      else if n <? utf8_len c then Panic
      else s ← str_truncate (n - utf8_len c) s; mret (c :: s)
  end.

Definition MAX_PANIC_PAYLOAD_BYTES : N := 4096.

(** [" [truncated]"]. *)
Definition truncation_marker : list N := [32; 91; 116; 114; 117; 110; 99; 97; 116; 101; 100; 93].

(** The string the [self_partition_panic] constructor stores. *)
Definition self_partition_panic_payload (msg : list N) : outcome (list N) :=
  if MAX_PANIC_PAYLOAD_BYTES <? str_len msg
  then s ← str_truncate MAX_PANIC_PAYLOAD_BYTES msg; mret (s ++ truncation_marker)
  else Done msg.

(** ** Shared enums *)

(** protocol/timers.rs *)
Inductive TimerKind : Type := InitialWait | JoinWindowMin | JoinWindowMax | Collect.

Definition timer_id (k : TimerKind) : N :=
  match k with InitialWait => 0 | JoinWindowMin => 1 | JoinWindowMax => 2 | Collect => 3 end.

Inductive RetainedSlot : Type := InitialSlot | LastAckedSlot.

Inductive DepartureKind : Type := Timeout_ | ConnLost | LeaveAfter | LeaveUrgent.

Inductive CoordinatorState : Type :=
| Init | WaitingForWorkers | Partitioning | Dispatching | WaitingForResults | Merging
| CheckTermination | Done_ | Error
| AcceptingMembershipChanges | SoloReducing
| PullDispatchingFirst | PullAwaitingResults | PullGeneratingNext | PullSendingNoMoreWork
| PullAwaitingFinalResults.

#[export] Instance CoordinatorState_eq_dec : EqDecision CoordinatorState.
Proof. solve_decision. Defined.

(** The one protocol message the machine builds. *)
Inductive Message : Type := AssignPartition (round : N) (partition : Partition).

Section machine.

(** Payload types the machine only passes on: socket addresses and the
    self-partition's round statistics. *)
Context {SocketAddr WorkerRoundStats : Type}.

Inductive CoordinatorEvent : Type :=
| ConfigLoaded
| WorkerConnected (id : WorkerId)
| SplitComplete (ps : list Partition)
| AllDispatched
| PartitionReturned (worker_id : WorkerId) (partition : Partition)
| PhaseTimeout (id : WorkerId)
| MergeComplete (net : Net) (is_normal_form : bool)
| FatalError (msg : list N)
| WorkerJoined (id : WorkerId)
| WorkerLeft (id : WorkerId) (kind : LeaveKind)
| WorkerConnectionLost (id : WorkerId)
| MembershipWindowClosed
| SelfPartitionReduced (stats : WorkerRoundStats)
| SelfPartitionPanic (msg : list N)
| InitialWaitTimeout
| SoloReductionComplete
| SoloReduceBatchComplete.

Inductive CoordinatorAction : Type :=
| BindListener (addr : SocketAddr)
| SendMessage (id : WorkerId) (m : Message)
| InvokeSplit (net : Net) (num_workers : N)
| InvokeMergeAndReduce (ps : list Partition)
| StartTimer (id : N) (secs : N)
| CancelTimer (id : N)
| LogTransition (from to : CoordinatorState)
| WriteOutput (net : Net)
| ShutdownAll
| RegisterWorker (id : WorkerId)
| RemoveWorker (id : WorkerId)
| QueueWorkerForNextWindow (id : WorkerId)
| ReclaimPartition (id : WorkerId) (slot : RetainedSlot)
| LogJoin (id : WorkerId)
| LogDeparture (id : WorkerId) (kind : DepartureKind)
| InvokeSplitAndDispatch (k_eff : N)
| SpawnSelfPartition (p : Partition)
| PollPendingConnections.

Record CoordinatorContext : Type := mkCtx {
  state : CoordinatorState;
  min_workers : N;
  connected_workers : N;
  bind_addr : SocketAddr;
  partitions_received : N;
  total_workers : N;
  collected_partitions : list Partition;
  round : N;
  ctx_net : option Net;
  next_worker_id : N;
}.

Definition ctx_new (bind : SocketAddr) (min_workers : N) (hybrid_mode : bool) : CoordinatorContext :=
  mkCtx Init min_workers 0 bind 0 min_workers [] 0 None (if hybrid_mode then 1 else 0).

Definition set_state (s : CoordinatorState) (c : CoordinatorContext) : CoordinatorContext :=
  mkCtx s (min_workers c) (connected_workers c) (bind_addr c) (partitions_received c)
    (total_workers c) (collected_partitions c) (round c) (ctx_net c) (next_worker_id c).

(** The four states of an active round. *)
Definition active_round (s : CoordinatorState) : bool :=
  match s with Partitioning | Dispatching | WaitingForResults | Merging => true | _ => false end.

(** [i as WorkerId] for the [i]-th partition. *)
Definition assign_messages (round : N) (ps : list Partition) : list CoordinatorAction :=
  imap (λ i p, SendMessage (N.of_nat i mod 4294967296) (AssignPartition round p)) ps.

Definition on_worker_connected (c : CoordinatorContext) : CoordinatorContext * list CoordinatorAction :=
  let from := state c in
  let connected := u32_succ (connected_workers c) in
  if min_workers c <=? connected then
    (mkCtx Partitioning (min_workers c) connected (bind_addr c) (partitions_received c) connected
       (collected_partitions c) (round c) None (next_worker_id c),
     (match ctx_net c with Some net => [InvokeSplit net connected] | None => [] end) ++
     [LogTransition from Partitioning])
  else
    (mkCtx from (min_workers c) connected (bind_addr c) (partitions_received c) (total_workers c)
       (collected_partitions c) (round c) (ctx_net c) (next_worker_id c),
     [LogTransition from from]).

Definition on_all_dispatched (c : CoordinatorContext) : CoordinatorContext * list CoordinatorAction :=
  (mkCtx WaitingForResults (min_workers c) (connected_workers c) (bind_addr c) 0 (total_workers c)
     [] (round c) (ctx_net c) (next_worker_id c),
   [StartTimer (timer_id Collect) 600; LogTransition (state c) WaitingForResults]).

Definition on_partition_returned (c : CoordinatorContext) (p : Partition)
    : CoordinatorContext * list CoordinatorAction :=
  let received := u32_succ (partitions_received c) in
  let collected := collected_partitions c ++ [p] in
  if total_workers c <=? received then
    (mkCtx Merging (min_workers c) (connected_workers c) (bind_addr c) received (total_workers c)
       [] (round c) (ctx_net c) (next_worker_id c),
     [CancelTimer (timer_id Collect); InvokeMergeAndReduce collected;
      LogTransition (state c) Merging])
  else
    (mkCtx (state c) (min_workers c) (connected_workers c) (bind_addr c) received (total_workers c)
       collected (round c) (ctx_net c) (next_worker_id c), []).

Definition on_merge_complete (c : CoordinatorContext) (net : Net) (is_normal_form : bool)
    : CoordinatorContext * list CoordinatorAction :=
  if is_normal_form then
    (set_state Done_ c,
     [LogTransition (state c) CheckTermination; WriteOutput net; ShutdownAll;
      LogTransition CheckTermination Done_])
  else
    (mkCtx Partitioning (min_workers c) (connected_workers c) (bind_addr c) (partitions_received c)
       (total_workers c) (collected_partitions c) (u32_succ (round c)) (ctx_net c) (next_worker_id c),
     [LogTransition (state c) CheckTermination; InvokeSplit net (total_workers c);
      LogTransition CheckTermination Partitioning]).

(** The match of [transition], in its order; a branch that matches nothing
    only logs a warning. *)
Definition transition (c : CoordinatorContext) (e : CoordinatorEvent)
    : CoordinatorContext * list CoordinatorAction :=
  let from := state c in
  match state c, e with
  | Init, ConfigLoaded =>
      (set_state WaitingForWorkers c, [BindListener (bind_addr c); LogTransition from WaitingForWorkers])
  | WaitingForWorkers, WorkerConnected _ => on_worker_connected c
  | Partitioning, SplitComplete ps =>
      (set_state Dispatching c, assign_messages (round c) ps ++ [LogTransition from Dispatching])
  | Dispatching, AllDispatched => on_all_dispatched c
  | WaitingForResults, PartitionReturned _ p => on_partition_returned c p
  | WaitingForResults, PhaseTimeout _ => (set_state Error c, [LogTransition from Error; ShutdownAll])
  | Merging, MergeComplete net nf => on_merge_complete c net nf
  | _, FatalError _ => (set_state Error c, [LogTransition from Error; ShutdownAll])
  | (Partitioning | Dispatching | WaitingForResults | Merging), WorkerJoined id =>
      (c, [QueueWorkerForNextWindow id; LogJoin id; LogTransition from from])
  | (Partitioning | Dispatching | WaitingForResults | Merging), WorkerLeft id kind =>
      (c, [RemoveWorker id;
           LogDeparture id (match kind with AfterResult => LeaveAfter | Urgent => LeaveUrgent end);
           LogTransition from from])
  | (Partitioning | Dispatching | WaitingForResults | Merging), MembershipWindowClosed =>
      (c, [LogTransition from from])
  | _, _ => (c, [])
  end.

End machine.

Arguments CoordinatorEvent : clear implicits.
Arguments CoordinatorAction : clear implicits.
Arguments CoordinatorContext : clear implicits.

(** ** Dispatch mode *)

(** merge/types.rs *)
Inductive DispatchMode : Type := Auto | PushMode | PullMode.

Inductive ResolvedDispatchMode : Type := Push | Pull.

Definition resolve_dispatch_mode (mode : DispatchMode) (chunk_size num_workers : N) : ResolvedDispatchMode :=
  match mode with
  | PushMode => Push
  | PullMode => Pull
  | Auto => if chunk_size =? u32_MAX then Push else Pull
  end.

Definition resolve_dispatch_mode_with_chunks (mode : DispatchMode) (estimated_chunks num_workers : N)
    : ResolvedDispatchMode :=
  match mode with
  | PushMode => Push
  | PullMode => Pull
  | Auto => if estimated_chunks <=? num_workers then Push else Pull
  end.

Definition resolve_dispatch_mode_with_len_estimate (mode : DispatchMode) (len_estimate num_workers : N)
    : ResolvedDispatchMode :=
  match mode with
  | PushMode => Push
  | PullMode => Pull
  | Auto => if num_workers <? len_estimate then Pull else Push
  end.

(** ** The pull machine *)

Inductive PullCoordinatorState : Type :=
| DispatchingFirst | AwaitingResults | GeneratingNext | SendingNoMoreWork | AwaitingFinalResults
| MergingResults.

#[export] Instance PullCoordinatorState_eq_dec : EqDecision PullCoordinatorState.
Proof. solve_decision. Defined.

(** [impl From<PullCoordinatorState> for CoordinatorState]. *)
Definition project_state (s : PullCoordinatorState) : CoordinatorState :=
  match s with
  | DispatchingFirst => PullDispatchingFirst
  | AwaitingResults => PullAwaitingResults
  | GeneratingNext => PullGeneratingNext
  | SendingNoMoreWork => PullSendingNoMoreWork
  | AwaitingFinalResults => PullAwaitingFinalResults
  | MergingResults => Merging
  end.

Inductive PullCoordinatorEvent : Type :=
| FirstChunkDispatched
| RequestWorkReceived (worker_id : N)
| PartitionResultReceived (worker_id : N)
| ChunkAllocatedAndDispatched
| AllWorkersAckedNoMoreWork
| AllFinalResultsReceived.

(** The error strings are the debug names of the event and the state. *)
Inductive PullCoordinatorError : Type :=
| UnexpectedEvent (event : PullCoordinatorEvent) (state : PullCoordinatorState)
| WorkerIdMismatch (body_worker_id connection_worker_id : N).

Record CoordinatorPullContext : Type := mkPull {
  p_state : PullCoordinatorState;
  num_workers : N;
  stream_exhausted : bool;
  workers_awaiting_no_more_work : N;
  pending_results : list N;
  expected_final_results : N;
  merge_triggered : bool;
  results_consumed_for_merge : nat;
}.

Module PullFsm.

Definition new (n : N) : CoordinatorPullContext :=
  mkPull DispatchingFirst n false n [] n false 0.

Definition set_p_state (s : PullCoordinatorState) (c : CoordinatorPullContext) : CoordinatorPullContext :=
  mkPull s (num_workers c) (stream_exhausted c) (workers_awaiting_no_more_work c)
    (pending_results c) (expected_final_results c) (merge_triggered c) (results_consumed_for_merge c).

(** The release build returns the error of an unexpected event. *)
Definition try_transition (c : CoordinatorPullContext) (e : PullCoordinatorEvent)
    : CoordinatorPullContext * option PullCoordinatorError :=
  match p_state c, e with
  | DispatchingFirst, FirstChunkDispatched => (set_p_state AwaitingResults c, None)
  | AwaitingResults, PartitionResultReceived w =>
      (mkPull AwaitingResults (num_workers c) (stream_exhausted c) (workers_awaiting_no_more_work c)
         (pending_results c ++ [w]) (expected_final_results c) (merge_triggered c)
         (results_consumed_for_merge c), None)
  | AwaitingResults, RequestWorkReceived _ =>
      (set_p_state (if stream_exhausted c then SendingNoMoreWork else GeneratingNext) c, None)
  | GeneratingNext, ChunkAllocatedAndDispatched => (set_p_state AwaitingResults c, None)
  | SendingNoMoreWork, AllWorkersAckedNoMoreWork => (set_p_state AwaitingFinalResults c, None)
  | AwaitingFinalResults, AllFinalResultsReceived =>
      (mkPull MergingResults (num_workers c) (stream_exhausted c) (workers_awaiting_no_more_work c)
         (pending_results c) (expected_final_results c) true (length (pending_results c)), None)
  | s, e => (c, Some (UnexpectedEvent e s))
  end.

(** [transition] in a release build drops the error. *)
Definition transition (c : CoordinatorPullContext) (e : PullCoordinatorEvent) : CoordinatorPullContext :=
  (try_transition c e).1.

Definition try_transition_request_work (c : CoordinatorPullContext) (body connection : N)
    : CoordinatorPullContext * option PullCoordinatorError :=
  if body =? connection then try_transition c (RequestWorkReceived body)
  else (c, Some (WorkerIdMismatch body connection)).

End PullFsm.
