(* ===== verification/CoordinatorSpec.v ===== *)
(** What the two coordinator machines of Coordinator.v guarantee: the shape of
    every transition, the BSP barrier, the completion of a round, and the
    merge barrier of the pull machine. *)
From S2P Require Import Prelude NetTypes NetCore Partition Coordinator.
Local Open Scope N_scope.

(** ** The push machine *)

(** The phase changes the code can make, one constructor per edge of the state
    diagram; a transition row of the log may also repeat its state. *)
Inductive phase_edge : CoordinatorState → CoordinatorState → Prop :=
| edge_bind : phase_edge Init WaitingForWorkers
| edge_cohort : phase_edge WaitingForWorkers Partitioning
| edge_split : phase_edge Partitioning Dispatching
| edge_dispatched : phase_edge Dispatching WaitingForResults
| edge_collected : phase_edge WaitingForResults Merging
| edge_merged : phase_edge Merging CheckTermination
| edge_next_round : phase_edge CheckTermination Partitioning
| edge_done : phase_edge CheckTermination Done_
| edge_fatal s : phase_edge s Error
| edge_stay s : phase_edge s s.

(** The rows of a log connect two states. *)
Fixpoint log_path (s : CoordinatorState) (log : list (CoordinatorState * CoordinatorState))
    (t : CoordinatorState) : Prop :=
  match log with
  | [] => s = t
  | (a, b) :: log => s = a ∧ phase_edge a b ∧ log_path b log t
  end.

Section push.
Context {SocketAddr WorkerRoundStats : Type}.

Implicit Types c : CoordinatorContext SocketAddr.
Implicit Types e : CoordinatorEvent WorkerRoundStats.
Implicit Types acts : list (CoordinatorAction SocketAddr).

(** The rows a list of actions logs, in order. *)
Definition log_rows acts : list (CoordinatorState * CoordinatorState) :=
  omap (λ a, match a with LogTransition s t => Some (s, t) | _ => None end) acts.

(** The machine over a sequence of events: the final context and every action. *)
Fixpoint run c (es : list (CoordinatorEvent WorkerRoundStats))
    : CoordinatorContext SocketAddr * list (CoordinatorAction SocketAddr) :=
  match es with
  | [] => (c, [])
  | e :: es => let (c1, a1) := transition c e in let (c2, a2) := run c1 es in (c2, a1 ++ a2)
  end.

(** The partitions a sequence of events returns. *)
Definition returned (es : list (CoordinatorEvent WorkerRoundStats)) : list Partition :=
  omap (λ e, match e with PartitionReturned _ p => Some p | _ => None end) es.

(** Events the machine must absorb in the middle of a round. *)
Definition membership_event e : bool :=
  match e with WorkerJoined _ | WorkerLeft _ _ | MembershipWindowClosed => true | _ => false end.

(** The merges a list of actions starts, and the partitions it sends out. *)
Definition merges acts : list (list Partition) :=
  omap (λ a, match a with InvokeMergeAndReduce ps => Some ps | _ => None end) acts.

Definition assigned acts : list (WorkerId * N * Partition) :=
  omap (λ a, match a with SendMessage i (AssignPartition r q) => Some (i, r, q) | _ => None end) acts.

Lemma log_rows_app a1 a2 : log_rows (a1 ++ a2) = log_rows a1 ++ log_rows a2.
Proof. apply omap_app. Qed.

Lemma log_rows_imap (f : nat → Partition → CoordinatorAction SocketAddr) ps :
  (∀ i p s t, f i p ≠ LogTransition s t) → log_rows (imap f ps) = [].
Proof.
  revert f. induction ps as [|p ps IH]; intros f Hf; [done|]. rewrite imap_cons. cbn.
  destruct (f 0%nat p) eqn:E; try (exfalso; eapply Hf; exact E);
    (apply IH; intros; unfold compose; apply Hf).
Qed.

Lemma log_rows_assign r ps : log_rows (assign_messages r ps) = [].
Proof. by apply log_rows_imap. Qed.

Lemma elem_of_assign r ps a : a ∈ assign_messages (SocketAddr := SocketAddr) r ps →
  ∃ i p, ps !! i = Some p ∧ a = SendMessage (N.of_nat i mod 4294967296) (AssignPartition r p).
Proof.
  unfold assign_messages. rewrite list_elem_of_lookup. intros [i Hi].
  rewrite list_lookup_imap in Hi. destruct (ps !! i) as [p|] eqn:E; [|done].
  cbn in Hi. injection Hi as <-. by exists i, p.
Qed.

Lemma run_app c es1 es2 :
  run c (es1 ++ es2) =
  let (c1, a1) := run c es1 in let (c2, a2) := run c1 es2 in (c2, a1 ++ a2).
Proof.
  revert c. induction es1 as [|e es1 IH]; intros c; cbn [app run].
  { by destruct (run c es2). }
  destruct (transition c e) as [c1 a1]. rewrite IH. destruct (run c1 es1) as [c2 a2].
  destruct (run c2 es2) as [c3 a3]. by rewrite app_assoc.
Qed.

Lemma run_snoc c es e :
  (run c (es ++ [e])).1 = (transition (run c es).1 e).1.
Proof.
  rewrite run_app. destruct (run c es) as [c1 a1]. cbn. by destruct (transition c1 e).
Qed.

Lemma returned_app es1 es2 : returned (es1 ++ es2) = returned es1 ++ returned es2.
Proof. apply omap_app. Qed.

(** Splits the hypothesis on the result of [transition] into the match's
    branches. *)
Ltac transition_cases :=
  match goal with
  | H : transition ?c ?e = _ |- _ =>
      destruct c as [st mw cw ba pr tw cp rd nt nw];
      unfold transition, on_worker_connected, on_all_dispatched, on_partition_returned,
        on_merge_complete, set_state in H; cbn in H;
      destruct st, e; cbn in H;
      repeat (case_match; cbn in H); simplify_eq; cbn in *
  end.

Ltac log_steps :=
  cbn; repeat match goal with
  | |- _ ∧ _ => split
  | |- phase_edge _ _ => constructor
  | |- _ = _ => reflexivity
  end.

Lemma transition_log c e c' acts : transition c e = (c', acts) →
  log_path (state c) (log_rows acts) (state c').
Proof.
  intros H. transition_cases; rewrite ?log_rows_app, ?log_rows_assign; log_steps.
Qed.

(** The machine's contract on outputs, shutdown and membership. *)
Lemma transition_outputs c e c' acts : transition c e = (c', acts) →
  (∀ n, WriteOutput n ∈ acts ↔ state c = Merging ∧ e = MergeComplete n true) ∧
  (ShutdownAll ∈ acts ↔ (state c' = Error ∧ acts ≠ []) ∨ (state c = Merging ∧ state c' = Done_)).
Proof.
  intros H. transition_cases; split; intros; rewrite ?elem_of_app, ?elem_of_cons, ?elem_of_nil;
    try (naive_solver).
  all: split; [|naive_solver]; intros [(? & ? & ? & ?)%elem_of_assign|?]; naive_solver.
Qed.

Lemma transition_membership c e c' acts : transition c e = (c', acts) →
  (∀ w, QueueWorkerForNextWindow w ∈ acts ↔ active_round (state c) = true ∧ e = WorkerJoined w) ∧
  (∀ w, RemoveWorker w ∈ acts ↔ active_round (state c) = true ∧ ∃ k, e = WorkerLeft w k) ∧
  (membership_event e = true → c' = c).
Proof.
  intros H. transition_cases; split_and!; intros;
    rewrite ?elem_of_app, ?elem_of_cons, ?elem_of_nil; try naive_solver.
  all: split; [|naive_solver]; intros [(? & ? & ? & ?)%elem_of_assign|?]; naive_solver.
Qed.

(** Every call of [transition] obeys the state diagram: the rows it logs
    lead from the old state to the new one along its edges, so no state change
    is unlogged and a logged row is never invented; the net is output exactly
    when a merge reports a normal form, everything is shut down exactly on the
    two terminal states, and joins and departures are acted on exactly in an
    active round, without disturbing it. *)
Theorem transition_protocol c e c' acts : transition c e = (c', acts) →
  log_path (state c) (log_rows acts) (state c') ∧
  (∀ n, WriteOutput n ∈ acts ↔ state c = Merging ∧ e = MergeComplete n true) ∧
  (ShutdownAll ∈ acts ↔ (state c' = Error ∧ acts ≠ []) ∨ (state c = Merging ∧ state c' = Done_)) ∧
  (∀ w, QueueWorkerForNextWindow w ∈ acts ↔ active_round (state c) = true ∧ e = WorkerJoined w) ∧
  (∀ w, RemoveWorker w ∈ acts ↔ active_round (state c) = true ∧ ∃ k, e = WorkerLeft w k) ∧
  (membership_event e = true → c' = c) ∧
  (state c = Error → c' = c) ∧
  (state c = Done_ → c' = c ∨ state c' = Error).
Proof.
  intros H. split; [by eapply transition_log|].
  destruct (transition_outputs _ _ _ _ H) as [??], (transition_membership _ _ _ _ H) as (?&?&?).
  split_and!; try assumption; transition_cases; naive_solver.
Qed.

(** ** The BSP barrier *)

(** The counters of a context, per state. *)
Definition counters_ok c : Prop :=
  min_workers c ≤ u32_MAX ∧
  match state c with
  | Init | WaitingForWorkers => connected_workers c < N.max 1 (min_workers c)
  | Partitioning | Dispatching | Merging => 1 ≤ total_workers c ≤ u32_MAX
  | WaitingForResults =>
      1 ≤ total_workers c ≤ u32_MAX ∧
      partitions_received c = N.of_nat (length (collected_partitions c)) ∧
      partitions_received c < total_workers c
  | _ => True
  end.

Lemma counters_ok_new bind m h : m ≤ u32_MAX → counters_ok (ctx_new bind m h).
Proof. split; [done|]. cbn. lia. Qed.

Lemma counters_ok_step c e : counters_ok c → counters_ok (transition c e).1.
Proof.
  intros [Hm H]. destruct (transition c e) as [c' acts] eqn:Ht.
  transition_cases; unfold counters_ok; cbn; split; try done;
    repeat match goal with
    | E : (_ <=? _) = true |- _ => apply N.leb_le in E
    | E : (_ <=? _) = false |- _ => apply N.leb_gt in E
    end; rewrite ?u32_succ_lt in * by (unfold u32_MAX in *; lia);
    unfold u32_MAX in *; rewrite ?length_app; cbn; try lia; split_and!; lia.
Qed.

(** How a context comes to be waiting for results. *)
Lemma waiting_step c e c' acts : transition c e = (c', acts) → state c' = WaitingForResults →
  (state c = Dispatching ∧ e = AllDispatched ∧ collected_partitions c' = []) ∨
  (state c = WaitingForResults ∧
   collected_partitions c' = collected_partitions c ++ returned [e]).
Proof.
  intros H Hs. transition_cases; try discriminate; try (left; by split_and!);
    right; split; try done; by rewrite ?app_nil_r.
Qed.

(** The round the context is waiting for: its events start at [AllDispatched],
    and throughout them the machine stays in [WaitingForResults]. *)
Definition collecting c0 (es : list (CoordinatorEvent WorkerRoundStats)) (ps : list Partition) : Prop :=
  ∃ pre mid, es = pre ++ AllDispatched :: mid ∧ state (run c0 pre).1 = Dispatching ∧
    (∀ k, state (run c0 (pre ++ AllDispatched :: take k mid)).1 = WaitingForResults) ∧
    ps = returned mid.

Lemma run_invariant_from c es : counters_ok c → counters_ok (run c es).1.
Proof.
  revert c. induction es as [|e es IH]; intros c Hc; [done|]. cbn [run].
  pose proof (IH _ (counters_ok_step c e Hc)) as H.
  destruct (transition c e) as [c1 a1]. cbn in H. by destruct (run c1 es).
Qed.

Lemma run_invariant c0 es : state c0 = Init → counters_ok c0 →
  counters_ok (run c0 es).1 ∧
  (state (run c0 es).1 = WaitingForResults →
   collecting c0 es (collected_partitions (run c0 es).1)).
Proof.
  intros Hi Hc. induction es as [|e es [IHc IHw]] using rev_ind.
  { cbn. split; [done|]. by rewrite Hi. }
  rewrite run_snoc. split; [by apply counters_ok_step|].
  destruct (transition (run c0 es).1 e) as [c' acts] eqn:Ht. cbn [fst]. intros Hs.
  assert (Hr : (run c0 (es ++ [e])).1 = c') by (rewrite run_snoc, Ht; done).
  destruct (waiting_step _ _ _ _ Ht Hs) as [(Hd & -> & ->)|[Hd Hp]].
  - exists es, []. split_and!; try done. intros k. by rewrite take_nil, Hr.
  - destruct (IHw Hd) as (pre & mid & -> & Hpre & Hk & Hps).
    exists pre, (mid ++ [e]). rewrite <- app_assoc in *. cbn [app] in *. split_and!; try done.
    + intros k. destruct (decide (k ≤ length mid)%nat).
      * rewrite take_app_le by done. apply Hk.
      * rewrite take_ge by (rewrite length_app; cbn; lia). by rewrite Hr.
    + by rewrite Hp, Hps, returned_app.
Qed.

(** The only call that starts a merge. *)
Lemma merge_step c e c' acts ps : transition c e = (c', acts) → InvokeMergeAndReduce ps ∈ acts →
  state c = WaitingForResults ∧ (∃ w p, e = PartitionReturned w p ∧
    ps = collected_partitions c ++ [p]) ∧
  total_workers c ≤ u32_succ (partitions_received c).
Proof.
  intros H. transition_cases; rewrite ?elem_of_app, ?elem_of_cons, ?elem_of_nil; intros Ha;
    try naive_solver.
  - destruct Ha as [(? & ? & ? & ?)%elem_of_assign|?]; naive_solver.
  - match goal with E : (_ <=? _) = true |- _ => apply N.leb_le in E end. naive_solver.
Qed.

(** C7. BSP barrier: whatever the events so far, [InvokeMergeAndReduce] is
    emitted only when as many results as [total_workers] have come back since
    the dispatch of the same round, and it carries exactly those results, in
    their order of arrival. *)
Theorem bsp_barrier bind m h es e ps :
  m ≤ u32_MAX →
  let c0 := ctx_new bind m h in
  let c := (run c0 es).1 in
  InvokeMergeAndReduce ps ∈ (transition c e).2 →
  N.of_nat (length ps) = total_workers c ∧ 1 ≤ total_workers c ∧
  ∃ w p ps', e = PartitionReturned w p ∧ ps = ps' ++ [p] ∧ collecting c0 es ps'.
Proof.
  intros Hm c0 c Ha.
  destruct (run_invariant c0 es eq_refl (counters_ok_new _ _ _ Hm)) as [[_ Hc] Hw].
  fold c in Hc, Hw. destruct (transition c e) as [c' acts] eqn:Ht.
  destruct (merge_step _ _ _ _ _ Ht Ha) as (Hs & (w & p & -> & ->) & Hle).
  rewrite Hs in Hc. destruct Hc as (Ht1 & Hlen & Hlt).
  rewrite u32_succ_lt in Hle by (unfold u32_MAX in *; lia).
  rewrite length_app, Nat2N.inj_add, <- Hlen. cbn [length].
  split_and!; [lia|lia|]. exists w, p, (collected_partitions c). auto.
Qed.

(** ** A round completes *)

(** Every event of the list is a returned result or a membership event. *)
Definition round_events (es : list (CoordinatorEvent WorkerRoundStats)) : Prop :=
  Forall (λ e, membership_event e = true ∨ ∃ w p, e = PartitionReturned w p) es.

Lemma waiting_absorbs c e c' acts :
  transition c e = (c', acts) → state c = WaitingForResults → counters_ok c →
  membership_event e = true ∨ (∃ w p, e = PartitionReturned w p) →
  N.of_nat (length (collected_partitions c) + length (returned [e])) < total_workers c →
  state c' = WaitingForResults ∧ total_workers c' = total_workers c ∧ round c' = round c ∧
  collected_partitions c' = collected_partitions c ++ returned [e] ∧
  merges acts = [] ∧ assigned acts = [].
Proof.
  intros Ht Hs [_ Hc] He Hlt. rewrite Hs in Hc. destruct Hc as (? & Hlen & ?).
  destruct He as [He|(w & p & ->)].
  - destruct (transition_membership _ _ _ _ Ht) as (_ & _ & ->); [|done].
    destruct e; try done; unfold transition in Ht; rewrite Hs in Ht; simplify_eq;
      cbn [returned omap list_omap]; rewrite app_nil_r; by split_and!.
  - revert Ht. unfold transition, on_partition_returned. rewrite Hs. cbn in Hlt.
    rewrite (proj2 (N.leb_gt _ _)); [by intros [= <- <-]|].
    rewrite u32_succ_lt by (unfold u32_MAX in *; lia). lia.
Qed.

Lemma merges_app a1 a2 : merges (a1 ++ a2) = merges a1 ++ merges a2.
Proof. apply omap_app. Qed.

Lemma assigned_app a1 a2 : assigned (a1 ++ a2) = assigned a1 ++ assigned a2.
Proof. apply omap_app. Qed.

Lemma waiting_collects c es :
  state c = WaitingForResults → counters_ok c → round_events es →
  N.of_nat (length (collected_partitions c) + length (returned es)) < total_workers c →
  let (c', acts) := run c es in
  state c' = WaitingForResults ∧ total_workers c' = total_workers c ∧ round c' = round c ∧
  collected_partitions c' = collected_partitions c ++ returned es ∧
  merges acts = [] ∧ assigned acts = [].
Proof.
  intros Hs Hc Hes. revert c Hs Hc. induction Hes as [|e es He _ IH]; intros c Hs Hc Hlt.
  { cbn. by rewrite app_nil_r. }
  cbn [run]. pose proof (counters_ok_step c e Hc) as Hc'.
  replace (e :: es) with ([e] ++ es) in * by done. rewrite returned_app, length_app in *.
  destruct (transition c e) as [c' acts] eqn:Ht. cbn in Hc'.
  destruct (waiting_absorbs _ _ _ _ Ht Hs Hc He) as (Hs' & Ht' & Hr' & Hp' & Hm' & Ha'); [lia|].
  specialize (IH c' Hs' Hc'). rewrite Ht', Hp', length_app in IH.
  destruct (run c' es) as [c'' acts'']. destruct IH as (? & ? & ? & Hp'' & Hm'' & Ha''); [lia|].
  rewrite merges_app, assigned_app, Hp'', Hm', Hm'', Ha', Ha'', <- app_assoc.
  split_and!; try done; congruence.
Qed.

Lemma merges_imap (f : nat → Partition → CoordinatorAction SocketAddr) ps :
  (∀ i p qs, f i p ≠ InvokeMergeAndReduce qs) → merges (imap f ps) = [].
Proof.
  revert f. induction ps as [|p ps IH]; intros f Hf; [done|]. rewrite imap_cons. cbn.
  destruct (f 0%nat p) eqn:E; try (exfalso; eapply Hf; exact E);
    (apply IH; intros; unfold compose; apply Hf).
Qed.

Lemma merges_messages r ps : merges (assign_messages r ps) = [].
Proof. by apply merges_imap. Qed.

Lemma assigned_messages r ps :
  assigned (assign_messages r ps) = imap (λ i q, (N.of_nat i mod 4294967296, r, q)) ps.
Proof.
  unfold assign_messages.
  enough (∀ f : nat → nat, assigned (imap (λ i p, SendMessage (N.of_nat (f i) mod 4294967296)
    (AssignPartition r p)) ps) = imap (λ i q, (N.of_nat (f i) mod 4294967296, r, q)) ps) as H
    by exact (H (λ i, i)).
  induction ps as [|p ps IH]; intros f; [done|].
  rewrite !imap_cons. cbn [assigned omap list_omap]. f_equal. apply (IH (λ i, f (S i))).
Qed.

(** The first two events of a round. *)
Lemma round_opens c parts :
  state c = Partitioning → counters_ok c →
  let (c', acts) := run c [SplitComplete parts; AllDispatched] in
  state c' = WaitingForResults ∧ counters_ok c' ∧ total_workers c' = total_workers c ∧
  round c' = round c ∧ collected_partitions c' = [] ∧ merges acts = [] ∧
  assigned acts = imap (λ i q, (N.of_nat i mod 4294967296, round c, q)) parts.
Proof.
  intros Hs Hc.
  pose proof (counters_ok_step _ AllDispatched (counters_ok_step c (SplitComplete parts) Hc)) as H2.
  cbn [run]. unfold transition in *. rewrite Hs in *. cbn in H2. cbn -[assign_messages merges assigned].
  rewrite !merges_app, !assigned_app, assigned_messages, merges_messages.
  cbn -[imap]. rewrite !app_nil_r. by split_and!.
Qed.

(** C8. A BSP round completes: from [Partitioning], a split, the dispatch and
    as many results as there are workers -- from whichever workers, in any
    order, interleaved with any joins, departures and stale window timers --
    dispatch the parts of the split to the workers [0, 1, ...] of the current
    round and start exactly one merge, on exactly the returned partitions. *)
Theorem bsp_round_completes c parts es w p :
  state c = Partitioning → counters_ok c → round_events es →
  N.of_nat (S (length (returned es))) = total_workers c →
  let (c', acts) :=
    run c ([SplitComplete parts; AllDispatched] ++ es ++ [PartitionReturned w p]) in
  state c' = Merging ∧ collected_partitions c' = [] ∧ round c' = round c ∧
  total_workers c' = total_workers c ∧
  merges acts = [returned es ++ [p]] ∧
  assigned acts = imap (λ i q, (N.of_nat i mod 4294967296, round c, q)) parts.
Proof.
  intros Hs Hc Hes Hn. rewrite run_app. pose proof (round_opens c parts Hs Hc) as Ho.
  destruct (run c [SplitComplete parts; AllDispatched]) as [c1 a1].
  destruct Ho as (Hs1 & Hc1 & Ht1 & Hr1 & Hp1 & Hm1 & Ha1).
  pose proof (waiting_collects c1 es Hs1 Hc1 Hes) as Hw. pose proof (run_invariant_from c1 es Hc1) as Hc2.
  rewrite Hp1, Ht1 in Hw. rewrite run_app.
  destruct (run c1 es) as [c2 a2]. destruct Hw as (Hs2 & Ht2 & Hr2 & Hp2 & Hm2 & Ha2); [cbn; lia|].
  cbn in Hc2. destruct Hc2 as [_ Hc2]. rewrite Hs2 in Hc2. destruct Hc2 as (? & Hlen & ?).
  cbn [run]. unfold transition, on_partition_returned. rewrite Hs2.
  rewrite (proj2 (N.leb_le _ _)).
  - rewrite !merges_app, !assigned_app, Hm1, Hm2, Ha1, Ha2, Hp2. cbn. rewrite app_nil_r.
    split_and!; congruence.
  - rewrite u32_succ_lt by (unfold u32_MAX in *; lia). rewrite Hlen, Hp2. cbn. lia.
Qed.

End push.

(** ** The pull machine *)

(** The accepted events per state; the request is answered by a new chunk or
    by the end of the stream. *)
Inductive pull_edge : PullCoordinatorState → PullCoordinatorEvent → bool → PullCoordinatorState → Prop :=
| pull_first b : pull_edge DispatchingFirst FirstChunkDispatched b AwaitingResults
| pull_result w b : pull_edge AwaitingResults (PartitionResultReceived w) b AwaitingResults
| pull_more w : pull_edge AwaitingResults (RequestWorkReceived w) false GeneratingNext
| pull_no_more w : pull_edge AwaitingResults (RequestWorkReceived w) true SendingNoMoreWork
| pull_chunk b : pull_edge GeneratingNext ChunkAllocatedAndDispatched b AwaitingResults
| pull_acked b : pull_edge SendingNoMoreWork AllWorkersAckedNoMoreWork b AwaitingFinalResults
| pull_final b : pull_edge AwaitingFinalResults AllFinalResultsReceived b MergingResults.

(** The pull machine accepts exactly the events of its diagram; anything
    else, and a work request whose body names another worker than its
    connection, is an error that leaves the context as it was. A result is
    buffered exactly when it arrives in [AwaitingResults]. *)
Theorem pull_transition_exact c e :
  let (c', r) := PullFsm.try_transition c e in
  match r with
  | None => pull_edge (p_state c) e (stream_exhausted c) (p_state c') ∧
      pending_results c' = pending_results c ++
        match e with PartitionResultReceived w => [w] | _ => [] end
  | Some err => c' = c ∧ err = UnexpectedEvent e (p_state c) ∧
      ∀ s, ¬ pull_edge (p_state c) e (stream_exhausted c) s
  end ∧
  ∀ body conn, PullFsm.try_transition_request_work c body conn =
    if decide (body = conn) then PullFsm.try_transition c (RequestWorkReceived body)
    else (c, Some (WorkerIdMismatch body conn)).
Proof.
  assert (∀ body conn, PullFsm.try_transition_request_work c body conn =
    if decide (body = conn) then PullFsm.try_transition c (RequestWorkReceived body)
    else (c, Some (WorkerIdMismatch body conn))) as Hreq.
  { intros body conn. unfold PullFsm.try_transition_request_work.
    destruct (N.eqb_spec body conn), (decide (body = conn)); done. }
  destruct (PullFsm.try_transition c e) as [c' r] eqn:Ht. split; [|done]. clear Hreq.
  destruct c as [s n x a p f m k]. destruct s, e, x; cbn in Ht; simplify_eq; cbn;
    rewrite ?app_nil_r; split_and?; try done; try constructor; intros s H; inversion H.
Qed.

(** What drives a pull context: events, authenticated work requests, and the
    dispatch loop noting that its stream has ended (a public field). *)
Inductive pull_op : Type :=
| PullEvent (e : PullCoordinatorEvent)
| PullRequest (body connection : N)
| PullExhausted.

Definition pull_step (c : CoordinatorPullContext) (o : pull_op) : CoordinatorPullContext :=
  match o with
  | PullEvent e => PullFsm.transition c e
  | PullRequest b k => (PullFsm.try_transition_request_work c b k).1
  | PullExhausted => mkPull (p_state c) (num_workers c) true (workers_awaiting_no_more_work c)
      (pending_results c) (expected_final_results c) (merge_triggered c)
      (results_consumed_for_merge c)
  end.

(** The results that arrive while the machine is in [AwaitingResults]. *)
Fixpoint awaited_results (c : CoordinatorPullContext) (ops : list pull_op) : list N :=
  match ops with
  | [] => []
  | o :: ops =>
      match p_state c, o with
      | AwaitingResults, PullEvent (PartitionResultReceived w) => [w]
      | _, _ => []
      end ++ awaited_results (pull_step c o) ops
  end.

Definition pull_ok (c : CoordinatorPullContext) : Prop :=
  merge_triggered c = bool_decide (p_state c = MergingResults) ∧
  results_consumed_for_merge c = (if merge_triggered c then length (pending_results c) else 0%nat) ∧
  (p_state c ∈ [SendingNoMoreWork; AwaitingFinalResults; MergingResults] → stream_exhausted c = true).

Lemma pull_step_ok c o :
  pull_ok c → pull_ok (pull_step c o) ∧
  pending_results (pull_step c o) = pending_results c ++ awaited_results c [o] ∧
  expected_final_results (pull_step c o) = expected_final_results c.
Proof.
  destruct c as [s n x a p f m k]. intros (Hm & Hk & Hx). unfold pull_ok in *. cbn in Hm, Hk, Hx.
  destruct o as [e|b w|]; cbn.
  - destruct s, e, x; cbn in *; rewrite ?app_nil_r; split_and!; try done; set_solver.
  - unfold PullFsm.try_transition_request_work.
    destruct (b =? w), s, x; cbn in *; rewrite ?app_nil_r; split_and!; try done; set_solver.
  - destruct s; rewrite ?app_nil_r; by split_and!.
Qed.

(** Merge barrier of the pull machine: over any run, the merge is
    triggered exactly on entering [MergingResults], which is reached only
    after the stream has ended, and what it consumes is exactly the buffer of
    the results that arrived in [AwaitingResults] -- whatever number of final
    results the context expects, and without those that arrive while a chunk
    is generated, while the workers are told to stop, or in
    [AwaitingFinalResults] itself. *)
Theorem pull_merge_barrier n ops :
  let c := foldl pull_step (PullFsm.new n) ops in
  merge_triggered c = bool_decide (p_state c = MergingResults) ∧
  results_consumed_for_merge c = (if merge_triggered c then length (pending_results c) else 0%nat) ∧
  (p_state c ∈ [SendingNoMoreWork; AwaitingFinalResults; MergingResults] → stream_exhausted c = true) ∧
  pending_results c = awaited_results (PullFsm.new n) ops ∧
  expected_final_results c = n.
Proof.
  enough (∀ c0, pull_ok c0 →
    let c := foldl pull_step c0 ops in
    pull_ok c ∧ pending_results c = pending_results c0 ++ awaited_results c0 ops ∧
    expected_final_results c = expected_final_results c0) as H.
  { destruct (H (PullFsm.new n)) as ((? & ? & ?) & ? & ?); [|by split_and!].
    unfold pull_ok. cbn. split_and!; try done. set_solver. }
  induction ops as [|o ops IH]; intros c0 H0; cbn [foldl].
  { cbn. by rewrite app_nil_r. }
  destruct (pull_step_ok c0 o H0) as (H1 & Hp & He).
  destruct (IH _ H1) as (H2 & Hp2 & He2). split_and!; [done| |congruence].
  rewrite Hp2, Hp, <- app_assoc. f_equal. cbn [awaited_results]. by rewrite app_nil_r.
Qed.

(** ** The bounded panic payload *)

Lemma str_len_app s t : str_len (s ++ t) = str_len s + str_len t.
Proof. induction s as [|c s IH]; cbn [app str_len]; [done|]. rewrite IH. lia. Qed.

Lemma utf8_len_pos c : 1 ≤ utf8_len c.
Proof. unfold utf8_len. repeat case_match; lia. Qed.

(** [truncate] at [n]: the prefix that ends there, or a panic when none does. *)
Lemma str_truncate_spec s n : n ≤ str_len s →
  match str_truncate n s with
  | Done t => str_len t = n ∧ ∃ k, t = take k s
  | Panic => ∀ k, str_len (take k s) ≠ n
  end.
Proof.
  revert n. induction s as [|c s IH]; intros n Hn; cbn [str_len str_truncate] in *.
  { split; [cbn; lia|by exists 0%nat]. }
  destruct (N.eqb_spec n 0) as [->|Hn0]; [split; [done|by exists 0%nat]|].
  destruct (N.ltb_spec n (utf8_len c)) as [Hc|Hc].
  - intros [|k]; cbn [take str_len]; lia.
  - specialize (IH (n - utf8_len c) ltac:(lia)).
    destruct (str_truncate (n - utf8_len c) s) as [t|]; cbn [mbind outcome_bind mret outcome_ret].
    + destruct IH as (Ht & k & ->). split; [cbn; lia|]. by exists (S k).
    + intros [|k]; cbn [take str_len]; [lia|]. specialize (IH k). lia.
Qed.

(** The constructor [self_partition_panic] keeps a message of at most 4096
    bytes, cuts a longer one to its first 4096 bytes and the marker, never
    stores more than 4108 bytes -- and panics itself exactly when byte 4096
    of a longer message is not a character boundary. *)
Theorem self_partition_panic_exact msg :
  match self_partition_panic_payload msg with
  | Done s => str_len s ≤ 4108 ∧
      (s = msg ∧ str_len msg ≤ 4096 ∨
       ∃ k, s = take k msg ++ truncation_marker ∧ str_len (take k msg) = 4096 ∧ 4096 < str_len msg)
  | Panic => 4096 < str_len msg ∧ ∀ k, str_len (take k msg) ≠ 4096
  end.
Proof.
  unfold self_partition_panic_payload, MAX_PANIC_PAYLOAD_BYTES.
  destruct (N.ltb_spec 4096 (str_len msg)) as [Hl|Hl]; [|split; [lia|by left]].
  pose proof (str_truncate_spec msg 4096 ltac:(lia)) as H.
  destruct (str_truncate 4096 msg) as [t|]; cbn [mbind outcome_bind mret outcome_ret]; [|done].
  destruct H as (Ht & k & ->). split.
  - rewrite str_len_app, Ht. vm_compute. discriminate.
  - right. exists k. by split_and!.
Qed.

(** ** Concrete runs *)

Example multibyte_payload_panics :
  self_partition_panic_payload (replicate 4095 97 ++ [233; 97]) = Panic.
Proof. vm_compute. reflexivity. Qed.

(** Two rounds' worth of context for the witnesses: two workers, no net. *)
Definition demo_ctx : CoordinatorContext unit :=
  mkCtx Partitioning 2 2 tt 0 2 [] 3 None 0.

Lemma transition_protocol_witness :
  let e : CoordinatorEvent unit := MergeComplete NetCore.new true in
  let c := set_state Merging demo_ctx in
  log_path Merging (log_rows (transition c e).2) Done_.
Proof.
  intros e c.
  exact (proj1 (transition_protocol c e (transition c e).1 (transition c e).2
    (surjective_pairing _))).
Defined.

Definition demo_events : list (CoordinatorEvent unit) :=
  [ConfigLoaded; WorkerConnected 0; WorkerConnected 1;
   SplitComplete [empty_partition 0; empty_partition 1]; AllDispatched;
   PartitionReturned 1 (empty_partition 1); WorkerJoined 7].

Lemma bsp_barrier_witness :
  N.of_nat (length [empty_partition 1; empty_partition 0]) =
  total_workers (run (ctx_new tt 2 false) demo_events).1.
Proof.
  refine (proj1 (bsp_barrier tt 2 false demo_events (PartitionReturned 0 (empty_partition 0))
    [empty_partition 1; empty_partition 0] _ _)).
  - vm_compute. discriminate.
  - right. left.
Defined.

Lemma bsp_round_completes_witness :
  merges (run (WorkerRoundStats := unit) demo_ctx ([SplitComplete [empty_partition 0; empty_partition 1]; AllDispatched] ++
    [WorkerLeft 1 Urgent; PartitionReturned 1 (empty_partition 1)] ++
    [PartitionReturned 1 (empty_partition 1)])).2 = [[empty_partition 1; empty_partition 1]].
Proof.
  pose proof (bsp_round_completes (WorkerRoundStats := unit) demo_ctx
    [empty_partition 0; empty_partition 1]
    [WorkerLeft 1 Urgent; PartitionReturned 1 (empty_partition 1)] 1 (empty_partition 1)) as H.
  destruct (run (WorkerRoundStats := unit) demo_ctx _) as [c' acts]. apply H.
  - reflexivity.
  - split; [vm_compute; discriminate|split; vm_compute; discriminate].
  - constructor; [by left|]. constructor; [right; by eexists _, _|constructor].
  - reflexivity.
Defined.
