(* ===== verification/Grid.v ===== *)
(** The in-process grid loop (merge/grid.rs: [run_grid], its single-worker path
    and its entry point; the configuration and the metrics of merge/types.rs).
    Durations measured with a clock are left out. *)
From S2P Require Import Prelude NetTypes NetCore Reduction Partition BorderGraph Split Merge Coordinator.
Local Open Scope N_scope.

(** ** Configuration *)

Inductive StreamingStrategyConfig : Type := RoundRobin | Fennel (alpha_bits : N).

(** Timeouts in milliseconds. *)
Record GridConfig : Type := mkGridConfig {
  num_workers : N;
  max_rounds : option N;
  strict_bsp : bool;
  delta_mode : bool;
  coordinator_free_rounds : bool;
  hybrid_coordinator : bool;
  elastic_departure : bool;
  retain_partitions : bool;
  elastic_join : bool;
  checkpoint_partitions : bool;
  initial_wait_timeout : N;
  join_window_min : N;
  join_window_max : N;
  solo_budget : N;
  recycle_under_delta : RecyclePolicy;
  chunk_size_cfg : N;
  streaming_strategy : StreamingStrategyConfig;
  dispatch_mode : DispatchMode;
  max_pending_lifetime : N;
}.

Definition grid_config_default : GridConfig :=
  mkGridConfig 1 None false false false false false false false false 30000 50 500 10000
    DisableUnderDelta 10000 RoundRobin Auto 16.

Definition normalize (c : GridConfig) : GridConfig :=
  let coordinator_free := coordinator_free_rounds c || delta_mode c in
  let retain := retain_partitions c || elastic_departure c in
  let join := elastic_join c || (hybrid_coordinator c || elastic_departure c) in
  mkGridConfig (num_workers c) (max_rounds c) (strict_bsp c) (delta_mode c) coordinator_free
    (hybrid_coordinator c) (elastic_departure c) retain join (checkpoint_partitions c)
    (initial_wait_timeout c) (join_window_min c) (join_window_max c) (solo_budget c)
    (recycle_under_delta c) (chunk_size_cfg c) (streaming_strategy c) (dispatch_mode c)
    (max_pending_lifetime c).

Inductive ConfigError : Type :=
| RetainRequiredForDeparture
| JoinWindowOrdering (min max : N)
| SoloBudgetZero.

Definition validate (c : GridConfig) : unit + ConfigError :=
  if elastic_departure c && negb (retain_partitions c) then inr RetainRequiredForDeparture
  else if join_window_max c <? join_window_min c then inr (JoinWindowOrdering (join_window_min c) (join_window_max c))
  else if solo_budget c =? 0 then inr SoloBudgetZero
  else inl tt.

Inductive ExecutionMode : Type := V1Lenient | V1Strict | DeltaLenient | DeltaStrict.

Definition active_mode (c : GridConfig) : ExecutionMode :=
  match delta_mode c, strict_bsp c with
  | false, false => V1Lenient
  | false, true => V1Strict
  | true, false => DeltaLenient
  | true, true => DeltaStrict
  end.

(** ** Metrics *)

Record WorkerRoundStats : Type := mkWorkerStats {
  ws_worker_id : WorkerId;
  agents_before : nat;
  agents_after : nat;
  local_redexes : N;
  ws_by_rule : list N;
  has_border_activity : bool;
  is_coordinator_self : bool;
}.

(** The fields that [run_grid] writes. *)
Record GridMetrics : Type := mkMetrics {
  rounds : N;
  gm_total_interactions : N;
  total_interactions_by_rule : list N;
  local_interactions_per_round : list N;
  border_interactions_per_round : list N;
  border_redexes_per_round : list N;
  agents_per_round : list nat;
  worker_stats_per_round : list (list WorkerRoundStats);
  coordinator_free_count : N;
  converged : bool;
}.

Definition metrics_default : GridMetrics := mkMetrics 0 0 (replicate 6 0) [] [] [] [] [] 0 false.

Definition add_rules (a b : list N) : list N := zip_with N.add a b.

Definition set_converged (b : bool) (m : GridMetrics) : GridMetrics :=
  mkMetrics (rounds m) (gm_total_interactions m) (total_interactions_by_rule m)
    (local_interactions_per_round m) (border_interactions_per_round m) (border_redexes_per_round m)
    (agents_per_round m) (worker_stats_per_round m) (coordinator_free_count m) b.

Definition push_agents (k : nat) (m : GridMetrics) : GridMetrics :=
  mkMetrics (rounds m) (gm_total_interactions m) (total_interactions_by_rule m)
    (local_interactions_per_round m) (border_interactions_per_round m) (border_redexes_per_round m)
    (agents_per_round m ++ [k]) (worker_stats_per_round m) (coordinator_free_count m) (converged m).

(** After the local phase. *)
Definition push_local (local : N) (stats : list WorkerRoundStats) (m : GridMetrics) : GridMetrics :=
  mkMetrics (rounds m) (gm_total_interactions m) (total_interactions_by_rule m)
    (local_interactions_per_round m ++ [local]) (border_interactions_per_round m) (border_redexes_per_round m)
    (agents_per_round m) (worker_stats_per_round m ++ [stats]) (coordinator_free_count m) (converged m).

(** After the merge: the border phase's counters, the totals, the round. *)
Definition close_round (border_redexes border : N) (local : N) (by_rule : list N) (coordinator_free : bool)
    (m : GridMetrics) : GridMetrics :=
  mkMetrics (u32_succ (rounds m)) (gm_total_interactions m + (local + border))
    (add_rules (total_interactions_by_rule m) by_rule)
    (local_interactions_per_round m) (border_interactions_per_round m ++ [border])
    (border_redexes_per_round m ++ [border_redexes]) (agents_per_round m) (worker_stats_per_round m)
    (if coordinator_free then u32_succ (coordinator_free_count m) else coordinator_free_count m) (converged m).

(** [(all_no_border, all_no_redexes)]. *)
Definition check_global_normal_form (stats : list WorkerRoundStats) : bool * bool :=
  (forallb (λ s, negb (has_border_activity s)) stats, forallb (λ s, local_redexes s =? 0) stats).

Definition check_max_rounds_cap (c : GridConfig) (m : GridMetrics) : bool :=
  match max_rounds c with None => false | Some max => max <=? rounds m end.

(** ** The loop *)

(** Reduction of one partition, its rebuilt index and its statistics. *)
Definition reduce_partition (fuel : nat) (p : Partition) : fueled (Partition * WorkerRoundStats) :=
  let before := count_live_agents (subnet p) in
  '(n, st) ←! reduce_all fuel (subnet p);
  let p := with_index (rebuild_free_port_index n (border_id_start p) (border_id_end p)) (with_subnet n p) in
  Some (Done (p, mkWorkerStats (worker_id p) before (count_live_agents n) (total_interactions st)
                   (interactions_by_rule st) (compute_border_activity p) false)).

Fixpoint local_phase (fuel : nat) (ps : list Partition) : fueled (list Partition * list WorkerRoundStats) :=
  match ps with
  | [] => Some (Done ([], []))
  | p :: ps =>
      '(p, s) ←! reduce_partition fuel p;
      '(ps, ss) ←! local_phase fuel ps;
      Some (Done (p :: ps, s :: ss))
  end.

(** [local_interactions] and [local_by_rule]. *)
Definition sum_local (ss : list WorkerRoundStats) : N := foldl (λ a s, a + local_redexes s) 0 ss.
Definition sum_by_rule (ss : list WorkerRoundStats) : list N :=
  foldl (λ a s, add_rules a (ws_by_rule s)) (replicate 6 0) ss.

Definition run_single_worker (fuel : nat) (n : Net) (c : GridConfig) (m : GridMetrics) : fueled (Net * GridMetrics) :=
  if bool_decide (max_rounds c = Some 0) then Some (Done (n, set_converged false m))
  else
    let before := count_live_agents n in
    let m := push_agents before m in
    '(n, st) ←! reduce_all fuel n;
    let stats := [mkWorkerStats 0 before (count_live_agents n) (total_interactions st)
                    (interactions_by_rule st) false true] in
    let m := push_local (total_interactions st) stats m in
    Some (Done (n,
      mkMetrics 1 (total_interactions st) (add_rules (total_interactions_by_rule m) (interactions_by_rule st))
        (local_interactions_per_round m) (border_interactions_per_round m ++ [0])
        (border_redexes_per_round m ++ [0]) (agents_per_round m) (worker_stats_per_round m)
        (coordinator_free_count m) true)).

(** [order] is the iteration order of the border map at each merge. *)
Section grid.
Context `{PartitionStrategy} (order : PartitionPlan → list N).

(** One iteration: the net, the metrics, and whether the loop breaks. *)
Definition grid_round (fuel : nat) (c : GridConfig) (n : Net) (m : GridMetrics)
    : fueled (Net * GridMetrics * bool) :=
  if check_max_rounds_cap c m then Some (Done (n, set_converged false m, true))
  else
    let m := push_agents (count_live_agents n) m in
    plan ←! Some (split_with_config n (num_workers c) (mkPartitionConfig true (recycle_under_delta c)));
    '(ps, stats) ←! local_phase fuel (partitions plan);
    let plan := mkPlan ps (plan_borders plan) (next_border_id plan) in
    let local := sum_local stats in
    let by_rule := sum_by_rule stats in
    let m := push_local local stats m in
    let '(no_border, no_redexes) := check_global_normal_form stats in
    let '(merged, border_redex_count) := merge_along (order plan) plan in
    if coordinator_free_rounds c && strict_bsp c && no_border && no_redexes then
      Some (Done (merged, set_converged true (close_round border_redex_count 0 local by_rule true m), true))
    else if coordinator_free_rounds c && strict_bsp c && no_border then
      let m := close_round border_redex_count 0 local by_rule true m in
      let n := drain_stale_redexes merged in
      if bool_decide (redex_queue n = []) then Some (Done (n, set_converged true m, true))
      else Some (Done (n, m, false))
    else
      '(n, st) ←! (if strict_bsp c then Some (reduce_border_once merged) else reduce_all fuel merged);
      let m := close_round border_redex_count (total_interactions st) local
                 (add_rules by_rule (interactions_by_rule st)) false m in
      let n := drain_stale_redexes n in
      if bool_decide (redex_queue n = []) then Some (Done (n, set_converged true m, true))
      else Some (Done (n, m, false)).

Fixpoint grid_loop (max_iterations fuel : nat) (c : GridConfig) (n : Net) (m : GridMetrics)
    : fueled (Net * GridMetrics) :=
  match max_iterations with
  | O => None
  | S max_iterations =>
      '(n, m, stop) ←! grid_round fuel c n m;
      if stop : bool then Some (Done (n, m)) else grid_loop max_iterations fuel c n m
  end.

Definition run_grid (max_iterations fuel : nat) (n : Net) (c : GridConfig) : fueled (Net * GridMetrics) :=
  if num_workers c =? 0 then Some Panic
  else
    let n := drain_stale_redexes n in
    if bool_decide (redex_queue n = []) then Some (Done (n, set_converged true metrics_default))
    else if num_workers c =? 1 then run_single_worker fuel n c metrics_default
    else grid_loop max_iterations fuel c n metrics_default.

End grid.
