(* ===== verification/GridSpec.v ===== *)
(** The grid loop: what convergence means, what the metrics count, that fuel
    does not matter, and that the result may depend on the iteration order of
    a hash map. *)
From S2P Require Import Prelude NetTypes NetCore NetInv NetDebug Reduction ReductionInv EngineInv RunInv Wiring ReductionSpec.
From S2P Require Import Partition BorderGraph Split SplitInv Merge MergeInv Coordinator Grid.
Local Open Scope N_scope.
Open Scope net_scope.

(** ** Inversion *)

(** [reduce_all] returns with an empty queue. *)
Lemma reduce_all_queue fuel n st n' st' :
  reduce_all_from fuel n st = Some (Done (n', st')) → redex_queue n' = [].
Proof.
  revert n st. induction fuel as [|fuel IH]; intros n st; [done|]. cbn [reduce_all_from].
  destruct (reduce_step n) as [[m r]|] eqn:E; [|done]. destruct r as [rule sp|].
  - apply IH.
  - intros [= <- <-]. apply reduce_from_inv in E as [[_ ->]|(a & b & q & _ & Hf)]; [done|].
    by apply fire_not_normal in Hf.
Qed.

(** ** Merging without principal borders *)

Definition principal (r : PortRef) : Prop := ∃ id, r = AgentPort id 0.

Definition no_principal (ps : list Partition) : Prop :=
  ∀ p bid r, p ∈ ps → free_port_index p !! bid = Some r → ¬ principal r.

Lemma compute_border_activity_false p : compute_border_activity p = false →
  ∀ bid r, free_port_index p !! bid = Some r → ¬ principal r.
Proof.
  intros H bid r Hr [id ->]. apply not_true_iff_false in H. apply H. unfold compute_border_activity.
  apply existsb_exists. exists (bid, AgentPort id 0). split; [|done].
  by apply list_elem_of_In, elem_of_map_to_list.
Qed.

Lemma border_endpoint_in ps resolved bid r : border_endpoint resolved ps bid = Some r →
  resolved = Some r ∨ ∃ p, p ∈ ps ∧ free_port_index p !! bid = Some r.
Proof.
  revert resolved. induction ps as [|p ps IH]; intros resolved; cbn [border_endpoint]; [by left|].
  destruct (free_port_index p !! bid) as [[id q|f]|] eqn:E.
  - intros [= <-]. right. exists p. split; [set_solver|done].
  - intros H. apply IH in H as [H|(q & Hq & Hr)]; [|right; exists q; set_solver].
    destruct resolved; [by left|]. right. exists p. split; [set_solver|]. congruence.
  - intros H. apply IH in H as [H|(q & Hq & Hr)]; [by left|right; exists q; set_solver].
Qed.

Lemma resolve_chain_principal bs ps fuel r : no_principal ps → ¬ principal r →
  ¬ principal (resolve_chain bs ps fuel r).
Proof.
  intros Hnp. revert r. induction fuel as [|fuel IH]; intros r Hr; [done|]. cbn [resolve_chain].
  destruct r as [id q|bid]; [done|]. destruct (bs !! bid) as [x|]; [|done].
  destruct (border_endpoint None ps bid) as [r'|] eqn:E; [|done].
  apply border_endpoint_in in E as [?|(p & Hp & Hr')]; [done|].
  pose proof (Hnp p bid r' Hp Hr'). case_decide; [done|]. destruct r'; [done|by apply IH].
Qed.

Lemma border_sides_in ps bid a b : border_sides ps bid = Some (a, b) →
  (∃ p, p ∈ ps ∧ free_port_index p !! bid = Some a) ∧ ∃ p, p ∈ ps ∧ free_port_index p !! bid = Some b.
Proof.
  unfold border_sides. destruct (omap (λ p, free_port_index p !! bid) ps) as [|x [|y l]] eqn:E; [done..|]. intros [= <- <-].
  assert (Hin : ∀ z, z ∈ x :: y :: l → ∃ p, p ∈ ps ∧ free_port_index p !! bid = Some z).
  { intros z Hz. rewrite <- E in Hz. by apply list_elem_of_omap in Hz. }
  split; apply Hin; [set_solver|]. clear. right. revert y. induction l as [|z l IH]; intros y; cbn; [left|].
  destruct l as [|z' l]; [set_solver|]. specialize (IH y). set_solver.
Qed.

Lemma push_redex_not_principal a b q : ¬ principal a ∨ ¬ principal b → push_redex a b q = q.
Proof.
  intros H. unfold push_redex. destruct a as [i [|]|], b as [j [|]|]; try done.
  destruct H as [H|H]; exfalso; apply H; by eexists.
Qed.

Lemma merge_no_principal keys plan : no_principal (partitions plan) →
  redex_queue (merge_along keys plan).1 = [].
Proof.
  intros Hnp. unfold merge_along.
  assert (H : ∀ acc, redex_queue acc.1 = [] →
    redex_queue (foldl (restore_border (plan_borders plan) (partitions plan)) acc keys).1 = []).
  { induction keys as [|bid keys IH]; intros acc Hacc; [done|]. cbn [foldl]. apply IH.
    unfold restore_border. destruct (border_sides _ bid) as [[a b]|] eqn:E; [|done]. cbn [fst].
    apply border_sides_in in E as [(p & Hp & Ha) _].
    destruct (connect_frame acc.1 (resolve_chain (plan_borders plan) (partitions plan) MAX_CHAIN_DEPTH a)
      (resolve_chain (plan_borders plan) (partitions plan) MAX_CHAIN_DEPTH b)) as (_ & _ & _ & _ & _ & -> & _).
    rewrite push_redex_not_principal; [done|]. left. apply resolve_chain_principal; [done|by eapply Hnp]. }
  specialize (H (unite plan, 0) eq_refl).
  destruct (foldl _ _ keys) as [m c]. exact H.
Qed.

(** ** The local phase *)

Lemma local_phase_spec fuel ps ps' ss : local_phase fuel ps = Some (Done (ps', ss)) →
  Forall2 (λ p s, has_border_activity s = compute_border_activity p) ps' ss.
Proof.
  revert ps' ss. induction ps as [|p ps IH]; intros ps' ss; cbn [local_phase].
  { intros [= <- <-]. constructor. }
  intros ([p1 s1] & H1 & ([ps2 ss2] & H2 & [= <- <-])%run_bind_Done)%run_bind_Done.
  constructor; [|by apply IH]. apply run_bind_Done in H1 as ([n st] & _ & [= <- <-]). done.
Qed.

Lemma quiet_no_principal fuel ps ps' ss : local_phase fuel ps = Some (Done (ps', ss)) →
  (check_global_normal_form ss).1 = true → no_principal ps'.
Proof.
  intros Hl%local_phase_spec Hq p bid r Hp. apply list_elem_of_lookup in Hp as (i & Hi).
  destruct (Forall2_lookup_l _ _ _ _ _ Hl Hi) as (s & Hs & E).
  cbn [check_global_normal_form fst] in Hq. apply list_elem_of_lookup_2 in Hs.
  apply (forallb_elem _ _ _ Hq) in Hs. cbv beta in Hs. apply negb_true_iff in Hs. rewrite E in Hs.
  by apply compute_border_activity_false.
Qed.

(** ** Metrics *)

Definition sumN (l : list N) : N := foldr N.add 0 l.

Lemma sumN_app l x : sumN (l ++ [x]) = sumN l + x.
Proof. unfold sumN. induction l as [|y l IH]; cbn; lia. Qed.

(** At the head of a round: one entry per round in each list, and the total. *)
Record metrics_ok (m : GridMetrics) : Prop := {
  mk_rounds : rounds m = as_u32 (N.of_nat (length (local_interactions_per_round m)));
  mk_border : length (border_interactions_per_round m) = length (local_interactions_per_round m);
  mk_redexes : length (border_redexes_per_round m) = length (local_interactions_per_round m);
  mk_agents : length (agents_per_round m) = length (local_interactions_per_round m);
  mk_stats : length (worker_stats_per_round m) = length (local_interactions_per_round m);
  mk_total : gm_total_interactions m =
    sumN (local_interactions_per_round m) + sumN (border_interactions_per_round m);
}.

Lemma metrics_ok_converged b m : metrics_ok m → metrics_ok (set_converged b m).
Proof. by intros []. Qed.

Lemma u32_succ_as x : u32_succ (as_u32 x) = as_u32 (x + 1).
Proof. unfold u32_succ, as_u32. by rewrite N.Div0.add_mod_idemp_l. Qed.

(** A completed round, whatever its counters. *)
Lemma metrics_ok_round m k local ss br b by_rule cf : metrics_ok m →
  metrics_ok (close_round br b local by_rule cf (push_local local ss (push_agents k m))).
Proof.
  intros [R B E A S T]. split; cbn; rewrite ?length_app, ?sumN_app; cbn; try lia.
  rewrite R, u32_succ_as. f_equal. lia.
Qed.

(** ** Rounds *)

Section grid.
Context `{PartitionStrategy} (order : PartitionPlan → list N).

(** How an iteration ends. *)
Definition round_ends (c : GridConfig) (m : GridMetrics) (n' : Net) (m' : GridMetrics) (stop : bool) : Prop :=
  if stop then
    (converged m' = true ∧ redex_queue n' = []) ∨
    (converged m' = false ∧ rounds m' = rounds m ∧ check_max_rounds_cap c m = true)
  else converged m' = converged m ∧ rounds m' = u32_succ (rounds m) ∧ check_max_rounds_cap c m = false.

Lemma grid_round_spec fuel c n m n' m' stop : metrics_ok m →
  grid_round order fuel c n m = Some (Done (n', m', stop)) → metrics_ok m' ∧ round_ends c m n' m' stop.
Proof.
  intros Hm. unfold grid_round, round_ends. destruct (check_max_rounds_cap c m) eqn:Ecap.
  { intros [= <- <- <-]. split; [by apply metrics_ok_converged|]. by right. }
  intros (plan & _ & ([ps ss] & Hl & Hrest)%run_bind_Done)%run_bind_Done. revert Hrest.
  pose proof (quiet_no_principal fuel _ ps ss Hl) as Hquiet.
  destruct (check_global_normal_form ss) as [nb nr]. cbn [fst] in Hquiet.
  set (plan' := mkPlan ps _ _). pose proof (merge_no_principal (order plan') plan') as Hmq.
  destruct (merge_along (order plan') plan') as [merged br]. cbn [fst partitions plan'] in Hmq.
  destruct (coordinator_free_rounds c && strict_bsp c && nb && nr) eqn:E1.
  { intros [= <- <- <-]. split; [by apply metrics_ok_converged, metrics_ok_round|]. left. split; [done|].
    apply Hmq, Hquiet. by destruct nb, (coordinator_free_rounds c), (strict_bsp c). }
  destruct (coordinator_free_rounds c && strict_bsp c && nb).
  - case_bool_decide as Hq; intros [= <- <- <-].
    + split; [by apply metrics_ok_converged, metrics_ok_round|]. by left.
    + split; [by apply metrics_ok_round|]. done.
  - intros ([n1 st] & _ & Hrest)%run_bind_Done. revert Hrest.
    case_bool_decide as Hq; intros [= <- <- <-].
    + split; [by apply metrics_ok_converged, metrics_ok_round|]. by left.
    + split; [by apply metrics_ok_round|]. done.
Qed.

Lemma grid_loop_spec iters fuel c n m n' m' : metrics_ok m →
  grid_loop order iters fuel c n m = Some (Done (n', m')) → metrics_ok m' ∧
    ((converged m' = true ∧ redex_queue n' = []) ∨
     (converged m' = false ∧ ∃ m1, rounds m' = rounds m1 ∧ check_max_rounds_cap c m1 = true ∧
       (m1 = m ∨ ∃ m2, rounds m1 = u32_succ (rounds m2) ∧ check_max_rounds_cap c m2 = false))).
Proof.
  revert n m. induction iters as [|iters IH]; intros n m Hm; [done|]. cbn [grid_loop].
  intros ([[n1 m1] stop] & Hr & Hrest)%run_bind_Done.
  destruct (grid_round_spec fuel c n m n1 m1 stop Hm Hr) as [Hm1 Hend]. unfold round_ends in Hend.
  destruct stop.
  - injection Hrest as <- <-. split; [done|]. destruct Hend as [?|(? & ? & ?)]; [by left|].
    right. split; [done|]. exists m. auto.
  - destruct Hend as (_ & Hrd & Hcap). destruct (IH n1 m1 Hm1 Hrest) as [Hm' [?|(? & m2 & ? & ? & Hor)]];
      [by split; [|left]|]. split; [done|]. right. split; [done|]. exists m2. split; [done|]. split; [done|].
    right. destruct Hor as [->|?]; [by exists m|done].
Qed.

Lemma metrics_default_ok : metrics_ok metrics_default.
Proof. by split. Qed.

(** C9. When the grid reports convergence the returned net has no pair queued;
    when it does not, exactly [max_rounds] rounds have run.  The metrics have
    one entry per round in each list, and the total is the sum of the local
    and the border interactions. *)
Theorem run_grid_sound iters fuel n c n' m' :
  (∀ max, max_rounds c = Some max → max ≤ u32_MAX) →
  run_grid order iters fuel n c = Some (Done (n', m')) →
  (if converged m' then redex_queue n' = [] else max_rounds c = Some (rounds m')) ∧ metrics_ok m'.
Proof.
  intros Hmax. unfold run_grid. destruct (num_workers c =? 0); [done|].
  case_bool_decide as Hq.
  { intros [= <- <-]. split; [done|]. apply metrics_ok_converged, metrics_default_ok. }
  destruct (num_workers c =? 1).
  { unfold run_single_worker. case_bool_decide as H0.
    - intros [= <- <-]. split; [done|]. apply metrics_ok_converged, metrics_default_ok.
    - intros ([n1 st] & Hr & [= <- <-])%run_bind_Done. split; [exact (reduce_all_queue _ _ _ _ _ Hr)|].
      split; cbn; try done. lia. }
  intros Hl. destruct (grid_loop_spec _ _ _ _ _ _ _ metrics_default_ok Hl) as [Hm [[-> ?]|(-> & m1 & -> & Hcap & Hor)]];
    [done|]. split; [|done].
  unfold check_max_rounds_cap in *. destruct (max_rounds c) as [max|]; [|done]. specialize (Hmax max eq_refl).
  f_equal. apply N.leb_le in Hcap. destruct Hor as [->|(m2 & E & Hcap2)].
  - cbn in *. lia.
  - apply N.leb_gt in Hcap2. rewrite u32_succ_lt in E by lia. lia.
Qed.

End grid.

(** ** One worker *)

Lemma drain_wf n : wf n → wf (drain_stale_redexes n).
Proof. apply with_queue_wf. Qed.

Lemma drain_queue_complete n : wf n → queue_complete n → queue_complete (drain_stale_redexes n).
Proof.
  intros Hwf Hq a b Hr%with_queue_redex. pose proof (redex_sym n a b Hwf Hr).
  unfold drain_stale_redexes. cbn [redex_queue with_redex_queue]. rewrite !list_elem_of_filter.
  destruct (Hq a b Hr) as [Hin|Hin]; [left|right]; (split; [by apply is_valid_redex_spec|done]).
Qed.

Lemma drain_empty n : wf n → queue_complete n → redex_queue (drain_stale_redexes n) = [] ↔ ∀ a b, ¬ redex n a b.
Proof.
  intros Hwf Hq. split.
  - intros He a b Hr. destruct (drain_queue_complete n Hwf Hq a b) as [H|H];
      [by apply with_queue_redex| |]; rewrite He in H; by apply elem_of_nil in H.
  - intros Hn. unfold drain_stale_redexes. cbn [redex_queue with_redex_queue].
    destruct (filter _ (redex_queue n)) as [|[a b] l] eqn:E; [done|]. exfalso.
    assert (Hin : (a, b) ∈ filter (λ p, is_valid_redex n p.1 p.2 = true) (redex_queue n)) by (rewrite E; set_solver).
    apply list_elem_of_filter in Hin as [Hv _]. by apply is_valid_redex_spec, Hn in Hv.
Qed.

(** With one worker the grid is [reduce_all] on the drained net: it returns,
    in one round (none when the net is already normal), a well-formed net
    without active pairs, with the counters of that run; given at least one
    allowed round, no commutation and room for the erasers. *)
Theorem run_grid_single_worker `{PartitionStrategy} order iters fuel n c :
  wf n → queue_complete n → no_comm n → (measure n < 2 * fuel)%nat →
  next_id n + 4 * N.of_nat fuel ≤ u32_MAX → num_workers c = 1 → max_rounds c ≠ Some 0 →
  ∃ m t, run_grid order iters fuel n c = Some (Done (m, t)) ∧ wf m ∧ (∀ a b, ¬ redex m a b) ∧
    converged t = true ∧
    ((rounds t = 0 ∧ m = drain_stale_redexes n ∧ ∀ a b, ¬ redex n a b) ∨
     (rounds t = 1 ∧ ∃ st, reduce_all fuel (drain_stale_redexes n) = Some (Done (m, st)) ∧
        gm_total_interactions t = total_interactions st)).
Proof.
  intros Hwf Hq Hnc Hfuel Hroom Hk Hmax. unfold run_grid. rewrite Hk. cbn [N.eqb Pos.eqb].
  pose proof (drain_wf n Hwf) as Hwd. case_bool_decide as He.
  - pose proof (proj1 (drain_empty n Hwf Hq) He) as Hn. eexists _, _. split; [done|]. split; [done|].
    split; [intros a b Hr%with_queue_redex; by apply (Hn a b)|]. split; [done|]. by left.
  - unfold run_single_worker. rewrite bool_decide_false by done.
    destruct (reduce_all_terminates (drain_stale_redexes n) fuel) as (m & st & Hr & W & Hn & _);
      [done|by apply drain_queue_complete|done|done|done|].
    rewrite Hr. cbn [run_bind]. eexists _, _. split; [done|]. split; [done|]. split; [done|]. split; [done|].
    right. split; [done|]. by exists st.
Qed.

Lemma run_grid_single_worker_witness :
  ∃ m t, run_grid (H := ContiguousIdStrategy) border_keys 1 6 (example_closed Dup Dup) grid_config_default = Some (Done (m, t)) ∧
    (∀ a b, ¬ redex m a b) ∧ converged t = true.
Proof.
  destruct (run_grid_single_worker (H := ContiguousIdStrategy) border_keys 1 6 (example_closed Dup Dup) grid_config_default
    (example_wf _ _) (example_queue _ _) (example_no_comm Dup)) as (m & t & H & _ & Hn & Hc & _);
    [apply Nat.ltb_lt; vm_compute; reflexivity|vm_compute; discriminate|reflexivity|discriminate|].
  exists m, t. split; [exact H|]. split; [exact Hn|exact Hc].
Defined.

Lemma run_grid_sound_witness :
  ∃ m t, run_grid (H := ContiguousIdStrategy) border_keys 1 6 (example_closed Dup Dup) grid_config_default = Some (Done (m, t)) ∧
    redex_queue m = [] ∧ metrics_ok t.
Proof.
  assert (E : match run_grid (H := ContiguousIdStrategy) border_keys 1 6 (example_closed Dup Dup) grid_config_default with
    | Some (Done (m, t)) => converged t = true | _ => False end) by (vm_compute; reflexivity).
  destruct (run_grid (H := ContiguousIdStrategy) border_keys 1 6 (example_closed Dup Dup) grid_config_default)
    as [[[m t]|]|] eqn:Er; [|contradiction|contradiction].
  destruct (run_grid_sound (H := ContiguousIdStrategy) border_keys 1 6 (example_closed Dup Dup) grid_config_default m t)
    as [Hq Hm]; [discriminate|exact Er|]. rewrite E in Hq.
  exists m, t. split; [reflexivity|]. split; [exact Hq|exact Hm].
Defined.

(** ** The iteration order of the border map *)

(** Worker 0 joins borders 0 and 1, worker 1 joins borders 1 and 2, so that the
    wire between agents 2 and 7 runs through three borders. *)
Definition example_chain : Net :=
  match
    fold_outcome (λ n s, '(n, _) ← create_agent n s; mret n) new
      [Dup; Dup; Con; Era; Era; Era; Era; Con; Dup; Dup; Era; Era; Era; Era]
  with
  | Done n =>
      foldl (λ n w, connect n w.1 w.2) n
        [(AgentPort 0 0, AgentPort 1 0); (AgentPort 0 2, AgentPort 3 0); (AgentPort 1 2, AgentPort 4 0);
         (AgentPort 8 0, AgentPort 9 0); (AgentPort 8 2, AgentPort 10 0); (AgentPort 9 2, AgentPort 11 0);
         (AgentPort 0 1, AgentPort 7 1); (AgentPort 1 1, AgentPort 8 1); (AgentPort 2 1, AgentPort 9 1);
         (AgentPort 2 2, AgentPort 6 0); (AgentPort 7 2, AgentPort 13 0)]
  | Panic => new
  end.

Definition two_workers : GridConfig :=
  mkGridConfig 2 None false false false false false false false false 30000 50 500 10000
    DisableUnderDelta 10000 RoundRobin Auto 16.

Definition chain_run (keys : list N) : fueled (Net * GridMetrics) :=
  run_grid (H := ContiguousIdStrategy) (λ _, keys) 2 100 example_chain two_workers.

Definition run_target (r : fueled (Net * GridMetrics)) (id : AgentId) (p : PortId) : option PortRef :=
  match r with Some (Done (m, t)) => if converged t then Some m.[id, p] else None | _ => None end.

(** The result of a grid run may depend on the order in which the merge
    iterates over the border map: on a well-formed net where a wire was cut
    three times, one order gives the wire of the sequential reduction, another
    leaves a port wired to itself, and both runs report convergence. *)
Theorem run_grid_order_dependent :
  wf example_chain ∧ queue_complete example_chain ∧
  (∃ plan, split (H := ContiguousIdStrategy) example_chain 2 = Done plan ∧
     [0; 1; 2] ≡ₚ border_keys plan ∧ [2; 1; 0] ≡ₚ border_keys plan) ∧
  (∃ s st, reduce_all 100 example_chain = Some (Done (s, st)) ∧ s.[2, 1] = AgentPort 7 1 ∧ s.[7, 1] = AgentPort 2 1) ∧
  run_target (chain_run [0; 1; 2]) 2 1 = Some (AgentPort 7 1) ∧
  run_target (chain_run [0; 1; 2]) 7 1 = Some (AgentPort 2 1) ∧
  run_target (chain_run [2; 1; 0]) 7 1 = Some (AgentPort 7 1).
Proof.
  split_and!.
  - apply wf_b_sound. vm_compute. reflexivity.
  - apply queue_complete_b_sound. vm_compute. reflexivity.
  - assert (E : match split (H := ContiguousIdStrategy) example_chain 2 with
      Done p => border_keys p | Panic => [] end = [2; 1; 0]) by (vm_compute; reflexivity).
    destruct (split (H := ContiguousIdStrategy) example_chain 2) as [plan|]; [|discriminate].
    exists plan. rewrite E. split; [reflexivity|]. split; [|reflexivity]. apply (reverse_Permutation [2; 1; 0]).
  - assert (E : match reduce_all 100 example_chain with
      Some (Done (s, _)) => (s.[2, 1], s.[7, 1]) = (AgentPort 7 1, AgentPort 2 1) | _ => False end)
      by (vm_compute; reflexivity).
    destruct (reduce_all 100 example_chain) as [[[s st]|]|]; [|contradiction|contradiction].
    exists s, st. split; [reflexivity|]. by injection E.
  - vm_compute. reflexivity.
  - vm_compute. reflexivity.
  - vm_compute. reflexivity.
Qed.

(** ** Fuel *)

Lemma run_bind_mono {A B} (m m' : fueled A) (f f' : A → fueled B) r :
  (∀ x, m = Some x → m' = Some x) → (∀ a x, f a = Some x → f' a = Some x) →
  run_bind m f = Some r → run_bind m' f' = Some r.
Proof.
  intros Hm Hf. destruct m as [[a|]|]; [|by rewrite (Hm Panic eq_refl)|done].
  rewrite (Hm (Done a) eq_refl). apply Hf.
Qed.

Lemma reduce_all_mono fuel fuel' n st r : (fuel ≤ fuel')%nat →
  reduce_all_from fuel n st = Some r → reduce_all_from fuel' n st = Some r.
Proof.
  revert fuel' n st. induction fuel as [|fuel IH]; intros fuel' n st Hle; [done|].
  destruct fuel' as [|fuel']; [lia|]. cbn [reduce_all_from].
  destruct (reduce_step n) as [[m r']|]; [|done]. destruct r'; [|done]. apply IH. lia.
Qed.

Lemma local_phase_mono fuel fuel' ps r : (fuel ≤ fuel')%nat →
  local_phase fuel ps = Some r → local_phase fuel' ps = Some r.
Proof.
  intros Hle. revert r. induction ps as [|p ps IH]; intros r; [done|]. cbn [local_phase].
  apply run_bind_mono.
  - intros x. unfold reduce_partition. apply run_bind_mono; [|done]. intros y. by apply reduce_all_mono.
  - intros [p' s] x. apply run_bind_mono; [exact IH|done].
Qed.

Lemma grid_round_mono `{PartitionStrategy} order fuel fuel' c n m r : (fuel ≤ fuel')%nat →
  grid_round order fuel c n m = Some r → grid_round order fuel' c n m = Some r.
Proof.
  intros Hle. unfold grid_round. destruct (check_max_rounds_cap c m); [done|].
  apply run_bind_mono; [done|]. intros plan x. apply run_bind_mono; [intros y; by apply local_phase_mono|].
  intros [ps ss] y. destruct (check_global_normal_form ss). destruct (merge_along _ _).
  destruct (_ && _ && _ && _); [done|]. destruct (_ && _ && _); [done|].
  apply run_bind_mono; [|done]. intros z. destruct (strict_bsp c); [done|]. by apply reduce_all_mono.
Qed.

(** Fuel does not matter: once a grid run returns, it returns the same with
    any larger bounds on its iterations and on its reductions. *)
Theorem run_grid_fuel `{PartitionStrategy} order iters iters' fuel fuel' n c r :
  (iters ≤ iters')%nat → (fuel ≤ fuel')%nat →
  run_grid order iters fuel n c = Some r → run_grid order iters' fuel' n c = Some r.
Proof.
  intros Hi Hf. unfold run_grid. destruct (num_workers c =? 0); [done|]. case_bool_decide; [done|].
  destruct (num_workers c =? 1).
  - unfold run_single_worker. case_bool_decide; [done|]. apply run_bind_mono; [|done]. intros x. by apply reduce_all_mono.
  - generalize (drain_stale_redexes n) metrics_default. clear - Hi Hf. revert r iters' Hi.
    induction iters as [|iters IH]; intros r iters' Hi n m; [done|]. destruct iters' as [|iters']; [lia|].
    cbn [grid_loop]. apply run_bind_mono; [intros x; by apply grid_round_mono|].
    intros [[n' m'] stop] x. destruct stop; [done|]. apply IH. lia.
Qed.

Lemma run_grid_fuel_witness :
  run_grid (H := ContiguousIdStrategy) border_keys 50 600 (example_closed Dup Dup) grid_config_default =
  run_grid (H := ContiguousIdStrategy) border_keys 1 6 (example_closed Dup Dup) grid_config_default.
Proof.
  destruct (run_grid (H := ContiguousIdStrategy) border_keys 1 6 (example_closed Dup Dup) grid_config_default) as [r|] eqn:E.
  - apply (run_grid_fuel (H := ContiguousIdStrategy) border_keys 1 50 6 600); [lia|lia|exact E].
  - exfalso. revert E. vm_compute. discriminate.
Defined.

(** ** Configuration *)

(** [normalize] is idempotent, changes no field but the three it derives,
    and never makes a valid configuration invalid; on a configuration whose
    timeouts and budget are in order its result is valid. *)
Theorem normalize_sound c :
  normalize (normalize c) = normalize c ∧
  (validate c = inl tt → validate (normalize c) = inl tt) ∧
  (join_window_min c ≤ join_window_max c → solo_budget c ≠ 0 → validate (normalize c) = inl tt) ∧
  active_mode (normalize c) = active_mode c ∧
  (delta_mode c = true → coordinator_free_rounds (normalize c) = true).
Proof.
  assert (Hv : join_window_min c ≤ join_window_max c → solo_budget c ≠ 0 → validate (normalize c) = inl tt).
  { intros Hj Hs. unfold validate. cbn. rewrite (proj2 (N.ltb_ge _ _)) by done.
    rewrite (proj2 (N.eqb_neq _ _)) by done. by destruct (elastic_departure c), (retain_partitions c). }
  split_and!; [|..].
  - destruct c as [? ? ? [] [] [] [] [] [] ? ? ? ? ? ? ? ? ? ?]; reflexivity.
  - intros Hc. revert Hc. unfold validate at 1. destruct (elastic_departure c && _); [done|].
    destruct (N.ltb_spec (join_window_max c) (join_window_min c)); [done|].
    destruct (N.eqb_spec (solo_budget c) 0); [done|]. intros _. by apply Hv.
  - exact Hv.
  - done.
  - intros Hd. cbn. rewrite Hd. by destruct (coordinator_free_rounds c).
Qed.

Lemma normalize_sound_witness :
  let c := mkGridConfig 4 None true true false true true false false false 30000 50 500 10000
             DisableUnderDelta 10000 RoundRobin Auto 16 in
  validate c = inr RetainRequiredForDeparture ∧ validate (normalize c) = inl tt ∧
  coordinator_free_rounds (normalize c) = true.
Proof.
  intros c. destruct (normalize_sound c) as (_ & _ & H & _ & Hd).
  split; [reflexivity|]. split; [|apply Hd; reflexivity]. apply H; cbn; lia.
Defined.
