(* ===== verification/DeltaGrid.v ===== *)
(** The delta-mode grid loop of the coordinator (merge/grid.rs: [run_grid_entry],
    [run_grid_delta] and what it calls; the dispatch interface of
    merge/types.rs). *)
From S2P Require Import Prelude NetTypes NetCore Reduction Partition BorderGraph BorderResolver Split Merge Grid.
Local Open Scope N_scope.

(** ** The workers, as the loop sees them *)

Record RoundResultPayload : Type := mkRoundResult {
  rr_worker_id : WorkerId;
  rr_round : N;
  rr_border_deltas : list BorderDelta;
  rr_stats : WorkerRoundStats;
  rr_has_border_activity : bool;
  rr_minted_agents : list MintedAgent;
}.

(** The trait; its implementations drive sockets or test workers.  [D] is the
    implementation's state. *)
Class WorkerDispatch (D : Type) : Type := {
  dispatch_initial : D → PartitionPlan → fueled (D * (unit + GridError));
  dispatch_round_start : D → list (WorkerId * RoundStartDispatch) → fueled (D * (list RoundResultPayload + GridError));
  dispatch_final_state_request : D → N → fueled (D * (list Partition + GridError));
}.

(** ** Convergence *)

Definition all_no_local_redexes (rs : list RoundResultPayload) : bool :=
  forallb (λ r, local_redexes (rr_stats r) =? 0) rs.
Definition all_no_border_activity (rs : list RoundResultPayload) : bool :=
  forallb (λ r, negb (rr_has_border_activity r)) rs.
Definition graph_has_no_redexes (g : BorderGraph) : bool := bool_decide (Border.detect_border_redexes g = []).

Definition check_delta_convergence (rs : list RoundResultPayload) (g : BorderGraph) : bool :=
  all_no_border_activity rs && all_no_local_redexes rs && graph_has_no_redexes g.

Definition is_principal (r : PortRef) : bool := match r with AgentPort _ 0 => true | _ => false end.

(** Some border has a principal end, none has two. *)
Definition every_border_has_inert_remote (g : BorderGraph) : bool :=
  let sides := (λ e, (is_principal (side_a e.2), is_principal (side_b e.2))) <$> map_to_list (borders g) in
  negb (existsb (λ s, s.1 && s.2) sides) && existsb (λ s, s.1 || s.2) sides.

Definition check_delta_convergence_post_resolve (rs : list RoundResultPayload) (g : BorderGraph) : bool :=
  if negb (all_no_local_redexes rs && graph_has_no_redexes g) then false
  else if all_no_border_activity rs then true
  else every_border_has_inert_remote g.

(** ** Promoted borders *)

Definition is_self_sentinel (border_id : N) (port : PortRef) : bool :=
  match port with FreePort x => x =? border_id | AgentPort _ _ => false end.

Definition is_free (r : PortRef) : bool := match r with FreePort _ => true | AgentPort _ _ => false end.

(** [entry(w).or_default().push(x)]. *)
Definition push_entry {A} (w : WorkerId) (x : A) (m : gmap N (list A)) : gmap N (list A) :=
  <[w := default [] (m !! w) ++ [x]]> m.

Definition promote_one (num_workers : nat) (out : gmap N (list (N * PortRef))) (e : N * BorderState)
    : gmap N (list (N * PortRef)) :=
  let '(bid, st) := e in
  let known w := (N.to_nat w <? num_workers)%nat in
  let intra_worker := worker_a st =? worker_b st in
  let a_free := is_free (side_a st) in
  let b_free := is_free (side_b st) in
  let out :=
    if known (worker_a st) && negb (is_self_sentinel bid (side_a st)) && negb (intra_worker && a_free && negb b_free)
    then push_entry (worker_a st) (bid, side_a st) out else out in
  if is_self_sentinel bid (side_b st) then out
  else if intra_worker then
    if negb b_free && known (worker_a st) then push_entry (worker_a st) (bid, side_b st) out else out
  else if known (worker_b st) then push_entry (worker_b st) (bid, side_b st) out else out.

Definition promoted_borders_to_per_worker_new_borders (promoted : list (N * BorderState)) (num_workers : nat)
    : gmap N (list (N * PortRef)) := foldl (promote_one num_workers) ∅ promoted.

Definition lafont_one (num_workers : nat) (acc : gmap N (list (PortRef * PortRef)) * list N) (e : N * BorderState)
    : gmap N (list (PortRef * PortRef)) * list N :=
  let '(bid, st) := e in
  if negb (worker_a st =? worker_b st) then acc
  else if (num_workers <=? N.to_nat (worker_a st))%nat then acc
  else
    let a_free := is_free (side_a st) in
    let b_free := is_free (side_b st) in
    if a_free || b_free then
      let '(local, target) := if a_free && negb b_free then (side_b st, side_a st) else (side_a st, side_b st) in
      (if bool_decide (local = target) then acc.1 else push_entry (worker_a st) (local, target) acc.1, acc.2 ++ [bid])
    else acc.

Definition promoted_intra_worker_lafont_wires (promoted : list (N * BorderState)) (num_workers : nat)
    : gmap N (list (PortRef * PortRef)) * list N := foldl (lafont_one num_workers) (∅, []) promoted.

(** ** The coordinator's copy of the partitions *)

(** A pair with a disconnected end, or from a port to itself, is skipped. *)
Definition cache_reconnect (n : Net) (w : PortRef * PortRef) : Net :=
  if bool_decide (w.1 = DISCONNECTED) || bool_decide (w.2 = DISCONNECTED) || bool_decide (w.1 = w.2) then n
  else connect n w.1 w.2.

(** The agents the resolved borders end in. *)
Definition consumed_agents (p : Partition) (resolved : list N) : list AgentId :=
  omap (λ bid, match free_port_index p !! bid with Some (AgentPort id 0) => Some id | _ => None end) resolved.

Definition maintain_partition (p : Partition) (d : RoundStartDispatch) : Partition :=
  let agents_to_remove := consumed_agents p (rs_resolved_borders d) in
  let p := apply_border_deltas_to_partition p (rs_border_deltas d) (rs_resolved_borders d) (rs_new_borders d) in
  let n := foldl cache_reconnect (subnet p) (rs_local_reconnections d) in
  with_subnet (foldl remove_agent n agents_to_remove) p.

(** [get_mut(w)]: an unknown worker is skipped. *)
Definition update_cached (w : WorkerId) (f : Partition → Partition) (cache : list Partition) : list Partition :=
  alter f (N.to_nat w) cache.

Definition maintain_cache (packaged : list (WorkerId * RoundStartDispatch)) (cache : list Partition) : list Partition :=
  foldl (λ cache e, update_cached e.1 (λ p, maintain_partition p e.2) cache) cache packaged.

Definition apply_results_to_cache (rs : list RoundResultPayload) (cache : list Partition) : list Partition :=
  foldl (λ cache r,
    update_cached (rr_worker_id r) (λ p, apply_border_deltas_to_partition p (rr_border_deltas r) [] []) cache) cache rs.

(** ** Final collection *)

Definition worker_le (p q : Partition) : Prop := worker_id p ≤ worker_id q.
Definition start_le (r s : IdRange) : Prop := range_start r ≤ range_start s.
#[export] Instance worker_le_dec p q : Decision (worker_le p q).
Proof. unfold worker_le. apply _. Defined.
#[export] Instance start_le_dec r s : Decision (start_le r s).
Proof. unfold start_le. apply _. Defined.

(** A stable sort. *)
Definition sort_by_worker (ps : list Partition) : list Partition := merge_sort worker_le ps.

Definition reconstruct_partition_plan_from_collected (ps : list Partition) (g : BorderGraph)
    (reclaimed : list Partition) (next_border_id : N) : PartitionPlan :=
  mkPlan (sort_by_worker (ps ++ reclaimed)) ((λ st, (side_a st, side_b st)) <$> borders g) next_border_id.

(** Adjacent ranges, in the order of their starts, do not overlap. *)
Fixpoint ranges_disjoint (rs : list IdRange) : bool :=
  match rs with
  | r :: ((r' :: _) as rest) => (range_end r <=? range_start r') && ranges_disjoint rest
  | _ => true
  end.

Section delta.
Context `{PartitionStrategy} `{WorkerDispatch D} (order : PartitionPlan → list N).

(** Departure recovery: both assertions stay in release builds. *)
Definition reconstruct (g : BorderGraph) (surviving reclaimed : list Partition) : outcome Net :=
  let ranges := merge_sort start_le (p_id_range <$> surviving ++ reclaimed) in
  if negb (ranges_disjoint ranges) then Panic
  else if u32_MAX <=? max_of ((λ p, next_id (subnet p)) <$> surviving ++ reclaimed) then Panic
  else let plan := reconstruct_partition_plan_from_collected surviving g reclaimed 0 in
       mret (merge_along (order plan) plan).1.

(** The metrics of [run_grid] and the two fields only this loop writes. *)
Record DeltaMetrics : Type := mkDeltaMetrics {
  base : GridMetrics;
  metrics_delta_mode : bool;
  delta_max_rounds_hit : option bool;
}.

Definition on_base (f : GridMetrics → GridMetrics) (m : DeltaMetrics) : DeltaMetrics :=
  mkDeltaMetrics (f (base m)) (metrics_delta_mode m) (delta_max_rounds_hit m).

Record DeltaLoop : Type := mkLoop {
  l_dispatch : D;
  l_metrics : DeltaMetrics;
  l_graph : BorderGraph;
  l_cache : list Partition;
  l_next_border : N;
  l_next_cid : N;
  l_payload : list (WorkerId * RoundStartDispatch);
}.

Definition run_grid_delta_final_collect (d : D) (cache : list Partition) (g : BorderGraph) (m : DeltaMetrics)
    : fueled (D * (Net + GridError)) :=
  let final_round := rounds (base m) in
  '(d, collected) ←! dispatch_final_state_request d final_round;
  match collected with
  | inr e => Some (Done (d, inr e))
  | inl collected =>
      if bool_decide (collected ≠ []) && negb (length collected =? length cache)%nat
      then Some (Done (d, inr (CountMismatch final_round (N.of_nat (length cache)) (N.of_nat (length collected)))))
      else
        let ps := if bool_decide (collected = []) then cache else sort_by_worker collected in
        let plan := reconstruct_partition_plan_from_collected ps g [] 0 in
        Some (Done (d, inl (merge_along (order plan) plan).1))
  end.

(** The mints of every result, in turn; the first violation ends the run. *)
Fixpoint register_results (g : BorderGraph) (rs : list RoundResultPayload)
    : outcome ((BorderGraph * list (N * BorderState)) + GridError) :=
  match rs with
  | [] => mret (inl (g, []))
  | r :: rs =>
      '(g, promoted) ← Border.register_minted_agents (rr_worker_id r) (rr_minted_agents r) g;
      match promoted with
      | inr e => mret (inr e)
      | inl promoted =>
          rest ← register_results g rs;
          mret (match rest with inl (g, l) => inl (g, promoted ++ l) | inr e => inr e end)
      end
  end.

(** Every redex detected at the start of the phase, in turn. *)
Fixpoint resolve_all (g : BorderGraph) (cache : list Partition) (next_border next_cid : N) (bids : list N)
    : outcome (list BorderResolution * BorderGraph * N * N) :=
  match bids with
  | [] => mret ([], g, next_border, next_cid)
  | bid :: bids =>
      '(r, g, nb, nc) ← resolve_border_redex g cache bid next_border next_cid;
      '(rs, g, nb, nc) ← resolve_all g cache nb nc bids;
      mret (r :: rs, g, nb, nc)
  end.

(** The promoted borders ride on the next round's messages. *)
Definition extend_payload (news : gmap N (list (N * PortRef))) (wires : gmap N (list (PortRef * PortRef)))
    (e : WorkerId * RoundStartDispatch) : WorkerId * RoundStartDispatch :=
  let d := e.2 in
  (e.1, mkDispatch (rs_border_deltas d) (rs_local_reconnections d ++ default [] (wires !! e.1)) (rs_resolved_borders d)
          (rs_new_borders d ++ default [] (news !! e.1)) (rs_pending_commutations d)).

(** What a round's results add to the metrics before resolution. *)
Definition count_results (rs : list RoundResultPayload) (cache : list Partition) (m : GridMetrics) : GridMetrics :=
  let stats := rr_stats <$> rs in
  mkMetrics (u32_succ (rounds m)) (gm_total_interactions m) (total_interactions_by_rule m)
    (local_interactions_per_round m ++ [sum_local stats]) (border_interactions_per_round m) (border_redexes_per_round m)
    (agents_per_round m ++ [sum_list ((λ p, count_live_agents (subnet p)) <$> cache)])
    (worker_stats_per_round m ++ [stats]) (coordinator_free_count m) (converged m).
Definition push_border_redexes (k : nat) (m : GridMetrics) : GridMetrics :=
  mkMetrics (rounds m) (gm_total_interactions m) (total_interactions_by_rule m) (local_interactions_per_round m)
    (border_interactions_per_round m) (border_redexes_per_round m ++ [as_u32 (N.of_nat k)]) (agents_per_round m)
    (worker_stats_per_round m) (coordinator_free_count m) (converged m).
Definition push_border (k : N) (m : GridMetrics) : GridMetrics :=
  mkMetrics (rounds m) (gm_total_interactions m) (total_interactions_by_rule m) (local_interactions_per_round m)
    (border_interactions_per_round m ++ [k]) (border_redexes_per_round m) (agents_per_round m)
    (worker_stats_per_round m) (coordinator_free_count m) (converged m).
Definition add_totals (local border : N) (by_rule : list N) (m : GridMetrics) : GridMetrics :=
  mkMetrics (rounds m) (gm_total_interactions m + (local + border)) (add_rules (total_interactions_by_rule m) by_rule)
    (local_interactions_per_round m) (border_interactions_per_round m) (border_redexes_per_round m) (agents_per_round m)
    (worker_stats_per_round m) (coordinator_free_count m) (converged m).

(** One iteration: the state after it and whether the loop breaks, or the
    error that ends the run. *)
Definition delta_round (c : GridConfig) (l : DeltaLoop) : fueled ((DeltaLoop * bool) + (DeltaLoop * GridError)) :=
  if check_max_rounds_cap c (base (l_metrics l)) then
    let m := mkDeltaMetrics (set_converged false (base (l_metrics l))) (metrics_delta_mode (l_metrics l)) (Some true) in
    Some (Done (inl (mkLoop (l_dispatch l) m (l_graph l) (l_cache l) (l_next_border l) (l_next_cid l) (l_payload l), true)))
  else
    let num_workers := length (l_cache l) in
    '(d, results) ←! dispatch_round_start (l_dispatch l) (l_payload l);
    let fail m e := Some (Done (inr (mkLoop d m (l_graph l) (l_cache l) (l_next_border l) (l_next_cid l) (l_payload l), e))) in
    match results with
    | inr e => fail (l_metrics l) e
    | inl results =>
        registered ←! Some (register_results (l_graph l) results);
        match registered with
        | inr e => fail (l_metrics l) e
        | inl (g, promoted) =>
            let news := promoted_borders_to_per_worker_new_borders promoted num_workers in
            let '(wires, spurious) := promoted_intra_worker_lafont_wires promoted num_workers in
            let g := foldl (λ g bid, (Border.remove_border bid g).1) g spurious in
            let promotion_forces_next_round := bool_decide (promoted ≠ []) in
            let g := foldl (λ g r, Border.apply_deltas (rr_worker_id r) (rr_border_deltas r) g) g results in
            let cache := apply_results_to_cache results (l_cache l) in
            let m := on_base (count_results results cache) (l_metrics l) in
            let redexes := (Border.detect_border_redexes g).*1 in
            let m := on_base (push_border_redexes (length redexes)) m in
            if strict_bsp c && negb promotion_forces_next_round && check_delta_convergence_post_resolve results g then
              let m := on_base (λ m, set_converged true (push_border 0 m)) m in
              Some (Done (inl (mkLoop d m g cache (l_next_border l) (l_next_cid l) (l_payload l), true)))
            else
              '(resolutions, g, nb, nc) ←! Some (resolve_all g cache (l_next_border l) (l_next_cid l) redexes);
              let border := N.of_nat (length resolutions) in
              let m := on_base (push_border border) m in
              let m := on_base (add_totals (sum_local (rr_stats <$> results)) border (sum_by_rule (rr_stats <$> results))) m in
              let converged_now :=
                if border =? 0 then check_delta_convergence_post_resolve results g
                else check_delta_convergence results g in
              if negb (strict_bsp c) && negb promotion_forces_next_round && converged_now then
                Some (Done (inl (mkLoop d (on_base (set_converged true) m) g cache nb nc (l_payload l), true)))
              else
                '(packaged, pending) ←! Some (package_resolutions_with_pending resolutions num_workers);
                let g := Border.enqueue_pending_borders pending g in
                let cache := maintain_cache packaged cache in
                Some (Done (inl (mkLoop d m g cache nb nc (extend_payload news wires <$> packaged), false)))
        end
    end.

Fixpoint delta_loop (fuel : nat) (c : GridConfig) (l : DeltaLoop) : fueled (DeltaLoop + (DeltaLoop * GridError)) :=
  match fuel with
  | O => None
  | S fuel =>
      r ←! delta_round c l;
      match r with
      | inr e => Some (Done (inr e))
      | inl (l, stop) => if stop : bool then Some (Done (inl l)) else delta_loop fuel c l
      end
  end.

Definition empty_payload (num_workers : nat) : list (WorkerId * RoundStartDispatch) :=
  (λ w, (as_u32 (N.of_nat w), dispatch_default)) <$> seq 0 num_workers.

(** The metrics are written in place, so they survive an error. *)
Definition run_grid_delta_inner (fuel : nat) (plan : PartitionPlan) (c : GridConfig) (d : D) (m : DeltaMetrics)
    : fueled (D * DeltaMetrics * (Net + GridError)) :=
  '(d, r) ←! dispatch_initial d plan;
  match r with
  | inr e => Some (Done (d, m, inr e))
  | inl tt =>
      let ps := partitions plan in
      let m := on_base (push_agents (sum_list ((λ p, count_live_agents (subnet p)) <$> ps))) m in
      g ←! Some (Border.from_partition_plan plan);
      res ←! delta_loop fuel c (mkLoop d m g ps (border_alloc_from_graph g) 0 (empty_payload (length ps)));
      match res with
      | inr (l, e) => Some (Done (l_dispatch l, l_metrics l, inr e))
      | inl l =>
          '(d, n) ←! run_grid_delta_final_collect (l_dispatch l) (l_cache l) (l_graph l) (l_metrics l);
          Some (Done (d, l_metrics l, n))
      end
  end.

Definition run_grid_delta (fuel reduce_fuel : nat) (n : Net) (c : GridConfig) (d : D)
    : fueled (D * Net * DeltaMetrics) :=
  if num_workers c =? 0 then Some Panic
  else
    let m := mkDeltaMetrics metrics_default true None in
    let n := drain_stale_redexes n in
    if bool_decide (redex_queue n = []) then Some (Done (d, n, on_base (set_converged true) m))
    else if num_workers c =? 1 then
      '(n, bm) ←! run_single_worker reduce_fuel n c (base m);
      Some (Done (d, n, on_base (λ _, bm) m))
    else
      plan ←! Some (split_with_config n (num_workers c) (mkPartitionConfig true (recycle_under_delta c)));
      '(d, m, r) ←! run_grid_delta_inner fuel plan c d m;
      match r with
      | inl n => Some (Done (d, n, m))
      | inr _ => Some (Done (d, NetCore.new, on_base (set_converged false) m))
      end.

(** [None] for the dispatch is a caller's error. *)
Definition run_grid_entry (fuel reduce_fuel : nat) (n : Net) (c : GridConfig) (d : option D)
    : fueled (option D * Net * DeltaMetrics) :=
  if delta_mode c then
    d ←! Some (unwrap d);
    '(d, n, m) ←! run_grid_delta fuel reduce_fuel n c d;
    Some (Done (Some d, n, m))
  else
    '(n, m) ←! run_grid order fuel reduce_fuel n c;
    Some (Done (d, n, mkDeltaMetrics m false None)).

End delta.
