(* ===== verification/Worker.v ===== *)
(** The worker (worker.rs): the push-mode state machine, the handlers of the
    delta protocol and the pull-mode machine. *)
From S2P Require Import Prelude NetTypes NetCore Reduction Partition BorderGraph BorderResolver Merge Grid.
Local Open Scope N_scope.

Module Worker.

(** ** Data

    Strings are sequences of Unicode scalar values. *)

Inductive WorkerState : Type :=
| Init | Idle | Reducing | Returning | Error | Done_ | DeltaIdle | DeltaActive.

#[export] Instance WorkerState_eq_dec : EqDecision WorkerState.
Proof. solve_decision. Defined.

Inductive WorkerEvent : Type :=
| Connected
| ReceivePartition (p : Partition)
| ReductionComplete (p : Partition)
| SendComplete
| Shutdown
| ReductionError (msg : list N)
| ConnectionLost.

(** border_graph.rs: a rewiring ordered by the coordinator. *)
Record LocalReconnection : Type := mkReconnection { lr_agent_id : AgentId; lr_port : PortId; lr_new_target : PortRef }.

(** protocol/error.rs: what the worker rejects in a commutation request. *)
Inductive MalformedLocalWiringReason : Type :=
| SrcSlotOutOfRange (src_slot symbol_count : N)
| SrcPortOutOfRange (src_slot src_port : N)
| TargetSiblingOutOfRange (sibling_slot symbol_count : N)
| DuplicateSourcePort (src_slot src_port : N)
| ReservedForFuture (border_id : N)
| ZeroArity.

(** error.rs, with the one protocol error the worker builds. *)
Inductive WorkerError : Type :=
| MalformedLocalWiring (request_id : N) (reason : MalformedLocalWiringReason)
| ReductionFailed (msg : list N)
| IdRangeExhausted (request_id : N).

(** The messages the worker sends. *)
Inductive Message : Type :=
| PartitionResult (round : N) (partition : Partition) (stats : WorkerRoundStats)
| ErrorMessage (round worker_id : N) (description : list N)
| RoundResult (round : N) (border_deltas : list BorderDelta) (stats : WorkerRoundStats)
    (has_border_activity : bool) (minted_agents : list MintedAgent)
| FinalStateResult (round : N) (partition : Partition).

Inductive WorkerAction : Type :=
| SendMessage (m : Message)
| CloseConnection
| ShutdownSelf
| LogTransition (from to : WorkerState)
| ErrorAction (e : WorkerError).

Record WorkerDeltaState : Type := mkDeltaState {
  partition : Partition;
  previous_border_state : gmap N PortRef;
  ds_round : N;
}.

Definition from_initial_partition (p : Partition) : WorkerDeltaState :=
  mkDeltaState p (free_port_index p) 0.

Record WorkerContext : Type := mkContext {
  state : WorkerState;
  round : N;
  delta_state : option WorkerDeltaState;
}.

Definition new : WorkerContext := mkContext Init 0 None.

(** ** The push-mode machine *)

Definition set_state (s : WorkerState) (c : WorkerContext) : WorkerContext := mkContext s (round c) (delta_state c).

Definition transition (c : WorkerContext) (e : WorkerEvent) : WorkerContext * list WorkerAction :=
  let log s := LogTransition (state c) s in
  match state c, e with
  | Init, Connected => (set_state Idle c, [log Idle])
  | Idle, ReceivePartition _ => (set_state Reducing c, [log Reducing])
  | Reducing, ReductionComplete p =>
      (set_state Returning c,
       [SendMessage (PartitionResult (round c) p
          (mkWorkerStats (worker_id p) 0 (count_live_agents (subnet p)) 0 (replicate 6 0) false false));
        log Returning])
  | Returning, SendComplete => (set_state Idle c, [log Idle])
  | Idle, Shutdown => (set_state Done_ c, [CloseConnection; log Done_])
  | Reducing, ReductionError msg => (set_state Error c, [SendMessage (ErrorMessage (round c) 0 msg); log Error])
  | _, ConnectionLost => (set_state Error c, [log Error; ShutdownSelf])
  | _, _ => (c, [])
  end.

(** ** The delta protocol *)

Definition handle_initial_partition (c : WorkerContext) (rnd : N) (p : Partition)
    : WorkerContext * list WorkerAction :=
  (mkContext DeltaIdle 0 (Some (from_initial_partition p)), [LogTransition (state c) DeltaIdle]).

(** One agent per requested symbol, in slot order. *)
Definition mint (n : Net) (syms : list Symbol) : outcome (Net * list AgentId) :=
  fold_outcome (λ acc s, '(n, id) ← create_agent acc.1 s; mret (n, acc.2 ++ [id])) (n, []) syms.

(** The first repeated source port. *)
Fixpoint first_duplicate (seen : gset (N * N)) (hints : list LocalWiringHint) : option (N * N) :=
  match hints with
  | [] => None
  | h :: hints =>
      if bool_decide ((src_slot h, src_port h) ∈ seen) then Some (src_slot h, src_port h)
      else first_duplicate ({[(src_slot h, src_port h)]} ∪ seen) hints
  end.

(** The wire a hint stands for: slot markers become minted ids, other agent
    ports are passed through (a dead target is only logged). *)
Definition hint_wire (syms : list Symbol) (minted : list AgentId) (h : LocalWiringHint)
    : outcome ((PortRef * PortRef) + MalformedLocalWiringReason) :=
  let count := N.of_nat (length syms) in
  if count <=? src_slot h then mret (inr (SrcSlotOutOfRange (src_slot h) (count mod 256)))
  else
    src_symbol ← unwrap (syms !! N.to_nat (src_slot h));
    if total_ports src_symbol <=? src_port h then mret (inr (SrcPortOutOfRange (src_slot h) (src_port h)))
    else
      src ← unwrap (minted !! N.to_nat (src_slot h));
      let source := AgentPort src (src_port h) in
      match hint_target h with
      | AgentPort x p =>
          if SLOT_MARKER_BASE <=? x then
            let slot_idx := x - SLOT_MARKER_BASE in
            if count <=? slot_idx then mret (inr (TargetSiblingOutOfRange (slot_idx mod 256) (count mod 256)))
            else id ← unwrap (minted !! N.to_nat slot_idx); mret (inl (source, AgentPort id p))
          else mret (inl (source, AgentPort x p))
      | FreePort bid => mret (inr (ReservedForFuture bid))
      end.

(** The wire loop stops at the first malformed hint. *)
Fixpoint wire_hints (syms : list Symbol) (minted : list AgentId) (n : Net) (hints : list LocalWiringHint)
    : outcome (Net * option MalformedLocalWiringReason) :=
  match hints with
  | [] => mret (n, None)
  | h :: hints =>
      r ← hint_wire syms minted h;
      match r with
      | inl w => wire_hints syms minted (connect n w.1 w.2) hints
      | inr e => mret (n, Some e)
      end
  end.

(** One echo per slot; the slot is a [u8]. *)
Definition echo (request_id : N) (k : nat) (id : AgentId) : outcome MintedAgent :=
  let '(cid, base_slot) := decode_request_id request_id in
  if N.of_nat k <? 256 then
    mret (mkMinted (encode_request_id cid ((base_slot + N.of_nat k) mod 256)) id)
  else Panic.

Definition echo_all (request_id : N) (minted : list AgentId) (buffer : list MintedAgent) : outcome (list MintedAgent) :=
  fold_outcome (λ buf e, m ← echo request_id e.1 e.2; mret (buf ++ [m])) buffer (imap pair minted).

Definition apply_pending_commutation (n : Net) (pc : PendingCommutation) (buffer : list MintedAgent)
    : outcome (Net * (list MintedAgent + WorkerError)) :=
  let fail n r := mret (n, inr (MalformedLocalWiring (pc_request_id pc) r)) in
  if bool_decide (pc_target_symbols pc = []) then fail n ZeroArity
  else
    '(n, minted) ← mint n (pc_target_symbols pc);
    match first_duplicate ∅ (pc_local_wiring pc) with
    | Some (s, p) => fail n (DuplicateSourcePort s p)
    | None =>
        '(n, e) ← wire_hints (pc_target_symbols pc) minted n (pc_local_wiring pc);
        match e with
        | Some r => fail n r
        | None => buffer ← echo_all (pc_request_id pc) minted buffer; mret (n, inl buffer)
        end
    end.

(** A reconnection of a port to itself is skipped. *)
Definition apply_reconnection (n : Net) (lr : LocalReconnection) : Net :=
  let local := AgentPort (lr_agent_id lr) (lr_port lr) in
  if bool_decide (lr_new_target lr = local) then n else connect n local (lr_new_target lr).

(** The commutation loop; the range test precedes each request. *)
Fixpoint fulfil (p : Partition) (buffer : list MintedAgent) (pcs : list PendingCommutation)
    : outcome (Partition * (list MintedAgent + WorkerError)) :=
  match pcs with
  | [] => mret (p, inl buffer)
  | pc :: pcs =>
      if range_end (p_id_range p) <=? next_id (subnet p) then mret (p, inr (IdRangeExhausted (pc_request_id pc)))
      else
        '(n, r) ← apply_pending_commutation (subnet p) pc buffer;
        match r with
        | inl buffer => fulfil (with_subnet n p) buffer pcs
        | inr e => mret (with_subnet n p, inr e)
        end
  end.

(** The coordinator's changes, before any reduction. *)
Definition prepare (p : Partition) (deltas : list BorderDelta) (resolved : list N) (new_borders : list (N * PortRef))
    (reconnections : list LocalReconnection) : Partition :=
  let p := apply_border_deltas_to_partition p deltas resolved new_borders in
  with_subnet (foldl apply_reconnection (subnet p) reconnections) p.

Definition handle_round_start (fuel : nat) (c : WorkerContext) (rnd : N) (deltas : list BorderDelta)
    (resolved : list N) (new_borders : list (N * PortRef)) (reconnections : list LocalReconnection)
    (pcs : list PendingCommutation) : fueled (WorkerContext * list WorkerAction) :=
  st ←! Some (unwrap (delta_state c));
  '(p, r) ←! Some (fulfil (prepare (partition st) deltas resolved new_borders reconnections) [] pcs);
  match r with
  | inr e =>
      Some (Done (mkContext (state c) (round c) (Some (mkDeltaState p (previous_border_state st) (ds_round st))),
                  [LogTransition (state c) (state c); ErrorAction e]))
  | inl minted =>
      let before := count_live_agents (subnet p) in
      '(n, stats) ←! reduce_all fuel (subnet p);
      let index := rebuild_free_port_index n (border_id_start p) (border_id_end p) in
      let p := with_index index (with_subnet n p) in
      let activity := compute_border_activity p in
      let ws := mkWorkerStats (worker_id p) before (count_live_agents n) (total_interactions stats)
                  (interactions_by_rule stats) activity false in
      Some (Done (mkContext DeltaActive rnd (Some (mkDeltaState p index rnd)),
                  [LogTransition (state c) DeltaActive;
                   SendMessage (RoundResult rnd (compute_outgoing_deltas (previous_border_state st) index)
                                  ws activity minted)]))
  end.

Definition handle_final_state_request (c : WorkerContext) (rnd : N) : outcome (WorkerContext * list WorkerAction) :=
  st ← unwrap (delta_state c);
  mret (mkContext Returning rnd None,
        [LogTransition (state c) Returning; SendMessage (FinalStateResult rnd (partition st))]).

(** ** The pull-mode machine *)

Inductive WorkerPullState : Type := AwaitingChunkAfterResult | FinalReduction.

#[export] Instance WorkerPullState_eq_dec : EqDecision WorkerPullState.
Proof. solve_decision. Defined.

Inductive WorkerPullEvent : Type :=
| ChunkReductionComplete (worker_id : N)
| AssignPartitionReceived (worker_id : N)
| NoMoreWorkReceived
| FinalReductionComplete
| UnexpectedAssignPartition.

(** The error carries the printed state (and event). *)
Inductive WorkerPullError : Type :=
| UnexpectedMessage (state : WorkerPullState) (event : option WorkerPullEvent).

(** The counters are [u32]. *)
Record WorkerPullContext : Type := mkPullContext {
  pull_state : WorkerPullState;
  pull_worker_id : N;
  pull_streaming : bool;
  dispatch_mode_pull : bool;
  request_work_count : N;
  merge_attempted : bool;
  final_results_sent : N;
}.

Definition pull_new (worker_id : N) : WorkerPullContext :=
  mkPullContext AwaitingChunkAfterResult worker_id false true 0 false 0.

Definition try_transition (c : WorkerPullContext) (e : WorkerPullEvent) : WorkerPullContext + WorkerPullError :=
  let mk s str rw fr := inl (mkPullContext s (pull_worker_id c) str (dispatch_mode_pull c) rw (merge_attempted c) fr) in
  match pull_state c, e with
  | AwaitingChunkAfterResult, AssignPartitionReceived _ =>
      mk AwaitingChunkAfterResult true (request_work_count c) (final_results_sent c)
  | AwaitingChunkAfterResult, NoMoreWorkReceived =>
      mk FinalReduction (pull_streaming c) (request_work_count c) (final_results_sent c)
  | AwaitingChunkAfterResult, ChunkReductionComplete _ =>
      mk AwaitingChunkAfterResult (pull_streaming c) (u32_succ (request_work_count c)) (final_results_sent c)
  | FinalReduction, FinalReductionComplete =>
      mk FinalReduction false (request_work_count c) (u32_succ (final_results_sent c))
  | s, UnexpectedAssignPartition => inr (UnexpectedMessage s None)
  | s, e => inr (UnexpectedMessage s (Some e))
  end.

Definition with_streaming (b : bool) (n : Net) : Net :=
  mkNet (agents n) (ports n) (redex_queue n) (next_id n) (root n) (freeport_redirects n)
    (free_list n) (id_range n) (border_entries_shadow n) (recycle_policy n) (is_in_delta_round n)
    b (debug_fields n).

Definition enter_streaming_mode (n : Net) : Net := with_streaming true n.
Definition exit_streaming_mode (n : Net) : Net := with_streaming false n.

Definition try_transition_with_net (c : WorkerPullContext) (e : WorkerPullEvent) (n : Net)
    : (WorkerPullContext * Net) + WorkerPullError :=
  match try_transition c e with
  | inr err => inr err
  | inl c' =>
      inl (c', match pull_streaming c, pull_streaming c' with
               | false, true => enter_streaming_mode n
               | true, false => exit_streaming_mode n
               | _, _ => n
               end)
  end.

End Worker.
