(* ===== verification/DeltaSpec.v ===== *)
(** The two-phase commutation of the delta protocol: the coordinator's
    resolution of a border redex, the workers' minting and wiring, and the
    coordinator's registration of the minted agents produce together the wires
    of the interaction rule. *)
From S2P Require Import Prelude NetTypes NetCore NetInv NetDebug Reduction ReductionInv Partition.
From S2P Require Import BorderGraph BorderSpec BorderResolver Split Merge Grid Worker.
Local Open Scope N_scope.
Open Scope net_scope.

(** ** Minting *)

Definition minted_agents (syms : list Symbol) (ids : list AgentId) : list Agent := zip_with mkAgent syms ids.

Lemma mint_gen syms n0 n done_syms done_ids :
  wf n0 → spawned n0 (rev (minted_agents done_syms done_ids)) n → length done_ids = length done_syms →
  next_id n + N.of_nat (length syms) ≤ u32_MAX →
  ∃ n' ids, fold_outcome (λ acc s, '(n, id) ← create_agent acc.1 s; mret (n, acc.2 ++ [id]))
      (n, done_ids) syms = Done (n', done_ids ++ ids) ∧
    length ids = length syms ∧ spawned n0 (rev (minted_agents (done_syms ++ syms) (done_ids ++ ids))) n'.
Proof.
  intros Hwf0. revert n done_syms done_ids. induction syms as [|s syms IH]; intros n ds di Hs Hl Hroom.
  { exists n, []. cbn. by rewrite !app_nil_r. }
  cbn [length] in Hroom.
  destruct (create_agent_total n s) as (n1 & id & Hc); [lia|].
  pose proof (spawned_cons _ _ _ _ _ _ Hs Hc) as Hs1.
  pose proof (cr_next _ _ _ _ (create_agent_spec n s n1 id (sp_wf _ _ _ Hs) Hc)) as Hnx.
  assert (Hz : mkAgent s id :: rev (minted_agents ds di) = rev (minted_agents (ds ++ [s]) (di ++ [id]))).
  { unfold minted_agents. rewrite zip_with_app by done. by rewrite rev_app_distr. }
  rewrite Hz in Hs1.
  destruct (IH n1 (ds ++ [s]) (di ++ [id]) Hs1) as (n2 & ids & Hf & Hlen & Hsp);
    [rewrite !length_app; cbn; lia|lia|].
  exists n2, (id :: ids). cbn [fold_outcome fst snd]. rewrite Hc. cbn [mbind outcome_bind mret outcome_ret].
  rewrite Hf, <- !app_assoc. split; [done|]. split; [cbn; lia|]. by rewrite <- !app_assoc in Hsp.
Qed.

Lemma mint_spec syms n :
  wf n → next_id n + N.of_nat (length syms) ≤ u32_MAX →
  ∃ n' ids, Worker.mint n syms = Done (n', ids) ∧ length ids = length syms ∧
    spawned n (rev (minted_agents syms ids)) n'.
Proof. intros Hwf Hroom. exact (mint_gen syms n n [] [] Hwf (spawned_nil n Hwf) eq_refl Hroom). Qed.

(** ** Wiring *)

(** The hint decodes to a wire. *)
Definition hint_ok (syms : list Symbol) (ids : list AgentId) (h : LocalWiringHint) (w : Wire) : Prop :=
  Worker.hint_wire syms ids h = Done (inl w).

Lemma wire_hints_plug syms ids n hints ws :
  Forall2 (hint_ok syms ids) hints ws → Worker.wire_hints syms ids n hints = Done (plug n ws, None).
Proof.
  intros H. revert n. induction H as [|h w hints ws Hh _ IH]; intros n; [done|].
  cbn [Worker.wire_hints]. rewrite Hh. cbn [mbind outcome_bind]. by rewrite IH.
Qed.

Definition hint_src (h : LocalWiringHint) : N * N := (src_slot h, src_port h).

Lemma first_duplicate_None seen hints :
  Worker.first_duplicate seen hints = None ↔
    NoDup (hint_src <$> hints) ∧ ∀ h, h ∈ hints → hint_src h ∉ seen.
Proof.
  revert seen. induction hints as [|h hints IH]; intros seen; cbn [Worker.first_duplicate].
  { split; [|done]. split; [constructor|set_solver]. }
  case_bool_decide as Hs; fold (hint_src h) in Hs.
  - split; [done|]. intros [_ H]. exfalso. by apply (H h); [set_solver|].
  - rewrite IH. fold (hint_src h). rewrite fmap_cons, NoDup_cons. split.
    + intros [Hnd Hd]. split.
      * split; [|done]. intros (h' & E & Hh')%list_elem_of_fmap.
        apply (Hd h' Hh'), elem_of_union_l, elem_of_singleton. done.
      * intros h' [->|Hh']%elem_of_cons; [done|]. intros Hx. by apply (Hd h' Hh'), elem_of_union_r.
    + intros [[Hni Hnd] Hd]. split; [done|]. intros h' Hh' [Hx%elem_of_singleton|Hx]%elem_of_union.
      * apply Hni. rewrite <- Hx. by apply list_elem_of_fmap_2.
      * apply (Hd h'); [|done]. by apply elem_of_cons; right.
Qed.

(** The echoes of one request. *)
Lemma echo_all_spec request_id ids buffer :
  N.of_nat (length ids) ≤ 16 - (decode_request_id request_id).2 → (decode_request_id request_id).2 < 16 →
  Worker.echo_all request_id ids buffer = Done (buffer ++ imap (λ k id,
    mkMinted (encode_request_id (decode_request_id request_id).1
      ((decode_request_id request_id).2 + N.of_nat k)) id) ids).
Proof.
  destruct (decode_request_id request_id) as [cid base] eqn:Ed. cbn [fst snd]. intros Hl Hb.
  unfold Worker.echo_all. set (f := λ k id, mkMinted (encode_request_id cid (base + N.of_nat k)) id).
  assert (Hg : ∀ l k buf, N.of_nat (k + length l) ≤ 16 - base →
    fold_outcome (λ buf e, m ← Worker.echo request_id e.1 e.2; mret (buf ++ [m])) buf (imap (λ i x, (k + i, x)%nat) l) =
      Done (buf ++ imap (λ i x, f (k + i)%nat x) l)).
  { assert (Hi : ∀ B (g : nat → N → B) k x l,
      imap (λ i x, g (k + i)%nat x) (x :: l) = g k x :: imap (λ i x, g (S k + i)%nat x) l).
    { intros B g k x l. cbn. rewrite Nat.add_0_r. f_equal. apply imap_ext. intros. cbn. f_equal. lia. }
    induction l as [|id l IH]; intros k buf Hk; [by rewrite app_nil_r|].
    rewrite (Hi _ (λ i x, (i, x))), (Hi _ f). cbn [length fold_outcome fst snd] in *.
    unfold Worker.echo at 1. rewrite Ed. destruct (N.ltb_spec (N.of_nat k) 256); [|lia].
    cbn [mbind outcome_bind mret outcome_ret]. rewrite N.mod_small by lia. fold (f k id).
    rewrite IH by lia. by rewrite <- app_assoc. }
  rewrite (imap_ext pair (λ i x, (0 + i, x)%nat)) by done. by apply Hg.
Qed.

(** A request whose hints all decode is carried out. *)
Lemma apply_pending_ok n cid syms hints ws buffer :
  wf n → syms ≠ [] → (length syms ≤ 16)%nat → cid < 2 ^ 28 → next_id n + N.of_nat (length syms) ≤ u32_MAX →
  NoDup (hint_src <$> hints) →
  (∀ ids, length ids = length syms → Forall2 (hint_ok syms ids) hints (ws ids)) →
  ∃ n1 ids, Worker.mint n syms = Done (n1, ids) ∧ length ids = length syms ∧
    spawned n (rev (minted_agents syms ids)) n1 ∧
    Worker.apply_pending_commutation n (mkPendingCommutation (encode_request_id cid 0) syms hints) buffer =
      Done (plug n1 (ws ids), inl (buffer ++ imap (λ k id, mkMinted (encode_request_id cid (N.of_nat k)) id) ids)).
Proof.
  intros Hwf Hne Hlen Hcid Hroom Hnd Hok.
  destruct (mint_spec syms n Hwf Hroom) as (n1 & ids & Hm & Hl & Hsp). exists n1, ids. split; [done|].
  split; [done|]. split; [done|].
  destruct (proj1 request_id_codec cid 0 Hcid ltac:(done)) as [_ Hdec].
  unfold Worker.apply_pending_commutation. cbn [pc_target_symbols pc_local_wiring pc_request_id].
  rewrite bool_decide_false by done. rewrite Hm. cbn [mbind outcome_bind].
  rewrite (proj2 (first_duplicate_None ∅ hints)) by (split; [done|set_solver]).
  rewrite (wire_hints_plug _ _ _ _ (ws ids)) by (by apply Hok). cbn [mbind outcome_bind].
  rewrite echo_all_spec by (rewrite Hdec; cbn [snd]; lia). by rewrite Hdec.
Qed.

(** ** Registration in two steps *)

Lemma promoted_split {c1 c2 : gmap (N * N) AgentId} (l : list PendingNewBorder) :
  (∀ b e, b ∈ l → Border.resolve_border c1 b = Some e → Border.resolve_border c2 b = Some e) →
  omap (Border.resolve_border c1) l ++
    omap (Border.resolve_border c2) (filter (λ b, Border.resolve_border c1 b = None) l) ≡ₚ
  omap (Border.resolve_border c2) l.
Proof.
  induction l as [|b l IH]; intros H; [done|]. cbn [omap list_omap].
  assert (IH' := IH (λ b e Hb, H b e (list_elem_of_further _ _ _ Hb))). clear IH.
  destruct (Border.resolve_border c1 b) as [e|] eqn:E.
  - rewrite filter_cons_False by congruence. rewrite (H b e) by (done || set_solver). cbn. by rewrite IH'.
  - rewrite filter_cons_True by done. cbn [omap list_omap].
    destruct (Border.resolve_border c2 b) as [e|]; [|done]. by rewrite <- Permutation_middle, IH'.
Qed.

Lemma omap_resolve_ids c (l : list PendingNewBorder) :
  (∀ b, b ∈ l → is_Some (Border.resolve_border c b)) →
  e_border_id <$> omap (Border.resolve_border c) l = n_border_id <$> l.
Proof.
  induction l as [|b l IH]; intros H; [done|]. cbn [omap list_omap].
  destruct (H b) as [e He]; [set_solver|]. rewrite He. destruct (resolve_border_id c b e He) as [Hid _].
  cbn. rewrite Hid. f_equal. apply IH. set_solver.
Qed.

(** All the mints of a request are expected by the queue. *)
Definition expected (ms : list MintedAgent) (l : list PendingNewBorder) : Prop :=
  ∀ m, m ∈ ms → ∃ b, b ∈ l ∧
    (Border.pending_port_matches (n_side_a b) (decode_request_id (request_id m)).1 (decode_request_id (request_id m)).2 ||
     Border.pending_port_matches (n_side_b b) (decode_request_id (request_id m)).1 (decode_request_id (request_id m)).2) = true.

Lemma expected_found ms g : expected ms (pending_new_borders g) →
  find (λ m, negb (Border.matches_outstanding g m)) ms = None.
Proof.
  intros H. destruct (find _ ms) as [m|] eqn:E; [|done]. apply find_some in E as [Hin Hneg].
  apply list_elem_of_In in Hin. destruct (H m Hin) as (b & Hb & Hm).
  apply negb_true_iff, not_true_iff_false in Hneg. destruct Hneg. unfold Border.matches_outstanding.
  destruct (decode_request_id (request_id m)) as [c s]. apply existsb_exists. exists b.
  by split; [apply list_elem_of_In|].
Qed.

(** The entries two registrations promote, when together they name every
    agent the queue waits for. *)
Lemma two_registrations w1 w2 m1 m2 g P c1 c2 :
  pending_new_borders g = P →
  foldl Border.record_mint (resolved_mints g) m1 = c1 → foldl Border.record_mint c1 m2 = c2 →
  (∀ b e, b ∈ P → Border.resolve_border c1 b = Some e → Border.resolve_border c2 b = Some e) →
  (∀ b, b ∈ P → is_Some (Border.resolve_border c2 b)) →
  NoDup (n_border_id <$> P) →
  (∀ b, b ∈ P → (N.to_nat (n_worker_a b) < length (worker_borders g))%nat ∧
                (N.to_nat (n_worker_b b) < length (worker_borders g))%nat) →
  expected m1 P → expected m2 (filter (λ b, Border.resolve_border c1 b = None) P) →
  ∃ g2 g3 es1 es2,
    Border.register_minted_agents w1 m1 g = Done (g2, inl ((λ e, (e_border_id e, Border.entry_state e)) <$> es1)) ∧
    Border.register_minted_agents w2 m2 g2 = Done (g3, inl ((λ e, (e_border_id e, Border.entry_state e)) <$> es2)) ∧
    es1 ++ es2 ≡ₚ omap (Border.resolve_border c2) P ∧ pending_new_borders g3 = [] ∧
    ∀ e, e ∈ es1 ++ es2 → borders g3 !! e_border_id e = Some (Border.entry_state e).
Proof.
  intros <- <- <- Hmono Hall Hnd Hw He1 He2. set (P := pending_new_borders g) in *.
  set (c1 := foldl Border.record_mint (resolved_mints g) m1) in *. set (c2 := foldl Border.record_mint c1 m2) in *.
  pose proof (promoted_split P Hmono) as Hperm.
  assert (Hnd' : NoDup (e_border_id <$> omap (Border.resolve_border c1) P ++
      omap (Border.resolve_border c2) (filter (λ b, Border.resolve_border c1 b = None) P)))
    by (by rewrite Hperm, omap_resolve_ids).
  rewrite fmap_app in Hnd'. apply NoDup_app in Hnd' as (Hnd1 & Hdis & Hnd2).
  destruct (register_total w1 m1 g (expected_found _ _ He1) Hnd1 Hw) as (g2 & H2 & P2 & M2 & L2 & In2 & Out2).
  fold P c1 in P2, M2.
  destruct (register_total w2 m2 g2) as (g3 & H3 & P3 & _ & _ & In3 & Out3).
  - apply expected_found. by rewrite P2.
  - by rewrite P2, M2.
  - intros b Hb. rewrite P2 in Hb. apply list_elem_of_filter in Hb as [_ Hb]. rewrite L2. by apply Hw.
  - rewrite P2, M2 in *. eexists g2, g3, _, _. do 2 (split; [done|]). split; [done|]. split.
    + rewrite P3. apply elem_of_nil_inv. intros b [Hb1 [_ Hb2]%list_elem_of_filter]%list_elem_of_filter.
      destruct (Hall b Hb2) as [? ?]. fold c2 in Hb1. congruence.
    + intros e [He|He]%elem_of_app.
      * rewrite Out3; [by apply In2|]. apply Hdis. by apply list_elem_of_fmap_2.
      * by apply In3.
Qed.

(** ** What the resolver emits for an outside wire *)

(** Exactly one of the two is not empty. *)
Definition ext_wiring (t : PortRef) (home wk slot : N) : list (N * N * PortRef) :=
  match t with AgentPort _ _ => if wk =? home then [(slot, 0, t)] else [] | FreePort _ => [] end.
Definition ext_pending (t : PortRef) (home cid slot wk bid : N) : list PendingNewBorder :=
  let b := mkPending bid (Pending cid slot 0) (Concrete t) wk home in
  match t with AgentPort _ _ => if wk =? home then [] else [b] | FreePort _ => [b] end.

(** The same as wires of the minted agent. *)
Definition ext_wires (t : PortRef) (home wk id : N) : list Wire :=
  match t with AgentPort _ _ => if wk =? home then [(AgentPort id 0, t)] else [] | FreePort _ => [] end.
Definition ext_borders (t : PortRef) (home wk id : N) : list Wire :=
  match t with AgentPort _ _ => if wk =? home then [] else [(AgentPort id 0, t)] | FreePort _ => [(AgentPort id 0, t)] end.

Lemma ext_split t home wk id : ext_wires t home wk id ++ ext_borders t home wk id = [(AgentPort id 0, t)].
Proof. unfold ext_wires, ext_borders. destruct t; [by destruct (wk =? home)|done]. Qed.

Lemma emit_spec t home cid slot wk w p next :
  next < u32_MAX →
  emit_external_principal t home cid slot wk (w, p, next) =
    Done (w ++ ext_wiring t home wk slot, p ++ ext_pending t home cid slot wk next,
          next + N.of_nat (length (ext_pending t home cid slot wk next))).
Proof.
  intros Hn. unfold emit_external_principal, ext_wiring, ext_pending, border_alloc_next.
  destruct t; [destruct (wk =? home)|]; destruct (N.ltb_spec next u32_MAX); try lia; cbn; by rewrite ?app_nil_r, ?N.add_0_r.
Qed.

(** A concrete target is never read as a slot marker. *)
Definition unmarked (t : PortRef) : Prop :=
  match t with AgentPort x _ => x < SLOT_MARKER_BASE | FreePort _ => True end.

Definition to_hint (w : N * N * PortRef) : LocalWiringHint := mkHint w.1.1 w.1.2 w.2.

Lemma ext_hint_ok syms ids t home wk slot id sym :
  unmarked t → syms !! N.to_nat slot = Some sym → ids !! N.to_nat slot = Some id →
  Forall2 (hint_ok syms ids) (to_hint <$> ext_wiring t home wk slot) (ext_wires t home wk id).
Proof.
  intros Hu Hs Hi. unfold ext_wiring, ext_wires. destruct t as [x p|]; [|constructor].
  destruct (wk =? home); [|constructor]. constructor; [|constructor].
  apply lookup_lt_Some in Hs as Hlt. unfold hint_ok, Worker.hint_wire, to_hint. cbn [src_slot src_port hint_target fst snd].
  destruct (N.leb_spec (N.of_nat (length syms)) slot); [lia|]. rewrite Hs. cbn [unwrap mbind outcome_bind].
  pose proof (total_ports_bounds sym). destruct (N.leb_spec (total_ports sym) 0); [lia|].
  rewrite Hi. cbn [unwrap mbind outcome_bind]. cbn [unmarked] in Hu.
  by destruct (N.leb_spec SLOT_MARKER_BASE x); [lia|].
Qed.

(** The wires of Lafont's commutation, between the outside targets of the
    constructor ([t1], [t2]) and of the duplicator ([u1], [u2]). *)
Definition commutation_wires (t1 t2 u1 u2 : PortRef) (p q r s : AgentId) : list Wire :=
  [(AgentPort p 0, t1); (AgentPort q 0, t2); (AgentPort r 0, u1); (AgentPort s 0, u2);
   (AgentPort p 1, AgentPort r 1); (AgentPort p 2, AgentPort s 1);
   (AgentPort q 1, AgentPort r 2); (AgentPort q 2, AgentPort s 2)].

(** They are those of the rule of the engine. *)
Lemma comm_wires_commutation n a b p q r s :
  comm_wires n a b p q r s = commutation_wires n.[a, 1] n.[a, 2] n.[b, 1] n.[b, 2] p q r s.
Proof. done. Qed.

(** *** Registered outside wires *)

Lemma cid_low28_small c : c < 2 ^ 28 → Border.cid_low28 c = c.
Proof. intros Hc. unfold Border.cid_low28. rewrite (N.mod_small c 4294967296) by lia. rewrite land_low28. by apply N.mod_small. Qed.

Lemma resolve_mono (c1 c2 : gmap (N * N) AgentId) b e :
  c1 ⊆ c2 → Border.resolve_border c1 b = Some e → Border.resolve_border c2 b = Some e.
Proof.
  intros Hc. assert (Hp : ∀ x y, Border.try_resolve_port_ref x c1 = Some y → Border.try_resolve_port_ref x c2 = Some y).
  { intros [x|cid k port] y; [done|]. cbn. destruct (c1 !! _) as [i|] eqn:E; [|done].
    by rewrite (lookup_weaken _ _ _ _ E Hc). }
  unfold Border.resolve_border. destruct (Border.try_resolve_port_ref (n_side_a b) c1) as [x|] eqn:Ea; [|done].
  destruct (Border.try_resolve_port_ref (n_side_b b) c1) as [y|] eqn:Eb; [|done].
  by rewrite (Hp _ _ Ea), (Hp _ _ Eb).
Qed.

Section ext_entries.
Context (c : gmap (N * N) AgentId) (t : PortRef) (home cid slot wk bid id : N).
Hypothesis Hcid : cid < 2 ^ 28.
Hypothesis Hid : c !! (cid, slot) = Some id.

Lemma ext_entries :
  (λ e, (e_side_a e, e_side_b e)) <$> omap (Border.resolve_border c) (ext_pending t home cid slot wk bid) =
    ext_borders t home wk id.
Proof.
  unfold ext_pending, ext_borders. destruct t; [destruct (wk =? home)|]; cbn [omap list_omap]; [done|..];
    unfold Border.resolve_border, Border.try_resolve_port_ref; cbn [n_side_a n_side_b];
    rewrite cid_low28_small by done; by rewrite Hid.
Qed.

Lemma ext_resolved b : b ∈ ext_pending t home cid slot wk bid → is_Some (Border.resolve_border c b).
Proof.
  intros H. assert (b = mkPending bid (Pending cid slot 0) (Concrete t) wk home) as ->.
  { unfold ext_pending in H. destruct t; [destruct (wk =? home)|]; set_solver. }
  unfold Border.resolve_border, Border.try_resolve_port_ref; cbn [n_side_a n_side_b].
  rewrite cid_low28_small, Hid by done. by eexists.
Qed.
End ext_entries.


(** ** The resolution *)

Section two_phase.
Context (t1 t2 u1 u2 : PortRef) (wc wd nb nc : N).

Definition con_wiring : list (N * N * PortRef) :=
  ext_wiring t1 wc wc 0 ++ ext_wiring u1 wd wc 1 ++ [(0, 1, AgentPort (slot_marker 1) 1)].
Definition dup_wiring : list (N * N * PortRef) :=
  ext_wiring t2 wc wd 0 ++ ext_wiring u2 wd wd 1 ++ [(0, 2, AgentPort (slot_marker 1) 2)].

Definition next_bid (t : PortRef) (home wk bid : N) : N := bid + N.of_nat (length (ext_pending t home 0 0 wk bid)).
Definition bid1 := next_bid t1 wc wc nb.
Definition bid2 := next_bid t2 wc wd bid1.
Definition bid3 := next_bid u1 wd wc bid2.
Definition bid4 := next_bid u2 wd wd bid3.

Definition inner_1 : PendingNewBorder := mkPending bid4 (Pending nc 0 2) (Pending (nc + 1) 1 1) wc wd.
Definition inner_2 : PendingNewBorder := mkPending (bid4 + 1) (Pending (nc + 1) 0 1) (Pending nc 1 2) wd wc.

Definition queue : list PendingNewBorder :=
  ext_pending t1 wc nc 0 wc nb ++ ext_pending t2 wc (nc + 1) 0 wd bid1 ++
  ext_pending u1 wd nc 1 wc bid2 ++ ext_pending u2 wd (nc + 1) 1 wd bid3 ++ [inner_1; inner_2].

Lemma next_bid_eq t home cid slot wk bid :
  bid + N.of_nat (length (ext_pending t home cid slot wk bid)) = next_bid t home wk bid.
Proof. unfold next_bid, ext_pending. destruct t; [by destruct (wk =? home)|done]. Qed.

Lemma next_bid_bounds t home wk bid : bid ≤ next_bid t home wk bid ≤ bid + 1.
Proof. unfold next_bid, ext_pending. destruct t; [destruct (wk =? home)|]; cbn; lia. Qed.

Lemma bids_bounds : nb ≤ bid1 ≤ nb + 1 ∧ bid1 ≤ bid2 ≤ bid1 + 1 ∧ bid2 ≤ bid3 ≤ bid2 + 1 ∧ bid3 ≤ bid4 ≤ bid3 + 1.
Proof. split_and!; apply next_bid_bounds. Qed.

Lemma resolve_con_dup_spec st pc pd ic id :
  nb + 6 ≤ u32_MAX → nc + 2 ≤ u64_MAX →
  aux_targets pc ic = (t1, t2) → aux_targets pd id = (u1, u2) →
  resolve_con_dup st pc pd ic id wc wd nb nc =
    Done (mkResolution [] (resolved_of st) []
            [mkBatch nc wc [Dup; Con] con_wiring; mkBatch (nc + 1) wd [Dup; Con] dup_wiring] queue,
          bid4 + 2, nc + 2).
Proof.
  intros Hnb Hnc H1 H2. pose proof bids_bounds. unfold resolve_con_dup. rewrite H1, H2. unfold commutation_alloc_next.
  destruct (N.eqb_spec nc u64_MAX); [lia|]. cbn [mbind outcome_bind].
  destruct (N.eqb_spec (nc + 1) u64_MAX); [lia|]. cbn [mbind outcome_bind].
  rewrite emit_spec, next_bid_eq by lia. fold bid1. cbn [mbind outcome_bind].
  rewrite emit_spec, next_bid_eq by lia. fold bid2. cbn [mbind outcome_bind].
  rewrite emit_spec, next_bid_eq by lia. fold bid3. cbn [mbind outcome_bind].
  rewrite emit_spec, next_bid_eq by lia. fold bid4. cbn [mbind outcome_bind].
  unfold border_alloc_next. destruct (N.ltb_spec bid4 u32_MAX); [|lia]. cbn [mbind outcome_bind].
  destruct (N.ltb_spec (bid4 + 1) u32_MAX); [|lia]. cbn [mbind outcome_bind mret outcome_ret].
  unfold con_wiring, dup_wiring, queue. rewrite <- !app_assoc, !app_nil_l.
  replace (bid4 + 2) with (bid4 + 1 + 1) by lia. by replace (nc + 2) with (nc + 1 + 1) by lia.
Qed.

Lemma queue_ids : NoDup (n_border_id <$> queue).
Proof.
  unfold queue, inner_1, inner_2. pose proof bids_bounds as HB. revert HB.
  unfold bid4, bid3, bid2, bid1, next_bid, ext_pending.
  destruct t1; [destruct (wc =? wc)|]; (destruct t2; [destruct (wd =? wc)|]);
    (destruct u1; [destruct (wc =? wd)|]); (destruct u2; [destruct (wd =? wd)|]); cbn; intros _;
    rewrite ?NoDup_cons, ?not_elem_of_cons; repeat split; try lia; try apply not_elem_of_nil; constructor.
Qed.

(** *** The worker of each batch *)

Definition con_wires (ids : list AgentId) : list Wire :=
  match ids with
  | [p; r] => ext_wires t1 wc wc p ++ ext_wires u1 wd wc r ++ [(AgentPort p 1, AgentPort r 1)]
  | _ => []
  end.
Definition dup_wires (ids : list AgentId) : list Wire :=
  match ids with
  | [q; s] => ext_wires t2 wc wd q ++ ext_wires u2 wd wd s ++ [(AgentPort q 2, AgentPort s 2)]
  | _ => []
  end.

Lemma con_hints_ok ids : unmarked t1 → unmarked u1 → length ids = 2%nat →
  Forall2 (hint_ok [Dup; Con] ids) (to_hint <$> con_wiring) (con_wires ids).
Proof.
  intros ? ? Hl. destruct ids as [|p [|r [|]]]; [done..| |done]. unfold con_wiring, con_wires. rewrite !fmap_app.
  apply Forall2_app; [by eapply ext_hint_ok|]. apply Forall2_app; [by eapply ext_hint_ok|]. by repeat constructor.
Qed.

Lemma dup_hints_ok ids : unmarked t2 → unmarked u2 → length ids = 2%nat →
  Forall2 (hint_ok [Dup; Con] ids) (to_hint <$> dup_wiring) (dup_wires ids).
Proof.
  intros ? ? Hl. destruct ids as [|p [|r [|]]]; [done..| |done]. unfold dup_wiring, dup_wires. rewrite !fmap_app.
  apply Forall2_app; [by eapply ext_hint_ok|]. apply Forall2_app; [by eapply ext_hint_ok|]. by repeat constructor.
Qed.

Lemma ext_src t home wk slot :
  hint_src <$> (to_hint <$> ext_wiring t home wk slot) = [] ∨ hint_src <$> (to_hint <$> ext_wiring t home wk slot) = [(slot, 0)].
Proof. unfold ext_wiring. destruct t; [destruct (wk =? home)|]; cbn; auto. Qed.

Lemma wiring_nodup a b home home' wk p t :
  0 < p → NoDup (hint_src <$> (to_hint <$> ext_wiring a home wk 0 ++ ext_wiring b home' wk 1 ++ [(0, p, t)])).
Proof.
  intros Hp. rewrite !fmap_app.
  destruct (ext_src a home wk 0) as [-> | ->], (ext_src b home' wk 1) as [-> | ->]; cbn;
    rewrite ?NoDup_cons, ?not_elem_of_cons; split_and?;
    try (apply NoDup_nil || apply not_elem_of_nil || (intros [= ?]; lia)); done.
Qed.

(** *** The coordinator, once both workers have answered *)

Context (p q r s : AgentId) (c0 : gmap (N * N) AgentId).
Hypothesis Hc0 : ∀ c k, is_Some (c0 !! (c, k)) → c < nc.

Definition cache_1 : gmap (N * N) AgentId := <[(nc, 1) := r]> (<[(nc, 0) := p]> c0).
Definition cache_2 : gmap (N * N) AgentId := <[(nc + 1, 1) := s]> (<[(nc + 1, 0) := q]> cache_1).

Lemma cache_1_lookup : cache_1 !! (nc, 0) = Some p ∧ cache_1 !! (nc, 1) = Some r ∧ ∀ k, cache_1 !! (nc + 1, k) = None.
Proof.
  unfold cache_1. split_and!; [by rewrite lookup_insert_ne, lookup_insert_eq|by rewrite lookup_insert_eq|].
  intros k. rewrite !lookup_insert_ne by (intros [= ? ?]; lia). apply eq_None_not_Some. intros H%Hc0. lia.
Qed.

Lemma cache_grows : cache_1 ⊆ cache_2.
Proof.
  destruct cache_1_lookup as (_ & _ & H). unfold cache_2. etrans; [by apply (insert_subseteq _ (nc + 1, 0) q)|].
  apply insert_subseteq. rewrite lookup_insert_ne; [done|]. by intros [= ?].
Qed.

Lemma cache_2_lookup :
  cache_2 !! (nc, 0) = Some p ∧ cache_2 !! (nc, 1) = Some r ∧
  cache_2 !! (nc + 1, 0) = Some q ∧ cache_2 !! (nc + 1, 1) = Some s.
Proof.
  destruct cache_1_lookup as (H1 & H2 & _). pose proof cache_grows.
  split_and!; [by eapply lookup_weaken..| |]; unfold cache_2;
    [by rewrite lookup_insert_ne, lookup_insert_eq|by rewrite lookup_insert_eq].
Qed.

Hypothesis Hcid : nc + 2 ≤ 2 ^ 28.

Lemma queue_resolved b : b ∈ queue → is_Some (Border.resolve_border cache_2 b).
Proof.
  destruct cache_2_lookup as (Hp & Hr & Hq & Hs). unfold queue. rewrite !elem_of_app, !elem_of_cons.
  intros [H|[H|[H|[H|[->|[->|H]]]]]]; [eapply ext_resolved; [..|exact H]; eassumption || lia..| | |by apply elem_of_nil in H];
    unfold Border.resolve_border, inner_1, inner_2, Border.try_resolve_port_ref; cbn [n_side_a n_side_b];
    rewrite !cid_low28_small by lia; rewrite ?Hp, ?Hr, ?Hq, ?Hs; by eexists.
Qed.

Lemma queue_borders :
  (λ e, (e_side_a e, e_side_b e)) <$> omap (Border.resolve_border cache_2) queue =
    ext_borders t1 wc wc p ++ ext_borders t2 wc wd q ++ ext_borders u1 wd wc r ++ ext_borders u2 wd wd s ++
    [(AgentPort p 2, AgentPort s 1); (AgentPort q 1, AgentPort r 2)].
Proof.
  destruct cache_2_lookup as (Hp & Hr & Hq & Hs). unfold queue.
  rewrite !omap_app, !fmap_app. rewrite !(ext_entries cache_2 _ _ _ _ _ _ p), !(ext_entries cache_2 _ _ _ _ _ _ q) by (done || lia).
  rewrite (ext_entries cache_2 _ _ _ _ _ _ r), (ext_entries cache_2 _ _ _ _ _ _ s) by (done || lia).
  do 4 f_equal. unfold inner_1, inner_2. cbn [omap list_omap].
  unfold Border.resolve_border, Border.try_resolve_port_ref. cbn [n_side_a n_side_b].
  rewrite !cid_low28_small by lia. by rewrite Hp, Hr, Hq, Hs.
Qed.

End two_phase.

Lemma ext_workers t home cid slot wk bid b :
  b ∈ ext_pending t home cid slot wk bid → n_worker_a b = wk ∧ n_worker_b b = home.
Proof. unfold ext_pending. destruct t; [destruct (wk =? home)|]; set_solver. Qed.

Lemma queue_workers t1 t2 u1 u2 wc wd nb nc b : b ∈ queue t1 t2 u1 u2 wc wd nb nc →
  (n_worker_a b = wc ∨ n_worker_a b = wd) ∧ (n_worker_b b = wc ∨ n_worker_b b = wd).
Proof.
  unfold queue. rewrite !elem_of_app, !elem_of_cons.
  intros [H|[H|[H|[H|[->|[->|H]]]]]]; [apply ext_workers in H as [-> ->]; auto..|cbn; auto|cbn; auto|by apply elem_of_nil in H].
Qed.

Lemma record_echoes c0 cid a b : cid < 2 ^ 28 →
  foldl Border.record_mint c0 (imap (λ k id, mkMinted (encode_request_id cid (N.of_nat k)) id) [a; b]) =
    <[(cid, 1) := b]> (<[(cid, 0) := a]> c0).
Proof.
  intros Hc. cbn [imap foldl]. unfold Border.record_mint. cbn [request_id minted_agent_id compose].
  by rewrite (proj2 (proj1 request_id_codec cid (N.of_nat 0) Hc eq_refl)), (proj2 (proj1 request_id_codec cid (N.of_nat 1) Hc eq_refl)).
Qed.

(** A queue with pending ports for both slots of a request expects its echoes. *)
Lemma expected_echoes cid ids l : cid < 2 ^ 28 → (length ids ≤ 2)%nat →
  (∃ b, b ∈ l ∧ Border.pending_port_matches (n_side_a b) cid 0 || Border.pending_port_matches (n_side_b b) cid 0 = true) →
  (∃ b, b ∈ l ∧ Border.pending_port_matches (n_side_a b) cid 1 || Border.pending_port_matches (n_side_b b) cid 1 = true) →
  expected (imap (λ k id, mkMinted (encode_request_id cid (N.of_nat k)) id) ids) l.
Proof.
  intros Hc Hl H0 H1 m (k & id & -> & Hk)%elem_of_lookup_imap. cbn [request_id].
  apply lookup_lt_Some in Hk. rewrite (proj2 (proj1 request_id_codec cid (N.of_nat k) Hc ltac:(lia))).
  destruct k as [|[|k]]; [exact H0|exact H1|lia].
Qed.

Lemma pending_match cid slot port : cid < 2 ^ 28 → Border.pending_port_matches (Pending cid slot port) cid slot = true.
Proof.
  intros Hc. unfold Border.pending_port_matches. rewrite cid_low28_small by done. by rewrite !N.eqb_refl.
Qed.

(** A border that waits for the second request is not resolved by the first. *)
Lemma still_waiting nc p r c0 (P : list PendingNewBorder) b slot :
  nc + 2 ≤ 2 ^ 28 → (∀ c k, is_Some (c0 !! (c, k)) → c < nc) → b ∈ P →
  (∃ port, n_side_b b = Pending (nc + 1) slot port ∨ n_side_a b = Pending (nc + 1) slot port) →
  b ∈ filter (λ b, Border.resolve_border (cache_1 nc p r c0) b = None) P.
Proof.
  intros Hnc Hc0 Hb (port & H). apply list_elem_of_filter. split; [|done]. unfold Border.resolve_border.
  assert (HN : Border.try_resolve_port_ref (Pending (nc + 1) slot port) (cache_1 nc p r c0) = None).
  { cbn. rewrite cid_low28_small by lia. destruct (cache_1_lookup nc p r c0 Hc0) as (_ & _ & H1). by rewrite H1. }
  destruct H as [H|H]; rewrite H, HN; [|done]. by destruct (Border.try_resolve_port_ref (n_side_a b) _).
Qed.

(** The coordinator's side: both answers arrive, and the queue is promoted. *)
Lemma queue_registers t1 t2 u1 u2 wc wd nb nc g p q r s :
  let P := queue t1 t2 u1 u2 wc wd nb nc in
  let echoes cid a b := imap (λ k id, mkMinted (encode_request_id cid (N.of_nat k)) id) [a; b] in
  nc + 2 ≤ 2 ^ 28 → pending_new_borders g = [] → (∀ c k, is_Some (resolved_mints g !! (c, k)) → c < nc) →
  (N.to_nat wc < length (worker_borders g))%nat → (N.to_nat wd < length (worker_borders g))%nat →
  ∃ g1 g2 es1 es2,
    Border.register_minted_agents wc (echoes nc p r) (Border.enqueue_pending_borders P g) =
      Done (g1, inl ((λ e, (e_border_id e, Border.entry_state e)) <$> es1)) ∧
    Border.register_minted_agents wd (echoes (nc + 1) q s) g1 =
      Done (g2, inl ((λ e, (e_border_id e, Border.entry_state e)) <$> es2)) ∧
    es1 ++ es2 ≡ₚ omap (Border.resolve_border (cache_2 nc p q r s (resolved_mints g))) P ∧
    pending_new_borders g2 = [] ∧
    ∀ e, e ∈ es1 ++ es2 → borders g2 !! e_border_id e = Some (Border.entry_state e).
Proof.
  intros P echoes Hnc Hg0 Hc0 Hgc Hgd.
  assert (Hi1 : inner_1 t1 t2 u1 u2 wc wd nb nc ∈ P) by (unfold P, queue; set_solver).
  assert (Hi2 : inner_2 t1 t2 u1 u2 wc wd nb nc ∈ P) by (unfold P, queue; set_solver).
  pose proof (record_echoes (resolved_mints g) nc p r ltac:(lia)) as E1.
  pose proof (record_echoes (cache_1 nc p r (resolved_mints g)) (nc + 1) q s ltac:(lia)) as E2.
  apply (two_registrations wc wd (echoes nc p r) (echoes (nc + 1) q s) (Border.enqueue_pending_borders P g) P
    (cache_1 nc p r (resolved_mints g)) (cache_2 nc p q r s (resolved_mints g))); [cbn; by rewrite Hg0|exact E1|exact E2|..].
  - intros b e _ Hr. by eapply resolve_mono; [apply cache_grows|].
  - by apply queue_resolved.
  - apply queue_ids.
  - intros b Hb. apply queue_workers in Hb as [[-> | ->] [-> | ->]]; done.
  - apply expected_echoes; [lia|done| |].
    + exists (inner_1 t1 t2 u1 u2 wc wd nb nc). split; [done|]. cbn [n_side_a inner_1]. by rewrite pending_match by lia.
    + exists (inner_2 t1 t2 u1 u2 wc wd nb nc). split; [done|]. cbn [n_side_b inner_2].
      by rewrite (pending_match nc 1 2), orb_true_r by lia.
  - apply expected_echoes; [lia|done| |].
    + exists (inner_2 t1 t2 u1 u2 wc wd nb nc). split; [eapply still_waiting; [done..|eexists; by right]|].
      cbn [n_side_a inner_2]. by rewrite pending_match by lia.
    + exists (inner_1 t1 t2 u1 u2 wc wd nb nc). split; [eapply still_waiting; [done..|eexists; by left]|].
      cbn [n_side_b inner_1]. by rewrite (pending_match (nc + 1) 1 1), orb_true_r by lia.
Qed.

Lemma wires_commutation t1 t2 u1 u2 wc wd p q r s :
  con_wires t1 u1 wc wd [p; r] ++ dup_wires t2 u2 wc wd [q; s] ++
    (ext_borders t1 wc wc p ++ ext_borders t2 wc wd q ++ ext_borders u1 wd wc r ++ ext_borders u2 wd wd s ++
     [(AgentPort p 2, AgentPort s 1); (AgentPort q 1, AgentPort r 2)]) ≡ₚ
  commutation_wires t1 t2 u1 u2 p q r s.
Proof.
  cbn [con_wires dup_wires]. trans
    ([(AgentPort p 0, t1)] ++ [(AgentPort q 0, t2)] ++ [(AgentPort r 0, u1)] ++ [(AgentPort s 0, u2)] ++
     [(AgentPort p 1, AgentPort r 1)] ++ [(AgentPort p 2, AgentPort s 1); (AgentPort q 1, AgentPort r 2)] ++
     [(AgentPort q 2, AgentPort s 2)]); [|done].
  rewrite <- (ext_split t1 wc wc p), <- (ext_split t2 wc wd q), <- (ext_split u1 wd wc r), <- (ext_split u2 wd wd s).
  solve_Permutation.
Qed.

(** An auxiliary wire of an agent whose principal port is on a border leaves
    the agent, unless its two auxiliary ports are wired to each other. *)
Lemma border_agent_targets n x f p q :
  wf n → n.[x, 0] = FreePort f → self_loop x n.[x, 1] n.[x, 2] = false → p = 1 ∨ p = 2 → n.[x, p] ≠ AgentPort x q.
Proof.
  intros Hwf H0 Hl Hp E. destruct (wf_sym n Hwf x p x q ltac:(lia) E) as (Hv & Hs & Hne).
  apply valid_port_lt3 in Hv. unfold self_loop in Hl. apply bool_decide_eq_false in Hl. apply Hl.
  assert (q ≠ 0) by (intros ->; congruence).
  assert (q ≠ p) by (intros ->; by apply Hne).
  destruct Hp as [-> | ->]; [assert (q = 2) as -> by lia|assert (q = 1) as -> by lia]; done.
Qed.

(** C27. The delta protocol performs a commutation across two workers.  Take a
    border redex between a constructor and a duplicator of well-formed
    partitions, each with its principal port on a border and neither with its
    two auxiliary ports wired to each other (the resolver has no branch for
    that case, unlike [interact_comm]), whose outside ends are not agents with
    an id in the range reserved for slot markers; and a coordinator that knows
    both workers, with no pending border and with unused border, request and
    agent ids.  Then the
    coordinator's resolution sends one request to each side's worker; both
    workers accept their request and mint a duplicator and a constructor; and
    once the coordinator has registered the two answers nothing is pending any
    more.  The wires the two workers have plugged and the borders the
    coordinator has recorded are then together exactly the eight wires of the
    commutation rule, and none of its four outside ends is a port of the
    consumed agent it belonged to, whichever of the four outside wires were
    local, on the other worker, or themselves borders. *)
Theorem two_phase_commutation st p_con p_dup ic id fc fd wc wd nb nc g n_con n_dup t1 t2 u1 u2 :
  aux_targets p_con ic = (t1, t2) → aux_targets p_dup id = (u1, u2) →
  wf (subnet p_con) → (subnet p_con).[ic, 0] = FreePort fc → self_loop ic t1 t2 = false →
  wf (subnet p_dup) → (subnet p_dup).[id, 0] = FreePort fd → self_loop id u1 u2 = false →
  unmarked t1 → unmarked t2 → unmarked u1 → unmarked u2 →
  nb + 6 ≤ u32_MAX → nc + 2 ≤ 2 ^ 28 →
  wf n_con → next_id n_con + 2 ≤ u32_MAX → wf n_dup → next_id n_dup + 2 ≤ u32_MAX →
  pending_new_borders g = [] → (∀ c k, is_Some (resolved_mints g !! (c, k)) → c < nc) →
  (N.to_nat wc < length (worker_borders g))%nat → (N.to_nat wd < length (worker_borders g))%nat →
  ∃ res nb' bc bd,
    resolve_con_dup st p_con p_dup ic id wc wd nb nc = Done (res, nb', nc + 2) ∧
    br_pending_commutations res = [bc; bd] ∧ cb_worker bc = wc ∧ cb_worker bd = wd ∧
    ∃ p q r s n1 n2 ws1 ws2 m1 m2 g1 g2 es1 es2,
      spawned n_con [mkAgent Con r; mkAgent Dup p] n1 ∧ spawned n_dup [mkAgent Con s; mkAgent Dup q] n2 ∧
      Worker.apply_pending_commutation n_con (commutation_batch_to_pending bc) [] = Done (plug n1 ws1, inl m1) ∧
      Worker.apply_pending_commutation n_dup (commutation_batch_to_pending bd) [] = Done (plug n2 ws2, inl m2) ∧
      Border.register_minted_agents wc m1 (Border.enqueue_pending_borders (br_pending_new_borders res) g) =
        Done (g1, inl ((λ e, (e_border_id e, Border.entry_state e)) <$> es1)) ∧
      Border.register_minted_agents wd m2 g1 =
        Done (g2, inl ((λ e, (e_border_id e, Border.entry_state e)) <$> es2)) ∧
      pending_new_borders g2 = [] ∧
      (∀ e, e ∈ es1 ++ es2 → borders g2 !! e_border_id e = Some (Border.entry_state e)) ∧
      ws1 ++ ws2 ++ ((λ e, (e_side_a e, e_side_b e)) <$> es1 ++ es2) ≡ₚ commutation_wires t1 t2 u1 u2 p q r s ∧
      (∀ k, t1 ≠ AgentPort ic k ∧ t2 ≠ AgentPort ic k ∧ u1 ≠ AgentPort id k ∧ u2 ≠ AgentPort id k).
Proof.
  intros Ht Hu Hpc Hfc Hlc Hpd Hfd Hld Ht1 Ht2 Hu1 Hu2 Hnb Hnc Hwc Hrc Hwd Hrd Hg0 Hc0 Hgc Hgd.
  pose proof (resolve_con_dup_spec t1 t2 u1 u2 wc wd nb nc st p_con p_dup ic id
    Hnb ltac:(unfold u64_MAX; lia) Ht Hu) as Hres.
  eexists _, _, _, _. split; [exact Hres|]. do 3 (split; [reflexivity|]).
  destruct (apply_pending_ok n_con nc [Dup; Con] (to_hint <$> con_wiring t1 u1 wc wd) (con_wires t1 u1 wc wd) [])
    as (n1 & ids1 & _ & Hl1 & Hs1 & Ha1); try done;
    [cbn; lia|lia|by apply wiring_nodup|by intros; apply con_hints_ok|].
  destruct (apply_pending_ok n_dup (nc + 1) [Dup; Con] (to_hint <$> dup_wiring t2 u2 wc wd) (dup_wires t2 u2 wc wd) [])
    as (n2 & ids2 & _ & Hl2 & Hs2 & Ha2); try done;
    [cbn; lia|lia|by apply wiring_nodup|by intros; apply dup_hints_ok|].
  destruct ids1 as [|p [|r [|]]]; [done..| |done]. destruct ids2 as [|q [|s [|]]]; [done..| |done].
  destruct (queue_registers t1 t2 u1 u2 wc wd nb nc g p q r s Hnc Hg0 Hc0 Hgc Hgd)
    as (g1 & g2 & es1 & es2 & R1 & R2 & Hperm & Hpend & Hin).
  exists p, q, r, s, n1, n2. eexists _, _, _, _, g1, g2, es1, es2.
  split; [done|]. split; [done|]. split; [exact Ha1|]. split; [exact Ha2|]. split; [exact R1|]. split; [exact R2|].
  split; [done|]. split; [done|]. split.
  - rewrite Hperm, queue_borders by done. apply wires_commutation.
  - unfold aux_targets in Ht, Hu. injection Ht as <- <-. injection Hu as <- <-.
    intros k. split_and!; eapply border_agent_targets; eauto.
Qed.

(** When the constructor's auxiliary ports are wired to each other the resolver
    goes on regardless: it asks the worker to plug the first new duplicator
    into a port of the constructor it has consumed, where [interact_comm]
    reproduces the loop on two new constructors. *)
Theorem resolver_ignores_self_loops st p_con p_dup ic id wc wd nb nc u1 u2 :
  aux_targets p_con ic = (AgentPort ic 2, AgentPort ic 1) → aux_targets p_dup id = (u1, u2) →
  nb + 6 ≤ u32_MAX → nc + 2 ≤ 2 ^ 28 →
  ∃ res nb' bc bd, resolve_con_dup st p_con p_dup ic id wc wd nb nc = Done (res, nb', nc + 2) ∧
    br_pending_commutations res = [bc; bd] ∧
    mkHint 0 0 (AgentPort ic 2) ∈ pc_local_wiring (commutation_batch_to_pending bc).
Proof.
  intros Ht Hu Hnb Hnc. pose proof (resolve_con_dup_spec _ _ u1 u2 wc wd nb nc st p_con p_dup ic id
    Hnb ltac:(unfold u64_MAX; lia) Ht Hu) as Hres.
  eexists _, _, _, _. split; [exact Hres|]. split; [reflexivity|].
  cbn. unfold con_wiring, ext_wiring. rewrite ?N.eqb_refl. set_solver.
Qed.

(** ** A constructor and a duplicator on two workers

    Agents 0 to 2 live on worker 0, agents 3 to 5 on worker 1; one auxiliary
    wire of each agent of the pair is local, the other crosses. *)
Definition delta_example : Net :=
  match fold_outcome (λ n s, '(n, _) ← create_agent n s; mret n) new [Con; Era; Era; Dup; Era; Era] with
  | Done n =>
      foldl (λ n w, connect n w.1 w.2) n
        [(AgentPort 0 0, AgentPort 3 0); (AgentPort 0 1, AgentPort 1 0); (AgentPort 0 2, AgentPort 4 0);
         (AgentPort 3 1, AgentPort 5 0); (AgentPort 3 2, AgentPort 2 0)]
  | Panic => new
  end.

Definition delta_plan : PartitionPlan :=
  match split (H := ContiguousIdStrategy) delta_example 2 with Done plan => plan | Panic => plan_default end.
Definition delta_part (w : nat) : Partition := default (empty_partition 0) (partitions delta_plan !! w).
Definition delta_graph : BorderGraph :=
  match Border.from_partition_plan delta_plan with Done g => g | Panic => mkGraph ∅ [] ∅ [] ∅ end.
Definition delta_border : BorderState := mkBorder 0 (AgentPort 0 0) (AgentPort 3 0) 0 1 true.

Lemma two_phase_commutation_witness :
  borders delta_graph !! 0 = Some delta_border ∧
  ∃ res nb' m1 m2 g1 g2 r1 r2,
    resolve_con_dup delta_border (delta_part 0) (delta_part 1) 0 3 0 1 3 0 = Done (res, nb', 2) ∧
    Border.register_minted_agents 0 m1 (Border.enqueue_pending_borders (br_pending_new_borders res) delta_graph) =
      Done (g1, inl r1) ∧
    Border.register_minted_agents 1 m2 g1 = Done (g2, inl r2) ∧ pending_new_borders g2 = [].
Proof.
  split; [vm_compute; reflexivity|].
  destruct (two_phase_commutation delta_border (delta_part 0) (delta_part 1) 0 3 0 0 0 1 3 0 delta_graph
    (subnet (delta_part 0)) (subnet (delta_part 1)) (AgentPort 1 0) (FreePort 1) (AgentPort 5 0) (FreePort 2))
    as (res & nb' & bc & bd & Hr & _ & _ & _ & p & q & r & s & n1 & n2 & ws1 & ws2 & m1 & m2 & g1 & g2 & es1 & es2 &
        _ & _ & _ & _ & R1 & R2 & Hp & _).
  1,2: vm_compute; reflexivity.
  1,4: apply wf_b_sound; vm_compute; reflexivity.
  1,2,3,4: vm_compute; reflexivity.
  1,2,3,4: vm_compute; first [exact I|reflexivity].
  1,2: vm_compute; discriminate.
  1,3: apply wf_b_sound; vm_compute; reflexivity.
  1,2: vm_compute; discriminate.
  - vm_compute. reflexivity.
  - intros c k H. exfalso. assert (E : resolved_mints delta_graph = ∅) by (vm_compute; reflexivity).
    rewrite E, lookup_empty in H. exact (is_Some_None H).
  - apply Nat.ltb_lt. vm_compute. reflexivity.
  - apply Nat.ltb_lt. vm_compute. reflexivity.
  - exists res, nb', m1, m2, g1, g2. eexists _, _. split; [exact Hr|]. split; [exact R1|]. split; [exact R2|exact Hp].
Defined.
