(* ===== verification/WorkerSpec.v ===== *)
(** The worker's theorems: the border index is rebuilt from the net, the deltas
    keep the coordinator's graph in step with it, the round handler, and the
    two machines. *)
From S2P Require Import Prelude NetTypes NetCore NetInv NetDebug Reduction ReductionInv EngineInv RunInv Weight Wiring Partition.
From S2P Require Import BorderGraph BorderSpec BorderResolver Split Merge Grid GridSpec Worker DeltaSpec.
Local Open Scope N_scope.
Open Scope net_scope.

(** ** The rebuilt index *)

Section rebuild.
Context (n : Net) (lo hi : N).
Hypothesis Hwf : wf n.

(** Port [r] of a live agent is plugged into border [bid]. *)
Definition plugged_into (bid : N) (r : PortRef) : Prop :=
  ∃ id p, r = AgentPort id p ∧ valid_port n id p ∧ n.[id, p] = FreePort bid.

Definition scan_step (m : gmap N PortRef) (x : (nat * option Agent) * PortId) : gmap N PortRef :=
  match x.1.2 with
  | Some a => scan_port n lo hi (as_u32 (N.of_nat x.1.1)) a m x.2
  | None => m
  end.

Definition scan_ports (e : nat * option Agent) : list PortId :=
  match e.2 with Some a => range_u (total_ports (symbol a)) | None => [] end.

Lemma scan_agents_flat :
  scan_agents n lo hi = foldl scan_step ∅ (imap pair (agents n) ≫= λ e, pair e <$> scan_ports e).
Proof.
  rewrite <- (foldl_nested (λ m e p, scan_step m (e, p))). unfold scan_agents. apply foldl_ext_in.
  intros m [i [a|]] _; [done|]. done.
Qed.

Lemma in_scan i o p :
  ((i, o), p) ∈ (imap pair (agents n) ≫= λ e, pair e <$> scan_ports e) ↔
  ∃ a, o = Some a ∧ get_agent n (N.of_nat i) = Some a ∧ p < total_ports (symbol a).
Proof.
  rewrite list_elem_of_bind. setoid_rewrite list_elem_of_fmap. setoid_rewrite elem_of_lookup_imap.
  unfold scan_ports, get_agent. rewrite Nat2N.id. split.
  - intros (e & (p' & [= <- <-] & Hp) & (j & y & [= <- <-] & Hj)). cbn [snd] in Hp.
    destruct o as [a|]; [|by apply elem_of_nil in Hp]. apply elem_of_range_u in Hp. exists a. by rewrite Hj.
  - intros (a & -> & Ha & Hp). exists (i, Some a). split.
    + exists p. split; [done|]. by apply elem_of_range_u.
    + exists i, (Some a). split; [done|]. destruct (agents n !! i) as [o|] eqn:E; [|done]. cbn in Ha. by subst.
Qed.

Lemma scan_step_lookup m i a p :
  get_agent n (N.of_nat i) = Some a → p < total_ports (symbol a) →
  scan_step m ((i, Some a), p) =
    match n.[N.of_nat i, p] with
    | FreePort bid => if is_boundary lo hi bid then <[bid := AgentPort (N.of_nat i) p]> m else m
    | AgentPort _ _ => m
    end.
Proof.
  intros Ha Hp. unfold scan_step, scan_port. cbn [fst snd]. apply get_agent_arena in Ha as Hi.
  rewrite as_u32_small by (pose proof (wf_arena n Hwf); pose proof (wf_u32 n Hwf); lia).
  rewrite (wf_ids n Hwf (N.of_nat i) a Ha). done.
Qed.

Lemma scan_agents_spec :
  (∀ bid r, scan_agents n lo hi !! bid = Some r → is_boundary lo hi bid = true ∧ plugged_into bid r) ∧
  (∀ bid r, is_boundary lo hi bid = true → plugged_into bid r → is_Some (scan_agents n lo hi !! bid)).
Proof.
  rewrite scan_agents_flat. set (l := _ ≫= _).
  assert (Hl : ∀ x, x ∈ l → ∃ i a p, x = ((i, Some a), p) ∧ get_agent n (N.of_nat i) = Some a ∧ p < total_ports (symbol a)).
  { intros [[i o] p] Hx. apply in_scan in Hx as (a & -> & ?). by exists i, a, p. }
  split.
  - assert (Hs : ∀ m, (∀ bid r, m !! bid = Some r → is_boundary lo hi bid = true ∧ plugged_into bid r) →
      ∀ bid r, foldl scan_step m l !! bid = Some r → is_boundary lo hi bid = true ∧ plugged_into bid r).
    { clear - Hwf Hl. induction l as [|x l IH]; intros m Hm; [done|]. cbn [foldl]. apply IH; [set_solver|].
      destruct (Hl x) as (i & a & p & -> & Ha & Hp); [set_solver|]. rewrite scan_step_lookup by done.
      intros bid r. destruct (n.[N.of_nat i, p]) as [|b] eqn:Et; [apply Hm|].
      destruct (is_boundary lo hi b) eqn:Eb; [|apply Hm]. intros [[<- <-]|[_ H]]%lookup_insert_Some; [|by apply Hm].
      split; [done|]. exists (N.of_nat i), p. split; [done|]. split; [by exists a|done]. }
    apply Hs. intros bid r. by rewrite lookup_empty.
  - intros bid r Hb (id & p & -> & (a & Ha & Hp) & Ht).
    assert (Hin : ((N.to_nat id, Some a), p) ∈ l) by (apply in_scan; exists a; by rewrite N2Nat.id).
    clear -Hwf Hl Hb Ha Hp Ht Hin. revert Hl Hin. generalize (∅ : gmap N PortRef).
    assert (Hkeep : ∀ l m, (∀ x, x ∈ l → ∃ i a p, x = ((i, Some a), p) ∧ get_agent n (N.of_nat i) = Some a ∧ p < total_ports (symbol a)) →
      is_Some (m !! bid) → is_Some (foldl scan_step m l !! bid)).
    { induction l0 as [|x l0 IH]; intros m Hl Hm; [done|]. cbn [foldl]. apply IH; [set_solver|].
      destruct (Hl x) as (i & a' & q & -> & Ha' & Hq); [set_solver|]. rewrite scan_step_lookup by done.
      destruct (n.[N.of_nat i, q]) as [|b]; [done|]. destruct (is_boundary lo hi b); [|done].
      rewrite lookup_insert. by case_decide. }
    induction l as [|x l IH]; intros m Hl Hin; [by apply elem_of_nil in Hin|]. cbn [foldl].
    apply elem_of_cons in Hin as [<-|Hin]; [|apply IH; [set_solver|done]].
    apply Hkeep; [set_solver|]. rewrite scan_step_lookup by (by rewrite ?N2Nat.id). rewrite N2Nat.id, Ht, Hb.
    by rewrite lookup_insert_eq.
Qed.

End rebuild.

Section redirects.
Context (n : Net) (lo hi : N).

Definition redirect_step (m : gmap N PortRef) (e : N * PortRef) : gmap N PortRef :=
  if is_boundary lo hi e.1 then match m !! e.1 with Some _ => m | None => <[e.1 := e.2]> m end else m.

Lemma redirect_fold l m bid r : NoDup l.*1 →
  foldl redirect_step m l !! bid = Some r ↔
    m !! bid = Some r ∨ (m !! bid = None ∧ is_boundary lo hi bid = true ∧ (bid, r) ∈ l).
Proof.
  revert m. induction l as [|[k x] l IH]; intros m Hnd; cbn [foldl].
  { set_solver. }
  apply NoDup_cons in Hnd as [Hni Hnd]. rewrite IH by done. unfold redirect_step. cbn [fst snd] in *.
  assert (Hk : ∀ y, (k, y) ∉ l) by (intros y Hy; apply Hni; by apply (list_elem_of_fmap_2 fst _ _ Hy)).
  destruct (is_boundary lo hi k) eqn:Eb; [destruct (m !! k) as [y|] eqn:Em|].
  - rewrite elem_of_cons. naive_solver.
  - destruct (decide (bid = k)) as [->|Hne].
    + rewrite lookup_insert_eq. rewrite elem_of_cons. specialize (Hk r). split.
      * intros [[= ->]|(? & ? & ?)]; [right; auto|done].
      * intros [?|(_ & _ & [[= ->]|?])]; [congruence|by left|done].
    + rewrite lookup_insert_ne by done. rewrite elem_of_cons. split; [intros [?|(? & ? & ?)]; auto|].
      intros [?|(? & ? & [[= ? ?]|?])]; auto; congruence.
  - destruct (decide (bid = k)) as [->|Hne]; [|set_solver]. rewrite elem_of_cons, Eb. naive_solver.
Qed.

Lemma rebuild_lookup bid r :
  rebuild_free_port_index n lo hi !! bid = Some r ↔
    scan_agents n lo hi !! bid = Some r ∨
    (scan_agents n lo hi !! bid = None ∧ is_boundary lo hi bid = true ∧ freeport_redirects n !! bid = Some r).
Proof.
  unfold rebuild_free_port_index.
  rewrite <- (elem_of_map_to_list (freeport_redirects n) bid r), <- redirect_fold by apply NoDup_fst_map_to_list. done.
Qed.

End redirects.

(** What the net's index over the borders [lo, hi) holds for a border: an agent
    port plugged into it, or, only when no port is, the redirect recorded for
    it; and nothing only when there is neither. *)
Definition border_end (n : Net) (lo hi bid : N) (o : option PortRef) : Prop :=
  match o with
  | Some r =>
      is_boundary lo hi bid = true ∧
      (plugged_into n bid r ∨ ((∀ r', ¬ plugged_into n bid r') ∧ freeport_redirects n !! bid = Some r))
  | None => is_boundary lo hi bid = true → (∀ r, ¬ plugged_into n bid r) ∧ freeport_redirects n !! bid = None
  end.

(** The border index a worker rebuilds from its net is exact. *)
Lemma rebuild_index_exact n lo hi bid : wf n →
  border_end n lo hi bid (rebuild_free_port_index n lo hi !! bid).
Proof.
  intros Hwf. destruct (scan_agents_spec n lo hi Hwf) as [H1 H2]. pose proof (rebuild_lookup n lo hi bid) as Hr.
  destruct (rebuild_free_port_index n lo hi !! bid) as [r|]; cbn [border_end].
  - destruct (proj1 (Hr r) eq_refl) as [H|(H & Hb & Hrd)]; [apply H1 in H as [? ?]; by auto|].
    split; [done|]. right. split; [|done]. intros r' Hp. destruct (H2 bid r' Hb Hp) as [? ?]. congruence.
  - intros Hb. assert (Hs : scan_agents n lo hi !! bid = None).
    { destruct (scan_agents n lo hi !! bid) as [x|]; [|done]. by destruct (proj2 (Hr x) (or_introl eq_refl)). }
    split; [intros r Hp; destruct (H2 bid r Hb Hp) as [? ?]; congruence|].
    destruct (freeport_redirects n !! bid) as [x|]; [|done].
    discriminate (proj2 (Hr x) (or_intror (conj Hs (conj Hb eq_refl)))).
Qed.

(** ** Deltas *)

(** What worker [w] is responsible for in a border, and the border with it
    replaced. *)
Definition concerns (w : WorkerId) (st : BorderState) : Prop := worker_a st = w ∨ worker_b st = w.
Definition my_side (w : WorkerId) (st : BorderState) : PortRef := if worker_a st =? w then side_a st else side_b st.
Definition other_side (w : WorkerId) (st : BorderState) : PortRef := if worker_a st =? w then side_b st else side_a st.
Definition moved (w : WorkerId) (r : PortRef) (st : BorderState) : BorderState :=
  let '(a, b) := if worker_a st =? w then (r, side_b st) else (side_a st, r) in
  mkBorder (border_id st) a b (worker_a st) (worker_b st) (is_principal_pair a b).

(** One delta on one border. *)
Definition moved_or_gone (w : WorkerId) (r : PortRef) (st : BorderState) : option BorderState :=
  if decide (r = DISCONNECTED ∧ other_side w st = DISCONNECTED) then None else Some (moved w r st).

Lemma both_disconnected (a b : PortRef) :
  bool_decide (a = DISCONNECTED) && bool_decide (b = DISCONNECTED) = bool_decide (a = DISCONNECTED ∧ b = DISCONNECTED).
Proof. symmetry. apply bool_decide_and. Qed.

Lemma apply_delta_concerned w g d st :
  borders g !! d_border_id d = Some st → concerns w st →
  borders (Border.apply_delta w g d) =
    match moved_or_gone w (new_target d) st with
    | Some st' => <[d_border_id d := st']> (borders g)
    | None => delete (d_border_id d) (borders g)
    end.
Proof.
  intros E Hc. unfold Border.apply_delta, moved_or_gone, moved, other_side. rewrite E, both_disconnected.
  assert (Hup : negb (worker_a st =? w) && negb (worker_b st =? w) = false)
    by (destruct Hc as [-> | ->]; rewrite N.eqb_refl; [done|by rewrite andb_false_r]).
  rewrite Hup. destruct (worker_a st =? w).
  - case_bool_decide as H; [by rewrite decide_True|by rewrite decide_False].
  - case_bool_decide as H; [rewrite decide_True by tauto|rewrite decide_False by tauto]; done.
Qed.

Lemma apply_delta_borders w g d bid :
  borders (Border.apply_delta w g d) !! bid =
    if decide (d_border_id d = bid) then
      borders g !! bid ≫= λ st,
        if decide (concerns w st) then moved_or_gone w (new_target d) st else Some st
    else borders g !! bid.
Proof.
  destruct (borders g !! d_border_id d) as [st|] eqn:E.
  2: { unfold Border.apply_delta. rewrite E. case_decide as Hd; [|done]. subst bid. by rewrite E. }
  destruct (decide (concerns w st)) as [Hc|Hc].
  - rewrite (apply_delta_concerned w g d st) by done. case_decide as Hd.
    + subst bid. rewrite E. cbn [mbind option_bind]. rewrite decide_True by done.
      destruct (moved_or_gone w (new_target d) st); [apply lookup_insert_eq|apply lookup_delete_eq].
    + destruct (moved_or_gone w (new_target d) st); [by apply lookup_insert_ne|by apply lookup_delete_ne].
  - assert (Hg : Border.apply_delta w g d = g).
    { unfold Border.apply_delta. rewrite E. unfold concerns in Hc.
      destruct (N.eqb_spec (worker_a st) w), (N.eqb_spec (worker_b st) w); tauto. }
    rewrite Hg. case_decide as Hd; [|done]. subst bid. rewrite E. cbn [mbind option_bind]. by rewrite decide_False.
Qed.

Lemma apply_deltas_other w ds g bid :
  bid ∉ d_border_id <$> ds → borders (Border.apply_deltas w ds g) !! bid = borders g !! bid.
Proof.
  revert g. induction ds as [|d ds IH]; intros g Hni; [done|]. cbn in Hni. apply not_elem_of_cons in Hni as [H1 H2].
  change (Border.apply_deltas w (d :: ds) g) with (Border.apply_deltas w ds (Border.apply_delta w g d)).
  rewrite IH by done. by rewrite apply_delta_borders, decide_False by congruence.
Qed.

(** Deltas with distinct ids act one by one. *)
Lemma apply_deltas_in w ds g d :
  NoDup (d_border_id <$> ds) → d ∈ ds →
  borders (Border.apply_deltas w ds g) !! d_border_id d =
    borders g !! d_border_id d ≫= λ st,
      if decide (concerns w st) then moved_or_gone w (new_target d) st else Some st.
Proof.
  revert g. induction ds as [|x ds IH]; intros g Hnd Hin; [by apply elem_of_nil in Hin|].
  cbn in Hnd. apply NoDup_cons in Hnd as [Hni Hnd].
  change (Border.apply_deltas w (x :: ds) g) with (Border.apply_deltas w ds (Border.apply_delta w g x)).
  apply elem_of_cons in Hin as [->|Hin].
  - rewrite apply_deltas_other by done. by rewrite apply_delta_borders, decide_True by done.
  - rewrite IH by done. rewrite apply_delta_borders, decide_False; [done|]. intros E. apply Hni. rewrite E.
    by apply list_elem_of_fmap_2.
Qed.

(** The deltas of a round name each border once, with its new endpoint. *)
Lemma elem_of_outgoing prev cur d :
  d ∈ compute_outgoing_deltas prev cur ↔
    (cur !! d_border_id d = Some (new_target d) ∧ prev !! d_border_id d ≠ Some (new_target d)) ∨
    (cur !! d_border_id d = None ∧ is_Some (prev !! d_border_id d) ∧ new_target d = DISCONNECTED).
Proof.
  unfold compute_outgoing_deltas. rewrite elem_of_app, !list_elem_of_omap. split.
  - intros [([k r] & Hin & H)|([k r] & Hin & H)]; apply elem_of_map_to_list in Hin; cbn [fst snd] in H.
    + case_decide; [done|]. injection H as <-. by left.
    + destruct (cur !! k) eqn:E; [done|]. injection H as <-. right. cbn. by rewrite E, Hin.
  - destruct d as [k r]. cbn [d_border_id new_target]. intros [[Hc Hp]|(Hc & [x Hx] & ->)].
    + left. exists (k, r). split; [by apply elem_of_map_to_list|]. cbn. by rewrite decide_False.
    + right. exists (k, x). split; [by apply elem_of_map_to_list|]. cbn. by rewrite Hc.
Qed.

Lemma outgoing_nodup prev cur : NoDup (d_border_id <$> compute_outgoing_deltas prev cur).
Proof.
  assert (Hgen : ∀ (f : N * PortRef → option BorderDelta) l, (∀ e d, f e = Some d → d_border_id d = e.1) →
    NoDup l.*1 → NoDup (d_border_id <$> omap f l) ∧ ∀ k, k ∈ d_border_id <$> omap f l → k ∈ l.*1).
  { intros f l Hf. induction l as [|e l IH]; intros Hnd; [split; [constructor|set_solver]|].
    cbn in Hnd. apply NoDup_cons in Hnd as [Hni Hnd]. destruct (IH Hnd) as [IH1 IH2]. cbn [omap list_omap].
    destruct (f e) as [d|] eqn:E; [|split; [done|]; intros k Hk; right; by apply IH2].
    cbn. rewrite (Hf e d E). split; [apply NoDup_cons; split; [|done]; intros Hk; by apply Hni, IH2|].
    intros k [->|Hk]%elem_of_cons; [left|right; by apply IH2]. }
  unfold compute_outgoing_deltas. rewrite fmap_app. apply NoDup_app. split_and!.
  - apply Hgen; [|apply NoDup_fst_map_to_list]. intros e d. case_decide; [done|]. by intros [= <-].
  - intros k (d & -> & Hd)%list_elem_of_fmap (d' & E & Hd')%list_elem_of_fmap.
    apply list_elem_of_omap in Hd as ([k r] & Hin & H). apply list_elem_of_omap in Hd' as ([k' r'] & Hin' & H').
    apply elem_of_map_to_list in Hin. cbn [fst snd] in *. case_decide; [done|]. injection H as <-.
    destruct (cur !! k') eqn:Ek; [done|]. injection H' as <-. cbn in E. congruence.
  - apply Hgen; [|apply NoDup_fst_map_to_list]. intros e d. destruct (cur !! e.1); [done|]. by intros [= <-].
Qed.

(** The graph's side of every border of worker [w] is what the worker last
    reported. *)
Definition in_step (w : WorkerId) (reported : gmap N PortRef) (g : BorderGraph) : Prop :=
  ∀ bid st, borders g !! bid = Some st → concerns w st → my_side w st = default DISCONNECTED (reported !! bid).

(** The deltas keep the coordinator in step with a worker.  If the graph
    agreed with what a worker had last reported, then after the deltas the
    worker computes from its old and new border indices it agrees with the new
    index; its redex index stays exact; borders of other workers are
    untouched; the far side of the worker's borders is untouched; and a border
    disappears only when both its ends are disconnected. *)
Theorem delta_sync w prev cur g :
  gwf g → in_step w prev g →
  let g' := Border.apply_deltas w (compute_outgoing_deltas prev cur) g in
  gwf g' ∧ in_step w cur g' ∧
  ∀ bid, match borders g !! bid with
    | Some st =>
        if decide (concerns w st) then
          match borders g' !! bid with
          | Some st' => other_side w st' = other_side w st ∧ worker_a st' = worker_a st ∧ worker_b st' = worker_b st
          | None => default DISCONNECTED (cur !! bid) = DISCONNECTED ∧ other_side w st = DISCONNECTED
          end
        else borders g' !! bid = Some st
    | None => borders g' !! bid = None
    end.
Proof.
  intros Hg Hs g'. set (ds := compute_outgoing_deltas prev cur) in *.
  assert (Hdelta : ∀ bid st, borders g !! bid = Some st →
    borders g' !! bid = if decide (concerns w st ∧ prev !! bid ≠ cur !! bid)
      then moved_or_gone w (default DISCONNECTED (cur !! bid)) st else Some st).
  { intros bid st Hst. destruct (decide (prev !! bid = cur !! bid)) as [He|He].
    - rewrite decide_False by naive_solver. unfold g'. rewrite apply_deltas_other; [done|].
      intros (d & -> & Hd)%list_elem_of_fmap. apply elem_of_outgoing in Hd as [[H1 H2]|(H1 & [x H2] & _)]; congruence.
    - assert (Hd : mkDelta bid (default DISCONNECTED (cur !! bid)) ∈ ds).
      { apply elem_of_outgoing. cbn. destruct (cur !! bid) as [r|]; [left; by split; [|intros ?]|right].
        split; [done|]. split; [|done]. destruct (prev !! bid) as [x|]; [by exists x|done]. }
      pose proof (apply_deltas_in w ds g _ (outgoing_nodup prev cur) Hd) as Hin. cbn [d_border_id new_target] in Hin.
      fold g' in Hin. rewrite Hin, Hst. cbn [mbind option_bind]. destruct (decide (concerns w st)); [rewrite decide_True by done|rewrite decide_False by naive_solver]; done. }
  assert (Hnone : ∀ bid, borders g !! bid = None → borders g' !! bid = None).
  { intros bid Hb. unfold g'. destruct (decide (bid ∈ d_border_id <$> ds)) as [(d & -> & Hd)%list_elem_of_fmap|Hni].
    - rewrite (apply_deltas_in w ds g d (outgoing_nodup prev cur) Hd). by rewrite Hb.
    - by rewrite apply_deltas_other. }
  split; [by apply apply_deltas_gwf|]. split.
  - intros bid st' Hst' Hw. destruct (borders g !! bid) as [st|] eqn:E; [|by rewrite Hnone in Hst'].
    rewrite (Hdelta bid st E) in Hst'. case_decide as Hd.
    + unfold moved_or_gone in Hst'. case_decide; [done|]. injection Hst' as <-. unfold my_side, moved.
      destruct (N.eqb_spec (worker_a st) w) as [Ha|Ha]; cbn; [rewrite Ha, N.eqb_refl|rewrite (proj2 (N.eqb_neq _ _) Ha)]; done.
    + injection Hst' as <-. rewrite (Hs bid st E Hw). f_equal.
      destruct (decide (prev !! bid = cur !! bid)); [done|]. by destruct Hd.
  - intros bid. destruct (borders g !! bid) as [st|] eqn:E; [|by apply Hnone]. rewrite (Hdelta bid st E).
    destruct (decide (concerns w st)) as [Hw|Hw]; [|by rewrite decide_False by naive_solver].
    case_decide as Hd; [|done]. unfold moved_or_gone. case_decide as Hx.
    + exact Hx.
    + unfold other_side, moved. by destruct (worker_a st =? w) eqn:Ea; cbn; rewrite Ea.
Qed.

Lemma in_step_dec w reported g :
  map_Forall (λ bid st, concerns w st → my_side w st = default DISCONNECTED (reported !! bid)) (borders g) →
  in_step w reported g.
Proof. intros H bid st Hst. exact (H bid st Hst). Qed.

Definition sync_graph : BorderGraph :=
  match Border.add_border_states
          [mkEntry 5 (AgentPort 1 0) (AgentPort 9 0) 0 1; mkEntry 6 (AgentPort 8 1) (AgentPort 2 1) 1 0;
           mkEntry 7 (AgentPort 8 0) (AgentPort 7 0) 1 1]
          (mkGraph ∅ [[]; []] ∅ [] ∅) with
  | Done g => g
  | Panic => mkGraph ∅ [] ∅ [] ∅
  end.

Lemma empty_gwf wbs : gwf (mkGraph ∅ wbs ∅ [] ∅).
Proof.
  split; cbn [borders active_redexes]; [intros bid st H; by rewrite lookup_empty in H|].
  intros bid. split; [set_solver|]. intros (st & H & _). by rewrite lookup_empty in H.
Qed.

Lemma sync_graph_gwf : gwf sync_graph.
Proof.
  unfold sync_graph. destruct (Border.add_border_states _ _) as [g|] eqn:E; [|apply empty_gwf].
  exact (add_border_states_gwf _ _ g (empty_gwf _) E).
Qed.

(** Worker 0 moved border 5 and lost border 6. *)
Lemma delta_sync_witness :
  let prev : gmap N PortRef := {[5 := AgentPort 1 0; 6 := AgentPort 2 1]} in
  let cur : gmap N PortRef := {[5 := AgentPort 3 1]} in
  let g' := Border.apply_deltas 0 (compute_outgoing_deltas prev cur) sync_graph in
  in_step 0 prev sync_graph ∧ in_step 0 cur g' ∧ gwf g' ∧
  (my_side 0 <$> borders g' !! 5) = Some (AgentPort 3 1) ∧ (my_side 0 <$> borders g' !! 6) = Some DISCONNECTED.
Proof.
  intros prev cur g'.
  assert (Hs : in_step 0 prev sync_graph).
  { apply in_step_dec. apply (bool_decide_unpack _). vm_compute. exact I. }
  destruct (delta_sync 0 prev cur sync_graph sync_graph_gwf Hs) as (Hg & Hc & _).
  split; [exact Hs|]. split; [exact Hc|]. split; [exact Hg|]. split; vm_compute; reflexivity.
Defined.

(** ** A round *)

Lemma compute_border_activity_true p :
  compute_border_activity p = true ↔ ∃ bid id, free_port_index p !! bid = Some (AgentPort id 0).
Proof.
  unfold compute_border_activity. rewrite existsb_exists. split.
  - intros ([bid r] & Hin & H). cbn in H. destruct r as [id [|]|]; [|done..]. exists bid, id.
    by apply elem_of_map_to_list, list_elem_of_In.
  - intros (bid & id & H). exists (bid, AgentPort id 0). split; [|done]. by apply list_elem_of_In, elem_of_map_to_list.
Qed.

(** The coordinator's changes do not rename the worker. *)
Lemma prepare_worker_id p deltas resolved news recs :
  worker_id (Worker.prepare p deltas resolved news recs) = worker_id p.
Proof.
  assert (Hf : ∀ {A} (f : Partition → A → Partition) l p, (∀ p x, worker_id (f p x) = worker_id p) →
    worker_id (foldl f p l) = worker_id p).
  { intros A f l. induction l as [|x l IH]; intros q Hq; [done|]. cbn [foldl]. by rewrite IH, Hq. }
  assert (Hr : ∀ q bid, worker_id (release_border bid q) = worker_id q).
  { intros q bid. unfold release_border. by destruct (free_port_index q !! bid) as [[]|]. }
  unfold Worker.prepare, apply_border_deltas_to_partition. cbn [worker_id with_subnet]. rewrite !Hf; [done|..].
  - intros q d. unfold apply_border_delta. case_decide; cbn; apply Hr.
  - intros q bid. unfold resolve_border. cbn. apply Hr.
  - intros q e. unfold add_new_border. by destruct (_ && _).
Qed.

(** C28. A round of the delta protocol without commutation requests.  When the
    partition, after the coordinator's changes, is well formed, queues its
    active pairs, cannot commute and has the fuel and the ids for the
    reduction, the handler returns: it stores the net that [reduce_all] makes of
    the partition's, reports the statistics of that reduction and goes to
    [DeltaActive].  The stored net is well formed and has no active pair left.
    The stored border index is that of the reduced net: for every border of the
    partition's range it holds the agent port that the reduced net plugs into
    it (the recorded redirect when there is none), and it is what the next
    round will compare with.  The border activity flag says whether this index
    ends some border in a principal port; and the deltas sent bring a
    coordinator whose border graph was consistent and in step with what the
    worker reported last in step with this index, still consistent. *)
Theorem delta_round_sound fuel c st rnd deltas resolved news recs g :
  Worker.delta_state c = Some st →
  let p := Worker.prepare (Worker.partition st) deltas resolved news recs in
  let w := worker_id (Worker.partition st) in
  wf (subnet p) → queue_complete (subnet p) → no_comm (subnet p) → (measure (subnet p) < 2 * fuel)%nat →
  next_id (subnet p) + 4 * N.of_nat fuel ≤ u32_MAX →
  gwf g → in_step w (Worker.previous_border_state st) g →
  ∃ n rs index activity,
    let st' := Worker.mkDeltaState (with_index index (with_subnet n p)) index rnd in
    let ds := compute_outgoing_deltas (Worker.previous_border_state st) index in
    let stats := mkWorkerStats w (count_live_agents (subnet p)) (count_live_agents n)
                   (total_interactions rs) (interactions_by_rule rs) activity false in
    reduce_all fuel (subnet p) = Some (Done (n, rs)) ∧
    Worker.handle_round_start fuel c rnd deltas resolved news recs [] =
      Some (Done (Worker.mkContext Worker.DeltaActive rnd (Some st'),
        [Worker.LogTransition (Worker.state c) Worker.DeltaActive;
         Worker.SendMessage (Worker.RoundResult rnd ds stats activity [])])) ∧
    wf n ∧ (∀ a b, ¬ redex n a b) ∧
    (∀ bid, border_end n (border_id_start p) (border_id_end p) bid (index !! bid)) ∧
    (activity = true ↔ ∃ bid id, index !! bid = Some (AgentPort id 0)) ∧
    gwf (Border.apply_deltas w ds g) ∧ in_step w index (Border.apply_deltas w ds g).
Proof.
  intros Hst p w Hwf Hqc Hnc Hfuel Hroom Hg Hs.
  destruct (reduce_all_from_no_comm fuel (subnet p) stats_zero Hwf Hnc Hfuel Hroom) as (n & rs & Hr & [W F Q] & Hend & _).
  set (index := rebuild_free_port_index n (border_id_start p) (border_id_end p)).
  destruct (delta_sync w (Worker.previous_border_state st) index g Hg Hs) as (Hg' & Hs' & _).
  exists n, rs, index, (compute_border_activity (with_index index (with_subnet n p))).
  split; [exact Hr|]. split.
  { unfold Worker.handle_round_start. rewrite Hst. cbn [unwrap run_bind]. fold p.
    cbn [Worker.fulfil mret outcome_ret run_bind]. unfold reduce_all. rewrite Hr.
    subst w. rewrite <- (prepare_worker_id (Worker.partition st) deltas resolved news recs). reflexivity. }
  split; [done|]. split; [apply empty_queue_normal; auto|].
  split; [intros bid; by apply rebuild_index_exact|]. split; [apply compute_border_activity_true|done].
Qed.

(** A worker that holds two linked duplicators on borders 11 to 22. *)
Definition sync_partition : Partition :=
  mkPartition (example_pair Dup Dup) 0
    (list_to_map [(11, AgentPort 0 1); (12, AgentPort 0 2); (21, AgentPort 1 1); (22, AgentPort 1 2)])
    (mkIdRange 0 100) 0 100.

Lemma delta_round_sound_witness :
  let c := (Worker.handle_initial_partition Worker.new 0 sync_partition).1 in
  ∃ n index ds stats activity,
    Worker.handle_round_start 10 c 1 [] [] [] [] [] =
      Some (Done (Worker.mkContext Worker.DeltaActive 1
          (Some (Worker.mkDeltaState (with_index index (with_subnet n sync_partition)) index 1)),
        [Worker.LogTransition Worker.DeltaIdle Worker.DeltaActive;
         Worker.SendMessage (Worker.RoundResult 1 ds stats activity [])])) ∧
    (∀ a b, ¬ redex n a b) ∧ border_end n 0 100 11 (index !! 11).
Proof.
  intros c.
  destruct (delta_round_sound 10 c (Worker.from_initial_partition sync_partition) 1 [] [] [] [] (mkGraph ∅ [] ∅ [] ∅))
    as (n & rs & index & act & _ & H & _ & Hn & Hi & _).
  - reflexivity.
  - apply wf_b_sound. vm_compute. reflexivity.
  - apply queue_complete_b_sound. vm_compute. reflexivity.
  - left. vm_compute. reflexivity.
  - apply Nat.ltb_lt. vm_compute. reflexivity.
  - vm_compute. discriminate.
  - apply empty_gwf.
  - apply in_step_dec. apply (bool_decide_unpack _). vm_compute. exact I.
  - exists n, index. do 3 eexists. split; [exact H|]. split; [exact Hn|exact (Hi 11)].
Defined.

(** ** Commutation requests *)

(** What makes a hint unacceptable, in the order of the tests. *)
Definition hint_malformed (syms : list Symbol) (h : LocalWiringHint) : Prop :=
  N.of_nat (length syms) ≤ src_slot h ∨
  (∃ s, syms !! N.to_nat (src_slot h) = Some s ∧ total_ports s ≤ src_port h) ∨
  (∃ x p, hint_target h = AgentPort x p ∧ SLOT_MARKER_BASE + N.of_nat (length syms) ≤ x) ∨
  (∃ bid, hint_target h = FreePort bid).

Lemma hint_wire_cases syms ids h : length ids = length syms →
  (hint_malformed syms h ∧ ∃ e, Worker.hint_wire syms ids h = Done (inr e)) ∨
  (¬ hint_malformed syms h ∧ ∃ w, Worker.hint_wire syms ids h = Done (inl w)).
Proof.
  intros Hl. unfold Worker.hint_wire, hint_malformed.
  destruct (N.leb_spec (N.of_nat (length syms)) (src_slot h)) as [H1|H1]; [left; split; [auto|by eexists]|].
  destruct (lookup_lt_is_Some_2 syms (N.to_nat (src_slot h))) as [s Hs]; [lia|]. rewrite Hs. cbn [unwrap mbind outcome_bind].
  destruct (N.leb_spec (total_ports s) (src_port h)) as [H2|H2]; [left; split; [eauto|by eexists]|].
  destruct (lookup_lt_is_Some_2 ids (N.to_nat (src_slot h))) as [i Hi]; [lia|]. rewrite Hi. cbn [unwrap mbind outcome_bind].
  assert (Hn : ∀ P : Prop, (N.of_nat (length syms) ≤ src_slot h ∨
    (∃ s0, Some s = Some s0 ∧ total_ports s0 ≤ src_port h) ∨ P) → P).
  { intros P [?|[(? & [= <-] & ?)|?]]; [lia|lia|done]. }
  destruct (hint_target h) as [x p|bid]; [|left; split; [right; right; right; by eexists|by eexists]].
  destruct (N.leb_spec SLOT_MARKER_BASE x) as [H3|H3].
  - destruct (N.leb_spec (N.of_nat (length syms)) (x - SLOT_MARKER_BASE)) as [H4|H4].
    + left. split; [|by eexists]. right. right. left. exists x, p. split; [done|lia].
    + right. split; [intros [(? & ? & [= <- <-] & ?)|(? & ?)]%Hn; [lia|done]|].
      destruct (lookup_lt_is_Some_2 ids (N.to_nat (x - SLOT_MARKER_BASE))) as [j Hj]; [lia|]. rewrite Hj. by eexists.
  - right. split; [intros [(? & ? & [= <- <-] & ?)|(? & ?)]%Hn; [lia|done]|]. by eexists.
Qed.

Lemma wire_hints_cases syms ids n hints : length ids = length syms →
  (∃ h, h ∈ hints ∧ hint_malformed syms h ∧ ∃ n' e, Worker.wire_hints syms ids n hints = Done (n', Some e)) ∨
  ((∀ h, h ∈ hints → ¬ hint_malformed syms h) ∧
   ∃ ws, Forall2 (hint_ok syms ids) hints ws ∧ Worker.wire_hints syms ids n hints = Done (plug n ws, None)).
Proof.
  intros Hl. revert n. induction hints as [|h hints IH]; intros n.
  { right. split; [set_solver|]. exists []. by split; [constructor|]. }
  cbn [Worker.wire_hints]. destruct (hint_wire_cases syms ids h Hl) as [[Hm [e He]]|[Hm [w Hw]]].
  - left. exists h. split; [set_solver|]. split; [done|]. rewrite He. by eexists _, _.
  - rewrite Hw. cbn [mbind outcome_bind]. destruct (IH (connect n w.1 w.2)) as [(h' & Hin & Hbad & Hr)|[Hall (ws & Hf & Hr)]].
    + left. exists h'. split; [set_solver|]. by split.
    + right. split; [intros x [->|Hx]%elem_of_cons; [done|by apply Hall]|]. exists (w :: ws).
      split; [by constructor|]. by rewrite Hr.
Qed.

(** A worker rejects exactly the malformed commutation requests.  A request
    whose symbol list is empty is refused before anything is minted; one that
    uses a source port twice is refused before any wire is plugged; and a
    request is refused if and only if it has one of these defects or a hint
    with an unknown slot, a port its symbol does not have, a sibling marker out
    of range, or a border as target.  An accepted request mints one agent per
    symbol and plugs exactly the wires of its hints, in order. *)
Theorem request_validation_exact n pc buffer :
  wf n → (length (pc_target_symbols pc) ≤ 16)%nat → (decode_request_id (pc_request_id pc)).2 = 0 →
  next_id n + N.of_nat (length (pc_target_symbols pc)) ≤ u32_MAX →
  let syms := pc_target_symbols pc in
  let hints := pc_local_wiring pc in
  let malformed := syms = [] ∨ ¬ NoDup (hint_src <$> hints) ∨ ∃ h, h ∈ hints ∧ hint_malformed syms h in
  (malformed ∧ ∃ n' reason,
     Worker.apply_pending_commutation n pc buffer =
       Done (n', inr (Worker.MalformedLocalWiring (pc_request_id pc) reason)) ∧
     (syms = [] → n' = n) ∧
     (¬ NoDup (hint_src <$> hints) → ∀ id p, p < 3 → n'.[id, p] = n.[id, p])) ∨
  (¬ malformed ∧ ∃ n1 ids ws minted,
     spawned n (rev (minted_agents syms ids)) n1 ∧ length ids = length syms ∧
     Forall2 (hint_ok syms ids) hints ws ∧ minted_agent_id <$> minted = ids ∧
     Worker.apply_pending_commutation n pc buffer = Done (plug n1 ws, inl (buffer ++ minted))).
Proof.
  intros Hwf Hlen Hbase Hroom syms hints malformed. unfold Worker.apply_pending_commutation. fold syms hints.
  destruct (decide (syms = [])) as [He|He].
  { left. split; [by left|]. rewrite bool_decide_true by done. by eexists _, _. }
  rewrite bool_decide_false by done.
  destruct (mint_spec syms n Hwf Hroom) as (n1 & ids & Hm & Hl & Hsp). rewrite Hm. cbn [mbind outcome_bind].
  destruct (Worker.first_duplicate ∅ hints) as [[sl po]|] eqn:Ed.
  { assert (Hnd : ¬ NoDup (hint_src <$> hints)).
    { intros Hnd. rewrite (proj2 (first_duplicate_None ∅ hints)) in Ed; [done|split; [done|set_solver]]. }
    left. split; [right; by left|]. eexists _, _. split; [done|]. split; [done|].
    intros _ id p. apply (sp_target _ _ _ Hsp). }
  apply first_duplicate_None in Ed as [Hnd _].
  destruct (wire_hints_cases syms ids n1 hints Hl) as [(h & Hin & Hbad & n' & e & Hr)|[Hall (ws & Hf & Hr)]];
    rewrite Hr; cbn [mbind outcome_bind].
  - left. split; [right; right; by exists h|]. by eexists _, _.
  - right. split; [intros [?|[?|(h & Hin & Hbad)]]; [done..|by apply (Hall h)]|].
    rewrite echo_all_spec by (rewrite Hbase; lia || (unfold syms in Hl; lia)). cbn [mbind outcome_bind mret outcome_ret].
    eexists n1, ids, ws, _. split; [done|]. split; [done|]. split; [done|]. split; [|done].
    rewrite fmap_imap. clear. revert ids. induction ids as [|x l IH] using rev_ind; [done|].
    by rewrite imap_app, IH.
Qed.

(** A request whose second hint reuses a source port. *)
Definition duplicate_request : PendingCommutation :=
  mkPendingCommutation 32 [Dup; Con] [mkHint 0 1 (AgentPort (SLOT_MARKER_BASE + 1) 1); mkHint 0 1 (AgentPort 0 2)].

Lemma request_validation_exact_witness :
  (∃ n' reason, Worker.apply_pending_commutation (example_pair Con Dup) duplicate_request [] =
     Done (n', inr (Worker.MalformedLocalWiring 32 reason)) ∧ n'.[0, 2] = (example_pair Con Dup).[0, 2]).
Proof.
  destruct (request_validation_exact (example_pair Con Dup) duplicate_request []) as [[_ (n' & r & H & _ & Hk)]|[Hn _]].
  - apply wf_b_sound. vm_compute. reflexivity.
  - apply Nat.leb_le. reflexivity.
  - vm_compute. reflexivity.
  - vm_compute. discriminate.
  - exists n', r. split; [exact H|]. apply Hk; [|reflexivity].
    intros Hd. apply NoDup_cons in Hd as [Hd _]. apply Hd. left.
  - exfalso. apply Hn. right. left. intros Hd. apply NoDup_cons in Hd as [Hd _]. apply Hd. left.
Defined.

(** ** Two closed runs *)

(** What a round leaves: the stored net and the echoed agents. *)
Definition round_outcome (r : fueled (Worker.WorkerContext * list Worker.WorkerAction)) : option (Net * list MintedAgent) :=
  match r with
  | Some (Done (c, [_; Worker.SendMessage (Worker.RoundResult _ _ _ _ minted)])) =>
      (λ st, (subnet (Worker.partition st), minted)) <$> Worker.delta_state c
  | _ => None
  end.

(** Worker 0's part of the commutation of [delta_example]: the coordinator
    resolves the border and packs the resolution, the worker runs the round. *)
Definition delta_round : option (Net * list MintedAgent) :=
  match
    '(res, _, _, _) ← resolve_border_redex delta_graph (partitions delta_plan) 0 3 0;
    '(v, _) ← package_resolutions_with_pending [res] 2;
    unwrap (v !! 0%nat)
  with
  | Done (_, d) =>
      round_outcome (Worker.handle_round_start 100
        (Worker.handle_initial_partition Worker.new 0 (delta_part 0)).1 2
        (rs_border_deltas d) (rs_resolved_borders d) (rs_new_borders d) []
        (commutation_batch_to_pending <$> rs_pending_commutations d))
  | Panic => None
  end.

(** The worker does not remove the agent a resolved border consumed, and it
    reduces before its answer is used.  On a well-formed partition whose
    constructor (agent 0) commutes with a duplicator of another worker, the
    round completes; the constructor is still alive afterwards, one of its
    ports claims a wire whose other end is attached elsewhere, so the net is
    not well formed; and the duplicator echoed to the coordinator (agent 6)
    has already been consumed, its id now naming an eraser. *)
Theorem delta_round_keeps_consumed_agent :
  wf (subnet (delta_part 0)) ∧
  ∃ n minted, delta_round = Some (n, minted) ∧
    get_agent n 0 = Some (mkAgent Con 0) ∧ n.[0, 1] = AgentPort 1 0 ∧ n.[1, 0] = AgentPort 7 1 ∧ ¬ wf n ∧
    mkMinted (encode_request_id 0 0) 6 ∈ minted ∧ get_agent n 6 = Some (mkAgent Era 6).
Proof.
  split; [apply wf_b_sound; vm_compute; reflexivity|].
  assert (E : match delta_round with
    | Some (n, m) => (get_agent n 0, n.[0, 1], n.[1, 0], m, get_agent n 6) =
        (Some (mkAgent Con 0), AgentPort 1 0, AgentPort 7 1, [mkMinted 0 6; mkMinted 1 7], Some (mkAgent Era 6))
    | None => False end) by (vm_compute; reflexivity).
  destruct delta_round as [[n m]|]; [|contradiction]. injection E as H1 H2 H3 H4 H5.
  exists n, m. split; [reflexivity|]. do 3 (split; [assumption|]). split.
  - intros Hwf. destruct (wf_sym n Hwf 0 1 1 0 eq_refl H2) as (_ & Hs & _). pose proof (eq_trans (eq_sym H3) Hs). discriminate.
  - split; [|assumption]. rewrite H4. left.
Qed.

(** A partition with one id left in its range. *)
Definition tight_partition : Partition := with_subnet (with_next_id 99 (example_pair Dup Dup)) sync_partition.

(** The range test before a commutation request does not protect the
    range: with one id left, a worker that is asked for two agents mints the
    second with the first id of the next worker's range and reports success. *)
Theorem mint_overruns_range :
  next_id (subnet tight_partition) < range_end (p_id_range tight_partition) ∧
  ∃ n minted,
    round_outcome (Worker.handle_round_start 10 (Worker.handle_initial_partition Worker.new 0 tight_partition).1 1
      [] [] [] [] [mkPendingCommutation 0 [Dup; Con] []]) = Some (n, minted) ∧
    mkMinted (encode_request_id 0 1) (range_end (p_id_range tight_partition)) ∈ minted.
Proof.
  split; [vm_compute; reflexivity|]. set (r := round_outcome _).
  assert (E : snd <$> r = Some [mkMinted 0 99; mkMinted 1 100]) by (vm_compute; reflexivity).
  destruct r as [[n m]|]; [|discriminate]. exists n, m. split; [reflexivity|].
  cbn in E. injection E as ->. right. left.
Qed.
