(* ===== verification/WorkerRunSpec.v ===== *)
(** Runs of the worker's push-mode and pull-mode machines. *)
From S2P Require Import Prelude NetTypes NetCore Partition BorderGraph BorderResolver Merge Grid Worker.
Local Open Scope N_scope.

Import Worker.

(** ** The push-mode machine *)

(** The documented transitions. *)
Inductive edge : WorkerState → WorkerState → Prop :=
| edge_connect : edge Init Idle
| edge_receive : edge Idle Reducing
| edge_reduced : edge Reducing Returning
| edge_sent : edge Returning Idle
| edge_shutdown : edge Idle Done_
| edge_failed : edge Reducing Error
| edge_lost s : edge s Error.

Fixpoint worker_run (c : WorkerContext) (es : list WorkerEvent) : WorkerContext * list WorkerAction :=
  match es with
  | [] => (c, [])
  | e :: es => let '(c, a) := transition c e in let '(c, b) := worker_run c es in (c, a ++ b)
  end.

Definition logged (a : WorkerAction) : option (WorkerState * WorkerState) :=
  match a with LogTransition s t => Some (s, t) | _ => None end.

(** The logged transitions lead from one state to the other, edge by edge. *)
Fixpoint path (s : WorkerState) (l : list (WorkerState * WorkerState)) (t : WorkerState) : Prop :=
  match l with
  | [] => s = t
  | (a, b) :: l => a = s ∧ edge a b ∧ path b l t
  end.

Lemma path_app s l1 m l2 t : path s l1 m → path m l2 t → path s (l1 ++ l2) t.
Proof.
  revert s. induction l1 as [|[a b] l1 IH]; intros s; cbn; [by intros ->|].
  intros (-> & He & H1) H2. split; [done|]. split; [done|]. by apply IH.
Qed.

(** A reply to a partition: a result or a failure report. *)
Definition is_reply (a : WorkerAction) : bool :=
  match a with SendMessage (PartitionResult _ _ _) | SendMessage (ErrorMessage _ _ _) => true | _ => false end.

(** The worker starts on a partition. *)
Definition is_start (a : WorkerAction) : bool :=
  match a with LogTransition _ Reducing => true | _ => false end.

Definition count_of (f : WorkerAction → bool) (l : list WorkerAction) : nat := length (filter (λ a, f a = true) l).

Lemma count_of_app f l1 l2 : count_of f (l1 ++ l2) = (count_of f l1 + count_of f l2)%nat.
Proof. unfold count_of. by rewrite filter_app, length_app. Qed.

Definition busy (s : WorkerState) : nat := match s with Reducing => 1 | _ => 0 end.

(** Everything one transition guarantees. *)
Record transition_ok (c : WorkerContext) (c' : WorkerContext) (acts : list WorkerAction) : Prop := {
  to_round : round c' = round c;
  to_delta : delta_state c' = delta_state c;
  to_path : path (state c) (omap logged acts) (state c');
  to_silent : state c' = state c → acts = [] ∨ state c = Error;
  to_replies : (count_of is_reply acts + busy (state c') ≤ busy (state c) + count_of is_start acts)%nat;
  to_paired : state c' ≠ Error → (count_of is_reply acts + busy (state c') = busy (state c) + count_of is_start acts)%nat;
  to_error : state c = Error → state c' = Error;
}.

Lemma transition_spec c e : transition_ok c (transition c e).1 (transition c e).2.
Proof.
  destruct c as [s r d]. destruct s, e; cbn; split; cbn; try done; try lia; auto;
    repeat split; constructor.
Qed.

(** C39. The worker's push-mode machine follows its state diagram.  Over any
    sequence of events, in any interleaving, the transitions it logs form an
    unbroken path of documented transitions from its first to its last state;
    every partition it starts on is answered by at most one message, and by
    exactly one unless it is still reducing it or the run has ended in the
    error state; and the error state is never left. *)
Theorem worker_run_protocol es c acts : worker_run new es = (c, acts) →
  path Init (omap logged acts) (state c) ∧
  (count_of is_reply acts ≤ count_of is_start acts)%nat ∧
  (state c ≠ Error → count_of is_start acts = (count_of is_reply acts + busy (state c))%nat) ∧
  round c = 0 ∧ delta_state c = None.
Proof.
  assert (Hgen : ∀ es c0 c acts, worker_run c0 es = (c, acts) →
    path (state c0) (omap logged acts) (state c) ∧
    (count_of is_reply acts + busy (state c) ≤ busy (state c0) + count_of is_start acts)%nat ∧
    (state c ≠ Error → (count_of is_reply acts + busy (state c) = busy (state c0) + count_of is_start acts)%nat) ∧
    (state c0 = Error → state c = Error) ∧ round c = round c0 ∧ delta_state c = delta_state c0).
  { clear. induction es as [|e es IH]; intros c0 c acts; cbn [worker_run].
    { intros [= <- <-]. split_and!; try done; cbn; lia. }
    pose proof (transition_spec c0 e) as Ht. destruct (transition c0 e) as [c1 a]. cbn [fst snd] in Ht.
    destruct (worker_run c1 es) as [c2 b] eqn:E. intros [= <- <-].
    destruct Ht as [R D P _ L Q X]. destruct (IH c1 c2 b E) as (P' & L' & Q' & X' & R' & D').
    rewrite omap_app, !count_of_app. split; [by eapply path_app|]. split; [lia|]. split; [|split_and!; [auto|congruence..]].
    intros Hne. specialize (Q' Hne). assert (state c1 ≠ Error) by auto. specialize (Q ltac:(done)). lia. }
  intros H. destruct (Hgen es new c acts H) as (P & L & Q & _ & R & D).
  cbn in *. split; [done|]. split; [lia|]. split; [|done]. intros Hne. specialize (Q Hne). lia.
Qed.

(** Two partitions, the second one lost with the connection. *)
Lemma worker_run_protocol_witness :
  let p := empty_partition 3 in
  let r := worker_run new [Connected; SendComplete; ReceivePartition p; ReductionComplete p; SendComplete;
                           ReceivePartition p; ConnectionLost; Connected] in
  state r.1 = Error ∧ count_of is_start r.2 = 2%nat ∧ count_of is_reply r.2 = 1%nat ∧
  path Init (omap logged r.2) Error.
Proof.
  intros p r. destruct r as [c acts] eqn:E.
  destruct (worker_run_protocol _ c acts E) as (P & _).
  vm_compute in E. injection E as <- <-. split; [reflexivity|]. split; [reflexivity|]. split; [reflexivity|exact P].
Defined.

(** ** The pull-mode machine *)

(** Events are tried in turn; a refused one changes nothing. *)
Fixpoint pull_run (c : WorkerPullContext) (n : Net) (es : list WorkerPullEvent) : WorkerPullContext * Net :=
  match es with
  | [] => (c, n)
  | e :: es =>
      match try_transition_with_net c e n with
      | inl (c, n) => pull_run c n es
      | inr _ => pull_run c n es
      end
  end.

(** The event is accepted in the state. *)
Definition accepted (s : WorkerPullState) (e : WorkerPullEvent) : bool :=
  match s, e with
  | AwaitingChunkAfterResult, (AssignPartitionReceived _ | NoMoreWorkReceived | ChunkReductionComplete _) => true
  | FinalReduction, FinalReductionComplete => true
  | _, _ => false
  end.

Lemma with_streaming_twice b b' n : with_streaming b (with_streaming b' n) = with_streaming b n.
Proof. done. Qed.

Lemma with_streaming_same n : with_streaming (streaming_active n) n = n.
Proof. by destruct n. Qed.

(** The context and its net, against the initial net. *)
Definition gate_ok (n0 : Net) (id : N) (c : WorkerPullContext) (n : Net) : Prop :=
  n = with_streaming (pull_streaming c) n0 ∧ merge_attempted c = false ∧ dispatch_mode_pull c = true ∧
  pull_worker_id c = id ∧ (pull_state c = AwaitingChunkAfterResult → final_results_sent c = 0).

Lemma pull_run_gate n0 id es c1 m c n : gate_ok n0 id c1 m → pull_run c1 m es = (c, n) → gate_ok n0 id c n.
Proof.
  revert c1 m. induction es as [|e es IH]; intros c1 m Hg; cbn [pull_run]; [by intros [= <- <-]|].
  unfold try_transition_with_net. destruct (try_transition c1 e) as [c2|] eqn:Et; [|by apply IH].
  apply IH. destruct Hg as (-> & Hmg & Hdm & Hid & Hf). destruct c1 as [s w str dm rw mg fr]. cbn in *. subst.
  destruct s, e; cbn in Et; try done; injection Et as <-; destruct str; split_and!; cbn; try done; auto.
Qed.

(** The pull-mode worker keeps the net's recycling gate equal to its own
    streaming flag.  An event is accepted exactly in the states the protocol
    gives it; over any sequence of events, accepted or refused, the net is the
    initial one but for that flag, which follows the machine's; the machine
    never merges; in [AwaitingChunkAfterResult] no final result has been sent,
    and once one has been sent the gate is open again. *)
Theorem pull_worker_gate c0 n0 id es c n :
  c0 = pull_new id → streaming_active n0 = false → pull_run c0 n0 es = (c, n) →
  n = with_streaming (pull_streaming c) n0 ∧
  (∀ e, accepted (pull_state c) e = true ↔ ∃ c' n', try_transition_with_net c e n = inl (c', n')) ∧
  merge_attempted c = false ∧ dispatch_mode_pull c = true ∧ pull_worker_id c = id ∧
  (pull_state c = AwaitingChunkAfterResult → final_results_sent c = 0) ∧
  (∀ e c' n', pull_state c = FinalReduction → try_transition_with_net c e n = inl (c', n') →
     streaming_active n' = false ∧ final_results_sent c' = u32_succ (final_results_sent c)).
Proof.
  intros -> Hn0 Hrun.
  assert (Hinv : gate_ok n0 id c n).
  { eapply pull_run_gate; [|exact Hrun]. split_and!; try done. cbn. by rewrite <- Hn0, with_streaming_same. }
  destruct Hinv as (-> & Hmg & Hdm & Hid & Hf). split_and!; try done.
  - intros e. unfold try_transition_with_net. destruct c as [s w str dm rw mg fr].
    destruct s, e; cbn; (split; [intros Hx; first [done|by eexists _, _]|intros (? & ? & Hx); done]).
  - intros e c' n' Hs. unfold try_transition_with_net. destruct c as [s w str dm rw mg fr]. cbn in Hs. subst s.
    destruct e; cbn; try done. intros [= <- <-]. split; [by destruct str|done].
Qed.

Lemma pull_worker_gate_witness :
  let r := pull_run (pull_new 4) NetCore.new
    [FinalReductionComplete; AssignPartitionReceived 4; ChunkReductionComplete 4; NoMoreWorkReceived] in
  streaming_active r.2 = true ∧ pull_state r.1 = FinalReduction ∧ request_work_count r.1 = 1 ∧
  ∃ c' n', try_transition_with_net r.1 FinalReductionComplete r.2 = inl (c', n') ∧ streaming_active n' = false.
Proof.
  intros r. destruct r as [c n] eqn:E.
  destruct (pull_worker_gate (pull_new 4) NetCore.new 4 _ c n eq_refl eq_refl E) as (Hn & Ha & _ & _ & _ & _ & Hfin).
  vm_compute in E. injection E as Ec En. split; [rewrite <- En; reflexivity|]. split; [rewrite <- Ec; reflexivity|].
  split; [rewrite <- Ec; reflexivity|].
  destruct (proj1 (Ha FinalReductionComplete)) as (c' & n' & Ht); [rewrite <- Ec; reflexivity|].
  exists c', n'. split; [exact Ht|]. apply (proj1 (Hfin FinalReductionComplete c' n' ltac:(rewrite <- Ec; reflexivity) Ht)).
Defined.
