(* ===== verification/LocalDispatch.v ===== *)
(** The in-process dispatch of the delta loop
    (merge/grid_delta_integration_tests.rs): each worker is a context of
    worker.rs whose handlers are called in turn.  It closes the loop of
    DeltaGrid.v over the handlers of Worker.v, without any transport. *)
From S2P Require Import Prelude NetTypes NetCore Reduction Partition BorderGraph BorderResolver Split Merge Grid DeltaGrid Worker.
Local Open Scope N_scope.

Module LocalDelta.

Abbreviation Workers := (list Worker.WorkerContext).

Definition new_workers (num_workers : nat) : Workers := replicate num_workers Worker.new.

Definition dispatch_initial (ws : Workers) (plan : PartitionPlan) : outcome Workers :=
  if negb (length (partitions plan) =? length ws)%nat then Panic
  else mret (imap (λ i c, match partitions plan !! i with
                          | Some p => (Worker.handle_initial_partition c 0 p).1
                          | None => c end) ws).

(** Pairs whose first entry is not an agent's port are dropped. *)
Definition to_reconnection (w : PortRef * PortRef) : option Worker.LocalReconnection :=
  match w.1 with
  | AgentPort id p => Some (Worker.mkReconnection id p w.2)
  | FreePort _ => None
  end.

(** The first error ends the round; otherwise the last result counts. *)
Fixpoint result_of (w : WorkerId) (found : option RoundResultPayload) (acts : list Worker.WorkerAction)
    : option (RoundResultPayload + unit) :=
  match acts with
  | [] => inl <$> found
  | Worker.SendMessage (Worker.RoundResult r ds st act ms) :: acts =>
      result_of w (Some (mkRoundResult w r ds st act ms)) acts
  | Worker.ErrorAction _ :: _ => Some (inr tt)
  | _ :: acts => result_of w found acts
  end.

(** The text of a dispatch failure is left out. *)
Fixpoint dispatch_round_start (fuel : nat) (ws : Workers) (l : list (WorkerId * RoundStartDispatch))
    : fueled (Workers * (list RoundResultPayload + GridError)) :=
  match l with
  | [] => Some (Done (ws, inl []))
  | (w, d) :: l =>
      c ←! Some (unwrap (ws !! N.to_nat w));
      let round_num := u32_succ (Worker.round c) in
      '(c, acts) ←! Worker.handle_round_start fuel c round_num (rs_border_deltas d) (rs_resolved_borders d)
        (rs_new_borders d) (omap to_reconnection (rs_local_reconnections d))
        (commutation_batch_to_pending <$> rs_pending_commutations d);
      let ws := <[N.to_nat w := c]> ws in
      found ←! Some (unwrap (result_of w None acts));
      match found with
      | inr _ => Some (Done (ws, inr (DispatchFailed round_num [])))
      | inl r =>
          '(ws, rs) ←! dispatch_round_start fuel ws l;
          Some (Done (ws, match rs with inl rs => inl (r :: rs) | inr e => inr e end))
      end
  end.

(** Live agents whose principal port is disconnected are removed from a
    returned partition. *)
Definition cleanup_t1_violations (p : Partition) : Partition :=
  let n := subnet p in
  let dead := filter (λ id, match agents n !! N.to_nat id with
                            | Some (Some _) => bool_decide (get_target n (AgentPort id 0) = DISCONNECTED)
                            | _ => false end = true) (range_u (as_u32 (N.of_nat (length (agents n))))) in
  with_subnet (foldl remove_agent n dead) p.

Definition final_state_of (acts : list Worker.WorkerAction) : option Partition :=
  head (omap (λ a, match a with Worker.SendMessage (Worker.FinalStateResult _ p) => Some p | _ => None end) acts).

Definition dispatch_final_state_request (ws : Workers) (r : N) : outcome (Workers * list Partition) :=
  fold_outcome (λ acc c,
    '(c, acts) ← Worker.handle_final_state_request c r;
    mret (acc.1 ++ [c], acc.2 ++ match final_state_of acts with Some p => [cleanup_t1_violations p] | None => [] end))
    ([], []) ws.

(** One hundred interactions are enough fuel for a worker's round in the runs
    below; more is asked for with another instance. *)
#[export] Instance local_dispatch : WorkerDispatch Workers := {|
  DeltaGrid.dispatch_initial ws plan := ws ←! Some (dispatch_initial ws plan); Some (Done (ws, inl tt));
  DeltaGrid.dispatch_round_start := dispatch_round_start 100;
  DeltaGrid.dispatch_final_state_request ws r :=
    '(ws, ps) ←! Some (dispatch_final_state_request ws r); Some (Done (ws, inl ps));
|}.

End LocalDelta.
