(* ===== verification/DeltaGridSpec.v ===== *)
(** The delta-mode loop: what each worker is sent, what convergence means, how
    errors end a run, and a closed run that loses wires. *)
From S2P Require Import Prelude NetTypes NetCore NetInv NetDebug Reduction ReductionInv EngineInv Weight RunInv Wiring Partition.
From S2P Require Import BorderGraph BorderSpec BorderResolver Split Merge Coordinator Grid GridSpec DeltaGrid Worker LocalDispatch.
Local Open Scope N_scope.
Open Scope net_scope.

(** ** Packaging *)

(** Messages are combined field by field. *)
Definition append (d e : RoundStartDispatch) : RoundStartDispatch :=
  mkDispatch (rs_border_deltas d ++ rs_border_deltas e) (rs_local_reconnections d ++ rs_local_reconnections e)
    (rs_resolved_borders d ++ rs_resolved_borders e) (rs_new_borders d ++ rs_new_borders e)
    (rs_pending_commutations d ++ rs_pending_commutations e).

Lemma append_assoc d e f : append d (append e f) = append (append d e) f.
Proof. unfold append. cbn. by rewrite !app_assoc. Qed.

Lemma append_default_r d : append d dispatch_default = d.
Proof. destruct d. unfold append. cbn. by rewrite !app_nil_r. Qed.

Lemma append_default_l d : append dispatch_default d = d.
Proof. by destruct d. Qed.

Definition concat_dispatch (l : list RoundStartDispatch) : RoundStartDispatch := foldr append dispatch_default l.

(** What one resolution addresses to worker [w]. *)
Definition deltas_for (w : WorkerId) (e : WorkerId * WorkerDeltas) : RoundStartDispatch :=
  if e.1 =? w then mkDispatch (wd_border_deltas e.2) (wd_local_reconnections e.2) [] [] [] else dispatch_default.
Definition resolved_for (w : WorkerId) (e : N * WorkerId * WorkerId) : RoundStartDispatch :=
  if (e.1.2 =? w) || (e.2 =? w) then mkDispatch [] [] [e.1.1] [] [] else dispatch_default.
Definition entry_for (w : WorkerId) (e : AddBorderEntry) : RoundStartDispatch :=
  if e_worker_a e =? w then mkDispatch [] [] [] [(e_border_id e, e_side_a e)] []
  else if e_worker_b e =? w then mkDispatch [] [] [] [(e_border_id e, e_side_b e)] [] else dispatch_default.
Definition batch_for (w : WorkerId) (b : CommutationBatch) : RoundStartDispatch :=
  if cb_worker b =? w then mkDispatch [] [] [] [] [b] else dispatch_default.

Definition addressed (w : WorkerId) (r : BorderResolution) : RoundStartDispatch :=
  append (concat_dispatch (deltas_for w <$> worker_deltas r))
    (append (concat_dispatch (resolved_for w <$> br_resolved_borders r))
       (append (concat_dispatch (entry_for w <$> br_new_borders r))
          (concat_dispatch (batch_for w <$> br_pending_commutations r)))).

(** The workers a resolution names. *)
Definition named_workers (r : BorderResolution) : list WorkerId :=
  (worker_deltas r).*1 ++ (br_resolved_borders r ≫= λ e, [e.1.2; e.2]) ++
  (br_new_borders r ≫= λ e, [e_worker_a e; e_worker_b e]) ++ (cb_worker <$> br_pending_commutations r).

(** [f v x] appends [g w x] to the message of every worker [w]. *)
Definition appends {X} (num : nat) (f : list RoundStartDispatch → X → outcome (list RoundStartDispatch))
    (g : WorkerId → X → RoundStartDispatch) (x : X) : Prop :=
  ∀ v, length v = num → ∃ v', f v x = Done v' ∧ length v' = num ∧
    ∀ i d, v !! i = Some d → v' !! i = Some (append d (g (N.of_nat i) x)).

Lemma at_worker_appends num w k : (N.to_nat w < num)%nat →
  appends num (λ v (_ : unit), at_worker w (λ d, append d k) v) (λ i _, if w =? i then k else dispatch_default) tt.
Proof.
  intros Hw v Hv. unfold at_worker. destruct (lookup_lt_is_Some_2 v (N.to_nat w)) as [d0 Hd0]; [lia|]. rewrite Hd0.
  eexists. split; [reflexivity|]. rewrite length_insert. split; [done|]. intros i d Hd.
  destruct (N.eqb_spec w (N.of_nat i)) as [->|Hne].
  - rewrite Nat2N.id in *. rewrite list_lookup_insert_eq by (by eapply lookup_lt_Some). congruence.
  - rewrite list_lookup_insert_ne by lia. by rewrite append_default_r.
Qed.

Lemma fold_appends {X} num f g (l : list X) :
  Forall (appends num f g) l →
  appends num (λ v l, fold_outcome f v l) (λ w l, concat_dispatch (g w <$> l)) l.
Proof.
  induction 1 as [|x l Hx _ IH]; intros v Hv.
  { exists v. split; [done|]. split; [done|]. intros i d Hd. cbn. by rewrite append_default_r. }
  destruct (Hx v Hv) as (v1 & H1 & L1 & A1). destruct (IH v1 L1) as (v2 & H2 & L2 & A2).
  exists v2. cbn [fold_outcome]. rewrite H1. split; [done|]. split; [done|]. intros i d Hd.
  cbn. rewrite append_assoc. by apply A2, A1.
Qed.

Lemma at_worker_ext w f f' v : (∀ d, f d = f' d) → at_worker w f v = at_worker w f' v.
Proof. intros H. unfold at_worker. destruct (v !! N.to_nat w); [|done]. cbn. by rewrite H. Qed.

Section package.
Context (num : nat).

Definition in_range (w : WorkerId) : Prop := (N.to_nat w < num)%nat.

Lemma deltas_appends e : in_range e.1 → appends num (λ v e, at_worker e.1 (extend_deltas e.2) v) deltas_for e.
Proof.
  intros Hw v Hv.
  destruct (at_worker_appends num e.1 (mkDispatch (wd_border_deltas e.2) (wd_local_reconnections e.2) [] [] []) Hw v Hv)
    as (v' & H & L & A). exists v'. split; [|split; [done|exact A]].
  rewrite <- H. apply at_worker_ext. intros d. unfold append, extend_deltas. cbn. by rewrite !app_nil_r.
Qed.

Lemma batch_appends b : in_range (cb_worker b) → appends num (λ v b, at_worker (cb_worker b) (push_batch b) v) batch_for b.
Proof.
  intros Hw v Hv. destruct (at_worker_appends num (cb_worker b) (mkDispatch [] [] [] [] [b]) Hw v Hv)
    as (v' & H & L & A). exists v'. split; [|split; [done|exact A]].
  rewrite <- H. apply at_worker_ext. intros d. unfold append, push_batch. cbn. by rewrite !app_nil_r.
Qed.

(** Two pushes, to the two sides of a border; only one for a self-border. *)
Lemma both_appends wa wb ka kb v : in_range wa → in_range wb → length v = num →
  ∃ v', (v ← at_worker wa (λ d, append d ka) v; if wa =? wb then mret v else at_worker wb (λ d, append d kb) v) = Done v' ∧
    length v' = num ∧ ∀ i d, v !! i = Some d →
      v' !! i = Some (append d (if wa =? N.of_nat i then ka else if wb =? N.of_nat i then kb else dispatch_default)).
Proof.
  intros Ha Hb Hv. destruct (at_worker_appends num wa ka Ha v Hv) as (v1 & -> & L1 & A1). cbn [mbind outcome_bind].
  destruct (N.eqb_spec wa wb) as [->|Hne].
  - exists v1. split; [done|]. split; [done|]. intros i d Hd. rewrite (A1 i d Hd). by destruct (wb =? N.of_nat i).
  - destruct (at_worker_appends num wb kb Hb v1 L1) as (v2 & H2 & L2 & A2). exists v2. split; [exact H2|].
    split; [done|]. intros i d Hd. rewrite (A2 i _ (A1 i d Hd)). f_equal.
    destruct (N.eqb_spec wa (N.of_nat i)), (N.eqb_spec wb (N.of_nat i)); try lia; by rewrite ?append_default_r.
Qed.

Lemma resolved_appends e : in_range e.1.2 → in_range e.2 → appends num package_resolved resolved_for e.
Proof.
  intros Ha Hb v Hv. destruct e as [[bid wa] wb].
  destruct (both_appends wa wb (mkDispatch [] [] [bid] [] []) (mkDispatch [] [] [bid] [] []) v Ha Hb Hv) as (v' & H & L & A).
  exists v'. split; [|split; [done|]].
  - rewrite <- H. unfold package_resolved.
    rewrite (at_worker_ext wa (push_resolved bid) (λ d, append d (mkDispatch [] [] [bid] [] [])))
      by (intros d; unfold append; cbn; by rewrite !app_nil_r).
    destruct (at_worker wa _ v) as [v1|]; [|done]. cbn. destruct (wa =? wb); [done|]. apply at_worker_ext.
    intros d. unfold append; cbn; by rewrite !app_nil_r.
  - intros i d Hd. rewrite (A i d Hd). unfold resolved_for. cbn. by destruct (wa =? N.of_nat i), (wb =? N.of_nat i).
Qed.

Lemma entry_appends e : in_range (e_worker_a e) → in_range (e_worker_b e) → appends num package_entry entry_for e.
Proof.
  intros Ha Hb v Hv.
  destruct (both_appends (e_worker_a e) (e_worker_b e) (mkDispatch [] [] [] [(e_border_id e, e_side_a e)] [])
    (mkDispatch [] [] [] [(e_border_id e, e_side_b e)] []) v Ha Hb Hv) as (v' & H & L & A).
  exists v'. split; [|split; [done|exact A]]. rewrite <- H. unfold package_entry.
  rewrite (at_worker_ext (e_worker_a e) (push_new (e_border_id e, e_side_a e))
    (λ d, append d (mkDispatch [] [] [] [(e_border_id e, e_side_a e)] [])))
    by (intros d; unfold append; cbn; by rewrite !app_nil_r).
  destruct (at_worker (e_worker_a e) _ v) as [v1|]; [|done]. cbn. destruct (_ =? _); [done|]. apply at_worker_ext.
  intros d. unfold append; cbn; by rewrite !app_nil_r.
Qed.

Lemma package_one_appends r p : Forall in_range (named_workers r) →
  appends num (λ v r, '(v, _) ← package_one (v, p) r; mret v) addressed r ∧
  ∀ v v' p', package_one (v, p) r = Done (v', p') → p' = p ++ br_pending_new_borders r.
Proof.
  unfold named_workers. rewrite !Forall_app. intros (H1 & H2 & H3 & H4). split.
  - intros v Hv. unfold package_one. cbn [fst snd].
    destruct (fold_appends num (λ v e, at_worker e.1 (extend_deltas e.2) v) deltas_for (worker_deltas r)) with (v := v)
      as (v1 & -> & L1 & A1); [|done|].
    { rewrite Forall_fmap in H1. eapply Forall_impl; [exact H1|]. intros e He. by apply deltas_appends. }
    cbn [mbind outcome_bind].
    destruct (fold_appends num package_resolved resolved_for (br_resolved_borders r)) with (v := v1)
      as (v2 & -> & L2 & A2); [|done|].
    { rewrite Forall_bind in H2. eapply Forall_impl; [exact H2|]. intros e He. unfold compose in He. rewrite !Forall_cons in He.
      destruct He as (? & ? & _). by apply resolved_appends. }
    cbn [mbind outcome_bind].
    destruct (fold_appends num package_entry entry_for (br_new_borders r)) with (v := v2)
      as (v3 & -> & L3 & A3); [|done|].
    { rewrite Forall_bind in H3. eapply Forall_impl; [exact H3|]. intros e He. unfold compose in He. rewrite !Forall_cons in He.
      destruct He as (? & ? & _). by apply entry_appends. }
    cbn [mbind outcome_bind].
    destruct (fold_appends num (λ v b, at_worker (cb_worker b) (push_batch b) v) batch_for (br_pending_commutations r))
      with (v := v3) as (v4 & -> & L4 & A4); [|done|].
    { rewrite Forall_fmap in H4. eapply Forall_impl; [exact H4|]. intros b Hb. by apply batch_appends. }
    exists v4. split; [done|]. split; [done|]. intros i d Hd. unfold addressed. rewrite !append_assoc.
    by apply A4, A3, A2, A1.
  - intros v v' p' H. unfold package_one in H. cbn [fst snd] in H.
    repeat (apply outcome_bind_Done in H as (? & _ & H)). by injection H as _ <-.
Qed.
End package.

Lemma package_fold num rs v p :
  Forall (λ r, Forall (in_range num) (named_workers r)) rs → length v = num →
  ∃ v', fold_outcome package_one (v, p) rs = Done (v', p ++ (rs ≫= br_pending_new_borders)) ∧ length v' = num ∧
    ∀ i d, v !! i = Some d → v' !! i = Some (append d (concat_dispatch (addressed (N.of_nat i) <$> rs))).
Proof.
  intros Hrs. revert v p. induction Hrs as [|r rs Hr _ IH]; intros v p Hv.
  { exists v. cbn. rewrite app_nil_r. split; [done|]. split; [done|]. intros i d Hd. by rewrite append_default_r. }
  destruct (package_one_appends num r p Hr) as [Ha Hp].
  destruct (Ha v Hv) as (v1 & H1 & L1 & A1). apply outcome_bind_Done in H1 as ([v1' p1] & H1 & [= ->]).
  pose proof (Hp v v1 p1 H1) as ->.
  destruct (IH v1 (p ++ br_pending_new_borders r) L1) as (v2 & H2 & L2 & A2).
  exists v2. cbn [fold_outcome]. rewrite H1, H2. rewrite bind_cons, app_assoc. split; [done|]. split; [done|].
  intros i d Hd. cbn. rewrite append_assoc. by apply A2, A1.
Qed.

(** Packaging sends every worker exactly what the resolutions address to it.
    When every worker they name exists, it does not panic and returns one
    message per worker, in worker order, empty ones included; a worker's
    message is the concatenation, in resolution order, of the deltas under its
    id, of the resolved borders it is a side of (once for a border with both
    sides on it), of its side of each new border, and of its commutation
    requests; and the pending borders of all resolutions are returned in order
    beside them. *)
Theorem package_resolutions_exact rs num : N.of_nat num ≤ 4294967296 →
  Forall (λ r, Forall (in_range num) (named_workers r)) rs →
  let messages := (λ w, (w, concat_dispatch (addressed w <$> rs))) <$> (N.of_nat <$> seq 0 num) in
  package_resolutions_with_pending rs num = Done (messages, rs ≫= br_pending_new_borders) ∧
  package_resolutions rs num = Done messages.
Proof.
  intros Hnum Hrs messages.
  enough (E : package_resolutions_with_pending rs num = Done (messages, rs ≫= br_pending_new_borders)).
  { split; [done|]. unfold package_resolutions. by rewrite E. }
  unfold package_resolutions_with_pending.
  destruct (package_fold num rs (replicate num dispatch_default) [] Hrs (length_replicate _ _)) as (v & -> & L & A).
  cbn [mbind outcome_bind mret outcome_ret]. rewrite app_nil_l. do 2 f_equal. apply list_eq. intros i.
  rewrite list_lookup_imap. unfold messages. rewrite !list_lookup_fmap.
  destruct (decide (i < num)%nat) as [Hi|Hi].
  - rewrite (A i dispatch_default) by (by apply lookup_replicate_2). rewrite lookup_seq_lt by done. cbn.
    rewrite as_u32_small by (unfold u32_MAX; lia). by rewrite append_default_l.
  - rewrite (lookup_ge_None_2 v) by lia. by rewrite lookup_seq_ge by lia.
Qed.

Lemma package_resolutions_exact_witness :
  let r := mkResolution [(1, mkWorkerDeltas [] [(AgentPort 1 1, AgentPort 9 2)])] [(4, 1, 0); (5, 0, 0)] [] 
             [mkBatch 0 0 [Era; Era] []] [] in
  package_resolutions [r] 2 =
    Done [(0, mkDispatch [] [] [4; 5] [] [mkBatch 0 0 [Era; Era] []]);
          (1, mkDispatch [] [(AgentPort 1 1, AgentPort 9 2)] [4] [] [])].
Proof.
  intros r. destruct (package_resolutions_exact [r] 2) as [_ H].
  - vm_compute. discriminate.
  - apply Forall_singleton. vm_compute. repeat constructor.
  - rewrite H. vm_compute. reflexivity.
Defined.

(** ** The graph during a run *)

Lemma register_results_gwf g rs g' l : gwf g → register_results g rs = Done (inl (g', l)) → gwf g'.
Proof.
  revert g g' l. induction rs as [|r rs IH]; intros g g' l Hg; cbn [register_results]; [by intros [= <- <-]|].
  intros ([g1 p] & H1 & H)%outcome_bind_Done. apply register_gwf in H1; [|done].
  destruct p as [p|e]; [|done]. apply outcome_bind_Done in H as (rest & H2 & H).
  destruct rest as [[g2 l2]|]; [|done]. injection H as <- _. by eapply IH.
Qed.

Lemma remove_all_gwf l g : gwf g → gwf (foldl (λ g bid, (Border.remove_border bid g).1) g l).
Proof. revert g. induction l as [|b l IH]; intros g Hg; [done|]. by apply IH, remove_border_gwf. Qed.

Lemma apply_results_gwf rs g : gwf g →
  gwf (foldl (λ g r, Border.apply_deltas (rr_worker_id r) (rr_border_deltas r) g) g rs).
Proof. revert g. induction rs as [|r rs IH]; intros g Hg; [done|]. by apply IH, apply_deltas_gwf. Qed.

Lemma resolve_border_redex_graph g ps bid nb nc r g' nb' nc' :
  resolve_border_redex g ps bid nb nc = Done (r, g', nb', nc') → g' = (Border.remove_border bid g).1.
Proof.
  unfold resolve_border_redex. intros (st & _ & (pa & _ & (pb & _ & ([ia sa] & _ & ([ib sb] & _ &
    ([[r1 nb1] nc1] & _ & [= _ <- _ _])%outcome_bind_Done)%outcome_bind_Done)%outcome_bind_Done)%outcome_bind_Done)%outcome_bind_Done)%outcome_bind_Done.
  done.
Qed.

Lemma resolve_all_gwf g ps nb nc bids rs g' nb' nc' :
  gwf g → resolve_all g ps nb nc bids = Done (rs, g', nb', nc') → gwf g' ∧ length rs = length bids.
Proof.
  revert g nb nc rs. induction bids as [|bid bids IH]; intros g nb nc rs Hg; cbn [resolve_all]; [by intros [= <- <- _ _]|].
  intros ([[[r g1] nb1] nc1] & H1 & ([[[rs2 g2] nb2] nc2] & H2 & [= <- <- -> ->])%outcome_bind_Done)%outcome_bind_Done.
  apply resolve_border_redex_graph in H1 as ->.
  destruct (IH _ _ _ _ (remove_border_gwf bid g Hg) H2) as [? Hl]. split; [done|]. cbn. by rewrite Hl.
Qed.

Lemma enqueue_gwf bs g : gwf g → gwf (Border.enqueue_pending_borders bs g).
Proof. intros [Hb Ha]. by split. Qed.

(** Seen from the graph itself. *)
Definition no_principal_pair (g : BorderGraph) : Prop :=
  ∀ bid st, borders g !! bid = Some st → is_principal_pair (side_a st) (side_b st) = false.

Lemma no_redexes_spec g : gwf g → graph_has_no_redexes g = true → no_principal_pair g.
Proof.
  intros Hg Hn%bool_decide_eq_true bid st Hst. destruct (gw_border g Hg bid st Hst) as [_ Hr]. rewrite <- Hr.
  destruct (is_redex st) eqn:E; [|done].
  assert (Hin : bid ∈ active_redexes g) by (apply (gw_active g Hg); by exists st).
  assert (Hd : (bid, st) ∈ Border.detect_border_redexes g).
  { unfold Border.detect_border_redexes. apply list_elem_of_omap. exists bid. split; [by apply elem_of_elements|]. by rewrite Hst. }
  rewrite Hn in Hd. by apply elem_of_nil in Hd.
Qed.

Lemma convergence_no_redexes rs g :
  check_delta_convergence rs g = true ∨ check_delta_convergence_post_resolve rs g = true → graph_has_no_redexes g = true.
Proof.
  unfold check_delta_convergence, check_delta_convergence_post_resolve.
  destruct (all_no_local_redexes rs), (graph_has_no_redexes g); cbn; try done; rewrite ?andb_false_r; naive_solver.
Qed.

Lemma quiet_local rs : all_no_local_redexes rs = true → sum_local (rr_stats <$> rs) = 0.
Proof.
  unfold all_no_local_redexes, sum_local. induction rs as [|r rs IH]; [done|].
  cbn. intros [H%N.eqb_eq Hr]%andb_true_iff. rewrite H. by apply IH.
Qed.

Section loop.
Context `{WorkerDispatch D} (c : GridConfig).

(** One entry per round in each list (and the initial agent count), and the
    total. *)
Record delta_metrics_ok (m : GridMetrics) : Prop := {
  dm_rounds : rounds m = as_u32 (N.of_nat (length (local_interactions_per_round m)));
  dm_border : length (border_interactions_per_round m) = length (local_interactions_per_round m);
  dm_redexes : length (border_redexes_per_round m) = length (local_interactions_per_round m);
  dm_agents : length (agents_per_round m) = S (length (local_interactions_per_round m));
  dm_stats : length (worker_stats_per_round m) = length (local_interactions_per_round m);
  dm_total : gm_total_interactions m =
    sumN (local_interactions_per_round m) + sumN (border_interactions_per_round m);
}.

Record loop_ok (l : DeltaLoop (D := D)) : Prop := {
  lo_graph : gwf (l_graph l);
  lo_metrics : delta_metrics_ok (base (l_metrics l));
  lo_running : converged (base (l_metrics l)) = false;
}.

(** How the loop breaks. *)
Definition loop_end (l : DeltaLoop (D := D)) : Prop :=
  gwf (l_graph l) ∧ delta_metrics_ok (base (l_metrics l)) ∧
  ((converged (base (l_metrics l)) = true ∧ no_principal_pair (l_graph l)) ∨
   (converged (base (l_metrics l)) = false ∧ delta_max_rounds_hit (l_metrics l) = Some true ∧
    ∃ k, max_rounds c = Some k ∧ k ≤ rounds (base (l_metrics l)))).

(** The counters of a complete round. *)
Lemma round_metrics_ok m rs cache k border by_rule : delta_metrics_ok m →
  delta_metrics_ok (add_totals (sum_local (rr_stats <$> rs)) border by_rule
    (push_border border (push_border_redexes k (count_results rs cache m)))).
Proof.
  intros [R B E A S T]. split; cbn; rewrite ?length_app, ?sumN_app; cbn; try lia.
  rewrite R, u32_succ_as. f_equal. lia.
Qed.

Lemma last_round_metrics_ok m rs cache k : delta_metrics_ok m → all_no_local_redexes rs = true →
  delta_metrics_ok (push_border 0 (push_border_redexes k (count_results rs cache m))).
Proof.
  intros [R B E A S T] Hq. split; cbn; rewrite ?length_app, ?sumN_app; cbn; try lia.
  - rewrite R, u32_succ_as. f_equal. lia.
  - rewrite (quiet_local rs Hq). lia.
Qed.

Lemma set_converged_ok b m : delta_metrics_ok m → delta_metrics_ok (set_converged b m).
Proof. by intros []. Qed.

Lemma delta_round_spec l l' stop : loop_ok l →
  delta_round c l = Some (Done (inl (l', stop))) → if stop : bool then loop_end l' else loop_ok l'.
Proof.
  intros [Hg Hm Hc]. unfold delta_round.
  destruct (check_max_rounds_cap c (base (l_metrics l))) eqn:Ecap.
  { intros [= <- <-]. split; [done|]. split; [by apply set_converged_ok|]. right. split; [done|]. split; [done|].
    unfold check_max_rounds_cap in Ecap. destruct (max_rounds c) as [k|]; [|done]. exists k. split; [done|].
    by apply N.leb_le. }
  intros ([d results] & _ & H1)%run_bind_Done. destruct results as [results|]; [|done].
  apply run_bind_Done in H1 as (reg & [= Hreg] & H1). destruct reg as [[g promoted]|]; [|done].
  apply register_results_gwf in Hreg; [|done].
  destruct (promoted_intra_worker_lafont_wires promoted _) as [wires spurious].
  set (g1 := foldl _ g spurious) in H1. set (g2 := foldl _ g1 results) in H1.
  assert (Hg2 : gwf g2) by (by apply apply_results_gwf, remove_all_gwf).
  set (cache := apply_results_to_cache results (l_cache l)) in H1. set (bids := (Border.detect_border_redexes g2).*1) in H1.
  destruct (strict_bsp c && negb (bool_decide (promoted ≠ [])) && check_delta_convergence_post_resolve results g2) eqn:Es.
  - injection H1 as <- <-. apply andb_true_iff in Es as [_ Es]. split; [done|]. split.
    + apply set_converged_ok, last_round_metrics_ok; [done|]. unfold check_delta_convergence_post_resolve in Es.
      by destruct (all_no_local_redexes results).
    + left. split; [done|]. apply no_redexes_spec; [done|]. apply (convergence_no_redexes results). by right.
  - clear Es. apply run_bind_Done in H1 as ([[[rs g3] nb] nc] & [= Hres] & H1).
    apply resolve_all_gwf in Hres as [Hg3 _]; [|done].
    match type of H1 with context [if ?b then _ else _] => destruct b eqn:Ec end.
    + injection H1 as <- <-. apply andb_true_iff in Ec as [_ Ec]. split; [done|]. split.
      * apply set_converged_ok. by apply round_metrics_ok.
      * left. split; [done|]. apply no_redexes_spec; [done|]. apply (convergence_no_redexes results).
        destruct (N.of_nat (length rs) =? 0); auto.
    + apply run_bind_Done in H1 as ([packaged pending] & _ & [= <- <-]).
      split; [by apply enqueue_gwf|by apply round_metrics_ok|done].
Qed.

(** C12. What the delta loop guarantees, whatever the workers answer.  If it
    breaks, the coordinator's redex index is exact; the metrics have one entry
    per round and their total is the sum of the local and border interactions;
    and either it reports convergence and no border joins two principal
    ports, or it reports that the round cap was hit, and it was. *)
Theorem delta_loop_sound fuel l l' :
  loop_ok l → delta_loop fuel c l = Some (Done (inl l')) → loop_end l'.
Proof.
  revert l. induction fuel as [|fuel IH]; intros l Hl; [done|]. cbn [delta_loop].
  intros (r & Hr & H1)%run_bind_Done. destruct r as [[l1 stop]|]; [|done].
  pose proof (delta_round_spec l l1 stop Hl Hr) as Hs. destruct stop; [by injection H1 as <-|by eapply IH].
Qed.

End loop.

(** The redex index of a concrete graph, checked by evaluation. *)
Definition gwf_b (g : BorderGraph) : bool :=
  forallb (λ e : N * BorderState, (border_id e.2 =? e.1) &&
    Bool.eqb (is_redex e.2) (is_principal_pair (side_a e.2) (side_b e.2)) &&
    Bool.eqb (bool_decide (e.1 ∈ active_redexes g)) (is_redex e.2)) (map_to_list (borders g)) &&
  forallb (λ bid, bool_decide (is_Some (borders g !! bid))) (elements (active_redexes g)).

Lemma gwf_b_sound g : gwf_b g = true → gwf g.
Proof.
  unfold gwf_b. rewrite andb_true_iff, !forallb_forall. intros [Hb Ha].
  assert (Hb' : ∀ bid st, borders g !! bid = Some st → border_id st = bid ∧
    is_redex st = is_principal_pair (side_a st) (side_b st) ∧ (bid ∈ active_redexes g ↔ is_redex st = true)).
  { intros bid st Hst. specialize (Hb (bid, st)). cbn in Hb.
    rewrite <- list_elem_of_In, elem_of_map_to_list, !andb_true_iff in Hb. destruct (Hb Hst) as [[H1 H2] H3].
    apply N.eqb_eq in H1. apply eqb_prop in H2, H3. split; [done|]. split; [done|].
    rewrite <- H3. by rewrite bool_decide_eq_true. }
  split; [intros bid st Hst; by destruct (Hb' bid st Hst) as (? & ? & _)|]. intros bid. split.
  - intros Hin. specialize (Ha bid). rewrite <- list_elem_of_In, elem_of_elements, bool_decide_eq_true in Ha.
    destruct (Ha Hin) as [st Hst]. exists st. split; [done|]. by apply (Hb' bid st Hst).
  - intros (st & Hst & Hr). by apply (Hb' bid st Hst).
Qed.

(** ** Closed runs

    Two constructors whose principal wire crosses the cut; the auxiliary ports
    of each hold erasers of its own worker. *)
Definition crossing_pair : Net :=
  match fold_outcome (λ n s, '(n, _) ← create_agent n s; mret n) new [Con; Era; Era; Con; Era; Era] with
  | Done n =>
      foldl (λ n w, connect n w.1 w.2) n
        [(AgentPort 0 0, AgentPort 3 0); (AgentPort 0 1, AgentPort 1 0); (AgentPort 0 2, AgentPort 2 0);
         (AgentPort 3 1, AgentPort 4 0); (AgentPort 3 2, AgentPort 5 0)]
  | Panic => new
  end.

Definition delta_config (strict : bool) : GridConfig :=
  mkGridConfig 2 (Some 20) strict true true false false false false false 30000 50 500 10000
    DisableUnderDelta 10000 RoundRobin Auto 16.

Definition crossing_plan : PartitionPlan :=
  match split (H := ContiguousIdStrategy) crossing_pair 2 with Done plan => plan | Panic => plan_default end.

(** The loop's state after the initial dispatch. *)
Definition crossing_loop : DeltaLoop (D := LocalDelta.Workers) :=
  let m := mkDeltaMetrics (push_agents 6 metrics_default) true None in
  let g := match Border.from_partition_plan crossing_plan with Done g => g | Panic => mkGraph ∅ [] ∅ [] ∅ end in
  let ws := match LocalDelta.dispatch_initial (LocalDelta.new_workers 2) crossing_plan with Done ws => ws | Panic => [] end in
  mkLoop ws m g (partitions crossing_plan) (border_alloc_from_graph g) 0 (empty_payload 2).

Definition crossing_run (strict : bool) :=
  run_grid_delta (H := ContiguousIdStrategy) (H0 := LocalDelta.local_dispatch) border_keys 30 100 crossing_pair (delta_config strict)
    (LocalDelta.new_workers 2).

(** A delta run of two rounds that breaks the net it returns, with no error:
    the workers are the handlers of worker.rs, called in process.  The net is
    well formed, it reduces to the empty net, and the run reports convergence;
    but resolving the border between the two constructors connects the erasers
    across workers to agents the worker does not own, or to ports that the
    removal of the consumed constructors then disconnects, so the four erasers
    are returned without their wires and never annihilate. *)
Theorem delta_run_loses_wires :
  wf crossing_pair ∧
  (∃ n st, reduce_all 10 crossing_pair = Some (Done (n, st)) ∧ count_live_agents n = 0%nat) ∧
  ∀ strict, ∃ ws n m, crossing_run strict = Some (Done (ws, n, m)) ∧
    converged (base m) = true ∧ gm_total_interactions (base m) = 1 ∧ count_live_agents n = 4%nat ∧
    ∀ id, id ∈ [1; 2; 4; 5] → get_agent n id = Some (mkAgent Era id) ∧ n.[id, 0] = DISCONNECTED.
Proof.
  split; [apply wf_b_sound; vm_compute; reflexivity|]. split.
  - assert (E : match reduce_all 10 crossing_pair with
      | Some (Done (n, st)) => count_live_agents n = 0%nat | _ => False end) by (vm_compute; reflexivity).
    destruct (reduce_all 10 crossing_pair) as [[[n st]|]|]; try contradiction. by exists n, st.
  - intros strict.
    assert (E : match crossing_run strict with
      | Some (Done (ws, n, m)) =>
          (converged (base m), gm_total_interactions (base m), count_live_agents n,
           (λ id, (get_agent n id, n.[id, 0])) <$> [1; 2; 4; 5]) =
          (true, 1, 4%nat, (λ id, (Some (mkAgent Era id), DISCONNECTED)) <$> [1; 2; 4; 5])
      | _ => False end) by (destruct strict; vm_compute; reflexivity).
    destruct (crossing_run strict) as [[[[ws n] m]|]|]; try contradiction. injection E as Hc Ht Hl H1 H1' H2 H2' H4 H4' H5 H5'.
    exists ws, n, m. split; [reflexivity|]. do 3 (split; [assumption|]). intros id Hid.
    rewrite !elem_of_cons, elem_of_nil in Hid. destruct Hid as [->|[->|[->|[->|[]]]]]; by split.
Qed.

Definition crossing_delta := delta_loop (H0 := LocalDelta.local_dispatch) 30 (delta_config true) crossing_loop.

Lemma delta_loop_sound_witness : ∃ l', loop_ok crossing_loop ∧
  crossing_delta = Some (Done (inl l')) ∧
  loop_end (delta_config true) l'.
Proof.
  assert (Hok : loop_ok crossing_loop).
  { split; [apply gwf_b_sound; vm_compute; reflexivity|split; vm_compute; reflexivity|reflexivity]. }
  assert (E : match crossing_delta with Some (Done (inl _)) => true | _ => false end = true)
    by (vm_compute; reflexivity).
  destruct (crossing_delta) as [[[l'|]|]|] eqn:El; try discriminate E.
  exists l'. split; [exact Hok|]. split; [reflexivity|].
  exact (delta_loop_sound (delta_config true) 30 crossing_loop l' Hok El).
Defined.
