(* ===== verification/Church.v ===== *)
(** Church numerals and arithmetic on them as nets (encoding/church.rs,
    encoding/arithmetic.rs).

    The agents an encoder creates are kept in lists, and the code indexes them
    inside their bounds; the model reads them with a total lookup. *)
From S2P Require Import Prelude NetTypes NetCore Reduction.
Local Open Scope N_scope.

(** A sequence of [connect] calls. *)
Definition connect_all (n : Net) (ws : list (PortRef * PortRef)) : Net :=
  foldl (λ n w, connect n w.1 w.2) n ws.

(** [create_agent] [k] times, the ids in order. *)
Fixpoint create_many (n : Net) (s : Symbol) (k : nat) : outcome (Net * list AgentId) :=
  match k with
  | O => mret (n, [])
  | S k =>
      '(n, id) ← create_agent n s;
      '(n, ids) ← create_many n s k;
      mret (n, id :: ids)
  end.

Module Church.

Definition MAX_CHURCH : N := 1000000.
Definition MAX_CHURCH_NAT : N := 10000.

(** ** Encoding *)

(** The wires of [n >= 2] applications, in the order they are connected. *)
Definition dup_wires (apps dups : list AgentId) (i : nat) : list (PortRef * PortRef) :=
  let last := pred (length apps) in
  [(AgentPort (dups !!! i) 1, AgentPort (apps !!! i) 0);
   if (i + 1 <? length dups)%nat then (AgentPort (dups !!! i) 2, AgentPort (dups !!! (i + 1)%nat) 0)
   else (AgentPort (dups !!! i) 2, AgentPort (apps !!! last) 0)].

Definition chain_wires (lam_f lam_x : AgentId) (apps dups : list AgentId) : list (PortRef * PortRef) :=
  let last := pred (length apps) in
  [(AgentPort lam_f 1, AgentPort (dups !!! 0%nat) 0)] ++
  (seq 0 (length dups) ≫= dup_wires apps dups) ++
  [(AgentPort lam_x 1, AgentPort (apps !!! last) 2)] ++
  ((λ i, (AgentPort (apps !!! i) 1, AgentPort (apps !!! (i - 1)%nat) 2)) <$> rev (seq 1 last)) ++
  [(AgentPort (apps !!! 0%nat) 1, AgentPort lam_x 2)].

Definition encode_church_into (n : Net) (k : N) : outcome (Net * AgentId) :=
  if MAX_CHURCH <? k then Panic
  else
    '(n, lam_f) ← create_agent n Con;
    '(n, lam_x) ← create_agent n Con;
    let n := connect n (AgentPort lam_f 2) (AgentPort lam_x 0) in
    if k =? 0 then
      '(n, era) ← create_agent n Era;
      mret (connect_all n [(AgentPort lam_f 1, AgentPort era 0); (AgentPort lam_x 1, AgentPort lam_x 2)], lam_f)
    else if k =? 1 then
      '(n, app) ← create_agent n Con;
      mret (connect_all n [(AgentPort lam_f 1, AgentPort app 0); (AgentPort lam_x 1, AgentPort app 2);
                           (AgentPort lam_x 2, AgentPort app 1)], lam_f)
    else
      '(n, apps) ← create_many n Con (N.to_nat k);
      '(n, dups) ← create_many n Dup (N.to_nat k - 1);
      mret (connect_all n (chain_wires lam_f lam_x apps dups), lam_f).

Definition encode_nat (k : N) : outcome Net :=
  if MAX_CHURCH <? k then Panic
  else
    '(n, lam_f) ← encode_church_into NetCore.new k;
    mret (with_root (Some (AgentPort lam_f 0)) n).

(** ** Decoding *)

(** [net.get_agent(id)?.symbol != s] returns [None]. *)
Definition expect_symbol (n : Net) (s : Symbol) (id : AgentId) : option unit :=
  a ← get_agent n id; if decide (symbol a = s) then Some tt else None.

(** The agent whose principal port [r] is. *)
Definition principal_of (r : PortRef) : option AgentId :=
  match r with AgentPort id 0 => Some id | _ => None end.

(** The application chain; the outer [None] is "out of fuel". *)
Fixpoint walk_chain (fuel : nat) (n : Net) (lam_x : AgentId) (count : N) (current : PortRef) : option (option N) :=
  match fuel with
  | O => None
  | S fuel =>
      match get_target n current with
      | AgentPort id port =>
          if (id =? lam_x) && (port =? 1) then Some (Some count)
          else if negb (port =? 1) then Some None
          else
            match expect_symbol n Con id with
            | None => Some None
            | Some _ => walk_chain fuel n lam_x (count + 1) (AgentPort id 2)
            end
      | FreePort _ => Some None
      end
  end.

(** The two abstractions. *)
Definition find_lambdas (n : Net) : option (AgentId * AgentId) :=
  root ← root n;
  lam_f ← principal_of root;
  expect_symbol n Con lam_f ;;
  lam_x ← principal_of (get_target n (AgentPort lam_f 2));
  expect_symbol n Con lam_x ;;
  Some (lam_f, lam_x).

Definition decode_nat (fuel : nat) (n : Net) : option (option N) :=
  if negb (bool_decide (redex_queue n = [])) then Some None
  else
    match find_lambdas n with
    | None => Some None
    | Some (lam_f, lam_x) =>
        let f_target := get_target n (AgentPort lam_f 1) in
        let x_bind := get_target n (AgentPort lam_x 1) in
        let x_body := get_target n (AgentPort lam_x 2) in
        if bool_decide (f_target = DISCONNECTED) || bool_decide (x_bind = DISCONNECTED)
           || bool_decide (x_body = DISCONNECTED) then Some None
        else if bool_decide (x_bind = AgentPort lam_x 2) && bool_decide (x_body = AgentPort lam_x 1)
        then Some (Some 0)
        else walk_chain fuel n lam_x 0 (AgentPort lam_x 2)
    end.

End Church.

Module Arithmetic.
Import Church.

(** ** Reading the result of a reduction *)

(** The scan over the live agents, in id order: [Some r] stops it. *)
Fixpoint scan_root (n : Net) (l : list Agent) (candidate : option AgentId) : option AgentId :=
  match l with
  | [] => candidate
  | a :: l =>
      if decide (symbol a = Con) then
        match get_target n (AgentPort (agent_id a) 0) with
        | FreePort fid =>
            if negb (fid =? u32_MAX) then Some (agent_id a)
            else match candidate with
                 | Some _ => None
                 | None => scan_root n l (Some (agent_id a))
                 end
        | AgentPort _ _ => scan_root n l candidate
        end
      else scan_root n l candidate
  end.

Definition discover_root (n : Net) : Net * bool :=
  match scan_root n (live_agents n) None with
  | Some id => (with_root (Some (AgentPort id 0)) (disconnect n (AgentPort id 0)), true)
  | None => (n, false)
  end.

(** ** Building *)

Definition wire_add_into (n : Net) (m_port n_port : PortRef) : outcome (Net * AgentId) :=
  '(n, lam_m) ← create_agent n Con;
  '(n, lam_n) ← create_agent n Con;
  '(n, lam_f) ← create_agent n Con;
  '(n, lam_x) ← create_agent n Con;
  '(n, app_mf) ← create_agent n Con;
  '(n, app_nf) ← create_agent n Con;
  '(n, app_nfx) ← create_agent n Con;
  '(n, app_all) ← create_agent n Con;
  '(n, dup_f) ← create_agent n Dup;
  let n := connect_all n
    [(AgentPort lam_m 2, AgentPort lam_n 0); (AgentPort lam_n 2, AgentPort lam_f 0);
     (AgentPort lam_f 2, AgentPort lam_x 0);
     (AgentPort lam_m 1, AgentPort app_mf 0); (AgentPort lam_n 1, AgentPort app_nf 0);
     (AgentPort lam_f 1, AgentPort dup_f 0); (AgentPort lam_x 1, AgentPort app_nfx 2);
     (AgentPort dup_f 1, AgentPort app_mf 2); (AgentPort dup_f 2, AgentPort app_nf 2);
     (AgentPort app_nf 1, AgentPort app_nfx 0); (AgentPort app_nfx 1, AgentPort app_all 2);
     (AgentPort app_mf 1, AgentPort app_all 0); (AgentPort app_all 1, AgentPort lam_x 2)] in
  '(n, app_1) ← create_agent n Con;
  let n := connect_all n [(AgentPort app_1 0, AgentPort lam_m 0); (AgentPort app_1 2, m_port)] in
  '(n, app_2) ← create_agent n Con;
  mret (connect_all n [(AgentPort app_1 1, AgentPort app_2 0); (AgentPort app_2 2, n_port)], app_2).

Definition wire_mul_into (n : Net) (m_port n_port : PortRef) : outcome (Net * AgentId) :=
  '(n, lam_m) ← create_agent n Con;
  '(n, lam_n) ← create_agent n Con;
  '(n, lam_f) ← create_agent n Con;
  '(n, app_nf) ← create_agent n Con;
  '(n, app_m) ← create_agent n Con;
  let n := connect_all n
    [(AgentPort lam_m 2, AgentPort lam_n 0); (AgentPort lam_n 2, AgentPort lam_f 0);
     (AgentPort lam_m 1, AgentPort app_m 0); (AgentPort lam_n 1, AgentPort app_nf 0);
     (AgentPort lam_f 1, AgentPort app_nf 2);
     (AgentPort app_nf 1, AgentPort app_m 2); (AgentPort app_m 1, AgentPort lam_f 2)] in
  '(n, app_1) ← create_agent n Con;
  let n := connect_all n [(AgentPort app_1 0, AgentPort lam_m 0); (AgentPort app_1 2, m_port)] in
  '(n, app_2) ← create_agent n Con;
  mret (connect_all n [(AgentPort app_1 1, AgentPort app_2 0); (AgentPort app_2 2, n_port)], app_2).

(** The exponential's combinator applied to two numerals. *)
Definition wire_exp_into (n : Net) (m_root n_root : AgentId) : outcome (Net * AgentId) :=
  '(n, lam_m) ← create_agent n Con;
  '(n, lam_n) ← create_agent n Con;
  '(n, app_nm) ← create_agent n Con;
  let n := connect_all n
    [(AgentPort lam_m 2, AgentPort lam_n 0); (AgentPort lam_n 1, AgentPort app_nm 0);
     (AgentPort lam_m 1, AgentPort app_nm 2); (AgentPort app_nm 1, AgentPort lam_n 2)] in
  '(n, app_1) ← create_agent n Con;
  let n := connect_all n [(AgentPort app_1 0, AgentPort lam_m 0); (AgentPort app_1 2, AgentPort m_root 0)] in
  '(n, app_2) ← create_agent n Con;
  mret (connect_all n [(AgentPort app_1 1, AgentPort app_2 0); (AgentPort app_2 2, AgentPort n_root 0)], app_2).

(** The result wire goes to free port 0. *)
Definition output (n : Net) (app_out : AgentId) : Net :=
  with_root None (connect n (AgentPort app_out 1) (FreePort 0)).

Definition build_add (a b : N) : outcome Net :=
  '(n, m_root) ← encode_church_into NetCore.new a;
  '(n, n_root) ← encode_church_into n b;
  '(n, app_out) ← wire_add_into n (AgentPort m_root 0) (AgentPort n_root 0);
  mret (output n app_out).

Definition build_mul (a b : N) : outcome Net :=
  '(n, m_root) ← encode_church_into NetCore.new a;
  '(n, n_root) ← encode_church_into n b;
  '(n, app_out) ← wire_mul_into n (AgentPort m_root 0) (AgentPort n_root 0);
  mret (output n app_out).

Definition build_exp (base exp : N) : outcome Net :=
  if exp =? 0 then encode_nat 1
  else
    '(n, m_root) ← encode_church_into NetCore.new base;
    '(n, n_root) ← encode_church_into n exp;
    '(n, app_out) ← wire_exp_into n m_root n_root;
    mret (output n app_out).

(** The terms [k-1], ..., [1] are added in front of the accumulator. *)
Definition add_square (acc : Net * PortRef) (i : N) : outcome (Net * PortRef) :=
  '(n, term_root) ← encode_church_into acc.1 (wrap64 (i * i));
  '(n, app_out) ← wire_add_into n (AgentPort term_root 0) acc.2;
  mret (n, AgentPort app_out 1).

Definition build_sum_of_squares (k : N) : outcome Net :=
  if k =? 0 then encode_nat 0
  else if k =? 1 then encode_nat 1
  else
    '(n, last_square) ← encode_church_into NetCore.new (wrap64 (k * k));
    '(n, acc_port) ← fold_outcome add_square (n, AgentPort last_square 0)
      (rev ((λ i, N.of_nat i) <$> seq 1 (N.to_nat k - 1)));
    mret (with_root None (connect n acc_port (FreePort 0))).

(** ** Read-back of shared chains *)

(** At most [fuel] duplicators are crossed. *)
Fixpoint follow_through (fuel : nat) (n : Net) (current : PortRef) : option PortRef :=
  match fuel with
  | O => None
  | S fuel =>
      match current with
      | AgentPort id port =>
          if (port =? 1) || (port =? 2) then
            a ← get_agent n id;
            if decide (symbol a = Dup) then follow_through fuel n (get_target n (AgentPort id 0))
            else Some current
          else Some current
      | FreePort _ => Some current
      end
  end.

Definition follow_through_dup_aux (n : Net) (start : PortRef) : option PortRef := follow_through 1000 n start.

Inductive DupBranchEnd : Type := XVariable | DupPrincipal (id : AgentId) | Other.

Definition classify_dup_branch (n : Net) (start : PortRef) (lam_x : AgentId) : option DupBranchEnd :=
  if decide (start = AgentPort lam_x 1) then Some XVariable
  else
    match start with
    | AgentPort id port =>
        a ← get_agent n id;
        if bool_decide (symbol a = Dup) && ((port =? 1) || (port =? 2)) then
          match get_target n (AgentPort id 0) with
          | AgentPort tid tp =>
              if (tid =? lam_x) && (tp =? 1) then Some XVariable
              else if tp =? 0 then
                t ← get_agent n tid;
                Some (if decide (symbol t = Dup) then DupPrincipal tid else Other)
              else Some Other
          | FreePort _ => Some Other
          end
        else if bool_decide (symbol a = Dup) && (port =? 0) then Some (DupPrincipal id)
        else Some Other
    | FreePort _ => Some Other
    end.

Fixpoint count_boundary (fuel : nat) (n : Net) (multiplier : N) (current_dup lam_x : AgentId) : option N :=
  match fuel with
  | O => None
  | S fuel =>
      c1 ← classify_dup_branch n (get_target n (AgentPort current_dup 1)) lam_x;
      c2 ← classify_dup_branch n (get_target n (AgentPort current_dup 2)) lam_x;
      match c1, c2 with
      | XVariable, _ | _, XVariable => Some multiplier
      | DupPrincipal next, _ | _, DupPrincipal next => count_boundary fuel n (multiplier + 1) next lam_x
      | Other, Other => None
      end
  end.

Definition count_dup_boundary_multiplier (n : Net) (first_dup lam_x : AgentId) : option N :=
  count_boundary 1000 n 2 first_dup lam_x.

(** The outer [None] is "out of fuel". *)
Fixpoint shared_chain (fuel : nat) (n : Net) (lam_x : AgentId) (count : N) (current : PortRef) : option (option N) :=
  match fuel with
  | O => None
  | S fuel =>
      match current with
      | AgentPort id p =>
          if (id =? lam_x) && (p =? 1) then Some (Some count)
          else if p =? 1 then
            match expect_symbol n Con id with
            | None => Some None
            | Some _ => shared_chain fuel n lam_x (count + 1) (get_target n (AgentPort id 2))
            end
          else if p =? 0 then
            Some (expect_symbol n Dup id ;;
                  multiplier ← count_dup_boundary_multiplier n id lam_x;
                  Some (wrap64 (count * multiplier)))
          else Some None
      | FreePort _ => Some None
      end
  end.

Definition decode_shared_chain (fuel : nat) (n : Net) : option (option N) :=
  match (p ← find_lambdas n; start ← follow_through_dup_aux n (get_target n (AgentPort p.2 2)); Some (p.2, start)) with
  | None => Some None
  | Some (lam_x, start) => shared_chain fuel n lam_x 0 start
  end.

Definition decode_either (fuel : nat) (n : Net) : option (option N) :=
  r ← decode_nat fuel n;
  match r with Some k => Some (Some k) | None => decode_shared_chain fuel n end.

Definition decode_nat_or_shared (fuel : nat) (n : Net) : option (option N) :=
  match root n with
  | Some _ => decode_either fuel n
  | None => let '(n, found) := discover_root n in if found then decode_either fuel n else Some None
  end.

(** [build] is the net the closure builds. *)
Definition compute_arithmetic (fuel : nat) (build : outcome Net) : fueled (Net * option N) :=
  n ←! Some build;
  '(n, _) ←! reduce_all fuel n;
  let '(n, found) := discover_root n in
  if found then r ← decode_either fuel n; Some (Done (n, r)) else Some (Done (n, None)).

End Arithmetic.
