(* ===== verification/ChurchSpec.v ===== *)
(** Church numerals: the encoder builds the net of the numeral, the decoder
    reads it back and returns on every well-formed net; what the read-back of
    arithmetic results gets right and wrong. *)
From S2P Require Import Prelude NetTypes NetCore NetInv NetDebug Reduction ReductionInv MergeInv Church.
Local Open Scope N_scope.
Open Scope net_scope.
Import Church Arithmetic.

(** ** What a numeral is *)

(** Port [r] leads, through the principal ports of duplicators, to the
    variable port of abstraction [lam]. *)
Inductive bound_to (n : Net) (lam : AgentId) : PortRef → Prop :=
| bound_here r : get_target n r = AgentPort lam 1 → bound_to n lam r
| bound_dup r d p : get_target n r = AgentPort d p → p = 1 ∨ p = 2 →
    get_agent n d = Some (mkAgent Dup d) → bound_to n lam (AgentPort d 0) → bound_to n lam r.

(** From [r], [k] applications, each the argument of the one before it, end at
    the variable of [lam_x]; [P] holds of each application. *)
Inductive spine (n : Net) (lam_x : AgentId) (P : AgentId → Prop) : PortRef → N → Prop :=
| spine_end r : get_target n r = AgentPort lam_x 1 → spine n lam_x P r 0
| spine_app r id k : get_target n r = AgentPort id 1 → id ≠ lam_x → symbol <$> get_agent n id = Some Con →
    P id → spine n lam_x P (AgentPort id 2) k → spine n lam_x P r (k + 1).

(** Two nested abstractions whose body is a spine of [k] applications. *)
Definition numeral (P : AgentId → AgentId → Prop) (n : Net) (lam_f : AgentId) (k : N) : Prop :=
  ∃ lam_x, symbol <$> get_agent n lam_f = Some Con ∧ symbol <$> get_agent n lam_x = Some Con ∧
    n.[lam_f, 2] = AgentPort lam_x 0 ∧ n.[lam_f, 1] ≠ DISCONNECTED ∧ n.[lam_x, 1] ≠ DISCONNECTED ∧
    spine n lam_x (P lam_f) (AgentPort lam_x 2) k.

(** The numeral: every application applies the outer variable. *)
Definition church (n : Net) : AgentId → N → Prop :=
  numeral (λ lam_f id, bound_to n lam_f (AgentPort id 0)) n.

Lemma spine_weaken n x (P Q : AgentId → Prop) r k : (∀ id, P id → Q id) → spine n x P r k → spine n x Q r k.
Proof. intros HPQ. induction 1; [by apply spine_end|eapply spine_app; eauto]. Qed.

Lemma spine_app_1 n x P r id : get_target n r = AgentPort id 1 → id ≠ x → symbol <$> get_agent n id = Some Con →
  P id → spine n x P (AgentPort id 2) 0 → spine n x P r 1.
Proof. intros. change 1 with (0 + 1). by eapply spine_app. Qed.

(** ** Creating and connecting *)

Lemma connect_all_plug n ws : connect_all n ws = plug n ws.
Proof. done. Qed.

Lemma create_many_total k n s : wf n → next_id n + N.of_nat k ≤ u32_MAX →
  ∃ n' ids, create_many n s k = Done (n', ids).
Proof.
  revert n. induction k as [|k IH]; intros n Hwf Hk; [by eexists _, _|]. cbn [create_many].
  destruct (create_agent_total n s) as (n1 & id & E); [lia|]. rewrite E. cbn [mbind outcome_bind].
  pose proof (create_agent_spec n s n1 id Hwf E) as [W _ _ _ _ _ Nx _ _ _].
  destruct (IH n1 W) as (n2 & ids & E2); [lia|]. rewrite E2. by eexists _, _.
Qed.

Lemma create_many_spec k m l n s n' ids : spawned m l n → create_many n s k = Done (n', ids) →
  length ids = k ∧ spawned m (reverse (mkAgent s <$> ids) ++ l) n'.
Proof.
  revert l n ids. induction k as [|k IH]; intros l n ids Hs; cbn [create_many]; [by intros [= <- <-]|].
  intros ([n1 id] & E1 & ([n2 ids2] & E2 & [= <- <-])%outcome_bind_Done)%outcome_bind_Done.
  destruct (IH _ _ _ (spawned_cons _ _ _ _ _ _ Hs E1) E2) as [Hl Hsp].
  split; [cbn; by rewrite Hl|]. cbn [fmap list_fmap]. by rewrite reverse_cons, <- app_assoc.
Qed.

(** Wires with distinct agent ports as ends. *)
Lemma plug_distinct n ws : wf n → Forall (free_end n) (ends ws) → NoDup (ends ws) →
  plugged n ws (plug n ws) ∧
  ∀ a p b q, (AgentPort a p, AgentPort b q) ∈ ws → p < 3 → q < 3 →
    (plug n ws).[a, p] = AgentPort b q ∧ (plug n ws).[b, q] = AgentPort a p.
Proof.
  intros Hwf Hf Hnd.
  assert (Hpl : plugged n ws (plug n ws)).
  { apply plug_spec; [done|]. split; [done|]. by apply NoDup_filter. }
  split; [done|]. intros a p b q Hin Hp Hq. destruct (partner_of ws _ _ Hnd Hin) as [E1 E2].
  by rewrite !(pl_target _ _ _ Hpl), E1, E2.
Qed.

Lemma plug_untouched n ws n' b q : plugged n ws n' → q < 3 → AgentPort b q ∉ ends ws → n'.[b, q] = n.[b, q].
Proof.
  intros Hpl Hq Hni. rewrite (pl_target _ _ _ Hpl) by done.
  destruct (partner ws (AgentPort b q)) eqn:E; [|done]. by apply partner_Some in E.
Qed.

(** No wire joins two principal ports. *)
Definition not_principal_wire (w : PortRef * PortRef) : Prop :=
  match w with (AgentPort _ 0, AgentPort _ 0) => False | _ => True end.

Lemma no_redexes ws : Forall not_principal_wire ws → wire_redexes ws = [].
Proof.
  induction 1 as [|w ws Hw _ IH]; [done|]. rewrite wire_redexes_cons, IH, app_nil_r.
  destruct w as [[a [|p]|f] [b [|q]|g]]; try done; by destruct p.
Qed.

(** A list that covers [l], no longer than it, has the elements of [l]. *)
Lemma cover_nodup {A} (l k : list A) : NoDup l → (length k ≤ length l)%nat → (∀ x, x ∈ l → x ∈ k) →
  NoDup k ∧ ∀ x, x ∈ k → x ∈ l.
Proof.
  intros Hnd Hlen Hin. apply NoDup_ListNoDup in Hnd.
  assert (Hi : incl l k) by (intros x Hx; apply list_elem_of_In, Hin, list_elem_of_In, Hx).
  split; [apply NoDup_ListNoDup; by eapply NoDup_incl_NoDup|].
  intros x Hx. apply list_elem_of_In. eapply NoDup_length_incl; [done|exact Hlen|exact Hi|]. by apply list_elem_of_In.
Qed.

(** ** The wires of two or more applications *)
Section chain.
Context (lf lx : AgentId) (apps dups : list AgentId) (k : nat).
Hypothesis Hk : (2 ≤ k)%nat.
Hypothesis Hla : length apps = k.
Hypothesis Hld : length dups = (k - 1)%nat.
Hypothesis Hids : NoDup (lf :: lx :: apps ++ dups).

Let app_at i : AgentId := apps !!! i.
Let dup_at i : AgentId := dups !!! i.
Let ws := chain_wires lf lx apps dups.

Lemma wire_head : (AgentPort lf 1, AgentPort (dup_at 0) 0) ∈ ws.
Proof. by left. Qed.

Lemma dup_wires_in i w : (i < k - 1)%nat → w ∈ dup_wires apps dups i → w ∈ ws.
Proof.
  intros Hi Hw. unfold ws, chain_wires. rewrite !elem_of_app. right; left. apply list_elem_of_bind.
  exists i. split; [done|]. apply elem_of_seq. lia.
Qed.

Lemma wire_left i : (i < k - 1)%nat → (AgentPort (dup_at i) 1, AgentPort (app_at i) 0) ∈ ws.
Proof. intros Hi. apply (dup_wires_in i); [done|]. by left. Qed.

Lemma wire_right i : (i + 1 < k - 1)%nat → (AgentPort (dup_at i) 2, AgentPort (dup_at (i + 1)) 0) ∈ ws.
Proof.
  intros Hi. apply (dup_wires_in i); [lia|]. unfold dup_wires.
  rewrite (proj2 (Nat.ltb_lt (i + 1) (length dups))) by lia. right. by left.
Qed.

Lemma wire_last : (AgentPort (dup_at (k - 2)) 2, AgentPort (app_at (k - 1)) 0) ∈ ws.
Proof.
  apply (dup_wires_in (k - 2)); [lia|]. unfold dup_wires.
  rewrite (proj2 (Nat.ltb_ge (k - 2 + 1) (length dups))) by lia.
  unfold app_at. replace (pred (length apps)) with (k - 1)%nat by lia. right. by left.
Qed.

Lemma wire_x : (AgentPort lx 1, AgentPort (app_at (k - 1)) 2) ∈ ws.
Proof.
  unfold ws, chain_wires. rewrite !elem_of_app. right; right; left.
  unfold app_at. replace (pred (length apps)) with (k - 1)%nat by lia. by left.
Qed.

Lemma wire_result i : (1 ≤ i < k)%nat → (AgentPort (app_at i) 1, AgentPort (app_at (i - 1)) 2) ∈ ws.
Proof.
  intros Hi. unfold ws, chain_wires. rewrite !elem_of_app. do 3 right. left. apply list_elem_of_fmap.
  exists i. split; [done|]. apply list_elem_of_In, in_rev. rewrite rev_involutive. apply list_elem_of_In, elem_of_seq. lia.
Qed.

Lemma wire_body : (AgentPort (app_at 0) 1, AgentPort lx 2) ∈ ws.
Proof. unfold ws, chain_wires. rewrite !elem_of_app. do 4 right. by left. Qed.

(** Every port of the new agents, and the three ports of the abstractions, is
    an end of one wire. *)
Definition ports_of (id : AgentId) : list PortRef := [AgentPort id 0; AgentPort id 1; AgentPort id 2].
Definition chain_ports : list PortRef :=
  [AgentPort lf 1; AgentPort lx 1; AgentPort lx 2] ++ ((apps ++ dups) ≫= ports_of).

Lemma chain_ports_nodup : NoDup chain_ports.
Proof.
  apply NoDup_cons in Hids as [Hf H]. apply NoDup_cons in H as [Hx H].
  assert (Hne : lf ≠ lx) by set_solver.
  assert (Hout : ∀ y p, y ∉ apps ++ dups → AgentPort y p ∉ ((apps ++ dups) ≫= ports_of)).
  { intros y p Hy (z & Hz & Hin)%list_elem_of_bind. apply Hy. unfold ports_of in Hz. set_solver. }
  unfold chain_ports. cbn [app]. rewrite !NoDup_cons, !not_elem_of_cons. split_and!; try congruence.
  - apply Hout. set_solver.
  - by apply Hout.
  - by apply Hout.
  - apply NoDup_bind; [|intros y _; repeat constructor; set_solver|done].
    unfold ports_of. set_solver.
Qed.

Lemma ends_length (l : list (PortRef * PortRef)) : length (ends l) = (2 * length l)%nat.
Proof. unfold ends. induction l as [|w l IH]; [done|]. cbn. lia. Qed.

Lemma chain_wires_length : length ws = (3 * k)%nat.
Proof.
  unfold ws, chain_wires. rewrite !length_app, length_fmap, length_rev, length_seq. cbn [length].
  assert (E : ∀ l, length (l ≫= dup_wires apps dups) = (2 * length l)%nat).
  { intros l. induction l as [|i l IH]; [done|]. rewrite bind_cons, length_app, IH. cbn. lia. }
  rewrite E, length_seq. lia.
Qed.

Lemma chain_covers r : r ∈ chain_ports → r ∈ ends ws.
Proof.
  assert (Hw : ∀ a b, (a, b) ∈ ws → a ∈ ends ws ∧ b ∈ ends ws).
  { intros a b Hin. split; apply in_ends; exists (a, b); cbn; auto. }
  unfold chain_ports. rewrite elem_of_app, !elem_of_cons, elem_of_nil.
  intros [[->|[->|[->|[]]]]|(id & Hr & Hid)%list_elem_of_bind].
  - apply (Hw _ _ wire_head).
  - apply (Hw _ _ wire_x).
  - apply (Hw _ _ wire_body).
  - apply elem_of_app in Hid as [[i Hi]%list_elem_of_lookup|[i Hi]%list_elem_of_lookup];
      pose proof (lookup_lt_Some _ _ _ Hi) as Hlt; apply list_lookup_total_correct in Hi; subst id;
      unfold ports_of in Hr; rewrite !elem_of_cons, elem_of_nil in Hr; destruct Hr as [->|[->|[->|[]]]].
    + destruct (decide (i < k - 1)%nat) as [Hi|Hi]; [apply (Hw _ _ (wire_left i Hi))|].
      replace i with (k - 1)%nat by lia. apply (Hw _ _ wire_last).
    + destruct (decide (i = 0)%nat) as [->|Hi]; [apply (Hw _ _ wire_body)|].
      apply (Hw _ _ (wire_result i ltac:(lia))).
    + destruct (decide (i = k - 1)%nat) as [->|Hi]; [apply (Hw _ _ wire_x)|].
      pose proof (wire_result (i + 1) ltac:(lia)) as H. replace (i + 1 - 1)%nat with i in H by lia. apply (Hw _ _ H).
    + destruct (decide (i = 0)%nat) as [->|Hi]; [apply (Hw _ _ wire_head)|].
      pose proof (wire_right (i - 1) ltac:(lia)) as H. replace (i - 1 + 1)%nat with i in H by lia. apply (Hw _ _ H).
    + apply (Hw _ _ (wire_left i ltac:(lia))).
    + destruct (decide (i = k - 2)%nat) as [->|Hi]; [apply (Hw _ _ wire_last)|].
      apply (Hw _ _ (wire_right i ltac:(lia))).
Qed.

Lemma chain_ends : NoDup (ends ws) ∧ ∀ r, r ∈ ends ws → r ∈ chain_ports.
Proof.
  apply cover_nodup; [apply chain_ports_nodup| |apply chain_covers].
  rewrite ends_length, chain_wires_length. unfold chain_ports.
  assert (E : ∀ l, length (l ≫= ports_of) = (3 * length l)%nat).
  { intros l. induction l as [|i l IH]; [done|]. rewrite bind_cons, length_app, IH. cbn. lia. }
  rewrite length_app, E, length_app, Hla, Hld. cbn [length]. lia.
Qed.

Lemma chain_no_redexes : wire_redexes ws = [].
Proof.
  apply no_redexes. unfold ws, chain_wires. rewrite !Forall_app. split_and!; try (by repeat constructor).
  - apply Forall_bind, Forall_forall. intros i _. unfold compose, dup_wires.
    repeat constructor. by destruct (_ <? _)%nat.
  - apply Forall_fmap, Forall_forall. by intros i _.
Qed.

(** What the wires make of the ports. *)
Section wired.
Context (n : Net).
Hypothesis Hw : ∀ a p b q, (AgentPort a p, AgentPort b q) ∈ ws → p < 3 → q < 3 →
  n.[a, p] = AgentPort b q ∧ n.[b, q] = AgentPort a p.
Hypothesis Hdup : ∀ i, (i < k - 1)%nat → get_agent n (dup_at i) = Some (mkAgent Dup (dup_at i)).
Hypothesis Happ : ∀ i, (i < k)%nat → get_agent n (app_at i) = Some (mkAgent Con (app_at i)).

Lemma dup_bound i : (i < k - 1)%nat → bound_to n lf (AgentPort (dup_at i) 0).
Proof.
  induction i as [|i IH]; intros Hi.
  - apply bound_here. by apply (Hw _ _ _ _ wire_head).
  - apply (bound_dup n lf _ (dup_at i) 2); [|by right|by apply Hdup; lia|by apply IH; lia].
    pose proof (wire_right i ltac:(lia)) as H. replace (i + 1)%nat with (S i) in H by lia. by apply (Hw _ _ _ _ H).
Qed.

Lemma app_bound i : (i < k)%nat → bound_to n lf (AgentPort (app_at i) 0).
Proof.
  intros Hi. destruct (decide (i < k - 1)%nat) as [Hi'|Hi'].
  - apply (bound_dup n lf _ (dup_at i) 1); [by apply (Hw _ _ _ _ (wire_left i Hi'))|by left|by apply Hdup|by apply dup_bound].
  - replace i with (k - 1)%nat by lia.
    apply (bound_dup n lf _ (dup_at (k - 2)) 2); [by apply (Hw _ _ _ _ wire_last)|by right|apply Hdup; lia|apply dup_bound; lia].
Qed.

Lemma app_not_lx i : (i < k)%nat → app_at i ≠ lx.
Proof.
  intros Hi E. apply NoDup_cons in Hids as [_ [Hx _]%NoDup_cons]. apply Hx. rewrite <- E, elem_of_app. left.
  unfold app_at. apply list_elem_of_lookup. exists i. by apply list_lookup_lookup_total_lt; lia.
Qed.

(** From the result of application [i], [k - i] applications. *)
Lemma app_spine j : (j < k)%nat → ∀ r,
  get_target n r = AgentPort (app_at (k - 1 - j)) 1 →
  spine n lx (λ id, bound_to n lf (AgentPort id 0)) r (N.of_nat j + 1).
Proof.
  induction j as [|j IH]; intros Hj r Hr.
  - apply (spine_app _ _ _ r (app_at (k - 1 - 0))); [done|apply app_not_lx; lia|by rewrite Happ by lia|apply app_bound; lia|].
    apply spine_end. replace (k - 1 - 0)%nat with (k - 1)%nat by lia. by apply (Hw _ _ _ _ wire_x).
  - replace (N.of_nat (S j)) with (N.of_nat j + 1) by lia.
    apply (spine_app _ _ _ r (app_at (k - 1 - S j))); [done|apply app_not_lx; lia|by rewrite Happ by lia|apply app_bound; lia|].
    apply IH; [lia|]. pose proof (wire_result (k - 1 - j) ltac:(lia)) as H.
    replace (k - 1 - j - 1)%nat with (k - 1 - S j)%nat in H by lia. by apply (Hw _ _ _ _ H).
Qed.

Lemma chain_spine : spine n lx (λ id, bound_to n lf (AgentPort id 0)) (AgentPort lx 2) (N.of_nat k).
Proof.
  replace (N.of_nat k) with (N.of_nat (k - 1) + 1) by lia. apply app_spine; [lia|].
  replace (k - 1 - (k - 1))%nat with 0%nat by lia. by apply (Hw _ _ _ _ wire_body).
Qed.
End wired.
End chain.

(** ** Encoding into a net *)

(** [n] is [m] and more: agents and wires of [m] are still there. *)
Record grown (m n : Net) : Prop := {
  gr_wf : wf n;
  gr_frame : same_frame m n;
  gr_queue : redex_queue n = redex_queue m;
  gr_agent : ∀ c a, get_agent m c = Some a → get_agent n c = Some a;
  gr_target : ∀ c q, live m c → q < 3 → n.[c, q] = m.[c, q];
}.

(** The two abstractions, wired to each other. *)
Record lambdas (m : Net) (lf lx : AgentId) (n : Net) : Prop := {
  la_grown : grown m n;
  la_ne : lf ≠ lx;
  la_new : get_agent m lf = None ∧ get_agent m lx = None;
  la_f : get_agent n lf = Some (mkAgent Con lf);
  la_x : get_agent n lx = Some (mkAgent Con lx);
  la_body : n.[lf, 2] = AgentPort lx 0;
  la_free : n.[lf, 0] = DISCONNECTED ∧ n.[lf, 1] = DISCONNECTED ∧ n.[lx, 1] = DISCONNECTED ∧ n.[lx, 2] = DISCONNECTED;
  la_next : next_id n ≤ next_id m + 2;
}.

Lemma lambdas_spec m n1 lf n2 lx : wf m → create_agent m Con = Done (n1, lf) → create_agent n1 Con = Done (n2, lx) →
  lambdas m lf lx (connect n2 (AgentPort lf 2) (AgentPort lx 0)).
Proof.
  intros Hwf E1 E2. pose proof (spawned_cons _ _ _ _ _ _ (spawned_cons _ _ _ _ _ _ (spawned_nil m Hwf) E1) E2) as Hs.
  pose proof (sp_nodup _ _ _ Hs) as Hnd. cbn in Hnd.
  assert (Hne : lf ≠ lx) by (apply NoDup_cons in Hnd as [H _]; set_solver). clear Hnd.
  pose proof (sp_dead _ _ _ Hs (mkAgent Con lf) ltac:(set_solver)) as Hf.
  pose proof (sp_dead _ _ _ Hs (mkAgent Con lx) ltac:(set_solver)) as Hx. cbn in Hf, Hx.
  change (connect n2 (AgentPort lf 2) (AgentPort lx 0)) with (plug n2 [(AgentPort lf 2, AgentPort lx 0)]).
  destruct (plug_distinct n2 [(AgentPort lf 2, AgentPort lx 0)]) as [Hpl Hw].
  { by apply Hs. }
  { cbn [ends flat_map app fst snd]. rewrite !Forall_cons. split_and!; [| |constructor].
    - apply (spawned_end m _ n2 Con lf 2 Hwf Hs); [set_solver|done].
    - apply (spawned_end m _ n2 Con lx 0 Hwf Hs); [set_solver|done]. }
  { cbn. repeat constructor; set_solver. }
  assert (Hu : ∀ c q, q < 3 → (c, q) ≠ (lf, 2) → (c, q) ≠ (lx, 0) →
    (plug n2 [(AgentPort lf 2, AgentPort lx 0)]).[c, q] = m.[c, q]).
  { intros c q Hq H1 H2. rewrite (plug_untouched _ _ _ _ _ Hpl) by (first [done|cbn; set_solver]). by apply (sp_target _ _ _ Hs). }
  assert (Hd : ∀ c q, q < 3 → get_agent m c = None → m.[c, q] = DISCONNECTED) by (intros; by apply dead_disconnected).
  split; try done.
  - split; [by apply Hpl|etrans; [apply Hs|apply Hpl]| | |].
    + by rewrite (pl_queue _ _ _ Hpl), app_nil_r, (sp_queue _ _ _ Hs).
    + intros c a Ha. rewrite plug_get_agent, (sp_old _ _ _ Hs); [done|]. cbn. set_solver.
    + intros c q [a Ha] Hq. apply Hu; [done|congruence|congruence].
  - rewrite plug_get_agent. apply (sp_new _ _ _ Hs (mkAgent Con lf)). set_solver.
  - rewrite plug_get_agent. apply (sp_new _ _ _ Hs (mkAgent Con lx)). set_solver.
  - by apply (Hw lf 2 lx 0); [left|..].
  - split_and!; (rewrite Hu; [by apply Hd|done|congruence|congruence]).
  - rewrite (pl_next _ _ _ Hpl). pose proof (sp_next _ _ _ Hs). cbn in *. lia.
Qed.

(** Agents are created and wired to the three ports the abstractions left. *)
Section finish.
Context (m n n4 : Net) (lf lx : AgentId) (l : list Agent) (ws : list (PortRef * PortRef)).
Hypothesis Hla : lambdas m lf lx n.
Hypothesis Hsp : spawned n l n4.
Hypothesis Hends : ∀ r, r ∈ ends ws → r = AgentPort lf 1 ∨ r = AgentPort lx 1 ∨ r = AgentPort lx 2 ∨
  ∃ s id p, r = AgentPort id p ∧ mkAgent s id ∈ l ∧ p < total_ports s.
Hypothesis Hnd : NoDup (ends ws).
Hypothesis Hred : wire_redexes ws = [].

Lemma finish_free : Forall (free_end n4) (ends ws).
Proof.
  destruct (la_free _ _ _ _ Hla) as (_ & F1 & F2 & F3). pose proof (gr_wf _ _ (la_grown _ _ _ _ Hla)) as Hwf.
  assert (Hl : ∀ id p, get_agent n id = Some (mkAgent Con id) → p < 3 → n.[id, p] = DISCONNECTED → free_end n4 (AgentPort id p)).
  { intros id p Ha Hp Hd. apply (spawned_free_end n l n4 _ Hsp). split; [by exists (mkAgent Con id)|done]. }
  apply Forall_forall. intros r Hr. destruct (Hends r Hr) as [->|[->|[->|(s & id & p & -> & Hin & Hp)]]].
  - apply Hl; [exact (la_f _ _ _ _ Hla)|lia|done].
  - apply Hl; [exact (la_x _ _ _ _ Hla)|lia|done].
  - apply Hl; [exact (la_x _ _ _ _ Hla)|lia|done].
  - by eapply spawned_end.
Qed.

Lemma finish_spec : let n' := connect_all n4 ws in
  grown m n' ∧ n'.[lf, 2] = AgentPort lx 0 ∧ n'.[lf, 0] = DISCONNECTED ∧
  get_agent n' lf = Some (mkAgent Con lf) ∧ get_agent n' lx = Some (mkAgent Con lx) ∧
  (∀ a, a ∈ l → get_agent n' (agent_id a) = Some a) ∧
  next_id n' ≤ next_id m + 2 + N.of_nat (length l) ∧
  ∀ a p b q, (AgentPort a p, AgentPort b q) ∈ ws → p < 3 → q < 3 → n'.[a, p] = AgentPort b q ∧ n'.[b, q] = AgentPort a p.
Proof.
  cbv zeta. rewrite connect_all_plug.
  destruct (plug_distinct n4 ws (sp_wf _ _ _ Hsp) finish_free Hnd) as [Hpl Hw].
  destruct Hla as [[Gw Gf Gq Ga Gt] Hne [Nf Nx] Af Ax B (F0 & _) Nxt].
  assert (Hold : ∀ c a, get_agent n c = Some a → get_agent n4 c = Some a).
  { intros c a Ha. rewrite (sp_old _ _ _ Hsp); [done|]. intros (e & -> & He)%list_elem_of_fmap.
    by rewrite (sp_dead _ _ _ Hsp e He) in Ha. }
  assert (Hout : ∀ c q, q < 3 → get_agent n c ≠ None → (c = lf → q ≠ 1) → c ≠ lx → (plug n4 ws).[c, q] = n.[c, q]).
  { intros c q Hq Hc H1 H2. rewrite (plug_untouched _ _ _ _ _ Hpl Hq); [by apply (sp_target _ _ _ Hsp)|].
    intros Hin. destruct (Hends _ Hin) as [[= -> ->]|[[= -> ->]|[[= -> ->]|(s & id & p & [= -> ->] & Hin' & _)]]];
      [by apply H1|done|done|]. by apply Hc, (sp_dead _ _ _ Hsp (mkAgent s id)). }
  split_and!; try done.
  - split; [by apply Hpl|etrans; [exact Gf|etrans; [apply Hsp|apply Hpl]]| | |].
    + by rewrite (pl_queue _ _ _ Hpl), Hred, app_nil_r, (sp_queue _ _ _ Hsp).
    + intros c a Ha. rewrite plug_get_agent. by apply Hold, Ga.
    + intros c q [a Ha] Hq. rewrite Hout; [by apply Gt; [exists a|]|done|by rewrite (Ga _ _ Ha)| |]; intros ->; congruence.
  - rewrite Hout; [done|lia|by rewrite Af|done|done].
  - rewrite Hout; [done|lia|by rewrite Af|done|done].
  - rewrite plug_get_agent. by apply Hold.
  - rewrite plug_get_agent. by apply Hold.
  - intros a Ha. rewrite plug_get_agent. by apply (sp_new _ _ _ Hsp).
  - rewrite (pl_next _ _ _ Hpl). pose proof (sp_next _ _ _ Hsp). lia.
Qed.
End finish.

(** What an encoder does to the net it is given. *)
Definition encoded (m n : Net) (lf : AgentId) (k : N) : Prop :=
  grown m n ∧ get_agent m lf = None ∧ n.[lf, 0] = DISCONNECTED ∧ next_id n ≤ next_id m + (2 * k + 3) ∧ church n lf k.

Lemma encoded_intro m n n4 lf lx l ws k :
  lambdas m lf lx n → spawned n l n4 →
  (∀ r, r ∈ ends ws → r = AgentPort lf 1 ∨ r = AgentPort lx 1 ∨ r = AgentPort lx 2 ∨
    ∃ s id p, r = AgentPort id p ∧ mkAgent s id ∈ l ∧ p < total_ports s) →
  NoDup (ends ws) → wire_redexes ws = [] → N.of_nat (length l) ≤ 2 * k + 1 →
  (∀ n', (∀ a, a ∈ l → get_agent n' (agent_id a) = Some a) →
    (∀ a p b q, (AgentPort a p, AgentPort b q) ∈ ws → p < 3 → q < 3 → n'.[a, p] = AgentPort b q ∧ n'.[b, q] = AgentPort a p) →
    n'.[lf, 1] ≠ DISCONNECTED ∧ n'.[lx, 1] ≠ DISCONNECTED ∧
    spine n' lx (λ id, bound_to n' lf (AgentPort id 0)) (AgentPort lx 2) k) →
  encoded m (connect_all n4 ws) lf k.
Proof.
  intros Hla Hsp He Hnd Hr Hlen Hs. destruct (finish_spec m n n4 lf lx l ws Hla Hsp He Hnd Hr)
    as (G & B & F0 & Af & Ax & Al & Nx & Hw).
  split; [done|]. split; [apply Hla|]. split; [done|]. split; [lia|].
  destruct (Hs _ Al Hw) as (H1 & H2 & H3). exists lx. by rewrite Af, Ax.
Qed.

Section many.
Context (m n n4 n5 : Net) (lf lx : AgentId) (apps dups : list AgentId) (k : nat).
Hypothesis Hk : (2 ≤ k)%nat.
Hypothesis Hla : lambdas m lf lx n.
Hypothesis Ha : create_many n Con k = Done (n4, apps).
Hypothesis Hd : create_many n4 Dup (k - 1) = Done (n5, dups).

Lemma encoded_many : encoded m (connect_all n5 (chain_wires lf lx apps dups)) lf (N.of_nat k).
Proof.
  destruct (create_many_spec _ n [] n Con n4 apps (spawned_nil n (gr_wf _ _ (la_grown _ _ _ _ Hla))) Ha) as [La Sa].
  destruct (create_many_spec _ _ _ _ _ _ _ Sa Hd) as [Ld Sd].
  set (l := reverse (mkAgent Dup <$> dups) ++ _) in Sd.
  assert (Hin : ∀ s id, mkAgent s id ∈ l ↔ (s = Dup ∧ id ∈ dups) ∨ (s = Con ∧ id ∈ apps)).
  { intros s id. unfold l. rewrite !elem_of_app, !elem_of_reverse, !list_elem_of_fmap, elem_of_nil. naive_solver. }
  assert (Hids : NoDup (lf :: lx :: apps ++ dups)).
  { pose proof (sp_nodup _ _ _ Sd) as Hnd. unfold l in Hnd.
    rewrite app_nil_r, fmap_app, !reverse_Permutation, <- !list_fmap_compose in Hnd.
    rewrite (Permutation_app_comm _ _) in Hnd. rewrite !list_fmap_id in Hnd.
    assert (Hout : ∀ y, live n y → y ∉ apps ++ dups).
    { intros y [a Hy] [Hy'|Hy']%elem_of_app.
      - pose proof (sp_dead _ _ _ Sd (mkAgent Con y) ltac:(apply Hin; auto)) as E. cbn in E. congruence.
      - pose proof (sp_dead _ _ _ Sd (mkAgent Dup y) ltac:(apply Hin; auto)) as E. cbn in E. congruence. }
    destruct Hla as [_ Hne _ Af Ax _ _ _].
    apply NoDup_cons. split; [|apply NoDup_cons; split; [|done]].
    - apply not_elem_of_cons. split; [done|]. apply Hout. by exists (mkAgent Con lf).
    - apply Hout. by exists (mkAgent Con lx). }
  assert (Hl : length l = (2 * k - 1)%nat).
  { unfold l. rewrite !length_app, !length_reverse, !length_fmap, La, Ld. cbn. lia. }
  destruct (chain_ends lf lx apps dups k Hk La Ld Hids) as [Hnd He].
  apply (encoded_intro m n n5 lf lx l); [done|done| |done|by apply chain_no_redexes|lia|].
  - intros r Hr%He. unfold chain_ports in Hr. rewrite elem_of_app, !elem_of_cons, elem_of_nil in Hr.
    destruct Hr as [[->|[->|[->|[]]]]|(id & Hr & Hid)%list_elem_of_bind]; auto. do 3 right.
    unfold ports_of in Hr. rewrite !elem_of_cons, elem_of_nil in Hr.
    apply elem_of_app in Hid as [Hid|Hid]; [exists Con|exists Dup];
      destruct Hr as [->|[->|[->|[]]]]; eexists _, _; (split; [done|]); (split; [apply Hin; auto|done]).
  - intros n' Hag Hw. split; [|split].
    + by rewrite (proj1 (Hw _ _ _ _ (wire_head lf lx apps dups) eq_refl eq_refl)).
    + by rewrite (proj1 (Hw _ _ _ _ (wire_x lf lx apps dups k Hk La Ld) eq_refl eq_refl)).
    + apply (chain_spine lf lx apps dups k); try done.
      * intros i Hi. apply (Hag (mkAgent Dup (dups !!! i))), Hin. left. split; [done|].
        apply list_elem_of_lookup. exists i. apply list_lookup_lookup_total_lt. lia.
      * intros i Hi. apply (Hag (mkAgent Con (apps !!! i))), Hin. right. split; [done|].
        apply list_elem_of_lookup. exists i. apply list_lookup_lookup_total_lt. lia.
Qed.
End many.

Lemma encode_church_into_spec m k : wf m → k ≤ MAX_CHURCH → next_id m + (2 * k + 3) ≤ u32_MAX →
  ∃ n lf, encode_church_into m k = Done (n, lf) ∧ encoded m n lf k.
Proof.
  intros Hwf Hk Hid. unfold encode_church_into. rewrite (proj2 (N.ltb_ge _ _) Hk).
  destruct (create_agent_total m Con) as (n1 & lf & E1); [lia|]. rewrite E1. cbn [mbind outcome_bind].
  pose proof (create_agent_spec m Con n1 lf Hwf E1) as [W1 _ _ _ _ _ N1 _ _ _].
  destruct (create_agent_total n1 Con) as (n2 & lx & E2); [lia|]. rewrite E2. cbn [mbind outcome_bind].
  pose proof (lambdas_spec m n1 lf n2 lx Hwf E1 E2) as Hla. set (n := connect n2 _ _) in *.
  pose proof (gr_wf _ _ (la_grown _ _ _ _ Hla)) as W. pose proof (la_next _ _ _ _ Hla) as Nx.
  assert (Hold : ∀ id, get_agent n id = None → id ≠ lf ∧ id ≠ lx).
  { intros id Hn. split; intros ->; [rewrite (la_f _ _ _ _ Hla) in Hn|rewrite (la_x _ _ _ _ Hla) in Hn]; done. }
  destruct (N.eqb_spec k 0) as [->|Hk0]; [|destruct (N.eqb_spec k 1) as [->|Hk1]].
  - destruct (create_agent_total n Era) as (n4 & e & E); [lia|]. rewrite E. cbn [mbind outcome_bind].
    pose proof (spawned_cons _ _ _ _ _ _ (spawned_nil n W) E) as Hs.
    destruct (Hold e (sp_dead _ _ _ Hs (mkAgent Era e) ltac:(set_solver))) as [Hf Hx].
    pose proof (la_ne _ _ _ _ Hla) as Hne.
    eexists _, lf. split; [done|]. apply (encoded_intro m n n4 lf lx _ _ 0 Hla Hs); [| |done|cbn; lia|].
    + cbn [ends flat_map app fst snd]. intros r. rewrite !elem_of_cons, elem_of_nil.
      intros [->|[->|[->|[->|[]]]]]; auto. do 3 right. exists Era, e, 0. split; [done|]. split; [set_solver|done].
    + cbn [ends flat_map app fst snd]. rewrite !NoDup_cons, !not_elem_of_cons, NoDup_nil. split_and!; try congruence; set_solver.
    + intros n' Ag Hw. destruct (Hw lf 1 e 0) as [H1 _]; [left|done|done|].
      destruct (Hw lx 1 lx 2) as [H2 H3]; [right; left|done|done|].
      rewrite H1, H2. split; [done|]. split; [done|]. by apply spine_end.
  - destruct (create_agent_total n Con) as (n4 & a & E); [lia|]. rewrite E. cbn [mbind outcome_bind].
    pose proof (spawned_cons _ _ _ _ _ _ (spawned_nil n W) E) as Hs.
    destruct (Hold a (sp_dead _ _ _ Hs (mkAgent Con a) ltac:(set_solver))) as [Hf Hx].
    pose proof (la_ne _ _ _ _ Hla) as Hne.
    eexists _, lf. split; [done|]. apply (encoded_intro m n n4 lf lx _ _ 1 Hla Hs); [| |done|cbn; lia|].
    + cbn [ends flat_map app fst snd]. intros r. rewrite !elem_of_cons, elem_of_nil.
      intros [->|[->|[->|[->|[->|[->|[]]]]]]]; auto; do 3 right; eexists Con, a, _; (split; [done|]); (split; [set_solver|done]).
    + cbn [ends flat_map app fst snd]. rewrite !NoDup_cons, !not_elem_of_cons, NoDup_nil. split_and!; try congruence; set_solver.
    + intros n' Ag Hw. destruct (Hw lf 1 a 0) as [H1 H1']; [left|done|done|].
      destruct (Hw lx 1 a 2) as [H2 H2']; [right; left|done|done|].
      destruct (Hw lx 2 a 1) as [H3 _]; [do 2 right; left|done|done|].
      pose proof (Ag (mkAgent Con a) ltac:(set_solver)) as Aa. cbn in Aa.
      rewrite H1, H2. split; [done|]. split; [done|].
      apply (spine_app_1 _ _ _ _ a); [done|done|by rewrite Aa|by apply bound_here|].
      by apply spine_end.
  - destruct (create_many_total (N.to_nat k) n Con W) as (n4 & apps & Ea); [lia|]. rewrite Ea. cbn [mbind outcome_bind].
    destruct (create_many_spec _ n [] n Con n4 apps (spawned_nil n W) Ea) as [La Sa].
    pose proof (sp_next _ _ _ Sa) as Ns. rewrite app_nil_r, length_reverse, length_fmap, La in Ns.
    destruct (create_many_total (N.to_nat k - 1) n4 Dup (sp_wf _ _ _ Sa)) as (n5 & dups & Ed); [lia|].
    rewrite Ed. cbn [mbind outcome_bind]. eexists _, lf. split; [done|].
    rewrite <- (N2Nat.id k) at 1. eapply encoded_many; [lia|exact Hla|exact Ea|exact Ed].
Qed.

(** ** Decoding *)

Lemma expect_symbol_spec n s id : expect_symbol n s id = Some tt ↔ symbol <$> get_agent n id = Some s.
Proof.
  unfold expect_symbol. destruct (get_agent n id) as [a|]; cbn; [|done].
  case_decide as E; [by rewrite E|]. split; [done|]. by intros [= ?].
Qed.

Lemma expect_symbol_cases n s id : expect_symbol n s id = Some tt ∨ expect_symbol n s id = None.
Proof. destruct (expect_symbol n s id) as [[]|]; auto. Qed.

(** The walk counts the spine, and only a spine gives a number. *)
Lemma walk_chain_spine fuel n x c r m : walk_chain fuel n x c r = Some (Some m) →
  ∃ j, m = c + j ∧ spine n x (λ _, True) r j.
Proof.
  revert c r. induction fuel as [|fuel IH]; intros c r; cbn [walk_chain]; [done|].
  destruct (get_target n r) as [id port|] eqn:E; [|done].
  destruct ((id =? x) && (port =? 1)) eqn:Ex.
  - apply andb_true_iff in Ex as [->%N.eqb_eq ->%N.eqb_eq]. intros [= <-]. exists 0. split; [lia|by apply spine_end].
  - destruct (N.eqb_spec port 1) as [->|]; [|done]. rewrite andb_true_r in Ex. apply N.eqb_neq in Ex. cbn [negb].
    destruct (expect_symbol_cases n Con id) as [Ec|Ec]; rewrite Ec; [|done].
    intros (j & -> & Hs)%IH. exists (j + 1). split; [lia|]. eapply spine_app; [done|done| |done|done].
    by apply expect_symbol_spec.
Qed.

Lemma spine_walk_chain n x P r j : spine n x P r j → ∀ fuel c o, walk_chain fuel n x c r = Some o → o = Some (c + j).
Proof.
  induction 1 as [r E|r id j E Hne Hc _ _ IH]; intros [|fuel] c o; cbn [walk_chain]; rewrite ?E; try done.
  - rewrite !N.eqb_refl. intros [= <-]. f_equal. lia.
  - apply N.eqb_neq in Hne. rewrite Hne. cbn [andb N.eqb Pos.eqb negb].
    apply expect_symbol_spec in Hc. rewrite Hc. intros ->%IH. f_equal. lia.
Qed.

(** *** The walk ends on a well-formed net

    The agents it has visited, latest first: each is reached through port 1
    from port 2 of the next in the list. *)
Inductive trail (n : Net) (x : AgentId) : list AgentId → Prop :=
| trail_start : trail n x [x]
| trail_step id prev l : n.[prev, 2] = AgentPort id 1 → id ≠ x → trail n x (prev :: l) → trail n x (id :: prev :: l).

Lemma trail_pred n x l id : trail n x l → id ∈ l → id ≠ x →
  ∃ l1 prev l2, l = l1 ++ id :: prev :: l2 ∧ n.[prev, 2] = AgentPort id 1.
Proof.
  induction 1 as [|y prev l E Hne Ht IH]; intros Hin Hx; [by apply list_elem_of_singleton in Hin|].
  apply elem_of_cons in Hin as [->|Hin]; [by exists [], prev, l|].
  destruct (IH Hin Hx) as (l1 & p & l2 & -> & Ep). by exists (y :: l1), p, l2.
Qed.

(** Wires have two ends, so the walk never comes back. *)
Lemma trail_fresh n x id hd l : wf n → trail n x (hd :: l) → NoDup (hd :: l) →
  n.[hd, 2] = AgentPort id 1 → id ≠ x → id ∉ hd :: l.
Proof.
  intros Hwf Ht Hnd E Hx Hin. destruct (trail_pred n x _ id Ht Hin Hx) as (l1 & prev & l2 & El & Ep).
  destruct (target_inj n hd 2 prev 2 id 1 Hwf ltac:(done) ltac:(done) E Ep) as [<- _].
  destruct l1 as [|y l1]; injection El as -> ->.
  - apply NoDup_cons in Hnd as [H _]. apply H. by left.
  - apply NoDup_cons in Hnd as [H _]. apply H. set_solver.
Qed.

Lemma ids_bounded (l : list N) k : NoDup l → Forall (λ x, N.to_nat x < k)%nat l → (length l ≤ k)%nat.
Proof.
  intros Hnd Hf. rewrite <- (length_seq k 0), <- (length_fmap N.to_nat l).
  apply submseteq_length, NoDup_submseteq; [by apply NoDup_fmap_2; [intros ???; lia|]|].
  intros i (x & -> & Hx)%list_elem_of_fmap. rewrite Forall_forall in Hf. apply elem_of_seq. specialize (Hf x Hx). lia.
Qed.

Lemma walk_chain_ends n x fuel c hd l : wf n → trail n x (hd :: l) → NoDup (hd :: l) →
  Forall (λ y, N.to_nat y < length (agents n))%nat (hd :: l) →
  (length (agents n) < fuel + length (hd :: l))%nat →
  walk_chain fuel n x c (AgentPort hd 2) ≠ None.
Proof.
  intros Hwf. revert c hd l. induction fuel as [|fuel IH]; intros c hd l Ht Hnd Hb Hf.
  { pose proof (ids_bounded _ _ Hnd Hb). lia. }
  cbn [walk_chain]. destruct (get_target n (AgentPort hd 2)) as [id port|] eqn:E; [|done].
  destruct ((id =? x) && (port =? 1)) eqn:Ex; [done|].
  destruct (N.eqb_spec port 1) as [->|]; [|done]. rewrite andb_true_r in Ex. apply N.eqb_neq in Ex. cbn [negb].
  destruct (expect_symbol_cases n Con id) as [Ec|Ec]; rewrite Ec; [|done].
  apply (IH _ id (hd :: l)).
  - by apply trail_step.
  - apply NoDup_cons. split; [|done]. by eapply trail_fresh.
  - apply Forall_cons. split; [|done]. apply expect_symbol_spec in Ec.
    destruct (get_agent n id) as [a|] eqn:Ea; [|done]. by eapply get_agent_arena.
  - cbn [length] in *. lia.
Qed.

Lemma find_lambdas_spec n lf lx : find_lambdas n = Some (lf, lx) ↔
  root n = Some (AgentPort lf 0) ∧ symbol <$> get_agent n lf = Some Con ∧
  symbol <$> get_agent n lx = Some Con ∧ n.[lf, 2] = AgentPort lx 0.
Proof.
  unfold find_lambdas. rewrite <- !expect_symbol_spec.
  assert (Hp : ∀ r id, principal_of r = Some id ↔ r = AgentPort id 0).
  { intros [y [|q]|] id; cbn; try (by split; intros [=]); split; intros [= ->]; done. }
  split.
  - destruct (root n) as [r|]; [|done]. cbn [mbind option_bind].
    destruct (principal_of r) as [f|] eqn:Er; [|done]. apply Hp in Er as ->. cbn [mbind option_bind].
    destruct (expect_symbol_cases n Con f) as [Ef|Ef]; rewrite Ef; [|done]. cbn [mbind option_bind].
    destruct (principal_of n.[f, 2]) as [y|] eqn:Ey; [|done]. apply Hp in Ey. cbn [mbind option_bind].
    destruct (expect_symbol_cases n Con y) as [Ex|Ex]; rewrite Ex; [|done]. intros [= <- <-]. done.
  - intros (-> & Ef & Ex & Et). cbn [mbind option_bind principal_of]. rewrite Ef. cbn [mbind option_bind].
    rewrite (proj2 (Hp _ _) Et). cbn [mbind option_bind]. rewrite Ex. done.
Qed.

Lemma decode_nat_spec n fuel : wf n → (length (agents n) ≤ fuel)%nat →
  ∃ r, decode_nat fuel n = Some r ∧
    ∀ k, r = Some k ↔ redex_queue n = [] ∧ ∃ lf, root n = Some (AgentPort lf 0) ∧ numeral (λ _ _, True) n lf k.
Proof.
  intros Hwf Hfuel. unfold decode_nat. case_bool_decide as Hq; cbn [negb].
  2: { exists None. split; [done|]. intros k. split; [done|]. by intros [? _]. }
  destruct (find_lambdas n) as [[lf lx]|] eqn:El.
  2: { exists None. split; [done|]. intros k. split; [done|]. intros (_ & lf & Hr & lx & Hf & Hx & Hb & _).
       by rewrite (proj2 (find_lambdas_spec n lf lx)) in El. }
  apply find_lambdas_spec in El as (Hr & Hf & Hx & Hb).
  assert (Huniq : ∀ lf' k, root n = Some (AgentPort lf' 0) → numeral (λ _ _, True) n lf' k →
    n.[lf, 1] ≠ DISCONNECTED ∧ n.[lx, 1] ≠ DISCONNECTED ∧ spine n lx (λ _, True) (AgentPort lx 2) k).
  { intros lf' k Hr' (lx' & _ & _ & Hb' & H1 & H2 & Hs). rewrite Hr in Hr'. injection Hr' as <-.
    rewrite Hb in Hb'. by injection Hb' as <-. }
  destruct (bool_decide (n.[lf, 1] = DISCONNECTED) || bool_decide (n.[lx, 1] = DISCONNECTED)
            || bool_decide (n.[lx, 2] = DISCONNECTED)) eqn:Ed.
  { exists None. split; [done|]. intros k. split; [done|]. intros (_ & lf' & Hr' & Hn).
    destruct (Huniq lf' k Hr' Hn) as (H1 & H2 & Hs). rewrite !orb_true_iff, !bool_decide_eq_true in Ed.
    destruct Ed as [[?|?]|Ed]; [done|done|]. by inversion Hs as [? E|? ? ? E]; subst; rewrite Ed in E. }
  rewrite !orb_false_iff, !bool_decide_eq_false in Ed. destruct Ed as [[H1 H2] H3].
  destruct (bool_decide (n.[lx, 1] = AgentPort lx 2) && bool_decide (n.[lx, 2] = AgentPort lx 1)) eqn:Es.
  - apply andb_true_iff in Es as [_ Es%bool_decide_eq_true]. exists (Some 0). split; [done|]. intros k. split.
    + intros [= <-]. split; [done|]. exists lf. split; [done|]. exists lx. split_and!; try done. by apply spine_end.
    + intros (_ & lf' & Hr' & Hn). destruct (Huniq lf' k Hr' Hn) as (_ & _ & Hs).
      inversion Hs as [? E|? id ? E Hne]; subst; [done|]. rewrite Es in E. congruence.
  - clear Es. destruct (walk_chain fuel n lx 0 (AgentPort lx 2)) as [o|] eqn:Ew.
    + exists o. split; [done|]. intros k. split.
      * intros ->. apply walk_chain_spine in Ew as (j & -> & Hs). split; [done|]. exists lf. split; [done|].
        by exists lx.
      * intros (_ & lf' & Hr' & Hn). destruct (Huniq lf' k Hr' Hn) as (_ & _ & Hs).
        apply (spine_walk_chain _ _ _ _ _ Hs) in Ew. by rewrite Ew.
    + exfalso. revert Ew. apply (walk_chain_ends n lx fuel 0 lx []); [done|constructor|apply NoDup_singleton| |cbn; lia].
      apply Forall_singleton. destruct (get_agent n lx) as [a|] eqn:Ea; [|done]. by eapply get_agent_arena.
Qed.

Lemma new_wf : wf new.
Proof. apply wf_b_sound. vm_compute. reflexivity. Qed.

Lemma with_root_wf r n : wf n → wf (with_root r n).
Proof. intros []. by split. Qed.

(** The root plays no part in a numeral. *)
Lemma bound_to_root x n lf r : bound_to n lf r → bound_to (with_root x n) lf r.
Proof. induction 1 as [r E|r d p E Hp Ha _ IH]; [by apply bound_here|by apply (bound_dup _ _ _ d p)]. Qed.

Lemma church_root x n lf k : church n lf k → church (with_root x n) lf k.
Proof.
  intros (lx & H1 & H2 & H3 & H4 & H5 & Hs). exists lx. do 5 (split; [done|]). clear -Hs.
  induction Hs as [r E|r id k E Hne Hc Hb _ IH]; [by apply spine_end|].
  apply (spine_app _ _ _ _ id); [exact E|exact Hne|exact Hc|by apply bound_to_root|exact IH].
Qed.

Lemma church_numeral n lf k : church n lf k → numeral (λ _ _, True) n lf k.
Proof.
  intros (lx & H1 & H2 & H3 & H4 & H5 & Hs). exists lx. do 5 (split; [done|]).
  eapply spine_weaken; [|exact Hs]. done.
Qed.

(** C16. Encoding and decoding of numerals.  Up to the limit of a million the
    encoder returns a well-formed net in normal form that is the numeral: two
    abstractions over [k] nested applications, each applying the outer
    variable through a chain of duplicators; its root is the unwired principal
    port of the outer abstraction; and the decoder, which needs no more steps
    than the net has slots, returns [k].  Above the limit the encoder
    panics. *)
Theorem encode_decode_round_trip k :
  (MAX_CHURCH < k → Church.encode_nat k = Panic) ∧
  (k ≤ MAX_CHURCH → ∃ n lf, Church.encode_nat k = Done n ∧ wf n ∧ redex_queue n = [] ∧
    root n = Some (AgentPort lf 0) ∧ n.[lf, 0] = DISCONNECTED ∧ church n lf k ∧
    ∀ fuel, (length (agents n) ≤ fuel)%nat → Church.decode_nat fuel n = Some (Some k)).
Proof.
  split; [intros Hk%N.ltb_lt; unfold Church.encode_nat; by rewrite Hk|]. intros Hk.
  destruct (encode_church_into_spec new k new_wf Hk) as (n & lf & E & G & _ & F & _ & C).
  { unfold MAX_CHURCH, u32_MAX in *. cbn. lia. }
  assert (Hwf : wf (with_root (Some (AgentPort lf 0)) n)) by (by apply with_root_wf, G).
  exists (with_root (Some (AgentPort lf 0)) n), lf. split.
  { unfold Church.encode_nat. rewrite (proj2 (N.ltb_ge _ _) Hk), E. done. }
  do 5 (split; [first [exact Hwf|exact (gr_queue _ _ G)|reflexivity|exact F|by apply church_root]|]). intros fuel Hfuel.
  destruct (decode_nat_spec _ fuel Hwf Hfuel) as (r & -> & Hr). f_equal. apply Hr.
  split; [exact (gr_queue _ _ G)|]. exists lf. split; [reflexivity|]. by apply church_numeral, church_root.
Qed.

Lemma encode_decode_round_trip_witness :
  5 ≤ MAX_CHURCH ∧ ∃ n lf, Church.encode_nat 5 = Done n ∧ wf n ∧ redex_queue n = [] ∧
    root n = Some (AgentPort lf 0) ∧ n.[lf, 0] = DISCONNECTED ∧ church n lf 5 ∧
    ∀ fuel, (length (agents n) ≤ fuel)%nat → Church.decode_nat fuel n = Some (Some 5).
Proof. split; [unfold MAX_CHURCH; lia|]. apply (proj2 (encode_decode_round_trip 5)). unfold MAX_CHURCH. lia. Defined.

(** An abstraction over one application of something else than its variable. *)
Definition stranger : Net :=
  match fold_outcome (λ n s, '(n, _) ← create_agent n s; mret n) new [Con; Con; Con; Era] with
  | Done n => with_root (Some (AgentPort 0 0)) (connect_all n
      [(AgentPort 0 2, AgentPort 1 0); (AgentPort 0 1, AgentPort 3 0); (AgentPort 2 0, FreePort 9);
       (AgentPort 1 1, AgentPort 2 2); (AgentPort 1 2, AgentPort 2 1)])
  | Panic => new
  end.

(** The decoder returns on every well-formed net, however malformed as a
    numeral: as many steps as the net has slots are enough.  It answers [k]
    exactly when the queue is empty and the root is an abstraction over an
    abstraction whose body is a spine of [k] applications ending at the inner
    variable.  What these applications apply is not read: the last part is a
    well-formed net, decoded as one, that applies a free port and is no
    numeral. *)
Theorem decode_nat_exact :
  (∀ n fuel, wf n → (length (agents n) ≤ fuel)%nat →
    ∃ r, Church.decode_nat fuel n = Some r ∧
      ∀ k, r = Some k ↔ redex_queue n = [] ∧ ∃ lf, root n = Some (AgentPort lf 0) ∧ numeral (λ _ _, True) n lf k) ∧
  wf stranger ∧ root stranger = Some (AgentPort 0 0) ∧ Church.decode_nat 4 stranger = Some (Some 1) ∧
  ∀ k, ¬ church stranger 0 k.
Proof.
  split; [exact decode_nat_spec|]. split; [apply wf_b_sound; vm_compute; reflexivity|].
  split; [reflexivity|]. split; [vm_compute; reflexivity|].
  assert (E1 : stranger.[0, 2] = AgentPort 1 0) by (vm_compute; reflexivity).
  assert (E2 : stranger.[1, 2] = AgentPort 2 1) by (vm_compute; reflexivity).
  assert (E3 : stranger.[2, 0] = FreePort 9) by (vm_compute; reflexivity).
  intros k (lx & _ & _ & Hb & _ & _ & Hs). assert (lx = 1) as -> by congruence.
  inversion Hs as [? E|? id ? E _ _ Hbound]; subst; rewrite E2 in E; [discriminate E|].
  assert (id = 2) as -> by congruence.
  inversion Hbound as [? E'|? d p E']; subst; rewrite E3 in E'; discriminate E'.
Qed.

Lemma decode_nat_exact_witness :
  wf stranger ∧ (length (agents stranger) ≤ 4)%nat ∧ ∃ r, Church.decode_nat 4 stranger = Some r ∧
    ∀ k, r = Some k ↔ redex_queue stranger = [] ∧
      ∃ lf, root stranger = Some (AgentPort lf 0) ∧ numeral (λ _ _, True) stranger lf k.
Proof.
  assert (Hwf : wf stranger) by (apply wf_b_sound; vm_compute; reflexivity).
  assert (Hl : (length (agents stranger) ≤ 4)%nat) by (vm_compute; repeat constructor).
  split; [exact Hwf|]. split; [exact Hl|]. exact (proj1 decode_nat_exact stranger 4%nat Hwf Hl).
Defined.

(** ** Arithmetic *)

(** The number a computation reads back. *)
Definition answer (r : fueled (Net * option N)) : option N :=
  match r with Some (Done (_, k)) => k | _ => None end.

Definition small : list (N * N) := a ← range_u 5; b ← range_u 5; [(a, b)].

(** Sums and products of numerals up to four, and sums of squares up to four
    terms, computed by the model itself: build, reduce, find the root, read
    back.  Each run ends within the fuel and reads the right number. *)
Theorem arithmetic_small :
  Forall (λ p : N * N,
    answer (compute_arithmetic 400 (build_add p.1 p.2)) = Some (p.1 + p.2) ∧
    answer (compute_arithmetic 400 (build_mul p.1 p.2)) = Some (p.1 * p.2)) small ∧
  (λ k, answer (compute_arithmetic 400 (build_sum_of_squares k))) <$> range_u 5 = Some <$> [0; 1; 5; 14; 30].
Proof.
  split; [|vm_compute; reflexivity].
  assert (E : forallb (λ p : N * N,
    bool_decide (answer (compute_arithmetic 400 (build_add p.1 p.2)) = Some (p.1 + p.2)) &&
    bool_decide (answer (compute_arithmetic 400 (build_mul p.1 p.2)) = Some (p.1 * p.2))) small = true)
    by (vm_compute; reflexivity).
  apply Forall_forall. intros p Hp. rewrite forallb_forall in E. apply list_elem_of_In, E, andb_true_iff in Hp.
  by rewrite !bool_decide_eq_true in Hp.
Qed.

(** A product one of whose operands is itself a product, as the helper's
    documentation allows. *)
Definition build_triple_product (a b c : N) : outcome Net :=
  '(n, x) ← encode_church_into new a;
  '(n, y) ← encode_church_into n b;
  '(n, z) ← encode_church_into n c;
  '(n, inner) ← wire_mul_into n (AgentPort x 0) (AgentPort y 0);
  '(n, out) ← wire_mul_into n (AgentPort inner 1) (AgentPort z 0);
  mret (output n out).

(** The read-back of shared chains gives a wrong number.  The product of
    two, two and two reduces to a normal form that is read as six, where eight
    is read for the product of four and two: below the chain of applications
    the duplicators are nested, and the reader adds one per duplicator where
    their fan-outs multiply. *)
Theorem shared_read_back_wrong :
  answer (compute_arithmetic 400 (build_triple_product 2 2 2)) = Some 6 ∧
  answer (compute_arithmetic 400 (build_mul 4 2)) = Some 8 ∧
  ∃ n st, (match build_triple_product 2 2 2 with Done n => reduce_all 400 n | Panic => None end) = Some (Done (n, st)) ∧
    redex_queue n = [] ∧ decode_nat_or_shared 400 n = Some (Some 6).
Proof.
  split; [vm_compute; reflexivity|]. split; [vm_compute; reflexivity|].
  assert (E : match (match build_triple_product 2 2 2 with Done n => reduce_all 400 n | Panic => None end) with
    | Some (Done (n, _)) => (redex_queue n, decode_nat_or_shared 400 n) = ([], Some (Some 6))
    | _ => False end) by (vm_compute; reflexivity).
  destruct (match build_triple_product 2 2 2 with Done n => reduce_all 400 n | Panic => None end) as [[[n st]|]|];
    try contradiction. injection E as E1 E2. by exists n, st.
Qed.
