(* ===== verification/Streaming.v ===== *)
(** The streaming partitioner (partition/streaming.rs and its two wrappers in
    merge/helpers.rs): a net that arrives in batches is cut into partitions
    without ever being held whole.  The iterator of batches is a list. *)
From S2P Require Import Prelude NetTypes NetCore SparseNet Partition Split BorderGraph.
Local Open Scope N_scope.

Module Streaming.

Abbreviation Slot := (AgentId * PortId)%type (only parsing).

Inductive ConnectionDirective : Type :=
| Resolved (source target : Slot)
| Pending (source : Slot) (target_agent_id : AgentId) (target_port : PortId)
| FreePortInterface (agent_port : Slot) (free_port_id : N).

Record AgentBatch : Type := mkAgentBatch {
  batch_agents : list (AgentId * Symbol);
  connections : list ConnectionDirective;
}.

Definition empty_batch : AgentBatch := mkAgentBatch [] [].

Record StreamingPartitionStats : Type := mkStats {
  total_agents : N;
  per_worker_counts : list N;
  border_wire_count : N;
  chunks_processed : N;
}.

Record ChunkedPartitionResult : Type := mkChunked {
  cp_partitions : list Partition;
  cp_borders : gmap N (PortRef * PortRef);
  cp_stats : StreamingPartitionStats;
}.

Definition plan_of_chunked (r : ChunkedPartitionResult) : PartitionPlan :=
  mkPlan (cp_partitions r) (cp_borders r) 0.

Definition chunked_of_plan (plan : PartitionPlan) : ChunkedPartitionResult :=
  let counts := (λ p, N.of_nat (count_live_agents (subnet p))) <$> partitions plan in
  mkChunked (partitions plan) (plan_borders plan)
    (mkStats (foldr N.add 0 counts) counts (N.of_nat (size (plan_borders plan))) 1).

(** ** Strategies *)

Class StreamingPartitionStrategy (S : Type) : Type := {
  allocate_batch : S → AgentBatch → N → S * list (AgentId * WorkerId);
  finalize_stats : S → StreamingPartitionStats;
}.

Record RoundRobinStreamingStrategy : Type := mkRoundRobin {
  rr_counter : N;
  rr_counts : list N;
}.

Definition round_robin_try_new (num_workers : N) : RoundRobinStreamingStrategy + PartitionError :=
  if num_workers =? 0 then inr InvalidNumWorkers
  else inl (mkRoundRobin 0 (replicate (N.to_nat num_workers) 0)).

(** One agent; the count's index is tested beforehand. *)
Definition round_robin_next (num_workers : N) (acc : RoundRobinStreamingStrategy * list (AgentId * WorkerId))
    (a : AgentId * Symbol) : RoundRobinStreamingStrategy * list (AgentId * WorkerId) :=
  let '(s, out) := acc in
  let worker := rr_counter s mod num_workers in
  (mkRoundRobin (rr_counter s + 1) (alter (N.add 1) (N.to_nat worker) (rr_counts s)), out ++ [(a.1, worker)]).

Definition too_many_workers (counts : list N) (num_workers : N) : bool :=
  (num_workers =? 0) || (length counts <? N.to_nat num_workers)%nat.

Definition round_robin_allocate (s : RoundRobinStreamingStrategy) (b : AgentBatch) (num_workers : N)
    : RoundRobinStreamingStrategy * list (AgentId * WorkerId) :=
  if too_many_workers (rr_counts s) num_workers then (s, [])
  else foldl (round_robin_next num_workers) (s, []) (batch_agents b).

#[export] Instance RoundRobin_strategy : StreamingPartitionStrategy RoundRobinStreamingStrategy := {|
  allocate_batch := round_robin_allocate;
  finalize_stats s := mkStats (rr_counter s) (rr_counts s) 0 0;
|}.

(** Floating-point scores are a parameter: [neighbors - alpha * degree] and the
    total order of their comparison. *)
Section fennel.
Context (Score : Type) (score : N → N → Score) (total_cmp : Score → Score → comparison).

Record FennelStreamingStrategy : Type := mkFennel {
  assignment_cache : gmap AgentId WorkerId;
  fennel_counts : list N;
}.

(** The end of a resolved wire opposite to agent [id]. *)
Definition other_end (id : AgentId) (d : ConnectionDirective) : option AgentId :=
  match d with
  | Resolved source target =>
      if source.1 =? id then Some target.1 else if target.1 =? id then Some source.1 else None
  | _ => None
  end.

(** Neighbours of earlier batches on worker [w]; the workers in the cache are
    below the number of workers, which does not change during a run. *)
Definition neighbor_count (s : FennelStreamingStrategy) (b : AgentBatch) (id : AgentId) (w : WorkerId) : N :=
  let in_batch := (list_to_set (batch_agents b).*1 : gset AgentId) in
  N.of_nat (length (filter (λ d, match other_end id d with
    | Some other => negb (bool_decide (other ∈ in_batch)) && bool_decide (assignment_cache s !! other = Some w)
    | None => false end = true) (connections b))).

(** The running maximum over the workers; ties keep the lower id. *)
Definition better (neighbors : WorkerId → N) (counts : list N) (best : option (WorkerId * Score)) (w : WorkerId)
    : option (WorkerId * Score) :=
  let sc := score (neighbors w) (counts !!! N.to_nat w) in
  match best with
  | None => Some (w, sc)
  | Some (best_worker, best_score) =>
      match total_cmp sc best_score with
      | Gt => Some (w, sc)
      | Eq => Some (if w <? best_worker then w else best_worker, best_score)
      | Lt => best
      end
  end.

Definition fennel_next (b : AgentBatch) (num_workers : N)
    (acc : FennelStreamingStrategy * list (AgentId * WorkerId)) (a : AgentId * Symbol)
    : FennelStreamingStrategy * list (AgentId * WorkerId) :=
  let '(s, out) := acc in
  let best := foldl (better (neighbor_count s b a.1) (fennel_counts s)) None (range_u num_workers) in
  let best_worker := match best with Some (w, _) => w | None => 0 end in
  (mkFennel (<[a.1 := best_worker]> (assignment_cache s)) (alter (N.add 1) (N.to_nat best_worker) (fennel_counts s)),
   out ++ [(a.1, best_worker)]).

Definition fennel_allocate (s : FennelStreamingStrategy) (b : AgentBatch) (num_workers : N)
    : FennelStreamingStrategy * list (AgentId * WorkerId) :=
  if too_many_workers (fennel_counts s) num_workers then (s, [])
  else foldl (fennel_next b num_workers) (s, []) (batch_agents b).

#[export] Instance Fennel_strategy : StreamingPartitionStrategy FennelStreamingStrategy := {|
  allocate_batch := fennel_allocate;
  finalize_stats s := mkStats (foldr N.add 0 (fennel_counts s)) (fennel_counts s) 0 0;
|}.
End fennel.

(** ** Accumulators *)

Inductive AccumulatorNet : Type := AccSparse (s : SparseNet) | AccDense (n : Net).

Record PartitionAccumulator : Type := mkAcc {
  acc_subnet : AccumulatorNet;
  acc_free_port_index : gmap N PortRef;
  acc_worker_id : WorkerId;
  min_assigned_id : option AgentId;
  max_assigned_id : option AgentId;
  live_agent_count : N;
}.

Definition acc_new (worker_id : WorkerId) : PartitionAccumulator := mkAcc (AccSparse Sparse.new) ∅ worker_id None None 0.

Definition with_slot (id : AgentId) (sym : Symbol) (n : Net) : Net :=
  let ags := vec_grow (N.to_nat id + 1) None (agents n) in
  with_arena (<[N.to_nat id := Some (mkAgent sym id)]> ags) (ports n) n.

Definition map_or (f : N → N → N) (id : N) (m : option N) : option N :=
  Some (match m with Some m => f m id | None => id end).

Definition add_agent (a : PartitionAccumulator) (id : AgentId) (sym : Symbol) : PartitionAccumulator :=
  mkAcc (match acc_subnet a with
         | AccSparse s => AccSparse (Sparse.create_agent_at s id sym)
         | AccDense n => AccDense (with_slot id sym n)
         end)
    (acc_free_port_index a) (acc_worker_id a)
    (map_or N.min id (min_assigned_id a)) (map_or N.max id (max_assigned_id a)) (live_agent_count a + 1).

Definition index_end (r other : PortRef) (m : gmap N PortRef) : gmap N PortRef :=
  match r with FreePort bid => <[bid := other]> m | AgentPort _ _ => m end.

Definition acc_connect (a : PartitionAccumulator) (x y : PortRef) : PartitionAccumulator :=
  mkAcc (match acc_subnet a with
         | AccSparse s => AccSparse (Sparse.connect s x y)
         | AccDense n => AccDense (connect n x y)
         end)
    (index_end x y (index_end y x (acc_free_port_index a))) (acc_worker_id a)
    (min_assigned_id a) (max_assigned_id a) (live_agent_count a).

Definition with_id_range (r : option (AgentId * AgentId)) (n : Net) : Net :=
  mkNet (agents n) (ports n) (redex_queue n) (next_id n) (root n) (freeport_redirects n) (free_list n) r
    (border_entries_shadow n) (recycle_policy n) (is_in_delta_round n) (streaming_active n) (debug_fields n).

Definition acc_finalize (a : PartitionAccumulator) (id_range : IdRange) (border_id_start border_id_end : N)
    : Partition + PartitionError :=
  let effective_arena_size := match max_assigned_id a with Some m => m + 1 | None => 0 end in
  if 4 * live_agent_count a <? effective_arena_size
  then inr (PartitionArenaTooSparse (acc_worker_id a) effective_arena_size (live_agent_count a))
  else
    let dense :=
      match acc_subnet a with
      | AccSparse s => Sparse.to_dense s (Some (range_start id_range, range_end id_range))
      | AccDense n => inl n
      end in
    match dense with
    | inr e => inr (InvariantViolation e)
    | inl n =>
        let n := with_next_id (next_id n `max` range_start id_range) n in
        let n := match NetCore.id_range n with
                 | None => with_id_range (Some (range_start id_range, range_end id_range)) n
                 | Some _ => n
                 end in
        inl (mkPartition n (acc_worker_id a) (acc_free_port_index a) id_range border_id_start border_id_end)
    end.

(** ** Installing a wire *)

(** What [install_connection] changes. *)
Record Wiring : Type := mkWiring {
  accumulators : list PartitionAccumulator;
  border_map : gmap N (PortRef * PortRef);
  border_id_counter : N;
}.

(** [checked_add(1).expect(..)]. *)
Definition checked_succ (x : N) : outcome N := if x =? u32_MAX then Panic else Done (x + 1).

(** The counter moves past the reserved ids; as many steps as there are
    reserved ids are enough. *)
Fixpoint skip_reserved (fuel : nat) (reserved : gset N) (counter : N) : outcome N :=
  match fuel with
  | O => Done counter
  | S fuel =>
      if bool_decide (counter ∈ reserved) then counter ← checked_succ counter; skip_reserved fuel reserved counter
      else Done counter
  end.

(** [accumulators[w].connect(a, b)]. *)
Definition connect_at (w : WorkerId) (a b : PortRef) (accs : list PartitionAccumulator)
    : outcome (list PartitionAccumulator) :=
  acc ← unwrap (accs !! N.to_nat w); mret (<[N.to_nat w := acc_connect acc a b]> accs).

Definition slot_ref (s : Slot) : PortRef := AgentPort s.1 s.2.

Definition install_connection (source target : Slot) (agent_owner : gmap AgentId WorkerId) (reserved : gset N)
    (st : Wiring) : outcome Wiring :=
  src_worker ← unwrap (agent_owner !! source.1);
  tgt_worker ← unwrap (agent_owner !! target.1);
  if src_worker =? tgt_worker then
    accs ← connect_at src_worker (slot_ref source) (slot_ref target) (accumulators st);
    mret (mkWiring accs (border_map st) (border_id_counter st))
  else
    bid ← skip_reserved (size reserved) reserved (border_id_counter st);
    counter ← checked_succ bid;
    let '(canon_src, canon_tgt) :=
      if src_worker <=? tgt_worker then (slot_ref source, slot_ref target) else (slot_ref target, slot_ref source) in
    let borders := <[bid := (canon_src, canon_tgt)]> (border_map st) in
    accs ← connect_at src_worker (slot_ref source) (FreePort bid) (accumulators st);
    accs ← connect_at tgt_worker (slot_ref target) (FreePort bid) accs;
    mret (mkWiring accs borders counter).

(** ** The pipeline *)

Record PendingConnection : Type := mkPendingConnection {
  pc_source : Slot;
  pc_target_agent_id : AgentId;
  pc_target_port : PortId;
  birth_chunk : N;
}.

Section pipeline.
Context `{StreamingPartitionStrategy Strat}.

Record Pipeline : Type := mkPipeline {
  strategy : Strat;
  wiring : Wiring;
  pl_border_id_start : option N;
  reserved_freeport_ids : gset N;
  pending : gmap AgentId (list PendingConnection);
  agent_owner : gmap AgentId WorkerId;
  chunks_seen : N;
}.

Definition initial (s : Strat) (num_workers : N) : Pipeline :=
  mkPipeline s (mkWiring (acc_new <$> range_u num_workers) ∅ 0) None ∅ ∅ ∅ 0.

(** The ids of a batch's interface directives. *)
Definition reserve (reserved : gset N) (d : ConnectionDirective) : gset N :=
  match d with
  | FreePortInterface _ free_port_id => if free_port_id =? u32_MAX then reserved else {[free_port_id]} ∪ reserved
  | _ => reserved
  end.

(** Step 1: agents go to the workers the strategy gives them. *)
Fixpoint place (symbols : gmap AgentId Symbol) (num_workers : N) (assignments : list (AgentId * WorkerId))
    (owner : gmap AgentId WorkerId) (accs : list PartitionAccumulator)
    : (gmap AgentId WorkerId * list PartitionAccumulator) + PartitionError :=
  match assignments with
  | [] => inl (owner, accs)
  | (id, w) :: assignments =>
      match accs !! N.to_nat w with
      | None => inr (StrategyReturnedInvalidWorker w num_workers)
      | Some acc =>
          match symbols !! id with
          | None => inr (StrategyReturnedUnknownAgent id)
          | Some sym => place symbols num_workers assignments (<[id := w]> owner) (<[N.to_nat w := add_agent acc id sym]> accs)
          end
      end
  end.

(** A wire, with the first border id ever allocated recorded. *)
Definition install_tracked (owner : gmap AgentId WorkerId) (reserved : gset N) (acc : Wiring * option N)
    (wire : Slot * Slot) : outcome (Wiring * option N) :=
  let '(st, start) := acc in
  st' ← install_connection wire.1 wire.2 owner reserved st;
  mret (st', match start with
             | None => if border_id_counter st' =? border_id_counter st then None else Some (border_id_counter st' - 1)
             | Some _ => start
             end).

Definition resolved_wires (ds : list ConnectionDirective) : list (Slot * Slot) :=
  omap (λ d, match d with Resolved source target => Some (source, target) | _ => None end) ds.

(** Step 2.5. *)
Definition install_interface (owner : gmap AgentId WorkerId) (accs : list PartitionAccumulator)
    (d : ConnectionDirective) : outcome (list PartitionAccumulator) :=
  match d with
  | FreePortInterface agent_port free_port_id =>
      w ← unwrap (owner !! agent_port.1);
      connect_at w (slot_ref agent_port) (FreePort free_port_id) accs
  | _ => mret accs
  end.

(** Step 3. *)
Definition buffer (chunk : N) (pending : gmap AgentId (list PendingConnection)) (d : ConnectionDirective)
    : gmap AgentId (list PendingConnection) :=
  match d with
  | Pending source target_agent_id target_port =>
      <[target_agent_id := default [] (pending !! target_agent_id) ++
          [mkPendingConnection source target_agent_id target_port chunk]]> pending
  | _ => pending
  end.

(** The first entry older than the budget. *)
Definition expired (chunk max_pending_lifetime : N) (pending : gmap AgentId (list PendingConnection))
    : option PartitionError :=
  if max_pending_lifetime =? u32_MAX then None
  else
    head (omap (λ pc, let age := chunk - birth_chunk pc in
      if max_pending_lifetime <? age then Some (PendingConnectionExpired (pc_target_agent_id pc) age max_pending_lifetime)
      else None) (concat (map_to_list pending).*2)).

Definition pending_wire (pc : PendingConnection) : Slot * Slot :=
  (pc_source pc, (pc_target_agent_id pc, pc_target_port pc)).

(** Step 6, for one agent of the batch. *)
Definition resolve_agent (owner : gmap AgentId WorkerId) (reserved : gset N)
    (acc : (Wiring * option N) * gmap AgentId (list PendingConnection)) (id : AgentId)
    : outcome ((Wiring * option N) * gmap AgentId (list PendingConnection)) :=
  let '(st, pending) := acc in
  match pending !! id with
  | None => mret (st, pending)
  | Some pcs =>
      st ← fold_outcome (install_tracked owner reserved) st (pending_wire <$> pcs);
      mret (st, delete id pending)
  end.

Definition process_batch (num_workers max_pending_lifetime : N) (p : Pipeline) (b : AgentBatch)
    : outcome (Pipeline + PartitionError) :=
  let chunk := chunks_seen p + 1 in
  let reserved := foldl reserve (reserved_freeport_ids p) (connections b) in
  let '(s, assignments) := allocate_batch (strategy p) b num_workers in
  let symbols := foldl (λ m e, <[e.1 := e.2]> m) (∅ : gmap AgentId Symbol) (batch_agents b) in
  match place symbols num_workers assignments (agent_owner p) (accumulators (wiring p)) with
  | inr e => mret (inr e)
  | inl (owner, accs) =>
      let st := mkWiring accs (border_map (wiring p)) (border_id_counter (wiring p)) in
      '(st, start) ← fold_outcome (install_tracked owner reserved) (st, pl_border_id_start p) (resolved_wires (connections b));
      accs ← fold_outcome (install_interface owner) (accumulators st) (connections b);
      let st := mkWiring accs (border_map st) (border_id_counter st) in
      let pending := foldl (buffer chunk) (pending p) (connections b) in
      match expired chunk max_pending_lifetime pending with
      | Some e => mret (inr e)
      | None =>
          '(st_start, pending) ← fold_outcome (resolve_agent owner reserved) ((st, start), pending) assignments.*1;
          mret (inl (mkPipeline s st_start.1 st_start.2 reserved pending owner chunk))
      end
  end.

Fixpoint process_stream (num_workers max_pending_lifetime : N) (p : Pipeline) (stream : list AgentBatch)
    : outcome (Pipeline + PartitionError) :=
  match stream with
  | [] => mret (inl p)
  | b :: stream =>
      r ← process_batch num_workers max_pending_lifetime p b;
      match r with
      | inl p => process_stream num_workers max_pending_lifetime p stream
      | inr e => mret (inr e)
      end
  end.

(** Step 5: equal bands of [0 .. global_max]. *)
Definition band (global_max : option N) (num_workers worker_idx : N) : IdRange :=
  match global_max with
  | Some m =>
      let total := m + 1 in
      let band := div_ceil total num_workers in
      mkIdRange (as_u32 ((worker_idx * band) `min` total)) (as_u32 (((worker_idx + 1) * band) `min` total))
  | None => mkIdRange 0 0
  end.

Fixpoint finalize_all (global_max : option N) (num_workers border_start border_end worker_idx : N)
    (accs : list PartitionAccumulator) : list Partition + PartitionError :=
  match accs with
  | [] => inl []
  | a :: accs =>
      match acc_finalize a (band global_max num_workers worker_idx) border_start border_end with
      | inr e => inr e
      | inl p =>
          match finalize_all global_max num_workers border_start border_end (worker_idx + 1) accs with
          | inl ps => inl (p :: ps)
          | inr e => inr e
          end
      end
  end.

Definition global_max_id (accs : list PartitionAccumulator) : option N :=
  foldr (λ a m, match max_assigned_id a, m with
                | Some x, Some y => Some (x `max` y)
                | Some x, None => Some x
                | None, m => m
                end) None accs.

Definition finish (num_workers : N) (p : Pipeline) : ChunkedPartitionResult + PartitionError :=
  match map_to_list (pending p) with
  | (id, _) :: _ => inr (UnresolvedForwardReferences id)
  | [] =>
      let st := wiring p in
      let border_end := border_id_counter st in
      let border_start := default border_end (pl_border_id_start p) in
      match finalize_all (global_max_id (accumulators st)) num_workers border_start border_end 0 (accumulators st) with
      | inr e => inr e
      | inl ps =>
          let stats := finalize_stats (strategy p) in
          inl (mkChunked ps (border_map st)
            (mkStats (total_agents stats) (per_worker_counts stats) border_end (chunks_seen p)))
      end
  end.

(** The short-circuit: the whole net, then the batch splitter. *)
Definition CHUNK_SIZE_MAX_SENTINEL : N := u32_MAX.

Definition materialise_directive (s : SparseNet) (d : ConnectionDirective) : SparseNet :=
  match d with
  | Resolved source target => Sparse.connect s (slot_ref source) (slot_ref target)
  | _ => s
  end.

Definition materialise_batch (s : SparseNet) (b : AgentBatch) : SparseNet :=
  foldl materialise_directive (foldl (λ s a, Sparse.create_agent_at s a.1 a.2) s (batch_agents b)) (connections b).

Definition materialise (stream : list AgentBatch) (num_workers : N) : outcome (ChunkedPartitionResult + PartitionError) :=
  match Sparse.to_dense (foldl materialise_batch Sparse.new stream) None with
  | inr e => mret (inr (ArenaConversionFailed e))
  | inl n => plan ← split (H := ContiguousIdStrategy) n num_workers; mret (inl (chunked_of_plan plan))
  end.

Definition generate_with_chunk_size_and_lifetime (stream : list AgentBatch) (num_workers : N) (s : Strat)
    (chunk_size max_pending_lifetime : N) : outcome (ChunkedPartitionResult + PartitionError) :=
  if num_workers =? 0 then mret (inr InvalidNumWorkers)
  else if chunk_size =? CHUNK_SIZE_MAX_SENTINEL then materialise stream num_workers
  else
    r ← process_stream num_workers max_pending_lifetime (initial s num_workers) stream;
    match r with
    | inr e => mret (inr e)
    | inl p => mret (finish num_workers p)
    end.

Definition generate_with_chunk_size (stream : list AgentBatch) (num_workers : N) (s : Strat) (chunk_size : N) :=
  generate_with_chunk_size_and_lifetime stream num_workers s chunk_size u32_MAX.

Definition generate_and_partition_chunked (stream : list AgentBatch) (num_workers : N) (s : Strat) :=
  generate_with_chunk_size stream num_workers s num_workers.

(** ** With the coordinator's border graph (merge/helpers.rs) *)

Definition generate_with_delta_and_config (stream : list AgentBatch) (num_workers : N) (s : Strat)
    (g : option BorderGraph) (delta_mode streaming_active : bool) (chunk_size max_pending_lifetime : N)
    : outcome (option BorderGraph * (ChunkedPartitionResult + PartitionError)) :=
  r ← generate_with_chunk_size_and_lifetime stream num_workers s chunk_size max_pending_lifetime;
  mret (match r with
        | inr _ => g
        | inl c => if delta_mode && streaming_active then Border.extend_with_chunk_borders (cp_borders c) <$> g else g
        end, r).

Definition generate_with_delta (stream : list AgentBatch) (num_workers : N) (s : Strat) (g : option BorderGraph)
    (delta_mode streaming_active : bool) (max_pending_lifetime : N) :=
  generate_with_delta_and_config stream num_workers s g delta_mode streaming_active u32_MAX max_pending_lifetime.

End pipeline.

End Streaming.
