(* ===== verification/StreamingInv.v ===== *)
(** The streaming partitioner's invariant: what the accumulators and the border
    map say of the wires installed so far. *)
From S2P Require Import Prelude NetTypes NetCore NetInv SparseNet SparseInv Partition Split Streaming.
Local Open Scope N_scope.
Import Streaming.

(** ** Sparse nets one operation at a time *)

(** A slot of an agent of [s] that has no wire. *)
Definition open_slot (s : SparseNet) (x : Slot) : Prop :=
  (∃ a, s_agents s !! x.1 = Some a ∧ x.2 < total_ports (symbol a)) ∧ s_ports s !! x = None.

Lemma slot_ref_inj x y : slot_ref x = slot_ref y → x = y.
Proof. destruct x, y. unfold slot_ref. cbn. by intros [= -> ->]. Qed.

Lemma write_open s x t : (∃ a, s_agents s !! x.1 = Some a ∧ x.2 < total_ports (symbol a)) → t ≠ DISCONNECTED →
  Sparse.write_port s (slot_ref x) t =
    mkSparse (s_agents s) (<[x := t]> (s_ports s)) (s_redex_queue s) (s_next_id s) (s_root s) (s_freeport_redirects s).
Proof.
  intros (a & Ha & Hp) Ht. destruct x as [id p]. unfold Sparse.write_port, slot_ref. cbn [fst snd] in *.
  rewrite Ha, (proj2 (N.leb_gt _ _) Hp). by rewrite decide_False.
Qed.

Lemma connect_slots_ports s x y : open_slot s x → open_slot s y →
  s_ports (Sparse.connect s (slot_ref x) (slot_ref y)) = <[y := slot_ref x]> (<[x := slot_ref y]> (s_ports s)) ∧
  s_agents (Sparse.connect s (slot_ref x) (slot_ref y)) = s_agents s ∧
  s_next_id (Sparse.connect s (slot_ref x) (slot_ref y)) = s_next_id s.
Proof.
  intros [Hx _] [Hy _]. unfold Sparse.connect. rewrite (write_open s x) by done. by rewrite write_open.
Qed.

Lemma connect_free_ports s x f : open_slot s x → f ≠ u32_MAX →
  s_ports (Sparse.connect s (slot_ref x) (FreePort f)) = <[x := FreePort f]> (s_ports s) ∧
  s_agents (Sparse.connect s (slot_ref x) (FreePort f)) = s_agents s ∧
  s_next_id (Sparse.connect s (slot_ref x) (FreePort f)) = s_next_id s.
Proof.
  intros [Hx _] Hf. unfold Sparse.connect. rewrite (write_open s x) by (first [done|intros [= ?]; done]). done.
Qed.

Lemma swf_connect_slots s x y : swf s → open_slot s x → open_slot s y → x ≠ y →
  swf (Sparse.connect s (slot_ref x) (slot_ref y)).
Proof.
  intros [A U E S] Hx Hy Hne. destruct (connect_slots_ports s x y Hx Hy) as (Hp & Ha & Hn).
  destruct Hx as [Hxa Hxn], Hy as [Hya Hyn].
  assert (Hback : ∀ z b q, s_ports s !! z = Some (AgentPort b q) → (b, q) ≠ x ∧ (b, q) ≠ y).
  { intros [id p] b q Hz. destruct (S id p b q Hz) as [Hb _]. split; intros <-; congruence. }
  split; rewrite ?Ha, ?Hn, ?Hp; try done.
  - intros id p t. rewrite !lookup_insert_Some.
    intros [[-> <-]|[_ [[-> <-]|[_ Ht]]]]; [by split|by split|by apply (E id p)].
  - intros id p b q. rewrite lookup_insert_Some. intros [[-> Hr]|[Hny Ht]].
    + destruct x as [c r]. unfold slot_ref in Hr. cbn in Hr. injection Hr as -> ->.
      rewrite lookup_insert_ne, lookup_insert_eq by done. done.
    + apply lookup_insert_Some in Ht as [[-> Hr]|[Hnx Ht]].
      * destruct y as [c r]. unfold slot_ref in Hr. cbn in Hr. injection Hr as -> ->. by rewrite lookup_insert_eq.
      * destruct (Hback _ _ _ Ht) as [Hbx Hby]. rewrite !lookup_insert_ne by done. by apply S.
Qed.

Lemma swf_connect_free s x f : swf s → open_slot s x → f ≠ u32_MAX → swf (Sparse.connect s (slot_ref x) (FreePort f)).
Proof.
  intros [A U E S] Hx Hf. destruct (connect_free_ports s x f Hx Hf) as (Hp & Ha & Hn). destruct Hx as [Hxa Hxn].
  split; rewrite ?Ha, ?Hn, ?Hp; try done.
  - intros id p t. rewrite lookup_insert_Some. intros [[-> <-]|[_ Ht]]; [|by apply (E id p)]. split; [by intros [= ?]|done].
  - intros id p b q. rewrite lookup_insert_Some. intros [[_ ?]|[Hnx Ht]]; [done|].
    destruct (S id p b q Ht) as [Hb Hne]. rewrite lookup_insert_ne by (intros ->; congruence). done.
Qed.

Lemma swf_create_at s id sym : swf s → s_agents s !! id = None → id < u32_MAX → swf (Sparse.create_agent_at s id sym).
Proof.
  intros [A U E S] Hn Hid. unfold Sparse.create_agent_at, Sparse.saturating_succ. split; cbn; try done.
  - intros x a. rewrite lookup_insert_Some. intros [[<- <-]|[_ Hx]].
    + split; [done|]. destruct (N.leb_spec (s_next_id s) id); lia.
    + destruct (A x a Hx) as [? ?]. split; [done|]. destruct (N.leb_spec (s_next_id s) id); lia.
  - destruct (N.leb_spec (s_next_id s) id); lia.
  - intros x p t Ht. destruct (E x p t Ht) as (Hd & a & Ha & Hp). split; [done|]. exists a. split; [|done].
    by rewrite lookup_insert_ne by congruence.
Qed.

Lemma create_at_ports s id sym : s_ports (Sparse.create_agent_at s id sym) = s_ports s.
Proof. done. Qed.

(** ** The accumulators *)

Definition sparse_of (a : PartitionAccumulator) : SparseNet :=
  match acc_subnet a with AccSparse s => s | AccDense _ => Sparse.new end.

(** The wire at a slot, the entry of the border index, the agent, as worker [w]
    has them. *)
Definition port (accs : list PartitionAccumulator) (w : N) (x : Slot) : option PortRef :=
  a ← accs !! N.to_nat w; s_ports (sparse_of a) !! x.
Definition index (accs : list PartitionAccumulator) (w f : N) : option PortRef :=
  a ← accs !! N.to_nat w; acc_free_port_index a !! f.
Definition agent (accs : list PartitionAccumulator) (w : N) (id : AgentId) : option Agent :=
  a ← accs !! N.to_nat w; s_agents (sparse_of a) !! id.

(** The ids of a sparse net, and the largest of a list of ids. *)
Definition keys (s : SparseNet) : list AgentId := (map_to_list (s_agents s)).*1.
Definition top (ids : list AgentId) : option AgentId :=
  match ids with [] => None | _ => Some (foldr N.max 0 ids) end.

#[export] Instance top_Proper : Proper ((≡ₚ) ==> (=)) top.
Proof.
  intros l l' Hp. unfold top. rewrite (foldr_permutation_proper (=) N.max 0 ltac:(lia) l l' Hp).
  destruct l, l'; [done|by apply Permutation_nil_cons in Hp|symmetry in Hp; by apply Permutation_nil_cons in Hp|done].
Qed.

Lemma keys_insert s id sym : s_agents s !! id = None → keys (Sparse.create_agent_at s id sym) ≡ₚ id :: keys s.
Proof. intros Hn. unfold keys. cbn [Sparse.create_agent_at s_agents]. by rewrite map_to_list_insert. Qed.

Lemma elem_of_sparse_keys s id : id ∈ keys s ↔ is_Some (s_agents s !! id).
Proof.
  unfold keys. rewrite list_elem_of_fmap. split.
  - intros ([x a] & -> & H%elem_of_map_to_list). by exists a.
  - intros [a H%elem_of_map_to_list]. by exists (id, a).
Qed.

(** An accumulator counts its agents and remembers the largest id. *)
Definition counted (a : PartitionAccumulator) : Prop :=
  live_agent_count a = N.of_nat (length (keys (sparse_of a))) ∧ max_assigned_id a = top (keys (sparse_of a)).

(** Accumulators are sparse, well formed and in worker order, and count their
    agents. *)
Definition accs_ok (k : N) (accs : list PartitionAccumulator) : Prop :=
  length accs = N.to_nat k ∧ ∀ i a, accs !! i = Some a →
    (acc_worker_id a = N.of_nat i ∧ counted a) ∧ acc_subnet a = AccSparse (sparse_of a) ∧ swf (sparse_of a).

Definition slot_open (accs : list PartitionAccumulator) (w : N) (x : Slot) : Prop :=
  (∃ a, agent accs w x.1 = Some a ∧ x.2 < total_ports (symbol a)) ∧ port accs w x = None.

Section accs.
Context (k : N) (accs : list PartitionAccumulator) (w : N).
Hypothesis Hok : accs_ok k accs.
Hypothesis Hw : w < k.

Lemma acc_at : ∃ a, accs !! N.to_nat w = Some a ∧ acc_subnet a = AccSparse (sparse_of a) ∧ swf (sparse_of a).
Proof.
  destruct Hok as [Hl Ha]. destruct (lookup_lt_is_Some_2 accs (N.to_nat w)) as [a E]; [lia|].
  exists a. split; [done|]. by apply (Ha _ _ E).
Qed.

Lemma slot_open_at a x : accs !! N.to_nat w = Some a → slot_open accs w x ↔ open_slot (sparse_of a) x.
Proof. intros E. unfold slot_open, open_slot, agent, port. by rewrite E. Qed.

(** One accumulator replaced. *)
Lemma insert_ok a a' s : accs !! N.to_nat w = Some a → acc_worker_id a' = acc_worker_id a → counted a' →
  acc_subnet a' = AccSparse s → swf s → accs_ok k (<[N.to_nat w := a']> accs).
Proof.
  intros E Hid Hc Hs Hwf. destruct Hok as [Hl Ha]. split; [by rewrite length_insert|]. intros i b.
  rewrite list_lookup_insert_Some. intros [(<- & <- & _)|[_ Hi]]; [|by apply Ha].
  split; [split; [rewrite Hid; by apply Ha|done]|]. unfold sparse_of. by rewrite Hs.
Qed.

Lemma connect_counted a x y s : accs !! N.to_nat w = Some a → sparse_of (acc_connect a x y) = s →
  s_agents s = s_agents (sparse_of a) → counted (acc_connect a x y).
Proof.
  intros E Hs Ha. destruct (proj2 Hok _ _ E) as [[_ [Hc Hm]] _]. unfold counted, keys in *. rewrite Hs, Ha. done.
Qed.

Lemma lookup_replaced {A} (f : PartitionAccumulator → option A) a' w' :
  (a ← <[N.to_nat w := a']> accs !! N.to_nat w'; f a) =
  if decide (w' = w) then f a' else a ← accs !! N.to_nat w'; f a.
Proof.
  destruct Hok as [Hl _]. case_decide as E.
  - subst w'. by rewrite list_lookup_insert_eq by lia.
  - by rewrite list_lookup_insert_ne by lia.
Qed.

Lemma connect_internal x y : slot_open accs w x → slot_open accs w y → x ≠ y →
  ∃ accs', connect_at w (slot_ref x) (slot_ref y) accs = Done accs' ∧ accs_ok k accs' ∧
    (∀ w' z, port accs' w' z = if decide (w' = w ∧ z = x) then Some (slot_ref y)
      else if decide (w' = w ∧ z = y) then Some (slot_ref x) else port accs w' z) ∧
    (∀ w' f, index accs' w' f = index accs w' f) ∧ (∀ w' id, agent accs' w' id = agent accs w' id).
Proof.
  intros Hx Hy Hne. destruct acc_at as (a & E & Hs & Hwf).
  apply (slot_open_at a x E) in Hx. apply (slot_open_at a y E) in Hy.
  destruct (connect_slots_ports _ _ _ Hx Hy) as (Hp & Ha & _).
  unfold connect_at. rewrite E. cbn [unwrap mbind outcome_bind]. eexists. split; [done|].
  assert (Hsub : sparse_of (acc_connect a (slot_ref x) (slot_ref y)) = Sparse.connect (sparse_of a) (slot_ref x) (slot_ref y)).
  { unfold acc_connect, sparse_of at 1. cbn. by rewrite Hs. }
  split; [|split; [|split]].
  - eapply insert_ok; [done|done|by eapply connect_counted| |by apply (swf_connect_slots (sparse_of a) x y)].
    unfold acc_connect. cbn. by rewrite Hs.
  - intros w' z. unfold port. rewrite lookup_replaced, Hsub, Hp. destruct (decide (w' = w)) as [->|Hn].
    + rewrite E. cbn [mbind option_bind]. destruct (decide (z = y)) as [->|Hzy].
      * rewrite lookup_insert_eq, decide_False by naive_solver. by rewrite decide_True.
      * rewrite lookup_insert_ne by done. destruct (decide (z = x)) as [->|Hzx].
        -- by rewrite lookup_insert_eq, decide_True.
        -- rewrite lookup_insert_ne, !decide_False by naive_solver. done.
    + by rewrite !decide_False by naive_solver.
  - intros w' f. unfold index. rewrite lookup_replaced. case_decide as Ew; [subst w'|done]. by rewrite E.
  - intros w' id. unfold agent. rewrite lookup_replaced, Hsub, Ha. case_decide as Ew; [subst w'|done]. by rewrite E.
Qed.

Lemma connect_border x f : slot_open accs w x → f ≠ u32_MAX →
  ∃ accs', connect_at w (slot_ref x) (FreePort f) accs = Done accs' ∧ accs_ok k accs' ∧
    (∀ w' z, port accs' w' z = if decide (w' = w ∧ z = x) then Some (FreePort f) else port accs w' z) ∧
    (∀ w' g, index accs' w' g = if decide (w' = w ∧ g = f) then Some (slot_ref x) else index accs w' g) ∧
    (∀ w' id, agent accs' w' id = agent accs w' id).
Proof.
  intros Hx Hf. destruct acc_at as (a & E & Hs & Hwf). apply (slot_open_at a x E) in Hx.
  destruct (connect_free_ports _ _ _ Hx Hf) as (Hp & Ha & _).
  unfold connect_at. rewrite E. cbn [unwrap mbind outcome_bind]. eexists. split; [done|].
  assert (Hsub : sparse_of (acc_connect a (slot_ref x) (FreePort f)) = Sparse.connect (sparse_of a) (slot_ref x) (FreePort f)).
  { unfold acc_connect, sparse_of at 1. cbn. by rewrite Hs. }
  split; [|split; [|split]].
  - eapply insert_ok; [done|done|by eapply connect_counted| |by apply (swf_connect_free (sparse_of a) x f)].
    unfold acc_connect. cbn. by rewrite Hs.
  - intros w' z. unfold port. rewrite lookup_replaced, Hsub, Hp. destruct (decide (w' = w)) as [->|Hn].
    + rewrite E. cbn [mbind option_bind]. destruct (decide (z = x)) as [->|Hzx].
      * by rewrite lookup_insert_eq, decide_True.
      * by rewrite lookup_insert_ne, decide_False by naive_solver.
    + by rewrite decide_False by naive_solver.
  - intros w' g. unfold index. rewrite lookup_replaced. destruct (decide (w' = w)) as [->|Hn].
    + rewrite E. cbn [mbind option_bind acc_connect acc_free_port_index index_end slot_ref].
      destruct (decide (g = f)) as [->|Hg]; [by rewrite lookup_insert_eq, decide_True|].
      by rewrite lookup_insert_ne, decide_False by naive_solver.
    + by rewrite decide_False by naive_solver.
  - intros w' id. unfold agent. rewrite lookup_replaced, Hsub, Ha. case_decide as Ew; [subst w'|done]. by rewrite E.
Qed.

Lemma add_agent_at id sym : agent accs w id = None → id < u32_MAX →
  ∃ a, accs !! N.to_nat w = Some a ∧ let accs' := <[N.to_nat w := add_agent a id sym]> accs in
    accs_ok k accs' ∧ (∀ w' z, port accs' w' z = port accs w' z) ∧ (∀ w' f, index accs' w' f = index accs w' f) ∧
    (∀ w' x, agent accs' w' x = if decide (w' = w ∧ x = id) then Some (mkAgent sym id) else agent accs w' x).
Proof.
  intros Hn Hid. destruct acc_at as (a & E & Hs & Hwf). exists a. split; [done|]. cbv zeta.
  assert (Hna : s_agents (sparse_of a) !! id = None) by (unfold agent in Hn; by rewrite E in Hn).
  assert (Hsub : sparse_of (add_agent a id sym) = Sparse.create_agent_at (sparse_of a) id sym).
  { unfold add_agent, sparse_of at 1. cbn. by rewrite Hs. }
  split; [|split; [|split]].
  - eapply insert_ok; [done|done| | |by apply swf_create_at].
    + destruct (proj2 Hok _ _ E) as [[_ [Hc Hm]] _]. pose proof (keys_insert (sparse_of a) id sym Hna) as Hp.
      unfold counted. rewrite Hsub. cbn [add_agent live_agent_count max_assigned_id]. split.
      * rewrite (Permutation_length Hp). cbn [length]. lia.
      * rewrite Hp, Hm. unfold map_or, top. destruct (keys (sparse_of a)); cbn [foldr]; f_equal; lia.
    + unfold add_agent. cbn. by rewrite Hs.
  - intros w' z. unfold port. rewrite lookup_replaced, Hsub. case_decide as Ew; [subst w'; by rewrite E|done].
  - intros w' f. unfold index. rewrite lookup_replaced. case_decide as Ew; [subst w'; by rewrite E|done].
  - intros w' x. unfold agent. rewrite lookup_replaced, Hsub. cbn [Sparse.create_agent_at s_agents].
    destruct (decide (w' = w)) as [->|Hnw]; [|by rewrite decide_False by naive_solver]. rewrite E. cbn [mbind option_bind].
    destruct (decide (x = id)) as [->|Hx]; [by rewrite lookup_insert_eq, decide_True|].
    by rewrite lookup_insert_ne, decide_False by naive_solver.
Qed.
End accs.

(** ** What the installed wires look like *)

(** The two ends of a wire: joined inside a worker, or through a border that
    both workers and the border map know. *)
Definition joined (owner : gmap AgentId WorkerId) (st : Wiring) (wire : Slot * Slot) : Prop :=
  ∃ ws wt, owner !! wire.1.1 = Some ws ∧ owner !! wire.2.1 = Some wt ∧
    if ws =? wt then
      port (accumulators st) ws wire.1 = Some (slot_ref wire.2) ∧ port (accumulators st) ws wire.2 = Some (slot_ref wire.1)
    else ∃ bid, bid < border_id_counter st ∧
      border_map st !! bid = Some (if ws <=? wt then (slot_ref wire.1, slot_ref wire.2) else (slot_ref wire.2, slot_ref wire.1)) ∧
      port (accumulators st) ws wire.1 = Some (FreePort bid) ∧ port (accumulators st) wt wire.2 = Some (FreePort bid) ∧
      index (accumulators st) ws bid = Some (slot_ref wire.1) ∧ index (accumulators st) wt bid = Some (slot_ref wire.2).

Definition exposed (owner : gmap AgentId WorkerId) (accs : list PartitionAccumulator) (i : Slot * N) : Prop :=
  ∃ w, owner !! i.1.1 = Some w ∧ port accs w i.1 = Some (FreePort i.2) ∧ index accs w i.2 = Some (slot_ref i.1).

Definition slots (W : list (Slot * Slot)) : list Slot := W ≫= λ w, [w.1; w.2].

Lemma slots_app W V : slots (W ++ V) = slots W ++ slots V.
Proof. apply bind_app. Qed.

Lemma slots_cons w W : slots (w :: W) = w.1 :: w.2 :: slots W.
Proof. done. Qed.

Lemma NoDup_app_cons {A} (l l' : list A) x : NoDup (l ++ x :: l') → x ∉ l ∧ x ∉ l'.
Proof. intros (_ & Hd & (Hx & _)%NoDup_cons)%NoDup_app. split; [|done]. intros Hin. apply (Hd _ Hin). by left. Qed.

Lemma NoDup_middle {A} (l l' : list A) x y : NoDup (l ++ x :: y :: l') → x ≠ y ∧ (x ∉ l ∧ x ∉ l') ∧ y ∉ l ∧ y ∉ l'.
Proof.
  intros (_ & Hd & (Hx & (Hy & _)%NoDup_cons)%NoDup_cons)%NoDup_app. rewrite elem_of_cons in Hx.
  split; [|split; split]; [tauto| |tauto| |done]; intros Hin; apply (Hd _ Hin); by rewrite ?elem_of_cons; auto.
Qed.

(** A border of the map comes from a wire between two workers, the lower
    worker's end first. *)
Definition border_of (owner : gmap AgentId WorkerId) (W : list (Slot * Slot)) (b : PortRef * PortRef) : Prop :=
  ∃ s t ws wt, ((s, t) ∈ W ∨ (t, s) ∈ W) ∧ b = (slot_ref s, slot_ref t) ∧
    owner !! s.1 = Some ws ∧ owner !! t.1 = Some wt ∧ ws < wt.

(** State [b] has all that state [a] has. *)
Record grows (a b : Wiring) : Prop := {
  gw_port : ∀ w x r, port (accumulators a) w x = Some r → port (accumulators b) w x = Some r;
  gw_index : ∀ w f r, index (accumulators a) w f = Some r → index (accumulators b) w f = Some r;
  gw_border : ∀ bid p, border_map a !! bid = Some p → border_map b !! bid = Some p;
  gw_counter : border_id_counter a ≤ border_id_counter b;
}.

Lemma joined_grows owner owner' a b wire : owner ⊆ owner' → grows a b → joined owner a wire → joined owner' b wire.
Proof.
  intros Ho [P I B C] (ws & wt & Hs & Ht & H). exists ws, wt.
  split; [by eapply lookup_weaken|]. split; [by eapply lookup_weaken|].
  destruct (ws =? wt); [split; apply P; tauto|]. destruct H as (bid & H0 & H1 & H2 & H3 & H4 & H5).
  exists bid. split; [lia|]. auto 10.
Qed.

Lemma exposed_grows owner owner' a b i : owner ⊆ owner' → grows a b →
  exposed owner (accumulators a) i → exposed owner' (accumulators b) i.
Proof. intros Ho [P I _ _] (w & Hw & Hp & Hi). exists w. split; [by eapply lookup_weaken|]. auto. Qed.

Lemma border_of_mono owner owner' W V p : owner ⊆ owner' → (∀ w, w ∈ W → w ∈ V) → border_of owner W p → border_of owner' V p.
Proof.
  intros Ho HW (s & t & ws & wt & Hin & -> & Hs & Ht & Hlt). exists s, t, ws, wt.
  split; [naive_solver|]. split; [done|]. split; [by eapply lookup_weaken|]. split; [by eapply lookup_weaken|done].
Qed.

(** ** The invariant of the wiring *)

Section wiring.
Context (k : N).

(** The reserved ids below [c]. *)
Definition below (R : gset N) (c : N) : nat := size (filter (λ f, f < c) R).

(** [W] are the wires installed so far, [I] the interface ports and [R] the
    reserved ids. *)
Record good (R : gset N) (owner : gmap AgentId WorkerId) (st : Wiring) (W : list (Slot * Slot)) (I : list (Slot * N)) : Prop := {
  gd_ok : accs_ok k (accumulators st);
  gd_owner : ∀ w id, is_Some (agent (accumulators st) w id) ↔ owner !! id = Some w;
  gd_used : ∀ w x, is_Some (port (accumulators st) w x) → x ∈ slots W ∨ x ∈ I.*1;
  gd_wires : ∀ wire, wire ∈ W → joined owner st wire;
  gd_faces : ∀ i, i ∈ I → exposed owner (accumulators st) i ∧ i.2 ∈ R;
  gd_count : border_id_counter st ≤ N.of_nat (length W + below R (border_id_counter st));
  gd_borders : ∀ bid b, border_map st !! bid = Some b → (bid < border_id_counter st ∧ bid ∉ R) ∧ border_of owner W b;
  gd_index : ∀ w f r, index (accumulators st) w f = Some r →
    (∃ b, border_map st !! f = Some b ∧ (r = b.1 ∨ r = b.2)) ∨ (∃ x, (x, f) ∈ I ∧ r = slot_ref x);
}.

Context (R : gset N).

Lemma good_worker owner st W I w id : good R owner st W I → owner !! id = Some w → w < k.
Proof.
  intros Hg [a Ha]%(gd_owner _ _ _ _ _ Hg). destruct (gd_ok _ _ _ _ _ Hg) as [Hl _]. unfold agent in Ha.
  destruct (accumulators st !! N.to_nat w) as [acc|] eqn:E; [|done]. apply lookup_lt_Some in E. lia.
Qed.

(** A slot of a known agent that no wire uses yet. *)
Definition fresh_slot (owner : gmap AgentId WorkerId) (st : Wiring) (W : list (Slot * Slot)) (I : list (Slot * N)) (x : Slot) : Prop :=
  (∃ w a, owner !! x.1 = Some w ∧ agent (accumulators st) w x.1 = Some a ∧ x.2 < total_ports (symbol a)) ∧
  x ∉ slots W ∧ x ∉ I.*1.

Lemma fresh_open owner st W I w x : good R owner st W I → fresh_slot owner st W I x → owner !! x.1 = Some w →
  slot_open (accumulators st) w x.
Proof.
  intros Hg [(w' & a & Hw' & Ha & Hp) [Hn1 Hn2]] Hw. assert (w' = w) as -> by congruence. split; [by exists a|].
  destruct (port (accumulators st) w x) as [r|] eqn:E; [|done].
  by destruct (gd_used _ _ _ _ _ Hg w x) as [?|?]; [by eexists|..].
Qed.

(** An id that is neither reserved nor below the counter is new. *)
Lemma new_border_id owner st W I w bid : good R owner st W I → border_id_counter st ≤ bid → bid ∉ R →
  index (accumulators st) w bid = None.
Proof.
  intros Hg Hle Hn. destruct (index _ w _) as [r|] eqn:E; [|done]. exfalso.
  destruct (gd_index _ _ _ _ _ Hg _ _ _ E) as [(b & Hb & _)|(x & Hx & _)].
  - destruct (gd_borders _ _ _ _ _ Hg _ _ Hb) as [[??] _]. lia.
  - by destruct (gd_faces _ _ _ _ _ Hg _ Hx) as [_ ?].
Qed.

Lemma below_le c : (below R c ≤ size R)%nat.
Proof. unfold below. apply subseteq_size. intros x. rewrite elem_of_filter. tauto. Qed.

Lemma below_mono c d : c ≤ d → (below R c ≤ below R d)%nat.
Proof. intros Hcd. unfold below. apply subseteq_size. intros x. rewrite !elem_of_filter. intros [? ?]. split; [lia|done]. Qed.

Lemma below_succ c : c ∈ R → below R (c + 1) = Datatypes.S (below R c).
Proof.
  intros Hc. unfold below. assert (filter (λ f, f < c + 1) R = {[c]} ∪ filter (λ f, f < c) R) as ->.
  { apply set_eq. intros x. rewrite elem_of_union, elem_of_singleton, !elem_of_filter. split.
    - intros [? ?]. destruct (decide (x = c)); [by left|right; split; [lia|done]].
    - intros [->|[? ?]]; (split; [lia|done]). }
  rewrite size_union, size_singleton; [done|]. intros x. rewrite elem_of_singleton, elem_of_filter. intros -> [? _]. lia.
Qed.

(** The counter stops at the next id that is not reserved. *)
Lemma skip_finds n fuel : ∀ counter, (size R ≤ below R counter + fuel)%nat → counter ≤ N.of_nat (n + below R counter) →
  N.of_nat (n + size R) < u32_MAX →
  ∃ bid, skip_reserved fuel R counter = Done bid ∧ counter ≤ bid ∧ bid ∉ R ∧ bid ≤ N.of_nat (n + below R bid).
Proof.
  induction fuel as [|fuel IH]; intros c Hf Hc Hmax.
  - exists c. split; [done|]. split; [lia|]. split; [|done]. intros Hin.
    pose proof (below_succ c Hin). pose proof (below_le (c + 1)). lia.
  - cbn [skip_reserved]. pose proof (below_le c). case_bool_decide as Hin; [|exists c; split_and!; [done|lia|done|done]].
    unfold checked_succ. rewrite (proj2 (N.eqb_neq _ _)) by lia. cbn [mbind outcome_bind].
    pose proof (below_succ c Hin). destruct (IH (c + 1)) as (bid & E & ? & ? & ?); [lia|lia|done|].
    exists bid. split; [done|]. split; [lia|done].
Qed.

Section install.
Context (owner : gmap AgentId WorkerId) (st : Wiring) (W : list (Slot * Slot)) (I : list (Slot * N)).
Context (s t : Slot).
Hypothesis Hg : good R owner st W I.
Hypothesis Hs : fresh_slot owner st W I s.
Hypothesis Ht : fresh_slot owner st W I t.
Hypothesis Hne : s ≠ t.

Lemma install_local w accs' : owner !! s.1 = Some w → owner !! t.1 = Some w → 
  accs_ok k accs' →
  (∀ w' z, port accs' w' z = if decide (w' = w ∧ z = s) then Some (slot_ref t)
      else if decide (w' = w ∧ z = t) then Some (slot_ref s) else port (accumulators st) w' z) →
  (∀ w' f, index accs' w' f = index (accumulators st) w' f) →
  (∀ w' id, agent accs' w' id = agent (accumulators st) w' id) →
  good R owner (mkWiring accs' (border_map st) (border_id_counter st)) (W ++ [(s, t)]) I.
Proof.
  intros Hws Hwt Hok Hp Hi Ha.
  pose proof (proj2 (fresh_open _ _ _ _ w _ Hg Hs Hws)) as Hsn. pose proof (proj2 (fresh_open _ _ _ _ w _ Hg Ht Hwt)) as Htn.
  assert (Hgr : grows st (mkWiring accs' (border_map st) (border_id_counter st))).
  { split; cbn; try done; intros w' x r Hr; [|by rewrite Hi]. rewrite Hp.
    destruct (decide (w' = w ∧ x = s)) as [[-> ->]|]; [congruence|].
    destruct (decide (w' = w ∧ x = t)) as [[-> ->]|]; [congruence|done]. }
  destruct Hg as [_ O U Wi F C B X]. split; cbn [accumulators border_map border_id_counter]; [done|..].
  - intros w' id. by rewrite Ha.
  - intros w' x. rewrite Hp, slots_app, elem_of_app. cbn. 
    destruct (decide (w' = w ∧ x = s)) as [[-> ->]|]; [set_solver|].
    destruct (decide (w' = w ∧ x = t)) as [[-> ->]|]; [set_solver|]. intros [?|?]%U; auto.
  - intros wire [Hin|Hin]%elem_of_app; [by eapply joined_grows; [|exact Hgr|apply Wi]|].
    apply list_elem_of_singleton in Hin as ->. exists w, w. rewrite N.eqb_refl. cbn [fst snd accumulators].
    rewrite !Hp. rewrite (decide_True (P := w = w ∧ s = s)) by done. rewrite (decide_False (P := w = w ∧ t = s)) by naive_solver.
    by rewrite (decide_True (P := w = w ∧ t = t)).
  - intros i Hin. destruct (F i Hin) as [He ?]. split; [by apply (exposed_grows _ _ _ _ i (reflexivity owner) Hgr)|done].
  - rewrite length_app. cbn. lia.
  - intros bid b Hb. destruct (B bid b Hb). split; [done|]. eapply border_of_mono; [done| |done]. set_solver.
  - intros w' f r. rewrite Hi. apply X.
Qed.

Lemma install_border ws wt bid accs1 accs2 : owner !! s.1 = Some ws → owner !! t.1 = Some wt → ws ≠ wt →
  border_id_counter st ≤ bid → bid ∉ R → bid ≤ N.of_nat (length W + below R bid) →
  accs_ok k accs2 →
  (∀ w z, port accs1 w z = if decide (w = ws ∧ z = s) then Some (FreePort bid) else port (accumulators st) w z) →
  (∀ w g, index accs1 w g = if decide (w = ws ∧ g = bid) then Some (slot_ref s) else index (accumulators st) w g) →
  (∀ w id, agent accs1 w id = agent (accumulators st) w id) →
  (∀ w z, port accs2 w z = if decide (w = wt ∧ z = t) then Some (FreePort bid) else port accs1 w z) →
  (∀ w g, index accs2 w g = if decide (w = wt ∧ g = bid) then Some (slot_ref t) else index accs1 w g) →
  (∀ w id, agent accs2 w id = agent accs1 w id) →
  good R owner (mkWiring accs2 (<[bid := if ws <=? wt then (slot_ref s, slot_ref t) else (slot_ref t, slot_ref s)]> (border_map st)) (bid + 1))
    (W ++ [(s, t)]) I.
Proof.
  intros Hws Hwt Hww Hcb Hbr Hbw Hok P1 I1 A1 P2 I2 A2.
  pose proof (proj2 (fresh_open _ _ _ _ ws _ Hg Hs Hws)) as Hsn. pose proof (proj2 (fresh_open _ _ _ _ wt _ Hg Ht Hwt)) as Htn.
  assert (Hnb : border_map st !! bid = None).
  { destruct (border_map st !! bid) as [b|] eqn:E; [|done]. destruct (gd_borders _ _ _ _ _ Hg bid b E) as [[??] _]. lia. }
  assert (Hni : ∀ w, index (accumulators st) w bid = None) by (intros w; by eapply new_border_id).
  set (st' := mkWiring accs2 _ _).
  assert (Hgr : grows st st').
  { split; cbn [st' accumulators border_map border_id_counter].
    - intros w x r Hr. rewrite P2, P1. destruct (decide (w = wt ∧ x = t)) as [[-> ->]|]; [congruence|].
      destruct (decide (w = ws ∧ x = s)) as [[-> ->]|]; [congruence|done].
    - intros w f r Hr. rewrite I2, I1. destruct (decide (w = wt ∧ f = bid)) as [[-> ->]|]; [by rewrite Hni in Hr|].
      destruct (decide (w = ws ∧ f = bid)) as [[-> ->]|]; [by rewrite Hni in Hr|done].
    - intros b p Hb. by rewrite lookup_insert_ne by congruence.
    - lia. }
  destruct Hg as [_ O U Wi F C B X]. split; cbn [st' accumulators border_map border_id_counter]; [done|..].
  - intros w id. by rewrite A2, A1.
  - intros w x. rewrite P2, P1, slots_app, elem_of_app. cbn.
    destruct (decide (w = wt ∧ x = t)) as [[-> ->]|]; [set_solver|].
    destruct (decide (w = ws ∧ x = s)) as [[-> ->]|]; [set_solver|]. intros [?|?]%U; auto.
  - intros wire [Hin|Hin]%elem_of_app; [by eapply joined_grows; [|exact Hgr|apply Wi]|].
    apply list_elem_of_singleton in Hin as ->. exists ws, wt. apply N.eqb_neq in Hww as Hq. rewrite Hq.
    split; [done|]. split; [done|]. exists bid. cbn [fst snd st' accumulators border_map border_id_counter].
    split; [lia|]. split; [by rewrite lookup_insert_eq|].
    rewrite !P2, !P1, !I2, !I1. rewrite (decide_False (P := ws = wt ∧ s = t)), (decide_True (P := ws = ws ∧ s = s)) by naive_solver.
    rewrite (decide_True (P := wt = wt ∧ t = t)) by done.
    rewrite (decide_False (P := ws = wt ∧ bid = bid)), (decide_True (P := ws = ws ∧ bid = bid)) by naive_solver.
    by rewrite (decide_True (P := wt = wt ∧ bid = bid)).
  - intros i Hin. destruct (F i Hin) as [He ?]. split; [by apply (exposed_grows _ _ _ _ i (reflexivity owner) Hgr)|done].
  - rewrite length_app. cbn [length]. pose proof (below_mono bid (bid + 1) ltac:(lia)). lia.
  - intros b p. rewrite lookup_insert_Some. intros [[<- <-]|[_ Hb]].
    + split; [split; [lia|done]|]. destruct (N.leb_spec ws wt).
      * exists s, t, ws, wt. split_and!; try done; [set_solver|lia].
      * exists t, s, wt, ws. split_and!; try done. set_solver.
    + destruct (B b p Hb) as [[??] ?]. split; [split; [lia|done]|]. eapply border_of_mono; [done| |done]. set_solver.
  - intros w f r. rewrite I2, I1.
    destruct (decide (w = wt ∧ f = bid)) as [[-> ->]|]; [intros [= <-]; left; eexists; split; [by rewrite lookup_insert_eq|]; destruct (ws <=? wt); auto|].
    destruct (decide (w = ws ∧ f = bid)) as [[-> ->]|]; [intros [= <-]; left; eexists; split; [by rewrite lookup_insert_eq|]; destruct (ws <=? wt); auto|].
    intros [(b & Hb & ?)|?]%X; [|by right]. left. exists b. by rewrite lookup_insert_ne by congruence.
Qed.

Lemma install_good : N.of_nat (length W + size R) < u32_MAX →
  ∃ st', install_connection s t owner R st = Done st' ∧ good R owner st' (W ++ [(s, t)]) I ∧
    ((border_id_counter st' = border_id_counter st ∧ border_map st' = border_map st) ∨
     ∃ bid b, border_id_counter st ≤ bid ∧ border_id_counter st' = bid + 1 ∧ border_map st' = <[bid := b]> (border_map st)) ∧
    (∀ w id, agent (accumulators st') w id = agent (accumulators st) w id).
Proof.
  intros Hmax. pose proof Hs as [(ws & a & Hws & Ha & Hpa) _]. pose proof Ht as [(wt & b & Hwt & Hb & Hpb) _].
  pose proof (gd_ok _ _ _ _ _ Hg) as Hok. pose proof (gd_count _ _ _ _ _ Hg) as Hc.
  pose proof (fresh_open _ _ _ _ _ _ Hg Hs Hws) as Hos. pose proof (fresh_open _ _ _ _ _ _ Hg Ht Hwt) as Hot.
  pose proof (good_worker _ _ _ _ _ _ Hg Hws) as Hlws. pose proof (good_worker _ _ _ _ _ _ Hg Hwt) as Hlwt.
  unfold install_connection. rewrite Hws, Hwt. cbn [unwrap mbind outcome_bind].
  destruct (N.eqb_spec ws wt) as [<-|Hne'].
  - destruct (connect_internal k _ ws Hok Hlws s t Hos Hot Hne) as (accs' & E & Hok' & Hp & Hi & Hag).
    rewrite E. cbn [mbind outcome_bind]. eexists. split; [done|]. split; [by eapply install_local|]. split; [by left|done].
  - destruct (skip_finds (length W) (size R) (border_id_counter st)) as (bid & Ebid & Hle & Hnr & Hbw); [lia|done|done|].
    pose proof (below_le bid). rewrite Ebid. cbn [mbind outcome_bind].
    unfold checked_succ. rewrite (proj2 (N.eqb_neq _ _)) by lia. cbn [mbind outcome_bind].
    destruct (connect_border k _ ws Hok Hlws s bid Hos) as (accs1 & E1 & Hok1 & P1 & I1 & A1); [lia|].
    assert (Hot1 : slot_open accs1 wt t).
    { destruct Hot as [Hagt Hpt]. split; [by rewrite A1|]. rewrite P1, decide_False by naive_solver. done. }
    destruct (connect_border k _ wt Hok1 Hlwt t bid Hot1) as (accs2 & E2 & Hok2 & P2 & I2 & A2); [lia|].
    destruct (if ws <=? wt then _ else _) as [c1 c2] eqn:Ec. rewrite E1. cbn [mbind outcome_bind]. rewrite E2. cbn [mbind outcome_bind].
    eexists. split; [done|]. split; [|split; [right; exists bid, (c1, c2); done|intros; cbn [accumulators]; by rewrite A2, A1]].
    rewrite <- Ec. eapply (install_border ws wt bid accs1 accs2); done.
Qed.
End install.

(** ** Agents *)

Lemma place_one owner st W I id sym w : good R owner st W I → owner !! id = None → w < k → id < u32_MAX →
  ∃ a, accumulators st !! N.to_nat w = Some a ∧ let accs' := <[N.to_nat w := add_agent a id sym]> (accumulators st) in
    good R (<[id := w]> owner) (mkWiring accs' (border_map st) (border_id_counter st)) W I ∧
    (∀ w' x, agent accs' w' x = if decide (w' = w ∧ x = id) then Some (mkAgent sym id) else agent (accumulators st) w' x).
Proof.
  intros Hg Hn Hw Hid.
  assert (Hna : ∀ w', agent (accumulators st) w' id = None).
  { intros w'. apply eq_None_not_Some. intros H%(gd_owner _ _ _ _ _ Hg). congruence. }
  destruct (add_agent_at k _ w (gd_ok _ _ _ _ _ Hg) Hw id sym (Hna w) Hid) as (a & E & Hok & P1 & I1 & A1).
  exists a. split; [done|]. cbv zeta in *. set (accs' := <[_ := _]> (accumulators st)) in *. split; [|done].
  assert (Ho : owner ⊆ <[id := w]> owner) by (by apply insert_subseteq).
  assert (Hgr : grows st (mkWiring accs' (border_map st) (border_id_counter st))).
  { split; cbn; try done; intros; by rewrite ?P1, ?I1. }
  destruct Hg as [_ O U Wi F C B X]. split; cbn [accumulators border_map border_id_counter]; [done|..].
  - intros w' x. rewrite A1, lookup_insert. destruct (decide (id = x)) as [<-|Hx].
    + destruct (decide (w' = w)) as [->|Hw']; [rewrite decide_True by done; naive_solver|].
      rewrite decide_False by naive_solver. rewrite Hna. split; [by intros []|naive_solver].
    + rewrite decide_False by naive_solver. apply O.
  - intros w' x. rewrite P1. apply U.
  - intros wire Hin. by eapply joined_grows; [exact Ho|exact Hgr|apply Wi].
  - intros i Hin. destruct (F i Hin) as [He ?]. split; [by apply (exposed_grows _ _ _ _ i Ho Hgr)|done].
  - done.
  - intros bid b Hb. destruct (B bid b Hb). split; [done|]. by eapply border_of_mono; [exact Ho| |done].
  - intros w' f r. rewrite I1. apply X.
Qed.

Lemma place_good symbols assignments : ∀ owner st W I, good R owner st W I → NoDup assignments.*1 →
  (∀ id, id ∈ assignments.*1 → owner !! id = None ∧ id < u32_MAX ∧ is_Some (symbols !! id)) →
  Forall (λ e, e.2 < k) assignments →
  ∃ owner' accs', place symbols k assignments owner (accumulators st) = inl (owner', accs') ∧
    good R owner' (mkWiring accs' (border_map st) (border_id_counter st)) W I ∧
    owner ⊆ owner' ∧ (∀ id, is_Some (owner' !! id) ↔ is_Some (owner !! id) ∨ id ∈ assignments.*1) ∧
    (∀ w id a, agent (accumulators st) w id = Some a → agent accs' w id = Some a) ∧
    (∀ id sym, id ∈ assignments.*1 → symbols !! id = Some sym → ∃ w, agent accs' w id = Some (mkAgent sym id)).
Proof.
  induction assignments as [|[id w] l IH]; intros owner st W I Hg Hnd Hids Hk.
  - exists owner, (accumulators st). split; [done|]. destruct st. split; [done|]. split; [done|].
    split; [intros; rewrite elem_of_nil; tauto|]. split; [done|]. intros ? ? Hin. by apply elem_of_nil in Hin.
  - cbn [fmap list_fmap fst] in Hnd, Hids. apply NoDup_cons in Hnd as [Hni Hnd]. apply Forall_cons in Hk as [Hw Hk].
    destruct (Hids id) as (Hn & Hid & [sym Hsym]); [by left|].
    destruct (place_one owner st W I id sym w Hg Hn Hw Hid) as (a & E & Hg' & A1).
    cbn [place]. rewrite E, Hsym.
    destruct (IH _ _ _ _ Hg' Hnd) as (owner' & accs' & Ep & Hg'' & Hsub & Hdom & Hag & Hnew); [|done|].
    { intros x Hx. destruct (Hids x) as (? & ? & ?); [by right|]. split; [|done].
      rewrite lookup_insert_ne by (intros ->; done). done. }
    cbn [accumulators border_map border_id_counter] in *. exists owner', accs'. split; [done|]. split; [done|].
    split; [etrans; [|exact Hsub]; by apply insert_subseteq|].
    assert (Hid' : agent accs' w id = Some (mkAgent sym id)) by (apply Hag; by rewrite A1, decide_True).
    split; [|split].
    + intros x. rewrite Hdom, lookup_insert. cbn [fmap list_fmap fst]. rewrite elem_of_cons.
      destruct (decide (id = x)) as [<-|Hx]; [|naive_solver]. split; [by right; left|]. left. by eexists.
    + intros w' x b Hb. apply Hag. rewrite A1. destruct (decide (w' = w ∧ x = id)) as [[-> ->]|]; [|done].
      exfalso. assert (Hs : is_Some (agent (accumulators st) w id)) by (by exists b).
      apply (gd_owner _ _ _ _ _ Hg) in Hs. congruence.
    + intros x sym'. cbn [fmap list_fmap fst]. rewrite elem_of_cons. intros [->|Hin] Hs'; [|by apply Hnew].
      assert (sym' = sym) as -> by congruence. by exists w.
Qed.

(** ** Lists of wires and of interface ports *)

(** A slot of an agent that has been placed. *)
Definition known (owner : gmap AgentId WorkerId) (accs : list PartitionAccumulator) (x : Slot) : Prop :=
  ∃ w a, owner !! x.1 = Some w ∧ agent accs w x.1 = Some a ∧ x.2 < total_ports (symbol a).

Lemma known_ext owner accs accs' x : (∀ w id, agent accs' w id = agent accs w id) → known owner accs x → known owner accs' x.
Proof. intros Ha (w & a & Hw & Hag & Hp). exists w, a. by rewrite Ha. Qed.

(** The first border id ever allocated is below all the others. *)
Definition start_ok (st : Wiring) (start : option N) : Prop :=
  match start with
  | None => border_id_counter st = 0
  | Some s => s < border_id_counter st ∧ ∀ bid, is_Some (border_map st !! bid) → s ≤ bid
  end.

Lemma install_start st st' W I owner start : good R owner st W I → start_ok st start →
  (border_id_counter st' = border_id_counter st ∧ border_map st' = border_map st) ∨
  (∃ bid b, border_id_counter st ≤ bid ∧ border_id_counter st' = bid + 1 ∧ border_map st' = <[bid := b]> (border_map st)) →
  start_ok st' (match start with
    | None => if border_id_counter st' =? border_id_counter st then None else Some (border_id_counter st' - 1)
    | Some _ => start end).
Proof.
  intros Hg Hst [[Hc Hm]|(bid & b & Hle & Hc & Hm)].
  - destruct start as [z|]; unfold start_ok in *; rewrite ?Hc, ?Hm; [done|]. by rewrite N.eqb_refl.
  - destruct start as [z|]; unfold start_ok in *.
    + rewrite Hc, Hm. destruct Hst as [Hz Hall]. split; [lia|]. intros i. rewrite lookup_insert.
      destruct (decide (bid = i)) as [<-|]; [lia|apply Hall].
    + destruct (N.eqb_spec (border_id_counter st') (border_id_counter st)); [lia|]. rewrite Hc, Hm. split; [lia|].
      intros i. rewrite lookup_insert. destruct (decide (bid = i)) as [<-|]; [lia|]. intros [p Hp].
      destruct (gd_borders _ _ _ _ _ Hg _ _ Hp) as [[??] _]. lia.
Qed.

Lemma install_many owner I ws : ∀ st W start, good R owner st W I →
  (∀ x, x ∈ slots ws → known owner (accumulators st) x) → NoDup (slots (W ++ ws) ++ I.*1) →
  N.of_nat (length (W ++ ws) + size R) ≤ u32_MAX → start_ok st start →
  ∃ st' start', fold_outcome (install_tracked owner R) (st, start) ws = Done (st', start') ∧
    good R owner st' (W ++ ws) I ∧ start_ok st' start' ∧
    (∀ w id, agent (accumulators st') w id = agent (accumulators st) w id).
Proof.
  induction ws as [|[s t] ws IH]; intros st W start Hg Hk Hnd Hlen Hst.
  - exists st, start. by rewrite app_nil_r.
  - assert (Heq : W ++ (s, t) :: ws = (W ++ [(s, t)]) ++ ws) by (by rewrite <- app_assoc). rewrite Heq in *.
    assert (Hst_ne : NoDup (slots W ++ s :: t :: I.*1)).
    { rewrite !slots_app in Hnd. change (slots [(s, t)]) with [s; t] in Hnd.
      eapply sublist_NoDup; [exact Hnd|]. rewrite <- !app_assoc. apply sublist_app; [done|].
      do 2 apply sublist_skip. by apply sublist_inserts_l. }
    apply NoDup_middle in Hst_ne as (Hne & Hs & Ht).
    assert (Hks : known owner (accumulators st) s ∧ known owner (accumulators st) t ∧ ∀ x, x ∈ slots ws → known owner (accumulators st) x).
    { split_and!; [..|intros x Hx]; apply Hk; rewrite slots_cons, !elem_of_cons; auto. }
    destruct Hks as (Hks & Hkt & Hkw). rewrite !length_app in Hlen. cbn in Hlen.
    destruct (install_good owner st W I s t Hg) as (st' & E & Hg' & Hc & Ha);
      [by split|by split|done|lia|].
    cbn [fold_outcome install_tracked fst snd]. rewrite E. cbn [mbind outcome_bind]. unfold mret, outcome_ret.
    match goal with |- context [fold_outcome _ (st', ?b) ws] => set (start' := b) end.
    destruct (IH st' (W ++ [(s, t)]) start') as (st'' & start'' & E' & Hg'' & Hst'' & Ha''); [done| |done|rewrite !length_app; cbn; lia| |].
    + intros x Hx. eapply known_ext; [done|]. by apply Hkw.
    + by eapply install_start.
    + exists st'', start''. split_and!; [done|done|done|]. intros. by rewrite Ha''.
Qed.

Definition face (d : ConnectionDirective) : option (Slot * N) :=
  match d with FreePortInterface x f => Some (x, f) | _ => None end.

Lemma install_face owner st W I x f : good R owner st W I → fresh_slot owner st W I x → f ∈ R → f < u32_MAX → f ∉ I.*2 →
  ∃ accs', install_interface owner (accumulators st) (FreePortInterface x f) = Done accs' ∧
    good R owner (mkWiring accs' (border_map st) (border_id_counter st)) W (I ++ [(x, f)]) ∧
    (∀ w id, agent accs' w id = agent (accumulators st) w id).
Proof.
  intros Hg Hf HfR Hfm Hnew. pose proof Hf as [(w & a & Hw & Ha & Hp) [Hn1 Hn2]].
  pose proof (fresh_open _ _ _ _ _ _ Hg Hf Hw) as Ho. pose proof (good_worker _ _ _ _ _ _ Hg Hw) as Hlw.
  destruct (connect_border k _ w (gd_ok _ _ _ _ _ Hg) Hlw x f Ho) as (accs' & E & Hok & P1 & I1 & A1); [lia|].
  exists accs'. cbn [install_interface]. rewrite Hw. split; [done|]. split; [|done].
  assert (Hni : ∀ w', index (accumulators st) w' f = None).
  { intros w'. destruct (index _ w' f) as [r|] eqn:Ei; [|done]. exfalso.
    destruct (gd_index _ _ _ _ _ Hg _ _ _ Ei) as [(b & Hb & _)|(y & Hy & _)].
    - by destruct (gd_borders _ _ _ _ _ Hg _ _ Hb) as [[_ ?] _].
    - apply Hnew. by apply (list_elem_of_fmap_2 snd _ (y, f)). }
  set (st' := mkWiring accs' _ _).
  assert (Hgr : grows st st').
  { split; cbn; try done.
    - intros w' y r Hr. rewrite P1. destruct (decide (w' = w ∧ y = x)) as [[-> ->]|]; [|done].
      destruct Ho as [_ Hno]. congruence.
    - intros w' g r Hr. rewrite I1. destruct (decide (w' = w ∧ g = f)) as [[-> ->]|]; [by rewrite Hni in Hr|done]. }
  destruct Hg as [_ O U Wi F C B X]. split; cbn [st' accumulators border_map border_id_counter]; [done|..].
  - intros w' id. by rewrite A1.
  - intros w' y. rewrite P1, fmap_app, elem_of_app. destruct (decide (w' = w ∧ y = x)) as [[-> ->]|]; [set_solver|].
    intros [?|?]%U; auto.
  - intros wire Hin. by eapply joined_grows; [|exact Hgr|apply Wi].
  - intros i [Hin|Hin]%elem_of_app.
    + destruct (F i Hin) as [He ?]. split; [by apply (exposed_grows _ _ _ _ i (reflexivity owner) Hgr)|done].
    + apply list_elem_of_singleton in Hin as ->. split; [|done]. exists w. cbn [fst snd]. rewrite P1, I1.
      by rewrite (decide_True (P := w = w ∧ x = x)), (decide_True (P := w = w ∧ f = f)).
  - done.
  - done.
  - intros w' g r. rewrite I1. destruct (decide (w' = w ∧ g = f)) as [[-> ->]|].
    + intros [= <-]. right. exists x. split; [set_solver|done].
    + intros [?|(y & Hy & ?)]%X; [by left|]. right. exists y. split; [set_solver|done].
Qed.

Lemma install_faces owner ds : ∀ st W I, good R owner st W I →
  (∀ x, x ∈ (omap face ds).*1 → known owner (accumulators st) x) → NoDup (slots W ++ (I ++ omap face ds).*1) →
  NoDup (I ++ omap face ds).*2 → (∀ f, f ∈ (omap face ds).*2 → f ∈ R ∧ f < u32_MAX) →
  ∃ accs', fold_outcome (install_interface owner) (accumulators st) ds = Done accs' ∧
    good R owner (mkWiring accs' (border_map st) (border_id_counter st)) W (I ++ omap face ds) ∧
    (∀ w id, agent accs' w id = agent (accumulators st) w id).
Proof.
  induction ds as [|d ds IH]; intros st W I Hg Hk Hnd Hnf Hf.
  - exists (accumulators st). rewrite app_nil_r. destruct st. done.
  - destruct d as [s t|s id p|x f];
      [by apply (IH st W I)|by apply (IH st W I)|].
    cbn [omap list_omap face] in *. fold (omap (M := list) face) in *.
    assert (Hx : x ∉ slots W ++ I.*1).
    { rewrite fmap_app, app_assoc in Hnd. by apply NoDup_app_cons in Hnd as [? _]. }
    assert (Hfi : f ∉ I.*2) by (rewrite fmap_app in Hnf; by apply NoDup_app_cons in Hnf as [? _]).
    rewrite elem_of_app in Hx. assert (Hk' := Hk x). rewrite fmap_cons, elem_of_cons in Hk'.
    assert (Hf' := Hf f). rewrite fmap_cons, elem_of_cons in Hf'.
    destruct (install_face owner st W I x f Hg) as (accs' & E & Hg' & Ha);
      [split; [by apply Hk'; left|tauto]|by apply Hf'; left|by apply Hf'; left|done|].
    assert (Heq : I ++ (x, f) :: omap face ds = (I ++ [(x, f)]) ++ omap face ds) by (by rewrite <- app_assoc).
    rewrite Heq in *.
    cbn [fold_outcome]. rewrite E.
    destruct (IH (mkWiring accs' (border_map st) (border_id_counter st)) W (I ++ [(x, f)]) Hg') as (accs'' & E' & Hg'' & Ha''); try done.
    + intros y Hy. eapply known_ext; [done|]. apply Hk. by right.
    + intros g Hgin. apply Hf. by right.
    + exists accs''. split_and!; [done|done|]. intros. by rewrite Ha''.
Qed.

(** More ids reserved, none of them below the counter. *)
Lemma good_reserve owner st W I R' : good R owner st W I → R ⊆ R' → (∀ f, f ∈ R' → f ∈ R ∨ border_id_counter st ≤ f) →
  good R' owner st W I.
Proof.
  intros [A O U Wi F C B X] Hsub Hnew. split; try done.
  - intros i Hi. destruct (F i Hi). auto.
  - assert (below R (border_id_counter st) ≤ below R' (border_id_counter st))%nat; [|lia].
    unfold below. apply subseteq_size. intros x. rewrite !elem_of_filter. intros [? ?]. auto.
  - intros bid b Hb. destruct (B bid b Hb) as [[? ?] ?]. split; [split; [done|]|done]. intros [?|?]%Hnew; [done|lia].
Qed.
End wiring.
