(* ===== verification/StreamingRun.v ===== *)
(** The streaming pipeline's invariant over a well-formed stream: after every
    batch, each wire seen so far is installed or waits for its target. *)
From S2P Require Import Prelude NetTypes NetCore NetInv SparseNet SparseInv Partition Split Streaming StreamingInv.
Local Open Scope N_scope.
Import Streaming.

(** ** Streams *)

Definition wire_of (d : ConnectionDirective) : option (Slot * Slot) :=
  match d with
  | Resolved source target => Some (source, target)
  | Pending source id p => Some (source, (id, p))
  | FreePortInterface _ _ => None
  end.

Definition pending_of (d : ConnectionDirective) : option (Slot * Slot) :=
  match d with Pending source id p => Some (source, (id, p)) | _ => None end.

Definition agents_of (stream : list AgentBatch) : list (AgentId * Symbol) := stream ≫= batch_agents.
Definition directives (stream : list AgentBatch) : list ConnectionDirective := stream ≫= connections.
Definition wires (stream : list AgentBatch) : list (Slot * Slot) := omap wire_of (directives stream).
Definition faces (stream : list AgentBatch) : list (Slot * N) := omap face (directives stream).

(** The agents a directive may already refer to. *)
Definition known_ends (d : ConnectionDirective) : list AgentId :=
  match d with
  | Resolved source target => [source.1; target.1]
  | Pending source _ _ => [source.1]
  | FreePortInterface x _ => [x.1]
  end.

(** Agents have distinct small ids; every slot of a wire or of the interface
    is used once and exists; interface ids are distinct, and above whatever the
    earlier batches may have used for borders; a directive's known ends are no
    later than its batch. *)
Record well_formed (stream : list AgentBatch) : Prop := {
  ws_ids : NoDup (agents_of stream).*1;
  ws_small : ∀ id, id ∈ (agents_of stream).*1 → id < Sparse.MAX_DENSE_ARENA_SLOTS;
  ws_slots : NoDup (slots (wires stream) ++ (faces stream).*1);
  ws_valid : ∀ x, x ∈ slots (wires stream) ++ (faces stream).*1 →
    ∃ sym, (x.1, sym) ∈ agents_of stream ∧ x.2 < total_ports sym;
  ws_count : N.of_nat (length (wires stream) + length (faces stream)) ≤ u32_MAX;
  ws_faces : NoDup (faces stream).*2;
  ws_above : ∀ pre b post, stream = pre ++ b :: post →
    ∀ f, f ∈ (omap face (connections b)).*2 → N.of_nat (length (wires pre) + length (faces pre)) ≤ f < u32_MAX;
  ws_causal : ∀ pre b post, stream = pre ++ b :: post →
    ∀ d id, d ∈ connections b → id ∈ known_ends d → id ∈ (agents_of (pre ++ [b])).*1;
}.

Lemma agents_of_app s t : agents_of (s ++ t) = agents_of s ++ agents_of t.
Proof. apply bind_app. Qed.

Lemma directives_app s t : directives (s ++ t) = directives s ++ directives t.
Proof. apply bind_app. Qed.

Lemma wires_app s t : wires (s ++ t) = wires s ++ wires t.
Proof. unfold wires. by rewrite directives_app, omap_app. Qed.

Lemma faces_app s t : faces (s ++ t) = faces s ++ faces t.
Proof. unfold faces. by rewrite directives_app, omap_app. Qed.

Lemma agents_of_one b : agents_of [b] = batch_agents b.
Proof. apply app_nil_r. Qed.

Lemma omap_cons {A B} (f : A → option B) x l :
  omap f (x :: l) = match f x with Some y => y :: omap f l | None => omap f l end.
Proof. done. Qed.

Lemma wires_split ds : omap wire_of ds ≡ₚ resolved_wires ds ++ omap pending_of ds.
Proof.
  unfold resolved_wires. induction ds as [|[s t|s id p|x f] ds IH]; [done|..]; rewrite !omap_cons; cbn [wire_of pending_of];
    [by rewrite IH| |done]. rewrite IH. by rewrite Permutation_middle.
Qed.

Lemma slots_perm W V : W ≡ₚ V → slots W ≡ₚ slots V.
Proof. intros H. unfold slots. by rewrite H. Qed.

Lemma elem_of_wire_slots x W : x ∈ slots W ↔ ∃ w, w ∈ W ∧ (x = w.1 ∨ x = w.2).
Proof.
  unfold slots. rewrite list_elem_of_bind. split.
  - intros (w & Hx & Hw). exists w. split; [done|]. rewrite !elem_of_cons, elem_of_nil in Hx. tauto.
  - intros (w & Hw & Hx). exists w. split; [|done]. rewrite !elem_of_cons. tauto.
Qed.

(** ** Waiting wires *)

Definition waiting (m : gmap AgentId (list PendingConnection)) : list (Slot * Slot) :=
  pending_wire <$> concat (map_to_list m).*2.

Lemma waiting_elem m id pcs pc : m !! id = Some pcs → pc ∈ pcs → pending_wire pc ∈ waiting m.
Proof.
  intros Hm Hpc. apply list_elem_of_fmap_2. rewrite list_elem_of_In, in_concat. exists pcs.
  split; [|by apply list_elem_of_In]. apply list_elem_of_In. apply (list_elem_of_fmap_2 snd _ (id, pcs)).
  by apply elem_of_map_to_list.
Qed.

Lemma waiting_insert m id pcs : m !! id = None → waiting (<[id := pcs]> m) ≡ₚ (pending_wire <$> pcs) ++ waiting m.
Proof. intros Hm. unfold waiting. rewrite map_to_list_insert by done. cbn. by rewrite fmap_app. Qed.

Lemma waiting_delete m id pcs : m !! id = Some pcs → waiting m ≡ₚ (pending_wire <$> pcs) ++ waiting (delete id m).
Proof. intros Hm. unfold waiting. rewrite <- (map_to_list_delete m id pcs Hm). cbn. by rewrite fmap_app. Qed.

(** Each waiting wire is filed under its target. *)
Definition keyed (m : gmap AgentId (list PendingConnection)) : Prop :=
  ∀ id pcs pc, m !! id = Some pcs → pc ∈ pcs → pc_target_agent_id pc = id.

Lemma buffer_one chunk m d : keyed m →
  keyed (buffer chunk m d) ∧ waiting (buffer chunk m d) ≡ₚ waiting m ++ omap pending_of [d].
Proof.
  intros Hk. destruct d as [s t|s id p|x f]; cbn [buffer omap list_omap pending_of]; [by rewrite app_nil_r| |by rewrite app_nil_r].
  set (pc := mkPendingConnection s id p chunk). split.
  - intros i pcs c. rewrite lookup_insert_Some. intros [[<- <-]|[_ Hi]]; [|by apply Hk].
    rewrite elem_of_app, list_elem_of_singleton. intros [Hc| ->]; [|done].
    destruct (m !! id) as [old|] eqn:E; [by apply (Hk id old)|]. by apply elem_of_nil in Hc.
  - destruct (m !! id) as [old|] eqn:E; cbn [default].
    + rewrite <- insert_delete_eq, waiting_insert by apply lookup_delete_eq. rewrite (waiting_delete m id old E), fmap_app.
      cbn [fmap list_fmap]. rewrite <- !app_assoc. apply Permutation_app_head. apply Permutation_app_comm.
    + rewrite waiting_insert by done. apply (Permutation_app_comm [_]).
Qed.

Lemma buffer_all chunk ds : ∀ m, keyed m →
  keyed (foldl (buffer chunk) m ds) ∧ waiting (foldl (buffer chunk) m ds) ≡ₚ waiting m ++ omap pending_of ds.
Proof.
  induction ds as [|d ds IH]; intros m Hk; [by rewrite app_nil_r|]. cbn [foldl].
  destruct (buffer_one chunk m d Hk) as [Hk' Hw]. destruct (IH _ Hk') as [Hk'' Hw']. split; [done|].
  rewrite Hw', Hw, <- app_assoc. by rewrite <- (omap_app pending_of [d] ds).
Qed.

Lemma buffer_keys chunk ds : ∀ m id, is_Some (foldl (buffer chunk) m ds !! id) →
  is_Some (m !! id) ∨ ∃ source q, Pending source id q ∈ ds.
Proof.
  induction ds as [|d ds IH]; intros m id Hs; [by left|]. apply IH in Hs as [Hs|(s & q & Hin)]; [|right; exists s, q; by right].
  destruct d as [s t|s i q|x f]; cbn [buffer] in Hs; [by left| |by left].
  rewrite lookup_insert in Hs. destruct (decide (i = id)) as [<-|]; [|by left]. right. exists s, q. by left.
Qed.

(** ** Which wires wait *)

(** The batches hold a forward reference to [id] in the [age]-th batch from
    their end, and no agent [id] since. *)
Definition waits (seen : list AgentBatch) (id : AgentId) (age : nat) : Prop :=
  ∃ early b post source q, seen = early ++ b :: post ∧ Pending source id q ∈ connections b ∧
    id ∉ (agents_of (b :: post)).*1 ∧ age = length (b :: post).

(** Every pending entry is such a reference and remembers the number of its batch. *)
Definition waited (seen : list AgentBatch) (m : gmap AgentId (list PendingConnection)) : Prop :=
  ∀ id pcs, m !! id = Some pcs → pcs ≠ [] ∧ ∀ pc, pc ∈ pcs →
    pc_target_agent_id pc = id ∧ ∃ age, waits seen id age ∧ birth_chunk pc + N.of_nat age = N.of_nat (length seen) + 1.

(** The same between the buffering of a batch's references and their resolution. *)
Definition buffered (pre : list AgentBatch) (ds : list ConnectionDirective) (m : gmap AgentId (list PendingConnection)) : Prop :=
  ∀ id pcs, m !! id = Some pcs → pcs ≠ [] ∧ ∀ pc, pc ∈ pcs → pc_target_agent_id pc = id ∧
    ((∃ age, waits pre id age ∧ birth_chunk pc + N.of_nat age = N.of_nat (length pre) + 1) ∨
     (∃ source q, Pending source id q ∈ ds) ∧ birth_chunk pc = N.of_nat (length pre) + 1).

Lemma buffer_buffered pre all ds : (∀ d, d ∈ ds → d ∈ all) → ∀ m, buffered pre all m →
  buffered pre all (foldl (buffer (N.of_nat (length pre) + 1)) m ds).
Proof.
  induction ds as [|d ds IH]; intros Hall m Hm; [done|]. cbn [foldl]. apply IH; [intros; apply Hall; by right|].
  destruct d as [s t|s i q|x f]; cbn [buffer]; [done| |done]. intros id pcs. rewrite lookup_insert_Some.
  intros [[<- <-]|[_ Hid]]; [|by apply Hm]. split; [by intros []%app_nil|]. intros pc [Hin|Hin]%elem_of_app.
  - destruct (m !! i) as [old|] eqn:E; [by apply (Hm i old E)|by apply elem_of_nil in Hin].
  - apply list_elem_of_singleton in Hin as ->. split; [done|]. right. split; [|done]. exists s, q. apply Hall. left.
Qed.

Lemma waits_snoc seen b id age : waits seen id age → id ∉ (batch_agents b).*1 → waits (seen ++ [b]) id (S age).
Proof.
  intros (early & b0 & post & s & q & -> & Hin & Hn & ->) Hb. exists early, b0, (post ++ [b]), s, q.
  rewrite <- app_assoc. split; [done|]. split; [done|]. rewrite app_comm_cons, agents_of_app, agents_of_one, fmap_app, not_elem_of_app.
  split; [done|]. rewrite length_app. cbn. lia.
Qed.

(** After the batch's agents have claimed their references. *)
Lemma buffered_waited pre b m m' : buffered pre (connections b) m → m' ⊆ m →
  (∀ id, is_Some (m' !! id) → id ∉ (batch_agents b).*1) → waited (pre ++ [b]) m'.
Proof.
  intros Hm Hsub Hn id pcs Hid. destruct (Hm id pcs) as [Hne Hpc]; [by eapply lookup_weaken|]. split; [done|].
  intros pc Hin. destruct (Hpc pc Hin) as [Ht [(age & Hw & Hb)|[(s & q & Hd) Hb]]]; (split; [done|]).
  - exists (S age). split; [apply waits_snoc; [done|apply Hn; by eexists]|]. rewrite length_app. cbn. lia.
  - exists 1%nat. split; [|rewrite length_app; cbn; lia]. exists pre, b, [], s, q.
    rewrite agents_of_one. split; [done|]. split; [done|]. split; [apply Hn; by eexists|done].
Qed.

(** An expired reference has been waiting for that many batches. *)
Lemma expired_waits pre ds life m e : buffered pre ds m → expired (N.of_nat (length pre) + 1) life m = Some e →
  ∃ id age, e = PendingConnectionExpired id (N.of_nat age) life ∧ life < N.of_nat age ∧ life ≠ u32_MAX ∧ waits pre id age.
Proof.
  intros Hm Ex. unfold expired in Ex. destruct (N.eqb_spec life u32_MAX); [done|].
  apply head_Some_elem_of, list_elem_of_omap in Ex as (pc & Hpc & He).
  apply list_elem_of_In, in_concat in Hpc as (pcs & Hin & Hpc%list_elem_of_In). apply list_elem_of_In, list_elem_of_fmap in Hin as ([id pcs'] & -> & Hid%elem_of_map_to_list).
  destruct (Hm id pcs' Hid) as [_ H]. destruct (H pc Hpc) as [Ht Hor].
  destruct (N.ltb_spec life (N.of_nat (length pre) + 1 - birth_chunk pc)); [|done]. injection He as <-.
  destruct Hor as [(age & Hw & Hb)|[_ Hb]]; [|lia]. exists id, age. rewrite Ht.
  assert (N.of_nat (length pre) + 1 - birth_chunk pc = N.of_nat age) as <- by lia. done.
Qed.

(** ** One batch *)

Lemma symbols_lookup (l : list (AgentId * Symbol)) : ∀ m id sym, NoDup l.*1 → (id, sym) ∈ l →
  foldl (λ m e, <[e.1 := e.2]> m) (m : gmap AgentId Symbol) l !! id = Some sym.
Proof.
  induction l as [|[i y] l IH] using rev_ind; intros m id sym Hnd Hin; [by apply elem_of_nil in Hin|].
  rewrite foldl_snoc. cbn [fst snd]. rewrite fmap_app in Hnd. cbn [fmap list_fmap fst] in Hnd.
  apply NoDup_app_cons in Hnd as Hni. apply NoDup_app in Hnd as [Hnd _].
  apply elem_of_app in Hin as [Hin|Hin].
  - rewrite lookup_insert_ne; [by apply IH|]. intros ->. apply (proj1 Hni). by apply (list_elem_of_fmap_2 fst _ (id, sym)).
  - apply list_elem_of_singleton in Hin as [= -> ->]. by rewrite lookup_insert_eq.
Qed.

Lemma reserve_all ds : ∀ r, (∀ f, f ∈ (omap face ds).*2 → f < u32_MAX) →
  foldl reserve r ds = r ∪ list_to_set (omap face ds).*2.
Proof.
  induction ds as [|d ds IH]; intros r Hf; [cbn; set_solver|]. cbn [foldl]. rewrite omap_cons in *.
  destruct d as [s t|s id p|x g]; cbn [reserve face] in *; [by apply IH|by apply IH|].
  rewrite fmap_cons in *. cbn [list_to_set fst snd] in *. assert (g < u32_MAX) by (apply Hf; by left).
  rewrite (proj2 (N.eqb_neq _ _)) by lia. rewrite IH by (intros f Hin; apply Hf; by right). set_solver.
Qed.

Section resolve.
Context (k : N) (owner : gmap AgentId WorkerId) (reserved : gset N).
Context (I : list (Slot * N)) (whole : list (Slot * Slot)) (accs : list PartitionAccumulator).
Hypothesis Hnd : NoDup (slots whole ++ I.*1).
Hypothesis Hlen : N.of_nat (length whole + size reserved) ≤ u32_MAX.
Hypothesis Hknown : ∀ x, x ∈ slots whole → is_Some (owner !! x.1) → known owner accs x.

(** Installed wires and waiting ones are the whole. *)
Record resolving (W : list (Slot * Slot)) (st : Wiring) (start : option N)
    (m : gmap AgentId (list PendingConnection)) : Prop := {
  rs_good : good k reserved owner st W I;
  rs_start : start_ok st start;
  rs_whole : whole ≡ₚ W ++ waiting m;
  rs_keyed : keyed m;
  rs_source : ∀ id pcs pc, m !! id = Some pcs → pc ∈ pcs → is_Some (owner !! (pc_source pc).1);
  rs_agents : ∀ w id, agent (accumulators st) w id = agent accs w id;
}.

Lemma resolve_one W st start m id : resolving W st start m → is_Some (owner !! id) →
  ∃ W' st' start' m', resolve_agent owner reserved ((st, start), m) id = Done ((st', start'), m') ∧
    resolving W' st' start' m' ∧ m' = delete id m.
Proof.
  intros [G S Wh Ky So Ag] Hid. cbn [resolve_agent]. destruct (m !! id) as [pcs|] eqn:E.
  2: { exists W, st, start, m. split; [done|]. split; [by split|]. by rewrite delete_id by done. }
  set (ws := pending_wire <$> pcs). pose proof (waiting_delete m id pcs E) as Hd.
  assert (Hwh : whole ≡ₚ (W ++ ws) ++ waiting (delete id m)) by (by rewrite Wh, Hd, app_assoc).
  assert (Hin : ∀ wire, wire ∈ ws → wire ∈ whole).
  { intros wire Hw. rewrite Hwh, !elem_of_app. auto. }
  destruct (install_many k reserved owner I ws st W start G) as (st' & start' & Ef & G' & S' & Ag'); [| | |done|].
  - intros x (wire & Hw & Hx)%elem_of_wire_slots. apply (known_ext owner accs); [done|]. apply Hknown.
    + apply elem_of_wire_slots. exists wire. auto.
    + apply list_elem_of_fmap in Hw as (pc & -> & Hpc). destruct Hx as [->| ->]; cbn [pending_wire fst snd].
      * by apply (So id pcs).
      * by rewrite (Ky id pcs pc E Hpc).
  - rewrite (slots_perm _ _ Hwh), slots_app in Hnd. eapply sublist_NoDup; [exact Hnd|]. rewrite <- app_assoc.
    apply sublist_app; [done|]. by apply sublist_inserts_l.
  - rewrite (Permutation_length Hwh) in Hlen. rewrite length_app in Hlen. lia.
  - exists (W ++ ws), st', start', (delete id m). rewrite Ef. split; [done|]. split; [|done]. split; try done.
    + intros i qs pc [_ Hi]%lookup_delete_Some. by apply Ky.
    + intros i qs pc [_ Hi]%lookup_delete_Some. by apply (So i qs).
    + intros. by rewrite Ag'.
Qed.

Lemma resolve_all ids : ∀ W st start m, resolving W st start m → (∀ id, id ∈ ids → is_Some (owner !! id)) →
  ∃ W' st' start' m', fold_outcome (resolve_agent owner reserved) ((st, start), m) ids = Done ((st', start'), m') ∧
    resolving W' st' start' m' ∧ m' ⊆ m ∧ (∀ id, id ∈ ids → m' !! id = None).
Proof.
  induction ids as [|id ids IH]; intros W st start m Hr Ho.
  - exists W, st, start, m. split; [done|]. split; [done|]. split; [done|]. intros id Hi. by apply elem_of_nil in Hi.
  - destruct (resolve_one W st start m id Hr) as (W1 & st1 & start1 & m1 & E & Hr1 & ->); [apply Ho; by left|].
    destruct (IH _ _ _ _ Hr1) as (W2 & st2 & start2 & m2 & E' & Hr2 & Hsub & Hgone); [intros; apply Ho; by right|].
    exists W2, st2, start2, m2. cbn [fold_outcome]. rewrite E. split; [done|]. split; [done|]. split.
    + etrans; [exact Hsub|]. apply delete_subseteq.
    + intros i [->|Hi]%elem_of_cons; [|by apply Hgone]. eapply lookup_weaken_None; [|exact Hsub]. apply lookup_delete_eq.
Qed.
End resolve.

(** What the pipeline needs of a strategy: one assignment per agent of the
    batch, in order, to an existing worker. *)
Class LawfulStrategy (Strat : Type) `{StreamingPartitionStrategy Strat} : Type := {
  lawful : N → Strat → Prop;
  allocate_lawful : ∀ num_workers s b, lawful num_workers s →
    let '(s', out) := allocate_batch s b num_workers in
    lawful num_workers s' ∧ out.*1 = (batch_agents b).*1 ∧ Forall (λ e, e.2 < num_workers) out;
}.

Section run.
Context `{LawfulStrategy Strat} (stream : list AgentBatch) (k : N).
Hypothesis Hwf : well_formed stream.

Record invariant (pre : list AgentBatch) (p : Pipeline (Strat := Strat)) (W : list (Slot * Slot)) : Prop := {
  in_lawful : lawful k (strategy p);
  in_good : good k (reserved_freeport_ids p) (agent_owner p) (wiring p) W (faces pre);
  in_start : start_ok (wiring p) (pl_border_id_start p);
  in_wires : wires pre ≡ₚ W ++ waiting (pending p);
  in_keyed : keyed (pending p);
  in_owner : ∀ id, is_Some (agent_owner p !! id) ↔ id ∈ (agents_of pre).*1;
  in_symbols : ∀ id sym, (id, sym) ∈ agents_of pre → ∃ w, agent (accumulators (wiring p)) w id = Some (mkAgent sym id);
  in_reserved : reserved_freeport_ids p = list_to_set (faces pre).*2;
  in_chunks : chunks_seen p = N.of_nat (length pre);
  in_waited : waited pre (pending p);
}.

Lemma new_swf : swf Sparse.new.
Proof. split; cbn; [intros ? ?|done|intros ? ? ?|intros ? ? ? ?]; by rewrite lookup_empty. Qed.

Lemma initial_invariant s : lawful k s → invariant [] (initial s k) [].
Proof.
  intros Hs.
  assert (Hacc : ∀ i a, (acc_new <$> range_u k) !! i = Some a → a = acc_new (N.of_nat i)).
  { intros i a. rewrite list_lookup_fmap. unfold range_u. rewrite list_lookup_fmap.
    destruct (seq 0 (N.to_nat k) !! i) as [j|] eqn:E; [|done]. apply lookup_seq in E as [-> _]. by intros [= <-]. }
  assert (Hnone : ∀ {A} (f : PartitionAccumulator → option A) i, (∀ w, f (acc_new w) = None) →
    (acc_new <$> range_u k) !! i ≫= f = None).
  { intros A f i Hf. destruct (_ !! i) as [a|] eqn:E; [|done]. rewrite (Hacc i a E). apply Hf. }
  split; cbn [initial strategy wiring pl_border_id_start pending agent_owner reserved_freeport_ids chunks_seen]; try done.
  - split; cbn [accumulators border_map border_id_counter]; try done.
    + split; [by rewrite length_fmap; unfold range_u; rewrite length_fmap, length_seq|].
      intros i a Ha. rewrite (Hacc i a Ha). split; [done|]. split; [done|]. apply new_swf.
    + intros w id. unfold agent. rewrite Hnone by (intros; apply lookup_empty). rewrite lookup_empty. split; [by intros [? ?]|done].
    + intros w x. unfold port. rewrite Hnone by (intros; apply lookup_empty). by intros [].
    + intros w Hw. by apply elem_of_nil in Hw.
    + intros i Hi. by apply elem_of_nil in Hi.
    + intros w f r. unfold index. by rewrite Hnone by (intros; apply lookup_empty).
  - intros id. rewrite lookup_empty. split; [by intros [? ?]|]. intros Hi. by apply elem_of_nil in Hi.
  - intros id sym Hin. by apply elem_of_nil in Hin.
Qed.

(** *** Prefixes of the stream *)

Lemma prefix_slots pre post : stream = pre ++ post → NoDup (slots (wires pre) ++ (faces pre).*1).
Proof.
  intros Hpre. pose proof (ws_slots _ Hwf) as Hs. rewrite Hpre, wires_app, faces_app, slots_app, fmap_app in Hs.
  eapply sublist_NoDup; [exact Hs|]. apply sublist_app; by apply sublist_inserts_r.
Qed.

Lemma prefix_face_ids pre post : stream = pre ++ post → NoDup (faces pre).*2.
Proof.
  intros Hpre. pose proof (ws_faces _ Hwf) as Hf. rewrite Hpre, faces_app, fmap_app in Hf. by apply NoDup_app in Hf as [? _].
Qed.

Lemma prefix_count pre post : stream = pre ++ post → N.of_nat (length (wires pre) + length (faces pre)) ≤ u32_MAX.
Proof. intros Hpre. pose proof (ws_count _ Hwf) as Hc. rewrite Hpre, wires_app, faces_app, !length_app in Hc. lia. Qed.

(** An agent has one symbol. *)
Lemma one_symbol id sym sym' : (id, sym) ∈ agents_of stream → (id, sym') ∈ agents_of stream → sym = sym'.
Proof.
  intros Hi Hj. pose proof (symbols_lookup _ ∅ _ _ (ws_ids _ Hwf) Hi). pose proof (symbols_lookup _ ∅ _ _ (ws_ids _ Hwf) Hj).
  congruence.
Qed.

(** A slot the prefix uses is known once its agent is placed. *)
Lemma slot_known pre post R owner st W I x : stream = pre ++ post → good k R owner st W I →
  (∀ id sym, (id, sym) ∈ agents_of pre → ∃ w, agent (accumulators st) w id = Some (mkAgent sym id)) →
  x ∈ slots (wires pre) ++ (faces pre).*1 → x.1 ∈ (agents_of pre).*1 → known owner (accumulators st) x.
Proof.
  intros Hpre Hg Hsym Hx Hin. destruct (ws_valid _ Hwf x) as (sym & Hs & Hp).
  { rewrite Hpre, wires_app, faces_app, slots_app, fmap_app, !elem_of_app. apply elem_of_app in Hx as [?|?]; auto. }
  apply list_elem_of_fmap in Hin as ([id sym'] & Hid & Hin). cbn [fst] in Hid. subst id.
  assert (sym' = sym) as ->.
  { eapply one_symbol; [|exact Hs]. rewrite Hpre, agents_of_app, elem_of_app. by left. }
  destruct (Hsym _ _ Hin) as [w Hw]. exists w, (mkAgent sym x.1). split; [|done].
  apply (gd_owner _ _ _ _ _ _ Hg). by eexists.
Qed.

Lemma ends_known pre post d id : stream = pre ++ post → d ∈ directives pre → id ∈ known_ends d → id ∈ (agents_of pre).*1.
Proof.
  intros Hpre (b & Hd & Hb)%list_elem_of_bind Hid. apply list_elem_of_split in Hb as (l1 & l2 & ->).
  pose proof (ws_causal _ Hwf l1 b (l2 ++ post)) as Hc. rewrite Hpre, <- app_assoc in Hc.
  specialize (Hc eq_refl d id Hd Hid). change (b :: l2) with ([b] ++ l2).
  rewrite app_assoc, agents_of_app, fmap_app, elem_of_app. by left.
Qed.

Lemma source_known pre post wire : stream = pre ++ post → wire ∈ wires pre → wire.1.1 ∈ (agents_of pre).*1.
Proof.
  intros Hpre (d & Hd & Hw)%list_elem_of_omap. eapply ends_known; [exact Hpre|exact Hd|].
  destruct d as [s t|s id q|x f]; [injection Hw as <-|injection Hw as <-|done]; cbn; left.
Qed.

(** *** The stages of a batch *)

Section step.
Context (pre post : list AgentBatch) (b : AgentBatch) (p : Pipeline (Strat := Strat)) (W : list (Slot * Slot)).
Hypothesis Hpre : stream = pre ++ b :: post.
Hypothesis Hinv : invariant pre p W.

Let pb := pre ++ [b].
Let ds := connections b.
Let symbols := foldl (λ m e, <[e.1 := e.2]> m) (∅ : gmap AgentId Symbol) (batch_agents b).

Lemma Hpb : stream = pb ++ post.
Proof. unfold pb. by rewrite <- app_assoc. Qed.

Lemma agents_pb : agents_of pb = agents_of pre ++ batch_agents b.
Proof. unfold pb. by rewrite agents_of_app, agents_of_one. Qed.

Lemma wires_pb : wires pb ≡ₚ (W ++ resolved_wires ds) ++ waiting (pending p) ++ omap pending_of ds.
Proof.
  unfold pb. rewrite wires_app, (in_wires _ _ _ Hinv). unfold wires at 1, directives. cbn [mbind list_bind].
  rewrite app_nil_r, wires_split. fold ds. rewrite <- !app_assoc. apply Permutation_app_head.
  rewrite !app_assoc. apply Permutation_app_tail, Permutation_app_comm.
Qed.

Lemma faces_pb : faces pb = faces pre ++ omap face ds.
Proof. unfold pb. rewrite faces_app. f_equal. unfold faces, directives. cbn [mbind list_bind]. by rewrite app_nil_r. Qed.

Let reserved := foldl reserve (reserved_freeport_ids p) ds.

Lemma face_above f : f ∈ (omap face ds).*2 → N.of_nat (length (wires pre) + length (faces pre)) ≤ f < u32_MAX.
Proof. apply (ws_above _ Hwf _ _ _ Hpre). Qed.

Lemma reserved_is : reserved = list_to_set (faces pb).*2.
Proof.
  unfold reserved. rewrite reserve_all by (intros f Hf; by apply face_above). rewrite (in_reserved _ _ _ Hinv), faces_pb, fmap_app.
  by rewrite list_to_set_app_L.
Qed.

Lemma reserved_size : size reserved = length (faces pb).
Proof. rewrite reserved_is, size_list_to_set, length_fmap; [done|]. apply (prefix_face_ids _ _ Hpb). Qed.

(** The batch's interface ids can be reserved. *)
Lemma reserve_stage : good k reserved (agent_owner p) (wiring p) W (faces pre).
Proof.
  apply (good_reserve k (reserved_freeport_ids p)); [apply (in_good _ _ _ Hinv)| |].
  - unfold reserved. rewrite reserve_all by (intros f Hf; by apply face_above). set_solver.
  - intros f. unfold reserved. rewrite reserve_all by (intros g Hg; by apply face_above).
    rewrite elem_of_union, elem_of_list_to_set. intros [Hf|Hf%face_above]; [by left|]. right.
    pose proof (gd_count _ _ _ _ _ _ (in_good _ _ _ Hinv)) as Hc.
    pose proof (below_le (reserved_freeport_ids p) (border_id_counter (wiring p))) as Hb.
    rewrite (in_reserved _ _ _ Hinv), size_list_to_set, length_fmap in Hb by apply (prefix_face_ids _ _ Hpre).
    rewrite (Permutation_length (in_wires _ _ _ Hinv)), length_app in Hf.
    rewrite (in_reserved _ _ _ Hinv) in *. lia.
Qed.

(** Agents and workers after step 1. *)
Record placed (owner : gmap AgentId WorkerId) (accs : list PartitionAccumulator) : Prop := {
  pd_owner : ∀ id, is_Some (owner !! id) ↔ id ∈ (agents_of pb).*1;
  pd_symbols : ∀ id sym, (id, sym) ∈ agents_of pb → ∃ w, agent accs w id = Some (mkAgent sym id);
}.

Lemma placed_ext owner accs accs' : (∀ w id, agent accs' w id = agent accs w id) → placed owner accs → placed owner accs'.
Proof. intros Ha [O S]. split; [done|]. intros id sym Hin. destruct (S id sym Hin) as [w Hw]. exists w. by rewrite Ha. Qed.

Lemma place_stage assignments : assignments.*1 = (batch_agents b).*1 → Forall (λ e, e.2 < k) assignments →
  ∃ owner accs, place symbols k assignments (agent_owner p) (accumulators (wiring p)) = inl (owner, accs) ∧
    good k reserved owner (mkWiring accs (border_map (wiring p)) (border_id_counter (wiring p))) W (faces pre) ∧
    placed owner accs.
Proof.
  intros Hasg Hlt. pose proof (ws_ids _ Hwf) as Hnd. rewrite Hpb, agents_of_app, agents_pb, !fmap_app in Hnd.
  apply NoDup_app in Hnd as [Hnd _]. apply NoDup_app in Hnd as (_ & Hdis & Hnb).
  destruct (place_good k reserved symbols assignments (agent_owner p) (wiring p) W (faces pre))
    as (owner & accs & E & Hg & Hsub & Hdom & Hag & Hnew); [apply reserve_stage|by rewrite Hasg| |done|].
  { intros id Hid. rewrite Hasg in Hid. split; [|split].
    - apply eq_None_not_Some. intros Ho%(in_owner _ _ _ Hinv). by apply (Hdis id).
    - assert (id < Sparse.MAX_DENSE_ARENA_SLOTS); [|unfold Sparse.MAX_DENSE_ARENA_SLOTS, u32_MAX in *; lia].
      apply (ws_small _ Hwf). rewrite Hpb, agents_of_app, agents_pb, !fmap_app, !elem_of_app. auto.
    - apply list_elem_of_fmap in Hid as ([i sym] & -> & Hin). exists sym. by apply symbols_lookup. }
  exists owner, accs. split; [done|]. split; [done|]. split.
  - intros id. rewrite Hdom, (in_owner _ _ _ Hinv), agents_pb, fmap_app, elem_of_app, Hasg. done.
  - intros id sym. rewrite agents_pb, elem_of_app. intros [Hin|Hin].
    + destruct (in_symbols _ _ _ Hinv id sym Hin) as [w Hw]. exists w. by apply Hag.
    + apply Hnew; [rewrite Hasg; by apply (list_elem_of_fmap_2 fst _ (id, sym))|by apply symbols_lookup].
Qed.

Lemma wire_in_pb wire : wire ∈ resolved_wires ds → wire ∈ wires pb ∧ wire.2.1 ∈ (agents_of pb).*1.
Proof.
  intros Hw. split; [by rewrite wires_pb, !elem_of_app; auto|].
  apply list_elem_of_omap in Hw as (d & Hd & Hw). eapply ends_known; [exact Hpb| |].
  - unfold pb. rewrite directives_app, elem_of_app. right. unfold directives. cbn [mbind list_bind].
    rewrite app_nil_r. exact Hd.
  - destruct d as [s t|s id q|x f]; [injection Hw as <-|done|done]. cbn. right. left.
Qed.

Lemma face_in_pb x : x ∈ (omap face ds).*1 → x.1 ∈ (agents_of pb).*1 ∧ x ∈ (faces pb).*1.
Proof.
  intros Hx. split; [|rewrite faces_pb, fmap_app, elem_of_app; by right].
  apply list_elem_of_fmap in Hx as (i & -> & (d & Hd & Hi)%list_elem_of_omap). eapply ends_known; [exact Hpb| |].
  - unfold pb. rewrite directives_app, elem_of_app. right. unfold directives. cbn [mbind list_bind].
    rewrite app_nil_r. exact Hd.
  - destruct d as [s t|s id q|y f]; [done|done|injection Hi as <-]. cbn. left.
Qed.

Lemma wire_stage owner accs :
  let st := mkWiring accs (border_map (wiring p)) (border_id_counter (wiring p)) in
  good k reserved owner st W (faces pre) → placed owner accs →
  ∃ st1 start1 accs2,
    fold_outcome (install_tracked owner reserved) (st, pl_border_id_start p) (resolved_wires ds) = Done (st1, start1) ∧
    fold_outcome (install_interface owner) (accumulators st1) ds = Done accs2 ∧
    good k reserved owner (mkWiring accs2 (border_map st1) (border_id_counter st1)) (W ++ resolved_wires ds) (faces pb) ∧
    start_ok st1 start1 ∧ placed owner accs2.
Proof.
  intros st Hg Hp. pose proof (prefix_slots _ _ Hpb) as Hnd. rewrite (slots_perm _ _ wires_pb), slots_app, <- app_assoc in Hnd.
  pose proof (prefix_count _ _ Hpb) as Hc. rewrite (Permutation_length wires_pb), length_app, <- reserved_size in Hc.
  assert (Hkn : ∀ x, x ∈ slots (wires pb) ++ (faces pb).*1 → x.1 ∈ (agents_of pb).*1 → known owner accs x).
  { intros x. apply (slot_known _ _ _ _ _ _ _ x Hpb Hg). apply (pd_symbols _ _ Hp). }
  destruct (install_many k reserved owner (faces pre) (resolved_wires ds)) with
    (st := st) (W := W) (start := pl_border_id_start p) as (st1 & start1 & E1 & Hg1 & Hs1 & Ha1).
  - done.
  - intros x (wire & Hw & Hx)%elem_of_wire_slots. destruct (wire_in_pb _ Hw) as [Hin Hto]. apply Hkn.
    + apply elem_of_app. left. apply elem_of_wire_slots. by exists wire.
    + destruct Hx as [->| ->]; [by apply (source_known _ _ _ Hpb)|done].
  - eapply sublist_NoDup; [exact Hnd|]. apply sublist_app; [done|]. apply sublist_inserts_l.
    rewrite faces_pb, fmap_app. by apply sublist_inserts_r.
  - lia.
  - exact (in_start _ _ _ Hinv).
  - destruct (install_faces k reserved owner ds st1 (W ++ resolved_wires ds) (faces pre) Hg1) as (accs2 & E2 & Hg2 & Ha2).
    + intros x Hx. destruct (face_in_pb x Hx) as [Hin Hf]. eapply known_ext; [exact Ha1|]. apply Hkn; [|done].
      apply elem_of_app. by right.
    + eapply sublist_NoDup; [exact Hnd|]. apply sublist_app; [done|]. apply sublist_inserts_l. by rewrite faces_pb.
    + rewrite <- faces_pb. by apply (prefix_face_ids _ _ Hpb).
    + intros f Hf. split; [|by apply face_above]. rewrite reserved_is, elem_of_list_to_set, faces_pb, fmap_app, elem_of_app. by right.
    + exists st1, start1, accs2. rewrite faces_pb. split_and!; try done. eapply placed_ext; [exact Ha2|].
      by eapply placed_ext; [exact Ha1|].
Qed.

Lemma pending_stage owner st1 start1 accs2 chunk :
  good k reserved owner (mkWiring accs2 (border_map st1) (border_id_counter st1)) (W ++ resolved_wires ds) (faces pb) →
  start_ok st1 start1 → placed owner accs2 →
  resolving k owner reserved (faces pb) (wires pb) accs2 (W ++ resolved_wires ds)
    (mkWiring accs2 (border_map st1) (border_id_counter st1)) start1 (foldl (buffer chunk) (pending p) ds).
Proof.
  intros Hg Hs Hp. destruct (buffer_all chunk ds (pending p) (in_keyed _ _ _ Hinv)) as [Hk Hw].
  assert (Hwh : wires pb ≡ₚ (W ++ resolved_wires ds) ++ waiting (foldl (buffer chunk) (pending p) ds)).
  { by rewrite Hw, wires_pb. }
  split; try done. intros id pcs pc Hm Hpc. apply (pd_owner _ _ Hp).
  apply (source_known _ _ (pending_wire pc) Hpb). rewrite Hwh, elem_of_app. right. by eapply waiting_elem.
Qed.
End step.

(** A batch never panics; it keeps the invariant, or a wire has waited longer
    than the budget allows. *)
Lemma batch_step life pre b post p W : stream = pre ++ b :: post → invariant pre p W →
  ∃ r, process_batch k life p b = Done r ∧
    match r with
    | inl p' => (∃ W', invariant (pre ++ [b]) p' W') ∧
        (∀ id, is_Some (pending p' !! id) → id ∉ (batch_agents b).*1 ∧
          (is_Some (pending p !! id) ∨ ∃ source q, Pending source id q ∈ connections b))
    | inr e => ∃ id age, e = PendingConnectionExpired id (N.of_nat age) life ∧ life < N.of_nat age ∧ life ≠ u32_MAX ∧ waits pre id age
    end.
Proof.
  intros Hpre Hinv. unfold process_batch.
  pose proof (allocate_lawful k (strategy p) b (in_lawful _ _ _ Hinv)) as Hlaw.
  destruct (allocate_batch (strategy p) b k) as [s asg]. destruct Hlaw as (Hl & Hasg & Hlt).
  destruct (place_stage pre post b p W Hpre Hinv asg Hasg Hlt) as (owner & accs & E & Hg & Hp). rewrite E.
  destruct (wire_stage pre post b p W Hpre Hinv owner accs Hg Hp) as (st1 & start1 & accs2 & E1 & E2 & Hg2 & Hs2 & Hp2).
  rewrite E1. cbn [mbind outcome_bind]. rewrite E2. cbn [mbind outcome_bind]. set (chunk := chunks_seen p + 1).
  assert (Hbuf : buffered pre (connections b) (foldl (buffer chunk) (pending p) (connections b))).
  { subst chunk. rewrite (in_chunks _ _ _ Hinv). apply buffer_buffered; [done|]. intros id pcs Hid.
    destruct (in_waited _ _ _ Hinv id pcs Hid) as [Hne Hw]. split; [done|]. intros pc Hpc. destruct (Hw pc Hpc). auto. }
  destruct (expired chunk life _) as [e|] eqn:Ex.
  - exists (inr e). split; [done|]. eapply expired_waits; [exact Hbuf|]. rewrite <- (in_chunks _ _ _ Hinv). exact Ex.
  - pose proof (pending_stage pre post b p W Hpre Hinv owner st1 start1 accs2 chunk Hg2 Hs2 Hp2) as Hr.
    destruct (resolve_all k owner (foldl reserve (reserved_freeport_ids p) (connections b))
      (faces (pre ++ [b])) (wires (pre ++ [b])) accs2) with (4 := Hr) (ids := asg.*1)
      as (W' & st' & start' & m' & E3 & Hr' & Hsub & Hgone).
    + apply (prefix_slots _ post). by rewrite <- app_assoc.
    + rewrite (reserved_size pre post b p W Hpre Hinv). apply (prefix_count _ post). by rewrite <- app_assoc.
    + intros x Hx Ho%(pd_owner _ _ _ _ Hp2).
      apply (slot_known (pre ++ [b]) post _ _ _ _ _ x ltac:(by rewrite <- app_assoc) Hg2 (pd_symbols _ _ _ _ Hp2)); [|done].
      apply elem_of_app. by left.
    + intros id Hid. apply (pd_owner _ _ _ _ Hp2). rewrite agents_pb, fmap_app, elem_of_app, <- Hasg. by right.
    + rewrite E3. cbn [mbind outcome_bind].
      assert (Hnot : ∀ id, is_Some (m' !! id) → id ∉ (batch_agents b).*1).
      { intros id Hid. rewrite <- Hasg. intros Hg'%Hgone. rewrite Hg' in Hid. by destruct Hid. }
      eexists. split; [done|]. split; [exists W'|cbn [pending]; intros id Hid; split].
      2: by apply Hnot.
      2: { destruct Hid as [pcs Hid]. eapply buffer_keys. eexists. by eapply lookup_weaken. }
      destruct Hr' as [RG RS RW RK _ RA]. pose proof (placed_ext _ _ _ _ _ RA Hp2) as [PO PS].
      split; cbn [strategy wiring pl_border_id_start pending agent_owner reserved_freeport_ids chunks_seen fst snd]; try done.
      * by apply (reserved_is pre post b p W Hpre Hinv).
      * rewrite length_app. cbn. subst chunk. rewrite (in_chunks _ _ _ Hinv). lia.
      * by eapply buffered_waited.
Qed.
End run.
