(* ===== verification/StreamingSpec.v ===== *)
(** What the streaming partitioner guarantees: on a well-formed stream it never
    panics, and the partitions it returns hold every agent once and every wire,
    either inside a worker or through a border both workers know. *)
From S2P Require Import Prelude NetTypes NetCore NetInv SparseNet SparseInv Partition Split Streaming StreamingInv StreamingRun.
Local Open Scope N_scope.
Open Scope net_scope.
Import Streaming.

(** ** Finalising an accumulator *)

Definition span (ids : list AgentId) : N := match top ids with Some m => m + 1 | None => 0 end.

Lemma foldr_max_lt l B : (∀ x, x ∈ l → x < B) → 0 < B → foldr N.max 0 l < B.
Proof.
  intros Hl HB. induction l as [|x l IH]; [done|]. cbn. specialize (IH (λ y Hy, Hl y (proj2 (elem_of_cons _ _ _) (or_intror Hy)))).
  pose proof (Hl x ltac:(by left)). lia.
Qed.

(** Raising [next_id] keeps a net well formed. *)
Lemma raise_next_id n i : wf n → next_id n ≤ i → i ≤ u32_MAX → wf (with_next_id i n).
Proof.
  intros [A B C D E F G H] Hi Hu. split; cbn [with_next_id agents ports next_id free_list]; try done; [lia|].
  intros id Hid. destruct (H id Hid). split; [done|lia].
Qed.

(** Partition [p] is accumulator [a] made dense. *)
Record densely (a : PartitionAccumulator) (p : Partition) : Prop := {
  de_agents : ∀ id, get_agent (subnet p) id = s_agents (sparse_of a) !! id;
  de_ports : ∀ x : Slot, x.2 < 3 → (subnet p).[x.1, x.2] = default DISCONNECTED (s_ports (sparse_of a) !! x);
  de_index : free_port_index p = acc_free_port_index a;
  de_worker : worker_id p = acc_worker_id a;
  de_wf : keys (sparse_of a) ≠ [] → wf (subnet p);
}.

Lemma finalize_one a r start stop : counted a → acc_subnet a = AccSparse (sparse_of a) → swf (sparse_of a) →
  (∀ id, id ∈ keys (sparse_of a) → id < Sparse.MAX_DENSE_ARENA_SLOTS) →
  range_start r ≤ range_end r → range_start r ≤ u32_MAX →
  let ids := keys (sparse_of a) in
  if 4 * N.of_nat (length ids) <? span ids
  then acc_finalize a r start stop = inr (PartitionArenaTooSparse (acc_worker_id a) (span ids) (N.of_nat (length ids)))
  else ∃ p, acc_finalize a r start stop = inl p ∧ densely a p ∧ p_id_range p = r ∧
    border_id_start p = start ∧ border_id_end p = stop.
Proof.
  intros [Hc Hm] Hs Hwf Hmax Hr Hu. cbv zeta. unfold acc_finalize. rewrite Hc, Hm. fold (span (keys (sparse_of a))).
  destruct (N.ltb_spec (4 * N.of_nat (length (keys (sparse_of a)))) (span (keys (sparse_of a)))) as [|Hden]; [done|].
  rewrite Hs. set (s := sparse_of a) in *.
  destruct (to_dense_ok s (Some (range_start r, range_end r)) Hwf) as (n & En & Hd); [by apply foldr_max_lt|done|].
  rewrite En. cbn zeta. pose proof (dn_sim _ _ _ Hd) as Hsim.
  change (NetCore.id_range (with_next_id _ n)) with (NetCore.id_range n). rewrite (dn_range _ _ _ Hd).
  eexists. split; [done|]. split; [|done]. split; try done; cbn [subnet].
  - intros id. symmetry. apply (sim_agents _ _ Hsim).
  - intros [id p] Hp. cbn [fst snd] in *. change ((with_next_id (next_id n `max` range_start r) n).[id, p]) with n.[id, p].
    rewrite <- (sim_target _ _ Hsim) by done. done.
  - intros Hne. assert (0 < s_next_id s).
    { destruct (keys s) as [|id l] eqn:E; [done|]. assert (Hid : id ∈ keys s) by (rewrite E; by left).
      apply elem_of_sparse_keys in Hid as [b Hb]. destruct (sw_agent _ Hwf _ _ Hb). lia. }
    apply raise_next_id; [by apply (densified_wf s _ n Hwf H Hd)|lia|].
    pose proof (sw_u32 _ Hwf). rewrite (sim_next _ _ Hsim) in *. lia.
Qed.

Definition sound_acc (a : PartitionAccumulator) : Prop :=
  counted a ∧ acc_subnet a = AccSparse (sparse_of a) ∧ swf (sparse_of a) ∧
  ∀ id, id ∈ keys (sparse_of a) → id < Sparse.MAX_DENSE_ARENA_SLOTS.

Definition too_sparse (a : PartitionAccumulator) : Prop :=
  4 * N.of_nat (length (keys (sparse_of a))) < span (keys (sparse_of a)).

Lemma band_ordered m k w : (∀ x, m = Some x → x < Sparse.MAX_DENSE_ARENA_SLOTS) →
  range_start (band m k w) ≤ range_end (band m k w) ∧ range_start (band m k w) ≤ u32_MAX.
Proof.
  intros Hm. destruct m as [m|]; [|done]. specialize (Hm m eq_refl). cbn [band range_start range_end].
  unfold Sparse.MAX_DENSE_ARENA_SLOTS, u32_MAX in *. rewrite !as_u32_small by (unfold u32_MAX; lia). nia.
Qed.

Lemma global_max_small accs : Forall sound_acc accs →
  ∀ x, global_max_id accs = Some x → x < Sparse.MAX_DENSE_ARENA_SLOTS.
Proof.
  induction 1 as [|a accs (Hc & _ & _ & Hm) _ IH]; intros x; [done|]. cbn [global_max_id foldr]. fold (global_max_id accs).
  assert (Ha : ∀ y, max_assigned_id a = Some y → y < Sparse.MAX_DENSE_ARENA_SLOTS).
  { intros y. rewrite (proj2 Hc). unfold top. destruct (keys (sparse_of a)) as [|i l] eqn:E; [done|]. intros [= <-].
    by apply (foldr_max_lt (i :: l)). }
  destruct (max_assigned_id a) as [y|], (global_max_id accs) as [z|]; intros [= <-]; [|by apply Ha|by apply IH].
  specialize (Ha y eq_refl). specialize (IH z eq_refl). lia.
Qed.

Lemma finalize_all_spec m k start stop accs : Forall sound_acc accs → (∀ x, m = Some x → x < Sparse.MAX_DENSE_ARENA_SLOTS) →
  ∀ w, match finalize_all m k start stop w accs with
  | inl ps => Forall2 (λ a p, ¬ too_sparse a ∧ densely a p ∧ border_id_start p = start ∧ border_id_end p = stop) accs ps
  | inr e => ∃ a, a ∈ accs ∧ too_sparse a ∧
      e = PartitionArenaTooSparse (acc_worker_id a) (span (keys (sparse_of a))) (N.of_nat (length (keys (sparse_of a))))
  end.
Proof.
  intros Ha Hm. induction Ha as [|a accs (Hc & Hs & Hwf & Hb) _ IH]; intros w; [by cbn|]. cbn [finalize_all].
  destruct (band_ordered m k w Hm) as [Hr Hu]. pose proof (finalize_one a _ start stop Hc Hs Hwf Hb Hr Hu) as Hf.
  cbv zeta in Hf. destruct (N.ltb_spec (4 * N.of_nat (length (keys (sparse_of a)))) (span (keys (sparse_of a)))) as [Hlt|Hge].
  - rewrite Hf. exists a. split; [by left|done].
  - destruct Hf as (p & E & Hd & _ & Hbs & Hbe). rewrite E. specialize (IH (w + 1)).
    destruct (finalize_all m k start stop (w + 1) accs) as [ps|e].
    + constructor; [|done]. split; [unfold too_sparse; lia|done].
    + destruct IH as (a' & Hin & ? & ?). exists a'. split; [by right|done].
Qed.

(** ** The theorem *)

(** The wire at a slot of worker [w]'s partition, its border index, its agents. *)
Definition part_port (c : ChunkedPartitionResult) (w : N) (x : Slot) : option PortRef :=
  p ← cp_partitions c !! N.to_nat w;
  let t := (subnet p).[x.1, x.2] in if decide (t = DISCONNECTED) then None else Some t.
Definition part_index (c : ChunkedPartitionResult) (w f : N) : option PortRef :=
  p ← cp_partitions c !! N.to_nat w; free_port_index p !! f.
Definition part_agent (c : ChunkedPartitionResult) (w : N) (id : AgentId) : option Agent :=
  p ← cp_partitions c !! N.to_nat w; get_agent (subnet p) id.

(** A wire of the stream in the partitions: inside one, or cut by a border that
    its two workers and the border map agree on, the lower worker first. *)
Definition wired (owner : gmap AgentId WorkerId) (c : ChunkedPartitionResult) (wire : Slot * Slot) : Prop :=
  ∃ ws wt, owner !! wire.1.1 = Some ws ∧ owner !! wire.2.1 = Some wt ∧
    if ws =? wt then part_port c ws wire.1 = Some (slot_ref wire.2) ∧ part_port c ws wire.2 = Some (slot_ref wire.1)
    else ∃ bid,
      cp_borders c !! bid = Some (if ws <=? wt then (slot_ref wire.1, slot_ref wire.2) else (slot_ref wire.2, slot_ref wire.1)) ∧
      part_port c ws wire.1 = Some (FreePort bid) ∧ part_port c wt wire.2 = Some (FreePort bid) ∧
      part_index c ws bid = Some (slot_ref wire.1) ∧ part_index c wt bid = Some (slot_ref wire.2).

(** The agents of the stream that worker [w] owns. *)
Definition share (stream : list AgentBatch) (owner : gmap AgentId WorkerId) (w : N) : list AgentId :=
  filter (λ id, owner !! id = Some w) (agents_of stream).*1.

Record faithful (stream : list AgentBatch) (k : N) (c : ChunkedPartitionResult) (owner : gmap AgentId WorkerId) : Prop := {
  ff_count : length (cp_partitions c) = N.to_nat k;
  ff_worker : ∀ i p, cp_partitions c !! i = Some p → worker_id p = N.of_nat i;
  ff_agents : ∀ w id sym, part_agent c w id = Some (mkAgent sym id) ↔ (id, sym) ∈ agents_of stream ∧ owner !! id = Some w;
  ff_wf : ∀ i p id, cp_partitions c !! i = Some p → is_Some (get_agent (subnet p) id) → wf (subnet p);
  ff_wires : ∀ wire, wire ∈ wires stream → wired owner c wire;
  ff_faces : ∀ x f, (x, f) ∈ faces stream →
    ∃ w, owner !! x.1 = Some w ∧ part_port c w x = Some (FreePort f) ∧ part_index c w f = Some (slot_ref x);
  ff_ports : ∀ w x, x.2 < 3 → is_Some (part_port c w x) → x ∈ slots (wires stream) ∨ x ∈ (faces stream).*1;
  ff_borders : ∀ bid b, cp_borders c !! bid = Some b → border_of owner (wires stream) b ∧ bid ∉ (faces stream).*2 ∧
    ∀ i p, cp_partitions c !! i = Some p → border_id_start p ≤ bid < border_id_end p;
  ff_dense : ∀ w, span (share stream owner w) ≤ 4 * N.of_nat (length (share stream owner w));
}.

Section finish.
Context `{LawfulStrategy Strat} (stream : list AgentBatch) (k : N).
Context (p : Pipeline (Strat := Strat)) (W : list (Slot * Slot)).
Hypothesis Hwf : well_formed stream.
Hypothesis Hinv : invariant k stream p W.

Let accs := accumulators (wiring p).
Let owner := agent_owner p.

Lemma acc_facts i a : accs !! i = Some a → acc_worker_id a = N.of_nat i ∧ counted a ∧ acc_subnet a = AccSparse (sparse_of a) ∧
  swf (sparse_of a) ∧ ∀ id, id ∈ keys (sparse_of a) ↔ owner !! id = Some (N.of_nat i).
Proof.
  intros Ha. destruct (in_good _ _ _ _ Hinv) as [[_ Hok] O _ _ _ _ _ _]. destruct (Hok i a Ha) as ([Hi Hc] & Hs & Hw).
  split_and!; try done. intros id. rewrite elem_of_sparse_keys. unfold owner. rewrite <- O. unfold agent. fold accs. by rewrite Nat2N.id, Ha.
Qed.

Lemma acc_sound : Forall sound_acc accs.
Proof.
  apply Forall_lookup. intros i a Ha. destruct (acc_facts i a Ha) as (_ & Hc & Hs & Hw & Hk). split_and!; try done.
  intros id Hid%Hk. apply (ws_small _ Hwf). apply (in_owner _ _ _ _ Hinv). by eexists.
Qed.

Lemma acc_share i a : accs !! i = Some a → share stream owner (N.of_nat i) ≡ₚ keys (sparse_of a).
Proof.
  intros Ha. destruct (acc_facts i a Ha) as (_ & _ & _ & _ & Hk). apply NoDup_Permutation.
  - apply NoDup_filter, (ws_ids _ Hwf).
  - apply NoDup_fst_map_to_list.
  - intros id. unfold share. rewrite list_elem_of_filter, Hk. split; [tauto|]. intros Ho. split; [done|].
    apply (in_owner _ _ _ _ Hinv). by eexists.
Qed.

Lemma share_spans i a : accs !! i = Some a →
  span (share stream owner (N.of_nat i)) = span (keys (sparse_of a)) ∧
  length (share stream owner (N.of_nat i)) = length (keys (sparse_of a)).
Proof. intros Ha%acc_share. split; [unfold span; by rewrite Ha|by apply Permutation_length]. Qed.

(** The partitions, accumulator by accumulator. *)
Section partitions.
Context (ps : list Partition) (start stop : N) (stats : StreamingPartitionStats).
Hypothesis Hps : Forall2 (λ a p, ¬ too_sparse a ∧ densely a p ∧ border_id_start p = start ∧ border_id_end p = stop) accs ps.

Let c := mkChunked ps (border_map (wiring p)) stats.

Lemma part_lookup {A} (f : PartitionAccumulator → option A) (g : Partition → option A) w :
  (∀ a q, densely a q → f a = g q) → (a ← accs !! w; f a) = (q ← ps !! w; g q).
Proof.
  intros Hfg. destruct (accs !! w) as [a|] eqn:Ea.
  - destruct (Forall2_lookup_l _ _ _ _ _ Hps Ea) as (q & Hq & _ & Hd & _). rewrite Hq. cbn. by apply Hfg.
  - destruct (ps !! w) as [q|] eqn:Eq; [|done].
    destruct (Forall2_lookup_r _ _ _ _ _ Hps Eq) as (a & Ha & _). congruence.
Qed.

Lemma part_agent_eq w id : part_agent c w id = agent accs w id.
Proof. symmetry. apply (part_lookup _ (λ q, get_agent (subnet q) id)). intros a q Hd. symmetry. apply (de_agents _ _ Hd). Qed.

Lemma part_index_eq w f : part_index c w f = index accs w f.
Proof. symmetry. apply (part_lookup _ (λ q, free_port_index q !! f)). intros a q Hd. by rewrite (de_index _ _ Hd). Qed.

Lemma sparse_entry w x r : port accs w x = Some r → r ≠ DISCONNECTED ∧ x.2 < 3.
Proof.
  unfold port. destruct (accs !! N.to_nat w) as [a|] eqn:Ha; [|done]. cbn [mbind option_bind]. intros Hr.
  destruct (acc_facts _ a Ha) as (_ & _ & _ & Hw & _). destruct x as [id q].
  destruct (sw_entry _ Hw id q r Hr) as (Hd & b & _ & Hq). split; [done|].
  pose proof (total_ports_bounds (symbol b)). cbn. lia.
Qed.

Lemma part_port_eq w x : x.2 < 3 → part_port c w x = port accs w x.
Proof.
  intros Hx. unfold part_port, port. cbn [c cp_partitions]. pose proof (sparse_entry w x) as Hs. unfold port in Hs.
  destruct (accs !! N.to_nat w) as [a|] eqn:Ea.
  - destruct (Forall2_lookup_l _ _ _ _ _ Hps Ea) as (q & Hq & _ & Hd & _). rewrite Hq. cbn [mbind option_bind] in *.
    rewrite (de_ports _ _ Hd x Hx). destruct (s_ports (sparse_of a) !! x) as [r|]; cbn [default]; [|by rewrite decide_True].
    rewrite decide_False; [done|]. by apply Hs.
  - destruct (ps !! N.to_nat w) as [q|] eqn:Eq; [|done].
    destruct (Forall2_lookup_r _ _ _ _ _ Hps Eq) as (a & Ha & _). congruence.
Qed.

Lemma part_port_of w x r : port accs w x = Some r → part_port c w x = Some r.
Proof. intros Hr. rewrite part_port_eq; [done|]. by apply (sparse_entry w x r). Qed.

Hypothesis Hnone : pending p = ∅.
Hypothesis Hstart : start = default (border_id_counter (wiring p)) (pl_border_id_start p).
Hypothesis Hstop : stop = border_id_counter (wiring p).

Lemma wires_installed : wires stream ≡ₚ W.
Proof. rewrite (in_wires _ _ _ _ Hinv), Hnone. unfold waiting. rewrite map_to_list_empty. cbn. by rewrite app_nil_r. Qed.

Lemma installed_wired wire : wire ∈ wires stream → wired owner c wire.
Proof.
  rewrite wires_installed. intros Hw. destruct (in_good _ _ _ _ Hinv) as [_ _ _ Wi _ _ _ _].
  destruct (Wi wire Hw) as (ws & wt & Hs & Ht & Hj). exists ws, wt. split; [done|]. split; [done|].
  destruct (ws =? wt); [destruct Hj; split; by apply part_port_of|].
  destruct Hj as (bid & _ & Hb & ? & ? & ? & ?). exists bid. rewrite !part_index_eq. split; [done|].
  split_and!; try done; by apply part_port_of.
Qed.

Lemma partitions_faithful : faithful stream k c owner.
Proof.
  pose proof (in_good _ _ _ _ Hinv) as [[Hl Hok] O U Wi F C B X]. split; cbn [c cp_partitions cp_borders].
  - rewrite <- (Forall2_length _ _ _ Hps). done.
  - intros i q Hq. destruct (Forall2_lookup_r _ _ _ _ _ Hps Hq) as (a & Ha & _ & Hd & _).
    rewrite (de_worker _ _ Hd). by apply (acc_facts i a Ha).
  - intros w id sym. rewrite part_agent_eq. split.
    + intros Ha. assert (Ho : owner !! id = Some w) by (apply O; by eexists). split; [|done].
      assert (Hin : id ∈ (agents_of stream).*1) by (apply (in_owner _ _ _ _ Hinv); by eexists).
      apply list_elem_of_fmap in Hin as ([i sym'] & -> & Hin). cbn [fst] in *.
      destruct (in_symbols _ _ _ _ Hinv _ _ Hin) as [w' Hw']. assert (w' = w) as ->.
      { assert (owner !! i = Some w') by (apply O; by eexists). congruence. }
      fold accs in Hw'. assert (sym = sym') as -> by congruence. done.
    + intros [Hin Ho]. destruct (in_symbols _ _ _ _ Hinv _ _ Hin) as [w' Hw'].
      assert (owner !! id = Some w') by (apply O; by eexists). assert (w' = w) as <- by congruence. done.
  - intros i q id Hq [b Hb]. destruct (Forall2_lookup_r _ _ _ _ _ Hps Hq) as (a & Ha & _ & Hd & _). apply (de_wf _ _ Hd).
    rewrite (de_agents _ _ Hd) in Hb. intros Hk. assert (Hid : id ∈ keys (sparse_of a)) by (apply elem_of_sparse_keys; by eexists).
    rewrite Hk in Hid. by apply elem_of_nil in Hid.
  - apply installed_wired.
  - intros x f Hx. destruct (F _ Hx) as [(w & Ho & Hp & Hi) _]. exists w. rewrite part_index_eq.
    split; [done|]. split; [by apply part_port_of|done].
  - intros w x Hx. rewrite part_port_eq by done. intros Hp. destruct (U w x Hp) as [Hs|Hs]; [|by right].
    left. by rewrite (slots_perm _ _ wires_installed).
  - intros bid b Hb. destruct (B bid b Hb) as [[Hlt Hbr] Hbo]. split; [|split].
    + eapply border_of_mono; [done| |done]. intros wire Hw. by rewrite wires_installed.
    + by rewrite (in_reserved _ _ _ _ Hinv), elem_of_list_to_set in Hbr.
    + intros i q Hq. destruct (Forall2_lookup_r _ _ _ _ _ Hps Hq) as (a & _ & _ & _ & -> & ->).
      pose proof (in_start _ _ _ _ Hinv) as Hst. unfold start_ok in Hst. rewrite Hstart, Hstop.
      destruct (pl_border_id_start p) as [z|]; cbn in *; [|lia].
      split; [|lia]. apply Hst. by eexists.
  - intros w. destruct (accs !! N.to_nat w) as [a|] eqn:Ha.
    + destruct (Forall2_lookup_l _ _ _ _ _ Hps Ha) as (q & _ & Hd & _). destruct (share_spans _ _ Ha) as [Hs Hlen].
      rewrite N2Nat.id in Hs, Hlen. rewrite Hs, Hlen. unfold too_sparse in Hd. lia.
    + assert (Hnil : share stream owner w = []); [|by rewrite Hnil].
      unfold share. apply elem_of_nil_inv. intros id [Ho _]%list_elem_of_filter. apply O in Ho as [b Hb]. unfold agent in Hb. fold accs in Hb.
      by rewrite Ha in Hb.
Qed.
End partitions.

(** Finishing returns faithful partitions, or names a wire that still waits or
    a worker whose arena would be too sparse. *)
Lemma finish_sound :
  match finish k p with
  | inl c => faithful stream k c owner
  | inr e => (∃ id, e = UnresolvedForwardReferences id ∧ is_Some (pending p !! id)) ∨
      ∃ w, let ids := share stream owner w in
        4 * N.of_nat (length ids) < span ids ∧ e = PartitionArenaTooSparse w (span ids) (N.of_nat (length ids))
  end.
Proof.
  unfold finish. destruct (map_to_list (pending p)) as [|[id pcs] l] eqn:E.
  2: { left. exists id. split; [done|]. exists pcs. apply elem_of_map_to_list. rewrite E. left. }
  apply map_to_list_empty_iff in E. fold accs.
  set (stop := border_id_counter (wiring p)). set (start := default stop (pl_border_id_start p)).
  pose proof (finalize_all_spec (global_max_id accs) k start stop accs acc_sound (global_max_small _ acc_sound) 0) as Hf.
  destruct (finalize_all _ _ _ _ _ _) as [ps|e].
  - by eapply partitions_faithful.
  - right. destruct Hf as (a & (i & Ha)%list_elem_of_lookup & Hs & ->). exists (N.of_nat i).
    destruct (share_spans i a Ha) as [E1 E2]. destruct (acc_facts i a Ha) as (E3 & _). cbv zeta.
    rewrite E1, E2, E3. done.
Qed.
End finish.

(** ** Whole streams *)

Lemma process_sound `{LawfulStrategy Strat} stream k life post : well_formed stream →
  ∀ pre (p : Pipeline (Strat := Strat)) W, stream = pre ++ post → invariant k pre p W →
  ∃ r, process_stream k life p post = Done r ∧
    match r with
    | inl p' => ∃ W', invariant k stream p' W'
    | inr e => ∃ id age seen, e = PendingConnectionExpired id (N.of_nat age) life ∧ life < N.of_nat age ∧ life ≠ u32_MAX ∧
        seen `prefix_of` stream ∧ waits seen id age
    end.
Proof.
  intros Hwf. induction post as [|b post IH]; intros pre p W Hpre Hinv.
  - exists (inl p). split; [done|]. exists W. rewrite app_nil_r in Hpre. by rewrite Hpre.
  - destruct (batch_step stream k Hwf life pre b post p W Hpre Hinv) as (r & E & Hr). cbn [process_stream]. rewrite E.
    cbn [mbind outcome_bind]. destruct r as [p'|e].
    2: { exists (inr e). split; [done|]. destruct Hr as (id & age & ? & ? & ? & ?). exists id, age, pre. split_and!; try done. by eexists. }
    destruct Hr as [[W' Hinv'] _].
    apply (IH (pre ++ [b]) p' W'); [by rewrite <- app_assoc|done].
Qed.

(** A reference announced as forward to an agent of an earlier batch. *)
Definition refers_back (stream : list AgentBatch) (id : AgentId) : Prop :=
  ∃ pre b post source q, stream = pre ++ b :: post ∧ Pending source id q ∈ connections b ∧ id ∈ (agents_of pre).*1.

(** What waits to the end of a well-formed stream refers back. *)
Lemma waits_refers_back stream id age : well_formed stream → waits stream id age → refers_back stream id.
Proof.
  intros Hwf (pre & b & post & s & q & -> & Hin & Hn & _). exists pre, b, post, s, q. split; [done|]. split; [done|].
  destruct (ws_valid _ Hwf (id, q)) as (sym & Hs & _).
  - apply elem_of_app. left. apply elem_of_wire_slots. exists (s, (id, q)). split; [|by right].
    apply list_elem_of_omap. exists (Pending s id q). split; [|done]. rewrite directives_app. apply elem_of_app. right.
    unfold directives. cbn [mbind list_bind]. apply elem_of_app. by left.
  - apply (list_elem_of_fmap_2 fst _ (id, sym)) in Hs. rewrite agents_of_app, fmap_app, elem_of_app in Hs. by destruct Hs.
Qed.

(** A pending wire's target arrives with its batch or later. *)
Definition forward (stream : list AgentBatch) : Prop :=
  ∀ pre b post, stream = pre ++ b :: post →
    ∀ source id q, Pending source id q ∈ connections b → id ∉ (agents_of pre).*1.

(** The waiting targets have not arrived. *)
Definition expected (pre : list AgentBatch) (m : gmap AgentId (list PendingConnection)) : Prop :=
  ∀ id, is_Some (m !! id) → id ∉ (agents_of pre).*1 ∧ ∃ source q, Pending source id q ∈ directives pre.

Lemma process_forward `{LawfulStrategy Strat} stream k post : well_formed stream → forward stream →
  ∀ pre (p : Pipeline (Strat := Strat)) W, stream = pre ++ post → invariant k pre p W → expected pre (pending p) →
  ∃ p' W', process_stream k u32_MAX p post = Done (inl p') ∧ invariant k stream p' W' ∧ expected stream (pending p').
Proof.
  intros Hwf Hfw. induction post as [|b post IH]; intros pre p W Hpre Hinv Hex.
  - exists p, W. split; [done|]. rewrite app_nil_r in Hpre. by rewrite Hpre.
  - destruct (batch_step stream k Hwf u32_MAX pre b post p W Hpre Hinv) as (r & E & Hr). cbn [process_stream]. rewrite E.
    cbn [mbind outcome_bind]. destruct r as [p'|e]; [|by destruct Hr as (? & ? & _ & _ & ? & _)].
    destruct Hr as [[W' Hinv'] Hpend]. apply (IH (pre ++ [b]) p' W'); [by rewrite <- app_assoc|done|].
    intros id Hid. destruct (Hpend id Hid) as [Hnb Hor]. rewrite agents_of_app, agents_of_one, fmap_app, directives_app.
    setoid_rewrite elem_of_app. destruct Hor as [Hold|(s & q & Hin)].
    + destruct (Hex id Hold) as [Hn (s & q & Hin)]. split; [tauto|]. exists s, q. by left.
    + split; [intros [Hi|Hi]; [by apply (Hfw pre b post Hpre s id q)|done]|]. exists s, q. right.
      unfold directives. cbn [mbind list_bind]. by rewrite app_nil_r.
Qed.

Lemma nothing_pending stream m : well_formed stream → expected stream m → ∀ id, m !! id = None.
Proof.
  intros Hwf Hex id. apply eq_None_not_Some. intros Hid. destruct (Hex id Hid) as [Hn (s & q & Hin)].
  apply Hn. destruct (ws_valid _ Hwf (id, q)) as (sym & Hs & _); [|by apply (list_elem_of_fmap_2 fst _ (id, sym))].
  apply elem_of_app. left. apply elem_of_wire_slots. exists (s, (id, q)). split; [|by right].
  apply list_elem_of_omap. by exists (Pending s id q).
Qed.

Section theorems.
Context `{LawfulStrategy Strat} (stream : list AgentBatch) (k : N) (s : Strat) (chunk_size : N).
Hypothesis Hwf : well_formed stream.
Hypothesis Hk : 0 < k.
Hypothesis Hs : lawful k s.
Hypothesis Hchunk : chunk_size ≠ u32_MAX.

Lemma streams life : generate_with_chunk_size_and_lifetime stream k s chunk_size life =
  (r ← process_stream k life (initial s k) stream;
   match r with inr e => mret (inr e) | inl p => mret (finish k p) end).
Proof.
  unfold generate_with_chunk_size_and_lifetime. destruct (N.eqb_spec k 0); [lia|].
  unfold CHUNK_SIZE_MAX_SENTINEL. by destruct (N.eqb_spec chunk_size u32_MAX).
Qed.

(** C13. On a well-formed stream, with a lawful strategy and a chunk size that
    streams, the partitioner does not panic.  When it returns partitions, every
    agent is live in the partition of its worker and in no other, every wire is
    there (inside a partition or cut by a border known on both sides and in the
    border map), the interface ports are exposed, nothing else is connected, and
    the borders lie in the announced range.  When it fails, one of three things
    is the case: the stream announced a forward reference to an agent [id], and
    that agent was missing from the next [age] batches, the announcing one
    included, with [age] above a finite budget; or it announced one to an agent
    of an earlier batch, which is never resolved; or a worker's agents span
    more than four times their number. *)
Theorem streaming_sound life :
  ∃ r, generate_with_chunk_size_and_lifetime stream k s chunk_size life = Done r ∧
    match r with
    | inl c => ∃ owner, faithful stream k c owner
    | inr e =>
        (∃ id age seen, e = PendingConnectionExpired id (N.of_nat age) life ∧ life < N.of_nat age ∧ life ≠ u32_MAX ∧
           seen `prefix_of` stream ∧ waits seen id age) ∨
        (∃ id, e = UnresolvedForwardReferences id ∧ refers_back stream id) ∨
        ∃ owner w, let ids := share stream owner w in
          4 * N.of_nat (length ids) < span ids ∧ e = PartitionArenaTooSparse w (span ids) (N.of_nat (length ids))
    end.
Proof.
  rewrite streams. destruct (process_sound stream k life stream Hwf [] (initial s k) [] eq_refl) as (r & E & Hr);
    [by apply initial_invariant|]. rewrite E. cbn [mbind outcome_bind]. destruct r as [p|e]; [|eexists; split; [done|by left]].
  destruct Hr as [W Hinv]. exists (finish k p). split; [done|]. pose proof (finish_sound stream k p W Hwf Hinv) as Hf.
  destruct (finish k p) as [c|e]; [by eexists|]. destruct Hf as [(id & -> & [pcs Hid])|(w & ? & ->)].
  - right. left. exists id. split; [done|]. destruct (in_waited _ _ _ _ Hinv id pcs Hid) as [Hne Hpcs].
    destruct pcs as [|pc pcs]; [done|]. destruct (Hpcs pc ltac:(left)) as [_ (age & Hw & _)]. by eapply waits_refers_back.
  - right. right. by exists (agent_owner p), w.
Qed.

(** When every pending wire's target arrives with the wire's batch or later
    and nothing bounds the wait, the agents' distribution alone decides: the
    partitioner returns partitions exactly when no worker's agents span more
    than four times their number. *)
Theorem streaming_only_sparse_fails : forward stream →
  ∃ owner : gmap AgentId WorkerId, (∀ id, is_Some (owner !! id) ↔ id ∈ (agents_of stream).*1) ∧
    match generate_with_chunk_size stream k s chunk_size with
    | Done (inl c) => faithful stream k c owner
    | Done (inr e) => ∃ w, let ids := share stream owner w in
        4 * N.of_nat (length ids) < span ids ∧ e = PartitionArenaTooSparse w (span ids) (N.of_nat (length ids))
    | Panic => False
    end.
Proof.
  intros Hfw. unfold generate_with_chunk_size. rewrite streams.
  destruct (process_forward stream k stream Hwf Hfw [] (initial s k) [] eq_refl) as (p & W & E & Hinv & Hex);
    [by apply initial_invariant|by intros id [? ?]|]. rewrite E. cbn [mbind outcome_bind]. exists (agent_owner p).
  split; [apply (in_owner _ _ _ _ Hinv)|]. pose proof (finish_sound stream k p W Hwf Hinv) as Hf.
  unfold mret, outcome_ret. destruct (finish k p) as [c|e]; [done|].
  destruct Hf as [(id & _ & [pcs Hp])|Hf]; [|done]. by rewrite (nothing_pending _ _ Hwf Hex id) in Hp.
Qed.
End theorems.

(** ** The strategies are lawful *)

Lemma round_robin_batch k l : ∀ s out, 0 < k → length (rr_counts s) = N.to_nat k →
  let '(s', out') := foldl (round_robin_next k) (s, out) l in
  length (rr_counts s') = N.to_nat k ∧ out'.*1 = out.*1 ++ l.*1 ∧
  (Forall (λ e, e.2 < k) out → Forall (λ e, e.2 < k) out').
Proof.
  induction l as [|a l IH]; intros s out Hk Hl; cbn [foldl]; [by rewrite app_nil_r|].
  specialize (IH (round_robin_next k (s, out) a).1 (round_robin_next k (s, out) a).2 Hk).
  cbn [round_robin_next fst snd rr_counts] in IH |- *. destruct (foldl _ _ l) as [s' out'].
  destruct IH as (H1 & H2 & H3); [by rewrite length_alter|]. split; [done|]. split.
  - rewrite H2, fmap_app, <- app_assoc. done.
  - intros Ho. apply H3. apply Forall_app. split; [done|]. apply Forall_singleton. cbn. apply N.mod_upper_bound. lia.
Qed.

Lemma round_robin_allocates k s b : 0 < k ∧ length (rr_counts s) = N.to_nat k →
  let '(s', out) := allocate_batch s b k in
  (0 < k ∧ length (rr_counts s') = N.to_nat k) ∧ out.*1 = (batch_agents b).*1 ∧ Forall (λ e, e.2 < k) out.
Proof.
  intros [Hk Hl]. cbn [allocate_batch RoundRobin_strategy]. unfold round_robin_allocate, too_many_workers.
  rewrite (proj2 (N.eqb_neq k 0)) by lia. rewrite (proj2 (Nat.ltb_ge _ _)) by lia. cbn [orb].
  pose proof (round_robin_batch k (batch_agents b) s [] Hk Hl) as Hr. destruct (foldl _ _ _) as [s' out].
  destruct Hr as (H1 & H2 & H3). split; [done|]. split; [done|]. by apply H3.
Qed.

#[export] Instance RoundRobin_lawful : LawfulStrategy RoundRobinStreamingStrategy := {|
  lawful k s := 0 < k ∧ length (rr_counts s) = N.to_nat k;
  allocate_lawful := round_robin_allocates;
|}.

Section fennel.
Context (Score : Type) (score : N → N → Score) (total_cmp : Score → Score → comparison).

Lemma better_worker nb counts w best k : w < k → (∀ v x, best = Some (v, x) → v < k) →
  ∀ v x, better Score score total_cmp nb counts best w = Some (v, x) → v < k.
Proof.
  intros Hw Hb v x. unfold better. destruct best as [[bw bs]|]; [|by intros [= <- _]].
  destruct (total_cmp _ _); [intros [= <- _]|by intros ?%Hb|by intros [= <- _]].
  destruct (w <? bw); [done|]. by apply (Hb bw bs).
Qed.

Lemma fennel_worker k b s a out : 0 < k → length (fennel_counts s) = N.to_nat k →
  let '(s', out') := fennel_next Score score total_cmp b k (s, out) a in
  length (fennel_counts s') = N.to_nat k ∧ ∃ w, out' = out ++ [(a.1, w)] ∧ w < k.
Proof.
  intros Hk Hl. cbn [fennel_next]. set (f := better _ _ _ _ _).
  assert (Hbest : ∀ v x, foldl f None (range_u k) = Some (v, x) → v < k).
  { assert (Hr : ∀ l best, Forall (λ w, w < k) l → (∀ v x, best = Some (v, x) → v < k) →
      ∀ v x, foldl f best l = Some (v, x) → v < k).
    { induction l as [|w l IH]; intros best Hf Hb; [done|]. apply Forall_cons in Hf as [Hw Hf]. cbn [foldl].
      apply IH; [done|]. by apply better_worker. }
    apply (Hr _ None); [|done]. apply Forall_forall. intros w. by rewrite elem_of_range_u. }
  split; [cbn [fennel_counts]; by rewrite length_alter|]. eexists. split; [done|].
  destruct (foldl f None (range_u k)) as [[v x]|]; [by apply (Hbest v x)|done].
Qed.

Lemma fennel_batch k b l : ∀ s out, 0 < k → length (fennel_counts s) = N.to_nat k →
  let '(s', out') := foldl (fennel_next Score score total_cmp b k) (s, out) l in
  length (fennel_counts s') = N.to_nat k ∧ out'.*1 = out.*1 ++ l.*1 ∧
  (Forall (λ e, e.2 < k) out → Forall (λ e, e.2 < k) out').
Proof.
  induction l as [|a l IH]; intros s out Hk Hl; cbn [foldl]; [by rewrite app_nil_r|].
  pose proof (fennel_worker k b s a out Hk Hl) as Hw. destruct (fennel_next _ _ _ _ _ _ a) as [s1 out1].
  destruct Hw as (H1 & w & -> & Hlt). specialize (IH s1 (out ++ [(a.1, w)]) Hk H1). destruct (foldl _ _ l) as [s' out'].
  destruct IH as (H2 & H3 & H4). split; [done|]. split; [rewrite H3, fmap_app, <- app_assoc; done|].
  intros Ho. apply H4. apply Forall_app. split; [done|]. by apply Forall_singleton.
Qed.

Lemma fennel_allocates k s b : 0 < k ∧ length (fennel_counts s) = N.to_nat k →
  let '(s', out) := @allocate_batch _ (Fennel_strategy Score score total_cmp) s b k in
  (0 < k ∧ length (fennel_counts s') = N.to_nat k) ∧ out.*1 = (batch_agents b).*1 ∧ Forall (λ e, e.2 < k) out.
Proof.
  intros [Hk Hl]. cbn [allocate_batch Fennel_strategy]. unfold fennel_allocate, too_many_workers.
  rewrite (proj2 (N.eqb_neq k 0)) by lia. rewrite (proj2 (Nat.ltb_ge _ _)) by lia. cbn [orb].
  pose proof (fennel_batch k b (batch_agents b) s [] Hk Hl) as Hr. destruct (foldl _ _ _) as [s' out].
  destruct Hr as (H1 & H2 & H3). split; [done|]. split; [done|]. by apply H3.
Qed.

#[export] Instance Fennel_lawful :
  @LawfulStrategy FennelStreamingStrategy (Fennel_strategy Score score total_cmp) := {|
  lawful k s := 0 < k ∧ length (fennel_counts s) = N.to_nat k;
  allocate_lawful := fennel_allocates;
|}.
End fennel.

(** ** Checking a concrete stream *)

Fixpoint causal (seen : list AgentId) (used : nat) (stream : list AgentBatch) : bool :=
  match stream with
  | [] => true
  | b :: stream =>
      let seen := seen ++ (batch_agents b).*1 in
      forallb (λ d, forallb (λ id, bool_decide (id ∈ seen)) (known_ends d)) (connections b) &&
      forallb (λ f, (N.of_nat used <=? f) && (f <? u32_MAX)) (omap face (connections b)).*2 &&
      causal seen (used + (length (wires [b]) + length (faces [b]))) stream
  end.

Lemma causal_spec stream : ∀ seen used, causal seen used stream = true → ∀ pre b post, stream = pre ++ b :: post →
  (∀ d id, d ∈ connections b → id ∈ known_ends d → id ∈ seen ++ (agents_of (pre ++ [b])).*1) ∧
  (∀ f, f ∈ (omap face (connections b)).*2 → N.of_nat (used + (length (wires pre) + length (faces pre))) ≤ f < u32_MAX).
Proof.
  induction stream as [|b0 stream IH]; intros seen used Hc pre b post Hpre; [by destruct pre|].
  cbn [causal] in Hc. apply andb_prop in Hc as [[Hk Hf]%andb_prop Hrest]. destruct pre as [|b1 pre]; injection Hpre as -> Hpre.
  - change ([] ++ [b]) with [b]. rewrite agents_of_one. split.
    + intros d id Hd Hid. rewrite forallb_forall in Hk. apply list_elem_of_In in Hd, Hid.
      specialize (Hk d Hd). rewrite forallb_forall in Hk. specialize (Hk id Hid). by apply bool_decide_eq_true in Hk.
    + intros f Hin. rewrite forallb_forall in Hf. apply list_elem_of_In in Hin. specialize (Hf f Hin).
      apply andb_prop in Hf as [?%N.leb_le ?%N.ltb_lt]. cbn. lia.
  - destruct (IH _ _ Hrest pre b post Hpre) as [H1 H2].
    change ((b1 :: pre) ++ [b]) with ([b1] ++ (pre ++ [b])). change (b1 :: pre) with ([b1] ++ pre).
    rewrite agents_of_app, agents_of_one, fmap_app, app_assoc, wires_app, faces_app, !length_app. split; [done|].
    intros f Hin. specialize (H2 f Hin). lia.
Qed.

Definition check_stream (stream : list AgentBatch) : bool :=
  bool_decide (NoDup (agents_of stream).*1) &&
  forallb (λ id, id <? Sparse.MAX_DENSE_ARENA_SLOTS) (agents_of stream).*1 &&
  bool_decide (NoDup (slots (wires stream) ++ (faces stream).*1)) &&
  forallb (λ x, existsb (λ e, (e.1 =? x.1) && (x.2 <? total_ports e.2)) (agents_of stream))
    (slots (wires stream) ++ (faces stream).*1) &&
  (N.of_nat (length (wires stream) + length (faces stream)) <=? u32_MAX) &&
  bool_decide (NoDup (faces stream).*2) && causal [] 0 stream.

Lemma check_stream_ok stream : check_stream stream = true → well_formed stream.
Proof.
  unfold check_stream. rewrite !andb_true_iff. intros [[[[[[H1 H2] H3] H4] H5] H6] H7].
  apply bool_decide_eq_true in H1, H3, H6. apply N.leb_le in H5. rewrite forallb_forall in H2, H4.
  split; try done.
  - intros id Hid. apply N.ltb_lt, H2. by apply list_elem_of_In.
  - intros x Hx. apply list_elem_of_In, H4, existsb_exists in Hx as ([id sym] & Hin & [Hi%N.eqb_eq Hp%N.ltb_lt]%andb_prop).
    cbn [fst snd] in *. subst id. exists sym. split; [by apply list_elem_of_In|done].
  - intros pre b post Hpre f Hf. destruct (causal_spec _ _ _ H7 pre b post Hpre) as [_ Hc]. by apply Hc.
  - intros pre b post Hpre. by destruct (causal_spec _ _ _ H7 pre b post Hpre) as [Hc _].
Qed.

(** Two batches with a local wire, cut wires, forward references and an
    interface port. *)
Definition mixed : list AgentBatch :=
  [mkAgentBatch [(0, Con); (1, Dup)]
     [FreePortInterface (0, 1) 0; Resolved (0, 0) (1, 0); Pending (0, 2) 2 0; Pending (1, 1) 2 2];
   mkAgentBatch [(2, Con); (3, Era)] [Resolved (2, 1) (3, 0)]].

Lemma mixed_well_formed : well_formed mixed.
Proof. apply check_stream_ok. vm_compute. reflexivity. Qed.

Lemma mixed_forward : forward mixed.
Proof.
  intros [|b1 [|b2 pre]] b post Hpre s id q Hin; [apply not_elem_of_nil|injection Hpre as <- <- <-|].
  - cbn in Hin. apply list_elem_of_singleton in Hin. discriminate Hin.
  - injection Hpre as _ _ Hpre. by destruct pre.
Qed.

Definition two_workers : RoundRobinStreamingStrategy := mkRoundRobin 0 [0; 0].

Lemma streaming_sound_witness :
  ∃ c owner, generate_with_chunk_size_and_lifetime mixed 2 two_workers 2 7 = Done (inl c) ∧ faithful mixed 2 c owner.
Proof.
  destruct (streaming_sound mixed 2 two_workers 2 mixed_well_formed ltac:(lia) ltac:(split; [lia|reflexivity]) ltac:(unfold u32_MAX; lia) 7)
    as (r & E & Hr).
  assert (Hok : match generate_with_chunk_size_and_lifetime mixed 2 two_workers 2 7 with Done (inl _) => true | _ => false end = true)
    by (vm_compute; reflexivity).
  rewrite E in Hok. destruct r as [c|e]; [|discriminate Hok]. destruct Hr as [owner Hf]. exists c, owner. split; [exact E|exact Hf].
Defined.

Lemma streaming_only_sparse_fails_witness :
  ∃ c owner, generate_with_chunk_size mixed 2 two_workers 2 = Done (inl c) ∧ faithful mixed 2 c owner.
Proof.
  destruct (streaming_only_sparse_fails mixed 2 two_workers 2 mixed_well_formed ltac:(lia) ltac:(split; [lia|reflexivity])
    ltac:(unfold u32_MAX; lia) mixed_forward) as (owner & _ & Hr).
  assert (Hok : match generate_with_chunk_size mixed 2 two_workers 2 with Done (inl _) => true | _ => false end = true)
    by (vm_compute; reflexivity).
  destruct (generate_with_chunk_size mixed 2 two_workers 2) as [[c|e]|]; [|discriminate Hok|discriminate Hok].
  exists c, owner. split; [reflexivity|exact Hr].
Defined.

(** ** What goes wrong *)

(** A line of [Con] agents, one per batch, each wired to the one before. *)
Definition chain (n : N) : list AgentBatch :=
  (λ i, mkAgentBatch [(i, Con)] (if 0 <? i then [Resolved (i, 2) (i - 1, 1)] else [])) <$> range_u n.

Definition fresh_round_robin (k : N) : RoundRobinStreamingStrategy := mkRoundRobin 0 (replicate (N.to_nat k) 0).

Definition chain_result (n k : N) : option (ChunkedPartitionResult + PartitionError) :=
  match generate_and_partition_chunked (chain n) k (fresh_round_robin k) with Done r => Some r | Panic => None end.

(** What partition [w] of the result says of ids: its range, its free list, its
    next id and its live agents. *)
Definition id_facts (r : option (ChunkedPartitionResult + PartitionError)) (w : nat)
    : option (IdRange * list AgentId * AgentId * list AgentId) :=
  match r with
  | Some (inl c) => (λ p, (p_id_range p, free_list (subnet p), next_id (subnet p), agent_id <$> live_agents (subnet p)))
      <$> cp_partitions c !! w
  | _ => None
  end.

(** With more than four workers the round-robin strategy fails on nets of
    moderate size: a worker's arena spans [num_workers] times its agents, and
    the density check allows four times. *)
Theorem round_robin_fails_above_four_workers :
  chain_result 20 4 ≠ None ∧ (∀ e, chain_result 20 4 ≠ Some (inr e)) ∧
  chain_result 20 5 = Some (inr (PartitionArenaTooSparse 1 17 4)).
Proof. split_and!; [by vm_compute|intros e; by vm_compute|by vm_compute]. Qed.

(** The id ranges of the partitions do not respect the assignment: of six
    agents in a line over two workers, worker 0 may recycle id 1, which is live
    on worker 1, and holds agent 4 outside its range. *)
Theorem streaming_ids_clash :
  id_facts (chain_result 6 2) 0 = Some (mkIdRange 0 3, [1], 5, [0; 2; 4]) ∧
  id_facts (chain_result 6 2) 1 = Some (mkIdRange 3 6, [4], 6, [1; 3; 5]).
Proof. split; by vm_compute. Qed.

(** The short-circuit for an unlimited chunk size keeps neither forward
    references nor interface ports: the wires of [mixed] that are pending, and
    its free port, are missing from the one-worker net. *)
Theorem short_circuit_drops_wires :
  match generate_with_chunk_size mixed 1 (fresh_round_robin 1) u32_MAX, generate_with_chunk_size mixed 1 (fresh_round_robin 1) 1 with
  | Done (inl c), Done (inl d) =>
      (part_port c 0 (0, 2), part_port c 0 (0, 1), part_port c 0 (1, 1)) = (None, None, None) ∧
      (part_port d 0 (0, 2), part_port d 0 (0, 1), part_port d 0 (1, 1)) =
        (Some (AgentPort 2 0), Some (FreePort 0), Some (AgentPort 2 2))
  | _, _ => False
  end.
Proof. vm_compute. split; reflexivity. Qed.

(** An interface id announced after it was given to a border. *)
Definition late_face : list AgentBatch :=
  [mkAgentBatch [(0, Con); (1, Con)] [Resolved (0, 0) (1, 0)];
   mkAgentBatch [(2, Con)] [FreePortInterface (2, 1) 0]].

(** Reserving interface ids batch by batch is not enough: an id announced
    after a border took it aliases the border.  The border map still joins agent
    0 to agent 1 through id 0, while worker 0's index sends id 0 to agent 2. *)
Theorem late_interface_aliases_border :
  match generate_and_partition_chunked late_face 2 (fresh_round_robin 2) with
  | Done (inl c) =>
      cp_borders c !! 0 = Some (AgentPort 0 0, AgentPort 1 0) ∧ part_port c 0 (0, 0) = Some (FreePort 0) ∧
      part_port c 0 (2, 1) = Some (FreePort 0) ∧ part_index c 0 0 = Some (AgentPort 2 1)
  | _ => False
  end.
Proof. vm_compute. repeat split; reflexivity. Qed.
