(* ===== verification/Frame.v ===== *)
(** The wire protocol's messages and frames (protocol/types.rs,
    protocol/frame.rs, protocol/compression.rs, protocol/bincode_v2.rs).  The
    reader is the list of bytes still to come, the writer the list of bytes
    written; a byte is an [N] below 256.  The bincode, crc32fast, lz4_flex and
    rkyv packages are the operations of a class. *)
From S2P Require Import Prelude NetTypes NetCore Compact Partition BorderGraph BorderResolver Merge Grid Worker.
Local Open Scope N_scope.

Module Frame.

(** ** Messages *)

Inductive JoinNackReason : Type :=
| ProtocolVersionMismatch (coordinator worker : N)
| ElasticJoinDisabled
| WorkerIdSpaceExhausted
| AuthenticationFailed.

Record WorkerCapabilities : Type := mkCapabilities {}.

Record RegisterPayload : Type := mkRegister { rp_protocol_version : N; rp_auth_token : option (list N) }.
Record RegisterAckPayload : Type := mkRegisterAck { ra_worker_id : WorkerId }.
Record RegisterNackPayload : Type := mkRegisterNack { rn_reason : list N }.

(** The constructors are in the order of the wire discriminants.  [P] is what
    stands for a partition: the partition itself, or what is written of it. *)
Inductive MessageOf (P : Type) : Type :=
| AssignPartition (round : N) (partition : P)
| Shutdown
| PartitionResult (round : N) (partition : P) (stats : WorkerRoundStats)
| Error (round : N) (worker_id : WorkerId) (description : list N)
| Register (payload : RegisterPayload)
| RegisterAck (payload : RegisterAckPayload)
| RegisterNack (payload : RegisterNackPayload)
| InitialPartition (round : N) (partition : P)
| RoundStart (round : N) (border_deltas : list BorderDelta) (resolved_borders : list N)
    (new_borders : list (N * PortRef)) (local_reconnections : list Worker.LocalReconnection)
    (pending_commutations : list PendingCommutation)
| RoundResult (round : N) (border_deltas : list BorderDelta) (stats : WorkerRoundStats)
    (has_border_activity : bool) (minted_agents : list MintedAgent)
| FinalStateRequest (round : N)
| FinalStateResult (round : N) (partition : P)
| JoinRequest (protocol_version : N) (auth_token : option (list N)) (capabilities : WorkerCapabilities)
| JoinAck (worker_id : WorkerId) (partition_index next_round_number : N)
| LeaveRequest (kind : LeaveKind)
| LeaveAck
| JoinNack (reason : JoinNackReason)
| RequestWork (worker_id : WorkerId)
| NoMoreWork.
Arguments AssignPartition {P}.
Arguments Shutdown {P}.
Arguments PartitionResult {P}.
Arguments Error {P}.
Arguments Register {P}.
Arguments RegisterAck {P}.
Arguments RegisterNack {P}.
Arguments InitialPartition {P}.
Arguments RoundStart {P}.
Arguments RoundResult {P}.
Arguments FinalStateRequest {P}.
Arguments FinalStateResult {P}.
Arguments JoinRequest {P}.
Arguments JoinAck {P}.
Arguments LeaveRequest {P}.
Arguments LeaveAck {P}.
Arguments JoinNack {P}.
Arguments RequestWork {P}.
Arguments NoMoreWork {P}.

Notation Message := (MessageOf Partition).

(** The partition that a message carries goes through [f]. *)
Definition traverse_message {M : Type → Type} `{MRet M, MBind M} {P Q : Type} (f : P → M Q) (m : MessageOf P)
    : M (MessageOf Q) :=
  match m with
  | AssignPartition r p => q ← f p; mret (AssignPartition r q)
  | Shutdown => mret Shutdown
  | PartitionResult r p st => q ← f p; mret (PartitionResult r q st)
  | Error r w d => mret (Error r w d)
  | Register x => mret (Register x)
  | RegisterAck x => mret (RegisterAck x)
  | RegisterNack x => mret (RegisterNack x)
  | InitialPartition r p => q ← f p; mret (InitialPartition r q)
  | RoundStart r ds bs nb lr pc => mret (RoundStart r ds bs nb lr pc)
  | RoundResult r ds st a ma => mret (RoundResult r ds st a ma)
  | FinalStateRequest r => mret (FinalStateRequest r)
  | FinalStateResult r p => q ← f p; mret (FinalStateResult r q)
  | JoinRequest v t c => mret (JoinRequest v t c)
  | JoinAck w i n => mret (JoinAck w i n)
  | LeaveRequest k => mret (LeaveRequest k)
  | LeaveAck => mret LeaveAck
  | JoinNack x => mret (JoinNack x)
  | RequestWork w => mret (RequestWork w)
  | NoMoreWork => mret NoMoreWork
  end.

(** ** Partitions on the wire

    The serde adapters of [Partition] write its net in compact form and inflate
    what they read; the other fields travel as they are. *)
Record WirePartition : Type := mkWirePartition {
  wp_subnet : CompactSubnet;
  wp_worker_id : WorkerId;
  wp_free_port_index : gmap N PortRef;
  wp_id_range : IdRange;
  wp_border_id_start : N;
  wp_border_id_end : N;
}.

Definition deflate (p : Partition) : outcome WirePartition :=
  c ← Compact.from_net (subnet p);
  mret (mkWirePartition c (worker_id p) (free_port_index p) (p_id_range p) (border_id_start p) (border_id_end p)).

Definition inflate (w : WirePartition) : Partition + CompactSubnetError :=
  match Compact.try_into_net (wp_subnet w) with
  | inl n => inl (mkPartition n (wp_worker_id w) (wp_free_port_index w) (wp_id_range w) (wp_border_id_start w) (wp_border_id_end w))
  | inr e => inr e
  end.

(** What may be refused. *)
Definition refusable (A : Type) : Type := (A + CompactSubnetError)%type.
#[export] Instance refusable_ret : MRet refusable := λ A, inl.
#[export] Instance refusable_bind : MBind refusable := λ A B f x, match x with inl a => f a | inr e => inr e end.

(** ** The libraries *)

Class Libraries : Type := {
  EncodeError : Type; DecodeError : Type; Lz4Error : Type; RkyvError : Type;
  (** bincode and the derived implementations *)
  bincode_encode : MessageOf WirePartition → list N + EncodeError;
  bincode_decode : list N → (MessageOf WirePartition * N) + DecodeError;
  (** [serde::de::Error::custom] *)
  custom : CompactSubnetError → DecodeError;
  crc32c : list N → N;
  lz4_compress : list N → list N;
  lz4_decompress : list N → N → list N + Lz4Error;
  (** [rkyv::to_bytes] of the two hot-path payloads; [rkyv::access] followed by
      [rkyv::deserialize], [None] when the access does not validate. *)
  archive_assign : N → Partition → list N + RkyvError;
  archive_result : N → Partition → WorkerRoundStats → list N + RkyvError;
  access_assign : list N → option ((N * Partition) + RkyvError);
  access_result : list N → option ((N * Partition * WorkerRoundStats) + RkyvError);
}.

Inductive DecompressionReason `{Libraries} : Type :=
| TooShort (len : N)
| ExceedsCap (declared cap : N)
| Lz4 (e : Lz4Error).

Inductive ArchiveReason `{Libraries} : Type :=
| SerializeArchive (e : RkyvError)
| AssignArchive (e : RkyvError)
| ResultArchive (e : RkyvError)
| NonHotPath.

(** The protocol errors of the framing layer. *)
Inductive ProtocolError `{Libraries} : Type :=
| ConnectionLost
| PayloadTooLarge (size max : N)
| ChecksumMismatch (expected computed : N)
| Deserialize (e : DecodeError)
| Serialize (e : EncodeError)
| UnknownFlags (flags : N)
| DecompressionFailed (r : DecompressionReason)
| ArchiveValidationFailed (r : ArchiveReason).

(** ** The header *)

Definition FRAME_HEADER_SIZE : nat := 9.
Definition FLAG_COMPRESSED : N := 1.
Definition FLAG_ARCHIVED : N := 2.
Definition FLAG_RESERVED : N := 252.
Definition DEFAULT_MAX_PAYLOAD_SIZE : N := 1073741824.
Definition DEFAULT_COMPRESSION_THRESHOLD : N := 1024.
Definition usize_MAX : N := 18446744073709551615.

Record FrameHeader : Type := mkHeader { h_length : N; h_checksum : N; h_flags : N }.

(** [u32::to_le_bytes] and [u32::from_le_bytes]. *)
Definition to_le_bytes (x : N) : list N :=
  [N.land x 255; N.land (N.shiftr x 8) 255; N.land (N.shiftr x 16) 255; N.land (N.shiftr x 24) 255].

Definition from_le_bytes (bs : list N) : N := foldr (λ b acc, b + 256 * acc) 0 bs.

Definition to_bytes (h : FrameHeader) : list N := to_le_bytes (h_length h) ++ to_le_bytes (h_checksum h) ++ [h_flags h].

Definition from_bytes (bytes : list N) : FrameHeader :=
  mkHeader (from_le_bytes (take 4 bytes)) (from_le_bytes (take 4 (drop 4 bytes))) (bytes !!! 8%nat).

Definition is_compressed (h : FrameHeader) : bool := negb (N.land (h_flags h) FLAG_COMPRESSED =? 0).
Definition is_archived (h : FrameHeader) : bool := negb (N.land (h_flags h) FLAG_ARCHIVED =? 0).
Definition has_unknown_flags (h : FrameHeader) : bool := negb (N.land (h_flags h) FLAG_RESERVED =? 0).

Section frames.
Context `{Libraries}.

(** ** Encoding (protocol/bincode_v2.rs) *)

(** The adapter's refusal is a decoding error; on bytes that are wrong in two
    ways the error of the library is the one reported here. *)
Definition encode (m : Message) : outcome (list N + EncodeError) :=
  w ← traverse_message deflate m; mret (bincode_encode w).

Definition decode (bs : list N) : (Message * N) + DecodeError :=
  match bincode_decode bs with
  | inr e => inr e
  | inl (w, n) =>
      match traverse_message (M := refusable) inflate w with
      | inl m => inl (m, n)
      | inr e => inr (custom e)
      end
  end.

(** ** Compression *)

Definition MAX_DECOMPRESSED_SIZE : N := 1073741824.

Definition len (bs : list N) : N := N.of_nat (length bs).

Definition compress_payload (data : list N) : list N := to_le_bytes (as_u32 (len data)) ++ lz4_compress data.

Definition decompress_payload (data : list N) : list N + DecompressionReason :=
  if len data <? 4 then inr (TooShort (len data))
  else
    let declared := from_le_bytes (take 4 data) in
    if MAX_DECOMPRESSED_SIZE <? declared then inr (ExceedsCap declared MAX_DECOMPRESSED_SIZE)
    else match lz4_decompress (drop 4 data) declared with inl bs => inl bs | inr e => inr (Lz4 e) end.

(** ** Sending *)

(** Header and payload; the checksum is that of [uncompressed]. *)
Definition frame_of (uncompressed payload : list N) (flags : N) : (list N * N) + ProtocolError :=
  if u32_MAX <? len payload then inr (PayloadTooLarge u32_MAX u32_MAX)
  else
    let header := mkHeader (len payload) (crc32c uncompressed) flags in
    inl (to_bytes header ++ payload, N.of_nat FRAME_HEADER_SIZE + len payload).

(** Compress from the threshold on; [usize::MAX] disables. *)
Definition maybe_compress (bs : list N) (compression_threshold flags : N) : list N * N :=
  if (compression_threshold <=? len bs) && negb (compression_threshold =? usize_MAX)
  then (compress_payload bs, N.lor flags FLAG_COMPRESSED)
  else (bs, flags).

Definition send_frame_with_threshold (message : Message) (compression_threshold : N)
    : outcome ((list N * N) + ProtocolError) :=
  encoded ← encode message;
  match encoded with
  | inr e => mret (inr (Serialize e))
  | inl uncompressed =>
      let '(payload, flags) := maybe_compress uncompressed compression_threshold 0 in
      mret (frame_of uncompressed payload flags)
  end.

Definition send_frame (message : Message) : outcome ((list N * N) + ProtocolError) :=
  send_frame_with_threshold message DEFAULT_COMPRESSION_THRESHOLD.

Definition is_hot_path_message (message : Message) : bool :=
  match message with AssignPartition _ _ | PartitionResult _ _ _ => true | _ => false end.

(** The two archives. *)
Definition archive_bytes (message : Message) : option (list N + RkyvError) :=
  match message with
  | AssignPartition round partition => Some (archive_assign round partition)
  | PartitionResult round partition stats => Some (archive_result round partition stats)
  | _ => None
  end.

(** The zero-copy build's sender; its own [Panic] is the [unreachable!]. *)
Definition send_frame_v2 (message : Message) (use_archive : bool) (compression_threshold : N)
    : outcome ((list N * N) + ProtocolError) :=
  if negb use_archive || negb (is_hot_path_message message)
  then send_frame_with_threshold message compression_threshold
  else
    match archive_bytes message with
    | None => Panic
    | Some (inr e) => Done (inr (ArchiveValidationFailed (SerializeArchive e)))
    | Some (inl archive) =>
        let '(payload, flags) := maybe_compress archive compression_threshold FLAG_ARCHIVED in
        Done (frame_of archive payload flags)
    end.

(** ** Receiving *)

(** [AsyncReadExt::read_exact]: [None] when the connection ends first. *)
Definition read_exact (n : nat) (reader : list N) : option (list N * list N) :=
  if (n <=? length reader)%nat then Some (take n reader, drop n reader) else None.

Definition decode_archive_payload (payload : list N) (total_bytes : N) : (Message * N) + ProtocolError :=
  match access_assign payload with
  | Some (inl (round, partition)) => inl (AssignPartition round partition, total_bytes)
  | Some (inr e) => inr (ArchiveValidationFailed (AssignArchive e))
  | None =>
      match access_result payload with
      | Some (inl (round, partition, stats)) => inl (PartitionResult round partition stats, total_bytes)
      | Some (inr e) => inr (ArchiveValidationFailed (ResultArchive e))
      | None => inr (ArchiveValidationFailed NonHotPath)
      end
  end.

(** Steps 5 to 7 on the bytes read.  [zero_copy] is the build feature. *)
Definition decode_payload (zero_copy : bool) (header : FrameHeader) (wire_payload : list N) (total_bytes : N)
    : (Message * N) + ProtocolError :=
  if zero_copy && is_archived header && negb (is_compressed header) then
    let computed_crc := crc32c wire_payload in
    if computed_crc =? h_checksum header then decode_archive_payload wire_payload total_bytes
    else inr (ChecksumMismatch (h_checksum header) computed_crc)
  else
    match (if is_compressed header then decompress_payload wire_payload else inl wire_payload) with
    | inr e => inr (DecompressionFailed e)
    | inl payload =>
        let computed_crc := crc32c payload in
        if computed_crc =? h_checksum header then
          if zero_copy && is_archived header then decode_archive_payload payload total_bytes
          else match decode payload with
               | inl (message, _) => inl (message, total_bytes)
               | inr e => inr (Deserialize e)
               end
        else inr (ChecksumMismatch (h_checksum header) computed_crc)
    end.

(** The bytes left in the reader, and the message with its size. *)
Definition recv_frame (zero_copy : bool) (reader : list N) (max_payload_size : N)
    : list N * ((Message * N) + ProtocolError) :=
  match read_exact FRAME_HEADER_SIZE reader with
  | None => ([], inr ConnectionLost)
  | Some (header_buf, reader) =>
      let header := from_bytes header_buf in
      if has_unknown_flags header then (reader, inr (UnknownFlags (h_flags header)))
      else if max_payload_size <? h_length header then (reader, inr (PayloadTooLarge (h_length header) max_payload_size))
      else
        match read_exact (N.to_nat (h_length header)) reader with
        | None => ([], inr ConnectionLost)
        | Some (wire_payload, reader) =>
            (reader, decode_payload zero_copy header wire_payload (N.of_nat FRAME_HEADER_SIZE + h_length header))
        end
  end.

End frames.

End Frame.
