(* ===== verification/FrameSpec.v ===== *)
(** Frames: what is sent is what is received, whatever follows it; what the
    receiver accepts, and how it rejects. *)
From S2P Require Import Prelude NetTypes NetCore NetInv NetDebug Compact CompactSpec Partition BorderGraph BorderResolver Merge Grid Worker Frame.
Local Open Scope N_scope.
Import Frame.

(** ** What arrives *)

(** A partition as it is after the wire: its net's skipped fields (redirects,
    id range, border shadow, round flags) are at their defaults. *)
Definition at_rest (p : Partition) : Partition := with_subnet (persisted (subnet p)) p.

(** A message as it arrives: the partition it carries is as it is after the wire. *)
Definition wire_form (m : Message) : Message := default m (traverse_message (λ p, Some (at_rest p)) m).

Definition carries (m : Message) (p : Partition) : Prop :=
  match m with
  | AssignPartition _ q | PartitionResult _ q _ | InitialPartition _ q | FinalStateResult _ q => p = q
  | _ => False
  end.

(** The net of the partition, if any, is well formed with its free ids in the arena. *)
Definition sendable (m : Message) : Prop :=
  ∀ p, carries m p → wf (subnet p) ∧ ∀ id, id ∈ free_list (subnet p) → (N.to_nat id < length (agents (subnet p)))%nat.

(** The documented behaviour of the libraries: what bincode encodes it decodes,
    LZ4 restores a block of the announced length, a CRC is a [u32], and rkyv
    restores all but the fields it is told to skip. *)
Class LibraryLaws `{Libraries} : Prop := {
  bincode_law : ∀ w bs, bincode_encode w = inl bs → bincode_decode bs = inl (w, len bs);
  lz4_law : ∀ bs, lz4_decompress (lz4_compress bs) (len bs) = inl bs;
  crc_law : ∀ bs, crc32c bs ≤ u32_MAX;
  assign_law : ∀ r p bs, archive_assign r p = inl bs → access_assign bs = Some (inl (r, at_rest p));
  result_law : ∀ r p s bs, archive_result r p s = inl bs → access_result bs = Some (inl (r, at_rest p, s));
}.

Lemma deflate_inflate p : wf (subnet p) → (∀ id, id ∈ free_list (subnet p) → (N.to_nat id < length (agents (subnet p)))%nat) →
  ∃ w, deflate p = Done w ∧ inflate w = inl (at_rest p).
Proof.
  intros Hwf Hf. destruct (compact_inflates (subnet p) Hwf Hf) as (c & Hc & Hv & Hi).
  eexists. unfold deflate. rewrite Hc. split; [reflexivity|]. unfold inflate, Compact.try_into_net. cbn [wp_subnet].
  by rewrite Hv, Hi.
Qed.

Lemma traverse_round_trip m : sendable m →
  ∃ w, traverse_message deflate m = Done w ∧ traverse_message (M := refusable) inflate w = inl (wire_form m).
Proof.
  intros Hm. destruct m as [r p| |r p st| | | | |r p| | | |r p| | | | | | |]; try (eexists; split; reflexivity).
  all: destruct (Hm p eq_refl) as [Hwf Hf]; destruct (deflate_inflate p Hwf Hf) as (w & Hd & Hi).
  all: eexists; cbn [traverse_message]; rewrite Hd; split; [reflexivity|].
  all: cbn [traverse_message]; rewrite Hi; reflexivity.
Qed.

(** ** Bytes *)

Lemma land_byte x : N.land x 255 = x mod 256.
Proof. change 255 with (N.ones 8). by rewrite N.land_ones. Qed.

Lemma le_bytes_digits x : to_le_bytes x = [x mod 256; x / 2 ^ 8 mod 256; x / 2 ^ 16 mod 256; x / 2 ^ 24 mod 256].
Proof. unfold to_le_bytes. by rewrite !land_byte, !N.shiftr_div_pow2. Qed.

(** The digits one division at a time. *)
Lemma le_bytes_steps x : let q1 := x / 256 in let q2 := q1 / 256 in let q3 := q2 / 256 in
  to_le_bytes x = [x mod 256; q1 mod 256; q2 mod 256; q3 mod 256].
Proof.
  cbv zeta. rewrite le_bytes_digits. change (2 ^ 8) with 256. change (2 ^ 16) with (256 * 256).
  change (2 ^ 24) with (256 * 256 * 256). by rewrite <- !N.Div0.div_div.
Qed.

Lemma digit_step x d q : d < 256 → x = d + 256 * q → x mod 256 = d ∧ x / 256 = q.
Proof.
  intros Hd ->. rewrite (N.mul_comm 256), N.Div0.mod_add, N.div_add, N.mod_small, N.div_small by lia. lia.
Qed.

Lemma le_round_trip x : x ≤ u32_MAX → from_le_bytes (to_le_bytes x) = x.
Proof.
  unfold u32_MAX. intros Hx. rewrite le_bytes_steps. cbn [from_le_bytes foldr].
  pose proof (N.Div0.div_mod x 256) as E1. pose proof (N.Div0.div_mod (x / 256) 256) as E2.
  pose proof (N.Div0.div_mod (x / 256 / 256) 256) as E3. rewrite (N.mod_small (x / 256 / 256 / 256)); [lia|].
  repeat (apply N.Div0.div_lt_upper_bound). lia.
Qed.

Lemma to_from_le a b c d : a < 256 → b < 256 → c < 256 → d < 256 → to_le_bytes (from_le_bytes [a; b; c; d]) = [a; b; c; d].
Proof.
  intros Ha Hb Hc Hd. rewrite le_bytes_steps. cbn [from_le_bytes foldr]. cbv zeta.
  destruct (digit_step (a + 256 * (b + 256 * (c + 256 * (d + 256 * 0)))) a _ Ha eq_refl) as [-> ->].
  destruct (digit_step (b + 256 * (c + 256 * (d + 256 * 0))) b _ Hb eq_refl) as [-> ->].
  destruct (digit_step (c + 256 * (d + 256 * 0)) c _ Hc eq_refl) as [-> ->].
  by destruct (digit_step (d + 256 * 0) d 0 Hd eq_refl) as [-> _].
Qed.

Lemma le_bytes_range x : Forall (λ b, b < 256) (to_le_bytes x).
Proof. rewrite le_bytes_digits. repeat (apply Forall_cons; split; [by apply N.mod_upper_bound|]). apply Forall_nil_2. Qed.

Lemma length_to_bytes h : length (to_bytes h) = FRAME_HEADER_SIZE.
Proof. done. Qed.

(** ** The header *)

Definition header_ok (h : FrameHeader) : Prop := h_length h ≤ u32_MAX ∧ h_checksum h ≤ u32_MAX ∧ h_flags h < 256.

Lemma from_to_bytes h : header_ok h → from_bytes (to_bytes h) = h.
Proof.
  intros (Hl & Hc & _). destruct h as [l c f]. unfold from_bytes, to_bytes. cbn [h_length h_checksum h_flags] in *.
  change (take 4 (to_le_bytes l ++ to_le_bytes c ++ [f])) with (to_le_bytes l).
  change (take 4 (drop 4 (to_le_bytes l ++ to_le_bytes c ++ [f]))) with (to_le_bytes c).
  by rewrite !le_round_trip.
Qed.

Lemma to_from_bytes bs : length bs = FRAME_HEADER_SIZE → Forall (λ b, b < 256) bs → to_bytes (from_bytes bs) = bs.
Proof.
  intros Hl Hb. do 9 (destruct bs as [|? bs]; [discriminate Hl|]). destruct bs; [|discriminate Hl].
  rewrite !Forall_cons in Hb. destruct_and! Hb. unfold to_bytes, from_bytes. cbn [take drop h_length h_checksum h_flags].
  by rewrite !to_from_le.
Qed.

(** The header codec is a bijection between headers in range and nine
    bytes. *)
Theorem header_round_trip :
  (∀ h, header_ok h → length (to_bytes h) = 9%nat ∧ Forall (λ b, b < 256) (to_bytes h) ∧ from_bytes (to_bytes h) = h) ∧
  (∀ bs, length bs = 9%nat → Forall (λ b, b < 256) bs → header_ok (from_bytes bs) ∧ to_bytes (from_bytes bs) = bs).
Proof.
  split.
  - intros h Hh. split; [done|]. split; [|by apply from_to_bytes]. destruct Hh as (_ & _ & Hf).
    unfold to_bytes. rewrite !Forall_app. split; [apply le_bytes_range|]. split; [apply le_bytes_range|by apply Forall_singleton].
  - intros bs Hl Hb. split; [|by apply to_from_bytes].
    do 9 (destruct bs as [|? bs]; [discriminate Hl|]). rewrite !Forall_cons in Hb. destruct_and! Hb.
    unfold header_ok, from_bytes, u32_MAX. cbn [take drop h_length h_checksum h_flags from_le_bytes foldr lookup_total list_lookup_total]. lia.
Qed.

Lemma header_round_trip_witness :
  to_bytes (mkHeader 258 4294967295 1) = [2; 1; 0; 0; 255; 255; 255; 255; 1] ∧
  from_bytes (to_bytes (mkHeader 258 4294967295 1)) = mkHeader 258 4294967295 1.
Proof.
  split; [vm_compute; reflexivity|].
  apply (proj2 (proj2 (proj1 header_round_trip (mkHeader 258 4294967295 1) ltac:(unfold header_ok, u32_MAX; cbn; lia)))).
Defined.

(** ** One frame *)

Lemma read_exact_app bs rest : read_exact (length bs) (bs ++ rest) = Some (bs, rest).
Proof. unfold read_exact. rewrite (proj2 (Nat.leb_le _ _)) by (rewrite length_app; lia). by rewrite take_app_length, drop_app_length. Qed.

Lemma read_exact_short n bs : (length bs < n)%nat → read_exact n bs = None.
Proof. intros Hn. unfold read_exact. by rewrite (proj2 (Nat.leb_gt _ _)). Qed.

Lemma read_exact_Some n bs hd tl : read_exact n bs = Some (hd, tl) → bs = hd ++ tl ∧ length hd = n.
Proof.
  unfold read_exact. destruct (Nat.leb_spec n (length bs)); [|done]. intros [= <- <-].
  by rewrite take_drop, length_take_le.
Qed.

Section frames.
Context `{LibraryLaws}.

(** The receiver on a header in range followed by enough bytes. *)
Lemma recv_header zc h wire rest max : header_ok h → has_unknown_flags h = false → h_length h = len wire → h_length h ≤ max →
  recv_frame zc (to_bytes h ++ wire ++ rest) max =
    (rest, decode_payload zc h wire (N.of_nat FRAME_HEADER_SIZE + h_length h)).
Proof.
  intros Hh Hf Hl Hm. unfold recv_frame. rewrite <- (length_to_bytes h), read_exact_app. rewrite from_to_bytes by done.
  rewrite Hf, (proj2 (N.ltb_ge _ _)) by done. unfold len in Hl. rewrite Hl, Nat2N.id, read_exact_app. done.
Qed.

Lemma decompress_compress bs : len bs ≤ MAX_DECOMPRESSED_SIZE → decompress_payload (compress_payload bs) = inl bs.
Proof.
  intros Hb. unfold decompress_payload, compress_payload.
  assert (Hlen : len (to_le_bytes (as_u32 (len bs)) ++ lz4_compress bs) <? 4 = false).
  { apply N.ltb_ge. unfold len. rewrite length_app. cbn [length to_le_bytes]. lia. }
  rewrite Hlen. change (take 4 (to_le_bytes (as_u32 (len bs)) ++ lz4_compress bs)) with (to_le_bytes (as_u32 (len bs))).
  change (drop 4 (to_le_bytes (as_u32 (len bs)) ++ lz4_compress bs)) with (lz4_compress bs).
  unfold MAX_DECOMPRESSED_SIZE in *. rewrite as_u32_small by (unfold u32_MAX; lia).
  rewrite le_round_trip by (unfold u32_MAX; lia). rewrite (proj2 (N.ltb_ge _ _)) by done. by rewrite lz4_law.
Qed.

(** What a payload decodes to once its checksum is right. *)
Definition decode_clear (zc : bool) (h : FrameHeader) (bs : list N) (total : N) : (Message * N) + ProtocolError :=
  if zc && is_archived h then decode_archive_payload bs total
  else match decode bs with inl (m, _) => inl (m, total) | inr e => inr (Deserialize e) end.

Lemma decode_frame zc bs th flags payload flags' : maybe_compress bs th flags = (payload, flags') →
  flags = 0 ∨ flags = FLAG_ARCHIVED → (flags' ≠ flags → len bs ≤ MAX_DECOMPRESSED_SIZE) →
  let h := mkHeader (len payload) (crc32c bs) flags' in
  (has_unknown_flags h = false ∧ flags' < 256 ∧ is_archived h = (flags =? FLAG_ARCHIVED)) ∧
  ∀ total, decode_payload zc h payload total = decode_clear zc h bs total.
Proof.
  unfold maybe_compress. intros Hm Hf Hd. cbv zeta.
  destruct ((th <=? len bs) && negb (th =? usize_MAX)); injection Hm as <- <-.
  - split; [destruct Hf as [->| ->]; split_and!; done|]. intros total. unfold decode_payload, decode_clear.
    assert (Hc : is_compressed (mkHeader (len (compress_payload bs)) (crc32c bs) (N.lor flags FLAG_COMPRESSED)) = true)
      by (destruct Hf as [->| ->]; done).
    rewrite Hc, andb_false_r, decompress_compress by (apply Hd; destruct Hf as [->| ->]; done).
    cbn [h_checksum]. by rewrite N.eqb_refl.
  - split; [destruct Hf as [->| ->]; split_and!; done|]. intros total. unfold decode_payload, decode_clear.
    assert (Hc : is_compressed (mkHeader (len bs) (crc32c bs) flags) = false) by (destruct Hf as [->| ->]; done).
    rewrite Hc, andb_true_r. cbn [h_checksum]. rewrite N.eqb_refl. by destruct (zc && _).
Qed.

(** A frame built from [bs] is read back as [bs]. *)
Lemma recv_frame_of zc bs th flags payload flags' frame n max rest : maybe_compress bs th flags = (payload, flags') →
  flags = 0 ∨ flags = FLAG_ARCHIVED → (flags' ≠ flags → len bs ≤ MAX_DECOMPRESSED_SIZE) →
  frame_of bs payload flags' = inl (frame, n) → len payload ≤ max →
  n = len frame ∧ ∃ h, is_archived h = (flags =? FLAG_ARCHIVED) ∧ recv_frame zc (frame ++ rest) max = (rest, decode_clear zc h bs n).
Proof.
  intros Hm Hf Hd Hfr Hmax. destruct (decode_frame zc bs th flags payload flags' Hm Hf Hd) as [(Hu & Hlt & Har) Hdec].
  unfold frame_of in Hfr. destruct (N.ltb_spec u32_MAX (len payload)); [done|].
  set (h := mkHeader (len payload) (crc32c bs) flags') in *.
  assert (Hfr' : to_bytes h ++ payload = frame ∧ N.of_nat FRAME_HEADER_SIZE + len payload = n) by (split; congruence).
  destruct Hfr' as [<- <-]. split.
  - unfold len. rewrite length_app, length_to_bytes. lia.
  - exists h. split; [done|]. rewrite <- app_assoc. rewrite recv_header; [|split_and!|..]; cbn [h h_length h_checksum h_flags]; try done.
    + by rewrite Hdec.
    + apply crc_law.
Qed.

Lemma encode_total m : sendable m → ∃ r, encode m = Done r.
Proof. intros (w & Hw & _)%traverse_round_trip. unfold encode. rewrite Hw. by eexists. Qed.

Lemma encode_decode m bs : sendable m → encode m = Done (inl bs) → decode bs = inl (wire_form m, len bs).
Proof.
  intros (w & Hw & Hi)%traverse_round_trip. unfold encode, decode. rewrite Hw. cbn [mbind outcome_bind]. intros [= E].
  by rewrite (bincode_law w bs E), Hi.
Qed.

(** The payload of a frame that the sender hands to the wire. *)
Definition fits (m : Message) (th max : N) : Prop :=
  ∀ bs, encode m = Done (inl bs) →
    let '(payload, flags) := maybe_compress bs th 0 in
    len payload ≤ max ∧ (flags ≠ 0 → len bs ≤ MAX_DECOMPRESSED_SIZE).

(** What sending one message comes to. *)
Lemma send_inv m th : sendable m → ∃ r, send_frame_with_threshold m th = Done r ∧
  match r with
  | inl (frame, n) => ∃ bs, encode m = Done (inl bs) ∧
      let '(payload, flags) := maybe_compress bs th 0 in frame_of bs payload flags = inl (frame, n)
  | inr e => (∃ e', e = Serialize e') ∨ e = PayloadTooLarge u32_MAX u32_MAX
  end.
Proof.
  intros (r & E)%encode_total. unfold send_frame_with_threshold. rewrite E. cbn [mbind outcome_bind].
  destruct r as [bs|e]; [|eexists; split; [reflexivity|left; by eexists]].
  destruct (maybe_compress bs th 0) as [payload flags] eqn:Em. eexists. split; [reflexivity|].
  destruct (frame_of bs payload flags) as [[frame n]|e] eqn:Ef; [exists bs; by rewrite Em|].
  unfold frame_of in Ef. destruct (u32_MAX <? _); [|done]. injection Ef as <-. by right.
Qed.

Lemma send_recv zc m th frame n max rest : sendable m → send_frame_with_threshold m th = Done (inl (frame, n)) → fits m th max →
  n = len frame ∧ recv_frame zc (frame ++ rest) max = (rest, inl (wire_form m, n)).
Proof.
  intros Hs E Hfit. destruct (send_inv m th Hs) as (r & E' & Hr). rewrite E in E'. injection E' as <-.
  destruct Hr as (bs & Hb & Hfr). specialize (Hfit bs Hb). destruct (maybe_compress bs th 0) as [payload flags] eqn:Em.
  destruct Hfit as [Hmax Hd].
  destruct (recv_frame_of zc bs th 0 payload flags frame n max rest Em (or_introl eq_refl) Hd Hfr Hmax) as (Hn & h & Har & ->).
  split; [done|]. unfold decode_clear. rewrite Har. cbn [N.eqb FLAG_ARCHIVED]. rewrite andb_false_r.
  by rewrite (encode_decode m bs Hs Hb).
Qed.

(** ** A connection *)

(** The frames of [ms] one after the other, and the reading of [n] frames. *)
Fixpoint send_all (ms : list Message) (th : N) : outcome (list N + ProtocolError) :=
  match ms with
  | [] => mret (inl [])
  | m :: ms =>
      sent ← send_frame_with_threshold m th;
      match sent with
      | inr e => mret (inr e)
      | inl (frame, _) =>
          more ← send_all ms th;
          mret (match more with inl bs => inl (frame ++ bs) | inr e => inr e end)
      end
  end.

Fixpoint recv_all (zc : bool) (n : nat) (reader : list N) (max : N) : (list Message * list N) + ProtocolError :=
  match n with
  | O => inl ([], reader)
  | S n =>
      match recv_frame zc reader max with
      | (_, inr e) => inr e
      | (reader, inl (m, _)) => match recv_all zc n reader max with inl (ms, rest) => inl (m :: ms, rest) | inr e => inr e end
      end
  end.

(** C14. Framing delimits, and what arrives is what was sent up to the compact
    form.  Take messages whose partitions, if they carry one, have a well-formed
    net with its free ids in the arena, and whose frames are within the
    receiver's limits (a payload of at most the maximum, a compressed one of at
    most a gibibyte unpacked).  Sending them over one connection does not
    panic; it fails only with the library's encoding error or for a payload
    beyond [u32::MAX]; and otherwise the receiver reads, from the bytes followed
    by anything, exactly these messages in order and leaves the rest, with and
    without compression, in both builds.  A message without a partition arrives
    as it is; in a partition, the fields of the net that are not serialised
    (redirects, id range, border shadow, round flags, counters) are at their
    defaults and everything else is as it was. *)
Theorem frames_round_trip zc ms th max rest : Forall sendable ms → Forall (λ m, fits m th max) ms →
  match send_all ms th with
  | Panic => False
  | Done (inr e) => (∃ e', e = Serialize e') ∨ e = PayloadTooLarge u32_MAX u32_MAX
  | Done (inl bs) => recv_all zc (length ms) (bs ++ rest) max = inl (wire_form <$> ms, rest)
  end.
Proof.
  intros Hs Hf. induction ms as [|m ms IH]; [done|].
  apply Forall_cons in Hs as [Hm Hs]. apply Forall_cons in Hf as [Hfm Hf]. specialize (IH Hs Hf).
  cbn [send_all length recv_all]. destruct (send_inv m th Hm) as (r & E & Hr). rewrite E. cbn [mbind outcome_bind].
  destruct r as [[frame n]|e]; [|exact Hr]. destruct (send_all ms th) as [[bs|e]|]; cbn [mbind outcome_bind mret outcome_ret]; [|done|done].
  destruct (send_recv zc m th frame n max (bs ++ rest) Hm E Hfm) as [_ Hrecv]. rewrite <- app_assoc, Hrecv.
  by rewrite IH.
Qed.

(** The zero-copy path: an archived hot-path message, compressed or not, is
    read back by a zero-copy receiver, provided that an archived result does
    not validate as an archived assignment (the receiver tries that schema
    first, and no tag tells them apart); every other message takes the ordinary
    path and the sender never panics. *)
Theorem archive_round_trip m use_archive th max rest : sendable m → fits m th max →
  (∀ bs, archive_bytes m = Some (inl bs) →
    (let '(payload, flags) := maybe_compress bs th FLAG_ARCHIVED in
     len payload ≤ max ∧ (flags ≠ FLAG_ARCHIVED → len bs ≤ MAX_DECOMPRESSED_SIZE)) ∧
    (match m with PartitionResult _ _ _ => access_assign bs = None | _ => True end)) →
  match send_frame_v2 m use_archive th with
  | Panic => False
  | Done (inl (frame, n)) => n = len frame ∧ recv_frame true (frame ++ rest) max = (rest, inl (wire_form m, n))
  | Done (inr e) => (∃ e', e = Serialize e') ∨ (∃ e', e = ArchiveValidationFailed (SerializeArchive e')) ∨
      e = PayloadTooLarge u32_MAX u32_MAX
  end.
Proof.
  intros Hs Hfit Har. unfold send_frame_v2. destruct (negb use_archive || negb (is_hot_path_message m)) eqn:Ehot.
  - destruct (send_inv m th Hs) as (r & E & Hr). rewrite E. destruct r as [[frame n]|e]; [by apply (send_recv true m th)|].
    destruct Hr as [?| ->]; auto.
  - apply orb_false_iff in Ehot as [_ Hhot%negb_false_iff].
    destruct (archive_bytes m) as [[bs|e]|] eqn:E; [|right; left; by eexists|by destruct m].
    destruct (Har bs eq_refl) as [Har' Hdis]. destruct (maybe_compress bs th FLAG_ARCHIVED) as [payload flags] eqn:Em.
    destruct Har' as [Hmax Hd]. destruct (frame_of bs payload flags) as [[frame n]|e] eqn:Ef.
    + destruct (recv_frame_of true bs th FLAG_ARCHIVED payload flags frame n max rest Em (or_intror eq_refl) Hd Ef Hmax)
        as (Hn & h & Hh & ->). split; [done|]. unfold decode_clear. rewrite Hh. cbn [N.eqb FLAG_ARCHIVED Pos.eqb andb].
      unfold decode_archive_payload. destruct m; try done; cbn [archive_bytes] in E; injection E as E.
      * by rewrite (assign_law _ _ _ E).
      * by rewrite Hdis, (result_law _ _ _ _ E).
    + unfold frame_of in Ef. destruct (u32_MAX <? _); [|done]. injection Ef as <-. auto.
Qed.
End frames.

(** ** What the receiver accepts *)

Section receive.
Context `{Libraries}.

Definition unpack (h : FrameHeader) (wire : list N) : list N + DecompressionReason :=
  if is_compressed h then decompress_payload wire else inl wire.

(** The fast path for uncompressed archives does what the general path does. *)
Lemma decode_payload_unpack zc h wire total : decode_payload zc h wire total =
  match unpack h wire with
  | inr e => inr (DecompressionFailed e)
  | inl payload => if crc32c payload =? h_checksum h then decode_clear zc h payload total
                   else inr (ChecksumMismatch (h_checksum h) (crc32c payload))
  end.
Proof.
  unfold decode_payload, unpack, decode_clear. destruct (is_compressed h); cbn [negb]; [by rewrite andb_false_r|].
  rewrite andb_true_r. by destruct (zc && is_archived h).
Qed.

(** A whole frame at the head of the reader: header [h], payload [wire]. *)
Definition framed (reader : list N) (h : FrameHeader) (wire rest : list N) : Prop :=
  ∃ hd, reader = hd ++ wire ++ rest ∧ length hd = FRAME_HEADER_SIZE ∧ h = from_bytes hd ∧ h_length h = len wire.

Lemma recv_frame_cases zc reader max :
  (length reader < FRAME_HEADER_SIZE)%nat ∧ recv_frame zc reader max = ([], inr ConnectionLost) ∨
  ∃ hd tl, reader = hd ++ tl ∧ length hd = FRAME_HEADER_SIZE ∧ let h := from_bytes hd in
    if has_unknown_flags h then recv_frame zc reader max = (tl, inr (UnknownFlags (h_flags h)))
    else if max <? h_length h then recv_frame zc reader max = (tl, inr (PayloadTooLarge (h_length h) max))
    else if len tl <? h_length h then recv_frame zc reader max = ([], inr ConnectionLost)
    else ∃ wire rest, tl = wire ++ rest ∧ h_length h = len wire ∧
      recv_frame zc reader max = (rest, decode_payload zc h wire (N.of_nat FRAME_HEADER_SIZE + len wire)).
Proof.
  unfold recv_frame. destruct (read_exact FRAME_HEADER_SIZE reader) as [[hd tl]|] eqn:E.
  - right. apply read_exact_Some in E as [-> Hl]. exists hd, tl. split; [done|]. split; [done|]. cbv zeta.
    destruct (has_unknown_flags (from_bytes hd)); [done|]. destruct (N.ltb_spec max (h_length (from_bytes hd))); [done|].
    destruct (N.ltb_spec (len tl) (h_length (from_bytes hd))) as [Hlt|Hge].
    + unfold len in Hlt. by rewrite read_exact_short by lia.
    + destruct (read_exact (N.to_nat (h_length (from_bytes hd))) tl) as [[wire rest]|] eqn:E.
      * apply read_exact_Some in E as [-> Hw]. exists wire, rest. assert (Hhl : h_length (from_bytes hd) = len wire) by (unfold len; lia).
        split; [done|]. split; [done|]. by rewrite Hhl.
      * unfold read_exact, len in *. destruct (Nat.leb_spec (N.to_nat (h_length (from_bytes hd))) (length tl)); [done|lia].
  - left. unfold read_exact in E. destruct (Nat.leb_spec FRAME_HEADER_SIZE (length reader)); [done|]. done.
Qed.

(** C15. The receiver, case by case.  A message is returned only for a whole
    frame without reserved flags and within the limit whose unpacked payload has
    the announced checksum, and exactly that frame is consumed; reserved flags
    and oversized lengths are refused before any payload byte is read, in that
    order; a short connection, a bad block, a wrong checksum and an undecodable
    payload give their own errors, and no other error arises. *)
Theorem recv_frame_exact zc reader max :
  match recv_frame zc reader max with
  | (rest, inl (m, n)) => ∃ h wire payload, framed reader h wire rest ∧ has_unknown_flags h = false ∧ h_length h ≤ max ∧
      n = 9 + len wire ∧ unpack h wire = inl payload ∧ crc32c payload = h_checksum h ∧ decode_clear zc h payload n = inl (m, n)
  | (rest, inr (UnknownFlags flags)) => rest = drop 9 reader ∧ flags = h_flags (from_bytes (take 9 reader)) ∧ N.land flags FLAG_RESERVED ≠ 0
  | (rest, inr (PayloadTooLarge size mx)) => rest = drop 9 reader ∧ mx = max ∧ max < size ∧
      size = h_length (from_bytes (take 9 reader)) ∧ has_unknown_flags (from_bytes (take 9 reader)) = false
  | (rest, inr ConnectionLost) => rest = [] ∧
      ((length reader < 9)%nat ∨ len reader < 9 + h_length (from_bytes (take 9 reader)) ∧ h_length (from_bytes (take 9 reader)) ≤ max)
  | (rest, inr (DecompressionFailed e)) => ∃ h wire, framed reader h wire rest ∧ is_compressed h = true ∧ decompress_payload wire = inr e
  | (rest, inr (ChecksumMismatch expected computed)) => ∃ h wire payload, framed reader h wire rest ∧ unpack h wire = inl payload ∧
      expected = h_checksum h ∧ computed = crc32c payload ∧ expected ≠ computed
  | (rest, inr (Deserialize e)) => ∃ h wire payload, framed reader h wire rest ∧ unpack h wire = inl payload ∧
      crc32c payload = h_checksum h ∧ decode payload = inr e
  | (rest, inr (ArchiveValidationFailed e)) => zc = true ∧ ∃ h wire payload, framed reader h wire rest ∧ is_archived h = true ∧
      unpack h wire = inl payload ∧ crc32c payload = h_checksum h
  | (_, inr (Serialize _)) => False
  end.
Proof.
  destruct (recv_frame_cases zc reader max) as [[Hl ->]|(hd & tl & -> & Hl & Hc)]; [split; [done|by left]|].
  assert (Htake : take 9 (hd ++ tl) = hd ∧ drop 9 (hd ++ tl) = tl).
  { change 9%nat with FRAME_HEADER_SIZE. rewrite <- Hl. by rewrite take_app_length, drop_app_length. }
  destruct Htake as [Ht Hd]. rewrite ?Ht, ?Hd. cbv zeta in Hc. destruct (has_unknown_flags (from_bytes hd)) eqn:Ef.
  { rewrite Hc, ?Ht, ?Hd. split; [done|]. split; [done|]. apply negb_true_iff, N.eqb_neq in Ef. done. }
  destruct (N.ltb_spec max (h_length (from_bytes hd))) as [Hm|Hm]; [rewrite Hc, ?Ht, ?Hd; done|].
  destruct (N.ltb_spec (len tl) (h_length (from_bytes hd))) as [Hs|Hs].
  { rewrite Hc, ?Ht. split; [done|]. right. split; [|done]. unfold len in *. rewrite length_app, Hl. unfold FRAME_HEADER_SIZE. lia. }
  destruct Hc as (wire & rest & -> & Hw & ->).
  assert (Hfr : framed (hd ++ wire ++ rest) (from_bytes hd) wire rest) by (by exists hd).
  revert Hfr Ef Hm. generalize (hd ++ wire ++ rest) (from_bytes hd). clear - H. intros reader h Hfr Ef Hm.
  rewrite decode_payload_unpack. change (N.of_nat FRAME_HEADER_SIZE) with 9. destruct (unpack h wire) as [payload|e] eqn:Eu.
  - destruct (N.eqb_spec (crc32c payload) (h_checksum h)) as [Hcrc|Hcrc].
    + destruct (decode_clear zc h payload (9 + len wire)) as [[m n]|e] eqn:Ed.
      * assert (n = 9 + len wire) as ->; [|by exists h, wire, payload].
        unfold decode_clear, decode_archive_payload in Ed. repeat case_match; simplify_eq; done.
      * unfold decode_clear, decode_archive_payload in Ed. destruct (zc && is_archived h) eqn:Ez.
        -- apply andb_prop in Ez as [-> Har]. repeat case_match; simplify_eq; (split; [done|]); by exists h, wire, payload.
        -- destruct (decode payload) as [[m k]|e'] eqn:Eb; [done|]. injection Ed as <-. by exists h, wire, payload.
    + exists h, wire, payload. by split_and!.
  - exists h, wire. unfold unpack in Eu. destruct (is_compressed h); done.
Qed.
End receive.

(** A frame cut short is never taken for a message: every strict prefix of a
    frame the sender produced leaves the receiver with a lost connection. *)
Theorem truncated_frame_is_lost `{LibraryLaws} zc m th frame n max cut :
  send_frame_with_threshold m th = Done (inl (frame, n)) → fits m th max → (cut < length frame)%nat →
  recv_frame zc (take cut frame) max = ([], inr ConnectionLost).
Proof.
  unfold send_frame_with_threshold, fits. destruct (encode m) as [[bs|e]|] eqn:E; [|done..]. cbn [mbind outcome_bind].
  destruct (maybe_compress bs th 0) as [payload flags] eqn:Em. intros [= Hfr] Hfit Hcut.
  specialize (Hfit bs eq_refl). rewrite Em in Hfit. destruct Hfit as [Hmax Hd].
  destruct (decode_frame zc bs th 0 payload flags Em (or_introl eq_refl) Hd) as [(Hu & Hlt & _) _].
  unfold frame_of in Hfr. destruct (N.ltb_spec u32_MAX (len payload)); [done|].
  set (h := mkHeader (len payload) (crc32c bs) flags) in *.
  assert (Hfr' : to_bytes h ++ payload = frame) by congruence. clear Hfr. subst frame. rewrite length_app in Hcut.
  assert (Hh : header_ok h) by (split_and!; [done|apply crc_law|done]).
  destruct (recv_frame_cases zc (take cut (to_bytes h ++ payload)) max) as [[_ ?]|(hd & tl & Ecut & Hl & Hc)]; [done|].
  assert (Hhd : hd = to_bytes h ∧ tl = take (cut - 9) payload ∧ (9 ≤ cut)%nat).
  { rewrite take_app in Ecut. assert (Hlc : length (take cut (to_bytes h)) = FRAME_HEADER_SIZE).
    { assert (Htl : length (take cut (to_bytes h ++ payload)) = length (hd ++ tl)) by (by rewrite take_app, Ecut).
      rewrite length_take, length_app, length_to_bytes in *. rewrite length_app in Htl. lia. }
    apply app_inj_1 in Ecut as [E1 E2]; [|by rewrite Hlc]. rewrite length_take, length_to_bytes in Hlc.
    rewrite take_ge in E1 by (rewrite length_to_bytes; lia). rewrite length_to_bytes in E2.
    split; [done|]. split; [done|]. unfold FRAME_HEADER_SIZE in Hlc. lia. }
  destruct Hhd as (-> & -> & Hge). cbv zeta in Hc. rewrite from_to_bytes in Hc by done. rewrite Hu in Hc.
  change (h_length h) with (len payload) in Hc. rewrite (proj2 (N.ltb_ge _ _) Hmax) in Hc.
  assert (Hlt' : len (take (cut - 9) payload) < len payload).
  { unfold len. rewrite length_take. rewrite length_to_bytes in Hcut. unfold FRAME_HEADER_SIZE in Hcut. lia. }
  by rewrite (proj2 (N.ltb_lt _ _) Hlt') in Hc.
Qed.

(** The sender bounds the payload by [u32::MAX], the receiver by one gibibyte
    once decompressed: a message whose encoding is longer is sent without error
    and rejected on arrival, and no retry can succeed. *)
Theorem oversized_message_undeliverable `{LibraryLaws} zc m th bs max rest :
  encode m = Done (inl bs) → MAX_DECOMPRESSED_SIZE < len bs ≤ u32_MAX → th ≤ len bs → th ≠ usize_MAX →
  len (compress_payload bs) ≤ max → max ≤ u32_MAX →
  ∃ frame n, send_frame_with_threshold m th = Done (inl (frame, n)) ∧
    recv_frame zc (frame ++ rest) max = (rest, inr (DecompressionFailed (ExceedsCap (len bs) MAX_DECOMPRESSED_SIZE))).
Proof.
  intros He [Hbig Hu] Hth Hnm Hmax Hm. unfold send_frame_with_threshold. rewrite He. cbn [mbind outcome_bind]. unfold maybe_compress.
  rewrite (proj2 (N.leb_le _ _) Hth), (proj2 (N.eqb_neq _ _) Hnm). cbn [negb andb]. unfold frame_of.
  rewrite (proj2 (N.ltb_ge _ _)) by lia. eexists _, _. split; [reflexivity|].
  set (h := mkHeader (len (compress_payload bs)) (crc32c bs) (N.lor 0 FLAG_COMPRESSED)).
  rewrite <- app_assoc, recv_header; [|split_and!; [exact (N.le_trans _ _ _ Hmax Hm)|apply crc_law|done]|done|done|done]. f_equal.
  rewrite decode_payload_unpack. unfold unpack. change (is_compressed h) with true. cbn iota.
  unfold decompress_payload, compress_payload.
  assert (Hlen : len (to_le_bytes (as_u32 (len bs)) ++ lz4_compress bs) <? 4 = false).
  { apply N.ltb_ge. unfold len. rewrite length_app. cbn [length to_le_bytes]. lia. }
  rewrite Hlen. change (take 4 (to_le_bytes (as_u32 (len bs)) ++ lz4_compress bs)) with (to_le_bytes (as_u32 (len bs))).
  rewrite as_u32_small, le_round_trip by done. by rewrite (proj2 (N.ltb_lt _ _)).
Qed.

(** ** Libraries for concrete runs *)

#[local] Instance DebugFields_eq_dec : EqDecision DebugFields.
Proof. solve_decision. Defined.
#[local] Instance Net_eq_dec : EqDecision Net.
Proof. solve_decision. Defined.
#[local] Instance Partition_eq_dec : EqDecision Partition.
Proof. solve_decision. Defined.

#[local] Instance LiveSlot_eq_dec : EqDecision LiveSlot.
Proof. solve_decision. Defined.
#[local] Instance CompactSubnet_eq_dec : EqDecision CompactSubnet.
Proof. solve_decision. Defined.
#[local] Instance WirePartition_eq_dec : EqDecision WirePartition.
Proof. solve_decision. Defined.

(** A worker's partition: a constructor on three borders, in a net that knows
    its id range. *)
Definition carried : Partition :=
  mkPartition
    (mkNet [Some (mkAgent Con 0)] [FreePort 0; FreePort 1; FreePort 2] [] 1 None ∅ [] (Some (0, 8)) None DisableUnderDelta
       false false debug_fields_init)
    1 {[0 := AgentPort 0 0; 1 := AgentPort 0 1; 2 := AgentPort 0 2]} (mkIdRange 0 8) 0 3.

Definition carried_wire : WirePartition :=
  default (mkWirePartition (mkCompact 0 [] [] 0 None []) 0 ∅ (mkIdRange 0 0) 0 0)
    (match deflate carried with Done w => Some w | Panic => None end).

(** A codec of four messages, a compression that changes nothing and a checksum
    that adds the bytes; the one partition with an archive is the empty one. *)
#[local] Instance toy : Libraries := {|
  EncodeError := unit; DecodeError := unit; Lz4Error := unit; RkyvError := unit;
  bincode_encode m := match m with
    | AssignPartition r w => if decide (w = carried_wire) then inl [0; r; 7; 7] else inr tt
    | Shutdown => inl [1] | LeaveAck => inl [15] | NoMoreWork => inl [18; 7; 7; 7; 7; 7; 7; 7] | _ => inr tt end;
  bincode_decode bs := match bs with
    | [0; r; 7; 7] => inl (AssignPartition r carried_wire, 4)
    | [1] => inl (Shutdown, 1) | [15] => inl (LeaveAck, 1)
    | [18; 7; 7; 7; 7; 7; 7; 7] => inl (NoMoreWork, 8) | _ => inr tt end;
  custom _ := tt;
  crc32c bs := as_u32 (foldr N.add 0 bs);
  lz4_compress bs := bs;
  lz4_decompress bs _ := inl bs;
  archive_assign r p := if decide (p = empty_partition 0) then inl [0; r] else inr tt;
  archive_result r p s := inr tt;
  access_assign bs := match bs with [0; r] => Some (inl (r, empty_partition 0)) | _ => None end;
  access_result _ := None;
|}.

#[local] Instance toy_laws : LibraryLaws.
Proof.
  split; cbn [bincode_encode bincode_decode lz4_decompress lz4_compress crc32c archive_assign archive_result access_assign access_result toy].
  - intros m bs. destruct m; try discriminate; try (intros [= <-]; reflexivity).
    destruct (decide (partition = carried_wire)) as [->|]; [|discriminate]. intros [= <-]. reflexivity.
  - reflexivity.
  - intros bs. unfold as_u32, u32_MAX. pose proof (N.mod_upper_bound (foldr N.add 0 bs) 4294967296). lia.
  - intros r p bs. destruct (decide (p = empty_partition 0)) as [->|]; [|intros [=]]. intros [= <-]. reflexivity.
  - intros r p st bs [=].
Qed.

Lemma carried_sendable r : sendable (AssignPartition r carried).
Proof.
  intros p Hp. cbn in Hp. subst p. split; [apply wf_b_sound; vm_compute; reflexivity|]. intros id Hid. change (free_list _) with (@nil AgentId) in Hid. by apply elem_of_nil in Hid.
Qed.

Lemma frames_round_trip_witness :
  (∃ bs, send_all [Shutdown; AssignPartition 3 carried; LeaveAck] 4 = Done (inl bs) ∧
    recv_all false 3 (bs ++ [42]) 100 = inl ([Shutdown; AssignPartition 3 (at_rest carried); LeaveAck], [42])) ∧
  id_range (subnet carried) = Some (0, 8) ∧ id_range (subnet (at_rest carried)) = None ∧
  agents (subnet (at_rest carried)) = [Some (mkAgent Con 0)].
Proof.
  split; [|split; [reflexivity|split; reflexivity]].
  pose proof (frames_round_trip false [Shutdown; AssignPartition 3 carried; LeaveAck] 4 100 [42]) as H.
  assert (Hs : match send_all [Shutdown; AssignPartition 3 carried; LeaveAck] 4 with Done (inl _) => true | _ => false end = true)
    by (vm_compute; reflexivity).
  destruct (send_all [Shutdown; AssignPartition 3 carried; LeaveAck] 4) as [[bs|e]|]; [|discriminate Hs|discriminate Hs].
  exists bs. split; [reflexivity|]. apply H.
  - apply Forall_cons. split; [intros p []|]. apply Forall_cons. split; [apply carried_sendable|].
    apply Forall_cons. split; [intros p []|]. apply Forall_nil_2.
  - repeat (apply Forall_cons; split; [intros b Hb; vm_compute in Hb; injection Hb as <-; vm_compute;
      split; [discriminate|intros _; discriminate]|]). apply Forall_nil_2.
Defined.

Lemma archive_round_trip_witness :
  match send_frame_v2 (AssignPartition 5 (empty_partition 0)) true 2 with
  | Done (inl (frame, n)) => n = len frame ∧ recv_frame true (frame ++ [9; 9]) 100 = ([9; 9], inl (AssignPartition 5 (empty_partition 0), n))
  | _ => False
  end.
Proof.
  pose proof (archive_round_trip (AssignPartition 5 (empty_partition 0)) true 2 100 [9; 9]) as Hr.
  assert (Hok : match send_frame_v2 (AssignPartition 5 (empty_partition 0)) true 2 with Done (inl _) => true | _ => false end = true)
    by (vm_compute; reflexivity).
  destruct (send_frame_v2 (AssignPartition 5 (empty_partition 0)) true 2) as [[[frame n]|e]|]; [|discriminate Hok|discriminate Hok].
  apply Hr.
  - intros p Hp. cbn in Hp. subst p. split; [apply wf_b_sound; vm_compute; reflexivity|]. intros id Hid. change (free_list _) with (@nil AgentId) in Hid. by apply elem_of_nil in Hid.
  - intros bs Hb. vm_compute in Hb. discriminate Hb.
  - intros bs Ha. assert (bs = [0; 5]) as -> by (vm_compute in Ha; congruence).
    vm_compute. split; [split; [discriminate|intros _; discriminate]|exact I].
Defined.

Lemma truncated_frame_is_lost_witness :
  ∃ frame n, send_frame_with_threshold NoMoreWork 4 = Done (inl (frame, n)) ∧ length frame = 21%nat ∧
    recv_frame false (take 20 frame) 100 = ([], inr ConnectionLost).
Proof.
  eexists _, _. split; [vm_compute; reflexivity|]. split; [reflexivity|].
  eapply (truncated_frame_is_lost false NoMoreWork 4); [vm_compute; reflexivity| |cbn; lia].
  intros bs [= <-]; vm_compute; split; [discriminate|intros _; discriminate].
Defined.

(** A library whose encoding of [LeaveAck] is longer than the receiver accepts
    and whose compression is perfect on it. *)
Definition big : list N := replicate (N.to_nat (MAX_DECOMPRESSED_SIZE + 1)) 0.

Lemma len_big : len big = MAX_DECOMPRESSED_SIZE + 1.
Proof. unfold len, big. by rewrite length_replicate, N2Nat.id. Qed.

#[local] Opaque big.

#[local] Instance vast : Libraries := {|
  EncodeError := unit; DecodeError := unit; Lz4Error := unit; RkyvError := unit;
  bincode_encode m := match m with LeaveAck => inl big | _ => inr tt end;
  bincode_decode bs := if decide (bs = big) then inl (LeaveAck, len big) else inr tt;
  custom _ := tt;
  crc32c bs := 0;
  lz4_compress bs := if decide (bs = big) then [1] else 0 :: bs;
  lz4_decompress bs _ := match bs with [] => inr tt | 0 :: bs => inl bs | _ => inl big end;
  archive_assign r p := inr tt;
  archive_result r p s := inr tt;
  access_assign _ := None;
  access_result _ := None;
|}.

#[local] Instance vast_laws : LibraryLaws (H := vast).
Proof.
  split; cbn [bincode_encode bincode_decode lz4_decompress lz4_compress crc32c archive_assign archive_result vast].
  - intros m bs. destruct m; intros He; try discriminate He. assert (bs = big) as -> by congruence. by rewrite decide_True.
  - intros bs. destruct (decide (bs = big)) as [->|]; reflexivity.
  - intros bs. unfold u32_MAX. lia.
  - intros r p bs He. discriminate He.
  - intros r p s bs He. discriminate He.
Qed.

Lemma oversized_message_undeliverable_witness :
  ∃ frame n, send_frame_with_threshold (H := vast) LeaveAck 1024 = Done (inl (frame, n)) ∧
    recv_frame (H := vast) false (frame ++ []) 100 =
      ([], inr (DecompressionFailed (ExceedsCap (len big) MAX_DECOMPRESSED_SIZE))).
Proof.
  pose proof len_big as Hb. unfold MAX_DECOMPRESSED_SIZE in Hb.
  assert (Hc : len (compress_payload (H := vast) big) = 5).
  { unfold compress_payload. cbn [lz4_compress vast]. rewrite decide_True by reflexivity. reflexivity. }
  apply (oversized_message_undeliverable (H := vast) (H0 := vast_laws) false LeaveAck 1024 big 100 []).
  - reflexivity.
  - unfold MAX_DECOMPRESSED_SIZE, u32_MAX. lia.
  - lia.
  - intros He. discriminate He.
  - rewrite Hc. lia.
  - unfold u32_MAX. lia.
Defined.
