(* ===== verification/Retained.v ===== *)
(** The registry of retained partitions (protocol/retained.rs): what the
    coordinator keeps of each worker for recovery. *)
From S2P Require Import Prelude NetTypes NetCore Partition.
Local Open Scope N_scope.

Module Retained.

(** [RetainedInitial] and [RetainedLastAcked]; both have a [V1] in the source. *)
Inductive RetainedInitial : Type := InitialV1 (p : Partition) | InitialDelta (p : Partition).
Inductive RetainedLastAcked : Type := AckedV1 (p : Partition) | DeltaLight | DeltaCheckpoint (p : Partition).

Definition partition (r : RetainedInitial) : Partition := match r with InitialV1 p | InitialDelta p => p end.

Record RetainedStateRegistry : Type := mkRegistry {
  initial : gmap WorkerId RetainedInitial;
  last_acked : gmap WorkerId RetainedLastAcked;
}.

Definition new : RetainedStateRegistry := mkRegistry ∅ ∅.

(** [entry(w).or_insert_with(..)] with the empty partition. *)
Definition or_insert_empty (worker_id : WorkerId) (m : gmap WorkerId RetainedInitial) : gmap WorkerId RetainedInitial :=
  match m !! worker_id with
  | Some _ => m
  | None => <[worker_id := InitialV1 (empty_partition worker_id)]> m
  end.

Definition register_initial (r : RetainedStateRegistry) (worker_id : WorkerId) (p : option Partition) : RetainedStateRegistry :=
  mkRegistry (match p with
              | Some p => <[worker_id := InitialV1 p]> (initial r)
              | None => or_insert_empty worker_id (initial r)
              end) (last_acked r).

Definition refresh_last_acked (r : RetainedStateRegistry) (worker_id : WorkerId) (state : RetainedLastAcked)
    : RetainedStateRegistry :=
  mkRegistry (or_insert_empty worker_id (initial r)) (<[worker_id := state]> (last_acked r)).

Definition release_worker (r : RetainedStateRegistry) (worker_id : WorkerId) : RetainedStateRegistry :=
  mkRegistry (delete worker_id (initial r)) (delete worker_id (last_acked r)).

(** The debug assertions of [assert_memory_bounds]. *)
Definition memory_bounds (r : RetainedStateRegistry) (k_eff : nat) : bool :=
  (size (initial r) <=? 2 * k_eff)%nat && (size (last_acked r) <=? k_eff)%nat.

End Retained.
