(* ===== verification/RetainedSpec.v ===== *)
(** What the registry of retained partitions holds after any history of its
    operations. *)
From S2P Require Import Prelude NetTypes NetCore Partition Retained.
Local Open Scope N_scope.
Import Retained.

(** ** Histories *)

Inductive operation : Type :=
| Register (w : WorkerId) (p : option Partition)
| Refresh (w : WorkerId) (state : RetainedLastAcked)
| Release (w : WorkerId).

Definition apply (r : RetainedStateRegistry) (o : operation) : RetainedStateRegistry :=
  match o with
  | Register w p => register_initial r w p
  | Refresh w state => refresh_last_acked r w state
  | Release w => release_worker r w
  end.

Definition run (ops : list operation) : RetainedStateRegistry := foldl apply new ops.

(** What concerns worker [w] since its last release. *)
Definition since (w : WorkerId) (ops : list operation) : list operation :=
  foldl (λ l o, match o with
    | Register v _ | Refresh v _ => if decide (v = w) then l ++ [o] else l
    | Release v => if decide (v = w) then [] else l
    end) [] ops.

Definition registered (o : operation) : option Partition := match o with Register _ p => p | _ => None end.
Definition refreshed (o : operation) : option RetainedLastAcked := match o with Refresh _ st => Some st | _ => None end.

(** The slots of [w] as a function of its history. *)
Definition initial_of (w : WorkerId) (h : list operation) : option RetainedInitial :=
  match h with
  | [] => None
  | _ => Some (InitialV1 (default (empty_partition w) (last (omap registered h))))
  end.
Definition acked_of (h : list operation) : option RetainedLastAcked := last (omap refreshed h).

Definition matches (r : RetainedStateRegistry) (w : WorkerId) (h : list operation) : Prop :=
  initial r !! w = initial_of w h ∧ last_acked r !! w = acked_of h.

Lemma initial_of_snoc w h o : initial_of w (h ++ [o]) =
  match registered o with
  | Some p => Some (InitialV1 p)
  | None => match initial_of w h with Some r => Some r | None => Some (InitialV1 (empty_partition w)) end
  end.
Proof.
  assert (Hne : ∀ x : option RetainedInitial, match h ++ [o] with [] => None | _ => x end = x) by (by destruct h).
  unfold initial_of at 1. rewrite Hne, omap_app. cbn [omap list_omap]. destruct (registered o) as [p|].
  - by rewrite last_snoc.
  - rewrite app_nil_r. by destruct h.
Qed.

Lemma acked_of_snoc h o : acked_of (h ++ [o]) = match refreshed o with Some st => Some st | None => acked_of h end.
Proof.
  unfold acked_of. rewrite omap_app. cbn [omap list_omap]. destruct (refreshed o); [apply last_snoc|by rewrite app_nil_r].
Qed.

Lemma or_insert_lookup v m w : or_insert_empty v m !! w =
  if decide (v = w) then match m !! w with Some r => Some r | None => Some (InitialV1 (empty_partition w)) end else m !! w.
Proof.
  unfold or_insert_empty. destruct (decide (v = w)) as [->|Hn].
  - destruct (m !! w) eqn:E; [done|]. apply lookup_insert_eq.
  - destruct (m !! v); [done|]. by apply lookup_insert_ne.
Qed.

Lemma apply_matches r w h o : matches r w h →
  matches (apply r o) w (match o with
    | Register v _ | Refresh v _ => if decide (v = w) then h ++ [o] else h
    | Release v => if decide (v = w) then [] else h end).
Proof.
  intros [Hi Ha]. destruct o as [v p|v st|v]; unfold matches; cbn [apply register_initial refresh_last_acked release_worker initial last_acked].
  - destruct (decide (v = w)) as [->|Hn].
    + rewrite initial_of_snoc, acked_of_snoc. cbn [registered refreshed]. split; [|done]. destruct p as [p|].
      * apply lookup_insert_eq.
      * by rewrite or_insert_lookup, decide_True, Hi.
    + split; [|done]. destruct p; [by rewrite lookup_insert_ne|]. by rewrite or_insert_lookup, decide_False.
  - rewrite or_insert_lookup, lookup_insert. destruct (decide (v = w)) as [->|Hn]; [|done].
    rewrite initial_of_snoc, acked_of_snoc. cbn [registered refreshed]. by rewrite Hi.
  - rewrite !lookup_delete. by destruct (decide (v = w)).
Qed.

Lemma run_matches ops w : matches (run ops) w (since w ops).
Proof.
  induction ops as [|o ops IH] using rev_ind; [by split|]. unfold run, since. rewrite !foldl_snoc.
  by apply (apply_matches _ _ _ o) in IH.
Qed.

Lemma acked_registered ops : dom (last_acked (run ops)) ⊆ dom (initial (run ops)).
Proof.
  intros w. rewrite !elem_of_dom. destruct (run_matches ops w) as [-> ->]. unfold acked_of, initial_of.
  destruct (since w ops); [by intros [? ?]|]. intros _. by eexists.
Qed.

(** After any history the registry holds for each worker exactly what the
    operations since its last release say: the latest partition registered, an
    empty one when none was, nothing for a worker that was never mentioned, and
    the latest acknowledged state.  So a worker with an acknowledged state always
    has an initial one, and the acknowledged slots are never more than the
    initial ones. *)
Theorem registry_exact ops :
  (∀ w, initial (run ops) !! w = initial_of w (since w ops) ∧ last_acked (run ops) !! w = acked_of (since w ops)) ∧
  dom (last_acked (run ops)) ⊆ dom (initial (run ops)) ∧ (size (last_acked (run ops)) ≤ size (initial (run ops)))%nat.
Proof.
  pose proof (acked_registered ops) as Hsub.
  split; [intros w; apply run_matches|]. split; [done|]. rewrite <- !size_dom. by apply subseteq_size.
Qed.

(** The assertions hold while at most [k_eff] workers are registered. *)
Lemma memory_bounds_hold ops k_eff :
  (size (dom (initial (run ops))) ≤ k_eff)%nat → memory_bounds (run ops) k_eff = true.
Proof.
  intros Hk. rewrite size_dom in Hk. unfold memory_bounds.
  pose proof (acked_registered ops) as Hsub. apply subseteq_size in Hsub. rewrite !size_dom in Hsub.
  rewrite andb_true_iff, !Nat.leb_le. lia.
Qed.
