(* ===== verification/Lambda.v ===== *)
(** The codec of the lambda calculus (encoding/codec_lambda.rs): the parser and
    the printer of terms, their encoding as nets and the readback.  A text is
    the list of its Unicode scalar values; the byte positions of the parser only
    occur in error messages.  The JSON envelopes of the codec are left out. *)
From S2P Require Import Prelude NetTypes NetCore.
From Stdlib Require Import DecimalN.
Local Open Scope N_scope.

Module Lambda.

Inductive Term : Type :=
| Var (name : list N)
| Lam (name : list N) (body : Term)
| App (f a : Term).

#[export] Instance Term_eq_dec : EqDecision Term.
Proof. solve_decision. Defined.

(** ** Characters *)

Definition in_range (lo hi c : N) : bool := (lo <=? c) && (c <=? hi).
Definition is_alphabetic (c : N) : bool := in_range 65 90 c || in_range 97 122 c.
Definition is_alphanumeric (c : N) : bool := is_alphabetic c || in_range 48 57 c.

(** [char::is_whitespace]. *)
Definition is_whitespace (c : N) : bool :=
  in_range 9 13 c || in_range 8192 8202 c ||
  existsb (N.eqb c) [32; 133; 160; 5760; 8232; 8233; 8239; 8287; 12288].

(** λ, \, (, ), ., _, space *)
Definition LAMBDA : N := 955.
Definition BACKSLASH : N := 92.
Definition LPAREN : N := 40.
Definition RPAREN : N := 41.
Definition DOT : N := 46.
Definition UNDERSCORE : N := 95.
Definition SPACE : N := 32.
(** "lambda" *)
Definition keyword : list N := [108; 97; 109; 98; 100; 97].

Definition ident_start (c : N) : bool := is_alphabetic c || (c =? UNDERSCORE).
Definition ident_char (c : N) : bool := is_alphanumeric c || (c =? UNDERSCORE).

(** ** Parsing

    A parse is [None] when out of fuel, else an error or a value with the rest
    of the input. *)
Definition parse (A : Type) : Type := option ((A * list N) + unit).

Definition bind_parse {A B} (p : parse A) (f : A → list N → parse B) : parse B :=
  match p with
  | None => None
  | Some (inr e) => Some (inr e)
  | Some (inl (a, rest)) => f a rest
  end.
Definition ok {A} (a : A) (rest : list N) : parse A := Some (inl (a, rest)).
Definition fail {A} : parse A := Some (inr tt).

Fixpoint skip_ws (r : list N) : list N :=
  match r with
  | c :: r' => if is_whitespace c then skip_ws r' else r
  | [] => []
  end.

Definition consume (c : N) (r : list N) : option (list N) :=
  match r with x :: r' => if x =? c then Some r' else None | [] => None end.

(** The longest prefix of identifier characters. *)
Fixpoint span_ident (r : list N) : list N * list N :=
  match r with
  | c :: r' => if ident_char c then let '(name, rest) := span_ident r' in (c :: name, rest) else ([], r)
  | [] => ([], [])
  end.

Definition parse_ident (r : list N) : option (list N * list N) :=
  match skip_ws r with
  | c :: r' => if ident_start c then let '(name, rest) := span_ident r' in Some (c :: name, rest) else None
  | [] => None
  end.

Fixpoint strip_prefix (p r : list N) : option (list N) :=
  match p, r with
  | [], _ => Some r
  | a :: p, c :: r => if a =? c then strip_prefix p r else None
  | _ :: _, [] => None
  end.

(** The rest of the input after the keyword. *)
Definition at_lambda_keyword (r : list N) : option (list N) :=
  match strip_prefix keyword r with
  | None => None
  | Some rest => match rest with
                 | [] => Some rest
                 | c :: _ => if ident_char c then None else Some rest
                 end
  end.

(** The three ways to open an abstraction. *)
Definition open_binder (r : list N) : option (list N) :=
  match consume LAMBDA r with
  | Some r' => Some r'
  | None => match consume BACKSLASH r with
            | Some r' => Some r'
            | None => at_lambda_keyword r
            end
  end.

Fixpoint parse_atom (fuel : nat) (r : list N) : parse Term :=
  match fuel with
  | O => None
  | S fuel =>
      let r := skip_ws r in
      match open_binder r with
      | Some r' =>
          match parse_ident r' with
          | None => fail
          | Some (name, r') =>
              match consume DOT (skip_ws r') with
              | None => fail
              | Some r' => bind_parse (parse_term_from fuel r') (λ body r', ok (Lam name body) r')
              end
          end
      | None =>
          match consume LPAREN r with
          | Some r' =>
              bind_parse (parse_term_from fuel r') (λ t r',
                match consume RPAREN (skip_ws r') with Some r' => ok t r' | None => fail end)
          | None => match parse_ident r with Some (name, r') => ok (Var name) r' | None => fail end
          end
      end
  end
with parse_term_from (fuel : nat) (r : list N) : parse Term :=
  match fuel with
  | O => None
  | S fuel => bind_parse (parse_atom fuel r) (parse_rest fuel)
  end
with parse_rest (fuel : nat) (left : Term) (r : list N) : parse Term :=
  match fuel with
  | O => None
  | S fuel =>
      let r := skip_ws r in
      match r with
      | [] => ok left r
      | c :: _ =>
          if c =? RPAREN then ok left r
          else bind_parse (parse_atom fuel r) (λ right r', parse_rest fuel (App left right) r')
      end
  end.

Definition parse_fuel (input : list N) : nat := 3 * length input + 2.

Definition parse_term (input : list N) : parse Term :=
  bind_parse (parse_term_from (parse_fuel input) input) (λ t r,
    match skip_ws r with [] => ok t [] | _ => fail end).

(** ** Printing *)

Definition paren (b : bool) (s : list N) : list N := if b then [LPAREN] ++ s ++ [RPAREN] else s.
Definition is_lam (t : Term) : bool := match t with Lam _ _ => true | _ => false end.
Definition is_var (t : Term) : bool := match t with Var _ => true | _ => false end.

Fixpoint print_into (t : Term) (app_ctx : bool) : list N :=
  match t with
  | Var name => name
  | Lam name body => paren app_ctx ([LAMBDA] ++ name ++ [DOT; SPACE] ++ print_into body false)
  | App f a => paren (is_lam f) (print_into f false) ++ [SPACE] ++ paren (negb (is_var a)) (print_into a false)
  end.

Definition print_term (t : Term) : list N := print_into t false.

(** ** Encoding *)

Fixpoint count_uses (t : Term) (name : list N) : nat :=
  match t with
  | Var n => if decide (n = name) then 1 else 0
  | Lam x body => if decide (x = name) then 0 else count_uses body name
  | App f a => count_uses f name + count_uses a name
  end.

(** [k] duplicators, each on the second auxiliary port of the one before. *)
Fixpoint dup_chain (k : nat) (n : Net) (current : PortRef) : outcome (Net * list PortRef) :=
  match k with
  | O => mret (n, [current])
  | S k =>
      '(n, dup) ← create_agent n Dup;
      let n := connect n current (AgentPort dup 0) in
      '(n, leaves) ← dup_chain k n (AgentPort dup 2);
      mret (n, AgentPort dup 1 :: leaves)
  end.

Definition build_binder_chain (n : Net) (root : PortRef) (uses : nat) : outcome (Net * list PortRef) :=
  match uses with
  | O => '(n, era) ← create_agent n Era; mret (connect n root (AgentPort era 0), [])
  | S O => mret (n, [root])
  | S k => dup_chain k n root
  end.

(** The leaves are kept in the order they are consumed; the stack's top is the
    head. *)
Record EncodeCtx : Type := mkEncodeCtx {
  bindings : gmap (list N) (list (list PortRef));
  next_free_port : N;
}.

Definition push_binding (c : EncodeCtx) (name : list N) (leaves : list PortRef) : EncodeCtx :=
  mkEncodeCtx (<[name := leaves :: default [] (bindings c !! name)]> (bindings c)) (next_free_port c).

Definition pop_binding (c : EncodeCtx) (name : list N) : EncodeCtx :=
  match bindings c !! name with
  | Some stack =>
      mkEncodeCtx (match tail stack with
                   | [] => delete name (bindings c)
                   | stack => <[name := stack]> (bindings c)
                   end) (next_free_port c)
  | None => c
  end.

Definition consume_leaf (c : EncodeCtx) (name : list N) : option (PortRef * EncodeCtx) :=
  match bindings c !! name with
  | Some ((leaf :: leaves) :: stack) =>
      Some (leaf, mkEncodeCtx (<[name := leaves :: stack]> (bindings c)) (next_free_port c))
  | _ => None
  end.

Definition fresh_free_port (c : EncodeCtx) : N * EncodeCtx :=
  (next_free_port c, mkEncodeCtx (bindings c) (u32_succ (next_free_port c))).

Fixpoint encode_term (n : Net) (t : Term) (c : EncodeCtx) : outcome (Net * EncodeCtx * PortRef) :=
  match t with
  | Var name =>
      match consume_leaf c name with
      | Some (leaf, c) => mret (n, c, leaf)
      | None => let '(f, c) := fresh_free_port c in mret (n, c, FreePort f)
      end
  | Lam x body =>
      '(n, lam) ← create_agent n Con;
      '(n, leaves) ← build_binder_chain n (AgentPort lam 1) (count_uses body x);
      let c := push_binding c x leaves in
      '(n, c, body_port) ← encode_term n body c;
      let c := pop_binding c x in
      mret (connect n body_port (AgentPort lam 2), c, AgentPort lam 0)
  | App f a =>
      '(n, app) ← create_agent n Con;
      '(n, c, f_port) ← encode_term n f c;
      '(n, c, a_port) ← encode_term n a c;
      let n := connect n f_port (AgentPort app 0) in
      let n := connect n a_port (AgentPort app 2) in
      mret (n, c, AgentPort app 1)
  end.

Definition encode_lambda (t : Term) : outcome Net :=
  '(n, _, result) ← encode_term NetCore.new t (mkEncodeCtx ∅ 1);
  mret (connect n result (FreePort 0)).

(** ** Readback *)

Inductive ReadError : Type := DepthLimit | DeadAgent (id : AgentId) | UnexpectedEntry (id : AgentId) | Unhandled (s : Symbol) (p : PortId) | NoEntry.

Definition find_entry_port (n : Net) (fid : N) : option PortRef :=
  head (filter (λ r, get_target n r = FreePort fid)
    (live_agents n ≫= λ a, [AgentPort (agent_id a) 0; AgentPort (agent_id a) 1; AgentPort (agent_id a) 2])).

Record ReadbackCtx : Type := mkReadbackCtx {
  var_map : gmap (AgentId * PortId) (list N);
  counter : N;
}.

Definition MAX_READBACK_DEPTH : nat := N.to_nat 10000.

(** [format!("{}", n)]. *)
Fixpoint digits (u : Decimal.uint) : list N :=
  match u with
  | Decimal.Nil => []
  | Decimal.D0 u => 48 :: digits u | Decimal.D1 u => 49 :: digits u | Decimal.D2 u => 50 :: digits u
  | Decimal.D3 u => 51 :: digits u | Decimal.D4 u => 52 :: digits u | Decimal.D5 u => 53 :: digits u
  | Decimal.D6 u => 54 :: digits u | Decimal.D7 u => 55 :: digits u | Decimal.D8 u => 56 :: digits u
  | Decimal.D9 u => 57 :: digits u
  end.
Definition decimal (x : N) : list N := digits (N.to_uint x).

(** "v{}", "free_{}" and "_" *)
Definition v_name (k : N) : list N := 118 :: decimal k.
Definition free_name (k : N) : list N := [102; 114; 101; 101; 95] ++ decimal k.

Definition fresh_name (c : ReadbackCtx) : list N * ReadbackCtx := (v_name (counter c), mkReadbackCtx (var_map c) (counter c + 1)).

(** [room] is what [MAX_READBACK_DEPTH] leaves for the depth. *)
Fixpoint readback (room : nat) (n : Net) (port : PortRef) (c : ReadbackCtx) : (Term * ReadbackCtx) + ReadError :=
  match room with
  | O => inr DepthLimit
  | S room =>
      match port with
      | FreePort fid => inl (Var (free_name fid), c)
      | AgentPort id p =>
          match var_map c !! (id, p) with
          | Some name => inl (Var name, c)
          | None =>
              match get_agent n id with
              | None => inr (DeadAgent id)
              | Some agent =>
                  match symbol agent, p with
                  | Con, 0 =>
                      let '(name, c) := fresh_name c in
                      let c := mkReadbackCtx (<[(id, 1) := name]> (var_map c)) (counter c) in
                      match readback room n (get_target n (AgentPort id 2)) c with
                      | inr e => inr e
                      | inl (body, c) => inl (Lam name body, mkReadbackCtx (delete (id, 1) (var_map c)) (counter c))
                      end
                  | Con, 1 =>
                      match readback room n (get_target n (AgentPort id 0)) c with
                      | inr e => inr e
                      | inl (f, c) =>
                          match readback room n (get_target n (AgentPort id 2)) c with
                          | inr e => inr e
                          | inl (a, c) => inl (App f a, c)
                          end
                      end
                  | Con, 2 => inr (UnexpectedEntry id)
                  | Era, _ => inl (Var [UNDERSCORE], c)
                  | Dup, _ => readback room n (get_target n (AgentPort id 0)) c
                  | s, p => inr (Unhandled s p)
                  end
              end
          end
      end
  end.

Definition decode_lambda (n : Net) : Term + ReadError :=
  match find_entry_port n 0 with
  | None => inr NoEntry
  | Some entry =>
      match readback MAX_READBACK_DEPTH n entry (mkReadbackCtx ∅ 0) with
      | inl (t, _) => inl t
      | inr e => inr e
      end
  end.

End Lambda.
