(* ===== verification/LambdaText.v ===== *)
(** The text format of the lambda codec: the parser answers on every input, and
    the printer and the parser are inverse on exactly the terms whose names the
    grammar can carry. *)
From S2P Require Import Prelude Lambda.
Import Lambda.
Local Open Scope N_scope.

(** ** Characters and names *)

(** The names an identifier of the grammar can be. *)
Definition valid_name (name : list N) : bool :=
  match name with
  | c :: name => ident_start c && forallb ident_char name
  | [] => false
  end.

(** The terms the grammar can write: a variable may not be the keyword. *)
Fixpoint printable (t : Term) : bool :=
  match t with
  | Var name => valid_name name && negb (bool_decide (name = keyword))
  | Lam name body => valid_name name && printable body
  | App f a => printable f && printable a
  end.

(** An identifier ends here. *)
Definition boundary (s : list N) : Prop :=
  match s with [] => True | c :: _ => ident_char c = false end.
(** A term ends here. *)
Definition closes (s : list N) : Prop :=
  match s with [] => True | c :: _ => c = RPAREN end.

Ltac chars := unfold ident_start, ident_char, is_alphanumeric, is_alphabetic, is_whitespace,
  in_range, UNDERSCORE, LAMBDA, BACKSLASH, LPAREN, RPAREN, DOT, SPACE in *.

Lemma ident_start_char c : ident_start c = true → ident_char c = true.
Proof. chars. destruct (_ && _), (_ && _), (_ && _), (_ =? _); done. Qed.

Lemma ident_char_cases c : ident_char c = true → 48 ≤ c ≤ 57 ∨ 65 ≤ c ≤ 90 ∨ c = 95 ∨ 97 ≤ c ≤ 122.
Proof. chars. rewrite !orb_true_iff, !andb_true_iff, !N.leb_le, N.eqb_eq. lia. Qed.

Lemma ident_not_ws c : ident_char c = true → is_whitespace c = false.
Proof.
  intros Hc%ident_char_cases. apply not_true_iff_false. chars. cbn [existsb].
  rewrite !orb_true_iff, !andb_true_iff, !N.leb_le, !N.eqb_eq. intuition lia.
Qed.

Lemma valid_name_cons name :
  valid_name name = true → ∃ c name', name = c :: name' ∧ ident_start c = true ∧ ident_char c = true ∧ forallb ident_char name = true.
Proof.
  destruct name as [|c name]; [done|]. cbn. intros [Hc Hn]%andb_true_iff.
  pose proof (ident_start_char c Hc) as Hi. exists c, name. rewrite Hi. eauto.
Qed.

(** ** What the scanner consumes *)

Lemma skip_ws_length r : (length (skip_ws r) ≤ length r)%nat.
Proof. induction r as [|c r IH]; cbn; [lia|]. destruct (is_whitespace c); cbn; lia. Qed.

Lemma skip_ws_id c r : is_whitespace c = false → skip_ws (c :: r) = c :: r.
Proof. cbn. by intros ->. Qed.

Lemma skip_ws_idem r : skip_ws (skip_ws r) = skip_ws r.
Proof. induction r as [|c r IH]; cbn; [done|]. destruct (is_whitespace c) eqn:Hc; cbn; [done|]. by rewrite Hc. Qed.

Lemma skip_ws_closes s : closes s → skip_ws s = s.
Proof. by destruct s as [|c s]; cbn; [|intros ->]. Qed.

Lemma consume_Some c r r' : consume c r = Some r' ↔ r = c :: r'.
Proof.
  destruct r as [|x r]; cbn; [done|]. destruct (N.eqb_spec x c) as [->|]; split; congruence.
Qed.

Lemma strip_prefix_Some p r rest : strip_prefix p r = Some rest → r = p ++ rest.
Proof.
  revert r. induction p as [|a p IH]; intros [|c r]; cbn; try congruence.
  destruct (N.eqb_spec a c) as [->|]; [|done]. by intros ->%IH.
Qed.

Lemma at_lambda_keyword_Some r rest :
  at_lambda_keyword r = Some rest → r = keyword ++ rest ∧ boundary rest.
Proof.
  unfold at_lambda_keyword. destruct (strip_prefix keyword r) as [rest'|] eqn:E; [|done].
  apply strip_prefix_Some in E. destruct rest' as [|c rest']; [intros [= <-]; done|].
  destruct (ident_char c) eqn:Hc; intros [= <-]; done.
Qed.

Lemma strip_prefix_app p r : strip_prefix p (p ++ r) = Some r.
Proof. induction p as [|a p IH]; cbn; [done|]. by rewrite N.eqb_refl. Qed.

Lemma at_lambda_keyword_app rest : boundary rest → at_lambda_keyword (keyword ++ rest) = Some rest.
Proof.
  intros Hb. unfold at_lambda_keyword. rewrite strip_prefix_app.
  destruct rest as [|c rest]; [done|]. cbn in Hb. by rewrite Hb.
Qed.

Lemma span_ident_spec r name rest :
  span_ident r = (name, rest) → r = name ++ rest ∧ forallb ident_char name = true ∧ boundary rest.
Proof.
  revert name. induction r as [|c r IH]; intros name; cbn; [by intros [= <- <-]|].
  destruct (ident_char c) eqn:Hc; [|by intros [= <- <-]].
  destruct (span_ident r) as [n rest'] eqn:E. intros [= <- ->].
  destruct (IH n eq_refl) as (-> & Hn & Hb). cbn. by rewrite Hc.
Qed.

Lemma span_ident_app name s :
  forallb ident_char name = true → boundary s → span_ident (name ++ s) = (name, s).
Proof.
  induction name as [|c name IH]; cbn.
  - intros _. destruct s as [|c s]; cbn; [done|]. by intros ->.
  - intros [-> Hn]%andb_true_iff Hb. by rewrite IH.
Qed.

Lemma parse_ident_Some r name rest :
  parse_ident r = Some (name, rest) →
  skip_ws r = name ++ rest ∧ valid_name name = true ∧ boundary rest.
Proof.
  unfold parse_ident. destruct (skip_ws r) as [|c r'] eqn:E; [done|].
  destruct (ident_start c) eqn:Hc; [|done]. destruct (span_ident r') as [n s] eqn:Es. intros [= <- <-].
  destruct (span_ident_spec _ _ _ Es) as (-> & Hn & Hb). cbn. by rewrite Hc.
Qed.

Lemma parse_ident_app name s : valid_name name = true → boundary s → parse_ident (name ++ s) = Some (name, s).
Proof.
  intros Hv Hb. destruct (valid_name_cons _ Hv) as (c & n & -> & Hs & Hi & Hn).
  unfold parse_ident. cbn [app]. rewrite (skip_ws_id c) by by apply ident_not_ws. rewrite Hs.
  cbn in Hn. rewrite Hi in Hn. by rewrite span_ident_app.
Qed.

Lemma open_binder_length r r' : open_binder r = Some r' → (length r' < length r)%nat.
Proof.
  unfold open_binder. destruct (consume LAMBDA r) eqn:E1; [apply consume_Some in E1 as ->; intros [= <-]; cbn; lia|].
  destruct (consume BACKSLASH r) eqn:E2; [apply consume_Some in E2 as ->; intros [= <-]; cbn; lia|].
  intros [-> _]%at_lambda_keyword_Some. rewrite length_app. cbn. lia.
Qed.

Lemma parse_ident_length r name rest : parse_ident r = Some (name, rest) → (length rest < length r)%nat.
Proof.
  intros (E & Hv & _)%parse_ident_Some. pose proof (skip_ws_length r) as Hl. rewrite E, length_app in Hl.
  destruct (valid_name_cons _ Hv) as (c & n & -> & _). cbn in Hl. lia.
Qed.

Lemma consume_ws_length c r r' : consume c (skip_ws r) = Some r' → (length r' < length r)%nat.
Proof. intros E%consume_Some. pose proof (skip_ws_length r) as Hl. rewrite E in Hl. cbn in Hl. lia. Qed.

(** ** Termination *)

(** [p] answers, with a value only when it has consumed part of [r]. *)
Definition answers {A} (r : list N) (p : parse A) : Prop :=
  ∃ res, p = Some res ∧ ∀ a r', res = inl (a, r') → (length r' < length r)%nat.

Lemma answers_fail {A} r : answers r (fail : parse A).
Proof. by exists (inr tt). Qed.

Lemma answers_ok {A} r (a : A) r' : (length r' < length r)%nat → answers r (ok a r').
Proof. intros Hl. exists (inl (a, r')). split; [done|]. by intros ? ? [= <- <-]. Qed.

Lemma answers_bind {A B} r r0 (p : parse A) (f : A → list N → parse B) :
  answers r0 p → (∀ a r', (length r' < length r0)%nat → answers r (f a r')) → answers r (bind_parse p f).
Proof.
  intros (res & -> & Hl) Hf. destruct res as [[a r']|[]]; cbn; [by apply Hf, (Hl a r')|]. by exists (inr tt).
Qed.

Lemma parse_answers fuel :
  (∀ r, (3 * length r + 1 ≤ fuel)%nat → answers r (parse_atom fuel r)) ∧
  (∀ r, (3 * length r + 2 ≤ fuel)%nat → answers r (parse_term_from fuel r)) ∧
  (∀ t r r0, (3 * length r + 2 ≤ fuel)%nat → (length r < length r0)%nat → answers r0 (parse_rest fuel t r)).
Proof.
  induction fuel as [|fuel (IHa & IHt & IHr)]; [repeat split; lia|].
  repeat split; intros *; intros Hf; cbn [parse_atom parse_term_from parse_rest].
  - pose proof (skip_ws_length r) as Hs.
    destruct (open_binder (skip_ws r)) as [r1|] eqn:Eo.
    + apply open_binder_length in Eo. destruct (parse_ident r1) as [[name r2]|] eqn:Ei; [|apply answers_fail].
      apply parse_ident_length in Ei. destruct (consume DOT (skip_ws r2)) as [r3|] eqn:Ec; [|apply answers_fail].
      apply consume_ws_length in Ec. eapply answers_bind; [apply IHt; lia|]. intros. apply answers_ok. lia.
    + destruct (consume LPAREN (skip_ws r)) as [r1|] eqn:Ec.
      * apply consume_ws_length in Ec. eapply answers_bind; [apply IHt; lia|]. intros t r' Hr'.
        destruct (consume RPAREN (skip_ws r')) as [r2|] eqn:Ec'; [|apply answers_fail].
        apply consume_ws_length in Ec'. apply answers_ok. lia.
      * destruct (parse_ident (skip_ws r)) as [[name r2]|] eqn:Ei; [|apply answers_fail].
        apply parse_ident_length in Ei. apply answers_ok. lia.
  - eapply answers_bind; [apply IHa; lia|]. intros t r' Hr'. apply IHr; lia.
  - intros Hl. pose proof (skip_ws_length r) as Hs. destruct (skip_ws r) as [|c r1] eqn:E; [apply answers_ok; cbn; lia|].
    destruct (c =? RPAREN); [apply answers_ok; lia|].
    eapply answers_bind; [apply IHa; lia|]. intros t' r' Hr'. apply IHr; lia.
Qed.

(** ** The result does not depend on the fuel *)

Lemma bind_parse_mono {A B} (p p' : parse A) (f f' : A → list N → parse B) res :
  (∀ x, p = Some x → p' = Some x) → (∀ a r x, f a r = Some x → f' a r = Some x) →
  bind_parse p f = Some res → bind_parse p' f' = Some res.
Proof.
  intros Hp Hf. destruct p as [[[a r]|e]|]; cbn; [| |done]; intros E; rewrite (Hp _ eq_refl); cbn; auto.
Qed.

Lemma parse_mono fuel : ∀ fuel', (fuel ≤ fuel')%nat →
  (∀ r x, parse_atom fuel r = Some x → parse_atom fuel' r = Some x) ∧
  (∀ r x, parse_term_from fuel r = Some x → parse_term_from fuel' r = Some x) ∧
  (∀ t r x, parse_rest fuel t r = Some x → parse_rest fuel' t r = Some x).
Proof.
  induction fuel as [|fuel IH]; intros [|fuel'] Hle; [done|done|lia|].
  destruct (IH fuel' ltac:(lia)) as (IHa & IHt & IHr).
  repeat split; intros *; cbn [parse_atom parse_term_from parse_rest].
  - destruct (open_binder (skip_ws r)) as [r1|].
    + destruct (parse_ident r1) as [[name r2]|]; [|done].
      destruct (consume DOT (skip_ws r2)) as [r3|]; [|done]. apply bind_parse_mono; eauto.
    + destruct (consume LPAREN (skip_ws r)) as [r1|]; [|done]. apply bind_parse_mono; eauto.
  - apply bind_parse_mono; eauto.
  - destruct (skip_ws r) as [|c r1]; [done|]. destruct (c =? RPAREN); [done|].
    apply bind_parse_mono; eauto.
Qed.

(** ** Reading, whatever the fuel *)

Definition reads_atom (r : list N) (t : Term) (r' : list N) : Prop := ∃ fuel, parse_atom fuel r = ok t r'.
Definition reads_term (r : list N) (t : Term) (r' : list N) : Prop := ∃ fuel, parse_term_from fuel r = ok t r'.
Definition reads_rest (left : Term) (r : list N) (t : Term) (r' : list N) : Prop := ∃ fuel, parse_rest fuel left r = ok t r'.

Lemma reads_atom_then r t r' u r'' : reads_atom r t r' → reads_rest t r' u r'' → reads_term r u r''.
Proof.
  intros [f1 H1] [f2 H2]. exists (S (max f1 f2)). cbn [parse_term_from].
  destruct (parse_mono f1 (max f1 f2) ltac:(lia)) as (Ma & _ & _).
  destruct (parse_mono f2 (max f1 f2) ltac:(lia)) as (_ & _ & Mr).
  rewrite (Ma _ _ H1). cbn [bind_parse]. by apply Mr.
Qed.

Lemma reads_rest_stop t s : closes s → reads_rest t s t s.
Proof.
  intros Hs. exists 1%nat. cbn [parse_rest]. rewrite skip_ws_closes by done. destruct s as [|c s]; [done|].
  cbn in Hs. subst. by rewrite N.eqb_refl.
Qed.

Lemma reads_rest_more left r c r0 a r' u r'' :
  skip_ws r = c :: r0 → c ≠ RPAREN → reads_atom (c :: r0) a r' → reads_rest (App left a) r' u r'' → reads_rest left r u r''.
Proof.
  intros Hr Hc [f1 H1] [f2 H2]. exists (S (max f1 f2)). cbn [parse_rest]. rewrite Hr, (proj2 (N.eqb_neq _ _) Hc).
  destruct (parse_mono f1 (max f1 f2) ltac:(lia)) as (Ma & _ & _).
  destruct (parse_mono f2 (max f1 f2) ltac:(lia)) as (_ & _ & Mr).
  rewrite (Ma _ _ H1). cbn [bind_parse]. by apply Mr.
Qed.

(** Leading blanks are skipped. *)
Lemma reads_term_blank r t r' : reads_term r t r' → reads_term (SPACE :: r) t r'.
Proof.
  intros [[|[|fuel]] Hf]; [done..|]. exists (S (S fuel)). revert Hf. cbn [parse_term_from parse_atom].
  change (skip_ws (SPACE :: r)) with (skip_ws r). done.
Qed.

Lemma reads_atom_lambda name s body s' :
  valid_name name = true → reads_term s body s' →
  reads_atom (LAMBDA :: name ++ DOT :: s) (Lam name body) s'.
Proof.
  intros Hv [fuel Hf]. exists (S fuel). cbn [parse_atom].
  rewrite (skip_ws_id LAMBDA) by done. cbn [open_binder consume]. unfold open_binder. cbn [consume]. rewrite N.eqb_refl.
  rewrite parse_ident_app by done. rewrite (skip_ws_id DOT) by done. cbn [consume]. rewrite N.eqb_refl, Hf. done.
Qed.

Lemma reads_atom_paren s t s' s'' :
  reads_term s t s' → skip_ws s' = RPAREN :: s'' → reads_atom (LPAREN :: s) t s''.
Proof.
  intros [fuel Hf] Hs. exists (S fuel). cbn [parse_atom]. rewrite (skip_ws_id LPAREN) by done.
  change (open_binder (LPAREN :: s)) with (@None (list N)). cbn [consume]. rewrite N.eqb_refl, Hf. cbn [bind_parse ok].
  rewrite Hs. cbn [consume]. by rewrite N.eqb_refl.
Qed.

(** A name opens no abstraction unless it is the keyword. *)
Lemma open_binder_name name s :
  valid_name name = true → name ≠ keyword → boundary s → open_binder (name ++ s) = None.
Proof.
  intros Hv Hk Hb. destruct (valid_name_cons _ Hv) as (c & n & E & Hs & Hi & Hn).
  apply ident_char_cases in Hi. unfold open_binder.
  destruct (consume LAMBDA (name ++ s)) eqn:E1; [apply consume_Some in E1; rewrite E in E1; injection E1; unfold LAMBDA; lia|].
  destruct (consume BACKSLASH (name ++ s)) eqn:E2; [apply consume_Some in E2; rewrite E in E2; injection E2; unfold BACKSLASH; lia|].
  destruct (at_lambda_keyword (name ++ s)) as [rest|] eqn:E3; [|done]. exfalso. apply Hk.
  apply at_lambda_keyword_Some in E3 as [E3 Hb'].
  pose proof (span_ident_app name s Hn Hb) as S1. rewrite E3, span_ident_app in S1 by done. congruence.
Qed.

Lemma reads_atom_name name s :
  valid_name name = true → name ≠ keyword → boundary s → reads_atom (name ++ s) (Var name) s.
Proof.
  intros Hv Hk Hb. exists 1%nat. cbn [parse_atom].
  destruct (valid_name_cons _ Hv) as (c & n & E & Hs & Hi & Hn).
  assert (Hw : skip_ws (name ++ s) = name ++ s).
  { rewrite E. cbn [app]. apply skip_ws_id. by apply ident_not_ws. }
  rewrite Hw, open_binder_name by done.
  destruct (consume LPAREN (name ++ s)) eqn:E1.
  { apply consume_Some in E1. rewrite E in E1. apply ident_char_cases in Hi. injection E1. unfold LPAREN. lia. }
  by rewrite parse_ident_app.
Qed.

(** ** Reading what was printed *)

Lemma print_head t : printable t = true →
  ∃ c r, print_into t false = c :: r ∧ is_whitespace c = false ∧ c ≠ RPAREN.
Proof.
  induction t as [name|name body _|f IHf a _]; cbn [printable print_into].
  - intros [Hv _]%andb_true_iff. destruct (valid_name_cons _ Hv) as (c & n & -> & _ & Hi & _).
    exists c, n. split; [done|]. split; [by apply ident_not_ws|]. apply ident_char_cases in Hi. unfold RPAREN. lia.
  - intros _. cbn. by eexists _, _.
  - intros [Hf _]%andb_true_iff. destruct (IHf Hf) as (c & r & -> & Hw & Hr).
    destruct (is_lam f); cbn; by eexists _, _.
Qed.

(** The operand of an application. *)
Lemma reads_operand (b : bool) t s :
  (∀ s, closes s → reads_term (print_into t false ++ s) t s) →
  (b = false → reads_atom (print_into t false ++ s) t s) →
  reads_atom (paren b (print_into t false) ++ s) t s.
Proof.
  intros Hf Ha. destruct b; [|by apply Ha]. cbn [paren]. cbn [app]. rewrite <- app_assoc.
  eapply reads_atom_paren; [apply Hf; done|done].
Qed.

Lemma reads_print t : printable t = true →
  (∀ s, closes s → reads_term (print_into t false ++ s) t s) ∧
  (is_lam t = false → ∀ s u s', boundary s → reads_rest t s u s' → reads_term (print_into t false ++ s) u s').
Proof.
  induction t as [name|name body IH|f IHf a IHa]; cbn [printable print_into is_lam].
  - intros [Hv Hk%negb_true_iff%bool_decide_eq_false]%andb_true_iff.
    assert (Hspine : ∀ s u s', boundary s → reads_rest (Var name) s u s' → reads_term (name ++ s) u s').
    { intros s u s' Hb. by apply reads_atom_then, reads_atom_name. }
    split; [|auto]. intros s Hs. apply Hspine; [|by apply reads_rest_stop]. by destruct s; [|cbn in *; subst].
  - intros [Hv Hb]%andb_true_iff. split; [|done]. intros s Hs. destruct (IH Hb) as [Hfull _].
    eapply reads_atom_then; [|by apply reads_rest_stop]. cbn [paren]. cbn [app]. rewrite <- app_assoc. cbn [app].
    apply reads_atom_lambda; [done|]. by apply reads_term_blank, Hfull.
  - intros [Hf Ha]%andb_true_iff. destruct (IHf Hf) as [Ff Sf], (IHa Ha) as [Fa Sa].
    destruct (print_head a Ha) as (c & r & Ea & Hw & Hc).
    assert (Hspine : ∀ s u s', boundary s → reads_rest (App f a) s u s' →
      reads_term ((paren (is_lam f) (print_into f false) ++ [SPACE] ++ paren (negb (is_var a)) (print_into a false)) ++ s) u s').
    { intros s u s' Hb Hu. rewrite <- !app_assoc. cbn [app]. set (s0 := SPACE :: _).
      assert (Hr : reads_rest f s0 u s').
      { assert (Hat : reads_atom (paren (negb (is_var a)) (print_into a false) ++ s) a s).
        { apply reads_operand; [done|]. destruct a as [n| |]; [|done..]. intros _. cbn in Ha |- *.
          apply andb_true_iff in Ha as [Hv Hk%negb_true_iff%bool_decide_eq_false]. by apply reads_atom_name. }
        unfold s0. destruct (negb (is_var a)) eqn:Ev; cbn [paren] in *.
        - eapply (reads_rest_more f _ LPAREN); [by cbn|done|exact Hat|done].
        - rewrite Ea in *. eapply (reads_rest_more f _ c); [|done|exact Hat|done]. cbn. by rewrite Hw. }
      destruct (is_lam f) eqn:El; [|by apply Sf].
      eapply reads_atom_then; [|exact Hr]. by apply reads_operand. }
    split; [|auto]. intros s Hs. apply Hspine; [|by apply reads_rest_stop]. by destruct s; [|cbn in *; subst].
Qed.

(** ** What is read is printable *)

Definition reads_printable (p : parse Term) : Prop := ∀ t r, p = ok t r → printable t = true.

Lemma bind_parse_ok {A B} (p : parse A) (f : A → list N → parse B) b r' :
  bind_parse p f = ok b r' → ∃ a r, p = ok a r ∧ f a r = ok b r'.
Proof. destruct p as [[[a r]|e]|]; cbn; [|done..]. by exists a, r. Qed.

Lemma parse_printable fuel :
  (∀ r, reads_printable (parse_atom fuel r)) ∧
  (∀ r, reads_printable (parse_term_from fuel r)) ∧
  (∀ t r, printable t = true → reads_printable (parse_rest fuel t r)).
Proof.
  induction fuel as [|fuel (IHa & IHt & IHr)]; [done|].
  split; [|split]; intros *; cbn [parse_atom parse_term_from parse_rest].
  - intros t r'. destruct (open_binder (skip_ws r)) as [r1|] eqn:Eo.
    + destruct (parse_ident r1) as [[name r2]|] eqn:Ei; [|done]. apply parse_ident_Some in Ei as (_ & Hv & _).
      destruct (consume DOT (skip_ws r2)) as [r3|]; [|done].
      intros (b & r4 & Hb%IHt & [= <- <-])%bind_parse_ok. cbn. by rewrite Hv.
    + destruct (consume LPAREN (skip_ws r)) as [r1|].
      * intros (b & r4 & Hb%IHt & E)%bind_parse_ok. by destruct (consume RPAREN (skip_ws r4)); [injection E as <- <-|].
      * destruct (parse_ident (skip_ws r)) as [[name r2]|] eqn:Ei; [|done]. intros [= <- <-].
        apply parse_ident_Some in Ei as (E & Hv & Hb). rewrite skip_ws_idem in E. cbn. rewrite Hv. cbn.
        apply negb_true_iff, bool_decide_eq_false. intros ->. rewrite E in Eo. unfold open_binder in Eo. cbn [app keyword consume] in Eo.
        change (108 =? LAMBDA) with false in Eo. change (108 =? BACKSLASH) with false in Eo.
        change (at_lambda_keyword (keyword ++ r2) = None) in Eo. by rewrite at_lambda_keyword_app in Eo.
  - intros t r'. intros (a & r1 & Ha%IHa & Hr)%bind_parse_ok. by eapply IHr.
  - intros Ht u r'. destruct (skip_ws r) as [|c r1]; [by intros [= <- <-]|]. destruct (c =? RPAREN); [by intros [= <- <-]|].
    intros (a & r2 & Ha%IHa & Hr)%bind_parse_ok. eapply IHr; [|done]. cbn. by rewrite Ht, Ha.
Qed.

(** ** The parser and the printer *)

Lemma parse_term_ok input t rest : parse_term input = ok t rest → rest = [] ∧ printable t = true.
Proof.
  unfold parse_term. intros (u & r & Hu%parse_printable & E)%bind_parse_ok.
  destruct (skip_ws r); [|done]. by injection E as <- <-.
Qed.

Lemma parse_print_ok t : printable t = true → parse_term (print_term t) = ok t [].
Proof.
  intros Ht. destruct (reads_print t Ht) as [Hfull _]. destruct (Hfull [] I) as [fuel Hf]. rewrite app_nil_r in Hf. fold (print_term t) in Hf.
  destruct (parse_answers (parse_fuel (print_term t))) as (_ & Hat & _).
  destruct (Hat (print_term t) ltac:(unfold parse_fuel; lia)) as (res & Hres & _).
  unfold parse_term. rewrite Hres. set (m := max fuel (parse_fuel (print_term t))).
  destruct (parse_mono fuel m ltac:(lia)) as (_ & M1 & _).
  destruct (parse_mono (parse_fuel (print_term t)) m ltac:(lia)) as (_ & M2 & _).
  apply M1 in Hf. apply M2 in Hres. by replace res with (@inl (Term * list N) unit (t, [])) by congruence.
Qed.

(** The printer and the parser are inverse on exactly the terms the grammar
    can carry: names that are identifiers, and no variable called [lambda]. *)
Theorem parse_print_exact t : parse_term (print_term t) = ok t [] ↔ printable t = true.
Proof. split; [by intros [_ Hp]%parse_term_ok|apply parse_print_ok]. Qed.

(** The parser answers on every text: either an error, or a term that its
    own printing parses back to, the whole text consumed. *)
Theorem parse_term_total input :
  ∃ res, parse_term input = Some res ∧
    ∀ t rest, res = inl (t, rest) → rest = [] ∧ parse_term (print_term t) = ok t [].
Proof.
  destruct (parse_answers (parse_fuel input)) as (_ & Hat & _).
  destruct (Hat input ltac:(unfold parse_fuel; lia)) as (res & Hres & _).
  assert (∃ res', parse_term input = Some res') as [res' E].
  { unfold parse_term. rewrite Hres. destruct res as [[t r]|e]; cbn; [|by eexists].
    destruct (skip_ws r); by eexists. }
  exists res'. split; [done|]. intros t rest ->.
  destruct (parse_term_ok _ _ _ E) as [-> Hp]. split; [done|]. by apply parse_print_ok.
Qed.
