(* ===== verification/LambdaBuild.v ===== *)
(** Building a net wire by wire: the ledger of the ports still to be wired, what
    a creation and a connection do to it, and what a net keeps while it grows. *)
From S2P Require Import Prelude NetTypes NetCore NetInv.
Local Open Scope N_scope.
Open Scope net_scope.

(** ** A net that grows *)

(** Agents and wires stay as they are. *)
Record grew (n n' : Net) : Prop := {
  gw_agent : ∀ id a, get_agent n id = Some a → get_agent n' id = Some a;
  gw_wire : ∀ b q, q < 3 → n.[b, q] ≠ DISCONNECTED → n'.[b, q] = n.[b, q];
}.

#[export] Instance grew_preorder : PreOrder grew.
Proof.
  split; [by split|]. intros a b c [A1 W1] [A2 W2]. split; [by eauto|].
  intros x q Hq Hne. rewrite W2; [by apply W1|done|by rewrite W1].
Qed.

Lemma grew_wire n n' b q t : grew n n' → n.[b, q] = t → t ≠ DISCONNECTED → q < 3 → n'.[b, q] = t.
Proof. intros [_ W] E Hne Hq. rewrite W by congruence. done. Qed.

(** ** The ledger *)

(** The agent ports among the ends of a wire. *)
Definition open_end (r : PortRef) : list PortRef :=
  match r with AgentPort _ _ => [r] | FreePort _ => [] end.

(** [O] lists the ports of [n] with nothing attached, once each. *)
Record ledger (n : Net) (O : list PortRef) : Prop := {
  lg_wf : wf n;
  lg_nodup : NoDup O;
  lg_open : ∀ r, r ∈ O ↔ ∃ b q, r = AgentPort b q ∧ valid_port n b q ∧ n.[b, q] = DISCONNECTED;
}.

#[export] Instance ledger_proper n : Proper ((≡ₚ) ==> iff) (ledger n).
Proof.
  assert (∀ O O', O ≡ₚ O' → ledger n O → ledger n O') as H.
  { intros O O' HO [W D F]. split; [done|by rewrite <- HO|]. intros r. rewrite <- HO. apply F. }
  intros O O' HO. split; by apply H.
Qed.

Lemma ledger_new : ledger new [].
Proof.
  split.
  - split; try done; cbn; try lia; try constructor; try set_solver.
  - constructor.
  - intros r. split; [set_solver|]. intros (b & q & _ & (a & Ha & _) & _). done.
Qed.

Lemma ledger_free_end n O r : ledger n O → r ∈ O → free_end n r.
Proof. intros Hb Hr. apply (lg_open n O Hb) in Hr as (b & q & -> & Hv & Hd). by split. Qed.

Lemma ledger_app_not n O a b : ledger n (open_end a ++ open_end b ++ O) →
  free_end n a ∧ free_end n b ∧ apart a b ∧ a ∉ O ∧ b ∉ O.
Proof.
  intros Hb. pose proof (lg_nodup _ _ Hb) as Hnd.
  assert (Hf : ∀ r, r ∈ open_end a ++ open_end b ++ O → free_end n r) by (intros r; by apply ledger_free_end).
  assert (Hno : ∀ f, FreePort f ∉ O).
  { intros f Hin. destruct (proj1 (lg_open _ _ Hb (FreePort f)) ltac:(set_solver)) as (? & ? & ? & _). done. }
  destruct a as [ia pa|fa], b as [ib pb|fb]; cbn [open_end app] in *; rewrite ?NoDup_cons in Hnd.
  - split_and!; [apply Hf; set_solver|apply Hf; set_solver| |set_solver|set_solver].
    intros id p [= <- <-] [= -> ->]. set_solver.
  - split_and!; [apply Hf; set_solver|done|by intros|set_solver|auto].
  - split_and!; [done|apply Hf; set_solver|by intros|auto|set_solver].
  - split_and!; [done|done|by intros|auto|auto].
Qed.

(** A creation adds the ports of the new agent. *)
Lemma ledger_create n O s n' id : ledger n O → create_agent n s = Done (n', id) →
  ledger n' ((AgentPort id <$> range_u (total_ports s)) ++ O) ∧ grew n n' ∧
  get_agent n id = None ∧ get_agent n' id = Some (mkAgent s id) ∧ next_id n' ≤ next_id n + 1.
Proof.
  intros Hb Hc. pose proof (lg_wf _ _ Hb) as Hwf.
  destruct (create_agent_spec n s n' id Hwf Hc) as [W Dead _ Ag Tg _ Nx _ _ _].
  assert (Hid : get_agent n' id = Some (mkAgent s id)) by (rewrite Ag; by rewrite decide_True).
  assert (Hold : ∀ x, x ≠ id → get_agent n' x = get_agent n x) by (intros x Hx; rewrite Ag; by rewrite decide_False).
  split; [|split; [split|split_and!; [done|done|lia]]].
  - split; [done| |].
    + apply NoDup_app. split; [|split; [|apply (lg_nodup _ _ Hb)]].
      * apply NoDup_fmap_2; [intros ? ?; congruence|apply range_u_nodup].
      * intros r (p & -> & _)%list_elem_of_fmap Hin. apply (lg_open _ _ Hb) in Hin as (b & q & [= <- <-] & Hv & _).
        apply valid_port_live in Hv as [a Ha]. congruence.
    + intros r. rewrite elem_of_app, list_elem_of_fmap, (lg_open _ _ Hb). split.
      * intros [(p & -> & Hp%elem_of_range_u)|(b & q & -> & Hv & Hd)].
        -- pose proof (total_ports_bounds s). exists id, p. split; [done|]. split; [by exists (mkAgent s id)|].
           rewrite Tg by lia. apply dead_disconnected; [done|lia|done].
        -- exists b, q. split; [done|]. rewrite Tg by eauto with net. split; [|done].
           apply (valid_port_ext n); [|done]. apply Hold. intros ->. apply valid_port_live in Hv as [a Ha]. congruence.
      * intros (b & q & -> & Hv & Hd). destruct (decide (b = id)) as [->|Hne].
        -- left. exists q. split; [done|]. apply elem_of_range_u. destruct Hv as (a & Ha & Hq).
           rewrite Hid in Ha. by injection Ha as <-.
        -- right. exists b, q. split; [done|]. rewrite <- (Tg b q) by eauto with net. split; [|done].
           eapply valid_port_ext; [symmetry; by apply Hold|done].
  - intros x a Ha. rewrite Hold; [done|]. congruence.
  - intros b q Hq _. by apply Tg.
Qed.

(** A connection removes its ends. *)
Lemma ledger_connect n O a b : ledger n (open_end a ++ open_end b ++ O) →
  a ≠ DISCONNECTED → b ≠ DISCONNECTED →
  wf (connect n a b) ∧ grew n (connect n a b) ∧ next_id (connect n a b) = next_id n ∧
  (∀ id p, a = AgentPort id p → (connect n a b).[id, p] = b) ∧
  (∀ id p, b = AgentPort id p → (connect n a b).[id, p] = a) ∧
  (∀ id p, p < 3 → (connect n a b).[id, p] ≠ n.[id, p] → AgentPort id p = a ∨ AgentPort id p = b) ∧
  ledger (connect n a b) O.
Proof.
  intros Hb Ha0 Hb0. pose proof (lg_wf _ _ Hb) as Hwf.
  destruct (ledger_app_not n O a b Hb) as (Fa & Fb & Hap & HaO & HbO).
  destruct (connect_frame n a b) as (_ & Nx & _ & _ & _ & _ & _).
  assert (Lt : ∀ id p, free_end n (AgentPort id p) → p < 3) by (intros id p [Hv _]; eauto with net).
  assert (Tg : ∀ id p, p < 3 → (connect n a b).[id, p] =
    if decide (b = AgentPort id p) then a else if decide (a = AgentPort id p) then b else n.[id, p])
    by (intros; by apply connect_target).
  assert (TA : ∀ id p, a = AgentPort id p → (connect n a b).[id, p] = b).
  { intros id p E. rewrite Tg by (eapply Lt; by rewrite <- E). rewrite decide_False by (by apply Hap). by rewrite decide_True. }
  assert (TB : ∀ id p, b = AgentPort id p → (connect n a b).[id, p] = a).
  { intros id p E. rewrite Tg by (eapply Lt; by rewrite <- E). by rewrite decide_True. }
  assert (Tc : ∀ id p, p < 3 → (connect n a b).[id, p] ≠ n.[id, p] → AgentPort id p = a ∨ AgentPort id p = b).
  { intros id p Hp. rewrite Tg by done. case_decide; [by right|]. case_decide; [by left|done]. }
  split_and!; [by apply connect_wf| |done|done|done|done|].
  - split.
    + intros id ag. by rewrite connect_get_agent.
    + intros id p Hp Hne. destruct (decide ((connect n a b).[id, p] = n.[id, p])) as [|Hc]; [done|].
      destruct (Tc id p Hp Hc) as [E|E]; [rewrite <- E in Fa; by destruct Fa|rewrite <- E in Fb; by destruct Fb].
  - split; [by apply connect_wf| |].
    + pose proof (lg_nodup _ _ Hb) as Hnd. by apply NoDup_app in Hnd as (_ & _ & (_ & _ & Hnd)%NoDup_app).
    + intros r. split.
      * intros Hr. destruct (proj1 (lg_open _ _ Hb r) ltac:(set_solver)) as (id & p & -> & Hv & Hd).
        exists id, p. split; [done|]. split; [by apply (valid_port_ext n); [apply connect_get_agent|]|].
        destruct (decide ((connect n a b).[id, p] = n.[id, p])) as [->|Hc]; [done|].
        destruct (Tc id p ltac:(eauto with net) Hc) as [E|E]; rewrite E in Hr; done.
      * intros (id & p & -> & Hv & Hd).
        assert (Hv' : valid_port n id p) by (eapply valid_port_ext; [symmetry; apply connect_get_agent|exact Hv]).
        assert (Hna : a ≠ AgentPort id p) by (intros E; apply TA in E; congruence).
        assert (Hnb : b ≠ AgentPort id p) by (intros E; apply TB in E; congruence).
        rewrite Tg, !decide_False in Hd by eauto with net.
        assert (Hin : AgentPort id p ∈ open_end a ++ open_end b ++ O) by (apply (lg_open _ _ Hb); eauto).
        rewrite !elem_of_app in Hin. destruct a, b; set_solver.
Qed.

(** No port is attached to [FreePort 0] either. *)
Record building (n : Net) (O : list PortRef) : Prop := {
  bd_ledger : ledger n O;
  bd_entry : ∀ b q, q < 3 → n.[b, q] ≠ FreePort 0;
}.

#[export] Instance building_proper n : Proper ((≡ₚ) ==> iff) (building n).
Proof. intros O O' HO. split; intros [L E]; split; try done; [by rewrite <- HO|by rewrite HO]. Qed.

Lemma building_new : building new [].
Proof. split; [exact ledger_new|]. by intros b q _. Qed.

Lemma bd_open n O : building n O → ∀ r, r ∈ O ↔ ∃ b q, r = AgentPort b q ∧ valid_port n b q ∧ n.[b, q] = DISCONNECTED.
Proof. intros [L _]. apply (lg_open _ _ L). Qed.

Lemma building_create n O s n' id : building n O → create_agent n s = Done (n', id) →
  building n' ((AgentPort id <$> range_u (total_ports s)) ++ O) ∧ grew n n' ∧
  get_agent n id = None ∧ get_agent n' id = Some (mkAgent s id) ∧ next_id n' ≤ next_id n + 1.
Proof.
  intros [L E] Hc. destruct (ledger_create n O s n' id L Hc) as (L' & H). split; [|done]. split; [done|].
  intros b q Hq. destruct (create_agent_spec n s n' id (lg_wf _ _ L) Hc) as [_ _ _ _ Tg _ _ _ _ _]. rewrite Tg by done. by apply E.
Qed.

Lemma building_connect n O a b : building n (open_end a ++ open_end b ++ O) →
  a ≠ DISCONNECTED → b ≠ DISCONNECTED →
  wf (connect n a b) ∧ grew n (connect n a b) ∧ next_id (connect n a b) = next_id n ∧
  (∀ id p, a = AgentPort id p → (connect n a b).[id, p] = b) ∧
  (∀ id p, b = AgentPort id p → (connect n a b).[id, p] = a) ∧
  (∀ id p, p < 3 → (connect n a b).[id, p] ≠ n.[id, p] → AgentPort id p = a ∨ AgentPort id p = b) ∧
  (a ≠ FreePort 0 → b ≠ FreePort 0 → building (connect n a b) O).
Proof.
  intros [L E] Ha Hb. destruct (ledger_connect n O a b L Ha Hb) as (W & G & Nx & TA & TB & Tc & L'). split_and!; try done.
  intros Ha1 Hb1. split; [done|]. intros id p Hp. destruct (decide ((connect n a b).[id, p] = n.[id, p])) as [->|Hc]; [by apply E|].
  destruct (Tc id p Hp Hc) as [Ea|Eb]; [by rewrite (TA id p)|by rewrite (TB id p)].
Qed.

(** The ends of a wire between distinct ledgers. *)
Lemma building_agent_end n O r : building n (open_end r ++ O) → ∀ id p, r = AgentPort id p → valid_port n id p ∧ p < 3.
Proof.
  intros [L _] id p ->. destruct (ledger_free_end _ _ (AgentPort id p) L ltac:(set_solver)) as [Hv _]. eauto with net.
Qed.
