(* ===== verification/LambdaSpec.v ===== *)
(** The encoding of lambda terms: the net it builds is fully wired, and the
    readback of that net is the term with its variables renamed. *)
From S2P Require Import Prelude NetTypes NetCore NetInv Lambda LambdaBuild.
From Stdlib Require Import DecimalN.
Import Lambda.
Local Open Scope N_scope.
Open Scope net_scope.

(** ** The term that is read back *)

Fixpoint assoc (x : list N) (ρ : list (list N * N)) : option N :=
  match ρ with
  | [] => None
  | (y, i) :: ρ => if decide (y = x) then Some i else assoc x ρ
  end.

(** Binders are numbered in the order they are met, from [k]; occurrences of
    free variables likewise, from [f]. *)
Fixpoint canon (ρ : list (list N * N)) (t : Term) (k f : N) : Term * N * N :=
  match t with
  | Var x => match assoc x ρ with
             | Some i => (Var (v_name i), k, f)
             | None => (Var (free_name f), k, f + 1)
             end
  | Lam x body => let '(body, k', f) := canon ((x, k) :: ρ) body (k + 1) f in (Lam (v_name k) body, k', f)
  | App g a => let '(g, k, f) := canon ρ g k f in
               let '(a, k, f) := canon ρ a k f in (App g a, k, f)
  end.

Definition canonical (t : Term) : Term := fst (fst (canon [] t 0 1)).
(** The first free port that the encoding does not use. *)
Definition ports_used (t : Term) : N := snd (canon [] t 0 1).

(** Agents of the encoding. *)
Definition chain_cost (uses : nat) : N := match uses with O => 1 | S k => N.of_nat k end.
Fixpoint cost (t : Term) : N :=
  match t with
  | Var _ => 0
  | Lam x body => 1 + chain_cost (count_uses body x) + cost body
  | App f a => 1 + cost f + cost a
  end.

(** Depth of the readback: the term's height and the longest fan-out chain. *)
Fixpoint height (t : Term) : nat :=
  match t with
  | Var _ => 1
  | Lam _ body => S (height body)
  | App f a => S (max (height f) (height a))
  end.
Fixpoint spread (t : Term) : nat :=
  match t with
  | Var _ => 0
  | Lam x body => max (pred (count_uses body x)) (spread body)
  | App f a => max (spread f) (spread a)
  end.

(** ** The environment *)

Record binding : Type := mkBinding {
  bn_name : list N;
  bn_lam : AgentId;
  bn_index : N;
  bn_leaves : list PortRef;
}.

Definition flat (env : list binding) : list PortRef := env ≫= bn_leaves.
Definition names (env : list binding) : list (list N * N) := (λ e, (bn_name e, bn_index e)) <$> env.

Lemma flat_cons e env : flat (e :: env) = bn_leaves e ++ flat env.
Proof. done. Qed.

Fixpoint stacks (env : list binding) (x : list N) : list (list PortRef) :=
  match env with
  | [] => []
  | e :: env => if decide (bn_name e = x) then bn_leaves e :: stacks env x else stacks env x
  end.

(** The context of the encoder holds the leaves of [env]. *)
Definition ctx_rel (env : list binding) (c : EncodeCtx) : Prop :=
  ∀ x, bindings c !! x = match stacks env x with [] => None | s => Some s end.

Definition shadowed (x : list N) (u : list N → nat) : list N → nat := λ y, if decide (y = x) then 0%nat else u y.

(** [u x] leaves of the innermost binding of each [x] are consumed. *)
Fixpoint spend (u : list N → nat) (env : list binding) : list binding :=
  match env with
  | [] => []
  | e :: env => mkBinding (bn_name e) (bn_lam e) (bn_index e) (drop (u (bn_name e)) (bn_leaves e))
                :: spend (shadowed (bn_name e) u) env
  end.
Fixpoint enough (u : list N → nat) (env : list binding) : Prop :=
  match env with
  | [] => True
  | e :: env => (u (bn_name e) ≤ length (bn_leaves e))%nat ∧ enough (shadowed (bn_name e) u) env
  end.

Lemma spend_ext u v env : (∀ y, u y = v y) → spend u env = spend v env.
Proof.
  revert u v. induction env as [|e env IH]; intros u v H; cbn; [done|]. rewrite H. f_equal. apply IH.
  intros y. unfold shadowed. by case_decide.
Qed.

Lemma enough_ext u v env : (∀ y, u y = v y) → enough u env → enough v env.
Proof.
  revert u v. induction env as [|e env IH]; intros u v H; cbn; [done|]. rewrite H. intros [? He]. split; [done|].
  eapply IH; [|exact He]. intros y. unfold shadowed. by case_decide.
Qed.

Lemma shadowed_lam x body y : shadowed x (count_uses body) y = count_uses (Lam x body) y.
Proof. unfold shadowed. cbn [count_uses]. destruct (decide (x = y)), (decide (y = x)); congruence. Qed.

Lemma spend_none u env : (∀ y, u y = 0%nat) → spend u env = env.
Proof.
  revert u. induction env as [|e env IH]; intros u H; cbn; [done|]. rewrite H, drop_0, IH; [by destruct e|].
  intros y. unfold shadowed. by case_decide.
Qed.

Lemma spend_add u v env : spend v (spend u env) = spend (λ y, u y + v y)%nat env.
Proof.
  revert u v. induction env as [|e env IH]; intros u v; cbn; [done|]. rewrite drop_drop. f_equal. rewrite IH.
  apply spend_ext. intros y. unfold shadowed. by case_decide.
Qed.

Lemma enough_add u v env : enough (λ y, u y + v y)%nat env → enough u env ∧ enough v (spend u env).
Proof.
  revert u v. induction env as [|e env IH]; intros u v; cbn; [done|]. intros [Hl He].
  rewrite length_drop. destruct (IH (shadowed (bn_name e) u) (shadowed (bn_name e) v)) as [H1 H2].
  { eapply enough_ext; [|exact He]. intros y. unfold shadowed. by case_decide. }
  split; (split; [lia|done]).
Qed.

Lemma names_spend u env : names (spend u env) = names env.
Proof. revert u. induction env as [|e env IH]; intros u; cbn; [done|]. f_equal. apply IH. Qed.

(** Looking a variable up: it is free, or its innermost binding gives a leaf. *)
Lemma lookup_var x u env : u x = 1%nat → (∀ y, y ≠ x → u y = 0%nat) → enough u env →
  (stacks env x = [] ∧ assoc x (names env) = None ∧ spend u env = env) ∨
  ∃ e l ls rest, e ∈ env ∧ l ∈ bn_leaves e ∧ assoc x (names env) = Some (bn_index e) ∧
    stacks env x = (l :: ls) :: rest ∧ stacks (spend u env) x = ls :: rest ∧
    flat env ≡ₚ l :: flat (spend u env) ∧ ∀ y, y ≠ x → stacks (spend u env) y = stacks env y.
Proof.
  revert u. induction env as [|e env IH]; intros u Hx Hy; [by left|]. rewrite flat_cons. cbn [spend enough stacks names fmap list_fmap assoc].
  intros [Hl He]. rewrite flat_cons. cbn [bn_name bn_leaves]. destruct (decide (bn_name e = x)) as [<-|Hne].
  - right. rewrite Hx in *. destruct (bn_leaves e) as [|l ls] eqn:El; [cbn in Hl; lia|].
    rewrite spend_none by (intros y; unfold shadowed; case_decide; [done|by apply Hy]).
    exists e, l, ls, (stacks env (bn_name e)). rewrite El. split_and!; [by left|by left|done|done|done|done|].
    intros y Hne. by rewrite !decide_False.
  - rewrite Hy, drop_0 by done.
    destruct (IH (shadowed (bn_name e) u)) as [(Hs & Ha & Hsp)|(e' & l & ls & rest & Hin & Hil & Ha & Hs & Hs' & Hf & Hr)].
    + unfold shadowed. by rewrite decide_False.
    + intros y Hyx. unfold shadowed. case_decide; [done|by apply Hy].
    + done.
    + left. rewrite Hsp. split_and!; [done|done|by destruct e].
    + right. exists e', l, ls, rest. split_and!; [by right|done|done|done|done| |].
      * rewrite Hf. apply Permutation_sym, Permutation_middle.
      * intros y Hyx. by rewrite (Hr y Hyx).
Qed.

(** ** Fan-out chains *)

(** From port [r], [d] duplicators lead to the variable port of [lam]. *)
Inductive leads (n : Net) (lam : AgentId) : nat → PortRef → Prop :=
| leads_here : leads n lam 0 (AgentPort lam 1)
| leads_dup d b p : get_agent n b = Some (mkAgent Dup b) → p = 1 ∨ p = 2 → leads n lam d n.[b, 0] →
    leads n lam (S d) (AgentPort b p).

Lemma leads_agent n lam d r : leads n lam d r → ∃ b p, r = AgentPort b p.
Proof. destruct 1; eauto. Qed.

Lemma leads_grew n n' lam d r : grew n n' → leads n lam d r → leads n' lam d r.
Proof.
  intros Hg. induction 1 as [|d b p Hb Hp Hl IH]; [constructor|]. econstructor; [by apply Hg|done|].
  destruct (leads_agent _ _ _ _ Hl) as (b' & p' & E). rewrite (grew_wire n n' b 0 _ Hg E) by done. by rewrite <- E.
Qed.

Lemma fmap_ports id s : AgentPort id <$> range_u (total_ports s) =
  match s with Era => [AgentPort id 0] | _ => [AgentPort id 0; AgentPort id 1; AgentPort id 2] end.
Proof. by destruct s. Qed.

Lemma dup_chain_spec lam k : ∀ n O d current,
  building n (current :: O) → leads n lam d current → next_id n + N.of_nat k ≤ u32_MAX →
  ∃ n' leaves, dup_chain k n current = Done (n', leaves) ∧ building n' (leaves ++ O) ∧ grew n n' ∧
    length leaves = S k ∧ Forall (λ l, ∃ d', (d' ≤ d + k)%nat ∧ leads n' lam d' l) leaves ∧
    next_id n' ≤ next_id n + N.of_nat k.
Proof.
  induction k as [|k IH]; intros n O d current Hb Hl Hk; cbn [dup_chain].
  - exists n, [current]. split_and!; [done|done|done|done| |lia]. constructor; [|done]. exists d. split; [lia|done].
  - destruct (create_agent_total n Dup) as (n1 & dup & E); [lia|]. rewrite E. cbn [mbind outcome_bind].
    destruct (building_create _ _ _ _ _ Hb E) as (B1 & G1 & _ & A1 & N1). rewrite fmap_ports in B1.
    destruct (leads_agent _ _ _ _ Hl) as (cb & cp & Ec).
    assert (B1' : building n1 (open_end current ++ open_end (AgentPort dup 0) ++ AgentPort dup 2 :: AgentPort dup 1 :: O)).
    { rewrite Ec in *. revert B1. apply building_proper. cbn [open_end app]. solve_Permutation. }
    destruct (building_connect n1 _ _ _ B1') as (W2 & G2 & N2 & _ & T2 & _ & B2); [by rewrite Ec|done|].
    specialize (B2 ltac:(by rewrite Ec) ltac:(done)). specialize (T2 _ _ eq_refl).
    set (n2 := connect n1 current (AgentPort dup 0)) in *.
    assert (Ld : ∀ p, p = 1 ∨ p = 2 → leads n2 lam (S d) (AgentPort dup p)).
    { intros p Hp. constructor; [by apply G2|done|]. rewrite T2. apply (leads_grew n n2); [by etrans|done]. }
    destruct (IH n2 (AgentPort dup 1 :: O) (S d) (AgentPort dup 2)) as (n3 & leaves & E3 & B3 & G3 & L3 & F3 & N3); [done|by apply Ld; right|lia|].
    rewrite E3. cbn [mbind outcome_bind]. exists n3, (AgentPort dup 1 :: leaves). split_and!.
    + done.
    + revert B3. apply building_proper. cbn [app]. apply Permutation_middle.
    + etrans; [done|]. by etrans.
    + cbn. by rewrite L3.
    + constructor; [exists (S d); split; [lia|apply (leads_grew n2); [done|apply Ld; by left]]|].
      eapply Forall_impl; [exact F3|]. intros l (d' & Hd & Hl'). exists d'. split; [lia|done].
    + lia.
Qed.

Lemma build_binder_chain_spec n O lam uses :
  building n (AgentPort lam 1 :: O) → next_id n + chain_cost uses ≤ u32_MAX →
  ∃ n' leaves, build_binder_chain n (AgentPort lam 1) uses = Done (n', leaves) ∧ building n' (leaves ++ O) ∧ grew n n' ∧
    length leaves = uses ∧ Forall (λ l, ∃ d, (d ≤ pred uses)%nat ∧ leads n' lam d l) leaves ∧
    next_id n' ≤ next_id n + chain_cost uses.
Proof.
  intros Hb Hk. destruct uses as [|[|k]]; cbn [build_binder_chain chain_cost] in *.
  - destruct (create_agent_total n Era) as (n1 & era & E); [lia|]. rewrite E. cbn [mbind outcome_bind].
    destruct (building_create _ _ _ _ _ Hb E) as (B1 & G1 & _ & _ & N1). rewrite fmap_ports in B1.
    assert (B1' : building n1 (open_end (AgentPort lam 1) ++ open_end (AgentPort era 0) ++ O)).
    { revert B1. apply building_proper. cbn [open_end app]. solve_Permutation. }
    destruct (building_connect n1 _ _ _ B1') as (_ & G2 & N2 & _ & _ & _ & B2); [done|done|].
    eexists _, []. split_and!; [done|by apply B2|by etrans|done|done|rewrite N2; lia].
  - exists n, [AgentPort lam 1]. split_and!; [done|done|done|done| |lia]. constructor; [|done].
    exists 0%nat. split; [lia|constructor].
  - destruct (dup_chain_spec lam (S k) n O 0 (AgentPort lam 1)) as (n' & leaves & E & B & G & L & F & Nx); [done|constructor|lia|].
    exists n', leaves. split_and!; [done|done|done|done| |lia]. done.
Qed.

(** ** Reading back *)

(** The names known to the readback are those of abstractions of [n]. *)
Definition vm_dom (n : Net) (vm : gmap (AgentId * PortId) (list N)) : Prop :=
  ∀ b p, is_Some (vm !! (b, p)) → p = 1 ∧ get_agent n b = Some (mkAgent Con b).

(** The binders of [env] have their names. *)
Definition vm_env (env : list binding) (vm : gmap (AgentId * PortId) (list N)) : Prop :=
  ∀ e, e ∈ env → vm !! (bn_lam e, 1) = Some (v_name (bn_index e)).

Lemma vm_dom_grew n n' vm : grew n n' → vm_dom n vm → vm_dom n' vm.
Proof. intros Hg Hd b p Hs. destruct (Hd b p Hs) as [-> Ha]. split; [done|]. by apply Hg. Qed.

Lemma vm_fresh n vm b p : vm_dom n vm → get_agent n b = None → vm !! (b, p) = None.
Proof. intros Hd Hn. apply eq_None_not_Some. intros Hs. destruct (Hd b p Hs). congruence. Qed.

Lemma vm_other n vm b p : vm_dom n vm → p ≠ 1 → vm !! (b, p) = None.
Proof. intros Hd Hp. apply eq_None_not_Some. intros Hs. by destruct (Hd b p Hs). Qed.

Lemma readback_leaf n lam vm k name d r : leads n lam d r → vm_dom n vm → vm !! (lam, 1) = Some name →
  ∀ room, (d < room)%nat → readback room n r (mkReadbackCtx vm k) = inl (Var name, mkReadbackCtx vm k).
Proof.
  intros Hl Hd Hn. induction Hl as [|d b p Hb Hp Hl IH]; intros [|room] Hr; try lia; cbn [readback var_map].
  - by rewrite Hn.
  - assert (Hv : vm !! (b, p) = None).
    { apply eq_None_not_Some. intros Hs. destruct (Hd b p Hs) as [_ Ha]. congruence. }
    rewrite Hv, Hb. cbn [symbol]. apply IH. lia.
Qed.

(** Port [r], produced by encoding [t] into [n], reads back as [t] in every net
    that grows from the result. *)
Definition reads (W : nat) (n n' : Net) (t : Term) (env : list binding) (k f : N) (r : PortRef) : Prop :=
  ∀ N vm room, grew n' N → vm_dom n vm → vm_env env vm → (height t + W ≤ room)%nat →
    readback room N r (mkReadbackCtx vm k) =
      inl (fst (fst (canon (names env) t k f)), mkReadbackCtx vm (snd (fst (canon (names env) t k f)))).

Lemma reads_weaken W n0 n n1 n' t env env' k f r : grew n0 n → grew n1 n' → names env' = names env →
  (∀ vm, vm_env env vm → vm_env env' vm) →
  reads W n n1 t env' k f r → reads W n0 n' t env k f r.
Proof.
  intros G0 G1 En Hv Hr N vm room HN Hd He Hroom. rewrite <- En. apply Hr; auto.
  - by etrans.
  - by apply (vm_dom_grew n0).
Qed.

Lemma vm_env_spend u env vm : vm_env env vm → vm_env (spend u env) vm.
Proof.
  revert u. induction env as [|e env IH]; intros u He; cbn [spend]; [done|].
  intros e' [->|Hin]%elem_of_cons; [cbn; apply He; by left|].
  eapply IH; [|exact Hin]. intros x Hx. apply He. by right.
Qed.

(** Every leaf of the environment leads to its binder. *)
Definition env_leads (W : nat) (n : Net) (env : list binding) : Prop :=
  ∀ e l, e ∈ env → l ∈ bn_leaves e → ∃ d, (d ≤ W)%nat ∧ leads n (bn_lam e) d l.

Lemma env_leads_grew W n n' env : grew n n' → env_leads W n env → env_leads W n' env.
Proof. intros Hg He e l Hin Hl. destruct (He e l Hin Hl) as (d & Hd & Hl'). exists d. split; [done|]. by eapply leads_grew. Qed.

Lemma env_leads_spend W n u env : env_leads W n env → env_leads W n (spend u env).
Proof.
  revert u. induction env as [|e env IH]; intros u He; cbn [spend]; [done|].
  intros e' l [->|Hin]%elem_of_cons Hl.
  - cbn in *. apply (He e l); [by left|]. by eapply subseteq_drop.
  - eapply IH; [|exact Hin|done]. intros x y Hx. apply He. by right.
Qed.

(** ** The encoder's context *)

Lemma ctx_rel_push env c e : ctx_rel env c → ctx_rel (e :: env) (push_binding c (bn_name e) (bn_leaves e)).
Proof.
  intros H x. cbn [push_binding bindings stacks]. destruct (decide (bn_name e = x)) as [<-|Hne].
  - rewrite lookup_insert_eq, (H (bn_name e)). by destruct (stacks env (bn_name e)).
  - by rewrite lookup_insert_ne.
Qed.

Lemma ctx_rel_pop env c e : ctx_rel (e :: env) c → ctx_rel env (pop_binding c (bn_name e)).
Proof.
  intros H x. unfold pop_binding. pose proof (H (bn_name e)) as He. cbn [stacks] in He. rewrite decide_True in He by done.
  rewrite He. cbn [tail bindings]. destruct (decide (bn_name e = x)) as [<-|Hne].
  - destruct (stacks env (bn_name e)); [apply lookup_delete_eq|apply lookup_insert_eq].
  - pose proof (H x) as Hx. cbn [stacks] in Hx. rewrite decide_False in Hx by done.
    destruct (stacks env (bn_name e)); rewrite ?lookup_delete_ne, ?lookup_insert_ne by done; done.
Qed.

Lemma next_free_pop c x : next_free_port (pop_binding c x) = next_free_port c.
Proof. unfold pop_binding. by destruct (bindings c !! x). Qed.

Lemma consume_leaf_spec env env' c x l ls rest :
  ctx_rel env c → stacks env x = (l :: ls) :: rest → stacks env' x = ls :: rest →
  (∀ y, y ≠ x → stacks env' y = stacks env y) →
  ∃ c', consume_leaf c x = Some (l, c') ∧ ctx_rel env' c' ∧ next_free_port c' = next_free_port c.
Proof.
  intros H Hs Hs' Hr. unfold consume_leaf. rewrite (H x), Hs. eexists. split_and!; [done| |done].
  intros y. cbn [bindings]. destruct (decide (y = x)) as [->|Hne].
  - by rewrite lookup_insert_eq, Hs'.
  - by rewrite lookup_insert_ne, (H y), Hr.
Qed.

(** ** The encoder *)

(** What encoding [t] in [env] does, from [n] and [c] to [n'] and [c'], with
    [F] the dangling ports of the context. *)
Record encodes (W : nat) (t : Term) (env : list binding) (F : list PortRef) (k : N)
    (n : Net) (c : EncodeCtx) (n' : Net) (c' : EncodeCtx) (r : PortRef) : Prop := {
  en_building : building n' (open_end r ++ flat (spend (count_uses t) env) ++ F);
  en_grew : grew n n';
  en_next : next_id n' ≤ next_id n + cost t;
  en_ctx : ctx_rel (spend (count_uses t) env) c';
  en_free : next_free_port c' = snd (canon (names env) t k (next_free_port c));
  en_end : r ≠ DISCONNECTED ∧ r ≠ FreePort 0;
  en_reads : reads W n n' t env k (next_free_port c) r;
}.

Lemma canon_mono t : ∀ ρ k f, k ≤ snd (fst (canon ρ t k f)) ∧ f ≤ snd (canon ρ t k f).
Proof.
  induction t as [x|x body IH|g IHg a IHa]; intros ρ k f; cbn [canon].
  - destruct (assoc x ρ); cbn; lia.
  - specialize (IH ((x, k) :: ρ) (k + 1) f). destruct (canon _ body _ _) as [[? ?] ?]. cbn in *. lia.
  - specialize (IHg ρ k f). destruct (canon ρ g k f) as [[? k1] f1]. cbn in *.
    specialize (IHa ρ k1 f1). destruct (canon ρ a k1 f1) as [[? ?] ?]. cbn in *. lia.
Qed.

(** What the encoding of [t] requires. *)
Record ready (W : nat) (t : Term) (env : list binding) (F : list PortRef) (k : N) (n : Net) (c : EncodeCtx) : Prop := {
  rd_building : building n (flat env ++ F);
  rd_ctx : ctx_rel env c;
  rd_enough : enough (count_uses t) env;
  rd_leads : env_leads W n env;
  rd_spread : (spread t ≤ W)%nat;
  rd_room : next_id n + cost t ≤ u32_MAX;
  rd_first : 1 ≤ next_free_port c;
  rd_free : snd (canon (names env) t k (next_free_port c)) ≤ u32_MAX;
}.

Definition encodable (t : Term) : Prop := ∀ W env F k n c, ready W t env F k n c →
  ∃ n' c' r, encode_term n t c = Done (n', c', r) ∧ encodes W t env F k n c n' c' r.

Lemma encodable_var x : encodable (Var x).
Proof.
  intros W env F k n c [Hb Hc He Hl _ _ H1 Hf]. cbn [encode_term].
  destruct (lookup_var x (count_uses (Var x)) env) as [(Hs & Ha & Hsp)|(e & l & ls & rest & Hin & Hil & Ha & Hs & Hs' & Hfl & Hr)].
  - cbn. by rewrite decide_True.
  - intros y Hy. cbn. by rewrite decide_False.
  - done.
  - unfold consume_leaf. rewrite (Hc x), Hs. cbn [fresh_free_port]. cbn [canon] in Hf. rewrite Ha in Hf. cbn [snd] in Hf.
    eexists _, _, _. split; [done|]. split; rewrite ?Hsp.
    + done.
    + done.
    + cbn. lia.
    + exact Hc.
    + cbn [next_free_port canon]. rewrite Ha. cbn [snd]. unfold u32_succ. apply N.mod_small. unfold u32_MAX in Hf. lia.
    + unfold DISCONNECTED. split; [|intros [= E]; lia]. intros [= E]. lia.
    + intros N vm room _ _ _ Hroom. cbn [height] in Hroom. destruct room as [|room]; [lia|].
      cbn [readback canon]. by rewrite Ha.
  - destruct (consume_leaf_spec _ _ _ _ _ _ _ Hc Hs Hs' Hr) as (c' & -> & Hc' & Hnf).
    destruct (Hl e l Hin Hil) as (d & Hd & Hld). destruct (leads_agent _ _ _ _ Hld) as (b & p & El).
    exists n, c', l. split; [done|]. split.
    + revert Hb. apply building_proper. rewrite El in *. cbn [open_end app]. by rewrite Hfl.
    + done.
    + cbn. lia.
    + done.
    + cbn [canon]. by rewrite Ha, Hnf.
    + by rewrite El.
    + intros N vm room HN Hvd Hve Hroom. cbn [canon height] in *. rewrite Ha. cbn [fst snd].
      eapply (readback_leaf N (bn_lam e)); [by eapply leads_grew|by eapply vm_dom_grew|by apply Hve|lia].
Qed.

(** An abstraction whose body port leads to the body's result. *)
Lemma reads_lam W n n2 n3 n4 lam x body env leaves rb k f :
  get_agent n lam = None → grew n n2 → grew n2 n3 → grew n3 n4 → get_agent n2 lam = Some (mkAgent Con lam) →
  n4.[lam, 2] = rb → rb ≠ DISCONNECTED →
  reads W n2 n3 body (mkBinding x lam k leaves :: env) (k + 1) f rb →
  reads W n n4 (Lam x body) env k f (AgentPort lam 0).
Proof.
  intros D1 G2 G3 G4 A2 TB R3 Rd3 N vm [|room] HN Hvd Hve Hroom; cbn [height] in Hroom; [lia|]. cbn [readback var_map].
  rewrite (vm_fresh n vm lam 0 Hvd D1), (gw_agent n2 N) with (a := mkAgent Con lam); [|by do 2 (etrans; [eassumption|])|done].
  cbn [symbol fresh_name counter var_map].
  rewrite (grew_wire n4 N lam 2 rb HN TB R3) by lia. rewrite (Rd3 N (<[(lam, 1):=v_name k]> vm) room).
  - change (names (mkBinding x lam k leaves :: env)) with ((x, k) :: names env).
    cbn [canon]. destruct (canon _ body _ _) as [[? ?] ?]. cbn [fst snd var_map counter].
    rewrite delete_insert_id; [done|]. by apply (vm_fresh n).
  - by etrans.
  - intros b p. rewrite lookup_insert. case_decide as Eb; [injection Eb as <- <-; by intros _|].
    intros Hs. by apply (vm_dom_grew n n2 vm).
  - intros e' Hin. apply elem_of_cons in Hin as [->|Hin]; [by rewrite lookup_insert_eq|].
    rewrite lookup_insert_ne; [by apply Hve|]. intros [= E]. pose proof (Hve e' Hin) as Hv. rewrite <- E in Hv.
    by rewrite (vm_fresh n vm lam 1 Hvd D1) in Hv.
  - lia.
Qed.

(** The body of an abstraction is ready once the leaves of the binder are there. *)
Lemma ready_body W x body env F k n c n2 lam leaves :
  ready W (Lam x body) env F k n c → grew n n2 → next_id n2 ≤ next_id n + 1 + chain_cost (count_uses body x) →
  building n2 (leaves ++ AgentPort lam 0 :: AgentPort lam 2 :: flat env ++ F) →
  length leaves = count_uses body x →
  Forall (λ l, ∃ d, (d ≤ pred (count_uses body x))%nat ∧ leads n2 lam d l) leaves →
  ready W body (mkBinding x lam k leaves :: env) (AgentPort lam 0 :: AgentPort lam 2 :: F) (k + 1) n2 (push_binding c x leaves).
Proof.
  intros [Hb Hc He Hl Hsp Hn H1 Hf] G02 N2 B2 L2 Ld2. cbn [cost spread canon] in *. split.
  - revert B2. apply building_proper. rewrite flat_cons. cbn [bn_leaves]. solve_Permutation.
  - exact (ctx_rel_push env c (mkBinding x lam k leaves) Hc).
  - cbn [enough bn_name bn_leaves]. split; [rewrite L2; lia|]. eapply enough_ext; [|exact He].
    intros y. symmetry. apply shadowed_lam.
  - intros e' l Hin Hl'. apply elem_of_cons in Hin as [->|Hin].
    + cbn [bn_leaves bn_lam] in *. rewrite Forall_forall in Ld2. destruct (Ld2 l Hl') as (d & Hd & Hld).
      exists d. split; [lia|done].
    + by apply (env_leads_grew W n n2 env G02 Hl).
  - lia.
  - lia.
  - done.
  - change (snd (canon ((x, k) :: names env) body (k + 1) (next_free_port c)) ≤ u32_MAX).
    destruct (canon _ body _ _) as [[? ?] ?]. exact Hf.
Qed.

Lemma encodable_lam x body : encodable body → encodable (Lam x body).
Proof.
  intros IH W env F k n c Hrd. pose proof Hrd as [Hb Hc _ _ _ Hn _ _]. cbn [encode_term cost] in *.
  destruct (create_agent_total n Con) as (n1 & lam & E1); [lia|]. rewrite E1. cbn [mbind outcome_bind].
  destruct (building_create _ _ _ _ _ Hb E1) as (B1 & G1 & D1 & A1 & N1). rewrite fmap_ports in B1.
  destruct (build_binder_chain_spec n1 (AgentPort lam 0 :: AgentPort lam 2 :: flat env ++ F) lam (count_uses body x))
    as (n2 & leaves & E2 & B2 & G2 & L2 & Ld2 & N2); [|lia|].
  { revert B1. apply building_proper. cbn [app]. solve_Permutation. }
  rewrite E2. cbn [mbind outcome_bind].
  assert (G02 : grew n n2) by by etrans.
  destruct (IH W (mkBinding x lam k leaves :: env) (AgentPort lam 0 :: AgentPort lam 2 :: F) (k + 1) n2 (push_binding c x leaves))
    as (n3 & c3 & rb & E3 & [B3 G3 N3 C3 F3 [R3 R3'] Rd3]).
  { eapply ready_body; eauto. lia. }
  rewrite E3. cbn [mbind outcome_bind].
  assert (Esp : spend (count_uses body) (mkBinding x lam k leaves :: env) = mkBinding x lam k [] :: spend (count_uses (Lam x body)) env).
  { cbn [spend bn_name bn_lam bn_index bn_leaves]. rewrite drop_ge by (cbn; lia). f_equal.
    apply spend_ext, shadowed_lam. }
  rewrite Esp in *. rewrite flat_cons in B3. cbn [bn_leaves app] in B3.
  set (env' := spend (count_uses (Lam x body)) env) in *.
  destruct (building_connect n3 (AgentPort lam 0 :: flat env' ++ F) rb (AgentPort lam 2)) as (_ & G4 & N4 & TA & TB & _ & B4); [|done|done|].
  { revert B3. apply building_proper. cbn [open_end app]. destruct rb; cbn [open_end]; solve_Permutation. }
  specialize (B4 R3' ltac:(done)). specialize (TB _ _ eq_refl).
  eexists _, _, _. split; [done|]. split.
  - exact B4.
  - etrans; [exact G02|]. by etrans.
  - cbn [cost]. lia.
  - apply (ctx_rel_pop env' c3 (mkBinding x lam k [])). exact C3.
  - rewrite next_free_pop, F3. cbn [canon names fmap list_fmap next_free_port push_binding bn_name bn_index].
    change (snd (canon ((x, k) :: names env) body (k + 1) (next_free_port c)) = snd (canon (names env) (Lam x body) k (next_free_port c))).
    cbn [canon]. by destruct (canon _ body _ _) as [[? ?] ?].
  - done.
  - eapply (reads_lam W n n2 n3 _ lam x body env leaves rb); eauto. by apply G2.
Qed.

Lemma reads_app W n n3 n4 ap g a env env' k f k1 f1 g' rf ra :
  get_agent n ap = None → grew n n3 → grew n3 n4 → get_agent n4 ap = Some (mkAgent Con ap) →
  n4.[ap, 0] = rf → n4.[ap, 2] = ra → rf ≠ DISCONNECTED → ra ≠ DISCONNECTED →
  canon (names env) g k f = (g', k1, f1) → names env' = names env → (∀ vm, vm_env env vm → vm_env env' vm) →
  reads W n n4 g env k f rf → reads W n3 n4 a env' k1 f1 ra →
  reads W n n4 (App g a) env k f (AgentPort ap 1).
Proof.
  intros D1 G3 G4 A4 T0 T2 Rf Ra Eg En Hvs Rdf Rda N vm [|room] HN Hvd Hve Hroom; cbn [height] in Hroom; [lia|].
  cbn [readback var_map]. rewrite (vm_fresh n vm ap 1 Hvd D1), (gw_agent n4 N HN ap _ A4). cbn [symbol].
  rewrite (grew_wire n4 N ap 0 rf HN T0 Rf), (grew_wire n4 N ap 2 ra HN T2 Ra) by lia.
  rewrite (Rdf N vm room) by (done || lia). rewrite Eg. cbn [fst snd].
  rewrite (Rda N vm room HN (vm_dom_grew _ _ _ G3 Hvd) (Hvs _ Hve)) by lia.
  rewrite En. cbn [canon]. rewrite Eg. by destruct (canon _ a _ _) as [[? ?] ?].
Qed.

Lemma encodable_app g a : encodable g → encodable a → encodable (App g a).
Proof.
  intros IHg IHa W env F k n c [Hb Hc He Hl Hsp Hn H1 Hf]. cbn [encode_term cost spread] in *.
  destruct (create_agent_total n Con) as (n1 & ap & E1); [lia|]. rewrite E1. cbn [mbind outcome_bind].
  destruct (building_create _ _ _ _ _ Hb E1) as (B1 & G1 & D1 & A1 & N1). rewrite fmap_ports in B1.
  apply enough_add in He as [Heg Hea]. cbn [canon] in Hf.
  destruct (canon (names env) g k (next_free_port c)) as [[g' k1] f1] eqn:Eg.
  destruct (canon (names env) a k1 f1) as [[a' k2] f2] eqn:Ea. cbn [snd] in Hf.
  pose proof (canon_mono a (names env) k1 f1) as [_ Hfa]. rewrite Ea in Hfa. cbn [snd] in Hfa.
  pose proof (canon_mono g (names env) k (next_free_port c)) as [_ Hfg]. rewrite Eg in Hfg. cbn [snd] in Hfg.
  destruct (IHg W env (AgentPort ap 0 :: AgentPort ap 1 :: AgentPort ap 2 :: F) k n1 c)
    as (n2 & c2 & rf & E2 & [B2 G2 N2 C2 F2 [R2 R2'] Rd2]).
  { split; try done; [|by eapply env_leads_grew|lia|lia|by rewrite Eg; cbn; lia].
    revert B1. apply building_proper. cbn [app]. solve_Permutation. }
  rewrite E2. cbn [mbind outcome_bind]. rewrite Eg in F2. cbn [snd] in F2.
  set (env1 := spend (count_uses g) env) in *.
  destruct (IHa W env1 (open_end rf ++ AgentPort ap 0 :: AgentPort ap 1 :: AgentPort ap 2 :: F) k1 n2 c2)
    as (n3 & c3 & ra & E3 & [B3 G3 N3 C3 F3 [R3 R3'] Rd3]).
  { split; try done; [|apply env_leads_spend, (env_leads_grew W n); [by etrans|done]|lia|lia|lia|].
    - revert B2. apply building_proper. solve_Permutation.
    - unfold env1. by rewrite names_spend, F2, Ea. }
  rewrite E3. cbn [mbind outcome_bind].
  assert (Esp : spend (count_uses a) env1 = spend (count_uses (App g a)) env) by apply spend_add.
  rewrite Esp in *. set (env2 := spend (count_uses (App g a)) env) in *.
  destruct (building_connect n3 (open_end ra ++ AgentPort ap 1 :: AgentPort ap 2 :: flat env2 ++ F) rf (AgentPort ap 0))
    as (_ & G4 & N4 & _ & TB4 & _ & B4); [|done|done|].
  { revert B3. apply building_proper. cbn [open_end app]. destruct rf, ra; cbn [open_end app]; solve_Permutation. }
  specialize (B4 R2' ltac:(done)). specialize (TB4 _ _ eq_refl). set (n4 := connect n3 rf (AgentPort ap 0)) in *.
  destruct (building_connect n4 (AgentPort ap 1 :: flat env2 ++ F) ra (AgentPort ap 2))
    as (_ & G5 & N5 & _ & TB5 & _ & B5); [|done|done|].
  { revert B4. apply building_proper. cbn [open_end app]. destruct ra; cbn [open_end app]; solve_Permutation. }
  specialize (B5 R3' ltac:(done)). specialize (TB5 _ _ eq_refl). set (n5 := connect n4 ra (AgentPort ap 2)) in *.
  assert (G35 : grew n3 n5) by by etrans.
  eexists _, _, _. split; [done|]. split; [exact B5|do 2 (etrans; [eassumption|]); by etrans|cbn [cost]; lia|done| |done|].
  - cbn [canon]. rewrite Eg, Ea. cbn [snd]. rewrite F3. unfold env1. by rewrite names_spend, F2, Ea.
  - eapply (reads_app W n n2 n5 ap g a env env1 k _ k1 f1 g' rf ra); try done.
    + by etrans.
    + by etrans.
    + by apply G35, G3, G2, A1.
    + by apply (grew_wire n4 n5 ap 0 rf G5 TB4).
    + by unfold env1; rewrite names_spend.
    + intros vm. apply vm_env_spend.
    + eapply (reads_weaken W n n1 n2 n5 g env env); [done|by etrans|done|done|exact Rd2].
    + rewrite <- F2. eapply (reads_weaken W n2 n2 n3 n5 a env1 env1); [done|done|done|done|exact Rd3].
Qed.

Lemma encodable_all t : encodable t.
Proof. induction t as [x|x body IH|g IHg a IHa]; [apply encodable_var|by apply encodable_lam|by apply encodable_app]. Qed.

(** ** The entry port *)

Lemma head_filter_unique {A} (P : A → Prop) `{∀ x, Decision (P x)} l x :
  x ∈ l → P x → (∀ y, y ∈ l → P y → y = x) → head (filter P l) = Some x.
Proof.
  intros Hin Hx Hu. destruct (filter P l) as [|y l'] eqn:E.
  - exfalso. apply (not_elem_of_nil x). rewrite <- E. by apply list_elem_of_filter.
  - assert (Hy : y ∈ filter P l) by (rewrite E; by left). apply list_elem_of_filter in Hy as [Hy Hiny].
    cbn. by rewrite (Hu y Hiny Hy).
Qed.

Lemma find_entry_port_spec n id p : wf n → live n id → p < 3 → n.[id, p] = FreePort 0 →
  (∀ b q, q < 3 → n.[b, q] = FreePort 0 → b = id ∧ q = p) → find_entry_port n 0 = Some (AgentPort id p).
Proof.
  intros Hwf [ag Ha] Hp Ht Hu. unfold find_entry_port. apply head_filter_unique; [|done|].
  - apply list_elem_of_bind. exists ag. pose proof (wf_ids n Hwf id ag Ha) as ->. split.
    + assert (p = 0 ∨ p = 1 ∨ p = 2) as [->|[->| ->]] by lia; set_solver.
    + unfold live_agents. apply list_elem_of_omap. unfold get_agent in Ha.
      destruct (agents n !! N.to_nat id) as [o|] eqn:E; [|done]. cbn in Ha. subst o. exists (Some ag).
      split; [by eapply list_elem_of_lookup_2|done].
  - intros r (a & Hr & _)%list_elem_of_bind Hr0. rewrite !elem_of_cons, elem_of_nil in Hr.
    destruct Hr as [->|[->|[->|[]]]]; (apply Hu in Hr0 as [-> ->]; [done|lia]).
Qed.

Lemma encode_lambda_spec t : is_var t = false → cost t ≤ u32_MAX → ports_used t ≤ u32_MAX →
  ∃ n id p, encode_lambda t = Done n ∧ wf n ∧ (∀ b q, valid_port n b q → n.[b, q] ≠ DISCONNECTED) ∧
    find_entry_port n 0 = Some (AgentPort id p) ∧ reads (spread t) new n t [] 0 1 (AgentPort id p).
Proof.
  intros Hv Hc Hf.
  destruct (encodable_all t (spread t) [] [] 0 new (mkEncodeCtx ∅ 1)) as (n & c & r & E & [B G N C F [R R'] Rd]).
  { split; try done; [apply building_new|by intros e l Hin%elem_of_nil]. }
  assert (∃ id p, r = AgentPort id p) as (id & p & ->).
  { revert E. destruct t as [x|x b|g a]; cbn [encode_term]; [done| |];
      intros ([m i] & _ & E)%outcome_bind_Done.
    - apply outcome_bind_Done in E as ([m2 l] & _ & E). apply outcome_bind_Done in E as ([[m3 c3] q] & _ & E).
      injection E as _ _ <-. eauto.
    - apply outcome_bind_Done in E as ([[m2 c2] q] & _ & E). apply outcome_bind_Done in E as ([[m3 c3] q'] & _ & E).
      injection E as _ _ <-. eauto. }
  assert (B' : building n (open_end (AgentPort id p) ++ open_end (FreePort 0) ++ [])) by exact B.
  destruct (building_connect n [] _ _ B') as (W2 & G2 & _ & T2 & _ & Tc & _); [done|done|].
  specialize (T2 _ _ eq_refl). set (n' := connect n (AgentPort id p) (FreePort 0)) in *.
  destruct (building_agent_end n _ _ B _ _ eq_refl) as [Hvp Hp].
  exists n', id, p. split_and!.
  - unfold encode_lambda. rewrite E. done.
  - done.
  - intros b q Hvq Hd. destruct (decide (AgentPort b q = AgentPort id p)) as [[= -> ->]|Hne]; [by rewrite T2 in Hd|].
    assert (Hsame : n'.[b, q] = n.[b, q]).
    { destruct (decide (n'.[b, q] = n.[b, q])) as [|Hx]; [done|]. by destruct (Tc b q ltac:(eauto with net) Hx). }
    assert (Hin : AgentPort b q ∈ [AgentPort id p]).
    { apply (bd_open _ _ B). exists b, q. split; [done|]. rewrite <- Hsame. split; [|done].
      eapply valid_port_ext; [symmetry; apply connect_get_agent|done]. }
    by apply list_elem_of_singleton in Hin.
  - apply find_entry_port_spec; [done| |done|done|].
    + apply valid_port_live in Hvp as [a Ha]. exists a. by apply G2.
    + intros b q Hq Hd. destruct (decide (n'.[b, q] = n.[b, q])) as [Hx|Hx].
      * rewrite Hx in Hd. by apply (bd_entry _ _ B) in Hd.
      * by destruct (Tc b q Hq Hx) as [[= -> ->]|].
  - eapply (reads_weaken _ new new n n'); [done|exact G2|done|done|exact Rd].
Qed.

(** ** The read back term, up to names *)

(** A term without the names: a bound variable is the number of binders it
    crosses, and the free variables are not told apart. *)
Inductive Nameless : Type :=
| NBound (i : nat)
| NFree
| NLam (body : Nameless)
| NApp (f a : Nameless).

Fixpoint position (x : list N) (scope : list (list N)) : option nat :=
  match scope with
  | [] => None
  | y :: scope => if decide (y = x) then Some 0%nat else S <$> position x scope
  end.

Fixpoint nameless (scope : list (list N)) (t : Term) : Nameless :=
  match t with
  | Var x => match position x scope with Some i => NBound i | None => NFree end
  | Lam x body => NLam (nameless (x :: scope) body)
  | App f a => NApp (nameless scope f) (nameless scope a)
  end.

Lemma digits_inj u v : digits u = digits v → u = v.
Proof.
  revert v. induction u; intros v; destruct v; cbn; try done; intros [= E]; f_equal; by apply IHu.
Qed.

Lemma v_name_inj : Inj (=) (=) v_name.
Proof. intros x y [= E%digits_inj]. by apply DecimalN.Unsigned.to_uint_inj. Qed.

Lemma v_name_free i f : v_name i ≠ free_name f.
Proof. done. Qed.

Lemma position_bound ρ x i : NoDup ρ.*2 → assoc x ρ = Some i →
  position (v_name i) (v_name <$> ρ.*2) = position x ρ.*1.
Proof.
  induction ρ as [|[y j] ρ IH]; [done|]. cbn [fmap list_fmap snd fst assoc position]. intros [Hj Hnd]%NoDup_cons.
  destruct (decide (y = x)) as [->|Hne]; [intros [= ->]; by rewrite decide_True|]. intros Ha. rewrite decide_False, IH; [done..|].
  intros ->%v_name_inj. apply Hj. clear -Ha. induction ρ as [|[z j] ρ IH]; cbn in *; [done|].
  destruct (decide (z = x)); [injection Ha as ->; by left|]. right. by apply IH.
Qed.

Lemma position_unbound ρ x : assoc x ρ = None → position x ρ.*1 = None.
Proof.
  induction ρ as [|[y j] ρ IH]; [done|]. cbn [fmap list_fmap fst assoc position].
  destruct (decide (y = x)); [done|]. by intros ->%IH.
Qed.

Lemma position_free_name l f : position (free_name f) (v_name <$> l) = None.
Proof. induction l as [|i l IH]; [done|]. cbn [fmap list_fmap position]. rewrite decide_False by apply v_name_free. by rewrite IH. Qed.

Lemma canon_nameless t : ∀ ρ k f, NoDup ρ.*2 → Forall (λ i, i < k) ρ.*2 →
  nameless (v_name <$> ρ.*2) (fst (fst (canon ρ t k f))) = nameless ρ.*1 t.
Proof.
  induction t as [x|x body IH|g IHg a IHa]; intros ρ k f Hnd Hk; cbn [canon].
  - destruct (assoc x ρ) as [i|] eqn:E; cbn [fst nameless].
    + by rewrite (position_bound ρ x i).
    + by rewrite position_free_name, (position_unbound ρ x E).
  - specialize (IH ((x, k) :: ρ) (k + 1) f). destruct (canon _ body _ _) as [[b k'] f']. cbn [fst nameless].
    f_equal. apply IH.
    + cbn. apply NoDup_cons. split; [|done]. intros Hin. rewrite Forall_forall in Hk. specialize (Hk k Hin). lia.
    + cbn. constructor; [lia|]. eapply Forall_impl; [exact Hk|]. cbn. lia.
  - specialize (IHg ρ k f Hnd Hk). pose proof (canon_mono g ρ k f) as [Hm _].
    destruct (canon ρ g k f) as [[g' k1] f1]. cbn [fst snd] in *.
    assert (Hk1 : Forall (λ i, i < k1) ρ.*2) by (eapply Forall_impl; [exact Hk|]; cbn; lia).
    specialize (IHa ρ k1 f1 Hnd Hk1). destruct (canon ρ a k1 f1) as [[a' k2] f2]. cbn [fst nameless] in *. by f_equal.
Qed.

(** ** The codec *)

(** C17. Encoding a term and reading the net back gives the term with its bound
    variables renamed [v0], [v1], ... and its free occurrences numbered: the same
    term up to names.  The net is well formed and every port of it is wired.  The
    term is not a lone variable, its agents and free occurrences fit their 32
    bits, and its height plus its longest fan-out chain fit the readback's depth. *)
Theorem encode_decode_lambda t :
  is_var t = false → cost t ≤ u32_MAX → ports_used t ≤ u32_MAX → (height t + spread t ≤ MAX_READBACK_DEPTH)%nat →
  ∃ n, encode_lambda t = Done n ∧ wf n ∧ (∀ b q, valid_port n b q → n.[b, q] ≠ DISCONNECTED) ∧
    decode_lambda n = inl (canonical t) ∧ nameless [] (canonical t) = nameless [] t.
Proof.
  intros Hv Hc Hf Hd. destruct (encode_lambda_spec t Hv Hc Hf) as (n & id & p & E & W & Hw & He & Hr).
  exists n. split_and!; [done|done|done| |].
  - unfold decode_lambda. rewrite He, (Hr n ∅ MAX_READBACK_DEPTH); [done|done| |by intros e H%elem_of_nil|done].
    intros b q [x Hx]. by rewrite lookup_empty in Hx.
  - apply (canon_nameless t [] 0 1); constructor.
Qed.

(** λf. (λx. f (x x)) (λx. f (x x)), applied to a free variable. *)
Definition fixpoint_term : Term :=
  let f := [102] in let x := [120] in
  let half := Lam x (App (Var f) (App (Var x) (Var x))) in
  App (Lam f (App half half)) (Var [121]).

Lemma encode_decode_lambda_witness :
  ∃ n, encode_lambda fixpoint_term = Done n ∧ wf n ∧ (∀ b q, valid_port n b q → n.[b, q] ≠ DISCONNECTED) ∧
    decode_lambda n = inl (canonical fixpoint_term) ∧ nameless [] (canonical fixpoint_term) = nameless [] fixpoint_term.
Proof.
  apply (encode_decode_lambda fixpoint_term); [reflexivity| | |];
    [apply N.leb_le; vm_compute; reflexivity|apply N.leb_le; vm_compute; reflexivity|apply Nat.leb_le; vm_compute; reflexivity].
Defined.

(** What the codec loses: a lone variable encodes as a net with no agents,
    which does not decode; and two occurrences of one free variable come back as
    two different variables. *)
Theorem free_variables_lost x :
  (∃ n, encode_lambda (Var x) = Done n ∧ agents n = [] ∧ decode_lambda n = inr NoEntry) ∧
  ∃ n, encode_lambda (App (Var x) (Var x)) = Done n ∧
    decode_lambda n = inl (App (Var (free_name 1)) (Var (free_name 2))).
Proof.
  split; [by eexists|].
  destruct (encode_lambda_spec (App (Var x) (Var x))) as (n & id & p & E & _ & _ & He & Hr);
    [done|by apply N.leb_le; vm_compute|by apply N.leb_le; vm_compute|].
  exists n. split; [done|]. unfold decode_lambda. rewrite He, (Hr n ∅ MAX_READBACK_DEPTH).
  - reflexivity.
  - done.
  - intros b q [y Hy]. by rewrite lookup_empty in Hy.
  - by intros e H%elem_of_nil.
  - apply Nat.leb_le. vm_compute. reflexivity.
Qed.
