(* ===== verification/Isomorphism.v ===== *)
(** The isomorphism checkers of the benchmarks (bench/isomorphism.rs): two nets
    are compared by a backtracking search for a bijection of their agents, with
    free ports kept as they are or renamed. *)
From S2P Require Import Prelude NetTypes NetCore.
Local Open Scope N_scope.

#[export] Instance Symbol_countable : Countable Symbol.
Proof.
  refine (inj_countable' (λ s, match s with Con => 0 | Dup => 1 | Era => 2 end)
    (λ k : N, match k with 0 => Con | 1 => Dup | _ => Era end) _); by intros [].
Defined.

Module Isomorphism.

(** ** Groups of agents *)

Definition count_agents_by_symbol (n : Net) : gmap Symbol nat :=
  foldl (λ counts ag, <[symbol ag := S (default O (counts !! symbol ag))]> counts) ∅ (live_agents n).

Definition nets_match_counts (a b : Net) : bool := bool_decide (count_agents_by_symbol a = count_agents_by_symbol b).

Definition group_agents_by_symbol (n : Net) : gmap Symbol (list AgentId) :=
  foldl (λ groups ag, <[symbol ag := default [] (groups !! symbol ag) ++ [agent_id ag]]> groups) ∅ (live_agents n).

(** ** Consistency of one pair of agents *)

Definition consistent_port (strict_freeport : bool) (agent_a agent_b : AgentId) (mapping : gmap AgentId AgentId)
    (target_a target_b : PortRef) : bool :=
  match target_a, target_b with
  | AgentPort ta_id ta_port, AgentPort tb_id tb_port =>
      if negb (ta_port =? tb_port) then false
      else if ta_id =? agent_a then tb_id =? agent_b
      else match mapping !! ta_id with
           | Some mapped_b => mapped_b =? tb_id
           | None => true
           end
  | FreePort fa, FreePort fb =>
      if strict_freeport && negb (fa =? fb) then false
      else eqb (fa =? u32_MAX) (fb =? u32_MAX)
  | _, _ => false
  end.

Definition is_consistent_with_fp_strictness (a b : Net) (agent_a agent_b : AgentId) (mapping : gmap AgentId AgentId)
    (strict_freeport : bool) : outcome bool :=
  ag ← unwrap (get_agent a agent_a);
  mret (forallb (λ p, consistent_port strict_freeport agent_a agent_b mapping
                        (get_target a (AgentPort agent_a p)) (get_target b (AgentPort agent_b p)))
          (range_u (total_ports (symbol ag)))).

Definition is_consistent (a b : Net) (agent_a agent_b : AgentId) (mapping : gmap AgentId AgentId) : outcome bool :=
  is_consistent_with_fp_strictness a b agent_a agent_b mapping true.

(** ** The search *)

(** The top of the stack is the head of the list. *)
Record Search : Type := mkSearch {
  stack : list nat;
  index : nat;
  mapping : gmap AgentId AgentId;
  reverse : gmap AgentId AgentId;
}.

Section search.
Context (strict : bool) (a b : Net) (agents_a : list AgentId) (groups_b : gmap Symbol (list AgentId)).

(** [for ci in start..candidates.len()]: the first candidate that is free and
    consistent, with its index. *)
Fixpoint try_candidates (id_a : AgentId) (m r : gmap AgentId AgentId) (ci : nat) (candidates : list AgentId) :
    outcome (option (nat * AgentId)) :=
  match candidates with
  | [] => mret None
  | id_b :: candidates =>
      match r !! id_b with
      | Some _ => try_candidates id_a m r (S ci) candidates
      | None =>
          ok ← is_consistent_with_fp_strictness a b id_a id_b m strict;
          if (ok : bool) then mret (Some (ci, id_b)) else try_candidates id_a m r (S ci) candidates
      end
  end.

(** The candidates of the agent at [index], with the agent. *)
Definition candidates_at (index : nat) : outcome (AgentId * option (list AgentId)) :=
  id_a ← unwrap (agents_a !! index);
  ag ← unwrap (get_agent a id_a);
  mret (id_a, groups_b !! symbol ag).

(** [mapping.insert(id_a, id_b); reverse.insert(id_b, id_a); stack.push(top);
    index += 1]. *)
Definition advance (s : Search) (id_a id_b : AgentId) (top : nat) : Search :=
  mkSearch (top :: stack s) (S (index s)) (<[id_a := id_b]> (mapping s)) (<[id_b := id_a]> (reverse s)).

(** Pop a frame: the search before it, the agent, its candidates and the index
    of the next one; the mapping of the agent is undone. *)
Definition retreat (s : Search) : outcome (option (Search * AgentId * list AgentId * nat)) :=
  match stack s with
  | [] => mret None
  | cand_start :: stack =>
      let index := pred (index s) in
      '(prev_a, prev_candidates) ← candidates_at index;
      prev_candidates ← unwrap prev_candidates;
      let reverse := match mapping s !! prev_a with
                     | Some mapped_b => delete mapped_b (reverse s)
                     | None => reverse s
                     end in
      mret (Some (mkSearch stack index (delete prev_a (mapping s)) reverse, prev_a, prev_candidates, cand_start))
  end.

(** One fuel per turn of the outer loop ([back = false]) or of the loop that
    backtracks ([back = true]).  The turn for a symbol without candidates is the
    one of [backtrack] when [strict]; [backtrack_relaxed] returns. *)
Fixpoint search (fuel : nat) (back : bool) (s : Search) : fueled (bool * Search) :=
  match fuel with
  | O => None
  | S fuel =>
      if back then
        popped ←! Some (retreat s);
        match popped with
        | None => Some (Done (false, s))
        | Some (s, prev_a, prev_candidates, cand_start) =>
            found ←! Some (try_candidates prev_a (mapping s) (reverse s) cand_start (drop cand_start prev_candidates));
            match found with
            | Some (ci, id_b) => search fuel false (advance s prev_a id_b (S ci))
            | None => search fuel true s
            end
        end
      else if decide (index s = length agents_a) then Some (Done (true, s))
      else
        '(id_a, candidates) ←! Some (candidates_at (index s));
        match candidates with
        | None =>
            if strict then
              popped ←! Some (retreat s);
              match popped with
              | None => Some (Done (false, s))
              | Some (s, prev_a, prev_candidates, cand_idx) =>
                  found ←! Some (try_candidates prev_a (mapping s) (reverse s) cand_idx (drop cand_idx prev_candidates));
                  match found with
                  | Some (_, id_b) => search fuel false (advance s prev_a id_b cand_idx)
                  | None => search fuel false s
                  end
              end
            else Some (Done (false, s))
        | Some candidates =>
            found ←! Some (try_candidates id_a (mapping s) (reverse s) 0 candidates);
            match found with
            | Some (ci, id_b) => search fuel false (advance s id_a id_b (S ci))
            | None => search fuel true s
            end
        end
  end.

End search.

Definition backtrack := search true.
Definition backtrack_relaxed := search false.

(** ** The checkers *)

Definition key_le (x y : nat * AgentId) : Prop := (fst x < fst y)%nat ∨ (fst x = fst y ∧ snd x ≤ snd y).
#[export] Instance key_le_dec : RelDecision key_le.
Proof. intros x y. unfold key_le. apply _. Defined.

(** [agents_a.sort_by_key(..)]. *)
Definition ordered_agents (a : Net) (groups_b : gmap Symbol (list AgentId)) : outcome (list AgentId) :=
  keyed ← mapM (λ ag : Agent,
                  ag' ← unwrap (get_agent a (agent_id ag));
                  mret (length (default [] (groups_b !! symbol ag')), agent_id ag)) (live_agents a);
  mret (snd <$> merge_sort key_le keyed).

Definition start : Search := mkSearch [] 0 ∅ ∅.

Definition nets_isomorphic (fuel : nat) (a b : Net) : fueled bool :=
  let counts_a := count_agents_by_symbol a in
  if negb (bool_decide (counts_a = count_agents_by_symbol b)) then Some (Done false)
  else if decide (counts_a = ∅) then Some (Done true)
  else
    let groups_b := group_agents_by_symbol b in
    agents_a ←! Some (ordered_agents a groups_b);
    '(found, _) ←! backtrack a b agents_a groups_b fuel false start;
    Some (Done found).

(** One port of the second pass: the free-port bijection so far, or a clash. *)
Definition match_free_ports (fp : gmap N N * gmap N N) (ta tb : PortRef) : option (gmap N N * gmap N N) :=
  match ta, tb with
  | FreePort fa, FreePort fb =>
      if (fa =? u32_MAX) && (fb =? u32_MAX) then Some fp
      else if (fa =? u32_MAX) || (fb =? u32_MAX) then None
      else match fst fp !! fa with
           | Some prev => if prev =? fb then Some fp else None
           | None => match snd fp !! fb with
                     | Some _ => None
                     | None => Some (<[fa := fb]> (fst fp), <[fb := fa]> (snd fp))
                     end
           end
  | _, _ => Some fp
  end.

(** The wires of a mapped agent, with their images. *)
Definition wire_pairs (a b : Net) (ids : AgentId * AgentId) : outcome (list (PortRef * PortRef)) :=
  ag ← unwrap (get_agent a (fst ids));
  mret ((λ p, (get_target a (AgentPort (fst ids) p), get_target b (AgentPort (snd ids) p)))
        <$> range_u (total_ports (symbol ag))).

Fixpoint match_all (fp : gmap N N * gmap N N) (l : list (PortRef * PortRef)) : bool :=
  match l with
  | [] => true
  | (ta, tb) :: l => match match_free_ports fp ta tb with Some fp => match_all fp l | None => false end
  end.

(** The hash map of the bijection is visited in an unspecified order; the model
    takes [map_to_list]'s. *)
Definition free_port_bijection (a b : Net) (mapping : gmap AgentId AgentId) : outcome bool :=
  pairs ← mapM (wire_pairs a b) (map_to_list mapping);
  mret (match_all (∅, ∅) (concat pairs)).

Definition nets_graph_isomorphic (fuel : nat) (a b : Net) : fueled bool :=
  let counts_a := count_agents_by_symbol a in
  if negb (bool_decide (counts_a = count_agents_by_symbol b)) then Some (Done false)
  else if decide (counts_a = ∅) then Some (Done true)
  else
    let groups_b := group_agents_by_symbol b in
    agents_a ←! Some (ordered_agents a groups_b);
    '(found, s) ←! backtrack_relaxed a b agents_a groups_b fuel false start;
    if (found : bool) then Some (free_port_bijection a b (mapping s)) else Some (Done false).

End Isomorphism.
