(* ===== verification/IsoInv.v ===== *)
(** The backtracking search of Isomorphism.v: it returns on every input, with
    the answer of a recursive search in depth, which is sound and complete. *)
From S2P Require Import Prelude NetTypes NetCore NetInv Isomorphism.
Import Isomorphism.
Local Open Scope N_scope.
Open Scope net_scope.

Notation amap := (gmap AgentId AgentId).

(** ** The recursive search *)

Section search.
Context (strict : bool) (a b : Net) (agents_a : list AgentId) (groups_b : gmap Symbol (list AgentId)).
Context (gs : AgentId → list AgentId).
Hypothesis Hgs : ∀ id, id ∈ agents_a → ∃ ag, get_agent a id = Some ag ∧ groups_b !! symbol ag = Some (gs id).
Hypothesis Hnd : NoDup agents_a.

(** Whether [id] can be mapped to [c]. *)
Definition consistent (id c : AgentId) (m : amap) : bool :=
  match get_agent a id with
  | Some ag => forallb (λ p, consistent_port strict id c m a.[id, p] b.[c, p]) (range_u (total_ports (symbol ag)))
  | None => false
  end.
Definition usable (m r : amap) (id c : AgentId) : bool := bool_decide (r !! c = None) && consistent id c m.

Fixpoint try_with (f : amap → amap → option (amap * amap)) (m r : amap) (id : AgentId) (cs : list AgentId) : option (amap * amap) :=
  match cs with
  | [] => None
  | c :: cs =>
      if usable m r id c then
        match f (<[id := c]> m) (<[c := id]> r) with Some x => Some x | None => try_with f m r id cs end
      else try_with f m r id cs
  end.

Fixpoint dfs (l : list AgentId) (m r : amap) : option (amap * amap) :=
  match l with
  | [] => Some (m, r)
  | id :: l => try_with (dfs l) m r id (gs id)
  end.

(** ** The loop follows the recursive search *)

Fixpoint first_usable (m r : amap) (id : AgentId) (ci : nat) (cs : list AgentId) : option (nat * AgentId) :=
  match cs with
  | [] => None
  | c :: cs => if usable m r id c then Some (ci, c) else first_usable m r id (S ci) cs
  end.

Lemma try_candidates_pure id m r cs : ∀ ci, id ∈ agents_a →
  try_candidates strict a b id m r ci cs = Done (first_usable m r id ci cs).
Proof.
  induction cs as [|c cs IH]; intros ci Hid; cbn [try_candidates first_usable]; [done|].
  destruct (Hgs id Hid) as (ag & Ha & _). unfold usable, consistent. rewrite Ha.
  destruct (r !! c) eqn:Er; [rewrite bool_decide_false by done; by apply IH|]. rewrite bool_decide_true by done.
  unfold is_consistent_with_fp_strictness. rewrite Ha. cbn [unwrap mbind outcome_bind andb].
  destruct (forallb _ _); [done|]. by apply IH.
Qed.

Lemma candidates_at_pure i id : agents_a !! i = Some id → candidates_at a agents_a groups_b i = Done (id, Some (gs id)).
Proof.
  intros Hi. unfold candidates_at. rewrite Hi. cbn [unwrap mbind outcome_bind].
  destruct (Hgs id) as (ag & Ha & Hg); [by eapply list_elem_of_lookup_2|]. rewrite Ha. cbn. by rewrite Hg.
Qed.

Lemma try_with_first f m r id cs : ∀ ci,
  try_with f m r id cs =
    match first_usable m r id ci cs with
    | Some (cj, c) => match f (<[id := c]> m) (<[c := id]> r) with
                      | Some x => Some x
                      | None => try_with f m r id (drop (S cj - ci) cs)
                      end
    | None => None
    end.
Proof.
  induction cs as [|c cs IH]; intros ci; cbn [try_with first_usable]; [done|].
  destruct (usable m r id c) eqn:Eu.
  - replace (S ci - ci)%nat with 1%nat by lia. cbn [drop]. by rewrite drop_0.
  - rewrite (IH (S ci)). destruct (first_usable m r id (S ci) cs) as [[cj c']|] eqn:Ef; [|done].
    destruct (f _ _); [done|].
    assert (Hlt : (S ci ≤ cj)%nat).
    { clear -Ef. revert ci Ef. induction cs as [|c0 cs IH]; intros ci; cbn; [done|].
      destruct (usable m r id c0); [intros [= <- _]; lia|]. intros E%IH. lia. }
    replace (S cj - ci)%nat with (S (S cj - S ci)) by lia. done.
Qed.

Lemma first_usable_Some m r id cs : ∀ ci cj c, first_usable m r id ci cs = Some (cj, c) →
  (ci ≤ cj)%nat ∧ (cj < ci + length cs)%nat ∧ usable m r id c = true ∧ c ∈ cs.
Proof.
  induction cs as [|c0 cs IH]; intros ci cj c; cbn; [done|]. destruct (usable m r id c0) eqn:Eu.
  - intros [= <- <-]. split_and!; [lia|lia|done|by left].
  - intros (H1 & H2 & H3 & H4)%IH. split_and!; [lia|lia|done|by right].
Qed.

(** What the loop does once it is at [back] in state [s], with enough fuel. *)
Definition ends (back : bool) (s : Search) (o : option (amap * amap)) (s' : Search) : Prop :=
  ∃ k, match o with
       | Some (m, r) => ∃ st, ∀ fuel, search strict a b agents_a groups_b (k + fuel) back s =
                          Some (Done (true, mkSearch st (length agents_a) m r))
       | None => ∀ fuel, search strict a b agents_a groups_b (k + fuel) back s = search strict a b agents_a groups_b fuel true s'
       end.

(** The state once candidate [ci] on of [id] has been looked for. *)
Definition resume (fuel : nat) (s : Search) (id : AgentId) (ci : nat) : fueled (bool * Search) :=
  match first_usable (mapping s) (reverse s) id ci (drop ci (gs id)) with
  | Some (cj, c) => search strict a b agents_a groups_b fuel false (advance s id c (S cj))
  | None => search strict a b agents_a groups_b fuel true s
  end.

Lemma search_enter s id fuel : agents_a !! index s = Some id →
  search strict a b agents_a groups_b (S fuel) false s = resume fuel s id 0.
Proof.
  intros Hi. cbn [search]. pose proof (lookup_lt_Some _ _ _ Hi) as Hlt.
  rewrite decide_False by (intros E; rewrite E in Hlt; lia). rewrite (candidates_at_pure _ id Hi). cbn [run_bind].
  rewrite try_candidates_pure by by eapply list_elem_of_lookup_2. cbn [run_bind]. unfold resume. rewrite drop_0.
  by destruct (first_usable _ _ _ _ _) as [[cj c]|].
Qed.

Lemma search_back s id c ci fuel : agents_a !! index s = Some id → mapping s !! id = None → reverse s !! c = None →
  search strict a b agents_a groups_b (S fuel) true (advance s id c ci) = resume fuel s id ci.
Proof.
  intros Hi Hm Hr. cbn [search]. unfold retreat. cbn [advance stack index mapping reverse pred].
  rewrite (candidates_at_pure _ id Hi). cbn [mbind outcome_bind unwrap run_bind].
  unfold mret, outcome_ret. cbn [run_bind]. rewrite lookup_insert_eq, !delete_insert_id by done.
  cbn [mapping reverse]. rewrite try_candidates_pure by by eapply list_elem_of_lookup_2. cbn [run_bind].
  replace (mkSearch (stack s) (index s) (mapping s) (reverse s)) with s by by destruct s.
  unfold resume. by destruct (first_usable _ _ _ _ _) as [[cj c']|].
Qed.

(** One agent: its candidates from [ci] on, given the search below it. *)
Lemma ends_resume l id : (S (length l) ≤ length agents_a)%nat → agents_a !! (length agents_a - S (length l))%nat = Some id →
  (∀ s, index s = (length agents_a - length l)%nat → (∀ x, x ∈ l → mapping s !! x = None) →
     ends false s (dfs l (mapping s) (reverse s)) s) →
  id ∉ l →
  ∀ n ci s, (length (gs id) - ci < n)%nat → index s = (length agents_a - S (length l))%nat →
    (∀ x, x ∈ id :: l → mapping s !! x = None) →
    ∃ k, match try_with (dfs l) (mapping s) (reverse s) id (drop ci (gs id)) with
         | Some (m, r) => ∃ st, ∀ fuel, resume (k + fuel) s id ci = Some (Done (true, mkSearch st (length agents_a) m r))
         | None => ∀ fuel, resume (k + fuel) s id ci = search strict a b agents_a groups_b fuel true s
         end.
Proof.
  intros Hll Hi IH Hni. induction n as [|n IHn]; intros ci s Hn Hix Hm; [lia|].
  rewrite (try_with_first _ _ _ _ _ ci). unfold resume.
  destruct (first_usable (mapping s) (reverse s) id ci (drop ci (gs id))) as [[cj c]|] eqn:Ef; [|by exists 0%nat].
  destruct (first_usable_Some _ _ _ _ _ _ _ Ef) as (Hle & Hlt & Hu & _). rewrite length_drop in Hlt.
  apply andb_true_iff in Hu as [Hr%bool_decide_eq_true _].
  pose proof (lookup_lt_Some _ _ _ Hi) as Hlen.
  destruct (IH (advance s id c (S cj))) as [k1 Hk1]; [cbn; lia| |].
  { intros x Hx. cbn. rewrite lookup_insert_ne by (by intros ->). apply Hm. by right. }
  cbn [advance mapping reverse] in Hk1. destruct (dfs l _ _) as [[m r]|]; [by exists k1|].
  rewrite drop_drop. replace (ci + (S cj - ci))%nat with (S cj) by lia.
  destruct (IHn (S cj) s ltac:(lia) Hix Hm) as [k2 Hk2]. exists (k1 + S k2)%nat.
  assert (Hstep : ∀ fuel, search strict a b agents_a groups_b (k1 + S k2 + fuel) false (advance s id c (S cj)) = resume (k2 + fuel) s id (S cj)).
  { intros fuel. replace (k1 + S k2 + fuel)%nat with (k1 + S (k2 + fuel))%nat by lia. rewrite Hk1.
    apply search_back; [by rewrite Hix|apply Hm; by left|done]. }
  destruct (try_with _ _ _ _ _) as [[m r]|].
  - destruct Hk2 as [st Hst]. exists st. intros fuel. by rewrite Hstep.
  - intros fuel. by rewrite Hstep.
Qed.

Lemma ends_dfs l : ∀ pre s, agents_a = pre ++ l → index s = length pre → (∀ x, x ∈ l → mapping s !! x = None) →
  ends false s (dfs l (mapping s) (reverse s)) s.
Proof.
  induction l as [|id l IH]; intros pre s Hl Hi Hm.
  - exists 1%nat. cbn [dfs]. exists (stack s). intros fuel. cbn [search Nat.add].
    rewrite app_nil_r in Hl. rewrite decide_True by congruence. subst pre. rewrite <- Hi. by destruct s.
  - assert (Hlen : length agents_a = (length pre + S (length l))%nat) by (by rewrite Hl, length_app).
    assert (Hat : agents_a !! length pre = Some id) by (rewrite Hl; by apply list_lookup_middle).
    assert (Hid : id ∉ l).
    { pose proof Hnd as H. rewrite Hl in H. by apply NoDup_app in H as (_ & _ & [Hid _]%NoDup_cons). }
    destruct (ends_resume l id) with (n := S (length (gs id))) (ci := 0%nat) (s := s) as [k Hk].
    + lia.
    + by replace (length agents_a - S (length l))%nat with (length pre) by lia.
    + intros s' Hs' Hm'. apply (IH (pre ++ [id])); [by rewrite <- app_assoc|rewrite length_app; cbn; lia|done].
    + done.
    + lia.
    + lia.
    + done.
    + exists (S k). cbn [dfs]. rewrite drop_0 in Hk.
      assert (Hs : ∀ fuel, search strict a b agents_a groups_b (S k + fuel) false s = resume (k + fuel) s id 0)
        by (intros fuel; apply search_enter; by rewrite Hi).
      destruct (try_with _ _ _ _ _) as [[m r]|].
      * destruct Hk as [st Hst]. exists st. intros fuel. by rewrite Hs.
      * intros fuel. by rewrite Hs.
Qed.

(** The search returns, with the answer of [dfs]. *)
Lemma search_dfs : ∃ fuel0, ∀ fuel, (fuel0 ≤ fuel)%nat →
  ∃ found s, search strict a b agents_a groups_b fuel false start = Some (Done (found, s)) ∧
    match dfs agents_a ∅ ∅ with
    | Some (m, r) => found = true ∧ mapping s = m
    | None => found = false
    end.
Proof.
  destruct (ends_dfs agents_a [] start) as [k Hk]; [done|done|intros x _; apply lookup_empty|]. cbn [start mapping reverse] in Hk.
  destruct (dfs agents_a ∅ ∅) as [[m r]|].
  - destruct Hk as [st Hst]. exists k. intros fuel Hf. replace fuel with (k + (fuel - k))%nat by lia.
    rewrite Hst. eexists _, _. split; [done|]. done.
  - exists (k + 1)%nat. intros fuel Hf. replace fuel with (k + S (fuel - k - 1))%nat by lia. rewrite Hk.
    by eexists _, _.
Qed.

End search.

(** ** Matchings *)

(** The target [tb] is the image of [ta] under [f]; free ports are kept when
    [strict], and a disconnected port is always matched to one. *)
Definition ref_match (strict : bool) (f : AgentId → AgentId) (ta tb : PortRef) : Prop :=
  match ta with
  | AgentPort x q => tb = AgentPort (f x) q
  | FreePort fa => ∃ fb, tb = FreePort fb ∧ (strict = true → fb = fa) ∧ (fa = u32_MAX ↔ fb = u32_MAX)
  end.

(** [f] is a bijection of the live agents that keeps symbols and wires. *)
Record matching (strict : bool) (a b : Net) (f : AgentId → AgentId) : Prop := {
  mt_symbol : ∀ id ag, get_agent a id = Some ag → symbol <$> get_agent b (f id) = Some (symbol ag);
  mt_inj : ∀ x y, live a x → live a y → f x = f y → x = y;
  mt_surj : ∀ y, live b y → ∃ x, live a x ∧ f x = y;
  mt_wire : ∀ id p, valid_port a id p → ref_match strict f a.[id, p] b.[f id, p];
}.

Section correct.
Context (strict : bool) (a b : Net) (Hwa : wf a) (Hwb : wf b).
Context (gs : AgentId → list AgentId).
Hypothesis Hcand : ∀ id ag c, get_agent a id = Some ag → c ∈ gs id ↔ symbol <$> get_agent b c = Some (symbol ag).

(** A partial matching: what the search has checked so far. *)
Definition partial_ref (m : amap) (ta tb : PortRef) : Prop :=
  match ta, tb with
  | AgentPort x q, AgentPort y q' => q' = q ∧ ∀ c, m !! x = Some c → y = c
  | FreePort fa, FreePort fb => (strict = true → fb = fa) ∧ (fa = u32_MAX ↔ fb = u32_MAX)
  | _, _ => False
  end.

Record partial (m r : amap) : Prop := {
  pt_symbol : ∀ x c, m !! x = Some c → ∃ ag, get_agent a x = Some ag ∧ symbol <$> get_agent b c = Some (symbol ag);
  pt_wire : ∀ x c p, m !! x = Some c → valid_port a x p → partial_ref m a.[x, p] b.[c, p];
  pt_inv : ∀ x c, r !! c = Some x ↔ m !! x = Some c;
}.

Lemma partial_empty : partial ∅ ∅.
Proof. split; intros *; rewrite ?lookup_empty; done. Qed.

(** The check of one port is the relation, with the pair itself in the map. *)
Lemma consistent_port_spec id c m ta tb : m !! id = None →
  consistent_port strict id c m ta tb = true ↔ partial_ref (<[id := c]> m) ta tb.
Proof.
  intros Hm. destruct ta as [x q|fa], tb as [y q'|fb]; cbn; [|done|done|].
  - destruct (N.eqb_spec q q') as [<-|Hq]; cbn; [|split; [done|]; by intros [-> _]].
    destruct (N.eqb_spec x id) as [->|Hx].
    + rewrite lookup_insert_eq, N.eqb_eq. split; [intros ->; by split; [|intros ? [= ->]]|]. intros [_ H]. by apply H.
    + rewrite lookup_insert_ne by done. destruct (m !! x) as [d|].
      * rewrite N.eqb_eq. split; [intros ->; by split; [|intros ? [= ->]]|]. intros [_ H]. symmetry. by apply H.
      * by split.
  - assert (He : eqb (fa =? u32_MAX) (fb =? u32_MAX) = true ↔ (fa = u32_MAX ↔ fb = u32_MAX)).
    { rewrite eqb_true_iff, eq_iff_eq_true, !N.eqb_eq. done. }
    destruct strict; cbn [andb]; [|rewrite He; naive_solver].
    destruct (N.eqb_spec fa fb) as [->|Hne]; cbn [negb]; [rewrite He; naive_solver|]. split; [done|]. intros [H _]. by rewrite H in Hne.
Qed.

Lemma consistent_spec id c m ag : get_agent a id = Some ag → m !! id = None →
  consistent strict a b id c m = true ↔ ∀ p, valid_port a id p → partial_ref (<[id := c]> m) a.[id, p] b.[c, p].
Proof.
  intros Ha Hm. unfold consistent. rewrite Ha, forallb_forall. split.
  - intros H p (ag' & Ha' & Hp). replace ag' with ag in Hp by congruence. apply consistent_port_spec; [done|].
    apply H, list_elem_of_In, elem_of_range_u, Hp.
  - intros H p Hp%list_elem_of_In%elem_of_range_u. apply consistent_port_spec; [done|]. apply H. by exists ag.
Qed.

(** A usable pair extends a partial matching. *)
Lemma partial_insert m r id c ag : partial m r → get_agent a id = Some ag → m !! id = None → r !! c = None →
  symbol <$> get_agent b c = Some (symbol ag) → consistent strict a b id c m = true →
  partial (<[id := c]> m) (<[c := id]> r).
Proof.
  intros [Ps Pw Pi] Ha Hm Hr Hs Hc. rewrite (consistent_spec id c m ag Ha Hm) in Hc. split.
  - intros x d. rewrite lookup_insert_Some. intros [[<- <-]|[_ Hx]]; [by exists ag|by apply Ps].
  - intros x d p Hx Hv. destruct (decide (x = id)) as [->|Hne].
    { rewrite lookup_insert_eq in Hx. injection Hx as <-. by apply Hc. }
    rewrite lookup_insert_ne in Hx by done. pose proof (Pw x d p Hx Hv) as Hxp.
    destruct (a.[x, p]) as [y q|fa] eqn:Ea, (b.[d, p]) as [z q'|fb] eqn:Eb; cbn [partial_ref] in Hxp |- *; try done.
    destruct Hxp as [-> Hy]. split; [done|]. intros e. destruct (decide (y = id)) as [->|Hyn].
    + rewrite lookup_insert_eq. intros [= <-].
      destruct (wf_sym a Hwa x p id q ltac:(eauto with net) Ea) as (Hvq & Hback & _).
      pose proof (Hc q Hvq) as Hq. rewrite Hback in Hq.
      destruct (b.[c, q]) as [z' q''|] eqn:Ec; cbn [partial_ref] in Hq; [|done]. destruct Hq as [-> Hq].
      rewrite lookup_insert_ne in Hq by done. specialize (Hq d Hx). subst z'.
      destruct (wf_sym b Hwb c q d p ltac:(eauto with net) Ec) as (_ & Hback' & _). congruence.
    + rewrite lookup_insert_ne by done. by apply Hy.
  - intros x d. rewrite !lookup_insert_Some. split.
    + intros [[<- <-]|[Hne Hx%Pi]]; [by left|]. right. split; [|done]. intros ->. congruence.
    + intros [[<- <-]|[Hne Hx]]; [by left|]. right. apply Pi in Hx. split; [|done]. intros ->. congruence.
Qed.

(** ** Soundness *)

Lemma try_with_sound f m r id cs x : try_with strict a b f m r id cs = Some x →
  ∃ c, c ∈ cs ∧ usable strict a b m r id c = true ∧ f (<[id := c]> m) (<[c := id]> r) = Some x.
Proof.
  induction cs as [|c cs IH]; cbn; [done|]. destruct (usable _ _ _ _ _ _ _) eqn:Eu.
  - destruct (f _ _) as [y|] eqn:Ef; [intros [= ->]; exists c; split_and!; [by left|done|done]|].
    intros (d & ? & ? & ?)%IH. exists d. split_and!; [by right|done|done].
  - intros (d & ? & ? & ?)%IH. exists d. split_and!; [by right|done|done].
Qed.

Lemma dfs_sound l : ∀ m r m' r', NoDup l → (∀ id, id ∈ l → live a id ∧ m !! id = None) → partial m r →
  dfs strict a b gs l m r = Some (m', r') →
  partial m' r' ∧ (∀ id, is_Some (m' !! id) ↔ is_Some (m !! id) ∨ id ∈ l).
Proof.
  induction l as [|id l IH]; intros m r m' r' Hnd Hl Hp; cbn [dfs].
  - intros [= <- <-]. split; [done|]. intros id. rewrite elem_of_nil. naive_solver.
  - apply NoDup_cons in Hnd as [Hid Hnd]. destruct (Hl id ltac:(by left)) as [[ag Ha] Hm].
    intros (c & Hc & [Hr%bool_decide_eq_true Hcons]%andb_true_iff & Hd)%try_with_sound.
    apply IH in Hd as [Hp' Hdom]; [|done| |].
    + split; [done|]. intros x. rewrite Hdom, lookup_insert_is_Some, elem_of_cons. destruct (decide (id = x)); naive_solver.
    + intros x Hx. destruct (Hl x ltac:(by right)) as [Hlx Hmx]. split; [done|].
      rewrite lookup_insert_ne; [done|]. by intros ->.
    + eapply partial_insert; eauto. by apply (Hcand id ag c Ha).
Qed.

(** A total partial matching, onto the live agents of [b]. *)
Lemma partial_matching m r : partial m r → (∀ id, is_Some (m !! id) ↔ live a id) →
  (∀ y, live b y → ∃ x, m !! x = Some y) → matching strict a b (λ id, default 0 (m !! id)).
Proof.
  intros [Ps Pw Pi] Hdom Hs. split.
  - intros id ag Ha. destruct (proj2 (Hdom id) ltac:(by exists ag)) as [c Hc]. rewrite Hc. cbn.
    destruct (Ps id c Hc) as (ag' & Ha' & Hb). congruence.
  - intros x y [c Hc]%Hdom [d Hd]%Hdom. rewrite Hc, Hd. cbn. intros ->. apply Pi in Hc, Hd. congruence.
  - intros y Hy. destruct (Hs y Hy) as [x Hx]. exists x. rewrite Hx. split; [|done]. apply Hdom. by exists y.
  - intros id p Hv. destruct (proj2 (Hdom id) ltac:(by eapply valid_port_live)) as [c Hc]. rewrite Hc. change (default 0 (Some c)) with c.
    pose proof (Pw id c p Hc Hv) as Hpr. destruct (a.[id, p]) as [x q|fa] eqn:Ea, (b.[c, p]) as [y q'|fb]; cbn [partial_ref ref_match] in Hpr |- *; try done.
    + destruct Hpr as [-> Hx]. destruct (wf_sym a Hwa id p x q ltac:(eauto with net) Ea) as (Hvx & _ & _).
      destruct (proj2 (Hdom x) ltac:(by eapply valid_port_live)) as [d Hd]. rewrite Hd, (Hx d Hd). done.
    + by exists fb.
Qed.

(** ** Completeness *)

Lemma try_with_complete f m r id cs c : c ∈ cs → usable strict a b m r id c = true →
  f (<[id := c]> m) (<[c := id]> r) ≠ None → try_with strict a b f m r id cs ≠ None.
Proof.
  induction cs as [|d cs IH]; intros Hin Hu Hf; [by apply elem_of_nil in Hin|]. cbn.
  apply elem_of_cons in Hin as [<-|Hin].
  - rewrite Hu. by destruct (f _ _).
  - destruct (usable _ _ _ m r id d); [|by apply IH]. destruct (f (<[id := d]> m) _); [done|by apply IH].
Qed.

Lemma dfs_complete f l : matching strict a b f → ∀ m r, NoDup l → (∀ id, id ∈ l → live a id ∧ m !! id = None) →
  partial m r → (∀ x c, m !! x = Some c → c = f x) → dfs strict a b gs l m r ≠ None.
Proof.
  intros [Fs Fi _ Fw]. induction l as [|id l IH]; intros m r Hnd Hl Hp Hf; cbn [dfs]; [done|].
  apply NoDup_cons in Hnd as [Hid Hnd]. destruct (Hl id ltac:(by left)) as [[ag Ha] Hm].
  assert (Hr : r !! f id = None).
  { destruct (r !! f id) as [x|] eqn:E; [|done]. apply (pt_inv m r Hp) in E.
    destruct (pt_symbol m r Hp x _ E) as (ag' & Ha' & _). pose proof (Hf x _ E) as Hx.
    replace id with x in Hm by (apply Fi; [by exists ag'|by exists ag|done]). congruence. }
  assert (Hc : consistent strict a b id (f id) m = true).
  { apply (consistent_spec id (f id) m ag Ha Hm). intros p Hv. pose proof (Fw id p Hv) as Hw.
    destruct (a.[id, p]) as [x q|fa]; cbn [partial_ref ref_match] in Hw |- *; [rewrite Hw|destruct Hw as (fb & -> & ? & ?); done].
    split; [done|]. intros c. rewrite lookup_insert_Some. intros [[<- <-]|[_ Hx]]; [done|]. symmetry. by apply Hf. }
  eapply (try_with_complete _ _ _ _ _ (f id)).
  - apply (Hcand id ag _ Ha). by apply Fs.
  - unfold usable. by rewrite bool_decide_true, Hc.
  - apply IH; [done| | |].
    + intros x Hx. destruct (Hl x ltac:(by right)) as [Hlx Hmx]. split; [done|]. rewrite lookup_insert_ne; [done|by intros ->].
    + eapply partial_insert; eauto.
    + intros x c. rewrite lookup_insert_Some. intros [[<- <-]|[_ Hx]]; [done|by apply Hf].
Qed.

End correct.
