(* ===== verification/IsoSpec.v ===== *)
(** The isomorphism checkers decide what they say: [nets_isomorphic] whether two
    nets are the same up to the ids of their agents, [nets_graph_isomorphic]
    also up to the labels of their free ports, when no label occurs twice. *)
From S2P Require Import Prelude NetTypes NetCore NetInv NetDebug Isomorphism IsoInv.
Import Isomorphism.
Local Open Scope N_scope.
Open Scope net_scope.

(** ** Live agents by symbol *)

Definition ids_of (s : Symbol) (l : list Agent) : list AgentId := agent_id <$> filter (λ ag, symbol ag = s) l.

Lemma ids_of_snoc s l ag : ids_of s (l ++ [ag]) = ids_of s l ++ (if decide (symbol ag = s) then [agent_id ag] else []).
Proof. unfold ids_of. rewrite filter_app, fmap_app. cbn. by case_decide. Qed.

Lemma count_lookup n s :
  count_agents_by_symbol n !! s = match length (ids_of s (live_agents n)) with O => None | k => Some k end.
Proof.
  unfold count_agents_by_symbol. induction (live_agents n) as [|ag l IH] using rev_ind; [done|].
  rewrite foldl_snoc, ids_of_snoc, length_app. destruct (decide (symbol ag = s)) as [->|Hne].
  - rewrite lookup_insert_eq, IH. cbn. rewrite Nat.add_1_r. by destruct (length (ids_of s l)).
  - rewrite lookup_insert_ne by done. cbn. by rewrite Nat.add_0_r.
Qed.

Lemma group_lookup n s :
  group_agents_by_symbol n !! s = match ids_of s (live_agents n) with [] => None | l => Some l end.
Proof.
  unfold group_agents_by_symbol. induction (live_agents n) as [|ag l IH] using rev_ind; [done|].
  rewrite foldl_snoc, ids_of_snoc. destruct (decide (symbol ag = s)) as [->|Hne].
  - rewrite lookup_insert_eq, IH. by destruct (ids_of s l).
  - rewrite lookup_insert_ne by done. by rewrite app_nil_r.
Qed.

Lemma counts_equal a b : count_agents_by_symbol a = count_agents_by_symbol b ↔
  ∀ s, length (ids_of s (live_agents a)) = length (ids_of s (live_agents b)).
Proof.
  split.
  - intros H s. pose proof (f_equal (lookup s) H) as Hs. rewrite !count_lookup in Hs.
    destruct (length (ids_of s (live_agents a))), (length (ids_of s (live_agents b))); congruence.
  - intros H. apply map_eq. intros s. by rewrite !count_lookup, H.
Qed.

Lemma elem_of_live n ag : wf n → ag ∈ live_agents n ↔ get_agent n (agent_id ag) = Some ag.
Proof.
  intros Hwf. unfold live_agents. rewrite list_elem_of_omap. split.
  - intros (o & [i Hi]%list_elem_of_lookup & Ho). cbn in Ho. subst o.
    assert (Hg : get_agent n (N.of_nat i) = Some ag) by (unfold get_agent; rewrite Nat2N.id, Hi; done).
    pose proof (wf_ids n Hwf _ _ Hg) as ->. done.
  - intros Hg. unfold get_agent in Hg. destruct (agents n !! N.to_nat (agent_id ag)) as [o|] eqn:E; [|done].
    exists (Some ag). split; [|done]. cbn in Hg. subst o. by eapply list_elem_of_lookup_2.
Qed.

Lemma elem_of_ids_of n s id : wf n → id ∈ ids_of s (live_agents n) ↔ symbol <$> get_agent n id = Some s.
Proof.
  intros Hwf. unfold ids_of. rewrite list_elem_of_fmap. split.
  - intros (ag & -> & [Hs Hin]%list_elem_of_filter). apply elem_of_live in Hin; [|done]. by rewrite Hin, <- Hs.
  - destruct (get_agent n id) as [ag|] eqn:E; [|done]. intros [= Hs]. pose proof (wf_ids n Hwf id ag E) as Hid.
    exists ag. split; [done|]. apply list_elem_of_filter. split; [done|]. apply elem_of_live; [done|]. by rewrite Hid.
Qed.

Lemma live_agent_ids_nodup n : wf n → NoDup (agent_id <$> live_agents n).
Proof.
  intros Hwf. unfold live_agents.
  assert (H : ∀ l k, (∀ i ag, l !! i = Some (Some ag) → agent_id ag = N.of_nat (k + i)) →
    NoDup (agent_id <$> omap id l) ∧ ∀ x, x ∈ agent_id <$> omap id l → N.of_nat k ≤ x).
  { induction l as [|o l IH]; intros k Hk; [split; [constructor|by intros x ?%elem_of_nil]|].
    destruct (IH (S k)) as [Hnd Hlo]; [intros i ag Hi; rewrite (Hk (S i) ag Hi); lia|].
    destruct o as [ag|]; cbn [omap list_omap id fmap list_fmap].
    - pose proof (Hk 0%nat ag eq_refl) as Hag. split.
      + apply NoDup_cons. split; [|done]. intros Hin%Hlo. lia.
      + intros x [->|Hx%Hlo]%elem_of_cons; lia.
    - split; [done|]. intros x Hx%Hlo. lia. }
  apply (H (agents n) 0%nat). intros i ag Hi. cbn.
  symmetry. rewrite <- (wf_ids n Hwf (N.of_nat i) ag); [done|]. unfold get_agent. by rewrite Nat2N.id, Hi.
Qed.

Lemma ids_of_nodup n s : wf n → NoDup (ids_of s (live_agents n)).
Proof.
  intros Hwf. unfold ids_of. eapply sublist_NoDup; [by apply live_agent_ids_nodup|]. apply fmap_sublist, sublist_filter.
Qed.

(** ** The order of the search *)

Lemma mapM_Done {A B} (f : A → outcome B) (g : A → B) l : (∀ x, x ∈ l → f x = Done (g x)) → mapM f l = Done (g <$> l).
Proof.
  induction l as [|x l IH]; intros H; [done|]. cbn. rewrite (H x) by by left. cbn.
  rewrite IH; [done|]. intros y Hy. apply H. by right.
Qed.

Lemma ordered_agents_spec a groups_b : wf a →
  ∃ l, ordered_agents a groups_b = Done l ∧ l ≡ₚ agent_id <$> live_agents a.
Proof.
  intros Hwf. unfold ordered_agents.
  rewrite (mapM_Done _ (λ ag, (length (default [] (groups_b !! symbol ag)), agent_id ag))).
  - cbn [mbind outcome_bind]. eexists. split; [done|]. rewrite merge_sort_Permutation. by rewrite <- list_fmap_compose.
  - intros ag Hin%elem_of_live; [|done]. by rewrite Hin.
Qed.

(** ** Matchings and counts *)

Lemma matching_counts strict a b f : wf a → wf b → matching strict a b f →
  count_agents_by_symbol a = count_agents_by_symbol b.
Proof.
  intros Wa Wb [Ms Mi Mj _]. apply counts_equal. intros s. rewrite <- (length_fmap f). apply Permutation_length, NoDup_Permutation.
  - apply NoDup_fmap_2_strong; [|by apply ids_of_nodup]. intros x y Hx%elem_of_ids_of Hy%elem_of_ids_of; [|done..].
    apply Mi; unfold live; [by destruct (get_agent a x)|by destruct (get_agent a y)].
  - by apply ids_of_nodup.
  - intros y. rewrite list_elem_of_fmap, elem_of_ids_of by done. split.
    + intros (x & -> & Hx%elem_of_ids_of); [|done]. destruct (get_agent a x) as [ag|] eqn:E; [|done].
      rewrite (Ms x ag E). done.
    + intros Hy. destruct (Mj y) as (x & [ag Hx] & <-); [unfold live; by destruct (get_agent b y)|].
      exists x. split; [done|]. apply elem_of_ids_of; [done|]. rewrite Hx. rewrite (Ms x ag Hx) in Hy. done.
Qed.

(** An injection that keeps symbols is onto when the counts agree. *)
Lemma matching_onto a b (m r : amap) : wf a → wf b → count_agents_by_symbol a = count_agents_by_symbol b →
  partial false a b m r ∨ partial true a b m r → (∀ id, is_Some (m !! id) ↔ live a id) →
  ∀ y, live b y → ∃ x, m !! x = Some y.
Proof.
  intros Wa Wb Hc Hp Hdom y [ag Hy]. set (s := symbol ag).
  assert (Hs : ∀ x c, m !! x = Some c → symbol <$> get_agent b c = symbol <$> get_agent a x).
  { intros x c Hx. destruct Hp as [Hp|Hp]; destruct (pt_symbol _ _ _ _ _ Hp x c Hx) as (ag' & -> & ->); done. }
  assert (Hi : ∀ x x' c, m !! x = Some c → m !! x' = Some c → x = x').
  { intros x x' c H1 H2. destruct Hp as [Hp|Hp]; apply (pt_inv _ _ _ _ _ Hp) in H1, H2; congruence. }
  set (f := λ x, default 0 (m !! x)).
  assert (Hf : ∀ x, live a x → m !! x = Some (f x)).
  { intros x [c Hx]%Hdom. unfold f. by rewrite Hx. }
  assert (Hlive : ∀ x, x ∈ ids_of s (live_agents a) → live a x).
  { intros x Hx%elem_of_ids_of; [|done]. unfold live. by destruct (get_agent a x). }
  assert (Hyin : y ∈ f <$> ids_of s (live_agents a)).
  { apply list_elem_of_In. eapply (NoDup_length_incl (l := f <$> ids_of s (live_agents a)) (l' := ids_of s (live_agents b))).
    - apply NoDup_ListNoDup, NoDup_fmap_2_strong; [|by apply ids_of_nodup]. intros x x' Hx%Hlive%Hf Hx'%Hlive%Hf E.
      rewrite E in Hx. by eapply Hi.
    - rewrite length_fmap. apply counts_equal with (s := s) in Hc. lia.
    - intros z Hz%list_elem_of_In. apply list_elem_of_fmap in Hz as (x & -> & Hx). apply list_elem_of_In.
      apply elem_of_ids_of; [done|]. rewrite (Hs x); [by apply elem_of_ids_of|by apply Hf, Hlive].
    - apply list_elem_of_In, elem_of_ids_of; [done|]. by rewrite Hy. }
  apply list_elem_of_fmap in Hyin as (x & -> & Hx). exists x. by apply Hf, Hlive.
Qed.

(** ** The search finds a matching exactly when there is one *)

Lemma search_matching strict a b : wf a → wf b → count_agents_by_symbol a = count_agents_by_symbol b →
  ∃ l fuel0, ordered_agents a (group_agents_by_symbol b) = Done l ∧ ∀ fuel, (fuel0 ≤ fuel)%nat →
    ∃ found s, search strict a b l (group_agents_by_symbol b) fuel false start = Some (Done (found, s)) ∧
      (found = true → matching strict a b (λ id, default 0 (mapping s !! id)) ∧ ∀ id, is_Some (mapping s !! id) ↔ live a id) ∧
      ((∃ f, matching strict a b f) → found = true).
Proof.
  intros Wa Wb Hc. destruct (ordered_agents_spec a (group_agents_by_symbol b) Wa) as (l & El & Hl).
  assert (Hnd : NoDup l) by (rewrite Hl; by apply live_agent_ids_nodup).
  assert (Hlive : ∀ id, id ∈ l ↔ live a id).
  { intros id. rewrite Hl, list_elem_of_fmap. split.
    - intros (ag & -> & Hag%elem_of_live); [by exists ag|done].
    - intros [ag Hag]. exists ag. pose proof (wf_ids a Wa id ag Hag) as Hid. split; [done|]. apply elem_of_live; [done|]. by rewrite Hid. }
  set (gs := λ id, match get_agent a id with Some ag => ids_of (symbol ag) (live_agents b) | None => [] end).
  assert (Hgs : ∀ id, id ∈ l → ∃ ag, get_agent a id = Some ag ∧ group_agents_by_symbol b !! symbol ag = Some (gs id)).
  { intros id [ag Ha]%Hlive. exists ag. split; [done|]. unfold gs. rewrite group_lookup, Ha.
    pose proof (proj1 (counts_equal a b) Hc (symbol ag)) as Hlen.
    destruct (ids_of (symbol ag) (live_agents b)); [|done]. cbn in Hlen.
    assert (Hin : id ∈ ids_of (symbol ag) (live_agents a)) by (apply elem_of_ids_of; [done|]; by rewrite Ha).
    destruct (ids_of (symbol ag) (live_agents a)); [by apply elem_of_nil in Hin|done]. }
  assert (Hcand : ∀ id ag c, get_agent a id = Some ag → c ∈ gs id ↔ symbol <$> get_agent b c = Some (symbol ag)).
  { intros id ag c Ha. unfold gs. rewrite Ha. by apply elem_of_ids_of. }
  destruct (search_dfs strict a b l (group_agents_by_symbol b) gs Hgs Hnd) as [fuel0 Hs].
  exists l, fuel0. split; [done|]. intros fuel Hf. destruct (Hs fuel Hf) as (found & s & E & Hd). exists found, s.
  assert (H0 : ∀ id, id ∈ l → live a id ∧ (∅ : amap) !! id = None) by (intros id Hid; split; [by apply Hlive|apply lookup_empty]).
  split; [done|]. split.
  - intros ->. destruct (dfs strict a b gs l ∅ ∅) as [[m r]|] eqn:Ed; [|done]. destruct Hd as [_ ->].
    destruct (dfs_sound strict a b Wa Wb gs Hcand l ∅ ∅ m r Hnd H0 (partial_empty strict a b) Ed) as [Hp Hdom].
    assert (Hdom' : ∀ id, is_Some (m !! id) ↔ live a id).
    { intros id. rewrite Hdom, lookup_empty, Hlive. split; [intros [[? ?]|?]; done|by right]. }
    split; [|done]. eapply partial_matching; [done|exact Hp|exact Hdom'|].
    apply (matching_onto a b m r); [done|done|done| |exact Hdom']. destruct strict; [right|left]; exact Hp.
  - intros [f Hm]. destruct (dfs strict a b gs l ∅ ∅) as [[m r]|] eqn:Ed; [by destruct Hd|].
    exfalso. eapply (dfs_complete strict a b Wa Wb gs Hcand f l Hm ∅ ∅); [done|done|apply partial_empty| |done].
    intros x c. by rewrite lookup_empty.
Qed.

Lemma no_agents_matching strict a b : count_agents_by_symbol a = ∅ → count_agents_by_symbol a = count_agents_by_symbol b →
  wf a → wf b → (∀ id, ¬ live a id) ∧ matching strict a b id.
Proof.
  intros H0 Hc Wa Wb.
  assert (Hn : ∀ n, wf n → count_agents_by_symbol n = ∅ → ∀ id, ¬ live n id).
  { intros n Wn Hn id [ag Ha]. pose proof (f_equal (lookup (symbol ag)) Hn) as Hs. rewrite count_lookup, lookup_empty in Hs.
    assert (Hin : id ∈ ids_of (symbol ag) (live_agents n)) by (apply elem_of_ids_of; [done|]; by rewrite Ha).
    destruct (ids_of (symbol ag) (live_agents n)); [by apply elem_of_nil in Hin|done]. }
  pose proof (Hn a Wa H0) as Na. pose proof (Hn b Wb ltac:(congruence)) as Nb. split; [done|]. split.
  - intros id ag Ha. destruct (Na id). by exists ag.
  - intros x y Hx. by destruct (Na x).
  - intros y Hy. by destruct (Nb y).
  - intros id p Hv%valid_port_live. by destruct (Na id).
Qed.

(** ** The bijection of the free ports *)

(** The two maps of the second pass are inverse. *)
Definition inverse (fp : gmap N N * gmap N N) : Prop := ∀ x y, fst fp !! x = Some y ↔ snd fp !! y = Some x.

(** Both labels are [DISCONNECTED]'s, or neither. *)
Definition labels_agree (x y : N) : Prop := x = u32_MAX ↔ y = u32_MAX.

Lemma match_free_ports_spec fp ta tb fp' : inverse fp → match_free_ports fp ta tb = Some fp' →
  inverse fp' ∧ fst fp ⊆ fst fp' ∧
  ∀ x y, ta = FreePort x → tb = FreePort y → labels_agree x y ∧ (x ≠ u32_MAX → fst fp' !! x = Some y).
Proof.
  intros Hi. destruct ta as [? ?|x], tb as [? ?|y]; cbn; try (by intros [= <-]). unfold labels_agree.
  destruct (N.eqb_spec x u32_MAX) as [->|Hx], (N.eqb_spec y u32_MAX) as [->|Hy]; cbn [andb orb]; try done.
  - intros [= <-]. split_and!; [done|done|]. by intros ? ? [= <-] [= <-].
  - destruct (fst fp !! x) as [z|] eqn:Ex.
    + destruct (N.eqb_spec z y) as [->|]; [|done]. intros [= <-]. split_and!; [done|done|].
      intros ? ? [= <-] [= <-]. by split.
    + destruct (snd fp !! y) eqn:Ey; [done|]. intros [= <-]. cbn [fst]. split_and!.
      * intros u v. cbn. rewrite !lookup_insert_Some, (Hi u v). split.
        -- intros [[-> ->]|[Hne Hv]]; [by left|]. right. split; [|done]. intros ->. congruence.
        -- intros [[-> ->]|[Hne Hv]]; [by left|]. right. split; [|done]. intros ->. apply Hi in Hv. congruence.
      * by apply insert_subseteq.
      * intros ? ? [= <-] [= <-]. split; [done|]. by rewrite lookup_insert_eq.
Qed.

Lemma match_all_sound l : ∀ fp, inverse fp → match_all fp l = true →
  ∃ fp', inverse fp' ∧ fst fp ⊆ fst fp' ∧
    ∀ x y, (FreePort x, FreePort y) ∈ l → labels_agree x y ∧ (x ≠ u32_MAX → fst fp' !! x = Some y).
Proof.
  induction l as [|[ta tb] l IH]; intros fp Hi; cbn [match_all].
  - intros _. exists fp. split_and!; [done|done|]. by intros ? ? ?%elem_of_nil.
  - destruct (match_free_ports fp ta tb) as [fp1|] eqn:E; [|done]. intros Hm.
    destruct (match_free_ports_spec _ _ _ _ Hi E) as (Hi1 & Hs1 & H1).
    destruct (IH fp1 Hi1 Hm) as (fp' & Hi' & Hs' & H'). exists fp'. split_and!; [done|by etrans|].
    intros x y [[= <- <-]|Hin]%elem_of_cons; [|by apply H'].
    destruct (H1 x y eq_refl eq_refl) as [Hl Hx]. split; [done|]. intros Hne. eapply lookup_weaken; [by apply Hx|done].
Qed.

Lemma match_all_complete (R : N → N → Prop) l : (∀ x y y', R x y → R x y' → y = y') → (∀ x x' y, R x y → R x' y → x = x') →
  ∀ fp, inverse fp → (∀ x y, fst fp !! x = Some y → R x y) →
  (∀ x y, (FreePort x, FreePort y) ∈ l → labels_agree x y ∧ (x ≠ u32_MAX → R x y)) → match_all fp l = true.
Proof.
  intros Hfun Hinj. induction l as [|[ta tb] l IH]; intros fp Hi HR Hl; cbn [match_all]; [done|].
  assert (Hrest : ∀ x y, (FreePort x, FreePort y) ∈ l → labels_agree x y ∧ (x ≠ u32_MAX → R x y)) by (intros; apply Hl; by right).
  destruct ta as [? ?|x], tb as [? ?|y]; cbn [match_free_ports]; try by apply IH.
  destruct (Hl x y ltac:(by left)) as [Ha Hxy]. unfold labels_agree in Ha.
  destruct (N.eqb_spec x u32_MAX) as [Hx|Hx], (N.eqb_spec y u32_MAX) as [Hy|Hy]; cbn [andb orb]; try tauto; [by apply IH|].
  specialize (Hxy Hx). destruct (fst fp !! x) as [z|] eqn:Ex.
  - rewrite (Hfun x z y) by auto. rewrite N.eqb_refl. by apply IH.
  - destruct (snd fp !! y) as [z|] eqn:Ey.
    + apply Hi in Ey. replace z with x in Ey by (eapply Hinj; eauto). congruence.
    + apply IH; [| |done].
      * eapply (match_free_ports_spec fp (FreePort x) (FreePort y)); [done|]. cbn.
        rewrite (proj2 (N.eqb_neq _ _) Hx), (proj2 (N.eqb_neq _ _) Hy). cbn. by rewrite Ex, Ey.
      * intros u v. cbn. rewrite lookup_insert_Some. intros [[<- <-]|[_ Hu]]; auto.
Qed.

(** The pairs the second pass looks at. *)
Lemma free_port_bijection_pairs a b m : (∀ id, is_Some (m !! id) ↔ live a id) →
  ∃ l, free_port_bijection a b m = Done (match_all (∅, ∅) l) ∧
    ∀ ta tb, (ta, tb) ∈ l ↔ ∃ id c p, m !! id = Some c ∧ valid_port a id p ∧ ta = a.[id, p] ∧ tb = b.[c, p].
Proof.
  intros Hdom. unfold free_port_bijection.
  set (g := λ ids : AgentId * AgentId, match get_agent a (fst ids) with
    | Some ag => (λ p, (a.[fst ids, p], b.[snd ids, p])) <$> range_u (total_ports (symbol ag)) | None => [] end).
  rewrite (mapM_Done _ g).
  - cbn [mbind outcome_bind]. eexists. split; [done|]. intros ta tb. rewrite list_elem_of_In, in_concat. split.
    + intros (l & Hl%list_elem_of_In & Hin%list_elem_of_In). apply list_elem_of_fmap in Hl as ([id c] & -> & Hm%elem_of_map_to_list).
      unfold g in Hin. cbn [fst snd] in Hin. destruct (get_agent a id) as [ag|] eqn:E; [|by apply elem_of_nil in Hin].
      apply list_elem_of_fmap in Hin as (p & [= -> ->] & Hp%elem_of_range_u). exists id, c, p. split_and!; try done. by exists ag.
    + intros (id & c & p & Hm & (ag & Ha & Hp) & -> & ->). exists (g (id, c)). split.
      * apply list_elem_of_In, list_elem_of_fmap. exists (id, c). split; [done|]. by apply elem_of_map_to_list.
      * apply list_elem_of_In. unfold g. cbn [fst snd]. rewrite Ha. apply list_elem_of_fmap. exists p. split; [done|]. by apply elem_of_range_u.
  - intros [id c] Hm%elem_of_map_to_list. unfold wire_pairs, g. cbn [fst snd].
    destruct (proj1 (Hdom id) ltac:(by exists c)) as [ag Ha]. by rewrite Ha.
Qed.

(** Up to ids and labels: [f] renames the agents, [g] the labels. *)
Definition labelled (n : Net) (x : N) : Prop := x ≠ u32_MAX ∧ ∃ id p, valid_port n id p ∧ n.[id, p] = FreePort x.

Record graph_isomorphism (a b : Net) (f : AgentId → AgentId) (g : N → N) : Prop := {
  gi_match : matching false a b f;
  gi_label : ∀ id p x, valid_port a id p → a.[id, p] = FreePort x → x ≠ u32_MAX → b.[f id, p] = FreePort (g x);
  gi_inj : ∀ x y, labelled a x → labelled a y → g x = g y → x = y;
}.

(** No label at two ports. *)
Definition linear (n : Net) : Prop := ∀ id p id' p' x, valid_port n id p → valid_port n id' p' → x ≠ u32_MAX →
  n.[id, p] = FreePort x → n.[id', p'] = FreePort x → id = id' ∧ p = p'.

(** Every port of a mapped agent is matched. *)
Lemma matched_port a b (m : amap) id c p : matching false a b (λ id, default 0 (m !! id)) → m !! id = Some c → valid_port a id p →
  valid_port b c p ∧ ref_match false (λ id, default 0 (m !! id)) a.[id, p] b.[c, p].
Proof.
  intros Hm Hc Hv. pose proof (mt_wire _ _ _ _ Hm id p Hv) as Hw. destruct Hv as (ag & Ha & Hp).
  pose proof (mt_symbol _ _ _ _ Hm id ag Ha) as Hs. cbv beta in Hs, Hw. rewrite Hc in Hs, Hw.
  change (default 0 (Some c)) with c in Hs, Hw. split; [|done].
  destruct (get_agent b c) as [ag'|] eqn:Eb; [|done]. injection Hs as Hs. exists ag'. by rewrite Hs.
Qed.

Lemma bijection_sound a b (m : amap) l : matching false a b (λ id, default 0 (m !! id)) → (∀ id, is_Some (m !! id) ↔ live a id) →
  (∀ id c p, m !! id = Some c → valid_port a id p → (a.[id, p], b.[c, p]) ∈ l) →
  match_all (∅, ∅) l = true → ∃ g, graph_isomorphism a b (λ id, default 0 (m !! id)) g.
Proof.
  intros Hm Hdom Hl (fp & Hfp & _ & Hx)%match_all_sound; [|intros x y; cbn; by rewrite !lookup_empty].
  exists (λ x, default 0 (fst fp !! x)).
  assert (Hlab : ∀ id p x, valid_port a id p → a.[id, p] = FreePort x → x ≠ u32_MAX →
    ∃ y, b.[default 0 (m !! id), p] = FreePort y ∧ fst fp !! x = Some y).
  { intros id p x Hv Ha Hne. destruct (proj2 (Hdom id) (valid_port_live _ _ _ Hv)) as [c Hc].
    destruct (matched_port a b m id c p Hm Hc Hv) as [_ Hw]. rewrite Ha in Hw. destruct Hw as (y & Hb & _).
    exists y. rewrite Hc. split; [done|]. apply Hx; [|done]. rewrite <- Ha, <- Hb. by apply Hl. }
  split; [done| |].
  - intros id p x Hv Ha Hne. destruct (Hlab id p x Hv Ha Hne) as (y & -> & Hy). by rewrite Hy.
  - intros x y (Hnx & id & p & Hv & Ha) (Hny & id' & p' & Hv' & Ha').
    destruct (Hlab id p x Hv Ha Hnx) as (u & _ & Hu), (Hlab id' p' y Hv' Ha' Hny) as (v & _ & Hw).
    rewrite Hu, Hw. cbn. intros <-. apply Hfp in Hu, Hw. congruence.
Qed.

Lemma bijection_complete a b (m : amap) l : matching false a b (λ id, default 0 (m !! id)) → linear a → linear b →
  (∀ ta tb, (ta, tb) ∈ l → ∃ id c p, m !! id = Some c ∧ valid_port a id p ∧ ta = a.[id, p] ∧ tb = b.[c, p]) →
  match_all (∅, ∅) l = true.
Proof.
  intros Hm La Lb Hl.
  apply (match_all_complete (λ x y, x ≠ u32_MAX ∧ ∃ id c p, m !! id = Some c ∧ valid_port a id p ∧ a.[id, p] = FreePort x ∧ b.[c, p] = FreePort y)).
  - intros x y y' (Hne & id & c & p & Hc & Hv & Ha & Hb) (_ & id' & c' & p' & Hc' & Hv' & Ha' & Hb').
    destruct (La id p id' p' x Hv Hv' Hne Ha Ha') as [<- <-]. congruence.
  - intros x x' y (Hne & id & c & p & Hc & Hv & Ha & Hb) (Hne' & id' & c' & p' & Hc' & Hv' & Ha' & Hb').
    destruct (matched_port a b m id c p Hm Hc Hv) as [Hvb Hw], (matched_port a b m id' c' p' Hm Hc' Hv') as [Hvb' _].
    assert (Hy : y ≠ u32_MAX) by (rewrite Ha in Hw; destruct Hw as (z & Hz & _ & Hiff); rewrite Hb in Hz; injection Hz as ->; tauto).
    destruct (Lb c p c' p' y Hvb Hvb' Hy Hb Hb') as [<- <-]. assert (id = id') as <-; [|congruence].
    apply (mt_inj _ _ _ _ Hm); [by eapply valid_port_live|by eapply valid_port_live|by rewrite Hc, Hc'].
  - intros x y. cbn. rewrite !lookup_empty. done.
  - intros x y. cbn. by rewrite lookup_empty.
  - intros x y (id & c & p & Hc & Hv & Ha & Hb)%Hl. destruct (matched_port a b m id c p Hm Hc Hv) as [_ Hw].
    rewrite <- Ha in Hw. destruct Hw as (z & Hz & _ & Hiff). rewrite <- Hb in Hz. injection Hz as <-.
    split; [done|]. intros Hne. split; [done|]. by exists id, c, p.
Qed.

Lemma bijection_isomorphism a b (m : amap) : matching false a b (λ id, default 0 (m !! id)) → (∀ id, is_Some (m !! id) ↔ live a id) →
  ∃ ans, free_port_bijection a b m = Done ans ∧
    (ans = true → ∃ f g, graph_isomorphism a b f g) ∧ (linear a → linear b → ans = true).
Proof.
  intros Hm Hdom. destruct (free_port_bijection_pairs a b m Hdom) as (l & E & Hl). eexists. split; [done|]. split.
  - intros Ha. eexists. eapply bijection_sound; eauto. intros id c p Hc Hv. apply Hl. eauto 7.
  - intros La Lb. eapply bijection_complete; eauto. intros ta tb Hin. by apply Hl.
Qed.

(** ** The checkers *)

(** C25. [nets_isomorphic] returns on all well-formed nets, and says whether some
    bijection of the live agents keeps their symbols and their wires, free ports
    included. *)
Theorem nets_isomorphic_exact a b : wf a → wf b →
  ∃ fuel0, ∀ fuel, (fuel0 ≤ fuel)%nat →
    ∃ ans, nets_isomorphic fuel a b = Some (Done ans) ∧ (ans = true ↔ ∃ f, matching true a b f).
Proof.
  intros Wa Wb. unfold nets_isomorphic.
  destruct (decide (count_agents_by_symbol a = count_agents_by_symbol b)) as [Hc|Hc].
  2:{ exists 0%nat. intros fuel _. rewrite bool_decide_false by done. exists false. split; [done|]. split; [intros H; discriminate H|].
      intros [f Hf]. by apply matching_counts in Hf. }
  rewrite bool_decide_true by done. cbn [negb]. destruct (decide (count_agents_by_symbol a = ∅)) as [H0|H0].
  { exists 0%nat. intros fuel _. exists true. split; [done|]. split; [|done]. intros _.
    destruct (no_agents_matching true a b H0 Hc Wa Wb) as [_ Hm]. by eexists. }
  destruct (search_matching true a b Wa Wb Hc) as (l & fuel0 & El & Hs). exists fuel0. intros fuel Hf.
  destruct (Hs fuel Hf) as (found & s & E & Hsound & Hcomp). exists found. unfold backtrack.
  rewrite El. cbn [run_bind]. rewrite E. split; [done|]. split; [|done]. intros Ht. destruct (Hsound Ht) as [Hm _]. by eexists.
Qed.

(** C26. [nets_graph_isomorphic] returns on all well-formed nets; when it answers
    yes the nets are the same up to ids and free-port labels, and it answers yes
    whenever they are, provided no label occurs at two ports of a net. *)
Theorem nets_graph_isomorphic_exact a b : wf a → wf b →
  ∃ fuel0, ∀ fuel, (fuel0 ≤ fuel)%nat →
    ∃ ans, nets_graph_isomorphic fuel a b = Some (Done ans) ∧
      (ans = true → ∃ f g, graph_isomorphism a b f g) ∧
      (linear a → linear b → (∃ f g, graph_isomorphism a b f g) → ans = true).
Proof.
  intros Wa Wb. unfold nets_graph_isomorphic.
  destruct (decide (count_agents_by_symbol a = count_agents_by_symbol b)) as [Hc|Hc].
  2:{ exists 0%nat. intros fuel _. rewrite bool_decide_false by done. exists false. split; [done|]. split; [intros H; discriminate H|].
      intros _ _ (f & g & [Hf _ _]). by apply matching_counts in Hf. }
  rewrite bool_decide_true by done. cbn [negb]. destruct (decide (count_agents_by_symbol a = ∅)) as [H0|H0].
  { exists 0%nat. intros fuel _. exists true. split; [done|]. split; [|done]. intros _.
    destruct (no_agents_matching false a b H0 Hc Wa Wb) as [Hn Hm]. exists id, id. split; [done| |done].
    intros x p ? Hv%valid_port_live. by destruct (Hn x). }
  destruct (search_matching false a b Wa Wb Hc) as (l & fuel0 & El & Hs). exists fuel0. intros fuel Hf.
  destruct (Hs fuel Hf) as (found & s & E & Hsound & Hcomp). unfold backtrack_relaxed.
  rewrite El. cbn [run_bind]. rewrite E. cbn [run_bind]. destruct found.
  - destruct (Hsound eq_refl) as [Hm Hdom]. destruct (bijection_isomorphism a b _ Hm Hdom) as (ans & -> & H1 & H2).
    exists ans. split; [done|]. split; [done|]. intros La Lb _. by apply H2.
  - exists false. split; [done|]. split; [done|]. intros _ _ (f & g & [Hfm _ _]). apply Hcomp. by exists f.
Qed.

(** ** A label at two ports *)

(** A constructor and two erasers, [x] and [y], each on a free port; the
    constructor's principal port has label 1, as the first eraser of [tagged 1 2]. *)
Definition tagged (x y : N) : outcome Net :=
  '(n, con) ← create_agent new Con;
  '(n, e1) ← create_agent n Era;
  '(n, e2) ← create_agent n Era;
  mret (foldl (λ n '(r, f), connect n r (FreePort f)) n
    [(AgentPort con 0, 1); (AgentPort con 1, 5); (AgentPort con 2, 6); (AgentPort e1 0, x); (AgentPort e2 0, y)]).

Definition tagged_net (x y : N) : Net := match tagged x y with Done n => n | Panic => new end.

Lemma nets_isomorphic_exact_witness :
  wf (tagged_net 1 2) ∧ wf (tagged_net 2 1) ∧
  ∃ fuel0, ∀ fuel, (fuel0 ≤ fuel)%nat → ∃ ans,
    nets_isomorphic fuel (tagged_net 1 2) (tagged_net 2 1) = Some (Done ans) ∧
    (ans = true ↔ ∃ f, matching true (tagged_net 1 2) (tagged_net 2 1) f).
Proof.
  assert (W1 : wf (tagged_net 1 2)) by (apply wf_b_sound; vm_compute; reflexivity).
  assert (W2 : wf (tagged_net 2 1)) by (apply wf_b_sound; vm_compute; reflexivity).
  split; [exact W1|]. split; [exact W2|]. exact (nets_isomorphic_exact _ _ W1 W2).
Defined.

Lemma nets_graph_isomorphic_exact_witness :
  wf (tagged_net 3 2) ∧ wf (tagged_net 2 3) ∧
  ∃ fuel0, ∀ fuel, (fuel0 ≤ fuel)%nat → ∃ ans,
    nets_graph_isomorphic fuel (tagged_net 3 2) (tagged_net 2 3) = Some (Done ans) ∧
    (ans = true → ∃ f g, graph_isomorphism (tagged_net 3 2) (tagged_net 2 3) f g) ∧
    (linear (tagged_net 3 2) → linear (tagged_net 2 3) →
     (∃ f g, graph_isomorphism (tagged_net 3 2) (tagged_net 2 3) f g) → ans = true).
Proof.
  assert (W1 : wf (tagged_net 3 2)) by (apply wf_b_sound; vm_compute; reflexivity).
  assert (W2 : wf (tagged_net 2 3)) by (apply wf_b_sound; vm_compute; reflexivity).
  split; [exact W1|]. split; [exact W2|]. exact (nets_graph_isomorphic_exact _ _ W1 W2).
Defined.

(** The second pass only tries the bijection of the agents found first: two
    nets equal up to ids, with their labels unchanged, are declared different
    when a label occurs at two ports. *)
Theorem shared_label_missed :
  wf (tagged_net 1 2) ∧ wf (tagged_net 2 1) ∧
  nets_isomorphic 10 (tagged_net 1 2) (tagged_net 2 1) = Some (Done true) ∧
  nets_graph_isomorphic 10 (tagged_net 1 2) (tagged_net 2 1) = Some (Done false) ∧
  nets_graph_isomorphic 10 (tagged_net 3 2) (tagged_net 2 3) = Some (Done true).
Proof.
  split; [apply wf_b_sound; vm_compute; reflexivity|]. split; [apply wf_b_sound; vm_compute; reflexivity|].
  split_and!; vm_compute; reflexivity.
Qed.
