(* ===== verification/Horner.v ===== *)
(** Polynomial evaluation by Horner's method (encoding/horner.rs), its reference
    on integers (encoding/horner_oracle.rs) and the readback of large numerals
    (encoding/biguint_readback.rs).  A [BigUint] is an [N]; the texts of the errors
    and the JSON envelopes are left out. *)
From S2P Require Import Prelude NetTypes NetCore Reduction Church.
Local Open Scope N_scope.
Import Church Arithmetic.

(** ** The reference (horner_oracle.rs) *)

Module Oracle.

Inductive OracleError : Type :=
| EmptyCoeffs
| CoefficientOverflow (idx : nat) (value max : N)
| XOverflow (value max : N).

(** The first coefficient above the cap, with its index. *)
Fixpoint first_overflow (idx : nat) (coeffs : list N) : option (nat * N) :=
  match coeffs with
  | [] => None
  | v :: coeffs => if MAX_CHURCH_NAT <? v then Some (idx, v) else first_overflow (S idx) coeffs
  end.

Definition horner_serial (coeffs : list N) (x : N) : N + OracleError :=
  match rev coeffs with
  | [] => inr EmptyCoeffs
  | leading :: rest =>
      match first_overflow 0 coeffs with
      | Some (idx, v) => inr (CoefficientOverflow idx v MAX_CHURCH_NAT)
      | None =>
          if MAX_CHURCH_NAT <? x then inr (XOverflow x MAX_CHURCH_NAT)
          else inl (foldl (λ acc c, acc * x + c) leading rest)
      end
  end.

End Oracle.

(** ** The encoder (horner.rs) *)

Module Horner.
Import Oracle.

(** One turn of the loop: [acc * x + coef]. *)
Definition horner_step (x : N) (acc : Net * PortRef) (coef : N) : outcome (Net * PortRef) :=
  let '(n, acc_port) := acc in
  '(n, x_id) ← encode_church_into n x;
  '(n, prod_id) ← wire_mul_into n acc_port (AgentPort x_id 0);
  '(n, coef_id) ← encode_church_into n coef;
  '(n, new_acc_id) ← wire_add_into n (AgentPort prod_id 1) (AgentPort coef_id 0);
  mret (n, AgentPort new_acc_id 1).

(** The input is the decoded JSON object; an invalid one is reported by the
    error of the reference. *)
Definition encode (coeffs : list N) (x : N) : outcome (Net + OracleError) :=
  match rev coeffs with
  | [] => mret (inr EmptyCoeffs)
  | leading :: rest =>
      match first_overflow 0 coeffs with
      | Some (idx, v) => mret (inr (CoefficientOverflow idx v MAX_CHURCH_NAT))
      | None =>
          if MAX_CHURCH_NAT <? x then mret (inr (XOverflow x MAX_CHURCH_NAT))
          else
            '(n, acc_id) ← encode_church_into NetCore.new leading;
            match rest with
            | [] => mret (inl (with_root (Some (AgentPort acc_id 0)) n))
            | _ =>
                '(n, acc_port) ← fold_outcome (horner_step x) (n, AgentPort acc_id 0) rest;
                mret (inl (with_root None (connect n acc_port (FreePort 0))))
            end
      end
  end.

End Horner.

(** ** The readback (biguint_readback.rs) *)

Module Readback.

Inductive DecodeError : Type := NotNormalForm (redexes : nat) | NoRoot | UnrecognizedStructure.

(** [None] is out of fuel. *)
Definition answer (A : Type) : Type := option (A + DecodeError).
Definition ok {A} (a : A) : answer A := Some (inl a).
Definition unrecognized {A} : answer A := Some (inr UnrecognizedStructure).
Definition bind_answer {A B} (m : answer A) (f : A → answer B) : answer B :=
  match m with None => None | Some (inr e) => Some (inr e) | Some (inl a) => f a end.

Record ChainVisited : Type := mkVisited { cons : gset AgentId; dups : gset AgentId }.
Definition nothing : ChainVisited := mkVisited ∅ ∅.

Definition READBACK_MAX_DEPTH : N := 16384.
Definition MAX_STEPS : N := 4000000.

(** One auxiliary port of a duplicator: [None] when its leaf is not an eraser. *)
Definition discard_leaf (n : Net) (id : AgentId) (p : PortId) (stack : list AgentId) : option (list AgentId) :=
  let target := get_target n (AgentPort id p) in
  if decide (target = DISCONNECTED) then Some stack
  else match target with
       | AgentPort child _ =>
           match symbol <$> get_agent n child with
           | Some Era => Some stack
           | Some Dup => Some (child :: stack)
           | _ => None
           end
       | FreePort _ => None
       end.

(** Whether every leaf below the duplicator is an eraser. *)
Fixpoint all_aux_leaves_are_era (fuel : nat) (n : Net) (visited : gset AgentId) (stack : list AgentId) : option bool :=
  match fuel with
  | O => None
  | S fuel =>
      match stack with
      | [] => Some true
      | id :: stack =>
          if decide (id ∈ visited) then all_aux_leaves_are_era fuel n visited stack
          else match discard_leaf n id 1 stack ≫= discard_leaf n id 2 with
               | Some stack => all_aux_leaves_are_era fuel n ({[id]} ∪ visited) stack
               | None => Some false
               end
      end
  end.

(** What a chain walk finds at the other end of [here]. *)
Inductive ChainStep : Type := AtVariable | Application (id : AgentId) | Share (id : AgentId) | Principal (id : AgentId) | Broken.

Definition chain_step (n : Net) (lam_x : AgentId) (here : PortRef) : ChainStep :=
  let target := get_target n here in
  if decide (target = DISCONNECTED) then Broken
  else match target with
       | AgentPort id 1 =>
           if id =? lam_x then AtVariable
           else match symbol <$> get_agent n id with
                | Some Con => Application id
                | Some Dup => Share id
                | _ => Broken
                end
       | AgentPort id 2 => if decide (symbol <$> get_agent n id = Some Dup) then Share id else Broken
       | AgentPort id 0 => Principal id
       | _ => Broken
       end.

(** The walk of [read_chain] and [read_chain_terminal], which differ in what
    they do at a principal port. *)
Fixpoint walk_chain (fuel : nat) (n : Net) (lam_x : AgentId) (at_principal : N → ChainVisited → AgentId → answer N)
    (steps count : N) (visited : ChainVisited) (here : PortRef) : answer N :=
  match fuel with
  | O => None
  | S fuel =>
      if MAX_STEPS <? steps + 1 then unrecognized
      else match chain_step n lam_x here with
           | AtVariable => ok count
           | Application id =>
               walk_chain fuel n lam_x at_principal (steps + 1) (count + 1)
                 (mkVisited ({[id]} ∪ cons visited) (dups visited)) (AgentPort id 2)
           | Share id =>
               walk_chain fuel n lam_x at_principal (steps + 1) count
                 (mkVisited (cons visited) ({[id]} ∪ dups visited)) (AgentPort id 0)
           | Principal id => at_principal count visited id
           | Broken => unrecognized
           end
  end.

Definition read_chain_terminal (fuel : nat) (n : Net) (start_port : PortRef) (lam_x : AgentId) (visited : ChainVisited)
    (depth : N) : answer N :=
  if READBACK_MAX_DEPTH <? depth then unrecognized
  else walk_chain fuel n lam_x (λ _ _ _, unrecognized) 0 0 visited start_port.

Inductive DupBranch : Type := XVariable | Cycle | NestedDupPrincipal (id : AgentId) | ExitChainAt (entry_port : PortRef).

(** [for _ in 0..1024]. *)
Fixpoint follow_branch (turns : nat) (n : Net) (lam_x : AgentId) (visited : ChainVisited) (entry_source here : PortRef) : DupBranch :=
  match turns with
  | O => ExitChainAt entry_source
  | S turns =>
      match here with
      | FreePort _ => XVariable
      | AgentPort id port =>
          match symbol <$> get_agent n id with
          | None => XVariable
          | Some Dup =>
              if port =? 0 then NestedDupPrincipal id
              else if (port =? 1) || (port =? 2) then
                if decide (id ∈ dups visited) then Cycle
                else
                  let entry_source := AgentPort id 0 in
                  let here := get_target n entry_source in
                  if decide (here = AgentPort lam_x 1) then XVariable
                  else follow_branch turns n lam_x visited entry_source here
              else ExitChainAt entry_source
          | Some Con =>
              if decide (port < 3 ∧ id ∈ cons visited) then Cycle else ExitChainAt entry_source
          | Some Era => XVariable
          end
      end
  end.

Definition classify_dup_branch (n : Net) (source_port : PortRef) (lam_x : AgentId) (visited : ChainVisited) : DupBranch :=
  let dest := get_target n source_port in
  if decide (dest = AgentPort lam_x 1) then XVariable
  else if decide (dest = DISCONNECTED) then XVariable
  else follow_branch 1024 n lam_x visited source_port dest.

(** The work stack, multiplier and exit sum of [walk_mult_tree]. *)
Record Tree : Type := mkTree { pending : list (AgentId * N); multiplier : N; exit_sum : N }.

(** One branch of a duplicator. *)
Definition walk_branch (fuel : nat) (n : Net) (lam_x : AgentId) (visited : ChainVisited) (dup_id : AgentId) (nested_depth : N)
    (port : PortId) (t : Tree) : answer Tree :=
  match classify_dup_branch n (AgentPort dup_id port) lam_x visited with
  | XVariable => ok t
  | Cycle => ok (mkTree (pending t) (multiplier t + 1) (exit_sum t))
  | ExitChainAt entry_port =>
      bind_answer (read_chain_terminal fuel n entry_port lam_x nothing 0) (λ sub,
        ok (mkTree (pending t) (multiplier t) (exit_sum t + sub)))
  | NestedDupPrincipal next => ok (mkTree ((next, nested_depth + 1) :: pending t) (multiplier t) (exit_sum t))
  end.

Fixpoint walk_mult_tree (fuel : nat) (n : Net) (lam_x : AgentId) (visited : ChainVisited) (visited_dups : gset AgentId) (t : Tree) :
    answer Tree :=
  match fuel with
  | O => None
  | S fuel =>
      match pending t with
      | [] => ok t
      | (dup_id, nested_depth) :: rest =>
          let t := mkTree rest (multiplier t) (exit_sum t) in
          if READBACK_MAX_DEPTH <? nested_depth then unrecognized
          else if decide (dup_id ∈ visited_dups) then walk_mult_tree fuel n lam_x visited visited_dups t
          else match symbol <$> get_agent n dup_id with
               | Some Dup =>
                   bind_answer (walk_branch fuel n lam_x visited dup_id nested_depth 1 t) (λ t,
                   bind_answer (walk_branch fuel n lam_x visited dup_id nested_depth 2 t) (λ t,
                     walk_mult_tree fuel n lam_x visited ({[dup_id]} ∪ visited_dups) t))
               | _ => unrecognized
               end
      end
  end.

(** The multiplier and the exit value. *)
Definition read_mult_subnet (fuel : nat) (n : Net) (dup_id lam_x : AgentId) (visited : ChainVisited) (depth : N) : answer (N * N) :=
  if (2 <? size (dups visited))%nat then unrecognized
  else bind_answer (walk_mult_tree fuel n lam_x visited ∅ (mkTree [(dup_id, depth)] 1 0)) (λ t, ok (multiplier t, exit_sum t)).

Definition read_chain (fuel : nat) (n : Net) (start_port : PortRef) (lam_x : AgentId) (visited : ChainVisited) (depth : N) : answer N :=
  if READBACK_MAX_DEPTH <? depth then unrecognized
  else walk_chain fuel n lam_x (λ count visited dup_id,
         if decide (symbol <$> get_agent n dup_id = Some Dup) then
           bind_answer (read_mult_subnet fuel n dup_id lam_x visited (depth + 1)) (λ '(mult, exit_value), ok (count * mult + exit_value))
         else unrecognized) 0 0 visited start_port.

(** The agent, which must be a constructor, whose principal port [r] is. *)
Definition lambda_at (n : Net) (r : PortRef) : option AgentId :=
  match r with
  | AgentPort id 0 => if decide (symbol <$> get_agent n id = Some Con) then Some id else None
  | _ => None
  end.

(** The reading of the frame of [Church(0)]. *)
Definition read_zero (fuel : nat) (n : Net) (f_target : PortRef) : answer N :=
  match f_target with
  | AgentPort f_id 0 =>
      match symbol <$> get_agent n f_id with
      | Some Era => ok 0
      | Some Dup => match all_aux_leaves_are_era fuel n ∅ [f_id] with
                    | None => None
                    | Some true => ok 0
                    | Some false => unrecognized
                    end
      | _ => unrecognized
      end
  | _ => unrecognized
  end.

Definition decode_biguint (fuel : nat) (n : Net) : answer N :=
  if (0 <? count_valid_active_pairs n)%nat then Some (inr (NotNormalForm (count_valid_active_pairs n)))
  else match root n with
       | None => Some (inr NoRoot)
       | Some root =>
           match lambda_at n root with
           | None => unrecognized
           | Some lam_f =>
               match lambda_at n (get_target n (AgentPort lam_f 2)) with
               | None => unrecognized
               | Some lam_x =>
                   let f_target := get_target n (AgentPort lam_f 1) in
                   let x_bind := get_target n (AgentPort lam_x 1) in
                   let x_body := get_target n (AgentPort lam_x 2) in
                   if decide (f_target = DISCONNECTED ∨ x_bind = DISCONNECTED ∨ x_body = DISCONNECTED) then unrecognized
                   else if decide (x_bind = AgentPort lam_x 2 ∧ x_body = AgentPort lam_x 1) then read_zero fuel n f_target
                   else read_chain fuel n (AgentPort lam_x 2) lam_x nothing 0
               end
           end
       end.

End Readback.
