(* ===== verification/HornerSpec.v ===== *)
(** Horner's method: the reference evaluates the polynomial, the readback of large
    numerals returns on every net and agrees with the reading of Church numerals,
    and which polynomials come back right and wrong through the reducer. *)
From S2P Require Import Prelude NetTypes NetCore NetInv NetDebug Reduction Church ChurchSpec Horner.
Import Church Arithmetic.
Local Open Scope N_scope.
Open Scope net_scope.

(** ** The reference *)

(** [c_0 + c_1 x + c_2 x^2 + ...] *)
Fixpoint polynomial (coeffs : list N) (x : N) : N :=
  match coeffs with
  | [] => 0
  | c :: coeffs => c + x * polynomial coeffs x
  end.

Lemma polynomial_snoc coeffs x c : polynomial (coeffs ++ [c]) x = polynomial coeffs x + c * x ^ N.of_nat (length coeffs).
Proof.
  induction coeffs as [|d coeffs IH]; cbn [app polynomial length]; [cbn; lia|].
  rewrite IH, Nat2N.inj_succ, N.pow_succ_r'. lia.
Qed.

Lemma horner_fold coeffs x : ∀ acc, foldl (λ acc c, acc * x + c) acc (rev coeffs) =
  acc * x ^ N.of_nat (length coeffs) + polynomial coeffs x.
Proof.
  induction coeffs as [|c coeffs IH]; intros acc; cbn [rev polynomial length]; [cbn; lia|].
  rewrite foldl_app, IH. cbn [foldl]. rewrite Nat2N.inj_succ, N.pow_succ_r'. lia.
Qed.

Lemma first_overflow_spec coeffs : ∀ i,
  match Oracle.first_overflow i coeffs with
  | None => Forall (λ c, c ≤ MAX_CHURCH_NAT) coeffs
  | Some (j, v) => ∃ k, j = (i + k)%nat ∧ coeffs !! k = Some v ∧ MAX_CHURCH_NAT < v ∧
      ∀ k' c, (k' < k)%nat → coeffs !! k' = Some c → c ≤ MAX_CHURCH_NAT
  end.
Proof.
  induction coeffs as [|c coeffs IH]; intros i; cbn; [constructor|].
  destruct (N.ltb_spec MAX_CHURCH_NAT c) as [Hc|Hc].
  - exists 0%nat. split_and!; [lia|done|done|]. intros k' c' Hk. lia.
  - specialize (IH (S i)). destruct (Oracle.first_overflow (S i) coeffs) as [[j v]|]; [|by constructor].
    destruct IH as (k & -> & Hk & Hv & Hlt). exists (S k). split_and!; [lia|done|done|].
    intros [|k'] c' Hk' Hc'; [by injection Hc' as <-|]. eapply (Hlt k'); [lia|done].
Qed.

(** The reference: the polynomial's value for a valid input; otherwise the
    first of the three errors, the coefficient reported being the first above
    the cap. *)
Theorem horner_serial_exact coeffs x :
  match Oracle.horner_serial coeffs x with
  | inl v => coeffs ≠ [] ∧ Forall (λ c, c ≤ MAX_CHURCH_NAT) coeffs ∧ x ≤ MAX_CHURCH_NAT ∧ v = polynomial coeffs x
  | inr Oracle.EmptyCoeffs => coeffs = []
  | inr (Oracle.CoefficientOverflow k v _) => coeffs !! k = Some v ∧ MAX_CHURCH_NAT < v ∧
      ∀ k' c, (k' < k)%nat → coeffs !! k' = Some c → c ≤ MAX_CHURCH_NAT
  | inr (Oracle.XOverflow v _) => v = x ∧ MAX_CHURCH_NAT < x ∧ coeffs ≠ [] ∧ Forall (λ c, c ≤ MAX_CHURCH_NAT) coeffs
  end.
Proof.
  unfold Oracle.horner_serial. destruct (rev coeffs) as [|leading rest] eqn:Er.
  - by rewrite <- (rev_involutive coeffs), Er.
  - pose proof (first_overflow_spec coeffs 0) as Hf.
    assert (Hne : coeffs ≠ []) by (intros ->; discriminate Er).
    destruct (Oracle.first_overflow 0 coeffs) as [[k v]|].
    + destruct Hf as (k' & -> & Hk). exact Hk.
    + destruct (N.ltb_spec MAX_CHURCH_NAT x) as [Hx|Hx]; [by split_and!|]. split_and!; [done|done|done|].
      assert (Ec : coeffs = rev rest ++ [leading]) by (rewrite <- (rev_involutive coeffs), Er; done).
      rewrite Ec, polynomial_snoc. rewrite <- (rev_involutive rest) at 1. rewrite horner_fold. lia.
Qed.

(** The encoder refuses exactly the inputs the reference refuses, with the
    same error. *)
Theorem encode_errors coeffs x e :
  Horner.encode coeffs x = Done (inr e) ↔ Oracle.horner_serial coeffs x = inr e.
Proof.
  unfold Horner.encode, Oracle.horner_serial. destruct (rev coeffs) as [|leading rest]; [split; by intros [= <-]|].
  destruct (Oracle.first_overflow 0 coeffs) as [[k v]|]; [split; by intros [= <-]|].
  destruct (MAX_CHURCH_NAT <? x); [split; by intros [= <-]|]. split; [|done].
  destruct (encode_church_into new leading) as [[n id]|]; [|done]. cbn [mbind outcome_bind].
  destruct rest as [|c rest]; [done|]. by destruct (fold_outcome _ _ _) as [[n' r]|].
Qed.

(** ** The readback returns *)

Section readback.
Import Readback.

Lemma answer_bind {A B} (m : answer A) (f : A → answer B) : m ≠ None → (∀ a, f a ≠ None) → bind_answer m f ≠ None.
Proof. destruct m as [[a|e]|]; cbn; auto. Qed.

(** A walk takes at most [MAX_STEPS] steps. *)
Lemma walk_chain_returns n lam_x at_principal : (∀ c v id, at_principal c v id ≠ None) → ∀ fuel steps count visited here,
  (0 < fuel)%nat → MAX_STEPS < N.of_nat fuel + steps → walk_chain fuel n lam_x at_principal steps count visited here ≠ None.
Proof.
  intros Hp. induction fuel as [|fuel IH]; intros steps count visited here H0 Hf; [lia|]. cbn [walk_chain].
  destruct (N.ltb_spec MAX_STEPS (steps + 1)) as [Hs|Hs]; [done|].
  destruct (chain_step n lam_x here); try done; try apply Hp; apply IH; lia.
Qed.

Lemma read_chain_terminal_returns fuel n start lam_x visited depth : MAX_STEPS < N.of_nat fuel →
  read_chain_terminal fuel n start lam_x visited depth ≠ None.
Proof.
  intros Hf. unfold read_chain_terminal. destruct (READBACK_MAX_DEPTH <? depth); [done|].
  apply walk_chain_returns; [done|unfold MAX_STEPS in Hf; lia|lia].
Qed.

(** The slots of the arena not visited yet. *)
Definition slots (n : Net) : gset AgentId := list_to_set (N.of_nat <$> seq 0 (length (agents n))).
Definition unvisited (n : Net) (visited : gset AgentId) : nat := size (slots n ∖ visited).

Lemma live_slot n id s : symbol <$> get_agent n id = Some s → id ∈ slots n.
Proof.
  intros H. destruct (get_agent n id) as [a|] eqn:E; [|done]. apply get_agent_arena in E.
  unfold slots. apply elem_of_list_to_set, list_elem_of_fmap. exists (N.to_nat id). split; [lia|]. apply elem_of_seq. lia.
Qed.

Lemma unvisited_visit n visited id : id ∈ slots n → id ∉ visited → (unvisited n ({[id]} ∪ visited) < unvisited n visited)%nat.
Proof. intros Hs Hv. apply subset_size. set_solver. Qed.

Lemma discard_leaf_spec n id p st st' : Forall (λ id, id ∈ slots n) st → discard_leaf n id p st = Some st' →
  Forall (λ id, id ∈ slots n) st' ∧ (length st' ≤ S (length st))%nat.
Proof.
  intros Hst. unfold discard_leaf. case_decide; [intros [= <-]; auto|].
  destruct (n.[id, p]) as [child q|]; [|done]. destruct (symbol <$> get_agent n child) as [[]|] eqn:E; try done.
  - intros [= <-]. split; [constructor; [by eapply live_slot|done]|cbn; lia].
  - intros [= <-]. auto.
Qed.

Lemma all_aux_leaves_returns n : ∀ fuel visited stack, Forall (λ id, id ∈ slots n) stack →
  (length stack + 2 * unvisited n visited < fuel)%nat → all_aux_leaves_are_era fuel n visited stack ≠ None.
Proof.
  induction fuel as [|fuel IH]; intros visited stack Hs Hf; [lia|]. cbn [all_aux_leaves_are_era].
  destruct stack as [|id stack]; [done|]. apply Forall_cons in Hs as [Hid Hs]. cbn [length] in Hf.
  destruct (decide (id ∈ visited)) as [Hv|Hv]; [apply IH; [done|lia]|].
  pose proof (unvisited_visit n visited id Hid Hv) as Hu.
  destruct (discard_leaf n id 1 stack) as [s1|] eqn:E1; cbn [mbind option_bind]; [|done].
  destruct (discard_leaf n id 2 s1) as [s2|] eqn:E2; [|done].
  destruct (discard_leaf_spec _ _ _ _ _ Hs E1) as [Hs1 L1]. destruct (discard_leaf_spec _ _ _ _ _ Hs1 E2) as [Hs2 L2]. apply IH; [done|lia].
Qed.

Lemma walk_branch_spec fuel n lam_x visited dup_id depth port t : MAX_STEPS < N.of_nat fuel →
  ∃ r, walk_branch fuel n lam_x visited dup_id depth port t = Some r ∧
    ∀ t', r = inl t' → (length (pending t') ≤ S (length (pending t)))%nat.
Proof.
  intros Hf. unfold walk_branch. destruct (classify_dup_branch n (AgentPort dup_id port) lam_x visited).
  - eexists. split; [done|]. intros t' [= <-]. lia.
  - eexists. split; [done|]. intros t' [= <-]. cbn. lia.
  - eexists. split; [done|]. intros t' [= <-]. cbn. lia.
  - pose proof (read_chain_terminal_returns fuel n entry_port lam_x nothing 0 Hf) as Hr.
    destruct (read_chain_terminal fuel n entry_port lam_x nothing 0) as [[v|e]|]; [| |done]; cbn [bind_answer].
    + eexists. split; [done|]. intros t' [= <-]. cbn. lia.
    + eexists. split; [done|]. done.
Qed.

Lemma walk_mult_tree_returns n lam_x visited : ∀ fuel visited_dups t,
  MAX_STEPS + N.of_nat (length (pending t) + 2 * unvisited n visited_dups) < N.of_nat fuel →
  walk_mult_tree fuel n lam_x visited visited_dups t ≠ None.
Proof.
  induction fuel as [|fuel IH]; intros visited_dups t Hf; [lia|]. cbn [walk_mult_tree].
  destruct (pending t) as [|[dup_id depth] rest] eqn:Ep; [done|]. cbn [length] in Hf.
  destruct (READBACK_MAX_DEPTH <? depth); [done|].
  destruct (decide (dup_id ∈ visited_dups)) as [Hv|Hv]; [apply IH; cbn [pending]; lia|].
  destruct (symbol <$> get_agent n dup_id) as [[]|] eqn:Es; try done.
  pose proof (unvisited_visit n visited_dups dup_id (live_slot _ _ _ Es) Hv) as Hu.
  destruct (walk_branch_spec fuel n lam_x visited dup_id depth 1 (mkTree rest (multiplier t) (exit_sum t))) as (r1 & -> & H1); [lia|].
  destruct r1 as [t1|e]; cbn [bind_answer]; [|done]. specialize (H1 t1 eq_refl). cbn [pending] in H1.
  destruct (walk_branch_spec fuel n lam_x visited dup_id depth 2 t1) as (r2 & -> & H2); [lia|].
  destruct r2 as [t2|e]; cbn [bind_answer]; [|done]. specialize (H2 t2 eq_refl). apply IH. lia.
Qed.

Lemma read_chain_returns n start lam_x visited depth fuel : MAX_STEPS + N.of_nat (1 + 2 * unvisited n ∅) < N.of_nat fuel →
  read_chain fuel n start lam_x visited depth ≠ None.
Proof.
  intros Hf. unfold read_chain. destruct (READBACK_MAX_DEPTH <? depth); [done|]. apply walk_chain_returns; [|unfold MAX_STEPS in Hf; lia|lia].
  intros c v id. case_decide; [|done]. apply answer_bind; [|by intros []]. unfold read_mult_subnet.
  destruct (2 <? size (dups v))%nat; [done|]. apply answer_bind; [|done]. apply walk_mult_tree_returns. cbn [pending length]. lia.
Qed.

Definition enough_fuel (n : Net) (fuel : nat) : Prop := MAX_STEPS + N.of_nat (2 + 2 * unvisited n ∅) < N.of_nat fuel.

Lemma decode_biguint_returns n fuel : enough_fuel n fuel → decode_biguint fuel n ≠ None.
Proof.
  unfold enough_fuel. intros Hf. unfold decode_biguint. destruct (0 <? _)%nat; [done|]. destruct (root n) as [r|]; [|done].
  destruct (lambda_at n r) as [lam_f|]; [|done]. destruct (lambda_at n n.[lam_f, 2]) as [lam_x|]; [|done].
  case_decide; [done|]. case_decide; [|apply read_chain_returns; lia].
  unfold read_zero. destruct (n.[lam_f, 1]) as [f_id [|p]|]; try done.
  destruct (symbol <$> get_agent n f_id) as [[]|] eqn:Es; try done.
  assert (Ha : all_aux_leaves_are_era fuel n ∅ [f_id] ≠ None).
  { apply all_aux_leaves_returns; [|cbn; lia]. constructor; [by eapply live_slot|done]. }
  by destruct (all_aux_leaves_are_era fuel n ∅ [f_id]) as [[]|].
Qed.

(** ** More fuel changes nothing *)

Lemma bind_answer_mono {A B} (m m' : answer A) (f f' : A → answer B) x :
  (∀ y, m = Some y → m' = Some y) → (∀ a y, f a = Some y → f' a = Some y) → bind_answer m f = Some x → bind_answer m' f' = Some x.
Proof. intros Hm Hf. destruct m as [[a|e]|]; cbn; [| |done]; intros E; rewrite (Hm _ eq_refl); cbn; auto. Qed.

Lemma walk_chain_mono n lam_x p p' : (∀ c v id x, p c v id = Some x → p' c v id = Some x) →
  ∀ fuel fuel' steps count visited here x, (fuel ≤ fuel')%nat →
    walk_chain fuel n lam_x p steps count visited here = Some x → walk_chain fuel' n lam_x p' steps count visited here = Some x.
Proof.
  intros Hp. induction fuel as [|fuel IH]; intros [|fuel'] steps count visited here x Hle; try done; [lia|].
  cbn [walk_chain]. destruct (MAX_STEPS <? steps + 1); [done|].
  destruct (chain_step n lam_x here); try done; try apply Hp; apply IH; lia.
Qed.

Lemma all_aux_leaves_mono n : ∀ fuel fuel' visited stack x, (fuel ≤ fuel')%nat →
  all_aux_leaves_are_era fuel n visited stack = Some x → all_aux_leaves_are_era fuel' n visited stack = Some x.
Proof.
  induction fuel as [|fuel IH]; intros [|fuel'] visited stack x Hle; try done; [lia|]. cbn [all_aux_leaves_are_era].
  destruct stack as [|id stack]; [done|]. case_decide; [apply IH; lia|].
  destruct (discard_leaf n id 1 stack ≫= _) as [s|]; [apply IH; lia|done].
Qed.

Lemma walk_branch_mono fuel fuel' n lam_x visited dup_id depth port t x : (fuel ≤ fuel')%nat →
  walk_branch fuel n lam_x visited dup_id depth port t = Some x → walk_branch fuel' n lam_x visited dup_id depth port t = Some x.
Proof.
  intros Hle. unfold walk_branch. destruct (classify_dup_branch _ _ _ _); try done.
  apply bind_answer_mono; [|done]. intros y. unfold read_chain_terminal. destruct (READBACK_MAX_DEPTH <? 0); [done|].
  by apply walk_chain_mono.
Qed.

Lemma walk_mult_tree_mono n lam_x visited : ∀ fuel fuel' visited_dups t x, (fuel ≤ fuel')%nat →
  walk_mult_tree fuel n lam_x visited visited_dups t = Some x → walk_mult_tree fuel' n lam_x visited visited_dups t = Some x.
Proof.
  induction fuel as [|fuel IH]; intros [|fuel'] visited_dups t x Hle; try done; [lia|]. cbn [walk_mult_tree].
  destruct (pending t) as [|[dup_id depth] rest]; [done|]. destruct (READBACK_MAX_DEPTH <? depth); [done|].
  case_decide; [apply IH; lia|]. destruct (symbol <$> get_agent n dup_id) as [[]|]; try done.
  apply bind_answer_mono; [intros y; apply walk_branch_mono; lia|]. intros t1 y.
  apply bind_answer_mono; [intros z; apply walk_branch_mono; lia|]. intros t2 z. apply IH. lia.
Qed.

Lemma decode_biguint_mono n fuel fuel' x : (fuel ≤ fuel')%nat → decode_biguint fuel n = Some x → decode_biguint fuel' n = Some x.
Proof.
  intros Hle. unfold decode_biguint. destruct (0 <? _)%nat; [done|]. destruct (root n) as [r|]; [|done].
  destruct (lambda_at n r) as [lam_f|]; [|done]. destruct (lambda_at n n.[lam_f, 2]) as [lam_x|]; [|done].
  case_decide; [done|]. case_decide.
  - unfold read_zero. destruct (n.[lam_f, 1]) as [f_id [|p]|]; try done.
    destruct (symbol <$> get_agent n f_id) as [[]|]; try done.
    destruct (all_aux_leaves_are_era fuel n ∅ [f_id]) as [b|] eqn:E; [|done]. by rewrite (all_aux_leaves_mono n _ _ _ _ _ Hle E).
  - unfold read_chain. destruct (READBACK_MAX_DEPTH <? 0); [done|]. apply walk_chain_mono; [|done].
    intros c v id y. case_decide; [|done]. apply bind_answer_mono; [|done]. intros z. unfold read_mult_subnet.
    destruct (2 <? size (dups v))%nat; [done|]. apply bind_answer_mono; [|done]. intros u. by apply walk_mult_tree_mono.
Qed.

(** The readback of large numerals returns on every net, and its answer does
    not depend on the fuel: four million steps per walk, plus two per slot of the
    arena, are enough. *)
Theorem decode_biguint_total n : ∃ r, ∀ fuel, enough_fuel n fuel → decode_biguint fuel n = Some r.
Proof.
  set (f0 := S (N.to_nat (MAX_STEPS + N.of_nat (2 + 2 * unvisited n ∅)))).
  assert (H0 : enough_fuel n f0) by (unfold enough_fuel, f0; rewrite Nat2N.inj_succ, N2Nat.id; lia).
  pose proof (decode_biguint_returns n f0 H0) as H. destruct (decode_biguint f0 n) as [r|] eqn:E; [|done]. exists r.
  intros fuel Hf. eapply decode_biguint_mono; [|exact E]. unfold f0, enough_fuel in *. lia.
Qed.

End readback.

(** ** Agreement with the reading of numerals *)

Lemma lambda_at_Some n r id : r = AgentPort id 0 → symbol <$> get_agent n id = Some Con → Readback.lambda_at n r = Some id.
Proof. intros -> Hs. cbn. by rewrite decide_True. Qed.

Lemma spine_read n x P r k at_principal : spine n x P r k → ∀ fuel steps count visited,
  (N.to_nat k < fuel)%nat → steps + k + 1 ≤ Readback.MAX_STEPS →
  Readback.walk_chain fuel n x at_principal steps count visited r = Readback.ok (count + k).
Proof.
  intros Hs. induction Hs as [r E|r id k E Hne Hc _ _ IH]; intros [|fuel] steps count visited Hf Hm; try lia; cbn [Readback.walk_chain].
  - rewrite (proj2 (N.ltb_ge _ _)) by lia. unfold Readback.chain_step. rewrite E. rewrite decide_False by done.
    rewrite N.eqb_refl. by rewrite N.add_0_r.
  - rewrite (proj2 (N.ltb_ge _ _)) by lia. unfold Readback.chain_step. rewrite E, decide_False by done.
    rewrite (proj2 (N.eqb_neq _ _) Hne), Hc. rewrite IH by lia. f_equal. lia.
Qed.

Lemma no_queue_no_pairs n : redex_queue n = [] → count_valid_active_pairs n = 0%nat.
Proof. intros H. unfold count_valid_active_pairs. by rewrite H. Qed.

Lemma numeral_read n lf k fuel : redex_queue n = [] → root n = Some (AgentPort lf 0) → numeral (λ _ _, True) n lf k →
  0 < k → k < Readback.MAX_STEPS → (N.to_nat k < fuel)%nat → Readback.decode_biguint fuel n = Readback.ok k.
Proof.
  intros Hq Hr (lx & Hf & Hx & Hb & H1 & H2 & Hs) H0 Hm Hfuel. unfold Readback.decode_biguint.
  rewrite (no_queue_no_pairs n Hq), Hr. cbn [Nat.ltb Nat.leb].
  rewrite (lambda_at_Some n _ lf eq_refl Hf), (lambda_at_Some n _ lx Hb Hx).
  assert (Hbody : n.[lx, 2] ≠ AgentPort lx 1 ∧ n.[lx, 2] ≠ DISCONNECTED).
  { inversion Hs as [|? id ? E Hne]; subst; [lia|]. rewrite E. split; [congruence|done]. }
  rewrite decide_False by tauto. rewrite decide_False by tauto.
  unfold Readback.read_chain. rewrite (spine_read n lx _ _ k _ Hs) by lia. done.
Qed.

(** C31. The two readers agree.  A positive numeral below four million that
    [decode_nat] reads in a well-formed net, [decode_biguint] reads too, with the
    same value. *)
Theorem readers_agree n fuel k : wf n → (length (agents n) ≤ fuel)%nat → decode_nat fuel n = Some (Some k) →
  0 < k < Readback.MAX_STEPS → ∀ fuel', (N.to_nat k < fuel')%nat → Readback.decode_biguint fuel' n = Readback.ok k.
Proof.
  intros Hwf Hfuel Hd [H0 Hm] fuel' Hf. destruct (decode_nat_spec n fuel Hwf Hfuel) as (r & Er & Hr).
  rewrite Hd in Er. injection Er as <-. destruct (proj1 (Hr k) eq_refl) as (Hq & lf & Hroot & Hnum).
  by eapply numeral_read.
Qed.

Lemma readers_agree_witness : ∃ n, encode_nat 3 = Done n ∧ wf n ∧ (length (agents n) ≤ 20)%nat ∧
  decode_nat 20 n = Some (Some 3) ∧ Readback.decode_biguint 4 n = Readback.ok 3.
Proof.
  destruct (encode_nat 3) as [n|] eqn:E; [|discriminate]. exists n.
  assert (En : n = match encode_nat 3 with Done n => n | Panic => new end) by (rewrite E; reflexivity).
  assert (W : wf n) by (rewrite En; apply wf_b_sound; vm_compute; reflexivity).
  assert (L : (length (agents n) ≤ 20)%nat) by (rewrite En; apply Nat.leb_le; vm_compute; reflexivity).
  assert (D : decode_nat 20 n = Some (Some 3)) by (rewrite En; vm_compute; reflexivity).
  split; [reflexivity|]. split; [exact W|]. split; [exact L|]. split; [exact D|].
  apply (readers_agree n 20 3 W L D); [split; reflexivity|]. apply Nat.ltb_lt. vm_compute. reflexivity.
Defined.

(** ** Polynomials through the reducer *)

(** Encode, reduce to the normal form, find the root, read back. *)
Definition evaluate (fuel : nat) (coeffs : list N) (x : N) : Readback.answer N :=
  match Horner.encode coeffs x with
  | Done (inl n) =>
      match reduce_all fuel n with
      | Some (Done (n, _)) =>
          let n := match root n with Some _ => n | None => fst (discover_root n) end in
          Readback.decode_biguint fuel n
      | _ => None
      end
  | _ => None
  end.

Definition linear_inputs : list (list N * N) := a ← range_u 5; b ← range_u 5; x ← range_u 5; [([a; b], x)].
Definition monic_inputs : list (list N * N) := a ← range_u 4; b ← range_u 4; x ← range_u 5; [([a; b; 1], x)].

(** The answer is the polynomial's value. *)
Definition right (p : list N * N) : bool :=
  match evaluate 3000 (fst p) (snd p) with Some (inl v) => v =? polynomial (fst p) (snd p) | _ => false end.
Definition refused (p : list N * N) : bool :=
  match evaluate 3000 (fst p) (snd p) with Some (inr Readback.UnrecognizedStructure) => true | _ => false end.
Definition zero_linear (p : list N * N) : bool := bool_decide (fst p = [0; 0]) && negb (snd p =? 0).

(** What comes back through the reducer, the model itself computing each run
    to the end.  Linear polynomials and monic quadratic ones with small
    coefficients come back right, except that the zero polynomial [0 + 0 x] is
    reported as unrecognised at every [x] but zero.  A leading coefficient zero is
    silently wrong at [x = 2]: [x + 0 x^2] comes back as four. *)
Theorem horner_small :
  Forall (λ p, if zero_linear p then refused p = true else right p = true) linear_inputs ∧
  Forall (λ p, right p = true) monic_inputs ∧
  evaluate 3000 [0; 1; 0] 2 = Readback.ok 4 ∧ polynomial [0; 1; 0] 2 = 2.
Proof.
  split; [|split; [|split_and!; vm_compute; reflexivity]].
  - assert (E : forallb (λ p, if zero_linear p then refused p else right p) linear_inputs = true) by (vm_compute; reflexivity).
    apply Forall_forall. intros p Hp%list_elem_of_In. rewrite forallb_forall in E. specialize (E p Hp). by destruct (zero_linear p).
  - assert (E : forallb right monic_inputs = true) by (vm_compute; reflexivity).
    apply Forall_forall. intros p Hp%list_elem_of_In. by apply (proj1 (forallb_forall _ _) E).
Qed.
