(* ===== verification/Runtime.v ===== *)
(** The distributed runtime: the coordinator of protocol/coordinator.rs, the
    worker of protocol/worker.rs, the self-worker of protocol/self_worker.rs and
    the token of security/token.rs.  A connection and the listening transport are
    abstract states; what they deliver, and which timer fires first, is up to
    them.  Durations, log output and the texts of errors are left out; a vector
    of durations is its length. *)
From S2P Require Import Prelude NetTypes NetCore Reduction Partition BorderGraph Split Merge Coordinator Grid Retained Frame.
From stdpp Require Import strings.
Local Open Scope N_scope.
Import Retained Frame.

Module Runtime.

(** ** Tokens (security/token.rs) *)

(** 32 bytes. *)
Record AuthToken : Type := mkToken { as_bytes : list N }.

Definition from_bytes (bytes : list N) : AuthToken := mkToken bytes.

(** [ct_eq] of the subtle package decides equality. *)
Definition verify (token other : AuthToken) : bool := bool_decide (as_bytes token = as_bytes other).

Definition token_ok (expected : option AuthToken) (provided : option (list N)) : bool :=
  match expected with
  | None => true
  | Some token => match provided with Some bytes => verify token (from_bytes bytes) | None => false end
  end.

(** ** Transports *)

(** The points where the coordinator waits for connections. *)
Inductive Site : Type := Registration | SoloPeek | CollectDrain | WindowMin | WindowExtension.

(** [recv_frame] under a timer. *)
Inductive reply (E : Type) : Type :=
| Received (msg : Message) (nbytes : N)
| Broken (e : E)
| Elapsed.
Arguments Received {E} msg nbytes.
Arguments Broken {E} e.
Arguments Elapsed {E}.

Class Transport (T C E : Type) : Type := {
  send_frame : C → Message → C * (N + E);
  recv_frame : N → C → C * reply E;
  listen : T → T * (unit + E);
  (** What [accept] yields at a site before the coordinator stops waiting there. *)
  arrivals : Site → T → T * list (C + E);
  (** The coordinator's end of the channel to a fresh self-worker, and whether
      that worker ended without a panic. *)
  spawn_self_partition : C;
  joined : C → bool;
  (** The distribution timer fires before the sends on these streams are done. *)
  distribution_elapsed : list C → bool;
}.

Inductive ProtocolError (E : Type) : Type :=
| Io (e : E)
| Timeout
| Fatal
| UnexpectedMessage
| SpaceExhausted
| AllWorkersDeparted
| AuthFailed (reason : list N)
| VersionMismatch (expected received : N).
Arguments Io {E} e.
Arguments Timeout {E}.
Arguments Fatal {E}.
Arguments UnexpectedMessage {E}.
Arguments SpaceExhausted {E}.
Arguments AllWorkersDeparted {E}.
Arguments AuthFailed {E} reason.
Arguments VersionMismatch {E} expected received.

Definition PROTOCOL_VERSION : N := 7.

(** The fields of [NodeConfig] the runtime reads. *)
Record NodeConfig : Type := mkNodeConfig { nc_num_workers : N; nc_max_payload_size : N }.

(** ** Texts *)


Definition utf8_len (c : N) : N := if c <? 128 then 1 else if c <? 2048 then 2 else if c <? 65536 then 3 else 4.
Definition byte_len (s : list N) : N := foldr (λ c acc, utf8_len c + acc) 0 s.

(** [char::is_control]. *)
Definition is_control (c : N) : bool := (c <? 32) || ((127 <=? c) && (c <=? 159)).

Definition MAX_LEN : N := 4096.

Definition sanitize_char (c : N) : N :=
  if (c =? 10) || (c =? 13) || (c =? 0) then 32 else if is_control c then 63 else c.

(** "…[truncated]" *)
Definition truncated_mark : list N := 8230 :: chars "[truncated]"%string.

Definition sanitize_log_string (s : list N) : list N :=
  let out := sanitize_char <$> take (N.to_nat MAX_LEN) s in
  if MAX_LEN <? byte_len s then out ++ truncated_mark else out.

Fixpoint decimal_digits (fuel : nat) (x : N) (acc : list N) : list N :=
  match fuel with
  | O => acc
  | S fuel => let acc := (48 + x mod 10) :: acc in if x <? 10 then acc else decimal_digits fuel (x / 10) acc
  end.

(** The reason of a version mismatch; both versions are [u8]. *)
Definition mismatch_reason (expected got : N) : list N :=
  chars "protocol version mismatch: expected "%string ++ decimal_digits 3 expected [] ++ chars ", got "%string ++ decimal_digits 3 got [].

Fixpoint strip_prefix (p s : list N) : option (list N) :=
  match p, s with
  | [], _ => Some s
  | x :: p, y :: s => if x =? y then strip_prefix p s else None
  | _ :: _, [] => None
  end.

(** [&s[s.find(p)? + p.len()..]]. *)
Fixpoint after_first (p s : list N) : option (list N) :=
  match strip_prefix p s with
  | Some rest => Some rest
  | None => match s with [] => None | _ :: s => after_first p s end
  end.

Definition is_ascii_digit (c : N) : bool := (48 <=? c) && (c <=? 57).

Fixpoint leading_digits (s : list N) : list N :=
  match s with c :: s => if is_ascii_digit c then c :: leading_digits s else [] | [] => [] end.

(** [str::parse::<u8>] on digits. *)
Definition parse_u8 (s : list N) : option N :=
  match s with
  | [] => None
  | _ => let x := foldl (λ x c, 10 * x + (c - 48)) 0 s in if x <? 256 then Some x else None
  end.

Definition parse_version_mismatch_nack (reason : list N) : option N :=
  match after_first (chars "protocol version mismatch"%string) reason with
  | None => None
  | Some _ => after_first (chars "got "%string) reason ≫= λ tail, parse_u8 (leading_digits tail)
  end.

(** ** Departures *)

Inductive DepartureEventKind : Type := ConnectionLostEvent | PhaseTimeoutEvent.
Inductive ConnectionLossOutcome : Type := Abort | RecoveryTriggered (id : WorkerId) (kind : DepartureEventKind).

Definition handle_connection_loss (id : WorkerId) (elastic : bool) : ConnectionLossOutcome :=
  if elastic then RecoveryTriggered id ConnectionLostEvent else Abort.

Definition handle_phase_timeout (id : WorkerId) (elastic : bool) : ConnectionLossOutcome :=
  if elastic then RecoveryTriggered id PhaseTimeoutEvent else Abort.

(** [Vec::swap_remove]. *)
Definition swap_remove {A} (i : nat) (l : list A) : list A :=
  match last l with Some x => take (pred (length l)) (<[i := x]> l) | None => l end.

(** ** Metrics *)

Record RunMetrics : Type := mkRun {
  grid : GridMetrics;
  effective_slots : list N;
  workers_joined : list N;
  workers_departed : list N;
  initial_reclaims : list N;
  last_acked_reclaims : list N;
  redispatched : list N;
  join_overhead : list N;
  bytes_sent : list N;
  bytes_received : list N;
  join_window_times : nat;
  send_times : nat;
  recv_times : nat;
  compute_times : nat;
}.

Definition run_metrics_default : RunMetrics := mkRun metrics_default [] [] [] [] [] [] [] [] [] 0 0 0 0.

Definition pad (target : nat) (l : list N) : list N := l ++ replicate (target - length l) 0.

Definition push_partial_round_metrics (m : RunMetrics) : RunMetrics :=
  let target := length (effective_slots m) in
  mkRun (grid m) (effective_slots m) (pad target (workers_joined m)) (pad target (workers_departed m))
    (pad target (initial_reclaims m)) (pad target (last_acked_reclaims m)) (pad target (redispatched m))
    (pad target (join_overhead m)) (pad target (bytes_sent m)) (pad target (bytes_received m))
    (max target (join_window_times m)) (max target (send_times m)) (max target (recv_times m))
    (max target (compute_times m)).

Definition with_grid (g : GridMetrics) (m : RunMetrics) : RunMetrics :=
  mkRun g (effective_slots m) (workers_joined m) (workers_departed m) (initial_reclaims m) (last_acked_reclaims m)
    (redispatched m) (join_overhead m) (bytes_sent m) (bytes_received m) (join_window_times m) (send_times m)
    (recv_times m) (compute_times m).

(** [effective_slots_per_round.push(k_eff)], with [agents_per_round]. *)
Definition open_round (agents : nat) (k_eff : N) (m : RunMetrics) : RunMetrics :=
  mkRun (push_agents agents (grid m)) (effective_slots m ++ [k_eff]) (workers_joined m) (workers_departed m)
    (initial_reclaims m) (last_acked_reclaims m) (redispatched m) (join_overhead m) (bytes_sent m) (bytes_received m)
    (join_window_times m) (send_times m) (recv_times m) (compute_times m).

(** The counters pushed between the collection and the merge. *)
Definition push_collected (departed sent received : N) (m : RunMetrics) : RunMetrics :=
  mkRun (grid m) (effective_slots m) (workers_joined m) (workers_departed m ++ [departed])
    (initial_reclaims m ++ [0]) (last_acked_reclaims m ++ [0]) (redispatched m ++ [0]) (join_overhead m ++ [0])
    (bytes_sent m ++ [sent]) (bytes_received m ++ [received])
    (join_window_times m) (S (send_times m)) (S (recv_times m)) (S (compute_times m)).

(** The pushes at the end of a round. *)
Definition push_joined (windows : nat) (count : N) (m : RunMetrics) : RunMetrics :=
  mkRun (grid m) (effective_slots m) (workers_joined m ++ [count]) (workers_departed m)
    (initial_reclaims m) (last_acked_reclaims m) (redispatched m) (join_overhead m) (bytes_sent m) (bytes_received m)
    (join_window_times m + windows) (send_times m) (recv_times m) (compute_times m).

(** ** Registration (accept_workers) *)

Section coordinator.
Context {T C E : Type} `{Transport T C E} `{PartitionStrategy}.
(** The iteration order of the border map at each merge. *)
Variable order : PartitionPlan → list N.
Variable config : NodeConfig.
Variable grid_config : GridConfig.
Variable token : option AuthToken.

Definition send_ (s : C) (m : Message) : C := fst (send_frame s m).

(** The answer to the first message of a connection: whether it is registered. *)
Definition register_worker (next_worker_id : N) (s : C) (m : Message) : C * (bool + ProtocolError E) :=
  let nack s reason := (send_ s (RegisterNack (mkRegisterNack reason)), inl false) in
  match m with
  | Register payload =>
      if next_worker_id =? u32_MAX then
        (send_ s (RegisterNack (mkRegisterNack (chars "WorkerId space exhausted (R11)"%string))), inr SpaceExhausted)
      else if negb (rp_protocol_version payload =? PROTOCOL_VERSION) then
        nack s (mismatch_reason PROTOCOL_VERSION (rp_protocol_version payload))
      else if negb (token_ok token (rp_auth_token payload)) then nack s (chars "authentication failed"%string)
      else match send_frame s (RegisterAck (mkRegisterAck next_worker_id)) with
           | (s, inl _) => (s, inl true)
           | (s, inr e) => (s, inr (Io e))
           end
  | JoinRequest protocol_version _ _ =>
      (send_ s (JoinNack (if negb (protocol_version =? PROTOCOL_VERSION)
                          then ProtocolVersionMismatch PROTOCOL_VERSION protocol_version
                          else ElasticJoinDisabled)), inl false)
  | _ => nack s (chars "protocol error"%string)
  end.

Fixpoint accept_loop (num_workers : nat) (next_worker_id : N) (arrived : list (C + E)) (streams : list C)
    : list C + ProtocolError E :=
  if (num_workers <=? length streams)%nat then inl streams
  else match arrived with
       | [] => inr Timeout
       | inr e :: _ => inr (Io e)
       | inl s :: arrived =>
           match recv_frame (nc_max_payload_size config) s with
           | (_, Broken e) => inr (Io e)
           | (_, Elapsed) => inr Timeout
           | (s, Received msg _) =>
               match register_worker next_worker_id s msg with
               | (_, inr e) => inr e
               | (s, inl true) => accept_loop num_workers (next_worker_id + 1) arrived (streams ++ [s])
               | (s, inl false) => accept_loop num_workers next_worker_id arrived streams
               end
           end
       end.

Definition accept_workers (t : T) (num_workers : N) (hybrid_mode : bool) : T * (list C + ProtocolError E) :=
  match listen t with
  | (t, inr e) => (t, inr (Io e))
  | (t, inl _) =>
      let '(t, arrived) := arrivals Registration t in
      (t, accept_loop (N.to_nat num_workers) (if hybrid_mode then 1 else 0) arrived [])
  end.

(** ** Distribution and collection *)

(** [join_all]: every send is attempted; the first error is reported. *)
Definition first_error (rs : list (N + E)) : N + ProtocolError E :=
  foldl (λ total r, match total, r with
                    | inl total, inl n => inl (total + n)
                    | inl _, inr e => inr (Io e)
                    | inr e, _ => inr e
                    end) (inl 0) rs.

(** Stream by stream; a stream past the last partition gets nothing. *)
Fixpoint send_all (streams : list C) (ps : list Partition) (round : N) : list C * list (N + E) :=
  match streams, ps with
  | s :: streams, p :: ps =>
      let '(s, r) := send_frame s (AssignPartition round p) in
      let '(streams, rs) := send_all streams ps round in
      (s :: streams, r :: rs)
  | _, _ => (streams, [])
  end.

Definition distribute_partitions (streams : list C) (ps : list Partition) (round : N)
    : list C * (N + ProtocolError E) :=
  let '(streams, rs) := send_all streams ps round in
  (streams, if distribution_elapsed streams then inr Timeout else first_error rs).

(** The function used outside of the elastic loop. *)
Fixpoint collect_results (streams : list C) (round max_payload_size : N)
    (results : list (Partition * WorkerRoundStats)) (total_bytes : N)
    : list (Partition * WorkerRoundStats) * N + ProtocolError E :=
  match streams with
  | [] => inl (results, total_bytes)
  | s :: streams =>
      match snd (recv_frame max_payload_size s) with
      | Broken e => inr (Io e)
      | Elapsed => inr Timeout
      | Received (PartitionResult r partition stats) nbytes =>
          if negb (r =? round) then inr UnexpectedMessage
          else collect_results streams round max_payload_size (results ++ [(partition, stats)]) (total_bytes + nbytes)
      | Received _ _ => inr UnexpectedMessage
      end
  end.

(** What one round has collected so far. *)
Record Collect : Type := mkCollect {
  results : list (Partition * WorkerRoundStats);
  departing : list WorkerId;
  received_bytes : N;
  retained_state : RetainedStateRegistry;
}.

Definition depart (id : WorkerId) (a : Collect) : Collect :=
  if bool_decide (id ∈ departing a) then a
  else mkCollect (results a) (departing a ++ [id]) (received_bytes a) (retained_state a).

Definition count_bytes (n : N) (a : Collect) : Collect :=
  mkCollect (results a) (departing a) (received_bytes a + n) (retained_state a).

Definition keep_result (p : Partition) (stats : WorkerRoundStats) (a : Collect) : Collect :=
  mkCollect (results a ++ [(p, stats)]) (departing a) (received_bytes a)
    (if retain_partitions grid_config then refresh_last_acked (retained_state a) (worker_id p) (AckedV1 p)
     else retained_state a).

Definition on_loss (o : ConnectionLossOutcome) (a : Collect) : Collect + ProtocolError E :=
  match o with Abort => inr Fatal | RecoveryTriggered id _ => inl (depart id a) end.

(** A result may be followed by a request to leave. *)
Definition peek_leave (wid : WorkerId) (s : C) (a : Collect) : C * Collect :=
  match recv_frame (nc_max_payload_size config) s with
  | (s, Received (LeaveRequest _) nbytes) => (send_ s LeaveAck, depart wid (count_bytes nbytes a))
  | (s, Received _ nbytes) => (s, count_bytes nbytes a)
  | (s, _) => (s, a)
  end.

Definition poll_worker (round : N) (wid : WorkerId) (s : C) (a : Collect) : C * (Collect + ProtocolError E) :=
  let elastic := elastic_departure grid_config in
  match recv_frame (nc_max_payload_size config) s with
  | (s, Broken _) => (s, on_loss (handle_connection_loss wid elastic) a)
  | (s, Elapsed) => (s, on_loss (handle_phase_timeout wid elastic) a)
  | (s, Received msg nbytes) =>
      let a := count_bytes nbytes a in
      match msg with
      | PartitionResult r partition stats =>
          if negb (r =? round) then (s, inr Fatal)
          else let '(s, a) := peek_leave wid s (keep_result partition stats a) in (s, inl a)
      | LeaveRequest _ => (send_ s LeaveAck, inl (depart wid a))
      | Error _ worker_id _ => (s, on_loss (handle_connection_loss worker_id elastic) a)
      | _ => (s, inr Fatal)
      end
  end.

Fixpoint poll_workers (round : N) (ws : list (WorkerId * C)) (a : Collect)
    : list (WorkerId * C) * (Collect + ProtocolError E) :=
  match ws with
  | [] => ([], inl a)
  | (wid, s) :: ws =>
      match poll_worker round wid s a with
      | (s, inr e) => ((wid, s) :: ws, inr e)
      | (s, inl a) => let '(ws, r) := poll_workers round ws a in ((wid, s) :: ws, r)
      end
  end.

(** ** Members of the grid *)

(** The two parallel vectors [worker_ids] and [worker_streams] are one list. *)
Record Roster : Type := mkRoster {
  transport : T;
  members : list (WorkerId * C);
  pending_connections : list C;
  next_worker_id : N;
  registry : RetainedStateRegistry;
}.

Definition with_transport (t : T) (g : Roster) : Roster :=
  mkRoster t (members g) (pending_connections g) (next_worker_id g) (registry g).
Definition with_members (ws : list (WorkerId * C)) (g : Roster) : Roster :=
  mkRoster (transport g) ws (pending_connections g) (next_worker_id g) (registry g).
Definition with_registry (r : RetainedStateRegistry) (g : Roster) : Roster :=
  mkRoster (transport g) (members g) (pending_connections g) (next_worker_id g) r.
Definition queue_connections (ss : list C) (g : Roster) : Roster :=
  mkRoster (transport g) (members g) (pending_connections g ++ ss) (next_worker_id g) (registry g).

(** A mid-session [JoinRequest]; the id is spent even when the ack is lost. *)
Definition process_join_request (s : C) (msg : Message) (next_worker_id current_round : N) (active_workers : gset WorkerId)
    : C * N * option WorkerId :=
  let nack reason := (send_ s (JoinNack reason), next_worker_id, None) in
  match msg with
  | JoinRequest protocol_version auth_token _ =>
      if negb (protocol_version =? PROTOCOL_VERSION) then nack (ProtocolVersionMismatch PROTOCOL_VERSION protocol_version)
      else if negb (elastic_join grid_config) then nack ElasticJoinDisabled
      else if negb (token_ok token auth_token) then nack AuthenticationFailed
      else if next_worker_id =? u32_MAX then nack WorkerIdSpaceExhausted
      else
        let partition_index := as_u32 (N.of_nat (size active_workers)) + (if hybrid_coordinator grid_config then 1 else 0) in
        match send_frame s (JoinAck next_worker_id partition_index current_round) with
        | (s, inl _) => (s, next_worker_id + 1, Some next_worker_id)
        | (s, inr _) => (s, next_worker_id + 1, None)
        end
  | _ => (s, next_worker_id, None)
  end.

(** [handshake_one!]: the grid and how many workers joined. *)
Definition handshake_one (round : N) (s : C) (st : Roster * N) : Roster * N :=
  let '(g, count) := st in
  match recv_frame (nc_max_payload_size config) s with
  | (s, Received msg _) =>
      match process_join_request s msg (next_worker_id g) round (list_to_set (fst <$> members g)) with
      | (s, next, Some worker_id) =>
          let r := if retain_partitions grid_config then register_initial (registry g) worker_id None else registry g in
          (mkRoster (transport g) (members g ++ [(worker_id, s)]) (pending_connections g) next r, count + 1)
      | (_, next, None) => (mkRoster (transport g) (members g) (pending_connections g) next (registry g), count)
      end
  | _ => (g, count)
  end.

Definition accepted (r : C + E) : option C := match r with inl s => Some s | inr _ => None end.

(** One timer of the join window. *)
Definition window (site : Site) (round : N) (st : Roster * N) : Roster * N * list C :=
  let '(t, arrived) := arrivals site (transport (fst st)) in
  let ss := omap accepted arrived in
  (foldl (λ st s, handshake_one round s st) (with_transport t (fst st), snd st) ss, ss).

(** The drain of the pending connections, the minimal window and, when somebody
    arrived, its extension. *)
Definition join_window (round : N) (g : Roster) : Roster * N :=
  let pending := pending_connections g in
  let g := mkRoster (transport g) (members g) [] (next_worker_id g) (registry g) in
  let st := foldl (λ st s, handshake_one round s st) (g, 0) pending in
  let '(st, arrived) := window WindowMin round st in
  if bool_decide (pending = []) && bool_decide (arrived = []) then st else fst (window WindowExtension round st).

(** [swap_remove] at the indices of the departed, from the last to the first. *)
Definition prune (departed : list WorkerId) (ws : list (WorkerId * C)) : list (WorkerId * C) :=
  foldr (λ i ws, match ws !! i with
                 | Some (id, _) => if bool_decide (id ∈ departed) then swap_remove i ws else ws
                 | None => ws
                 end) ws (seq 0 (length ws)).

(** Connections that came during the round; the drain stops at an error. *)
Fixpoint until_error (arrived : list (C + E)) : list C :=
  match arrived with inl s :: arrived => s :: until_error arrived | _ => [] end.

(** ** The loop (run_coordinator) *)

(** [SoloReducing]. *)
Fixpoint solo_reducing (fuel : nat) (n : Net) (m : RunMetrics) (g : Roster) : fueled (Net * RunMetrics * Roster) :=
  match fuel with
  | O => None
  | S fuel =>
      if bool_decide (redex_queue n = []) then Some (Done (n, m, g))
      else
        '(n, st) ←! Some (reduce_n n (N.to_nat (solo_budget grid_config)));
        let b := grid m in
        let m := with_grid (mkMetrics (rounds b) (gm_total_interactions b + total_interactions st)
                              (add_rules (total_interactions_by_rule b) (interactions_by_rule st))
                              (local_interactions_per_round b) (border_interactions_per_round b)
                              (border_redexes_per_round b) (agents_per_round b) (worker_stats_per_round b)
                              (coordinator_free_count b) (converged b)) m in
        if total_interactions st =? 0 then Some (Done (n, m, g))
        else
          let '(t, arrived) := arrivals SoloPeek (transport g) in
          let g := queue_connections (option_list (head arrived ≫= accepted)) (with_transport t g) in
          solo_reducing fuel n m g
  end.

(** [entry(worker_id).or_insert_with(V1(p))]. *)
Definition retain_initial (worker_id : WorkerId) (p : Partition) (r : RetainedStateRegistry) : RetainedStateRegistry :=
  match initial r !! worker_id with
  | Some _ => r
  | None => mkRegistry (<[worker_id := InitialV1 p]> (initial r)) (last_acked r)
  end.

Definition retain_round (self : option Partition) (remote : list Partition) (r : RetainedStateRegistry)
    : RetainedStateRegistry :=
  if retain_partitions grid_config then
    let r := match self with Some p => retain_initial 0 p r | None => r end in
    foldl (λ r p, retain_initial (worker_id p) p r) r remote
  else r.

(** Phases 2a and 2b: the surviving members, the bytes sent, what was collected. *)
Definition exchange (round : N) (self : option Partition) (remote : list Partition) (g : Roster)
    : Roster * (N * Collect + ProtocolError E) :=
  let ids := fst <$> members g in
  let '(streams, sent) := distribute_partitions (snd <$> members g) remote round in
  let g := with_members (zip ids streams) g in
  match sent with
  | inr e => (g, inr e)
  | inl bytes =>
      match (match self with
             | None => inl (None, bytes)
             | Some p => match send_frame spawn_self_partition (AssignPartition round p) with
                         | (s, inl k) => inl (Some s, bytes + k)
                         | (_, inr e) => inr (Io e)
                         end
             end) with
      | inr e => (g, inr e)
      | inl (self_stream, bytes) =>
          let polled := members g ++ option_list ((λ s, (0, s)) <$> self_stream) in
          let '(ws, collected) := poll_workers round polled (mkCollect [] [] 0 (registry g)) in
          let g := with_members (take (length (members g)) ws) g in
          match collected with
          | inr e => (g, inr e)
          | inl a =>
              let '(t, arrived) := arrivals CollectDrain (transport g) in
              let g := queue_connections (until_error arrived) (with_transport t g) in
              match snd <$> (ws !! length (members g)) with
              | Some s => if joined s then (g, inl (bytes, a)) else (g, inr Fatal)
              | None => (g, inl (bytes, a))
              end
          end
      end
  end.

(** The departed leave; without anybody to go on the run fails. *)
Definition departures (a : Collect) (g : Roster) : Roster + ProtocolError E :=
  let r := foldl release_worker (retained_state a) (departing a) in
  let g := with_registry r (with_members (prune (departing a) (members g)) g) in
  if negb (bool_decide (departing a = [])) && bool_decide (members g = []) && negb (hybrid_coordinator grid_config)
  then inr AllWorkersDeparted else inl g.

(** Phase 3 and the end of the round. *)
Definition merge_round (fuel : nat) (plan : PartitionPlan) (a : Collect) (m : RunMetrics) : fueled (Net * RunMetrics) :=
  let stats := snd <$> results a in
  let plan := mkPlan (fst <$> results a) (plan_borders plan) (next_border_id plan) in
  let '(merged, border_redex_count) := merge_along (order plan) plan in
  let local := sum_local stats in
  let by_rule := foldl (λ t s, add_rules t (ws_by_rule s)) (total_interactions_by_rule (grid m)) stats in
  '(n, st) ←! (if strict_bsp grid_config then Some (Done (merged, stats_zero)) else reduce_all fuel merged);
  let b := push_local local stats (grid m) in
  Some (Done (n,
    with_grid (mkMetrics (u32_succ (rounds b)) (gm_total_interactions b + (local + total_interactions st))
                 (add_rules by_rule (interactions_by_rule st))
                 (local_interactions_per_round b) (border_interactions_per_round b ++ [total_interactions st])
                 (border_redexes_per_round b ++ [border_redex_count]) (agents_per_round b) (worker_stats_per_round b)
                 (coordinator_free_count b) (converged b)) m)).

Definition join_phase (m : RunMetrics) (g : Roster) : RunMetrics * Roster :=
  if elastic_join grid_config then
    let '(g, count) := join_window (rounds (grid m)) g in (push_joined 1 count m, g)
  else (push_joined 0 0 m, g).

(** A round: partition, exchange, departures, merge, join window. *)
Definition bsp_round (fuel : nat) (n : Net) (m : RunMetrics) (g : Roster)
    : fueled (Net * RunMetrics * Roster + ProtocolError E) :=
  let k_eff := as_u32 (N.of_nat (length (members g)) + (if hybrid_coordinator grid_config then 1 else 0)) in
  let m := open_round (count_live_agents n) k_eff m in
  plan ←! Some (Split.split n k_eff);
  let '(self, remote) := match partitions plan with
                         | p :: ps => if hybrid_coordinator grid_config then (Some p, ps) else (None, p :: ps)
                         | [] => (None, [])
                         end in
  let g := with_registry (retain_round self remote (registry g)) g in
  match exchange (rounds (grid m)) self remote g with
  | (_, inr e) => Some (Done (inr e))
  | (g, inl (bytes, a)) =>
      match departures a g with
      | inr e => Some (Done (inr e))
      | inl g =>
          let m := push_collected (as_u32 (N.of_nat (length (departing a)))) bytes (received_bytes a) m in
          '(n, m) ←! merge_round fuel plan a m;
          let '(m, g) := join_phase m g in
          Some (Done (inl (n, m, g)))
      end
  end.

Definition shutdown_workers (ws : list (WorkerId * C)) : list (WorkerId * C) :=
  (λ '(id, s), (id, send_ s Shutdown)) <$> ws.

(** The net, the metrics and the members, told to stop. *)
Definition finish (b : bool) (n : Net) (m : RunMetrics) (g : Roster) : Net * RunMetrics * list (WorkerId * C) :=
  (n, with_grid (set_converged b (grid m)) m, shutdown_workers (members g)).

Fixpoint coordinator_loop (max_iterations fuel : nat) (n : Net) (m : RunMetrics) (g : Roster)
    : fueled (Net * RunMetrics * list (WorkerId * C) + ProtocolError E) :=
  match max_iterations with
  | O => None
  | S max_iterations =>
      let n := drain_stale_redexes n in
      if bool_decide (redex_queue n = []) then Some (Done (inl (finish true n m g)))
      else if check_max_rounds_cap grid_config (grid m) then Some (Done (inl (finish false n m g)))
      else
        let next n m g :=
          r ←! bsp_round fuel n m g;
          match r with
          | inr e => Some (Done (inr e))
          | inl (n, m, g) => coordinator_loop max_iterations fuel n m g
          end in
        if bool_decide (members g = []) then
          if hybrid_coordinator grid_config then
            '(n, m, g) ←! solo_reducing fuel n m g;
            if bool_decide (redex_queue n = []) then Some (Done (inl (finish true n m g))) else next n m g
          else Some (Done (inr Fatal))
        else next n m g
  end.

Definition run_coordinator (max_iterations fuel : nat) (n : Net) (t : T)
    : fueled (Net * RunMetrics * list (WorkerId * C) + ProtocolError E) :=
  let hybrid := hybrid_coordinator grid_config in
  let remote_workers_needed := if hybrid then nc_num_workers config - 1 else nc_num_workers config in
  let '(t, accepted) := accept_workers t remote_workers_needed hybrid in
  match accepted with
  | inr e => Some (Done (inr e))
  | inl streams =>
      let offset := if hybrid then 1 else 0 in
      let ids := (λ i, as_u32 (N.of_nat i + offset)) <$> seq 0 (length streams) in
      coordinator_loop max_iterations fuel n run_metrics_default
        (mkRoster t (zip ids streams) [] (as_u32 (N.of_nat (length streams) + offset)) Retained.new)
  end.

End coordinator.
Arguments Roster T C : clear implicits.

(** ** The worker (protocol/worker.rs) *)

(** The worker's side of a connection: the transport class with the roles
    exchanged; [connect_once] is one attempt of [transport.connect]. *)
Class Dialer (T C E : Type) : Type := { connect_once : T → T * (C + E) }.

Definition MAX_ATTEMPTS : N := 10.
Definition INITIAL_DELAY : N := 1.
Definition MAX_DELAY : N := 16.

Section worker.
Context {T C E : Type} `{Transport T C E} `{Dialer T C E}.
Variable config : NodeConfig.

(** The version of this worker; the coordinator's is [PROTOCOL_VERSION]. *)
Variable version : N.

(** The connection or the error, with the delays slept, in seconds. *)
Fixpoint connect_with_retry (fuel : nat) (t : T) (max_attempts : option N) (attempt delay : N) (slept : list N)
    : option (T * (C + ProtocolError E) * list N) :=
  match fuel with
  | O => None
  | S fuel =>
      let attempt := u32_succ attempt in
      match connect_once t with
      | (t, inl s) => Some (t, inl s, slept)
      | (t, inr e) =>
          if match max_attempts with Some max => max <=? attempt | None => false end then Some (t, inr (Io e), slept)
          else connect_with_retry fuel t max_attempts attempt (N.min (delay * 2) MAX_DELAY) (slept ++ [delay])
      end
  end.

(** The answer of the coordinator to [Register]. *)
Definition on_register_reply (m : Message) : unit + ProtocolError E :=
  match m with
  | RegisterAck _ => inl tt
  | RegisterNack nack =>
      match parse_version_mismatch_nack (rn_reason nack) with
      | Some received => inr (VersionMismatch version received)
      | None => inr (AuthFailed (rn_reason nack))
      end
  | _ => inr UnexpectedMessage
  end.

(** One assignment: reduction, rebuilt index, statistics. *)
Definition serve_assignment (fuel : nat) (p : Partition) : fueled (Partition * WorkerRoundStats) :=
  let before := count_live_agents (subnet p) in
  '(n, st) ←! reduce_all fuel (subnet p);
  let after := count_live_agents n in
  let p := with_index (rebuild_free_port_index n (border_id_start p) (border_id_end p)) (with_subnet n p) in
  Some (Done (p, mkWorkerStats (worker_id p) before after (total_interactions st) (interactions_by_rule st)
                   (compute_border_activity p) false)).

(** The main loop; a wait that a timer of the other side cuts goes on. *)
Fixpoint worker_loop (turns fuel : nat) (s : C) : fueled (C * (unit + ProtocolError E)) :=
  match turns with
  | O => None
  | S turns =>
      match recv_frame (nc_max_payload_size config) s with
      | (s, Elapsed) => worker_loop turns fuel s
      | (s, Broken e) => Some (Done (s, inr (Io e)))
      | (s, Received (AssignPartition round partition) _) =>
          '(p, stats) ←! serve_assignment fuel partition;
          match send_frame s (PartitionResult round p stats) with
          | (s, inl _) => worker_loop turns fuel s
          | (s, inr e) => Some (Done (s, inr (Io e)))
          end
      | (s, Received Shutdown _) => Some (Done (s, inl tt))
      | (s, Received _ _) => Some (Done (s, inr UnexpectedMessage))
      end
  end.

(** After the connection: register, wait for the verdict, serve. *)
Fixpoint await_verdict (turns : nat) (s : C) : option (C * (Message + ProtocolError E)) :=
  match turns with
  | O => None
  | S turns =>
      match recv_frame (nc_max_payload_size config) s with
      | (s, Elapsed) => await_verdict turns s
      | (s, Broken e) => Some (s, inr (Io e))
      | (s, Received m _) => Some (s, inl m)
      end
  end.

Definition run_worker_inner (turns fuel : nat) (t : T) (token : option AuthToken) (max_attempts : option N)
    : fueled (T * (unit + ProtocolError E)) :=
  match connect_with_retry turns t max_attempts 0 INITIAL_DELAY [] with
  | None => None
  | Some (t, inr e, _) => Some (Done (t, inr e))
  | Some (t, inl s, _) =>
      match send_frame s (Register (mkRegister version (as_bytes <$> token))) with
      | (_, inr e) => Some (Done (t, inr (Io e)))
      | (s, inl _) =>
          match await_verdict turns s with
          | None => None
          | Some (_, inr e) => Some (Done (t, inr e))
          | Some (s, inl m) =>
              match on_register_reply m with
              | inr e => Some (Done (t, inr e))
              | inl _ => '(_, r) ←! worker_loop turns fuel s; Some (Done (t, r))
              end
          end
      end
  end.

Definition run_worker (turns fuel : nat) (t : T) (token : option AuthToken) : fueled (T * (unit + ProtocolError E)) :=
  run_worker_inner turns fuel t token (Some MAX_ATTEMPTS).

(** ** The self-worker (protocol/self_worker.rs) *)

(** One round; [is_coordinator_self], and the index is not rebuilt. *)
Definition serve_self (fuel : nat) (p : Partition) : fueled (Partition * WorkerRoundStats) :=
  let before := count_live_agents (subnet p) in
  '(n, st) ←! reduce_all fuel (subnet p);
  Some (Done (with_subnet n p,
              mkWorkerStats (worker_id p) before (count_live_agents n) (total_interactions st)
                (interactions_by_rule st) false true)).

Definition self_worker (turns fuel : nat) (s : C) : fueled (C * (unit + ProtocolError E)) :=
  match await_verdict turns s with
  | None => None
  | Some (s, inr e) => Some (Done (s, inr e))
  | Some (s, inl (AssignPartition round partition)) =>
      '(p, stats) ←! serve_self fuel partition;
      match send_frame s (PartitionResult round p stats) with
      | (s, inl _) => Some (Done (s, inl tt))
      | (s, inr e) => Some (Done (s, inr (Io e)))
      end
  | Some (s, inl _) => Some (Done (s, inr UnexpectedMessage))
  end.

(** [reduce_solo_batch]. *)
Definition reduce_solo_batch (n : Net) (budget : N) : outcome (Net * ReductionStats) := reduce_n n (N.to_nat budget).

End worker.

End Runtime.
