(* ===== verification/RuntimeInv.v ===== *)
(** The distributed loop with workers that answer: its simulation by the
    in-process loop, and what a round does whatever the connections deliver. *)
From S2P Require Import Prelude NetTypes NetCore Reduction Partition BorderGraph Split Merge Coordinator Grid Retained Frame Runtime.
Local Open Scope N_scope.
Import Frame Runtime.

(** ** Counters *)

Lemma add_rules_assoc a b c : add_rules a (add_rules b c) = add_rules (add_rules a b) c.
Proof.
  unfold add_rules. revert b c. induction a as [|x a IH]; intros [|y b] [|z c]; cbn; try done. by rewrite IH, N.add_assoc.
Qed.

Lemma add_rules_zeros a b : (length a ≤ 6)%nat → add_rules a (add_rules (replicate 6 0) b) = add_rules a b.
Proof.
  intros Ha. unfold add_rules. do 7 (destruct a as [|? a]; [by destruct b as [|? [|? [|? [|? [|? [|? b]]]]]]|]). cbn in Ha. lia.
Qed.

Lemma length_add_rules a b : (length (add_rules a b) ≤ length a)%nat.
Proof. unfold add_rules. rewrite length_zip_with. lia. Qed.

(** Adding each worker's counters to the total is adding their sum. *)
Lemma add_each_worker stats total : (length total ≤ 6)%nat →
  foldl (λ t s, add_rules t (ws_by_rule s)) total stats = add_rules total (sum_by_rule stats) ∨ stats = [].
Proof.
  intros Ht. destruct stats as [|s stats]; [by right|left]. unfold sum_by_rule. cbn [foldl].
  rewrite <- (add_rules_zeros total (ws_by_rule s)) by done. generalize (add_rules (replicate 6 0) (ws_by_rule s)) as x.
  induction stats as [|s' stats IH]; intros x; [done|]. cbn [foldl]. by rewrite <- add_rules_assoc, IH.
Qed.

(** ** The parts of a split *)

Lemma fold_outcome_collect {A B} (f : A → outcome B) l acc r :
  fold_outcome (λ ps i, p ← f i; mret (ps ++ [p])) acc l = Done r → length r = (length acc + length l)%nat.
Proof.
  revert acc. induction l as [|x l IH]; intros acc; cbn [fold_outcome]; [intros [= ->]; cbn; lia|].
  destruct (f x) as [p|]; cbn; [|done]. intros ->%IH. rewrite length_app. cbn. lia.
Qed.

Lemma split_length `{PartitionStrategy} n k c plan : 1 ≤ k → split_with_config n k c = Done plan →
  length (partitions plan) = N.to_nat k.
Proof.
  intros Hk. unfold split_with_config. destruct (N.eqb_spec k 0); [lia|]. destruct (N.leb_spec k 1).
  { intros [= <-]. cbn. lia. }
  rewrite outcome_bind_Done. intros (sigma & _ & E). revert E. rewrite outcome_bind_Done. intros (wa & _ & E). revert E.
  rewrite outcome_bind_Done. intros (wc & _ & E). revert E. rewrite outcome_bind_Done. intros (rs & _ & E). revert E.
  rewrite outcome_bind_Done. intros (parts & Hp & [= <-]). apply fold_outcome_collect in Hp. cbn.
  rewrite Hp, length_seq. cbn. lia.
Qed.

Lemma prune_none {C} (ws : list (WorkerId * C)) : prune [] ws = ws.
Proof.
  unfold prune. generalize (seq 0 (length ws)) as l. induction l as [|i l IH]; [done|]. cbn [foldr]. rewrite IH.
  destruct (ws !! i) as [[id s]|]; [|done]. by rewrite bool_decide_false by apply not_elem_of_nil.
Qed.

(** ** Workers that answer *)

(** A connection whose other end runs the worker: it takes an assignment, and
    its next message is that worker's answer; it says nothing else. *)
Class Answering {T C E : Type} `{Transport T C E} (fuel : nat) : Type := {
  idle : C → Prop;
  assigned : C → N → Partition → Prop;
  answered : C → Prop;
  takes_assignment s round p : idle s → ∃ s' k, send_frame s (AssignPartition round p) = (s', inl k) ∧ assigned s' round p;
  answers s round p p' st max : assigned s round p → serve_assignment fuel p = Some (Done (p', st)) →
    ∃ s' k, recv_frame max s = (s', Received (PartitionResult round p' st) k) ∧ answered s';
  then_quiet s max : answered s → ∃ s', recv_frame max s = (s', Elapsed) ∧ idle s';
  in_time ss round ps : Forall2 (λ s p, assigned s round p) ss ps → distribution_elapsed ss = false;
}.

Section simulation.
Context {T C E : Type} `{HT : Transport T C E} `{PartitionStrategy} (fuel : nat) `{!Answering fuel}.
Context (order : PartitionPlan → list N) (config : NodeConfig) (c : GridConfig) (token : option AuthToken).

Lemma poll_answering round s p p' st a wid : assigned s round p → serve_assignment fuel p = Some (Done (p', st)) →
  ∃ s' a', poll_worker config c round wid s a = (s', inl a') ∧ idle s' ∧ results a' = results a ++ [(p', st)] ∧
    departing a' = departing a.
Proof using Type*.
  intros Hs Hp. unfold poll_worker. destruct (answers s round p p' st (nc_max_payload_size config) Hs Hp) as (s1 & k & -> & H1).
  rewrite N.eqb_refl. cbn [negb]. unfold peek_leave.
  destruct (then_quiet s1 (nc_max_payload_size config) H1) as (s2 & -> & H2). by exists s2, (keep_result c p' st (count_bytes k a)).
Qed.

Lemma poll_all_answering round ps ps' ss : local_phase fuel ps = Some (Done (ps', ss)) → ∀ ids streams a,
  Forall2 (λ s p, assigned s round p) streams ps → length ids = length ps →
  ∃ streams' a', poll_workers config c round (zip ids streams) a = (zip ids streams', inl a') ∧ Forall idle streams' ∧
    length streams' = length ps ∧ results a' = results a ++ zip ps' ss ∧ departing a' = departing a.
Proof using Type*.
  revert ps' ss. induction ps as [|p ps IH]; intros ps' ss Hl ids streams a Hs Hi.
  { injection Hl as <- <-. inversion Hs; subst. destruct ids; [|done]. exists [], a. by rewrite app_nil_r. }
  cbn [local_phase] in Hl. apply run_bind_Done in Hl as ([p1 s1] & Hp & Hl). apply run_bind_Done in Hl as ([ps1 ss1] & Hps & Hl).
  injection Hl as <- <-. inversion Hs as [|s ? streams' ? H1 H2]; subst. destruct ids as [|id ids]; [done|].
  destruct (poll_answering round s p p1 s1 a id H1 Hp) as (s' & a1 & Hpoll & Hidle & Hr & Hd).
  destruct (IH _ _ Hps ids streams' a1 H2 ltac:(cbn in Hi; lia)) as (st' & a2 & Hpolls & Hi2 & Hl2 & Hr2 & Hd2).
  exists (s' :: st'), a2. cbn [zip zip_with poll_workers]. rewrite Hpoll. change (zip_with pair ids streams') with (zip ids streams').
  rewrite Hpolls. split; [done|]. split; [by constructor|]. split; [cbn; lia|]. rewrite Hr2, Hr, <- app_assoc. split; [done|congruence].
Qed.

Lemma send_all_idle streams ps round : Forall idle streams → length streams = length ps →
  ∃ streams' ks, send_all streams ps round = (streams', inl <$> ks) ∧ Forall2 (λ s p, assigned s round p) streams' ps.
Proof using Type*.
  revert ps. induction streams as [|s streams IH]; intros [|p ps] Hs Hl; try done; [by exists [], []|].
  apply Forall_cons in Hs as [H1 H2]. destruct (takes_assignment s round p H1) as (s' & k & Hsend & Has).
  destruct (IH ps H2 ltac:(cbn in Hl; lia)) as (ss & ks & Hss & Hf). exists (s' :: ss), (k :: ks).
  cbn [send_all]. rewrite Hsend, Hss. split; [done|by constructor].
Qed.

Lemma first_error_none (ks : list N) : ∃ total, first_error (inl <$> ks : list (N + E)) = inl total.
Proof.
  unfold first_error. generalize 0 as x. induction ks as [|k ks IH]; intros x; cbn; [by eexists|apply IH].
Qed.

Lemma zip_fst_snd {A B} (l : list (A * B)) : zip (fst <$> l) (snd <$> l) = l.
Proof. apply zip_fst_snd. Qed.

(** The members wait for work. *)
Definition resting (g : Roster T C) : Prop := Forall idle (snd <$> members g).

Lemma exchange_answering round ps ps' ss g : resting g → length (members g) = length ps → local_phase fuel ps = Some (Done (ps', ss)) →
  ∃ g' bytes a, exchange config c round None ps g = (g', inl (bytes, a)) ∧ resting g' ∧
    length (members g') = length (members g) ∧ results a = zip ps' ss ∧ departing a = [].
Proof using Type*.
  intros Hr Hl Hp. unfold exchange, distribute_partitions.
  destruct (send_all_idle (snd <$> members g) ps round Hr ltac:(by rewrite length_fmap)) as (ss1 & ks & -> & Has).
  rewrite (in_time ss1 round ps Has). destruct (first_error_none ks) as [total ->].
  destruct (poll_all_answering round ps ps' ss Hp (fst <$> members g) ss1 (mkCollect [] [] 0 (registry g)) Has) as (ss2 & a & Hpoll & Hi & Hl2 & Hres & Hd).
  { by rewrite length_fmap. }
  cbn [members with_members registry option_list fmap option_fmap option_map]. rewrite app_nil_r. rewrite Hpoll.
  destruct (arrivals CollectDrain _) as [t arrived]. cbn [results departing app] in *.
  assert (Hlen : length (zip (fst <$> members g) ss2) = length (members g)).
  { rewrite length_zip_with, length_fmap. lia. }
  assert (Hlen1 : length (zip (fst <$> members g) ss1) = length (members g)).
  { apply Forall2_length in Has. rewrite length_zip_with, length_fmap. lia. }
  rewrite (take_ge (zip _ ss2)) by lia. rewrite lookup_ge_None_2 by done. cbn [fmap option_fmap option_map].
  do 3 eexists. split; [done|]. cbn [members queue_connections with_transport with_members].
  split; [|done]. unfold resting. cbn. rewrite snd_zip; [done|]. rewrite length_fmap. lia.
Qed.

(** The configurations on which both loops do the same work. *)
Record comparable (k : nat) : Prop := {
  cmp_workers : num_workers c = N.of_nat k;
  cmp_many : (1 < k)%nat ∧ N.of_nat k ≤ u32_MAX;
  cmp_lenient : strict_bsp c = false;
  cmp_remote : hybrid_coordinator c = false;
  cmp_closed : elastic_join c = false;
  cmp_policy : recycle_under_delta c = DisableUnderDelta;
}.

Lemma zip_lengths ps ps' ss : local_phase fuel ps = Some (Done (ps', ss)) → length ps' = length ps ∧ length ss = length ps.
Proof.
  revert ps' ss. induction ps as [|p ps IH]; intros ps' ss; cbn [local_phase]; [by intros [= <- <-]|].
  intros ([p1 s1] & _ & ([ps1 ss1] & Hps & [= <- <-])%run_bind_Done)%run_bind_Done. apply IH in Hps as [E1 E2]. cbn. lia.
Qed.

(** What a round makes of the merged net. *)
Definition settle (fuel : nat) (merged : Net) : fueled (Net * ReductionStats) :=
  if strict_bsp c then Some (Done (merged, stats_zero)) else reduce_all fuel merged.

Lemma merge_round_of cfuel plan ps ss a m n st : results a = zip ps ss → length ps = length ss →
  ss ≠ [] → (length (total_interactions_by_rule (grid m)) ≤ 6)%nat →
  let plan' := mkPlan ps (plan_borders plan) (next_border_id plan) in
  settle cfuel (merge_along (order plan') plan').1 = Some (Done (n, st)) →
  merge_round order c cfuel plan a m =
    Some (Done (n, with_grid (close_round (merge_along (order plan') plan').2 (total_interactions st) (sum_local ss)
                                (add_rules (sum_by_rule ss) (interactions_by_rule st)) false
                                (push_local (sum_local ss) ss (grid m))) m)).
Proof using Type.
  intros Hr Hl Hne H6 plan' Hred. unfold merge_round. rewrite Hr, fst_zip, snd_zip by lia. fold plan'.
  destruct (merge_along (order plan') plan') as [merged count] eqn:Em. cbn [fst] in Hred. fold (settle cfuel merged). rewrite Hred. cbn [run_bind].
  destruct (add_each_worker ss (total_interactions_by_rule (grid m)) H6) as [->|]; [|done].
  unfold close_round, push_local. cbn. by rewrite add_rules_assoc.
Qed.

(** A round with [k] remote members that answer. *)
Lemma bsp_answering cfuel k n m g plan ps ss n1 st : (1 < k)%nat → N.of_nat k ≤ u32_MAX → hybrid_coordinator c = false →
  elastic_join c = false → resting g → length (members g) = k → (length (total_interactions_by_rule (grid m)) ≤ 6)%nat →
  Split.split n (N.of_nat k) = Done plan → local_phase fuel (partitions plan) = Some (Done (ps, ss)) →
  let plan' := mkPlan ps (plan_borders plan) (next_border_id plan) in
  settle cfuel (merge_along (order plan') plan').1 = Some (Done (n1, st)) →
  ∃ rm g', bsp_round order config c token cfuel n m g = Some (Done (inl (n1, rm, g'))) ∧ resting g' ∧ length (members g') = k ∧
    grid rm = close_round (merge_along (order plan') plan').2 (total_interactions st) (sum_local ss)
                (add_rules (sum_by_rule ss) (interactions_by_rule st)) false
                (push_local (sum_local ss) ss (push_agents (count_live_agents n) (grid m))).
Proof using Type*.
  intros Hk1 Hk2 Hh Hj Hg Hlen H6 Hplan Hlp plan' Hred.
  assert (Hparts := split_length n (N.of_nat k) _ plan ltac:(lia) Hplan). rewrite Nat2N.id in Hparts.
  destruct (zip_lengths _ _ _ Hlp) as [L1 L2].
  set (m1 := open_round (count_live_agents n) (N.of_nat k) m).
  destruct (exchange_answering (rounds (grid m1)) (partitions plan) ps ss
              (with_registry (retain_round c None (partitions plan) (registry g)) g) Hg ltac:(cbn; lia) Hlp)
    as (g1 & bytes & a & Hex & Hg1 & Hl1 & Hra & Hda).
  set (m2 := push_collected (as_u32 (N.of_nat (length (departing a)))) bytes (received_bytes a) m1).
  assert (Hne : ss ≠ []) by (intros ->; cbn in L2; lia).
  assert (Hmr := merge_round_of cfuel plan ps ss a m2 n1 st Hra ltac:(lia) Hne H6 Hred).
  unfold bsp_round. rewrite Hh, Hlen, N.add_0_r, as_u32_small by lia. rewrite Hplan. cbn [run_bind].
  destruct (partitions plan) as [|p0 rest] eqn:Eps; [cbn in Hparts; lia|].
  fold m1. rewrite Hex. unfold departures. rewrite Hda. cbn [foldl].
  rewrite (bool_decide_true (@nil WorkerId = [])) by done. cbn [negb andb]. rewrite prune_none.
  subst m2. rewrite Hda in Hmr. rewrite Hmr. cbn [run_bind]. unfold join_phase. rewrite Hj.
  do 2 eexists. split; [done|]. split; [exact Hg1|]. split; [cbn in *; lia|done].
Qed.

Lemma round_answering k n m g n' m' stop : comparable k → resting g → length (members g) = k →
  (length (total_interactions_by_rule (grid m)) ≤ 6)%nat →
  check_max_rounds_cap c (grid m) = false → grid_round order fuel c n (grid m) = Some (Done (n', m', stop)) →
  ∃ n0 rm g', bsp_round order config c token fuel n m g = Some (Done (inl (n0, rm, g'))) ∧ n' = drain_stale_redexes n0 ∧
    resting g' ∧ length (members g') = k ∧ (length (total_interactions_by_rule (grid rm)) ≤ 6)%nat ∧
    stop = bool_decide (redex_queue n' = []) ∧ m' = if stop then set_converged true (grid rm) else grid rm.
Proof using Type*.
  intros [Hk [Hk1 Hk2] Hst Hh Hj Hp] Hg Hlen H6 Hcap. unfold grid_round. rewrite Hcap.
  intros (plan & Hplan & Heq)%run_bind_Done. injection Hplan as Hplan. rewrite Hp, Hk in Hplan. revert Heq.
  intros ([ps ss] & Hlp & Heq)%run_bind_Done. revert Heq.
  destruct (check_global_normal_form ss) as [nb nr]. rewrite Hst, !andb_false_r. cbn [andb].
  destruct (merge_along _ _) as [merged count] eqn:Em. intros ([n1 st] & Hred & Hstop)%run_bind_Done.
  destruct (bsp_answering fuel k n m g plan ps ss n1 st Hk1 Hk2 Hh Hj Hg Hlen H6 Hplan Hlp) as (rm & g' & Hb & Hg' & Hl' & Hm).
  { unfold settle. by rewrite Hst, Em. }
  rewrite Em in Hm. cbn [snd] in Hm. exists n1, rm, g'. split; [done|].
  assert (H6' : (length (total_interactions_by_rule (grid rm)) ≤ 6)%nat).
  { rewrite Hm. etransitivity; [apply length_add_rules|done]. }
  destruct (bool_decide (redex_queue (drain_stale_redexes n1) = [])) eqn:Eq; injection Hstop as <- <- <-;
    (split_and!; [done|done|done|done|by rewrite Eq|by rewrite Hm]).
Qed.

(** The distributed loop follows the in-process one, one iteration ahead. *)
Lemma loop_answering k i : comparable k → ∀ n m g n' m', resting g → length (members g) = k →
  (length (total_interactions_by_rule (grid m)) ≤ 6)%nat → redex_queue (drain_stale_redexes n) ≠ [] →
  grid_loop order i fuel c (drain_stale_redexes n) (grid m) = Some (Done (n', m')) →
  ∃ rm g', coordinator_loop order config c token (S i) fuel n m g = Some (Done (inl (n', rm, shutdown_workers (members g')))) ∧
    grid rm = m' ∧ resting g' ∧ length (members g') = k.
Proof using Type*.
  intros Hc. induction i as [|i IH]; intros n m g n' m' Hg Hl H6 Hq; [done|]. cbn [grid_loop].
  intros ([[n1 m1] stop] & Hround & Hrest)%run_bind_Done.
  assert (Hne : members g ≠ []) by (intros Hm; destruct Hc as [_ [Hk _]]; rewrite Hm in Hl; cbn in Hl; lia).
  remember (S i) as j eqn:Ej. cbn [coordinator_loop]. rewrite bool_decide_false by done.
  destruct (check_max_rounds_cap c (grid m)) eqn:Ecap.
  { unfold grid_round in Hround. rewrite Ecap in Hround. injection Hround as <- <- <-. injection Hrest as <- <-.
    exists (with_grid (set_converged false (grid m)) m), g. by split_and!. }
  rewrite (bool_decide_false (members g = [])) by done.
  destruct (round_answering k _ m g n1 m1 stop Hc Hg Hl H6 Ecap Hround) as (n0 & rm & g' & -> & -> & Hg' & Hl' & H6' & Hstop & Hm).
  cbn [run_bind]. subst j. destruct stop.
  - injection Hrest as <- <-. symmetry in Hstop. cbn [coordinator_loop]. rewrite Hstop.
    exists (with_grid (set_converged true (grid rm)) rm), g'. by split_and!.
  - subst m1. symmetry in Hstop. apply bool_decide_eq_false in Hstop. by apply (IH n0 rm g' n' m' Hg' Hl' H6').
Qed.

(** ** Workers that register *)

(** A connection whose other end is a worker of the right version and token. *)
Class Registering : Type := {
  fresh : C → Prop;
  greeted : C → Prop;
  greets s max : fresh s → ∃ s' payload k, recv_frame max s = (s', Received (Register payload) k) ∧
    rp_protocol_version payload = PROTOCOL_VERSION ∧ token_ok token (rp_auth_token payload) = true ∧ greeted s';
  takes_ack s ack : greeted s → ∃ s' k, send_frame s (RegisterAck ack) = (s', inl k) ∧ idle s';
}.

Lemma accept_fresh `{!Registering} k arrived : ∀ next streams, Forall fresh arrived → Forall idle streams →
  (length streams ≤ k)%nat → (k ≤ length streams + length arrived)%nat → next + N.of_nat (k - length streams) ≤ u32_MAX →
  ∃ streams', accept_loop config token k next (inl <$> arrived) streams = inl streams' ∧ Forall idle streams' ∧ length streams' = k.
Proof using Type*.
  induction arrived as [|s arrived IH]; intros next streams Hf Hi Hle Hk Hn; cbn [accept_loop fmap list_fmap];
    destruct (Nat.leb_spec k (length streams)) as [Hd|Hd].
  - exists streams. split; [done|]. split; [done|lia].
  - cbn in Hk. lia.
  - exists streams. split; [done|]. split; [done|lia].
  - apply Forall_cons in Hf as [Hs Hf].
    destruct (greets s (nc_max_payload_size config) Hs) as (s1 & payload & b & -> & Hv & Ht & H1). unfold register_worker.
    destruct (N.eqb_spec next u32_MAX); [lia|]. rewrite Hv, N.eqb_refl, Ht. cbn [negb].
    destruct (takes_ack s1 (mkRegisterAck next) H1) as (s2 & b2 & -> & H2).
    apply IH; [done|by apply Forall_app_2; [|constructor]|rewrite length_app; cbn in *; lia..].
Qed.

(** [k] workers come before the registration timer fires. *)
Definition workers_come `{!Registering} (t : T) (k : nat) : Prop :=
  ∃ t1 t2 ss, listen t = (t1, inl tt) ∧ arrivals Registration t1 = (t2, inl <$> ss) ∧ Forall fresh ss ∧ (k ≤ length ss)%nat.

Lemma run_answering `{!Registering} k i n t n' m' : comparable k → nc_num_workers config = N.of_nat k → workers_come t k →
  run_grid order i fuel n c = Some (Done (n', m')) →
  ∃ rm ws, run_coordinator order config c token (S i) fuel n t = Some (Done (inl (n', rm, shutdown_workers ws))) ∧
    grid rm = m' ∧ length ws = k ∧ Forall (λ w, idle (snd w)) ws.
Proof using Type*.
  intros Hc Hnc (t1 & t2 & ss & Hl & Ha & Hf & Hk). destruct (Hc) as [Hw [Hk1 Hk2] _ Hh _ _]. unfold run_grid.
  rewrite Hw. destruct (N.eqb_spec (N.of_nat k) 0); [lia|]. destruct (N.eqb_spec (N.of_nat k) 1); [lia|].
  intros Hg. unfold run_coordinator, accept_workers. rewrite Hh, Hl, Ha, Hnc, Nat2N.id.
  destruct (accept_fresh k ss 0 [] Hf (Forall_nil_2 _) ltac:(cbn; lia) Hk ltac:(cbn; lia)) as (streams & -> & Hi & Hlen).
  set (g := mkRoster _ _ _ _ _).
  assert (Hg0 : resting g). { unfold resting, g. cbn. rewrite snd_zip by (rewrite length_fmap, length_seq; lia). done. }
  assert (Hlg : length (members g) = k). { unfold g. cbn. rewrite length_zip_with, length_fmap, length_seq. lia. }
  case_bool_decide as Hq.
  - injection Hg as <- <-. remember (S i) as j. subst j. cbn [coordinator_loop]. rewrite bool_decide_true by done.
    exists (with_grid (set_converged true metrics_default) run_metrics_default), (members g). split_and!; [done|done|done|by apply Forall_fmap].
  - destruct (loop_answering k i Hc n run_metrics_default g n' m' Hg0 Hlg ltac:(cbn; lia) Hq Hg) as (rm & g' & E1 & E2 & E3 & E4).
    exists rm, (members g'). split_and!; [done|done|done|by apply Forall_fmap].
Qed.

End simulation.

(** ** Whatever the connections deliver *)

Section any.
Context {T C E : Type} `{HT : Transport T C E} `{PartitionStrategy}.
Context (order : PartitionPlan → list N) (config : NodeConfig) (c : GridConfig) (token : option AuthToken).

(** The stream's next message is this result, of this round. *)
Definition delivers (round : N) (s : C) (r : Partition * WorkerRoundStats) : Prop :=
  ∃ s' k, recv_frame (nc_max_payload_size config) s = (s', Received (PartitionResult round (fst r) (snd r)) k).

Lemma depart_more id (a : Collect) : departing (depart id a) ≠ [] ∧ (length (departing (depart id a)) ≤ S (length (departing a)))%nat ∧
  results (depart id a) = results a.
Proof.
  unfold depart. case_bool_decide as Hd; cbn [departing results].
  - split; [|split; [lia|done]]. intros He. by rewrite He, elem_of_nil in Hd.
  - rewrite length_app. cbn. split; [|split; [lia|done]]. by destruct (departing a).
Qed.

(** One poll adds the result its stream delivers, or somebody departs. *)
Lemma poll_cases round wid s a s' a' : poll_worker config c round wid s a = (s', inl a') →
  (length (departing a') ≤ S (length (departing a)))%nat ∧
  (departing a' = [] → departing a = [] ∧ ∃ r, results a' = results a ++ [r] ∧ delivers round s r).
Proof.
  assert (Hnot : ∀ id x b, length (departing x) = length (departing a) → b = depart id x →
    (length (departing b) ≤ S (length (departing a)))%nat ∧
    (departing b = [] → departing a = [] ∧ ∃ r, results b = results a ++ [r] ∧ delivers round s r)).
  { intros id x b Hx ->. destruct (depart_more id x) as (Hd & Hl & _). split; [lia|done]. }
  unfold poll_worker. destruct (recv_frame (nc_max_payload_size config) s) as [s1 [msg k|e|]] eqn:Er.
  2,3: unfold handle_connection_loss, handle_phase_timeout; destruct (elastic_departure c); cbn [on_loss];
    [|intros [=]]; intros [= _ <-]; by eapply Hnot.
  destruct msg; try (intros [=]; done).
  - destruct (N.eqb_spec round0 round) as [->|]; cbn [negb]; [|intros [=]]. unfold peek_leave.
    set (a1 := keep_result c partition stats (count_bytes k a)).
    assert (Hkeep : ∀ b, departing b = departing a → results b = results a1 →
      (length (departing b) ≤ S (length (departing a)))%nat ∧
      (departing b = [] → departing a = [] ∧ ∃ r, results b = results a ++ [r] ∧ delivers round s r)).
    { intros b Hb Hr. rewrite Hb. split; [lia|]. intros ->. split; [done|]. exists (partition, stats). split; [by rewrite Hr|].
      by exists s1, k. }
    destruct (recv_frame (nc_max_payload_size config) s1) as [s2 [m2 k2|e2|]];
      [destruct m2|..]; intros [= _ <-]; try (by apply Hkeep). by apply (Hnot wid (count_bytes k2 a1)).
  - unfold handle_connection_loss. destruct (elastic_departure c); cbn [on_loss]; [|intros [=]]. intros [= _ <-]. eapply Hnot; [|reflexivity]; done.
  - intros [= _ <-]. eapply Hnot; [|reflexivity]; done.
Qed.

Lemma polls_cases round ws : ∀ a ws' a', poll_workers config c round ws a = (ws', inl a') →
  length ws' = length ws ∧ fst <$> ws' = fst <$> ws ∧
  (length (departing a') ≤ length (departing a) + length ws)%nat ∧
  (departing a' = [] → departing a = [] ∧ ∃ rs, results a' = results a ++ rs ∧ Forall2 (delivers round) (snd <$> ws) rs).
Proof.
  induction ws as [|[wid s] ws IH]; intros a ws' a'; cbn [poll_workers].
  { intros [= <- <-]. split_and!; [done|done|cbn; lia|]. intros ->. split; [done|]. exists []. rewrite app_nil_r. by split; [|constructor]. }
  destruct (poll_worker config c round wid s a) as [s1 [a1|e]] eqn:Ep; [|intros [=]].
  destruct (poll_workers config c round ws a1) as [ws1 r1] eqn:Ews. intros [= <- ->].
  destruct (poll_cases _ _ _ _ _ _ Ep) as [L1 D1]. destruct (IH _ _ _ Ews) as (Hl & Hf & L2 & D2).
  split_and!; [cbn; lia|cbn; by f_equal|cbn; lia|]. intros Hd. destruct (D2 Hd) as (Hd1 & rs & Hr & Hrs).
  destruct (D1 Hd1) as (Hd0 & r & Hr1 & Hdel). split; [done|]. exists (r :: rs). rewrite Hr, Hr1, <- app_assoc. by split; [|constructor].
Qed.

Lemma send_all_length streams ps round : length (fst (send_all streams ps round)) = length streams.
Proof.
  revert ps. induction streams as [|s streams IH]; intros [|p ps]; try done. cbn [send_all].
  destruct (send_frame s (AssignPartition round p)) as [s' r]. specialize (IH ps). destruct (send_all streams ps round). cbn in *. lia.
Qed.

(** A stream that has been sent its part of the round. *)
Definition handed (round : N) (s : C) (p : Partition) : C := fst (send_frame s (AssignPartition round p)).

(** The streams a round waits for: each member's, sent the part at the member's
    place, then the self-worker's. *)
Definition awaiting (round : N) (self : option Partition) (remote : list Partition) (ws : list (WorkerId * C)) : list C :=
  zip_with (handed round) (snd <$> ws) remote ++ option_list (handed round spawn_self_partition <$> self).

Lemma send_all_handed streams ps round : length streams = length ps →
  fst (send_all streams ps round) = zip_with (handed round) streams ps.
Proof.
  revert ps. induction streams as [|s streams IH]; intros [|p ps] Hl; try done. injection Hl as Hl. specialize (IH ps Hl).
  cbn [send_all zip_with]. unfold handed at 1. destruct (send_frame s (AssignPartition round p)) as [s' r].
  destruct (send_all streams ps round). cbn in *. by f_equal.
Qed.

(** The slots of a round. *)
Definition slots (self : option Partition) (g : Roster T C) : nat := length (members g) + length (option_list self).

Lemma exchange_cases round self remote g g' bytes a : exchange config c round self remote g = (g', inl (bytes, a)) →
  (fst <$> members g' = fst <$> members g ∧ next_worker_id g' = next_worker_id g) ∧
  (length (departing a) ≤ slots self g)%nat ∧
  (departing a = [] → length remote = length (members g) → Forall2 (delivers round) (awaiting round self remote (members g)) (results a)).
Proof.
  unfold exchange, distribute_partitions. pose proof (send_all_length (snd <$> members g) remote round) as Hlen.
  pose proof (send_all_handed (snd <$> members g) remote round) as Hsent. rewrite length_fmap in Hsent.
  destruct (send_all (snd <$> members g) remote round) as [ss rs]. cbn [fst] in Hlen, Hsent. rewrite length_fmap in Hlen.
  destruct (if distribution_elapsed ss then inr Timeout else first_error rs) as [total|e]; [|intros [=]].
  destruct (match self with None => _ | Some p => _ end) as [[own bytes0]|e] eqn:Eself; [|intros [=]].
  assert (Eown : own = handed round spawn_self_partition <$> self).
  { destruct self as [p|]; [|by injection Eself as <- _]. cbn. unfold handed.
    destruct (send_frame spawn_self_partition _) as [s [k|e]]; [|discriminate]. by injection Eself as <- _. }
  assert (Hown : length (option_list own) = length (option_list self)) by (rewrite Eown; by destruct self).
  assert (Hzl : length (zip (fst <$> members g) ss) = length (members g)).
  { rewrite length_zip_with, length_fmap. lia. }
  assert (Hzf : fst <$> zip (fst <$> members g) ss = fst <$> members g).
  { apply fst_zip. rewrite length_fmap. lia. }
  cbn [members with_members registry]. destruct (poll_workers _ _ _ _ _) as [ws [a1|e]] eqn:Ep; [|intros [=]].
  destruct (polls_cases _ _ _ _ _ Ep) as (Hl & Hf & Hle & Hd).
  destruct (arrivals CollectDrain _) as [t arrived]. intros Hres.
  assert (Ha : a1 = a ∧ members g' = take (length (zip (fst <$> members g) ss)) ws ∧ next_worker_id g' = next_worker_id g).
  { revert Hres. repeat case_match; intros [=]; subst; by split_and!. }
  destruct Ha as (<- & Hm & Hn). rewrite Hm, fmap_take, Hf, fmap_app, take_app_le, take_ge, Hzf by (rewrite ?length_fmap; lia).
  assert (Hown' : length (option_list ((λ s, (0, s)) <$> own)) = length (option_list self)) by (rewrite <- Hown; by destruct own).
  rewrite length_app in Hle. cbn [departing length] in Hle. unfold slots.
  split; [done|]. split; [lia|]. intros He Hrem. destruct (Hd He) as (_ & rs' & -> & Hdel).
  cbn [results app]. unfold awaiting. rewrite <- Hsent, <- Eown by lia.
  rewrite fmap_app, snd_zip in Hdel by (rewrite length_fmap; lia). by destruct own.
Qed.

Lemma merge_round_inv fuel plan a m n' m' : merge_round order c fuel plan a m = Some (Done (n', m')) →
  ∃ g' st, m' = with_grid g' m ∧ rounds g' = u32_succ (rounds (grid m)) ∧
    worker_stats_per_round g' = worker_stats_per_round (grid m) ++ [snd <$> results a] ∧
    let plan' := mkPlan (fst <$> results a) (plan_borders plan) (next_border_id plan) in
    settle c fuel (merge_along (order plan') plan').1 = Some (Done (n', st)).
Proof.
  unfold merge_round, settle. destruct (merge_along _ _) as [merged count]. intros ([n st] & Hs & [= <- <-])%run_bind_Done.
  do 2 eexists. split; [done|]. split; [done|]. split; [done|]. exact Hs.
Qed.

(** The parts of a round that returns. *)
Lemma bsp_inv fuel n m g n' m' g' : bsp_round order config c token fuel n m g = Some (Done (inl (n', m', g'))) →
  let k := as_u32 (N.of_nat (length (members g)) + if hybrid_coordinator c then 1 else 0) in
  ∃ plan self remote g0 g1 bytes a g2 m1 m2, Split.split n k = Done plan ∧ length (partitions plan) = N.to_nat k ∧
    partitions plan = option_list self ++ remote ∧
    length (option_list self) = (if hybrid_coordinator c then 1 else 0)%nat ∧
    members g0 = members g ∧ next_worker_id g0 = next_worker_id g ∧
    exchange config c (rounds (grid m)) self remote g0 = (g1, inl (bytes, a)) ∧ departures (E := E) c a g1 = inl g2 ∧
    m1 = push_collected (as_u32 (N.of_nat (length (departing a)))) bytes (received_bytes a) (open_round (count_live_agents n) k m) ∧
    merge_round order c fuel plan a m1 = Some (Done (n', m2)) ∧ join_phase config c token m2 g2 = (m', g').
Proof.
  unfold bsp_round. set (k := as_u32 _). cbn zeta. intros (plan & Hplan & Heq)%run_bind_Done. injection Hplan as Hplan.
  assert (Hk : 1 ≤ k). { destruct (N.eqb_spec k 0) as [Ek|]; [|lia]. unfold Split.split, split_with_config in Hplan. by rewrite Ek in Hplan. }
  assert (Hparts := split_length n k config_default plan Hk Hplan). revert Heq.
  destruct (partitions plan) as [|p ps] eqn:Eps; [cbn in Hparts; lia|].
  destruct (if hybrid_coordinator c then (Some p, ps) else (None, p :: ps)) as [self remote] eqn:Es.
  assert (Hself : length (option_list self) = (if hybrid_coordinator c then 1 else 0)%nat).
  { destruct (hybrid_coordinator c); by injection Es as <- _. }
  assert (Hcut : p :: ps = option_list self ++ remote) by (destruct (hybrid_coordinator c); by injection Es as <- <-).
  set (g0 := with_registry _ g). destruct (exchange _ _ _ _ _ g0) as [g1 [[bytes a]|e]] eqn:Ex; [|intros [=]].
  destruct (departures (E := E) c a g1) as [g2|e] eqn:Ed; [|intros [=]]. intros ([n1 m2] & Hm & Heq)%run_bind_Done. revert Heq.
  destruct (join_phase _ _ _ m2 g2) as [m3 g3] eqn:Ej. intros [= <- <- <-].
  exists plan, self, remote, g0, g1, bytes, a, g2. do 2 eexists. split_and!; try done; by rewrite Eps.
Qed.

Lemma join_phase_metrics m g m' g' : join_phase config c token m g = (m', g') →
  ∃ count, m' = push_joined (if elastic_join c then 1 else 0) count m.
Proof.
  unfold join_phase. destruct (elastic_join c); [destruct (join_window _ _ _ _ _) as [g1 count]|]; intros [= <- <-]; by eexists.
Qed.

(** ** The members' ids *)

Record roster_ok (g : Roster T C) : Prop := {
  ro_unique : NoDup (fst <$> members g);
  ro_issued : ∀ id, id ∈ fst <$> members g → id < next_worker_id g;
  ro_bound : next_worker_id g ≤ u32_MAX;
}.

Lemma swap_remove_sub {A} i (l : list A) : ∃ r, Permutation l (r ++ swap_remove i l).
Proof.
  unfold swap_remove. destruct (last l) as [x|] eqn:El; [|by exists []].
  apply last_Some in El as [l' ->]. rewrite length_app, Nat.add_1_r. cbn [pred length].
  destruct (decide (i < length l')%nat) as [Hi|Hi].
  - destruct (lookup_lt_is_Some_2 l' i Hi) as [y Hy]. exists [y]. rewrite insert_app_l, take_app_length' by (rewrite ?length_insert; lia).
    rewrite <- (take_drop_middle l' i y Hy) at 1. rewrite (insert_take_drop l' i x) by done. solve_Permutation.
  - exists [x]. destruct (decide (i = length l')) as [->|].
    + rewrite insert_app_r_alt, Nat.sub_diag, take_app_length' by lia. solve_Permutation.
    + rewrite list_insert_ge, take_app_length' by (rewrite ?length_app; cbn; lia). solve_Permutation.
Qed.

Lemma prune_sub (dead : list WorkerId) (ws : list (WorkerId * C)) : ∃ r, Permutation ws (r ++ prune dead ws).
Proof.
  unfold prune. generalize (seq 0 (length ws)) as l. induction l as [|i l (r & Hr)]; [by exists []|]. cbn [foldr].
  set (acc := foldr _ ws l) in *. destruct (acc !! i) as [[id s]|]; [|by exists r]. case_bool_decide; [|by exists r].
  destruct (swap_remove_sub i acc) as (r' & Hr'). exists (r ++ r'). rewrite <- app_assoc, <- Hr'. exact Hr.
Qed.

Lemma roster_prune dead g r : roster_ok g → roster_ok (with_registry r (with_members (prune dead (members g)) g)).
Proof.
  intros [Hn Hi Hb]. destruct (prune_sub dead (members g)) as (rest & Hp). apply (fmap_Permutation fst) in Hp. rewrite fmap_app in Hp.
  split; cbn [members next_worker_id with_registry with_members]; [|intros id Hid; apply Hi; rewrite Hp; set_solver|done].
  rewrite Hp in Hn. by apply NoDup_app in Hn as (_ & _ & ?).
Qed.

Lemma handshake_roster round s g k g' k' : roster_ok g → handshake_one config c token round s (g, k) = (g', k') →
  roster_ok g' ∧ next_worker_id g ≤ next_worker_id g'.
Proof.
  intros [Hn Hi Hb]. unfold handshake_one. destruct (recv_frame _ s) as [s1 [msg b|e|]]; [|by intros [= <- <-]..].
  unfold process_join_request. destruct msg; try (intros [= <- <-]; by split; [split|]).
  destruct (negb _); [intros [= <- <-]; by split; [split|]|]. destruct (negb (elastic_join c)); [intros [= <- <-]; by split; [split|]|].
  destruct (negb (token_ok _ _)); [intros [= <- <-]; by split; [split|]|].
  destruct (N.eqb_spec (next_worker_id g) u32_MAX); [intros [= <- <-]; by split; [split|]|].
  destruct (send_frame s1 _) as [s2 [b2|e2]]; intros [= <- <-]; cbn [members next_worker_id].
  - split; [|lia]. split; cbn [members next_worker_id]; rewrite ?fmap_app; cbn; [|intros id [Hid|Hid]%elem_of_app|lia].
    + apply NoDup_app. split; [done|]. split; [|by apply NoDup_singleton].
      intros id Hid ->%list_elem_of_singleton. apply Hi in Hid. lia.
    + apply Hi in Hid. lia.
    + apply list_elem_of_singleton in Hid. lia.
  - split; [|lia]. split; cbn [members next_worker_id]; [done| |lia]. intros id Hid%Hi. lia.
Qed.

Lemma handshakes_roster round ss : ∀ st st', roster_ok (fst st) → foldl (λ st s, handshake_one config c token round s st) st ss = st' →
  roster_ok (fst st') ∧ next_worker_id (fst st) ≤ next_worker_id (fst st').
Proof.
  induction ss as [|s ss IH]; intros [g k] st' Hok; cbn [foldl]; [by intros <-|]. destruct (handshake_one _ _ _ _ s (g, k)) as [g1 k1] eqn:E1.
  destruct (handshake_roster _ _ _ _ _ _ Hok E1) as [H1 L1]. intros Hf. destruct (IH (g1, k1) st' H1 Hf) as [H2 L2]. cbn [fst] in *.
  split; [done|lia].
Qed.

Lemma join_roster m g m' g' : roster_ok g → join_phase config c token m g = (m', g') →
  roster_ok g' ∧ next_worker_id g ≤ next_worker_id g'.
Proof.
  intros Hok. unfold join_phase. destruct (elastic_join c); [|by intros [= <- <-]].
  destruct (join_window _ _ _ _ g) as [g1 count] eqn:Ej. intros [= <- <-]. revert Ej. unfold join_window, window.
  set (g0 := mkRoster _ _ [] _ _). assert (H0 : roster_ok g0) by (destruct Hok; by split).
  destruct (foldl _ (g0, 0) (pending_connections g)) as [ga ka] eqn:Ea.
  destruct (handshakes_roster _ _ (g0, 0) _ H0 Ea) as [Ha La]. cbn [fst snd] in *.
  destruct (arrivals WindowMin (transport ga)) as [t1 arr1].
  destruct (foldl _ (with_transport t1 ga, ka) (omap accepted arr1)) as [gb kb] eqn:Eb.
  destruct (handshakes_roster _ _ (with_transport t1 ga, ka) _ ltac:(destruct Ha; by split) Eb) as [Hb Lb]. cbn [fst snd] in *.
  destruct (_ && _); [intros [= <- <-]; split; [done|cbn in *; lia]|].
  destruct (arrivals WindowExtension (transport gb)) as [t2 arr2]. cbn [fst snd]. intros Ec.
  destruct (handshakes_roster _ _ (with_transport t2 gb, kb) _ ltac:(destruct Hb; by split) Ec) as [Hc Lc]. cbn in *. split; [done|lia].
Qed.

Lemma bsp_roster fuel n m g n' m' g' : roster_ok g → bsp_round order config c token fuel n m g = Some (Done (inl (n', m', g'))) →
  roster_ok g' ∧ next_worker_id g ≤ next_worker_id g'.
Proof.
  intros Hok (plan & self & remote & g0 & g1 & bytes & a & g2 & m1 & m2 & _ & _ & _ & _ & Hm0 & Hn0 & Hx & Hd & _ & _ & Hj)%bsp_inv.
  destruct (exchange_cases _ _ _ _ _ _ _ Hx) as ([Hm1 Hn1] & _ & _). rewrite Hm0, Hn0 in *.
  assert (Hok1 : roster_ok g1) by (destruct Hok; split; rewrite ?Hm1, ?Hn1; done).
  unfold departures in Hd. destruct (_ && _); [discriminate|]. injection Hd as <-.
  destruct (join_roster _ _ _ _ (roster_prune (departing a) g1 _ Hok1) Hj) as [H1 H2]. split; [done|]. cbn in H2. lia.
Qed.

End any.
