(* ===== verification/RuntimeSpec.v ===== *)
(** What the distributed runtime promises: with workers that answer it is the
    in-process loop; whatever the connections deliver, what a round merges; the
    handshakes; and closed runs that show where results or agents are lost. *)
From S2P Require Import Prelude NetTypes NetCore Reduction Partition BorderGraph Split Merge Coordinator Grid Retained Frame NetInv NetDebug Runtime RuntimeInv.
Local Open Scope N_scope.
Import Frame Runtime.

(** ** Simulated connections *)

(** What the worker at the other end does with its first assignment. *)
Inductive conduct : Type := Works | Breaks | Leaves.

Inductive line : Type :=
| Fresh (b : conduct) | Greeted (b : conduct) | Idle (b : conduct) | Assigned (b : conduct) (round : N) (p : Partition)
| Answered (b : conduct) | SelfIdle | SelfAssigned (round : N) (p : Partition) | Silent.

(** The fuel of every worker's reduction. *)
Definition REDUCTION_FUEL : nat := 64.

Definition line_recv (s : line) : line * reply unit :=
  match s with
  | Fresh b => (Greeted b, Received (Register (mkRegister PROTOCOL_VERSION None)) 0)
  | Assigned Works round p =>
      match serve_assignment REDUCTION_FUEL p with
      | Some (Done (p, st)) => (Answered Works, Received (PartitionResult round p st) 0)
      | _ => (s, Elapsed)
      end
  | Assigned Breaks _ _ => (Silent, Broken tt)
  | Assigned Leaves _ _ => (Silent, Received (LeaveRequest Urgent) 0)
  | Answered b => (Idle b, Elapsed)
  | SelfAssigned round p =>
      match serve_self REDUCTION_FUEL p with
      | Some (Done (p, st)) => (Silent, Received (PartitionResult round p st) 0)
      | _ => (s, Elapsed)
      end
  | _ => (s, Elapsed)
  end.

Definition line_send (s : line) (m : Message) : line * (N + unit) :=
  match s, m with
  | Greeted b, RegisterAck _ => (Idle b, inl 0)
  | Idle b, AssignPartition round p => (Assigned b round p, inl 0)
  | SelfIdle, AssignPartition round p => (SelfAssigned round p, inl 0)
  | _, _ => (s, inl 0)
  end.

(** The workers that register. *)
#[local] Instance lines : Transport (list conduct) line unit := {|
  send_frame := line_send;
  recv_frame _ s := line_recv s;
  listen t := (t, inl tt);
  arrivals site t := match site with Registration => ([], (λ b, inl (Fresh b)) <$> t) | _ => (t, []) end;
  spawn_self_partition := SelfIdle;
  joined _ := true;
  distribution_elapsed _ := false;
|}.

#[local, refine] Instance lines_answering : Answering REDUCTION_FUEL := {|
  idle s := s = Idle Works;
  assigned s round p := s = Assigned Works round p;
  answered s := s = Answered Works;
|}.
Proof.
  - intros s round p ->. by eexists _, _.
  - intros s round p p' st max -> Hs. eexists _, _. cbn. by rewrite Hs.
  - intros s max ->. by eexists.
  - done.
Defined.

#[local, refine] Instance lines_registering : Registering REDUCTION_FUEL None := {|
  fresh s := s = Fresh Works;
  greeted s := s = Greeted Works;
|}.
Proof.
  - intros s max ->. eexists _, _, _. by split_and!.
  - intros s ack ->. by eexists _, _.
Defined.

(** A run with these workers. *)
Definition run_lines (c : GridConfig) (max_iterations fuel : nat) (ws : list conduct) (n : Net)
    : fueled (Net * RunMetrics * list (WorkerId * line) + ProtocolError unit) :=
  run_coordinator (H := lines) (H0 := ContiguousIdStrategy) border_keys
    (mkNodeConfig (num_workers c) 0) c None max_iterations fuel n ws.

Definition two (strict hybrid departure : bool) : GridConfig :=
  mkGridConfig 2 None strict false false hybrid departure false false false 30000 50 500 10000
    DisableUnderDelta 10000 RoundRobin Auto 16.

Definition build (ss : list Symbol) (ws : list (PortRef * PortRef)) : Net :=
  match fold_outcome (λ n s, '(n, _) ← create_agent n s; mret n) new ss with
  | Done n => foldl (λ n w, connect n w.1 w.2) n ws
  | Panic => new
  end.

(** Two erasers on one wire: one for each of two workers. *)
Definition two_erasers : Net := build [Era; Era] [(AgentPort 0 0, AgentPort 1 0)].

(** An erasure inside the first worker's half, next to a wire to the second's. *)
Definition crossing : Net :=
  build [Con; Era; Era; Era]
    [(AgentPort 0 0, AgentPort 1 0); (AgentPort 0 1, AgentPort 3 0); (AgentPort 0 2, FreePort 7); (AgentPort 2 0, FreePort 8)].

(** ** The distributed run is the in-process run *)



(** ** Strict rounds *)

(** The net after one more round of a strict run with two workers. *)
Definition next_net (n : Net) : option Net :=
  match Split.split (H := ContiguousIdStrategy) (drain_stale_redexes n) 2 with
  | Done plan =>
      match local_phase REDUCTION_FUEL (partitions plan) with
      | Some (Done (ps, _)) => let plan := mkPlan ps (plan_borders plan) (next_border_id plan) in Some (merge plan).1
      | _ => None
      end
  | Panic => None
  end.

Definition strict_nets (j : nat) : Net := Nat.iter j (λ n, default n (next_net n)) two_erasers.

Lemma strict_cycle : strict_nets 13 = strict_nets 12 ∧
  forallb (λ j, negb (bool_decide (redex_queue (drain_stale_redexes (strict_nets j)) = [])) &&
                match next_net (strict_nets j) with Some _ => true | None => false end) (seq 0 13) = true.
Proof. split; vm_compute; reflexivity. Qed.

Lemma strict_S j : strict_nets (S j) = default (strict_nets j) (next_net (strict_nets j)).
Proof. done. Qed.

Lemma strict_bounded j : ∃ k, (k < 13)%nat ∧ strict_nets j = strict_nets k.
Proof.
  induction j as [|j (k & Hk & IH)]; [by exists 0%nat; split; [lia|]|].
  rewrite strict_S, IH, <- strict_S.
  destruct (decide (k = 12%nat)) as [->|]; [exists 12%nat; split; [lia|apply strict_cycle]|]. exists (S k). split; [lia|done].
Qed.

Lemma strict_step j : redex_queue (drain_stale_redexes (strict_nets j)) ≠ [] ∧ next_net (strict_nets j) = Some (strict_nets (S j)).
Proof.
  destruct (strict_bounded j) as (k & Hk & E). rewrite strict_S, !E. destruct strict_cycle as [_ H]. rewrite forallb_forall in H. specialize (H k ltac:(apply in_seq; lia)).
  apply andb_true_iff in H as [H1 H2]. apply negb_true_iff, bool_decide_eq_false in H1. split; [done|].
  by destruct (next_net (strict_nets k)).
Qed.

Lemma strict_loop i fuel : ∀ j m g, resting REDUCTION_FUEL g → length (members g) = 2%nat →
  (length (total_interactions_by_rule (grid m)) ≤ 6)%nat →
  coordinator_loop (H := lines) (H0 := ContiguousIdStrategy) border_keys (mkNodeConfig 2 0) (two true false false) None
    i fuel (strict_nets j) m g = None.
Proof.
  induction i as [|i IH]; intros j m g Hg Hl H6; [done|]. cbn [coordinator_loop].
  destruct (strict_step j) as [Hq Hn]. rewrite bool_decide_false by done. change (check_max_rounds_cap _ (grid m)) with false. cbn [negb].
  rewrite bool_decide_false by (intros Hm; by rewrite Hm in Hl).
  unfold next_net in Hn. destruct (Split.split _ 2) as [plan|] eqn:Es; [|done].
  destruct (local_phase REDUCTION_FUEL (partitions plan)) as [[[ps ss]|]|] eqn:Ep; try done. apply (inj Some) in Hn.
  destruct (bsp_answering REDUCTION_FUEL (H := ContiguousIdStrategy) border_keys (mkNodeConfig 2 0) (two true false false) None
    fuel 2 (drain_stale_redexes (strict_nets j)) m g plan ps ss (strict_nets (S j)) stats_zero) as (rm & g' & Hb & Hg' & Hl' & Hm);
    [lia|done|done|done|done|done|done|exact Es|exact Ep|unfold settle; cbn [strict_bsp two]; by rewrite <- Hn|].
  rewrite Hb. cbn [run_bind]. apply IH; [done|done|]. rewrite Hm. etransitivity; [apply length_add_rules|done].
Qed.

(** C40. In strict mode the coordinator over the wire never resolves the pairs
    that its split cuts, and the next split cuts them again: on two erasers and
    two workers that answer, no number of rounds is enough, where the in-process
    loop takes one. *)
Theorem strict_run_never_ends :
  (∀ max_iterations fuel, run_lines (two true false false) max_iterations fuel [Works; Works] two_erasers = None) ∧
  match run_grid (H := ContiguousIdStrategy) border_keys 1 4 two_erasers (two true false false) with
  | Some (Done (n, m)) => converged m = true ∧ rounds m = 1 ∧ live_agents n = []
  | _ => False
  end.
Proof.
  split; [|vm_compute; by split_and!]. intros i fuel. unfold run_lines, run_coordinator.
  change (accept_workers _ _ _ _ _) with (@nil conduct, @inl (list line) (ProtocolError unit) [Idle Works; Idle Works]).
  cbn [length seq fmap list_fmap zip zip_with].
  apply (strict_loop i fuel 0); [by repeat constructor|done|cbn; lia].
Qed.

(** ** Hybrid and elastic runs *)

(** The live agents and the target of one port, if the run reports convergence. *)
Definition observe {A B} (id : AgentId) (r : fueled (Net * RunMetrics * A + B)) : option (list AgentId * PortRef) :=
  match r with
  | Some (Done (inl (n, m, _))) => if converged (grid m) then Some (agent_id <$> live_agents n, get_target n (AgentPort id 0)) else None
  | _ => None
  end.

(** The self-worker of a hybrid coordinator does not rebuild its border
    index, so the merge wires the borders of its part to agents it has consumed.
    On a net of four agents the remote run ends with the two erasers of the
    sequential reduction; the hybrid run reports convergence with four agents and
    a wire to a dead one. *)
Theorem hybrid_run_corrupts :
  wf crossing ∧
  match reduce_all 8 crossing with Some (Done (n, _)) => length (live_agents n) = 2%nat | _ => False end ∧
  observe 4 (run_lines (two false false false) 4 8 [Works; Works] crossing) = Some ([2; 4], FreePort 7) ∧
  observe 3 (run_lines (two false true false) 4 8 [Works] crossing) = Some ([1; 2; 3; 4], AgentPort 0 1).
Proof. split; [apply wf_b_sound|split; [|split]]; vm_compute; reflexivity. Qed.

(** A worker that is lost before it answers takes its part of the net with
    it, and the run goes on: with elastic departure when its connection breaks,
    and in every mode when it asks to leave.  Two erasers, one per worker,
    reduce to the empty net; both runs report convergence with one eraser left,
    wired to nothing.  Without elastic departure a broken connection ends the run. *)
Theorem departure_loses_agents :
  match reduce_all 4 two_erasers with Some (Done (n, _)) => live_agents n = [] | _ => False end ∧
  observe 0 (run_lines (two false false true) 4 4 [Works; Breaks] two_erasers) = Some ([0], DISCONNECTED) ∧
  observe 0 (run_lines (two false false false) 4 4 [Works; Leaves] two_erasers) = Some ([0], DISCONNECTED) ∧
  run_lines (two false false false) 4 4 [Works; Breaks] two_erasers = Some (Done (inr Fatal)).
Proof. split_and!; vm_compute; reflexivity. Qed.

(** ** Whatever the connections deliver *)

(** C11. Over any transport: take a round that succeeds, with fewer than
    [u32::MAX] members, and whose departure counter is 0.  It split the net into
    one part per slot (a member each, and the coordinator itself in hybrid
    mode); it sent the i-th remaining part to the i-th member; and the results
    it merged are exactly, in that order and with the self-worker's last, the
    result of this round that each of these streams delivers next after its
    assignment.  The new net is the merge of these results along the plan's
    borders, which lenient mode then reduces with [reduce_all] and strict mode
    leaves unreduced.
    The statistics recorded for the round are the workers'. *)
Theorem round_merges_all {T C E} `{!Transport T C E} `{PartitionStrategy} order config c token fuel n m (g : Roster T C) n' m' g' :
  N.of_nat (length (members g)) < u32_MAX →
  bsp_round order config c token fuel n m g = Some (Done (inl (n', m', g'))) → last (workers_departed m') = Some 0 →
  ∃ plan self remote res,
    Split.split n (N.of_nat (length (members g)) + (if hybrid_coordinator c then 1 else 0)) = Done plan ∧
    partitions plan = option_list self ++ remote ∧ length remote = length (members g) ∧
    (is_Some self ↔ hybrid_coordinator c = true) ∧
    Forall2 (delivers config (rounds (grid m))) (awaiting (rounds (grid m)) self remote (members g)) res ∧
    last (worker_stats_per_round (grid m')) = Some (snd <$> res) ∧
    let plan' := mkPlan (fst <$> res) (plan_borders plan) (next_border_id plan) in
    let merged := (merge_along (order plan') plan').1 in
    if strict_bsp c then n' = merged else ∃ st, reduce_all fuel merged = Some (Done (n', st)).
Proof.
  intros Hlen (plan & self & remote & g0 & g1 & bytes & a & g2 & m1 & m2 & Hp & Hl & Hcut & Hs & Hm0 & Hn0 & Hx & Hd & -> & Hm & Hj)%bsp_inv Hlast.
  rewrite as_u32_small in * by (destruct (hybrid_coordinator c); lia).
  destruct (join_phase_metrics _ _ _ _ _ _ _ Hj) as [count ->]. destruct (merge_round_inv _ _ _ _ _ _ _ _ Hm) as (gm & st & -> & _ & Hws & Hset).
  cbn [workers_departed push_joined with_grid push_collected open_round] in Hlast. rewrite last_snoc in Hlast. injection Hlast as Hlast.
  destruct (exchange_cases _ _ _ _ _ _ _ _ _ Hx) as (_ & Hle & Hall). unfold slots in *. rewrite Hm0, Hs in *.
  rewrite as_u32_small in Hlast by (destruct (hybrid_coordinator c); lia).
  assert (Hrem : length remote = length (members g)).
  { rewrite Hcut, length_app, Hs in Hl. destruct (hybrid_coordinator c); lia. }
  pose proof (Hall ltac:(destruct (departing a); [done|cbn in Hlast; lia]) Hrem) as Hdel.
  exists plan, self, remote, (results a). split_and!; [done|done|done| |done| |].
  - destruct self, (hybrid_coordinator c); cbn in Hs; try lia; split; intros Hx'; try done; by destruct Hx'.
  - cbn [grid push_joined with_grid]. rewrite Hws. cbn [grid push_collected open_round]. apply last_snoc.
  - unfold settle in Hset. cbn zeta in *. destruct (strict_bsp c); [by injection Hset|by eexists].
Qed.

Lemma round_merges_all_witness :
  ∃ n' m' g' (res : list (Partition * WorkerRoundStats)), bsp_round (H := lines) (H0 := ContiguousIdStrategy) border_keys (mkNodeConfig 2 0) (two false false false) None 8
      crossing run_metrics_default (mkRoster [] [(0, Idle Works); (1, Idle Works)] [] 2 Retained.new) = Some (Done (inl (n', m', g'))) ∧
    length res = 2%nat ∧ length (live_agents n') = 2%nat ∧
    (∃ plan st, reduce_all 8 (merge_along (border_keys (mkPlan (fst <$> res) (plan_borders plan) (next_border_id plan)))
      (mkPlan (fst <$> res) (plan_borders plan) (next_border_id plan))).1 = Some (Done (n', st))).
Proof.
  set (r := bsp_round _ _ _ _ _ _ _ _).
  assert (E : match r with Some (Done (inl (n, m, _))) => last (workers_departed m) = Some 0 ∧ length (live_agents n) = 2%nat | _ => False end)
    by (vm_compute; split; reflexivity).
  destruct r as [[[[[n' m'] g']|]|]|] eqn:Er; try contradiction. destruct E as [E1 E2].
  destruct (round_merges_all (H := ContiguousIdStrategy) border_keys (mkNodeConfig 2 0) (two false false false) None 8 crossing
    run_metrics_default (mkRoster [] [(0, Idle Works); (1, Idle Works)] [] 2 Retained.new) n' m' g' eq_refl Er E1)
    as (plan & self & remote & res & _ & _ & Hr & Hself & Hf & _ & st & Hset).
  exists n', m', g', res. split; [reflexivity|]. split; [|split; [exact E2|exists plan, st; exact Hset]].
  apply Forall2_length in Hf. rewrite <- Hf. unfold awaiting. rewrite length_app, length_zip_with, Hr.
  destruct self as [p|]; [|reflexivity]. discriminate (proj1 Hself (ex_intro _ p eq_refl)).
Defined.

(** Worker ids are never reused: over any transport, the ids of the members
    are distinct and below the counter, which only grows, after every round. *)
Theorem member_ids_unique {T C E} `{!Transport T C E} `{PartitionStrategy} order config c token fuel n m (g : Roster T C) n' m' g' :
  roster_ok g → bsp_round order config c token fuel n m g = Some (Done (inl (n', m', g'))) →
  roster_ok g' ∧ next_worker_id g ≤ next_worker_id g'.
Proof. apply bsp_roster. Qed.

(** The join windows of a round. *)
Definition windows (c : GridConfig) : nat := if elastic_join c then 1 else 0.

(** The vectors of a run, after [j] rounds. *)
Record parity (w j : nat) (m : RunMetrics) : Prop := {
  pa_rounds : rounds (grid m) = as_u32 (N.of_nat j);
  pa_slots : length (effective_slots m) = j;
  pa_members : length (workers_joined m) = j ∧ length (workers_departed m) = j;
  pa_elastic : length (initial_reclaims m) = j ∧ length (last_acked_reclaims m) = j ∧ length (redispatched m) = j ∧
    length (join_overhead m) = j;
  pa_bytes : length (bytes_sent m) = j ∧ length (bytes_received m) = j;
  pa_times : send_times m = j ∧ recv_times m = j ∧ compute_times m = j ∧ join_window_times m = (w * j)%nat;
}.

Lemma parity_with_grid w j m b : parity w j m → rounds b = rounds (grid m) → parity w j (with_grid b m).
Proof. intros [? ? ? ? ? ?] Hr. by split; cbn; rewrite ?Hr. Qed.

Lemma parity_round {T C E} `{!Transport T C E} `{PartitionStrategy} order config c token fuel n m (g : Roster T C) n' m' g' j :
  bsp_round order config c token fuel n m g = Some (Done (inl (n', m', g'))) →
  parity (windows c) j m → parity (windows c) (S j) m'.
Proof.
  intros (plan & self & remote & g0 & g1 & bytes & a & g2 & m1 & m2 & _ & _ & _ & _ & _ & _ & _ & _ & -> & Hm & Hj)%bsp_inv [H1 H2 [H3 H4] (H5 & H6 & H7 & H8) [H9 H10] (H11 & H12 & H13 & H14)].
  destruct (join_phase_metrics _ _ _ _ _ _ _ Hj) as [count ->]. destruct (merge_round_inv _ _ _ _ _ _ _ _ Hm) as (gm & st & -> & Hr & _).
  fold (windows c).
  split; cbn -[Nat.mul]; rewrite ?length_app; cbn -[Nat.mul]; try lia.
  rewrite Hr. cbn. rewrite H1. unfold u32_succ, as_u32. rewrite N.Div0.add_mod_idemp_l. f_equal. lia.
Qed.

Lemma parity_solo {T C E} `{!Transport T C E} c fuel w j : ∀ n m (g : Roster T C) n' m' g',
  solo_reducing c fuel n m g = Some (Done (n', m', g')) → parity w j m → parity w j m'.
Proof.
  induction fuel as [|fuel IH]; intros n m g n' m' g'; [done|]. cbn [solo_reducing]. case_bool_decide; [by intros [= <- <- <-]|].
  intros ([n1 st] & _ & Heq)%run_bind_Done Hp. revert Heq. set (m1 := with_grid _ m).
  assert (Hp1 : parity w j m1) by by apply parity_with_grid.
  destruct (total_interactions st =? 0); [by intros [= <- <- <-]|]. destruct (arrivals SoloPeek (transport g)). intros Heq. by eapply IH.
Qed.

(** The per-round vectors of a run that returns have one entry per round:
    no round leaves a counter behind, with any transport.  The join-window
    times are recorded only when joining is enabled. *)
Theorem metrics_parity {T C E} `{!Transport T C E} `{PartitionStrategy} order config c token i fuel n (t : T) n' m' (ws : list (WorkerId * C)) :
  run_coordinator order config c token i fuel n t = Some (Done (inl (n', m', ws))) →
  ∃ j, parity (windows c) j m'.
Proof.
  unfold run_coordinator. destruct (accept_workers _ _ _ _ _) as [t1 [streams|e]]; [|intros [=]].
  generalize (mkRoster t1 (zip ((λ i, as_u32 (N.of_nat i + (if hybrid_coordinator c then 1 else 0))) <$> seq 0 (length streams)) streams) []
    (as_u32 (N.of_nat (length streams) + (if hybrid_coordinator c then 1 else 0))) Retained.new) as g.
  assert (H0 : parity (windows c) 0 run_metrics_default) by (split; cbn; lia || (split_and!; lia) || done).
  revert H0. generalize 0%nat as j. generalize run_metrics_default as m. revert n.
  induction i as [|i IH]; intros n m j Hp g; [done|]. cbn [coordinator_loop].
  assert (Hfin : ∀ b n m (g : Roster T C) j, parity (windows c) j m →
    Some (Done (@inl _ (ProtocolError E) (finish b n m g))) = Some (Done (inl (n', m', ws))) → ∃ j, parity (windows c) j m').
  { intros b n1 m1 g1 j1 Hp1 [= _ <- _]. exists j1. by apply parity_with_grid. }
  assert (Hnext : ∀ n m (g : Roster T C) j, parity (windows c) j m →
    (r ←! bsp_round order config c token fuel n m g;
     match r with inr e => Some (Done (inr e)) | inl (n, m, g) => coordinator_loop order config c token i fuel n m g end)
      = Some (Done (inl (n', m', ws))) → ∃ j, parity (windows c) j m').
  { intros n1 m1 g1 j1 Hp1 ([[[n2 m2] g2]|e] & Hb & Heq)%run_bind_Done; [|done]. eapply IH; [|exact Heq]. by eapply parity_round. }
  case_bool_decide; [by eapply Hfin|]. destruct (check_max_rounds_cap _ _); [by eapply Hfin|].
  case_bool_decide; [|by eapply Hnext]. destruct (hybrid_coordinator c); [|done].
  intros ([[n1 m1] g1] & Hs & Hrest)%run_bind_Done. revert Hrest. assert (Hp1 := parity_solo _ _ _ _ _ _ _ _ _ _ Hs Hp).
  case_bool_decide; [by eapply Hfin|by eapply Hnext].
Qed.

(** ** The registration handshake, from both sides *)

(** A connection that records what is sent on it. *)
#[local] Instance recorded : Transport unit (list Message) unit := {|
  send_frame s m := (s ++ [m], inl 0);
  recv_frame _ s := (s, Elapsed);
  listen t := (t, inl tt);
  arrivals _ t := (t, []);
  spawn_self_partition := [];
  joined _ := true;
  distribution_elapsed _ := false;
|}.

Lemma mismatch_parsed v : v < 256 → parse_version_mismatch_nack (mismatch_reason PROTOCOL_VERSION v) = Some v.
Proof.
  intros Hv. assert (Hall : forallb (λ v, bool_decide (parse_version_mismatch_nack (mismatch_reason PROTOCOL_VERSION v) = Some v))
    (N.of_nat <$> seq 0 256) = true) by (vm_compute; reflexivity).
  rewrite forallb_forall in Hall. apply (bool_decide_eq_true_1 _), Hall.
  apply list_elem_of_In, list_elem_of_fmap. exists (N.to_nat v). split; [lia|]. apply elem_of_seq. lia.
Qed.

(** Coordinator and worker agree on the registration: to a worker that
    registers, exactly one message is sent, and the worker starts to serve exactly
    when the coordinator has admitted it, that is, when the versions are equal, the
    token is the right one and ids are left.  A worker of another version reports
    a mismatch of its version with itself: the number in the text is its own. *)
Theorem registration_agrees token next v provided : v < 256 →
  ∃ reply verdict, register_worker (H := recorded) token next [] (Register (mkRegister v provided)) = ([reply], verdict) ∧
    (on_register_reply (E := unit) v reply = inl tt ↔ verdict = inl true) ∧
    (verdict = inl true ↔ next ≠ u32_MAX ∧ v = PROTOCOL_VERSION ∧ token_ok token provided = true) ∧
    (next ≠ u32_MAX → v ≠ PROTOCOL_VERSION → on_register_reply (E := unit) v reply = inr (VersionMismatch v v)).
Proof.
  intros Hv. unfold register_worker. cbn [rp_protocol_version rp_auth_token]. destruct (N.eqb_spec next u32_MAX) as [Hn|Hn].
  { do 2 eexists. split; [done|]. by split_and!; [split; [vm_compute; discriminate|discriminate]|split; [discriminate|intros []]|intros []]. }
  destruct (N.eqb_spec v PROTOCOL_VERSION) as [Ev|Ev]; cbn [negb].
  - destruct (token_ok token provided) eqn:Et; cbn [negb]; do 2 eexists; (split; [done|]).
    + by split_and!.
    + split_and!; [split; [vm_compute; discriminate|discriminate]|split; [discriminate|intros (_ & _ & [=])]|done].
  - do 2 eexists. split; [done|]. unfold on_register_reply. cbn [rn_reason]. rewrite mismatch_parsed by done.
    split; [split; discriminate|]. split; [split; [discriminate|intros (_ & He & _); by destruct Ev]|done].
Qed.

Lemma registration_agrees_witness :
  ∃ reply verdict, register_worker (H := recorded) None 0 [] (Register (mkRegister 6 None)) = ([reply], verdict) ∧
    on_register_reply (E := unit) 6 reply = inr (VersionMismatch 6 6).
Proof.
  destruct (registration_agrees None 0 6 None eq_refl) as (reply & verdict & H1 & _ & _ & H2).
  exists reply, verdict. split; [exact H1|]. apply H2; discriminate.
Defined.

(** ** Connection attempts *)

(** Attempt after attempt, the worker sleeps one second, then twice as long up to
    sixteen; with a limit it stops after that many attempts. *)
Lemma retry_steps {T C E} `{!Transport T C E} `{!Dialer T C E} max k : ∀ fuel t a slept,
  (k ≤ fuel)%nat → N.of_nat a + N.of_nat k = max → max ≤ u32_MAX → (0 < k)%nat → slept = (λ i, N.min (2 ^ N.of_nat i) 16) <$> seq 0 a →
  ∃ t' r b, connect_with_retry fuel t (Some max) (N.of_nat a) (N.min (2 ^ N.of_nat a) 16) slept =
      Some (t', r, (λ i, N.min (2 ^ N.of_nat i) 16) <$> seq 0 b) ∧ (b < a + k)%nat.
Proof.
  induction k as [|k IH]; intros fuel t a slept Hf Hm Hu Hk Hs; [lia|]. destruct fuel as [|fuel]; [lia|]. cbn [connect_with_retry].
  rewrite u32_succ_lt by lia. destruct (connect_once t) as [t1 [s|e]].
  { exists t1, (inl s), a. rewrite Hs. split; [done|lia]. }
  destruct (N.leb_spec max (N.of_nat a + 1)) as [Hle|Hlt].
  { exists t1, (inr (Io e)), a. rewrite Hs. split; [done|lia]. }
  replace (N.of_nat a + 1) with (N.of_nat (S a)) by lia.
  replace (N.min (N.min (2 ^ N.of_nat a) 16 * 2) MAX_DELAY) with (N.min (2 ^ N.of_nat (S a)) 16).
  2: { unfold MAX_DELAY. rewrite Nat2N.inj_succ, N.pow_succ_r'. lia. }
  destruct (IH fuel t1 (S a) (slept ++ [N.min (2 ^ N.of_nat a) 16])) as (t' & r & b & Hr & Hb); [lia|lia|done|lia| |].
  { rewrite Hs, seq_S, fmap_app. done. }
  exists t', r, b. split; [exact Hr|lia].
Qed.

Theorem single_shot_bounded {T C E} `{!Transport T C E} `{!Dialer T C E} fuel (t : T) : (10 ≤ fuel)%nat →
  ∃ t' r b, connect_with_retry fuel t (Some MAX_ATTEMPTS) 0 INITIAL_DELAY [] =
    Some (t', r, (λ i, N.min (2 ^ N.of_nat i) 16) <$> seq 0 b) ∧ (b < 10)%nat.
Proof. intros Hf. apply (retry_steps 10 10 fuel t 0 []); [done|done|done|lia|done]. Qed.

(** ** Log strings *)

Lemma sanitized_chars s : Forall (λ c, is_control c = false) (sanitize_log_string s) ∧
  (length (sanitize_log_string s) ≤ N.to_nat MAX_LEN + 12)%nat.
Proof.
  unfold sanitize_log_string. set (out := sanitize_char <$> _).
  assert (Ho : Forall (λ c, is_control c = false) out).
  { unfold out. apply Forall_fmap, Forall_forall. intros c _. cbn. unfold sanitize_char.
    destruct ((c =? 10) || (c =? 13) || (c =? 0)); [done|]. by destruct (is_control c) eqn:E. }
  assert (Hl : (length out ≤ N.to_nat MAX_LEN)%nat) by (unfold out; rewrite length_fmap, length_take; lia).
  destruct (MAX_LEN <? byte_len s); [|split; [done|lia]]. split.
  - apply Forall_app_2; [done|]. apply Forall_forall. intros c Hc. revert c Hc. apply Forall_forall. vm_compute. by repeat constructor.
  - rewrite length_app. change (length truncated_mark) with 12%nat. lia.
Qed.
