(* ===== verification/Shape.v ===== *)
(** Nets built from nothing: while agents are created and wired, what the net
    holds, agent by agent in order of creation, and which ports wait for a wire. *)
From S2P Require Import Prelude NetTypes NetCore NetInv Reduction ReductionInv EngineInv SparseNet SparseInv LambdaBuild Church.
Local Open Scope N_scope.
Open Scope net_scope.

(** ** Nets that lose nothing when they are written *)

Lemma persisted_connect n a b : persisted n = n → is_agent_port a || is_agent_port b = true → persisted (connect n a b) = connect n a b.
Proof.
  intros E Hp. destruct (connect_frame n a b) as ((Rs & I1 & I2 & I3 & I4 & I5 & I6) & Nx & Fr & Ag & _ & Qu & Rd).
  assert (Er : record_redirects a b (freeport_redirects n) = freeport_redirects n) by (destruct a, b; try done; discriminate Hp).
  rewrite Er in Rd. clear Er Hp. revert I1 I2 I3 I4 I5 I6 Rd. rewrite <- E. generalize (connect (persisted n) a b). intros m. cbn.
  destruct m. unfold persisted. cbn. congruence.
Qed.

(** ** Nets under construction *)

(** The agents are [syms] in order of creation, [Q] are the active pairs, [O]
    the ports still to be wired. *)
Record shape (n : Net) (syms : list Symbol) (Q : list (AgentId * AgentId)) (O : list PortRef) : Prop := {
  sh_ledger : ledger n O;
  sh_agents : agents n = imap (λ i s, Some (mkAgent s (N.of_nat i))) syms;
  sh_next : next_id n = N.of_nat (length syms);
  sh_free : free_list n = [];
  sh_plain : persisted n = n;
  sh_root : root n = None;
  sh_queue : redex_queue n = Q;
  sh_pairs : ∀ a b, n.[a, 0] = AgentPort b 0 ↔ (a, b) ∈ Q ∨ (b, a) ∈ Q;
}.

Lemma sh_idle n syms Q O : shape n syms Q O → is_in_delta_round n = false ∧ streaming_active n = false.
Proof. intros H. by rewrite <- (sh_plain _ _ _ _ H). Qed.

Lemma shape_proper n syms Q O O' : O ≡ₚ O' → shape n syms Q O → shape n syms Q O'.
Proof. intros HO [L A N F I R H P]. split; try done. by rewrite <- HO. Qed.

Lemma shape_new : shape new [] [] [].
Proof. split; try done; [exact ledger_new|]. intros a b. set_solver. Qed.

Lemma shape_create n syms Q O s : shape n syms Q O → N.of_nat (length syms) < u32_MAX →
  ∃ n', create_agent n s = Done (n', N.of_nat (length syms)) ∧
    shape n' (syms ++ [s]) Q ((AgentPort (N.of_nat (length syms)) <$> range_u (total_ports s)) ++ O) ∧ grew n n'.
Proof.
  intros H Hlt. destruct (sh_idle _ _ _ _ H) as [I1 I2]. destruct H as [L A Nx F I Rt Hq P]. pose proof (lg_wf _ _ L) as Hwf.
  assert (E : create_agent n s = alloc_fresh n s) by (by apply no_free_allocates).
  assert (Ea : alloc_fresh n s = Done (with_arena (agents n ++ [Some (mkAgent s (next_id n))])
    (vec_grow ((N.to_nat (next_id n) + 1) * 3)%nat DISCONNECTED (ports n)) (with_next_id (next_id n + 1) n), next_id n)).
  { unfold alloc_fresh. rewrite Nx. destruct (N.ltb_spec (N.of_nat (length syms)) u32_MAX); [|lia]. rewrite Nat2N.id. do 3 f_equal.
    assert (Hlen : length (agents n) = length syms) by (by rewrite A, length_imap). unfold vec_grow.
    rewrite decide_True by lia. rewrite resize_ge by lia. replace (length syms + 1 - length (agents n))%nat with 1%nat by lia.
    rewrite <- Hlen, <- (Nat.add_0_r (length (agents n))). by rewrite insert_app_r. }
  rewrite E, Ea. eexists. rewrite Nx. split; [reflexivity|].
  rewrite Nx in Ea. rewrite <- E in Ea. destruct (ledger_create n O s _ _ L Ea) as (L' & G & _).
  destruct (create_agent_spec n s _ _ Hwf Ea) as [_ _ _ _ Tg _ _ _ _ _]. split; [|done]. split; try done.
  - cbn. rewrite imap_app, A. do 3 f_equal. cbn. by rewrite Nat.add_0_r.
  - cbn. rewrite length_app. cbn. lia.
  - rewrite <- I. reflexivity.
  - intros a b. rewrite Tg by lia. apply P.
Qed.

Lemma elem_of_push a b Q x y : (x, y) ∈ push_redex a b Q ↔ (x, y) ∈ Q ∨ (a = AgentPort x 0 ∧ b = AgentPort y 0).
Proof.
  destruct a as [i [|p]|f], b as [j [|q]|g]; cbn [push_redex]; try (split; [by left|by intros [?|[? ?]]]).
  rewrite elem_of_app, list_elem_of_singleton. split; (intros [?|H]; [by left|right]); [by injection H as <- <-|by destruct H as [[= ->] [= ->]]].
Qed.

Lemma shape_connect n syms Q O a b : shape n syms Q (open_end a ++ open_end b ++ O) → a ≠ DISCONNECTED → b ≠ DISCONNECTED → is_agent_port a || is_agent_port b = true →
  shape (connect n a b) syms (push_redex a b Q) O ∧ grew n (connect n a b).
Proof.
  intros [L A Nx F I Rt Hq P] Ha Hb Hab. destruct (ledger_connect n O a b L Ha Hb) as (W & G & Nx' & TA & TB & Tc & L').
  destruct (ledger_app_not n O a b L) as (Fa & Fb & _). split; [|done].
  destruct (connect_frame n a b) as (Same & _ & Fr & Ag & _ & Qu & _). destruct Same as (Rs & _).
  split; [done|by rewrite Ag|by rewrite Nx'|by rewrite Fr|by apply persisted_connect|by rewrite Rs|by rewrite Qu, Hq|].
  intros x y. rewrite !elem_of_push. split.
  - intros E. destruct (decide ((connect n a b).[x, 0] = n.[x, 0])) as [Es|Hc].
    + rewrite Es in E. apply P in E as [?|?]; auto.
    + destruct (Tc x 0 ltac:(lia) Hc) as [Ea|Eb].
      * rewrite (TA x 0) in E by done. auto.
      * rewrite (TB x 0) in E by done. auto.
  - assert (Old : (x, y) ∈ Q ∨ (y, x) ∈ Q → (connect n a b).[x, 0] = AgentPort y 0).
    { intros E%P. eapply grew_wire; [exact G|exact E|discriminate|lia]. }
    intros [[?|[Ea Eb]]|[?|[Ea Eb]]]; [auto|by rewrite (TA x 0)|auto|by rewrite (TB x 0)].
Qed.

(** [k] agents of a symbol with three ports. *)
Definition con_ports (id : AgentId) : list PortRef := [AgentPort id 0; AgentPort id 1; AgentPort id 2].

Lemma shape_create_many s k : s ≠ Era → ∀ n syms Q O, shape n syms Q O → N.of_nat (length syms + k) ≤ u32_MAX →
  ∃ n', create_many n s k = Done (n', N.of_nat <$> seq (length syms) k) ∧
    shape n' (syms ++ replicate k s) Q (((N.of_nat <$> seq (length syms) k) ≫= con_ports) ++ O).
Proof.
  intros Hs. assert (Hp : range_u (total_ports s) = [0; 1; 2]) by (by destruct s).
  induction k as [|k IH]; intros n syms Q O H Hr.
  - exists n. cbn. by rewrite app_nil_r.
  - destruct (shape_create n syms Q O s H ltac:(lia)) as (n1 & E1 & H1 & _). cbn [create_many]. rewrite E1. cbn [mbind outcome_bind].
    destruct (IH n1 _ _ _ H1) as (n2 & E2 & H2); [rewrite length_app; cbn; lia|]. rewrite E2. cbn [mbind outcome_bind mret outcome_ret].
    rewrite length_app in H2 |- *. cbn [length] in H2 |- *. rewrite Nat.add_1_r in H2 |- *. exists n2. split; [done|].
    rewrite <- app_assoc in H2. cbn [replicate app]. revert H2. apply shape_proper.
    rewrite Hp. change (seq (length syms) (S k)) with (length syms :: seq (S (length syms)) k).
    cbn [fmap list_fmap]. change ((?x :: ?l) ≫= con_ports) with (con_ports x ++ (l ≫= con_ports)). solve_Permutation.
Qed.

(** ** Finished nets *)

(** A well-formed net with the agents [syms] in order of creation and root [r],
    whose every other port is wired (to a port or to a label), that queues
    exactly its active pairs [Q]. *)
Record built (syms : list Symbol) (Q : list (AgentId * AgentId)) (r : option PortRef) (n : Net) : Prop := {
  bt_wf : wf n;
  bt_agents : agents n = imap (λ i s, Some (mkAgent s (N.of_nat i))) syms;
  bt_queue : redex_queue n = Q;
  bt_complete : queue_complete n;
  bt_active : ∀ a b, (a, b) ∈ redex_queue n → n.[a, 0] = AgentPort b 0;
  bt_root : root n = r;
  bt_plain : syms ≠ [] → persisted n = n;
  bt_wired : ∀ id p, valid_port n id p → n.[id, p] = DISCONNECTED ↔ r = Some (AgentPort id p);
}.

Lemma shape_rooted r n syms Q : shape n syms Q (option_list r) → built syms Q r (with_root r n).
Proof.
  intros [[W D Op] A Nx F I Rt H P]. split; [by destruct W; constructor|done|done|..|done| |].
  - intros a b [_ _ Hr]. change (redex_queue (with_root r n)) with (redex_queue n). rewrite H. by apply P.
  - intros a b Hin. change (redex_queue (with_root r n)) with (redex_queue n) in Hin. rewrite H in Hin. apply P. by left.
  - intros _. by rewrite <- I.
  - intros id p Hv. change ((with_root r n).[id, p]) with (n.[id, p]). change (valid_port n id p) in Hv.
    assert (Hr : AgentPort id p ∈ option_list r ↔ r = Some (AgentPort id p)) by (destruct r; cbn [option_list]; set_solver).
    rewrite <- Hr, Op. split; [by eauto|]. by intros (? & ? & [= <- <-] & _ & ?).
Qed.

Lemma shape_built n syms Q : shape n syms Q [] → built syms Q None n.
Proof. intros H. assert (E : n = with_root None n) by (rewrite <- (sh_root _ _ _ _ H); by destruct n). rewrite E. by apply shape_rooted. Qed.

(** A net without agents may record redirects. *)
Lemma built_redirects m n Q r : built [] Q r n → built [] Q r (with_redirects m n).
Proof. intros [W A H C Ac Rt P Wd]. split; try done; [by destruct W; constructor|]. intros a b Hab. apply C. by destruct Hab. Qed.
