(* ===== verification/ArithSpec.v ===== *)
(** The arithmetic constructions for every operand: the net each of them builds,
    its agents and its active pairs, and when a construction panics. *)
From S2P Require Import Prelude NetTypes NetCore NetInv Reduction ReductionInv EngineInv MergeInv LambdaBuild Church ChurchSpec Horner Shape.
Local Open Scope N_scope.
Open Scope net_scope.
Import Church Arithmetic.

(** ** Wiring a list of wires *)

Lemma shape_connects ws : ∀ n syms Q O, shape n syms Q (ends ws ++ O) → Forall (λ r, is_agent_port r = true) (ends ws) →
  shape (connect_all n ws) syms (Q ++ wire_redexes ws) O.
Proof.
  induction ws as [|[a b] ws IH]; intros n syms Q O H Hp; [cbn; by rewrite app_nil_r|].
  change (ends ((a, b) :: ws)) with (a :: b :: ends ws) in *. apply Forall_cons in Hp as [Ha Hp]. apply Forall_cons in Hp as [Hb Hp].
  destruct a as [i p|]; [|done]. destruct b as [j q|]; [|done].
  destruct (shape_connect n syms Q (ends ws ++ O) (AgentPort i p) (AgentPort j q) H) as [H' _]; [done|done|done|].
  change (connect_all n ((AgentPort i p, AgentPort j q) :: ws)) with (connect_all (connect n (AgentPort i p) (AgentPort j q)) ws).
  apply IH in H'; [|done]. rewrite wire_redexes_cons, app_assoc, <- push_redex_app. exact H'.
Qed.

(** The creation of one constructor. *)
Lemma shape_con n syms Q O : shape n syms Q O → N.of_nat (length syms) < u32_MAX →
  ∃ n', create_agent n Con = Done (n', N.of_nat (length syms)) ∧
    shape n' (syms ++ [Con]) Q (con_ports (N.of_nat (length syms)) ++ O).
Proof. intros H Hl. destruct (shape_create n syms Q O Con H Hl) as (n' & E & H' & _). by exists n'. Qed.

(** ** Numerals *)

Definition church_agents (k : N) : list Symbol :=
  Con :: Con :: (if k =? 0 then [Era] else if k =? 1 then [Con] else replicate (N.to_nat k) Con ++ replicate (N.to_nat k - 1) Dup).

Lemma church_agents_length k : N.of_nat (length (church_agents k)) = if k <=? 1 then 3 else 2 * k + 1.
Proof.
  unfold church_agents. destruct (N.leb_spec k 1).
  - assert (k = 0 ∨ k = 1) as [-> | ->] by lia; reflexivity.
  - rewrite (proj2 (N.eqb_neq k 0)), (proj2 (N.eqb_neq k 1)) by lia. cbn [length]. rewrite length_app, !length_replicate. lia.
Qed.

(** A numeral is built closed but for its root, without active pairs. *)
Lemma shape_encode_church n syms Q O k : shape n syms Q O → k ≤ MAX_CHURCH →
  N.of_nat (length syms) + (2 * k + 3) ≤ u32_MAX →
  ∃ n', encode_church_into n k = Done (n', N.of_nat (length syms)) ∧
    shape n' (syms ++ church_agents k) Q (AgentPort (N.of_nat (length syms)) 0 :: O).
Proof.
  intros H Hk Hr. unfold encode_church_into. rewrite (proj2 (N.ltb_ge _ _) Hk). set (lf := N.of_nat (length syms)).
  destruct (shape_con n syms Q O H ltac:(lia)) as (n1 & E1 & H1). rewrite E1. cbn [mbind outcome_bind].
  destruct (shape_con n1 _ Q _ H1) as (n2 & E2 & H2); [rewrite length_app; cbn [length]; lia|]. rewrite E2. cbn [mbind outcome_bind].
  assert (Ex : N.of_nat (length (syms ++ [Con])) = lf + 1) by (rewrite length_app; cbn [length]; lia). rewrite Ex in *. fold lf in H2 |- *.
  set (lx := lf + 1) in *. rewrite <- app_assoc in H2. cbn [app] in H2.
  assert (H3 : shape n2 (syms ++ [Con; Con]) Q ([AgentPort lf 2; AgentPort lx 0] ++
    [AgentPort lf 1; AgentPort lx 1; AgentPort lx 2; AgentPort lf 0] ++ O))
    by (revert H2; apply shape_proper; unfold con_ports; cbn [app]; solve_Permutation).
  destruct (shape_connect n2 _ Q _ (AgentPort lf 2) (AgentPort lx 0) H3) as [H4 _]; [done|done|done|]. cbn [push_redex] in H4.
  set (n3 := connect n2 _ _) in *.
  assert (Le : N.of_nat (length (syms ++ [Con; Con])) = lf + 2) by (rewrite length_app; cbn [length]; lia).
  unfold church_agents. destruct (N.eqb_spec k 0) as [->|Hk0]; [|destruct (N.eqb_spec k 1) as [->|Hk1]].
  - destruct (shape_create n3 _ Q _ Era H4) as (n4 & E4 & H5 & _); [lia|]. rewrite E4. cbn [mbind outcome_bind].
    eexists. split; [reflexivity|]. rewrite <- app_assoc in H5. cbn [app] in H5.
    rewrite <- (app_nil_r Q). refine (shape_connects [(AgentPort lf 1, AgentPort _ 0); (AgentPort lx 1, AgentPort lx 2)] n4 _ Q _ _ _); [|by repeat constructor].
    revert H5. apply shape_proper. cbn [ends flat_map app fst snd]. change (range_u (total_ports Era)) with [0]. cbn [fmap list_fmap]. solve_Permutation.
  - destruct (shape_con n3 _ Q _ H4) as (n4 & E4 & H5); [lia|]. rewrite E4. cbn [mbind outcome_bind].
    eexists. split; [reflexivity|]. rewrite <- app_assoc in H5. cbn [app] in H5. rewrite <- (app_nil_r Q).
    refine (shape_connects [(AgentPort lf 1, AgentPort _ 0); (AgentPort lx 1, AgentPort _ 2); (AgentPort lx 2, AgentPort _ 1)] n4 _ Q _ _ _); [|by repeat constructor].
    revert H5. apply shape_proper. unfold con_ports. cbn [ends flat_map app fst snd]. solve_Permutation.
  - assert (Lq : length (syms ++ [Con; Con]) = (length syms + 2)%nat) by (by rewrite length_app).
    destruct (shape_create_many Con (N.to_nat k) ltac:(done) n3 _ Q _ H4) as (n4 & E4 & H5); [lia|]. rewrite Lq in E4, H5. rewrite E4. cbn [mbind outcome_bind].
    destruct (shape_create_many Dup (N.to_nat k - 1) ltac:(done) n4 _ Q _ H5) as (n5 & E5 & H6); [rewrite length_app, length_replicate; lia|].
    rewrite length_app, length_replicate, Lq in E5, H6. rewrite E5. cbn [mbind outcome_bind]. eexists. split; [reflexivity|].
    set (apps := N.of_nat <$> seq (length syms + 2) _) in *. set (dups := N.of_nat <$> seq (length syms + 2 + _) _) in *.
    assert (Hids : NoDup (lf :: lx :: apps ++ dups)).
    { replace (lf :: lx :: apps ++ dups) with (N.of_nat <$> seq (length syms) (2 + (N.to_nat k + (N.to_nat k - 1)))).
      { apply NoDup_fmap_2; [apply _|apply NoDup_seq]. }
      rewrite seq_app, fmap_app, (seq_app _ _ (length syms + 2)), fmap_app. cbn [seq fmap list_fmap app]. do 2 f_equal; lia. }
    assert (La : length apps = N.to_nat k) by (unfold apps; by rewrite length_fmap, length_seq).
    assert (Ld : length dups = (N.to_nat k - 1)%nat) by (unfold dups; by rewrite length_fmap, length_seq).
    destruct (chain_ends lf lx apps dups (N.to_nat k)) as [Hnd Hin]; [lia|done|done|done|].
    rewrite <- (app_nil_r Q), <- (chain_no_redexes lf lx apps dups).
    apply shape_connects.
    + revert H6. rewrite <- !app_assoc. cbn [app]. apply shape_proper.
      assert (Hp : ends (chain_wires lf lx apps dups) ≡ₚ chain_ports lf lx apps dups).
      { apply NoDup_Permutation; [done|eapply chain_ports_nodup; [|exact La|exact Ld|done]; lia|]. intros r. split; [apply Hin|].
        eapply chain_covers; [|exact La|exact Ld]; lia. }
      rewrite Hp. unfold chain_ports. rewrite bind_app. change ports_of with con_ports. solve_Permutation.
    + apply Forall_forall. intros r Hr'%Hin. unfold chain_ports in Hr'. rewrite elem_of_app, !elem_of_cons, elem_of_nil in Hr'.
      destruct Hr' as [[-> |[-> |[-> |[]]]]|(id & Hr' & _)%list_elem_of_bind]; try done.
      unfold ports_of in Hr'. rewrite !elem_of_cons, elem_of_nil in Hr'. by destruct Hr' as [-> |[-> |[-> |[]]]].
Qed.

(** ** Combinators *)

(** The agent created [j] places after id [k]. *)
Lemma shape_create_at k j j' s n syms Q O : shape n syms Q O → N.of_nat (length syms) = k + j → j' = j + 1 → k + j' ≤ u32_MAX →
  ∃ n', create_agent n s = Done (n', k + j) ∧
    shape n' (syms ++ [s]) Q ((AgentPort (k + j) <$> range_u (total_ports s)) ++ O) ∧ N.of_nat (length (syms ++ [s])) = k + j'.
Proof.
  intros H Hl -> Hr. destruct (shape_create n syms Q O s H ltac:(lia)) as (n' & E & H' & _). rewrite Hl in E, H'.
  exists n'. split; [exact E|]. split; [exact H'|]. rewrite length_app. cbn [length]. lia.
Qed.

(** A step that returned: rewriting with it keeps the kernel from comparing the
    two sides of the bind by unfolding them. *)
Lemma done_bind {A B} (a : A) (f : A → outcome B) : Done a ≫= f = f a.
Proof. done. Qed.

(** Creates the agent numbered [k + j]: the construction of the goal and the
    shape [H] advance. *)
Ltac create_at k j H Hl :=
  let n' := fresh "n" in let E := fresh "E" in let H' := fresh "H" in let Hl' := fresh "Hl" in
  let j' := eval vm_compute in (j + 1) in
  match goal with |- context [create_agent ?n ?s] =>
    edestruct (shape_create_at k j j' s n _ _ _ H Hl) as (n' & E & H' & Hl'); [reflexivity|lia|]
  end; change (range_u _) with [0; 1; 2] in H'; cbn [fmap list_fmap app] in H'; rewrite <- ?app_assoc in H'; cbn [app] in H'; rewrite <- ?app_assoc in Hl'; cbn [app] in Hl'; rewrite E; clear E Hl H; rename H' into H; rename Hl' into Hl; rewrite done_bind; cbv beta iota zeta.

Definition add_agents : list Symbol := replicate 8 Con ++ [Dup; Con; Con].
Definition mul_agents : list Symbol := replicate 7 Con.
Definition exp_agents : list Symbol := replicate 5 Con.

(** The ports in the ledger are the ends of the next wires, up to order. *)
Ltac wires_ready :=
  apply shape_proper; cbn [ends flat_map app fst snd fmap list_fmap]; quote_Permutation; apply rlist.eval_Permutation;
  apply (bool_decide_unpack _); vm_compute; exact I.

(** Wires the ports, [R] and the ports of the ledger [O] are left. *)
Ltac wire_up H R :=
  let H' := fresh "H" in
  match type of H with shape ?n ?syms ?Q _ =>
    match goal with |- context [connect_all n ?ws] =>
      match goal with O : list PortRef |- _ =>
        assert (H' : shape n syms Q (ends ws ++ R ++ O)) by (revert H; wires_ready);
        apply shape_connects in H'; [|by repeat constructor]; revert H'; generalize (connect_all n ws); intros ? H';
        cbn [wire_redexes foldl push_redex fst snd app] in H'; rewrite ?app_nil_r in H'
      end
    end
  end; clear H; rename H' into H.

Lemma shape_wire_exp n syms Q O m p : shape n syms Q (AgentPort m 0 :: AgentPort p 0 :: O) →
  let k := N.of_nat (length syms) in k + 5 ≤ u32_MAX →
  ∃ n', wire_exp_into n m p = Done (n', k + 4) ∧
    shape n' (syms ++ exp_agents) (Q ++ [(k + 3, k)]) (AgentPort (k + 4) 1 :: O).
Proof.
  intros H k Hr. assert (Hl : N.of_nat (length syms) = k + 0) by lia. unfold wire_exp_into.
  create_at k 0 H Hl. create_at k 1 H Hl. create_at k 2 H Hl.
  wire_up H [AgentPort (k + 0) 0; AgentPort m 0; AgentPort p 0]. create_at k 3 H Hl.
  wire_up H [AgentPort (k + 3) 1; AgentPort p 0]. create_at k 4 H Hl. wire_up H [AgentPort (k + 4) 1].
  rewrite N.add_0_r in *. eexists. split; [reflexivity|]. exact H.
Qed.

Lemma shape_wire_mul n syms Q O im pm ip pp : shape n syms Q (AgentPort im pm :: AgentPort ip pp :: O) →
  let k := N.of_nat (length syms) in k + 7 ≤ u32_MAX →
  ∃ n', wire_mul_into n (AgentPort im pm) (AgentPort ip pp) = Done (n', k + 6) ∧
    shape n' (syms ++ mul_agents) (Q ++ [(k + 5, k)]) (AgentPort (k + 6) 1 :: O).
Proof.
  intros H k Hr. assert (Hl : N.of_nat (length syms) = k + 0) by lia. unfold wire_mul_into.
  create_at k 0 H Hl. create_at k 1 H Hl. create_at k 2 H Hl. create_at k 3 H Hl. create_at k 4 H Hl.
  wire_up H [AgentPort (k + 0) 0; AgentPort im pm; AgentPort ip pp]. create_at k 5 H Hl.
  wire_up H [AgentPort (k + 5) 1; AgentPort ip pp]. create_at k 6 H Hl. wire_up H [AgentPort (k + 6) 1].
  rewrite N.add_0_r in *. eexists. split; [reflexivity|]. exact H.
Qed.

Lemma shape_wire_add n syms Q O im pm ip pp : shape n syms Q (AgentPort im pm :: AgentPort ip pp :: O) →
  let k := N.of_nat (length syms) in k + 11 ≤ u32_MAX →
  ∃ n', wire_add_into n (AgentPort im pm) (AgentPort ip pp) = Done (n', k + 10) ∧
    shape n' (syms ++ add_agents) (Q ++ [(k + 9, k)]) (AgentPort (k + 10) 1 :: O).
Proof.
  intros H k Hr. assert (Hl : N.of_nat (length syms) = k + 0) by lia. unfold wire_add_into.
  create_at k 0 H Hl. create_at k 1 H Hl. create_at k 2 H Hl. create_at k 3 H Hl. create_at k 4 H Hl.
  create_at k 5 H Hl. create_at k 6 H Hl. create_at k 7 H Hl. create_at k 8 H Hl.
  wire_up H [AgentPort (k + 0) 0; AgentPort im pm; AgentPort ip pp]. create_at k 9 H Hl.
  wire_up H [AgentPort (k + 9) 1; AgentPort ip pp]. create_at k 10 H Hl. wire_up H [AgentPort (k + 10) 1].
  rewrite N.add_0_r in *. eexists. split; [reflexivity|]. exact H.
Qed.

(** ** The constructions *)

Lemma church_agents_bound k : N.of_nat (length (church_agents k)) ≤ 2 * k + 3.
Proof. rewrite church_agents_length. destruct (N.leb_spec k 1); lia. Qed.

(** The numeral [k], rooted at its outer abstraction. *)
Lemma encode_nat_built k : k ≤ MAX_CHURCH →
  ∃ n, encode_nat k = Done n ∧ built (church_agents k) [] (Some (AgentPort 0 0)) n.
Proof.
  intros Hk. assert (MAX_CHURCH = 1000000 ∧ u32_MAX = 4294967295) as [Hm Hu] by done.
  destruct (shape_encode_church new [] [] [] k shape_new Hk ltac:(cbn [length]; lia)) as (n & E & H).
  unfold encode_nat. rewrite (proj2 (N.ltb_ge _ _) Hk), E, done_bind. cbv beta iota. eexists. split; [reflexivity|].
  by apply shape_rooted.
Qed.

(** The result wire of [app] goes to label 0. *)
Lemma shape_output n syms Q app : shape n syms Q [AgentPort app 1] → built syms Q None (output n app).
Proof.
  intros H. destruct (shape_connect n syms Q [] (AgentPort app 1) (FreePort 0) H) as [H' _]; [done|done|done|]. by apply shape_rooted.
Qed.

(** A combinator of agents [ags] applied to two numerals: the last two agents
    are the applications, the first the combinator's root. *)
Definition applied (m : N) (ags : list Symbol) (syms : list Symbol) (Q : list (AgentId * AgentId)) : list Symbol * list (AgentId * AgentId) :=
  let syms := syms ++ church_agents m in
  let k := N.of_nat (length syms) in
  (syms ++ ags, Q ++ [(k + N.of_nat (length ags) - 2, k)]).

Definition binary_plan (ags : list Symbol) (a b : N) : list Symbol * list (AgentId * AgentId) := applied b ags (church_agents a) [].

Lemma build_binary wire ags a b :
  (∀ n syms Q O m p, shape n syms Q (AgentPort m 0 :: AgentPort p 0 :: O) →
     let k := N.of_nat (length syms) in k + N.of_nat (length ags) ≤ u32_MAX →
     ∃ n' app, wire n m p = Done (n', app) ∧
       shape n' (syms ++ ags) (Q ++ [(k + N.of_nat (length ags) - 2, k)]) (AgentPort app 1 :: O)) →
  (length ags <= 11)%nat → a ≤ MAX_CHURCH → b ≤ MAX_CHURCH →
  ∃ n, ('(n, m_root) ← encode_church_into new a; '(n, n_root) ← encode_church_into n b;
        '(n, app_out) ← wire n m_root n_root; mret (output n app_out)) = Done n ∧
    built (binary_plan ags a b).1 (binary_plan ags a b).2 None n.
Proof.
  intros Hwire Hags Ha Hb. assert (MAX_CHURCH = 1000000 ∧ u32_MAX = 4294967295) as [Hm Hu] by done.
  pose proof (church_agents_bound a). pose proof (church_agents_bound b).
  destruct (shape_encode_church new [] [] [] a shape_new Ha ltac:(cbn [length]; lia)) as (n1 & E1 & H1).
  rewrite E1, done_bind. cbv beta iota. cbn [app] in H1.
  destruct (shape_encode_church n1 _ [] _ b H1 Hb ltac:(lia)) as (n2 & E2 & H2). rewrite E2, done_bind. cbv beta iota.
  apply (shape_proper _ _ _ _ _ (Permutation_swap _ _ _)) in H2.
  destruct (Hwire n2 _ [] [] _ _ H2) as (n3 & app & E3 & H3); [rewrite length_app; lia|]. rewrite E3, done_bind. cbv beta iota.
  eexists. split; [reflexivity|]. by apply shape_output.
Qed.

(** ** Addition, multiplication and exponentiation *)

Lemma build_add_built a b : a ≤ MAX_CHURCH → b ≤ MAX_CHURCH →
  ∃ n, build_add a b = Done n ∧ built (binary_plan add_agents a b).1 (binary_plan add_agents a b).2 None n.
Proof.
  intros Ha Hb. apply (build_binary (λ n m p, wire_add_into n (AgentPort m 0) (AgentPort p 0)) add_agents a b); try done.
  intros n syms Q O m p H k Hr. destruct (shape_wire_add n syms Q O m 0 p 0 H Hr) as (n' & E & H'). exists n', (k + 10). split; [exact E|].
  by replace (k + N.of_nat (length add_agents) - 2) with (k + 9) by (cbn; lia).
Qed.

Lemma build_mul_built a b : a ≤ MAX_CHURCH → b ≤ MAX_CHURCH →
  ∃ n, build_mul a b = Done n ∧ built (binary_plan mul_agents a b).1 (binary_plan mul_agents a b).2 None n.
Proof.
  intros Ha Hb. apply (build_binary (λ n m p, wire_mul_into n (AgentPort m 0) (AgentPort p 0)) mul_agents a b); try done; [|cbn; lia].
  intros n syms Q O m p H k Hr. destruct (shape_wire_mul n syms Q O m 0 p 0 H Hr) as (n' & E & H'). exists n', (k + 6). split; [exact E|].
  by replace (k + N.of_nat (length mul_agents) - 2) with (k + 5) by (cbn; lia).
Qed.

Lemma build_exp_built a b : a ≤ MAX_CHURCH → b ≤ MAX_CHURCH → b ≠ 0 →
  ∃ n, build_exp a b = Done n ∧ built (binary_plan exp_agents a b).1 (binary_plan exp_agents a b).2 None n.
Proof.
  intros Ha Hb Hb0. unfold build_exp. rewrite (proj2 (N.eqb_neq b 0) Hb0). apply (build_binary wire_exp_into exp_agents a b); try done; [|cbn; lia].
  intros n syms Q O m p H k Hr. destruct (shape_wire_exp n syms Q O m p H Hr) as (n' & E & H'). exists n', (k + 4). split; [exact E|].
  by replace (k + N.of_nat (length exp_agents) - 2) with (k + 3) by (cbn; lia).
Qed.

(** ** Sums of squares and polynomials *)

(** The agents and pairs after a numeral and a combinator that takes it. *)
Definition plan : Type := list Symbol * list (AgentId * AgentId).
Definition apply_plan (m : N) (ags : list Symbol) (st : plan) : plan := applied m ags st.1 st.2.

Lemma applied_length m ags st : (length ags <= 11)%nat →
  N.of_nat (length (apply_plan m ags st).1) ≤ N.of_nat (length st.1) + 2 * m + 14.
Proof. intros Ha. unfold apply_plan, applied. cbn [fst]. rewrite !length_app. pose proof (church_agents_bound m). lia. Qed.

(** A binary combinator with [w] agents, as [build_binary] takes it but on any
    two ports. *)
Definition combines (wire : Net → PortRef → PortRef → outcome (Net * AgentId)) (ags : list Symbol) : Prop :=
  ∀ n syms Q O im pm ip pp, shape n syms Q (AgentPort im pm :: AgentPort ip pp :: O) →
    let k := N.of_nat (length syms) in k + N.of_nat (length ags) ≤ u32_MAX →
    ∃ n' app, wire n (AgentPort im pm) (AgentPort ip pp) = Done (n', app) ∧
      shape n' (syms ++ ags) (Q ++ [(k + N.of_nat (length ags) - 2, k)]) (AgentPort app 1 :: O).

Lemma add_combines : combines wire_add_into add_agents.
Proof.
  intros n syms Q O im pm ip pp H k Hr. destruct (shape_wire_add n syms Q O im pm ip pp H Hr) as (n' & E & H'). exists n', (k + 10).
  split; [exact E|]. by replace (k + N.of_nat (length add_agents) - 2) with (k + 9) by (cbn; lia).
Qed.

Lemma mul_combines : combines wire_mul_into mul_agents.
Proof.
  intros n syms Q O im pm ip pp H k Hr. destruct (shape_wire_mul n syms Q O im pm ip pp H Hr) as (n' & E & H'). exists n', (k + 6).
  split; [exact E|]. by replace (k + N.of_nat (length mul_agents) - 2) with (k + 5) by (cbn; lia).
Qed.

(** A net whose one open port is the result [acc]. *)
Definition accumulates (st : plan) (acc : Net * PortRef) : Prop :=
  ∃ id p, acc.2 = AgentPort id p ∧ shape acc.1 st.1 st.2 [acc.2].

(** A numeral is encoded next to the accumulator; both ports are then open. *)
Lemma encode_next st acc m : accumulates st acc → m ≤ MAX_CHURCH → N.of_nat (length st.1) + (2 * m + 14) ≤ u32_MAX →
  ∃ n id, encode_church_into acc.1 m = Done (n, id) ∧ shape n (st.1 ++ church_agents m) st.2 [AgentPort id 0; acc.2] ∧
    N.of_nat (length (st.1 ++ church_agents m)) + 11 ≤ u32_MAX.
Proof.
  intros (i & p & Ep & H) Hm Hr. destruct (shape_encode_church _ _ _ _ m H Hm ltac:(lia)) as (n & E & H').
  exists n, (N.of_nat (length st.1)). split; [exact E|]. split; [exact H'|]. rewrite length_app. pose proof (church_agents_bound m). lia.
Qed.

Lemma wrap64_square i : i * i ≤ MAX_CHURCH → wrap64 (i * i) = i * i.
Proof. intros H. assert (MAX_CHURCH = 1000000) as Hm by done. apply N.mod_small. lia. Qed.

Lemma add_square_step st acc i : accumulates st acc → i * i ≤ MAX_CHURCH → N.of_nat (length st.1) + (2 * (i * i) + 14) ≤ u32_MAX →
  ∃ acc', add_square acc i = Done acc' ∧ accumulates (apply_plan (i * i) add_agents st) acc'.
Proof.
  intros Hacc Hi Hr. assert (MAX_CHURCH = 1000000) as Hm by done. unfold add_square.
  rewrite wrap64_square by done. destruct (encode_next st acc (i * i) Hacc Hi Hr) as (n & id & E & H & Hl). rewrite E, done_bind. cbv beta iota.
  destruct Hacc as (j & q & Eq & _). rewrite Eq in *.
  destruct (add_combines n _ _ [] id 0 j q H) as (n' & app & E' & H'); [change (length add_agents) with 11%nat; lia|].
  rewrite E', done_bind. cbv beta iota. eexists. split; [reflexivity|]. by exists app, 1.
Qed.

Lemma horner_step_plan st acc x c : accumulates st acc → x ≤ MAX_CHURCH_NAT → c ≤ MAX_CHURCH_NAT →
  N.of_nat (length st.1) + 50000 ≤ u32_MAX →
  ∃ acc', Horner.horner_step x acc c = Done acc' ∧ accumulates (apply_plan c add_agents (apply_plan x mul_agents st)) acc'.
Proof.
  intros Hacc Hx Hc Hr. assert (MAX_CHURCH = 1000000 ∧ MAX_CHURCH_NAT = 10000) as [Hm Hm'] by done. destruct acc as [n0 port]. unfold Horner.horner_step.
  destruct (encode_next st _ x Hacc ltac:(lia) ltac:(lia)) as (n & id & E & H & Hl). cbn [fst snd] in E, H. rewrite E, done_bind. cbv beta iota.
  destruct Hacc as (j & q & Eq & _). cbn [snd] in *. subst port. apply (shape_proper _ _ _ _ _ (Permutation_swap _ _ _)) in H.
  destruct (mul_combines n _ _ [] j q id 0 H) as (n1 & prod & E1 & H1); [change (length mul_agents) with 7%nat; lia|]. rewrite E1, done_bind. cbv beta iota.
  pose proof (applied_length x mul_agents st ltac:(cbn; lia)) as Hl1.
  assert (Hacc1 : accumulates (apply_plan x mul_agents st) (n1, AgentPort prod 1)) by (by exists prod, 1).
  destruct (encode_next _ _ c Hacc1 ltac:(lia) ltac:(lia)) as (n2 & id2 & E2 & H2 & Hl2). cbn [fst snd] in *. rewrite E2, done_bind. cbv beta iota.
  apply (shape_proper _ _ _ _ _ (Permutation_swap _ _ _)) in H2.
  destruct (add_combines n2 _ _ [] prod 1 id2 0 H2) as (n3 & app & E3 & H3); [change (length add_agents) with 11%nat; lia|]. rewrite E3, done_bind.
  eexists. split; [reflexivity|]. by exists app, 1.
Qed.

Lemma fold_plans {A} (f : Net * PortRef → A → outcome (Net * PortRef)) (g : plan → A → plan) b l :
  (∀ st acc x, x ∈ l → accumulates st acc → N.of_nat (length st.1) + b ≤ u32_MAX →
     ∃ acc', f acc x = Done acc' ∧ accumulates (g st x) acc' ∧ N.of_nat (length (g st x).1) ≤ N.of_nat (length st.1) + b) →
  ∀ st acc, accumulates st acc → N.of_nat (length st.1) + b * N.of_nat (length l) ≤ u32_MAX →
  ∃ acc', fold_outcome f acc l = Done acc' ∧ accumulates (foldl g st l) acc'.
Proof.
  induction l as [|x l IH]; intros Hstep st acc Hacc Hr; [by exists acc|]. cbn [length fold_outcome foldl] in *.
  destruct (Hstep st acc x ltac:(set_solver) Hacc ltac:(lia)) as (acc' & -> & Hacc' & Hl).
  apply IH; [intros st' a y Hy; apply Hstep; set_solver|done|lia].
Qed.

(** The accumulator's port goes to label 0. *)
Lemma accumulated_output st acc : accumulates st acc → built st.1 st.2 None (with_root None (connect acc.1 acc.2 (FreePort 0))).
Proof.
  intros (id & p & E & H). rewrite E in *. destruct (shape_connect acc.1 _ _ [] (AgentPort id p) (FreePort 0) H) as [H' _]; [done|done|done|].
  apply (shape_rooted None). by destruct p.
Qed.

Lemma accumulates_numeral k : k ≤ MAX_CHURCH →
  ∃ n id, encode_church_into new k = Done (n, id) ∧ accumulates (church_agents k, []) (n, AgentPort id 0).
Proof.
  intros Hk. assert (MAX_CHURCH = 1000000 ∧ u32_MAX = 4294967295) as [Hm Hu] by done.
  destruct (shape_encode_church new [] [] [] k shape_new Hk ltac:(cbn [length]; lia)) as (n & E & H). eexists n, _. split; [exact E|]. by eexists _, 0.
Qed.

(** [k^2], then the smaller squares down to 1, each with an addition. *)
Definition squares_plan (k : N) : plan :=
  foldl (λ st i, apply_plan (i * i) add_agents st) (church_agents (k * k), []) (rev ((λ i, N.of_nat i) <$> seq 1 (N.to_nat k - 1))).

Lemma build_sum_of_squares_built k : 2 ≤ k → k ≤ 1000 →
  ∃ n, build_sum_of_squares k = Done n ∧ built (squares_plan k).1 (squares_plan k).2 None n.
Proof.
  intros H2 Hk. assert (MAX_CHURCH = 1000000 ∧ u32_MAX = 4294967295) as [Hm Hu] by done.
  assert (Hsq : ∀ i, i ≤ 1000 → i * i ≤ MAX_CHURCH) by (intros; nia).
  unfold build_sum_of_squares. rewrite (proj2 (N.eqb_neq k 0)), (proj2 (N.eqb_neq k 1)), wrap64_square by (done || lia || auto).
  destruct (accumulates_numeral (k * k) ltac:(auto)) as (n & id & E & Hacc). rewrite E, done_bind. cbv beta iota.
  destruct (fold_plans add_square (λ st i, apply_plan (i * i) add_agents st) 2000014 (rev ((λ i, N.of_nat i) <$> seq 1 (N.to_nat k - 1)))) with (2 := Hacc)
    as (acc & Ef & Hacc').
  - intros st a i Hi Ha Hr. assert (Hi' : i ≤ 1000).
    { apply list_elem_of_In, in_rev, list_elem_of_In, list_elem_of_fmap in Hi as (j & -> & Hj%elem_of_seq). lia. }
    specialize (Hsq i Hi'). destruct (add_square_step st a i Ha Hsq ltac:(lia)) as (a' & Ea & Ha'). exists a'. split_and!; [done|done|].
    pose proof (applied_length (i * i) add_agents st ltac:(done)). lia.
  - rewrite length_rev, length_fmap, length_seq. cbn [fst]. pose proof (church_agents_bound (k * k)). specialize (Hsq k Hk). lia.
  - rewrite Ef, done_bind. destruct acc as [n' port]. eexists. split; [reflexivity|]. by apply (accumulated_output _ _ Hacc').
Qed.

(** From 1001 on the first square is larger than any numeral. *)
Lemma build_sum_of_squares_panics k : 1000 < k → k < 2 ^ 32 → build_sum_of_squares k = Panic.
Proof.
  intros Hk Hb. assert (MAX_CHURCH = 1000000) as Hm by done. unfold build_sum_of_squares. rewrite (proj2 (N.eqb_neq k 0)), (proj2 (N.eqb_neq k 1)) by lia.
  assert (E : wrap64 (k * k) = k * k) by (apply N.mod_small; nia). rewrite E.
  unfold encode_church_into. rewrite (proj2 (N.ltb_lt _ _)) by nia. done.
Qed.

(** The leading coefficient, then a multiplication by [x] and an addition for
    each of the others. *)
Definition horner_plan (leading : N) (rest : list N) (x : N) : plan :=
  foldl (λ st c, apply_plan c add_agents (apply_plan x mul_agents st)) (church_agents leading, []) rest.

Lemma horner_fold_built leading rest x : leading ≤ MAX_CHURCH_NAT → x ≤ MAX_CHURCH_NAT → Forall (λ c, c ≤ MAX_CHURCH_NAT) rest →
  N.of_nat (length rest) ≤ 80000 →
  ∃ n id acc, encode_church_into new leading = Done (n, id) ∧ fold_outcome (Horner.horner_step x) (n, AgentPort id 0) rest = Done acc ∧
    built (horner_plan leading rest x).1 (horner_plan leading rest x).2 None (with_root None (connect acc.1 acc.2 (FreePort 0))).
Proof.
  intros Hl Hx Hrest Hlen. assert (MAX_CHURCH = 1000000 ∧ MAX_CHURCH_NAT = 10000 ∧ u32_MAX = 4294967295) as (Hm & Hm' & Hu) by done.
  destruct (accumulates_numeral leading ltac:(lia)) as (n & id & E & Hacc). exists n, id.
  destruct (fold_plans (Horner.horner_step x) (λ st c, apply_plan c add_agents (apply_plan x mul_agents st)) 50000 rest) with (2 := Hacc)
    as (acc & Ef & Hacc').
  - intros st a c Hc Ha Hr. rewrite Forall_forall in Hrest. specialize (Hrest c Hc).
    destruct (horner_step_plan st a x c Ha Hx Hrest ltac:(lia)) as (a' & Ea & Ha'). exists a'. split_and!; [done|done|].
    pose proof (applied_length x mul_agents st ltac:(cbn; lia)). pose proof (applied_length c add_agents (apply_plan x mul_agents st) ltac:(done)). lia.
  - cbn [fst]. pose proof (church_agents_bound leading). lia.
  - exists acc. split_and!; [done|done|]. by apply accumulated_output.
Qed.
