(* ===== verification/Generators.v ===== *)
(** The generators of example nets (io/generators.rs).

    The counter of free port labels is a u32 that wraps. *)
From S2P Require Import Prelude NetTypes NetCore SparseNet Church.
Local Open Scope N_scope.

Module Generators.
Import Church Arithmetic.

Inductive ExampleNet : Type :=
  | EpAnnihilation | EpAnnihilationCon | EpAnnihilationDup | ConDupExpansion | DualTree
  | MixedRules | ErasurePropagation | TreeSum | SumOfSquares.

(** [for _ in 0..n]. *)
Fixpoint times {A} (n : nat) (body : A → outcome A) (a : A) : outcome A :=
  match n with O => mret a | S n => body a ≫= times n body end.

(** Two new agents, wired at their principal ports. *)
Definition principal_pair (s t : Symbol) (n : Net) : outcome (Net * (AgentId * AgentId)) :=
  '(n, a) ← create_agent n s;
  '(n, b) ← create_agent n t;
  mret (connect n (AgentPort a 0) (AgentPort b 0), (a, b)).

(** A port gets the next label. *)
Definition label_port (st : Net * N) (x : AgentId * PortId) : Net * N :=
  (connect st.1 (AgentPort x.1 x.2) (FreePort st.2), as_u32 (st.2 + 1)).

(** Ports 1 and 2 of each agent, in order. *)
Definition aux_ports (agents : list AgentId) : list (AgentId * PortId) := agents ≫= λ a, [(a, 1); (a, 2)].

(** A pair of binary agents with labelled auxiliary ports. *)
Definition labelled_pair (s t : Symbol) (st : Net * N) : outcome (Net * N) :=
  '(n, (a, b)) ← principal_pair s t st.1;
  mret (foldl label_port (n, st.2) (aux_ports [a; b])).

(** A binary agent with labelled auxiliary ports against an eraser. *)
Definition erased_pair (s : Symbol) (st : Net * N) : outcome (Net * N) :=
  '(n, (a, _)) ← principal_pair s Era st.1;
  mret (foldl label_port (n, st.2) (aux_ports [a])).

Definition ep_annihilation (n : N) : outcome Net :=
  times (N.to_nat n) (λ net, '(net, _) ← principal_pair Era Era net; mret net) new.

Definition ep_annihilation_con (n : N) : outcome Net :=
  fst <$> times (N.to_nat n) (labelled_pair Con Con) (new, 0).

Definition ep_annihilation_dup (n : N) : outcome Net :=
  fst <$> times (N.to_nat n) (labelled_pair Dup Dup) (new, 0).

Definition con_dup_expansion (n : N) : outcome Net :=
  fst <$> times (N.to_nat n) (labelled_pair Con Dup) (new, 0).

(** One pair of each rule. *)
Definition mixed_round (st : Net * N) : outcome (Net * N) :=
  '(n, _) ← principal_pair Era Era st.1;
  st ← labelled_pair Con Con (n, st.2);
  st ← labelled_pair Dup Dup st;
  st ← labelled_pair Con Dup st;
  st ← erased_pair Con st;
  erased_pair Dup st.

Definition mixed_rules (n : N) : outcome Net := fst <$> times (N.to_nat n) mixed_round (new, 0).

(** The tree below a reference, leaves labelled from left to right. *)
Fixpoint build_tree (depth : nat) (n : Net) (free_id : N) : outcome (Net * N * PortRef) :=
  match depth with
  | O => mret (n, as_u32 (free_id + 1), FreePort free_id)
  | S depth =>
      '(n, node) ← create_agent n Con;
      '(n, free_id, lhs) ← build_tree depth n free_id;
      '(n, free_id, rhs) ← build_tree depth n free_id;
      let n := connect n (AgentPort node 1) lhs in
      let n := connect n (AgentPort node 2) rhs in
      mret (n, free_id, AgentPort node 0)
  end.

Definition dual_tree (depth : N) : outcome Net :=
  '(n, free_id, root_a) ← build_tree (N.to_nat depth) new 0;
  '(n, _, root_b) ← build_tree (N.to_nat depth) n free_id;
  mret (connect n root_a root_b).

Fixpoint sparse_build_tree (depth : nat) (n : SparseNet) (free_id : N) : outcome (SparseNet * N * PortRef) :=
  match depth with
  | O => mret (n, as_u32 (free_id + 1), FreePort free_id)
  | S depth =>
      '(n, node) ← Sparse.create_agent n Con;
      '(n, free_id, lhs) ← sparse_build_tree depth n free_id;
      '(n, free_id, rhs) ← sparse_build_tree depth n free_id;
      let n := Sparse.connect n (AgentPort node 1) lhs in
      let n := Sparse.connect n (AgentPort node 2) rhs in
      mret (n, free_id, AgentPort node 0)
  end.

Definition dual_tree_sparse (depth : N) : outcome SparseNet :=
  '(n, free_id, root_a) ← sparse_build_tree (N.to_nat depth) Sparse.new 0;
  '(n, _, root_b) ← sparse_build_tree (N.to_nat depth) n free_id;
  mret (Sparse.connect n root_a root_b).

(** [cons[i].1] to [cons[i + 1].0]. *)
Fixpoint chain (n : Net) (ids : list AgentId) : Net :=
  match ids with
  | a :: (b :: _) as rest => chain (connect n (AgentPort a 1) (AgentPort b 0)) rest
  | _ => n
  end.

Definition erasure_propagation (n : N) : outcome Net :=
  if n =? 0 then mret new
  else
    '(net, ids) ← create_many new Con (N.to_nat n);
    match head ids, last ids with
    | Some hd, Some tl =>
        let net := chain net ids in
        let st := label_port (net, 0) (tl, 1) in
        let st := foldl label_port st ((λ c, (c, 2)) <$> ids) in
        '(net, era) ← create_agent st.1 Era;
        mret (connect net (AgentPort era 0) (AgentPort hd 0))
    | _, _ => Panic
    end.

Definition tree_sum (n : N) : outcome Net :=
  if n =? 0 then encode_nat 0 else if n =? 1 then encode_nat 1 else build_add 1 (n - 1).

Definition generate (example : ExampleNet) (size : N) : outcome Net :=
  match example with
  | EpAnnihilation => ep_annihilation size
  | EpAnnihilationCon => ep_annihilation_con size
  | EpAnnihilationDup => ep_annihilation_dup size
  | ConDupExpansion => con_dup_expansion size
  | DualTree => dual_tree size
  | MixedRules => mixed_rules size
  | ErasurePropagation => erasure_propagation size
  | TreeSum => tree_sum size
  | SumOfSquares => build_sum_of_squares size
  end.

End Generators.
