(* ===== verification/GeneratorsSpec.v ===== *)
(** The generated nets: their agents and active pairs, and how nets of isolated
    pairs reduce. *)
From S2P Require Import Prelude NetTypes NetCore NetInv NetDebug SparseNet SparseInv Reduction Weight ReductionInv EngineInv Wiring LambdaBuild Church ChurchSpec Shape ArithSpec Generators.
Local Open Scope N_scope.
Open Scope net_scope.
Import Generators.

(** The auxiliary ports lead to labels (or nowhere). *)
Definition flat (n : Net) : Prop := ∀ id p, p = 1 ∨ p = 2 → ∃ f, n.[id, p] = FreePort f.

Lemma flat_new : flat new.
Proof. intros id p _. by exists u32_MAX. Qed.

Lemma flat_create n s n' id : wf n → create_agent n s = Done (n', id) → flat n → flat n'.
Proof.
  intros Hwf E Hf x p Hp. destruct (create_agent_spec n s n' id Hwf E) as [_ _ _ _ Tg _ _ _ _ _].
  rewrite Tg by (destruct Hp; lia). by apply Hf.
Qed.

Lemma flat_connect n a b : wf n → free_end n a → free_end n b → apart a b → flat n →
  (∀ id p, p = 1 ∨ p = 2 → a = AgentPort id p → ∃ f, b = FreePort f) → (∀ id p, p = 1 ∨ p = 2 → b ≠ AgentPort id p) → flat (connect n a b).
Proof.
  intros Hwf Fa Fb Hap Hf Ha Hb x p Hp. rewrite (connect_target n a b x p) by (done || (destruct Hp; lia)).
  case_decide as Eb; [by apply Hb in Eb|]. case_decide as Ea; [by apply (Ha x p)|]. by apply Hf.
Qed.

(** ** The generators' steps *)

Lemma shape_label n syms Q O f x : shape n syms Q (AgentPort x.1 x.2 :: O) → f < u32_MAX → x.2 ≠ 0 →
  shape (label_port (n, f) x).1 syms Q O ∧ (label_port (n, f) x).2 = f + 1.
Proof.
  intros H Hf Hp. unfold label_port. cbn [fst snd]. rewrite as_u32_small by lia. split; [|done].
  destruct (shape_connect n syms Q O (AgentPort x.1 x.2) (FreePort f) H) as [H' _]; [done|by intros [= ->]; lia|done|].
  by destruct x as [id [|p]].
Qed.

Lemma shape_labels l : ∀ n syms Q O f, shape n syms Q (((λ x, AgentPort x.1 x.2) <$> l) ++ O) →
  f + N.of_nat (length l) ≤ u32_MAX → Forall (λ x : AgentId * PortId, x.2 ≠ 0) l →
  shape (foldl label_port (n, f) l).1 syms Q O ∧ (foldl label_port (n, f) l).2 = f + N.of_nat (length l).
Proof.
  induction l as [|x l IH]; intros n syms Q O f H Hf Hl; [cbn in *; split; [done|lia]|]. apply Forall_cons in Hl as [Hx Hl].
  cbn [length] in Hf. cbn [fmap list_fmap app] in H. destruct (shape_label n syms Q _ f x H ltac:(lia) Hx) as [H' E].
  cbn [foldl]. destruct (label_port (n, f) x) as [n' f'] eqn:El. cbn [fst snd] in *. subst f'.
  destruct (IH n' syms Q O (f + 1) H') as [H'' ->]; [lia|done|]. split; [done|]. cbn [length]. lia.
Qed.

(** The ports of an agent but the principal one. *)
Definition aux (s : Symbol) (id : AgentId) : list (AgentId * PortId) := if decide (s = Era) then [] else [(id, 1); (id, 2)].

Definition aux_refs (s : Symbol) (id : AgentId) : list PortRef := (λ x, AgentPort x.1 x.2) <$> aux s id.

Lemma shape_pair n syms Q O s t : shape n syms Q O → N.of_nat (length syms) + 2 ≤ u32_MAX →
  let k := N.of_nat (length syms) in
  ∃ n', principal_pair s t n = Done (n', (k, k + 1)) ∧
    shape n' (syms ++ [s; t]) (Q ++ [(k, k + 1)]) (aux_refs s k ++ aux_refs t (k + 1) ++ O) ∧
    (flat n → flat n').
Proof.
  intros H Hr k. unfold principal_pair. destruct (shape_create n syms Q O s H ltac:(lia)) as (n1 & E1 & H1 & _). rewrite E1.
  cbn [mbind outcome_bind]. destruct (shape_create n1 _ _ _ t H1) as (n2 & E2 & H2 & _); [rewrite length_app; cbn; lia|]. rewrite E2.
  cbn [mbind outcome_bind]. assert (Ek : N.of_nat (length (syms ++ [s])) = k + 1) by (rewrite length_app; cbn; lia).
  rewrite Ek in *. rewrite <- app_assoc in H2. eexists. split; [reflexivity|].
  assert (Hp : ∀ s id, AgentPort id <$> range_u (total_ports s) = AgentPort id 0 :: aux_refs s id) by (by intros []).
  rewrite !Hp in H2. assert (H3 : shape n2 (syms ++ [s; t]) Q (open_end (AgentPort k 0) ++ open_end (AgentPort (k + 1) 0) ++ aux_refs s k ++ aux_refs t (k + 1) ++ O)).
  { revert H2. apply shape_proper. cbn [open_end app]. solve_Permutation. }
  destruct (shape_connect _ _ _ _ _ _ H3) as [H4 _]; [done|done|done|]. split; [exact H4|]. intros Hf.
  pose proof (lg_wf _ _ (sh_ledger _ _ _ _ H)) as W. pose proof (lg_wf _ _ (sh_ledger _ _ _ _ H1)) as W1.
  destruct (ledger_app_not _ _ _ _ (sh_ledger _ _ _ _ H3)) as (Fa & Fb & Hap & _).
  apply flat_connect; try done; [apply (lg_wf _ _ (sh_ledger _ _ _ _ H3))|exact (flat_create _ _ _ _ W1 E2 (flat_create _ _ _ _ W E1 Hf))|..];
    intros id q Hq [= _ Eq]; destruct Hq; congruence.
Qed.

(** ** Rounds of pairs *)

Definition flatten (ps : list (Symbol * Symbol)) : list Symbol := ps ≫= λ p, [p.1; p.2].

Definition pair_queue (k : nat) : list (AgentId * AgentId) := (λ i, (2 * N.of_nat i, 2 * N.of_nat i + 1)) <$> seq 0 k.

(** The labels a pair takes. *)
Definition labels (p : Symbol * Symbol) : N := N.of_nat (length (aux p.1 0) + length (aux p.2 0)).

Record paired (st : Net * N) (ps : list (Symbol * Symbol)) : Prop := {
  pa_shape : shape st.1 (flatten ps) (pair_queue (length ps)) [];
  pa_flat : flat st.1;
  pa_label : st.2 ≤ 4 * N.of_nat (length ps);
}.

Lemma length_flatten ps : length (flatten ps) = (2 * length ps)%nat.
Proof.
  unfold flatten. induction ps as [|p ps IH]; [done|]. change ((p :: ps) ≫= ?f) with (f p ++ (ps ≫= f)).
  rewrite length_app, IH. cbn [length]. lia.
Qed.

Lemma pair_queue_S k : pair_queue (S k) = pair_queue k ++ [(2 * N.of_nat k, 2 * N.of_nat k + 1)].
Proof. unfold pair_queue. rewrite seq_S, fmap_app. done. Qed.

Lemma paired_new : paired (new, 0) [].
Proof. split; cbn; [exact shape_new|exact flat_new|lia]. Qed.

Lemma flat_labels l : ∀ n syms Q O f, shape n syms Q (((λ x, AgentPort x.1 x.2) <$> l) ++ O) →
  f + N.of_nat (length l) ≤ u32_MAX → Forall (λ x : AgentId * PortId, x.2 ≠ 0) l → flat n → flat (foldl label_port (n, f) l).1.
Proof.
  induction l as [|x l IH]; intros n syms Q O f H Hf Hl Hflat; [done|]. apply Forall_cons in Hl as [Hx Hl].
  cbn [length] in Hf. cbn [fmap list_fmap app] in H. destruct (shape_label n syms Q _ f x H ltac:(lia) Hx) as [H' E].
  cbn [foldl]. destruct (label_port (n, f) x) as [n' f'] eqn:El. cbn [fst snd] in *. subst f'.
  apply (IH n' syms Q O (f + 1) H' ltac:(lia) Hl). injection El as <- _.
  destruct H as [L _ _ _ _ _ _]. destruct (ledger_app_not n _ (AgentPort x.1 x.2) (FreePort f) L) as (Fa & Fb & Hap & _).
  apply flat_connect; try done; [by apply (lg_wf _ _ L)|]. intros id p _ _. by exists f.
Qed.

Lemma paired_step n f ps s t : paired (n, f) ps → 4 * (N.of_nat (length ps) + 1) ≤ u32_MAX →
  let k := 2 * N.of_nat (length ps) in
  ∃ n', principal_pair s t n = Done (n', (k, k + 1)) ∧
    paired (foldl label_port (n', f) (aux s k ++ aux t (k + 1))) (ps ++ [(s, t)]).
Proof.
  intros [H Hflat Hl] Hr k. cbn [fst snd] in *.
  assert (Ek : N.of_nat (length (flatten ps)) = k) by (rewrite length_flatten; lia).
  destruct (shape_pair n _ _ _ s t H) as (n' & E & H' & Hf'); [lia|]. rewrite Ek, app_nil_r in *. exists n'. split; [exact E|].
  rewrite <- (app_nil_r (aux_refs t (k + 1))), app_assoc in H'.
  unfold aux_refs in H'. rewrite <- fmap_app in H'.
  assert (Hb : (length (aux s k ++ aux t (k + 1)) <= 4)%nat) by (unfold aux; repeat case_decide; cbn; lia).
  assert (Hnz : Forall (λ x : AgentId * PortId, x.2 ≠ 0) (aux s k ++ aux t (k + 1))) by (unfold aux; repeat case_decide; cbn; repeat constructor; done).
  destruct (shape_labels _ _ _ _ _ f H') as [H'' E']; [lia|done|]. split.
  - rewrite length_app. cbn [length]. rewrite Nat.add_1_r, pair_queue_S. unfold flatten in *. rewrite bind_app. exact H''.
  - by eapply flat_labels; [exact H'|lia|done|apply Hf'].
  - rewrite E', (length_app ps). cbn [length]. lia.
Qed.

(** A body that appends one pair for each element of [round]. *)
Definition appends (round : list (Symbol * Symbol)) (body : Net * N → outcome (Net * N)) : Prop :=
  ∀ st ps, paired st ps → 4 * N.of_nat (length ps + length round) ≤ u32_MAX → ∃ st', body st = Done st' ∧ paired st' (ps ++ round).

Lemma appends_bind r1 r2 b1 b2 : appends r1 b1 → appends r2 b2 → appends (r1 ++ r2) (λ st, b1 st ≫= b2).
Proof.
  intros H1 H2 st ps Hp Hr. rewrite length_app in Hr. destruct (H1 st ps Hp ltac:(lia)) as (st1 & -> & Hp1).
  cbn [mbind outcome_bind]. destruct (H2 st1 _ Hp1) as (st2 & -> & Hp2); [rewrite length_app; lia|].
  exists st2. by rewrite app_assoc.
Qed.

Lemma appends_times r b k : appends r b → appends (concat (replicate k r)) (times k b).
Proof.
  intros Hb. induction k as [|k IH]; [|exact (appends_bind r (concat (replicate k r)) b (times k b) Hb IH)].
  intros st ps Hp _. exists st. by rewrite app_nil_r.
Qed.

Lemma appends_labelled s t : s ≠ Era → t ≠ Era → appends [(s, t)] (labelled_pair s t).
Proof.
  intros Hs Ht [n f] ps Hp Hr. cbn [length] in Hr. destruct (paired_step n f ps s t Hp ltac:(lia)) as (n' & E & Hp').
  unfold labelled_pair. cbn [fst snd]. rewrite E. cbn [mbind outcome_bind]. eexists. split; [reflexivity|].
  unfold aux in Hp'. by rewrite !decide_False in Hp' by done.
Qed.

Lemma appends_erased s : s ≠ Era → appends [(s, Era)] (erased_pair s).
Proof.
  intros Hs [n f] ps Hp Hr. cbn [length] in Hr. destruct (paired_step n f ps s Era Hp ltac:(lia)) as (n' & E & Hp').
  unfold erased_pair. cbn [fst snd]. rewrite E. cbn [mbind outcome_bind]. eexists. split; [reflexivity|].
  unfold aux in Hp'. by rewrite (decide_False (P := s = Era)) in Hp' by done.
Qed.

Lemma appends_erasers : appends [(Era, Era)] (λ st, '(n, _) ← principal_pair Era Era st.1; mret (n, st.2)).
Proof.
  intros [n f] ps Hp Hr. cbn [length] in Hr. destruct (paired_step n f ps Era Era Hp ltac:(lia)) as (n' & E & Hp').
  cbn [fst snd]. rewrite E. cbn [mbind outcome_bind]. eexists. by split.
Qed.

Lemma appends_proper r b b' : (∀ st, b st = b' st) → appends r b → appends r b'.
Proof. intros E H st ps Hp Hr. rewrite <- E. by apply H. Qed.

Definition mixed_pairs : list (Symbol * Symbol) := [(Era, Era); (Con, Con); (Dup, Dup); (Con, Dup); (Con, Era); (Dup, Era)].

Lemma appends_mixed : appends mixed_pairs mixed_round.
Proof.
  pose proof (appends_bind _ _ _ _ appends_erasers (appends_bind _ _ _ _ (appends_labelled Con Con ltac:(done) ltac:(done))
    (appends_bind _ _ _ _ (appends_labelled Dup Dup ltac:(done) ltac:(done)) (appends_bind _ _ _ _ (appends_labelled Con Dup ltac:(done) ltac:(done))
    (appends_bind _ _ _ _ (appends_erased Con ltac:(done)) (appends_erased Dup ltac:(done))))))) as H.
  revert H. apply appends_proper. intros [n f]. unfold mixed_round. cbn [fst snd].
  destruct (principal_pair Era Era n) as [[n1 e]|]; [|done]. cbn [mbind outcome_bind mret outcome_ret snd]. 
  destruct (labelled_pair Con Con (n1, f)) as [st1|]; [|done]. cbn [mbind outcome_bind].
  destruct (labelled_pair Dup Dup st1) as [st2|]; [|done]. cbn [mbind outcome_bind].
  by destruct (labelled_pair Con Dup st2) as [st3|].
Qed.

(** The generators of pairs, and the pairs of a round. *)
Definition round_of (e : ExampleNet) : option (list (Symbol * Symbol)) :=
  match e with
  | EpAnnihilation => Some [(Era, Era)]
  | EpAnnihilationCon => Some [(Con, Con)]
  | EpAnnihilationDup => Some [(Dup, Dup)]
  | ConDupExpansion => Some [(Con, Dup)]
  | MixedRules => Some mixed_pairs
  | _ => None
  end.

Lemma times_unlabelled k : ∀ n f n' f', times k (λ st : Net * N, '(n, _) ← principal_pair Era Era st.1; mret (n, st.2)) (n, f) = Done (n', f') →
  times k (λ n, '(n, _) ← principal_pair Era Era n; mret n) n = Done n'.
Proof.
  induction k as [|k IH]; intros n f n' f' E; [by injection E as <- _|]. cbn [times fst snd] in *.
  destruct (principal_pair Era Era n) as [[n1 e]|]; [|done]. cbn [mbind outcome_bind mret outcome_ret] in *. by eapply IH.
Qed.

Lemma generate_pairs e round k : round_of e = Some round → 4 * (k * N.of_nat (length round)) ≤ u32_MAX →
  ∃ n f, generate e k = Done n ∧ paired (n, f) (concat (replicate (N.to_nat k) round)).
Proof.
  intros He Hk.
  assert (Hgen : ∀ r b, appends r b → length r = length round → ∃ st, times (N.to_nat k) b (new, 0) = Done st ∧ paired st (concat (replicate (N.to_nat k) r))).
  { intros r b Hb Hl. destruct (appends_times r b (N.to_nat k) Hb (new, 0) [] paired_new) as (st & E & Hp); [|by exists st].
    assert (Hlen : length (concat (replicate (N.to_nat k) r)) = (N.to_nat k * length r)%nat).
    { clear. induction (N.to_nat k) as [|m IH]; [done|]. cbn. rewrite length_app, IH. done. }
    rewrite Hlen, Hl. cbn [length]. lia. }
  destruct e; cbn [round_of generate] in *; try discriminate He; injection He as <-.
  - destruct (Hgen _ _ appends_erasers eq_refl) as ([n f] & E & Hp). exists n, f. split; [|exact Hp]. by eapply times_unlabelled.
  - destruct (Hgen _ _ (appends_labelled Con Con ltac:(done) ltac:(done)) eq_refl) as ([n f] & E & Hp). exists n, f. unfold ep_annihilation_con. by rewrite E.
  - destruct (Hgen _ _ (appends_labelled Dup Dup ltac:(done) ltac:(done)) eq_refl) as ([n f] & E & Hp). exists n, f. unfold ep_annihilation_dup. by rewrite E.
  - destruct (Hgen _ _ (appends_labelled Con Dup ltac:(done) ltac:(done)) eq_refl) as ([n f] & E & Hp). exists n, f. unfold con_dup_expansion. by rewrite E.
  - destruct (Hgen _ _ appends_mixed eq_refl) as ([n f] & E & Hp). exists n, f. unfold mixed_rules. by rewrite E.
Qed.

(** ** Isolated pairs *)

(** An active pair of the given symbols whose auxiliary ports lead to labels. *)
Record isolated_pair (n : Net) (e : AgentId * AgentId) (p : Symbol * Symbol) : Prop := {
  ip_redex : redex n e.1 e.2;
  ip_fst : symbol_at n e.1 = Done p.1;
  ip_snd : symbol_at n e.2 = Done p.2;
  ip_free : ∀ x q, x = e.1 ∨ x = e.2 → q = 1 ∨ q = 2 → ∃ f, n.[x, q] = FreePort f;
}.

Definition members (Q : list (AgentId * AgentId)) : list AgentId := Q ≫= λ e, [e.1; e.2].

Record isolated (n : Net) (Q : list (AgentId * AgentId)) (ps : list (Symbol * Symbol)) : Prop := {
  io_wf : wf n;
  io_queue : redex_queue n = Q;
  io_nodup : NoDup (members Q);
  io_pairs : Forall2 (isolated_pair n) Q ps;
  io_complete : queue_complete n;
}.

(** The agents a pair leaves, in weight. *)
Definition product (w : Symbol → nat) (p : Symbol * Symbol) : nat :=
  match get_rule p.1 p.2 with Anni | Void => 0 | Eras => 2 * w Era | Comm => 2 * w Con + 2 * w Dup end.

Lemma isolated_pair_swap n e s t : wf n → isolated_pair n e (s, t) → isolated_pair n (e.2, e.1) (t, s).
Proof.
  intros Hwf [R S1 S2 Fr]. split; [by apply redex_sym|done|done|]. cbn [fst snd]. intros x q Hx. apply Fr. tauto.
Qed.

Lemma isolated_no_loop n e p x : isolated_pair n e p → x = e.1 ∨ x = e.2 → self_loop x n.[x, 1] n.[x, 2] = false.
Proof. intros [_ _ _ Fr] Hx. destruct (Fr x 1 Hx ltac:(auto)) as [f ->]. unfold self_loop. by rewrite bool_decide_eq_false_2 by (by intros [? _]). Qed.

Lemma isolated_not_entangled n e p : isolated_pair n e p → entangled n e.1 e.2 = false.
Proof.
  intros [_ _ _ Fr]. destruct (Fr e.1 1 ltac:(auto) ltac:(auto)) as [f E1], (Fr e.1 2 ltac:(auto) ltac:(auto)) as [g E2].
  unfold entangled. by rewrite E1, E2.
Qed.

(** Every rule on an isolated pair wires new agents and labels only. *)
Definition fresh_wires (l : list Agent) (ws : list Wire) : Prop :=
  wire_redexes ws = [] ∧ ∀ c q, AgentPort c q ∈ ends ws → c ∈ agent_id <$> l.

Lemma isolated_rule n a b s t : wf n → isolated_pair n (a, b) (s, t) → symbol_code s ≤ symbol_code t → next_id n + 4 ≤ u32_MAX →
  ∃ n' l ws, apply_rule n (get_rule s t) a b = Done n' ∧ rewired n a b l ws n' ∧ fresh_wires l ws ∧
    ∀ w, rule_output n (get_rule s t) a b w = product w (s, t).
Proof.
  intros Hwf Hp Hle Hroom. pose proof (isolated_not_entangled _ _ _ Hp) as He.
  pose proof (isolated_no_loop _ _ _ a Hp (or_introl eq_refl)) as La. pose proof (isolated_no_loop _ _ _ b Hp (or_intror eq_refl)) as Lb.
  destruct Hp as [R S1 S2 Fr]. cbn [fst snd] in *.
  destruct (Fr a 1 ltac:(auto) ltac:(auto)) as [f1 E1], (Fr a 2 ltac:(auto) ltac:(auto)) as [f2 E2].
  destruct (Fr b 1 ltac:(auto) ltac:(auto)) as [g1 G1], (Fr b 2 ltac:(auto) ltac:(auto)) as [g2 G2].
  unfold product. cbn [fst snd]. rewrite get_rule_spec.
  destruct s, t; try (exfalso; cbn in Hle; lia); cbn [apply_rule].
  - destruct (interact_anni_rewired n a b Con) as (n' & E & Hw); [done..|]. eexists n', _, _. split_and!; [done|done| |done].
    unfold anni_slots, target_wires, slot_target. rewrite La, Lb. cbn [fmap list_fmap fst snd]. rewrite E1, E2, G1, G2. split; [done|]. set_solver.
  - destruct (interact_comm_rewired n a b) as (n' & p & q & r & s & E & Hw); [done..|]. eexists n', _, _. split_and!; [done|done| |].
    + unfold comm_wires. rewrite E1, E2, G1, G2. split; [done|]. cbn. set_solver.
    + intros w. cbn [rule_output]. unfold comm_output. by rewrite La, Lb.
  - apply symbol_at_Done in S2 as (y & Hy & Hs). destruct (interact_eras_rewired n a b y) as (n' & e1 & e2 & E & Hw); [done..|].
    eexists n', _, _. split_and!; [done|done| |].
    + unfold eras_wires. rewrite E1, E2. split; [done|]. cbn. set_solver.
    + intros w. cbn [rule_output]. by rewrite La.
  - destruct (interact_anni_rewired n a b Dup) as (n' & E & Hw); [done..|]. eexists n', _, _. split_and!; [done|done| |done].
    unfold anni_slots, target_wires, slot_target. rewrite La, Lb. cbn [fmap list_fmap fst snd]. rewrite E1, E2, G1, G2. split; [done|]. set_solver.
  - apply symbol_at_Done in S2 as (y & Hy & Hs). destruct (interact_eras_rewired n a b y) as (n' & e1 & e2 & E & Hw); [done..|].
    eexists n', _, _. split_and!; [done|done| |].
    + unfold eras_wires. rewrite E1, E2. split; [done|]. cbn. set_solver.
    + intros w. cbn [rule_output]. by rewrite La.
  - eexists _, [], _. split_and!; [done|apply (link_all_rewired n a b [] Hwf R); repeat constructor| |done]. split; [done|]. set_solver.
Qed.

Lemma rewired_pair_kept n a b l ws n' e p : rewired n a b l ws n' → fresh_wires l ws → isolated_pair n e p →
  e.1 ≠ a → e.1 ≠ b → e.2 ≠ a → e.2 ≠ b → wf n → isolated_pair n' e p.
Proof.
  intros Hw [_ Hf] [R S1 S2 Fr] N1 N2 N3 N4 Hwf. pose proof (redex_sym _ _ _ Hwf R) as R'. destruct R as [[x Hx] [y Hy] Exy], R' as [_ _ Eyx].
  assert (Hnew : ∀ c, (c = e.1 ∨ c = e.2) → c ∉ agent_id <$> l).
  { intros c Hc Hin. destruct Hw as (m & n1 & Hm & Hs & _). apply list_elem_of_fmap in Hin as (g & -> & Hg).
    apply (sp_dead _ _ _ Hs) in Hg. rewrite (pg_agent _ _ _ _ Hm) in Hg. destruct Hc as [Hc|Hc]; rewrite Hc in Hg;
    rewrite decide_False in Hg by tauto; congruence. }
  assert (Ha : ∀ c, (c = e.1 ∨ c = e.2) → get_agent n' c = get_agent n c).
  { intros c Hc. rewrite (rewired_agent _ _ _ _ _ _ _ Hw) by auto. rewrite decide_False; [done|]. destruct Hc as [->| ->]; tauto. }
  assert (Ht : ∀ c q, (c = e.1 ∨ c = e.2) → q < 3 → touches a b n.[c, q] = false → n'.[c, q] = n.[c, q]).
  { intros c q Hc Hq Htc. rewrite (rewired_target _ _ _ _ _ _ _ _ Hw) by done.
    destruct (partner ws (AgentPort c q)) as [r|] eqn:E; [apply partner_Some, Hf in E; by apply Hnew in E|].
    rewrite touches_outside, Htc; [done|..]; destruct Hc as [->| ->]; done. }
  assert (T0 : n'.[e.1, 0] = n.[e.1, 0]) by (apply Ht; [auto|lia|rewrite Exy; by apply touches_outside]).
  split.
  - split; [exists x; rewrite Ha; auto|exists y; rewrite Ha; auto|by rewrite T0].
  - unfold symbol_at. rewrite Ha by auto. exact S1.
  - unfold symbol_at. rewrite Ha by auto. exact S2.
  - intros c q Hc Hq. destruct (Fr c q Hc Hq) as [f E]. exists f. rewrite Ht; [done|done|destruct Hq; lia|by rewrite E].
Qed.

Lemma isolated_fire n a b s t : wf n → isolated_pair n (a, b) (s, t) → next_id n + 4 ≤ u32_MAX →
  ∃ n' l ws, fire n a b = Done (n', Reduced (get_rule s t) (get_specific_rule s t)) ∧
    (rewired n a b l ws n' ∨ rewired n b a l ws n') ∧ fresh_wires l ws ∧
    ∀ w, (weight w n' + w s + w t = weight w n + product w (s, t))%nat.
Proof.
  intros Hwf Hp Hroom. pose proof (isolated_pair_swap _ _ _ _ Hwf Hp) as Hp'. cbn [fst snd] in Hp'.
  pose proof Hp as [R S1 S2 _]. cbn [fst snd] in *. unfold fire, normalize_pair. rewrite S1, S2. cbn [mbind outcome_bind].
  assert (Hgen : ∀ x y sx sy, isolated_pair n (x, y) (sx, sy) → symbol_code sx ≤ symbol_code sy → ∃ n' l ws,
    apply_rule n (get_rule sx sy) x y = Done n' ∧ rewired n x y l ws n' ∧ fresh_wires l ws ∧
    ∀ w, (weight w n' + w sx + w sy = weight w n + product w (sx, sy))%nat).
  { intros x y sx sy Hxy Hle. destruct (isolated_rule n x y sx sy Hwf Hxy Hle Hroom) as (n' & l & ws & E & Hw & Hf & Ho).
    exists n', l, ws. split_and!; [done..|]. intros w. destruct Hxy as [Rx Sx Sy _]. cbn [fst snd] in *.
    apply symbol_at_Done in Sx as (gx & Gx & <-), Sy as (gy & Gy & <-). rewrite <- Ho. by eapply apply_rule_weight. }
  destruct (N.leb_spec (symbol_code s) (symbol_code t)); cbn [mbind outcome_bind mret outcome_ret].
  - destruct (Hgen a b s t Hp ltac:(done)) as (n' & l & ws & E & Hw & Hf & Ho). exists n', l, ws. rewrite S1, S2. cbn [mbind outcome_bind].
    rewrite E. cbn [mbind outcome_bind]. split_and!; auto.
  - destruct (Hgen b a t s Hp' ltac:(lia)) as (n' & l & ws & E & Hw & Hf & Ho). exists n', l, ws. rewrite S1, S2. cbn [mbind outcome_bind].
    rewrite E. cbn [mbind outcome_bind]. assert (Es : get_rule t s = get_rule s t ∧ get_specific_rule t s = get_specific_rule s t) by (by destruct s, t).
    destruct Es as [<- <-]. split_and!; auto. intros w. specialize (Ho w). assert (Ep : product w (t, s) = product w (s, t)) by (by destruct s, t). lia.
Qed.

Lemma isolated_step n a b Q s t ps : isolated n ((a, b) :: Q) ((s, t) :: ps) → next_id n + 4 ≤ u32_MAX →
  ∃ n', reduce_step n = Done (n', Reduced (get_rule s t) (get_specific_rule s t)) ∧ isolated n' Q ps ∧ next_id n' ≤ next_id n + 4 ∧
    ∀ w, (weight w n' + w s + w t = weight w n + product w (s, t))%nat.
Proof.
  intros [Hwf Hq Hnd Hps Hc] Hroom. apply Forall2_cons in Hps as [Hp Hps].
  set (m := with_redex_queue Q n). assert (Wm : wf m) by (by apply with_queue_wf).
  assert (Hpm : ∀ e p, isolated_pair n e p → isolated_pair m e p) by (intros e p [R S1 S2 Fr]; by split; [apply with_queue_redex|..]).
  destruct (isolated_fire m a b s t Wm (Hpm _ _ Hp) Hroom) as (n' & l & ws & E & Hw & Hf & Ho).
  unfold reduce_step. rewrite Hq. cbn [reduce_from]. fold m. pose proof (ip_redex _ _ _ Hp) as R. cbn [fst snd] in R.
  rewrite (proj2 (is_valid_redex_spec m a b)) by (by apply with_queue_redex). exists n'. split; [exact E|].
  assert (Rm : redex m a b) by (by apply with_queue_redex).
  assert (Hst : stepped m a b n').
  { destruct (fire_stepped m a b Wm Rm Hroom) as (n1 & r & s' & E' & H').
    - intros [He _]. pose proof (isolated_not_entangled m (a, b) (s, t) ltac:(auto)) as Hne. cbn [fst snd] in Hne. congruence.
    - rewrite E in E'. by injection E' as <- _ _. }
  assert (Hqueue : redex_queue n' = Q).
  { destruct Hw as [Hw|Hw]; destruct Hw as (m0 & n1 & Hm & Hs & Hpl & ->);
    rewrite (pl_queue _ _ _ (plug_spec ws n1 (sp_wf _ _ _ Hs) Hpl)), (sp_queue _ _ _ Hs), (pg_queue _ _ _ _ Hm), (proj1 Hf); apply app_nil_r. }
  split_and!; [|apply (st_next _ _ _ _ Hst)|exact Ho].
  change (members ((a, b) :: Q)) with (a :: b :: members Q) in Hnd. rewrite !NoDup_cons, not_elem_of_cons in Hnd. destruct Hnd as ((Hab & HaQ) & HbQ & Hnd).
  split; [apply Hst|exact Hqueue|exact Hnd| |].
  - apply Forall2_same_length_lookup. apply Forall2_same_length_lookup in Hps as [Hlen Hps]. split; [done|]. intros i e p He Hep.
    assert (Hm : e.1 ∈ members Q ∧ e.2 ∈ members Q).
    { apply list_elem_of_lookup_2 in He. unfold members. split; apply list_elem_of_bind; exists e; set_solver. }
    assert (e.1 ≠ a ∧ e.1 ≠ b ∧ e.2 ≠ a ∧ e.2 ≠ b) as (N1 & N2 & N3 & N4).
    { destruct Hm as [M1 M2]. split_and!; intros Hx; rewrite Hx in *; tauto. }
    assert (Hep' : isolated_pair m e p) by (apply Hpm; by eapply Hps).
    destruct Hw as [Hw|Hw]; [by apply (rewired_pair_kept m a b l ws)|by apply (rewired_pair_kept m b a l ws)].
  - apply Hst. exact (popped_queue_but n a b Q Hq Hc).
Qed.

Definition step_stats (st : ReductionStats) (p : Symbol * Symbol) : ReductionStats :=
  count_step st (get_rule p.1 p.2) (get_specific_rule p.1 p.2).

Definition pairs_weight (w : Symbol → nat) (ps : list (Symbol * Symbol)) : nat := sum_list ((λ p, w p.1 + w p.2)%nat <$> ps).

Definition products (w : Symbol → nat) (ps : list (Symbol * Symbol)) : nat := sum_list (product w <$> ps).

Lemma isolated_reduces ps : ∀ n Q st fuel, isolated n Q ps → next_id n + 4 * (N.of_nat (length ps) + 1) ≤ u32_MAX → (length ps < fuel)%nat →
  ∃ n', reduce_all_from fuel n st = Some (Done (n', foldl step_stats st ps)) ∧ wf n' ∧ (∀ a b, ¬ redex n' a b) ∧
    ∀ w, (weight w n' + pairs_weight w ps = weight w n + products w ps)%nat.
Proof.
  induction ps as [|[s t] ps IH]; intros n Q st [|fuel] Hi Hroom Hfuel; try (cbn in Hfuel; lia); cbn [reduce_all_from].
  - pose proof Hi as [Hwf Hq _ Hps Hc]. apply Forall2_nil_inv_r in Hps. subst Q. unfold reduce_step. rewrite Hps. cbn [reduce_from mret outcome_ret foldl].
    exists (with_redex_queue [] n). split; [done|]. split; [by apply with_queue_wf|]. split.
    + intros a b Hr%with_queue_redex. by eapply empty_queue_normal.
    + intros w. unfold weight. cbn. lia.
  - destruct Q as [|[a b] Q]; [destruct Hi as [_ _ _ Hps _]; inversion Hps|]. cbn [length] in *.
    destruct (isolated_step n a b Q s t ps Hi ltac:(lia)) as (n1 & E & Hi1 & Hn1 & Hw). rewrite E.
    destruct (IH n1 Q (count_step st (get_rule s t) (get_specific_rule s t)) fuel Hi1 ltac:(lia) ltac:(lia)) as (n' & E' & Hwf' & Hno & Hw').
    exists n'. split; [exact E'|]. split_and!; [done|done|]. intros w. specialize (Hw w). specialize (Hw' w).
    unfold pairs_weight, products in *. cbn [fmap list_fmap sum_list fst snd] in *. unfold id in *. lia.
Qed.

Lemma members_pair_queue k : members (pair_queue k) = N.of_nat <$> seq 0 (2 * k).
Proof.
  induction k as [|k IH]; [done|]. replace (2 * S k)%nat with (S (S (2 * k))) by lia. rewrite !seq_S, !fmap_app, <- IH, pair_queue_S.
  unfold members. rewrite bind_app, <- app_assoc. f_equal. cbn. repeat f_equal; lia.
Qed.

Lemma flatten_lookup ps i s t : ps !! i = Some (s, t) → flatten ps !! (2 * i)%nat = Some s ∧ flatten ps !! (2 * i + 1)%nat = Some t.
Proof.
  revert i. induction ps as [|p ps IH]; intros [|i] E; try done; [by injection E as ->|].
  replace (2 * S i)%nat with (S (S (2 * i))) by lia. apply (IH i E).
Qed.

(** A net of pairs is a net of isolated pairs. *)
Lemma paired_isolated n f ps : paired (n, f) ps → isolated n (pair_queue (length ps)) ps.
Proof.
  intros [[L A Nx F I Rt Hq P] Hflat _]. cbn [fst snd] in *.
  assert (Ha : ∀ i s, flatten ps !! i = Some s → get_agent n (N.of_nat i) = Some (mkAgent s (N.of_nat i))).
  { intros i s E. unfold get_agent. by rewrite Nat2N.id, A, list_lookup_imap, E. }
  split; [apply (lg_wf _ _ L)|done| | |].
  - rewrite members_pair_queue. apply NoDup_fmap_2; [intros ? ?; lia|apply NoDup_seq].
  - apply Forall2_same_length_lookup. unfold pair_queue. split; [by rewrite length_fmap, length_seq|].
    intros i e [s t] He Hp. rewrite list_lookup_fmap in He. destruct (flatten_lookup ps i s t Hp) as [Hs Ht]. apply Ha in Hs, Ht.
    apply lookup_lt_Some in Hp as Hi. rewrite lookup_seq_lt in He by done. injection He as <-. cbn [Nat.add].
    replace (N.of_nat (2 * i)) with (2 * N.of_nat i) in Hs by lia. replace (N.of_nat (2 * i + 1)) with (2 * N.of_nat i + 1) in Ht by lia.
    split; cbn [fst snd].
    + split; [by eexists|by eexists|]. apply P. left. unfold pair_queue. apply list_elem_of_fmap. exists i. split; [done|]. apply elem_of_seq. lia.
    + apply symbol_at_Done. by eexists.
    + apply symbol_at_Done. by eexists.
    + intros x q _. apply Hflat.
  - intros a b [_ _ E]. rewrite Hq. by apply P.
Qed.

Lemma arena_weight_imap w (f : nat → Symbol → Agent) l : (∀ i s, symbol (f i s) = s) →
  arena_weight w (imap (λ i s, Some (f i s)) l) = sum_list (w <$> l).
Proof.
  revert f. induction l as [|s l IH]; intros f Hf; [done|]. cbn. rewrite Hf. f_equal. apply (IH (λ i, f (S i))). intros. apply Hf.
Qed.

Lemma paired_weight n f ps w : paired (n, f) ps → weight w n = pairs_weight w ps.
Proof.
  intros [[_ A _ _ _ _ _] _ _]. cbn [fst] in A. unfold weight. rewrite A, arena_weight_imap by done. unfold flatten, pairs_weight. clear.
  induction ps as [|p ps IH]; [done|]. cbn in *. lia.
Qed.

(** Pair generators, reduced: one interaction per pair, and what each pair leaves. *)
Lemma generated_pairs_reduce e round k : round_of e = Some round → 4 * (k * N.of_nat (length round)) + 2 ≤ 2 ^ 30 →
  ∃ n, generate e k = Done n ∧ ∀ fuel, (N.to_nat k * length round < fuel)%nat →
    ∃ n', reduce_all fuel n = Some (Done (n', foldl step_stats stats_zero (concat (replicate (N.to_nat k) round)))) ∧
      wf n' ∧ (∀ a b, ¬ redex n' a b) ∧ ∀ w, weight w n' = (N.to_nat k * products w round)%nat.
Proof.
  intros He Hk. assert (u32_MAX = 4294967295) as Hmax by done. destruct (generate_pairs e round k He ltac:(lia)) as (n & f & E & Hp).
  exists n. split; [exact E|]. intros fuel Hfuel.
  assert (Hlen : length (concat (replicate (N.to_nat k) round)) = (N.to_nat k * length round)%nat).
  { clear. induction (N.to_nat k) as [|m IH]; [done|]. cbn. rewrite length_app, IH. done. }
  assert (Hprod : ∀ w, products w (concat (replicate (N.to_nat k) round)) = (N.to_nat k * products w round)%nat).
  { clear. intros w. unfold products. induction (N.to_nat k) as [|m IH]; [done|]. cbn [replicate concat]. rewrite fmap_app, sum_list_with_app, IH. done. }
  pose proof (sh_next _ _ _ _ (pa_shape _ _ Hp)) as Hn. cbn [fst] in Hn. rewrite length_flatten, Hlen in Hn.
  destruct (isolated_reduces _ n _ stats_zero fuel (paired_isolated n f _ Hp)) as (n' & E' & Hwf & Hno & Hw).
  - rewrite Hlen, Hn. lia.
  - by rewrite Hlen.
  - exists n'. split; [exact E'|]. split_and!; [done|done|]. intros w. specialize (Hw w). rewrite (paired_weight n f _ w Hp), Hprod in Hw. lia.
Qed.

(** ** Trees *)

(** The dense and the sparse net, side by side. *)
Definition tree_done (s : SparseNet) (n : Net) (syms : list Symbol) (Q : list (AgentId * AgentId)) (O : list PortRef)
    (x : outcome (SparseNet * N * PortRef)) (y : outcome (Net * N * PortRef)) (depth : nat) (f : N) : Prop :=
  let r := match depth with O => FreePort f | S _ => AgentPort (N.of_nat (length syms)) 0 end in
  ∃ s' n', x = Done (s', f + 2 ^ N.of_nat depth, r) ∧ y = Done (n', f + 2 ^ N.of_nat depth, r) ∧
    sim s' n' ∧ shape n' (syms ++ replicate (2 ^ depth - 1) Con) Q (open_end r ++ O).

Lemma sim_shape_connect s n syms Q O a b : sim s n → shape n syms Q (open_end a ++ open_end b ++ O) → sim (Sparse.connect s a b) (connect n a b).
Proof.
  intros Hs [L _ _ _ _ _ _]. destruct (ledger_app_not n O a b L) as (Fa & Fb & Hap & _). apply sim_connect; try done. apply (lg_wf _ _ L).
Qed.

Lemma build_tree_spec depth : ∀ s n syms Q O f, sim s n → shape n syms Q O →
  N.of_nat (length syms) + 2 ^ N.of_nat depth ≤ u32_MAX → f + 2 ^ N.of_nat depth ≤ u32_MAX →
  tree_done s n syms Q O (sparse_build_tree depth s f) (build_tree depth n f) depth f.
Proof.
  induction depth as [|d IH]; intros s n syms Q O f Hs Hn Hr Hf.
  - exists s, n. cbn [sparse_build_tree build_tree mret outcome_ret]. rewrite as_u32_small by (cbn in Hf; lia). cbn [N.of_nat]. split_and!; [done..|].
    cbn. by rewrite app_nil_r.
  - rewrite Nat2N.inj_succ, N.pow_succ_r' in *. set (w := 2 ^ N.of_nat d) in *.
    assert (Ew : N.of_nat (2 ^ d) = w) by (unfold w; by rewrite Nat2N.inj_pow). assert (0 < w) by lia.
    destruct (shape_create n syms Q O Con Hn ltac:(lia)) as (n1 & E1 & H1 & _). cbn [sparse_build_tree build_tree].
    pose proof (sim_create s n Con Hs (lg_wf _ _ (sh_ledger _ _ _ _ Hn)) (no_free_allocates _ _ (sh_free _ _ _ _ Hn) (sh_idle _ _ _ _ Hn))) as Hc.
    rewrite E1 in Hc. destruct (Sparse.create_agent s Con) as [[s1 id]|]; [|done]. destruct Hc as [-> Hs1].
    rewrite E1. set (node := N.of_nat (length syms)) in *. cbn [mbind outcome_bind].
    assert (Lc : N.of_nat (length (syms ++ [Con])) = node + 1) by (unfold node; rewrite length_app; cbn; lia).
    destruct (IH s1 n1 _ Q _ f Hs1 H1) as (s2 & n2 & -> & -> & Hs2 & H2); [lia|lia|]. cbn [mbind outcome_bind]. fold w.
    set (l := match d with O => FreePort f | S _ => _ end) in *.
    assert (Ll : N.of_nat (length ((syms ++ [Con]) ++ replicate (2 ^ d - 1) Con)) = node + w)
      by (rewrite length_app, length_replicate; lia).
    destruct (IH s2 n2 _ Q _ (f + w) Hs2 H2) as (s3 & n3 & -> & -> & Hs3 & H3); [lia|lia|]. cbn [mbind outcome_bind]. fold w.
    set (r := match d with O => FreePort (f + w) | S _ => _ end) in *.
    assert (Dl : l ≠ DISCONNECTED) by (unfold l; destruct d; [intros [= ->]; lia|done]).
    assert (Dr : r ≠ DISCONNECTED) by (unfold r; destruct d; [intros [= E]; lia|done]).
    change (range_u (total_ports Con)) with [0; 1; 2] in H3. cbn [fmap list_fmap app] in H3.
    assert (H3' : shape n3 (syms ++ replicate (2 * 2 ^ d - 1) Con) Q
      (open_end (AgentPort node 1) ++ open_end l ++ open_end (AgentPort node 2) ++ open_end r ++ AgentPort node 0 :: O)).
    { replace (2 * 2 ^ d - 1)%nat with (S ((2 ^ d - 1) + (2 ^ d - 1))) by lia. cbn [replicate]. rewrite replicate_add.
      rewrite <- !app_assoc in H3. cbn [app] in H3. revert H3. apply shape_proper. cbn [open_end app]. destruct l, r; cbn [open_end]; solve_Permutation. }
    destruct (shape_connect _ _ _ _ _ _ H3') as [H4 _]; [done|exact Dl|done|]. pose proof (sim_shape_connect _ _ _ _ _ _ _ Hs3 H3') as Hs4.
    cbn [push_redex] in H4. destruct (shape_connect _ _ _ _ _ _ H4) as [H5 _]; [done|exact Dr|done|]. pose proof (sim_shape_connect _ _ _ _ _ _ _ Hs4 H4) as Hs5.
    eexists _, _. unfold tree_done. cbv zeta. replace (f + 2 ^ N.of_nat (S d)) with (f + w + w) by (rewrite Nat2N.inj_succ, N.pow_succ_r'; fold w; lia).
    split; [reflexivity|]. split; [reflexivity|]. split; [exact Hs5|]. exact H5.
Qed.

Lemma sim_new : sim Sparse.new new.
Proof. split; try done. Qed.

(** The two trees of depth [d], wired at their roots. *)
Lemma dual_tree_spec d : 2 * 2 ^ d ≤ u32_MAX →
  ∃ s n, dual_tree_sparse d = Done s ∧ dual_tree d = Done n ∧ sim s n ∧
    built (replicate (2 * (2 ^ N.to_nat d - 1)) Con) (if d =? 0 then [] else [(0, 2 ^ d - 1)]) None n.
Proof.
  intros Hd. assert (Ed : N.of_nat (N.to_nat d) = d) by lia. set (D := N.to_nat d) in *.
  assert (Ew : N.of_nat (2 ^ D) = 2 ^ d) by (by rewrite Nat2N.inj_pow, Ed). assert (0 < 2 ^ d) by lia.
  destruct (build_tree_spec D Sparse.new new [] [] [] 0 sim_new shape_new) as (s1 & n1 & E1 & E1' & Hs1 & H1); [rewrite Ed; cbn; lia..|].
  rewrite Ed, N.add_0_l, app_nil_r in *. cbn [app length] in *.
  assert (Lr : N.of_nat (length (replicate (2 ^ D - 1) Con)) = 2 ^ d - 1) by (rewrite length_replicate; lia).
  destruct (build_tree_spec D s1 n1 _ _ _ (2 ^ d) Hs1 H1) as (s2 & n2 & E2 & E2' & Hs2 & H2); [rewrite ?Ed; lia..|].
  set (ra := match D with O => FreePort 0 | S _ => AgentPort (N.of_nat 0) 0 end) in *.
  set (rb := match D with O => FreePort (2 ^ d) | S _ => _ end) in *.
  assert (Da : ra ≠ DISCONNECTED) by (unfold ra; by destruct D).
  assert (Db : rb ≠ DISCONNECTED) by (unfold rb; destruct D; [intros [= E]; lia|done]).
  assert (H2' : shape n2 (replicate (2 * (2 ^ D - 1)) Con) [] (open_end ra ++ open_end rb ++ [])).
  { rewrite <- replicate_add in H2. replace (2 ^ D - 1 + (2 ^ D - 1))%nat with (2 * (2 ^ D - 1))%nat in H2 by lia.
    revert H2. apply shape_proper. destruct ra, rb; cbn [open_end]; solve_Permutation. }
  pose proof (sim_shape_connect _ _ _ _ _ _ _ Hs2 H2') as Hs3.
  exists (Sparse.connect s2 ra rb), (connect n2 ra rb). unfold dual_tree_sparse, dual_tree. fold D. rewrite E1, E1'. cbn [mbind outcome_bind].
  rewrite E2, E2'. cbn [mbind outcome_bind]. split_and!; [done|done|done|].
  assert (Eq : (if d =? 0 then [] else [(0, 2 ^ d - 1)]) = push_redex ra rb []).
  { unfold ra, rb. rewrite Lr. destruct (N.eqb_spec d 0) as [->|]; [done|]. destruct D eqn:ED; [lia|done]. }
  rewrite Eq. destruct D eqn:ED.
  - cbn in E1', E2'. injection E1' as <-. injection E2' as <-. apply (built_redirects _ new), shape_built, shape_new.
  - apply shape_built. by apply shape_connect.
Qed.

(** ** The erasure chain *)

Lemma shape_chain rest : ∀ a n syms Q O, shape n syms Q (AgentPort a 1 :: AgentPort a 2 :: (rest ≫= con_ports) ++ O) →
  shape (chain n (a :: rest)) syms Q (AgentPort (default a (last rest)) 1 :: ((λ c, AgentPort c 2) <$> a :: rest) ++ O).
Proof.
  induction rest as [|b rest IH]; intros a n syms Q O H; [exact H|]. cbn [chain].
  assert (H' : shape n syms Q (open_end (AgentPort a 1) ++ open_end (AgentPort b 0) ++ AgentPort b 1 :: AgentPort b 2 :: (rest ≫= con_ports) ++ AgentPort a 2 :: O)).
  { revert H. apply shape_proper. change ((b :: rest) ≫= con_ports) with (con_ports b ++ (rest ≫= con_ports)). unfold con_ports at 1. cbn [open_end app]. solve_Permutation. }
  destruct (shape_connect _ _ _ _ _ _ H') as [H1 _]; [done|done|done|]. apply IH in H1. cbn [push_redex] in H1.
  assert (El : default a (last (b :: rest)) = default b (last rest)) by (rewrite last_cons; by destruct (last rest)).
  rewrite El. revert H1. apply shape_proper. cbn [fmap list_fmap]. solve_Permutation.
Qed.

Lemma erasure_spec k : 1 ≤ k → k + 1 ≤ 2 ^ 31 →
  ∃ n, erasure_propagation k = Done n ∧ shape n (replicate (N.to_nat k) Con ++ [Era]) [(k, 0)] [].
Proof.
  intros H1 Hk. assert (u32_MAX = 4294967295) as Hmax by done. unfold erasure_propagation. rewrite (proj2 (N.eqb_neq k 0)) by lia.
  destruct (shape_create_many Con (N.to_nat k) ltac:(done) new [] [] [] shape_new) as (n1 & E1 & S1); [cbn; lia|]. rewrite E1. cbn [mbind outcome_bind length].
  destruct (N.to_nat k) as [|m] eqn:Em; [lia|]. change (N.of_nat <$> seq 0 (S m)) with (0 :: (N.of_nat <$> seq 1 m)) in *.
  set (rest := N.of_nat <$> seq 1 m) in *. cbn [head]. rewrite last_cons.
  assert (Hlen : length rest = m) by (unfold rest; by rewrite length_fmap, length_seq).
  change ((0 :: rest) ≫= con_ports) with (con_ports 0 ++ (rest ≫= con_ports)) in S1. unfold con_ports at 1 in S1. cbn [app] in S1.
  assert (S2 : shape n1 (replicate (S m) Con) [] (AgentPort 0 1 :: AgentPort 0 2 :: (rest ≫= con_ports) ++ [AgentPort 0 0])).
  { revert S1. apply shape_proper. solve_Permutation. }
  apply shape_chain in S2. set (tl := default 0 (last rest)) in *.
  assert (Etl : (match last rest with Some y => Some y | None => Some 0 end) = Some tl) by (unfold tl; by destruct (last rest)). rewrite Etl.
  destruct (shape_label _ _ _ _ 0 (tl, 1) S2) as [S3 E3]; [lia|done|].
  destruct (label_port (chain n1 (0 :: rest), 0) (tl, 1)) as [n3 f3] eqn:EL. cbn [fst snd] in S3, E3. subst f3.
  assert (S3' : shape n3 (replicate (S m) Con) [] (((λ x, AgentPort x.1 x.2) <$> ((λ c, (c, 2)) <$> 0 :: rest)) ++ [AgentPort 0 0])).
  { rewrite <- list_fmap_compose. exact S3. }
  destruct (shape_labels _ _ _ _ _ (0 + 1) S3') as [S4 _].
  { rewrite length_fmap. cbn [length]. rewrite Hlen. lia. }
  { apply Forall_fmap, Forall_true. done. }
  destruct (shape_create _ _ _ _ Era S4) as (n5 & E5 & S5 & _); [rewrite length_replicate; lia|]. rewrite E5. cbn [mbind outcome_bind].
  rewrite length_replicate in S5, E5. replace (N.of_nat (S m)) with k in * by lia.
  rewrite <- (app_nil_r [AgentPort 0 0]) in S5.
  destruct (shape_connect n5 _ _ [] (AgentPort k 0) (AgentPort 0 0) S5) as [S6 _]; [done|done|done|].
  rewrite length_replicate. replace (N.of_nat (S m)) with k in * by lia. eexists. split; [reflexivity|exact S6].
Qed.

(** ** The examples *)

(** The agents of an example in order of creation, and its active pairs. *)
Definition example_plan (e : ExampleNet) (k : N) : plan :=
  match e with
  | DualTree => (replicate (2 * (2 ^ N.to_nat k - 1)) Con, if k =? 0 then [] else [(0, 2 ^ k - 1)])
  | ErasurePropagation => if k =? 0 then ([], []) else (replicate (N.to_nat k) Con ++ [Era], [(k, 0)])
  | TreeSum => if k <=? 1 then (church_agents k, []) else binary_plan add_agents 1 (k - 1)
  | SumOfSquares => if k <=? 1 then (church_agents k, []) else squares_plan k
  | _ => match round_of e with
         | Some round => (flatten (concat (replicate (N.to_nat k) round)), pair_queue (N.to_nat k * length round))
         | None => ([], [])
         end
  end.

(** The arithmetic examples of sizes 0 and 1 are numerals. *)
Definition example_root (e : ExampleNet) (k : N) : option PortRef :=
  match e with TreeSum | SumOfSquares => if k <=? 1 then Some (AgentPort 0 0) else None | _ => None end.

(** Sizes whose ids and labels fit a u32, and whose numerals fit the encoder. *)
Definition size_fits (e : ExampleNet) (k : N) : Prop :=
  match e with
  | DualTree => k ≤ 30
  | ErasurePropagation => k < 2 ^ 31
  | TreeSum => k ≤ Church.MAX_CHURCH + 1
  | SumOfSquares => k ≤ 1000
  | _ => k < 2 ^ 25
  end.

Lemma length_rounds {A} (l : list A) k : length (concat (replicate k l)) = (k * length l)%nat.
Proof. induction k as [|k IH]; [done|]. cbn. by rewrite length_app, IH. Qed.

Definition example_net (e : ExampleNet) (k : N) : Net → Prop := built (example_plan e k).1 (example_plan e k).2 (example_root e k).

Lemma numeral_example k (e : ExampleNet) : e = TreeSum ∨ e = SumOfSquares → k ≤ 1 → ∃ n, generate e k = Done n ∧ example_net e k n.
Proof.
  intros He Hk. assert (Church.MAX_CHURCH = 1000000) as Hm by done. destruct (encode_nat_built k ltac:(lia)) as (n & E & B). exists n.
  unfold example_net, example_plan, example_root. destruct He as [-> | ->]; rewrite (proj2 (N.leb_le k 1) Hk); (split; [|exact B]);
    assert (k = 0 ∨ k = 1) as [-> | ->] by lia; exact E.
Qed.

(** C19. For every example and every size that fits, the generator returns a
    well-formed net with the agents of the example's plan, numbered in order of
    creation, every port but the root wired, and the pairs it queues are exactly
    its active pairs. *)
Theorem generate_sound e k : size_fits e k → ∃ n, generate e k = Done n ∧ example_net e k n.
Proof.
  intros Hk. assert (u32_MAX = 4294967295) as Hmax by done.
  assert (Hround : ∀ round, round_of e = Some round → (length round ≤ 6)%nat → k < 2 ^ 25 →
    ∃ n, generate e k = Done n ∧ shape n (flatten (concat (replicate (N.to_nat k) round))) (pair_queue (N.to_nat k * length round)) []).
  { intros round Hr Hl Hk'. destruct (generate_pairs e round k Hr ltac:(nia)) as (n & f & E & [S _ _]). exists n. split; [done|].
    rewrite length_rounds in S. exact S. }
  destruct e; cbn [size_fits] in Hk;
    try (destruct (Hround _ eq_refl ltac:(cbn; lia) Hk) as (n & E & S); exists n; split; [exact E|by apply shape_built]).
  - assert (2 ^ k ≤ 2 ^ 30) by (by apply N.pow_le_mono_r). assert (2 ^ 30 = 1073741824) as E30 by done.
    destruct (dual_tree_spec k) as (s & n & _ & E & _ & S); [lia|]. exists n. by split.
  - unfold example_net, example_plan. destruct (N.eqb_spec k 0) as [->|Hne]; [exists new; split; [done|by apply shape_built, shape_new]|].
    destruct (erasure_spec k) as (n & E & S); [lia|lia|]. exists n. split; [exact E|by apply shape_built].
  - destruct (N.le_gt_cases k 1) as [H1|H1]; [by apply numeral_example; [left|]|].
    unfold example_net, example_plan, example_root, generate, tree_sum. rewrite (proj2 (N.leb_gt k 1)), (proj2 (N.eqb_neq k 0)), (proj2 (N.eqb_neq k 1)) by lia.
    apply build_add_built; [done|]. lia.
  - destruct (N.le_gt_cases k 1) as [H1|H1]; [by apply numeral_example; [right|]|].
    unfold example_net, example_plan, example_root, generate. rewrite (proj2 (N.leb_gt k 1)) by lia. apply build_sum_of_squares_built; lia.
Qed.

(** The generator of the sums of squares accepts a u32 and panics above 1000. *)
Theorem generate_squares_panics k : 1000 < k → k ≤ u32_MAX → generate SumOfSquares k = Panic.
Proof. intros H1 H2. assert (u32_MAX = 4294967295) as Hmax by done. apply build_sum_of_squares_panics; [done|]. change (2 ^ 32) with 4294967296. lia. Qed.

Lemma generate_sound_witness :
  ∃ n, generate MixedRules 2 = Done n ∧ wf n ∧ length (redex_queue n) = 12%nat.
Proof.
  destruct (generate_sound MixedRules 2 ltac:(cbn; lia)) as (n & E & [W _ Q _ _ _ _]).
  exists n. split; [exact E|]. split; [exact W|]. rewrite Q. reflexivity.
Defined.

Definition rule_count (r : Rule) (ps : list (Symbol * Symbol)) : N := N.of_nat (length (filter (λ p, get_rule p.1 p.2 = r) ps)).

Lemma rule_count_cons r p ps : rule_count r (p :: ps) = (if decide (get_rule p.1 p.2 = r) then 1 else 0) + rule_count r ps.
Proof. unfold rule_count. rewrite filter_cons. case_decide; cbn [length]; lia. Qed.

Lemma stats_count ps : ∀ st, let st' := foldl step_stats st ps in
  total_interactions st' = total_interactions st + N.of_nat (length ps) ∧
  anni_count st' = anni_count st + rule_count Anni ps ∧ comm_count st' = comm_count st + rule_count Comm ps ∧
  eras_count st' = eras_count st + rule_count Eras ps ∧ void_count st' = void_count st + rule_count Void ps.
Proof.
  induction ps as [|p ps IH]; intros st; cbn [foldl].
  - unfold rule_count. cbn. lia.
  - destruct (IH (step_stats st p)) as (-> & -> & -> & -> & ->). rewrite !rule_count_cons. unfold step_stats, count_step.
    cbn [total_interactions anni_count comm_count eras_count void_count length]. destruct (get_rule p.1 p.2); repeat (case_decide; try done); lia.
Qed.

Lemma rule_count_rounds r round k : rule_count r (concat (replicate k round)) = N.of_nat k * rule_count r round.
Proof.
  induction k as [|k IH]; [done|]. unfold rule_count in *. cbn [replicate concat]. rewrite filter_app, length_app, Nat2N.inj_add, IH. lia.
Qed.

(** The examples made of pairs reduce one pair at a time: with any fuel
    above the number of pairs, [reduce_all] performs exactly one interaction per
    pair, of the pair's rule, and returns a normal form whose agents are what
    the rules leave of each pair: nothing of two equal agents, two erasers of an
    erased agent, two constructors and two duplicators of a commutation. *)
Theorem pairs_reduce e round k fuel : round_of e = Some round → k < 2 ^ 25 → (N.to_nat k * length round < fuel)%nat →
  ∃ n n' st, generate e k = Done n ∧ reduce_all fuel n = Some (Done (n', st)) ∧
    wf n' ∧ (∀ a b, ¬ redex n' a b) ∧
    total_interactions st = k * N.of_nat (length round) ∧
    anni_count st = k * rule_count Anni round ∧ comm_count st = k * rule_count Comm round ∧
    eras_count st = k * rule_count Eras round ∧ void_count st = k * rule_count Void round ∧
    ∀ w, weight w n' = (N.to_nat k * products w round)%nat.
Proof.
  intros He Hk Hfuel. assert (Hl : N.of_nat (length round) ≤ 6) by (destruct e; cbn in He; try discriminate He; injection He as <-; cbn; lia).
  destruct (generated_pairs_reduce e round k He) as (n & E & H); [change (2 ^ 30) with 1073741824; change (2 ^ 25) with 33554432 in Hk; nia|].
  destruct (H fuel Hfuel) as (n' & E' & W & Hno & Hw). eexists n, n', _. split; [exact E|]. split; [exact E'|]. split; [exact W|]. split; [exact Hno|].
  destruct (stats_count (concat (replicate (N.to_nat k) round)) stats_zero) as (-> & -> & -> & -> & ->).
  rewrite !rule_count_rounds, length_rounds, N2Nat.id. cbn [stats_zero total_interactions anni_count comm_count eras_count void_count].
  split_and!; (done || lia).
Qed.

Lemma pairs_reduce_witness :
  ∃ n n' st, generate ConDupExpansion 3 = Done n ∧ reduce_all 4 n = Some (Done (n', st)) ∧
    comm_count st = 3 ∧ weight (λ _, 1%nat) n' = 12%nat.
Proof.
  destruct (pairs_reduce ConDupExpansion [(Con, Dup)] 3 4 eq_refl ltac:(lia) ltac:(cbn; lia))
    as (n & n' & st & E & E' & _ & _ & _ & _ & Hc & _ & _ & Hw).
  exists n, n', st. split; [exact E|]. split; [exact E'|]. split; [rewrite Hc; reflexivity|]. rewrite Hw. reflexivity.
Defined.

(** The sparse construction of the dual tree is the dense one: both return,
    and the sparse net represents the dense one (same agents, targets, queue,
    next id, redirects), whose agents are the [2 * (2 ^ d - 1)] constructors with
    one active pair, the roots. *)
Theorem dual_tree_sparse_refines d : d ≤ 30 →
  ∃ s n, dual_tree_sparse d = Done s ∧ dual_tree d = Done n ∧ sim s n ∧ example_net DualTree d n.
Proof.
  intros Hd. assert (2 ^ d ≤ 2 ^ 30) by (by apply N.pow_le_mono_r). assert (u32_MAX = 4294967295) as Hmax by done.
  destruct (dual_tree_spec d) as (s & n & Es & E & Hs & S); [change (2 ^ 30) with 1073741824 in *; lia|].
  by exists s, n.
Qed.

Lemma dual_tree_sparse_refines_witness :
  ∃ s n, dual_tree_sparse 3 = Done s ∧ dual_tree 3 = Done n ∧ sim s n.
Proof.
  destruct (dual_tree_sparse_refines 3 ltac:(lia)) as (s & n & Es & E & Hs & _). exists s, n. split; [exact Es|]. split; [exact E|exact Hs].
Defined.

(** The interactions of an example, and its agents at the end: all, erasers. *)
Definition example_result (e : ExampleNet) (k : N) (fuel : nat) : option (N * nat * nat) :=
  match generate e k with
  | Done n =>
      match reduce_all fuel n with
      | Some (Done (n', st)) => Some (total_interactions st, count_live_agents n', weight (λ s, match s with Era => 1 | _ => 0 end)%nat n')
      | _ => None
      end
  | Panic => None
  end.

(** What the documentation of [erasure_propagation] counts as [2 * n] erasers at
    the end is one more than the length of the chain. *)
Theorem erasure_leaves_fewer : example_result ErasurePropagation 5 10 = Some (5, 6%nat, 6%nat).
Proof. vm_compute. reflexivity. Qed.

(** The dual tree of depth 5 annihilates completely, one pair of nodes at a time. *)
Theorem dual_tree_annihilates : example_result DualTree 5 40 = Some (31, 0%nat, 0%nat).
Proof. vm_compute. reflexivity. Qed.
