(* ===== verification/Streams.v ===== *)
(** The streaming generators (bench/streaming.rs): a net as one batch, the pairs
    of erasers and the dual tree in batches.  An iterator is the list of what it
    yields. *)
From S2P Require Import Prelude NetTypes NetCore Streaming.
Local Open Scope N_scope.
Import Streaming.

Module Streams.

(** ** A net as one batch *)

Definition slot_agent (i : nat) (slot : option Agent) : list (AgentId * Symbol) :=
  match slot with Some a => [(N.of_nat i, symbol a)] | None => [] end.

(** One port: a wire is emitted from its end with the smaller id. *)
Definition port_directive (n : Net) (i : nat) (p : PortId) : option ConnectionDirective :=
  match ports n !! (i * N.to_nat PORTS_PER_SLOT + N.to_nat p)%nat with
  | Some (AgentPort tgt_id tgt_port) =>
      if N.of_nat i <? tgt_id then Some (Resolved (N.of_nat i, p) (tgt_id, tgt_port)) else None
  | Some (FreePort fp_id) => if fp_id =? u32_MAX then None else Some (FreePortInterface (N.of_nat i, p) fp_id)
  | None => None
  end.

Definition slot_directives (n : Net) (i : nat) (slot : option Agent) : list ConnectionDirective :=
  match slot with Some a => omap (port_directive n i) (range_u (total_ports (symbol a))) | None => [] end.

Definition default_chunked_iter (n : Net) : list AgentBatch :=
  [mkAgentBatch (concat (imap slot_agent (agents n))) (concat (imap (slot_directives n) (agents n)))].

(** ** Pairs of erasers *)

Record EpAnnihilationIter : Type := mkEpIter { ep_size : N; pairs_per_batch : N; next_pair : N }.

Definition pair_start (start i : N) : N := as_u32 (start + 2 * i).

(** [Iterator::next]. *)
Definition ep_next (it : EpAnnihilationIter) : option (AgentBatch * EpAnnihilationIter) :=
  if ep_size it <=? next_pair it then None
  else
    let batch_pairs := N.min (as_u32 (pairs_per_batch it)) (ep_size it - next_pair it) in
    let start := as_u32 (next_pair it * 2) in
    let batch_agents := range_u batch_pairs ≫= λ i, [(pair_start start i, Era); (as_u32 (pair_start start i + 1), Era)] in
    let connections := (λ i, Resolved (pair_start start i, 0) (as_u32 (pair_start start i + 1), 0)) <$> range_u batch_pairs in
    Some (mkAgentBatch batch_agents connections, mkEpIter (ep_size it) (pairs_per_batch it) (next_pair it + batch_pairs)).

(** The batches until the end; [None] is out of fuel. *)
Fixpoint ep_collect (fuel : nat) (it : EpAnnihilationIter) : option (list AgentBatch) :=
  match fuel with
  | O => None
  | S fuel => match ep_next it with
              | None => Some []
              | Some (b, it) => cons b <$> ep_collect fuel it
              end
  end.

Definition ep_annihilation_stream (size chunk_size : N) : EpAnnihilationIter :=
  mkEpIter size (N.max (chunk_size / 2) 1) 0.

(** ** The dual tree *)

(** [31 - (i + 1).leading_zeros()]. *)
Definition level_of (i : N) : N := if i =? 0 then 0 else N.log2 (i + 1).

(** Deepest level first, left to right inside a level. *)
Definition emitted_before (a b : N) : Prop := level_of b < level_of a ∨ (level_of b = level_of a ∧ a ≤ b).

#[export] Instance emitted_before_dec : RelDecision emitted_before.
Proof. intros a b. unfold emitted_before. apply _. Defined.

Definition tree_emission_order (nodes_per_tree : N) : list N := merge_sort emitted_before (range_u nodes_per_tree).

(** [id_map[level_order_idx] = emission_pos]. *)
Definition emission_ids (order : list N) (nodes_per_tree : N) : list N :=
  foldl (λ m e, <[N.to_nat (snd e) := N.of_nat (fst e)]> m) (replicate (N.to_nat nodes_per_tree) 0)
    (imap pair order).

Section tree.
Variables (nodes_per_tree : N) (id_map : list N).

Definition emission_id (lo : N) : N := default 0 (id_map !! N.to_nat lo).

Definition freeport_base : N := 2 * nodes_per_tree.

(** The wire from a node to its parent, [Resolved] when the parent is in the batch. *)
Definition parent_wire (in_batch : N → bool) (eid lo_idx offset : N) : list ConnectionDirective :=
  if 0 <? lo_idx then
    let parent_eid := emission_id ((lo_idx - 1) / 2) + offset in
    let parent_port := if lo_idx mod 2 =? 1 then 1 else 2 in
    [if in_batch parent_eid then Resolved (eid, 0) (parent_eid, parent_port) else Pending (eid, 0) parent_eid parent_port]
  else [].

(** A child position outside of the tree is an interface port. *)
Definition leaf_face (eid port child_lo fp_offset : N) : list ConnectionDirective :=
  if nodes_per_tree <=? child_lo then [FreePortInterface (eid, port) (freeport_base + fp_offset + (child_lo - nodes_per_tree))] else [].

Definition node_directives (in_batch : N → bool) (e : N * N) : list ConnectionDirective :=
  let '(eid, lo_idx) := e in
  let is_right := nodes_per_tree <=? eid in
  let offset := if is_right then nodes_per_tree else 0 in
  let fp_offset := if is_right then nodes_per_tree + 1 else 0 in
  parent_wire in_batch eid lo_idx offset ++
  leaf_face eid 1 (2 * lo_idx + 1) fp_offset ++ leaf_face eid 2 (2 * lo_idx + 2) fp_offset ++
  (if (eid =? emission_id 0) && negb is_right then [Pending (emission_id 0, 0) (nodes_per_tree + emission_id 0) 0] else []).

Definition tree_batch (batch_slice : list (N * N)) : AgentBatch :=
  let in_batch := λ id, existsb (λ e, fst e =? id) batch_slice in
  mkAgentBatch ((λ e, (fst e, Con)) <$> batch_slice) (batch_slice ≫= node_directives in_batch).

(** [while global_idx < total_nodes]. *)
Fixpoint slices (fuel : nat) (chunk_size : nat) (rest : list (N * N)) : option (list AgentBatch) :=
  match fuel with
  | O => None
  | S fuel =>
      match rest with
      | [] => Some []
      | _ => cons (tree_batch (take chunk_size rest)) <$> slices fuel chunk_size (drop chunk_size rest)
      end
  end.

End tree.

(** For a depth below 32. *)
Definition build_dual_tree_batches (fuel : nat) (depth : N) (chunk_size : nat) : option (list AgentBatch) :=
  if depth =? 0 then Some []
  else
    let nodes_per_tree := 2 ^ depth - 1 in
    let order := tree_emission_order nodes_per_tree in
    let id_map := emission_ids order nodes_per_tree in
    let ordered offset := (λ lo, (offset + emission_id id_map lo, lo)) <$> order in
    slices nodes_per_tree id_map fuel chunk_size (ordered 0 ++ ordered nodes_per_tree).

Definition dual_tree_stream (fuel : nat) (depth : N) (chunk_size : nat) : option (list AgentBatch) :=
  if depth =? 0 then Some [] else build_dual_tree_batches fuel depth chunk_size.

(** ** Monotonicity (debug builds) *)

(** The assertion of [R15MonotonicityChecker]: the batches' ids increase. *)
Fixpoint monotone_batches (last_max_id : option AgentId) (stream : list AgentBatch) : bool :=
  match stream with
  | [] => true
  | b :: stream =>
      match fst <$> batch_agents b with
      | [] => monotone_batches last_max_id stream
      | id :: ids =>
          let min_id := foldl N.min id ids in
          let max_id := foldl N.max id ids in
          match last_max_id with Some prev_max => prev_max <? min_id | None => true end &&
          monotone_batches (Some max_id) stream
      end
  end.

End Streams.
