(* ===== verification/StreamsSpec.v ===== *)
(** The streams of the generators are streams the partitioner accepts: a whole
    net in one batch, the pairs of erasers, the dual tree. *)
From S2P Require Import Prelude NetTypes NetCore NetInv NetDebug SparseNet Partition Split SplitInv Church Streaming StreamingInv StreamingRun StreamingSpec Streams.
Local Open Scope N_scope.
Open Scope net_scope.
Import Streaming Streams.

(** ** Lists of wires *)

Lemma elem_of_slots_of x W : x ∈ slots W ↔ ∃ c, c ∈ W ∧ (c.1 = x ∨ c.2 = x).
Proof.
  unfold slots. rewrite list_elem_of_bind. split; intros (c & H1 & H2).
  - exists c. split; [done|]. set_solver.
  - exists c. split; [|done]. set_solver.
Qed.

(** Wires between different slots that share no end use every slot once. *)
Lemma nodup_slots (W : list (Slot * Slot)) : NoDup W → (∀ c, c ∈ W → c.1 ≠ c.2) →
  (∀ c c' x, c ∈ W → c' ∈ W → c.1 = x ∨ c.2 = x → c'.1 = x ∨ c'.2 = x → c = c') → NoDup (slots W).
Proof.
  induction 1 as [|c W Hc Hnd IH]; intros Hne Hsh; [constructor|]. rewrite slots_cons.
  assert (Hout : ∀ x, c.1 = x ∨ c.2 = x → x ∉ slots W).
  { intros x Hx (c' & Hc' & Hx')%elem_of_slots_of. assert (c = c') as <- by (eapply Hsh; eauto; set_solver). done. }
  constructor; [|constructor; [apply Hout; by right|]].
  - intros [E|Hin]%elem_of_cons; [by apply (Hne c); [set_solver|]|]. by apply (Hout c.1); [left|].
  - apply IH; [intros d Hd; apply Hne; set_solver|]. intros d d' x Hd Hd'. apply Hsh; set_solver.
Qed.

Lemma omap_omap {A B D} (g : B → option D) (f : A → option B) (l : list A) : omap g (omap f l) = omap (λ x, f x ≫= g) l.
Proof. induction l as [|x l IH]; [done|]. cbn. destruct (f x) as [y|]; cbn; [destruct (g y); by rewrite IH|done]. Qed.

Lemma omap_ext_in {A B} (f g : A → option B) (l : list A) : (∀ x, x ∈ l → f x = g x) → omap f l = omap g l.
Proof.
  induction l as [|x l IH]; intros H; [done|]. cbn. rewrite (H x) by set_solver. rewrite IH by set_solver. done.
Qed.

(** ** A net as one batch *)

Section net.
Variable n : Net.
Hypothesis Hwf : wf n.

(** Every agent its own worker: the cuts are the wires between different agents. *)
Definition apart_all : gmap AgentId WorkerId := list_to_map ((λ x, (x.1, x.1)) <$> port_list n).

Lemma apart_all_lookup id p : valid_port n id p → apart_all !! id = Some id.
Proof using Hwf.
  intros Hv. unfold apart_all. destruct (list_to_map _ !! id) as [w|] eqn:E.
  - apply elem_of_list_to_map_2, list_elem_of_fmap in E as (x & [= -> ->] & _). done.
  - apply not_elem_of_list_to_map_2 in E. destruct E. apply list_elem_of_fmap. exists (id, id). split; [done|].
    apply list_elem_of_fmap. exists (id, p). split; [done|]. by apply elem_of_port_list.
Qed.

Definition at_slot (x : Slot) : option ConnectionDirective := port_directive n (N.to_nat x.1) x.2.

Lemma port_directive_target i p : p < 3 → port_directive n i p =
  match n.[N.of_nat i, p] with
  | AgentPort t q => if N.of_nat i <? t then Some (Resolved (N.of_nat i, p) (t, q)) else None
  | FreePort f => if f =? u32_MAX then None else Some (FreePortInterface (N.of_nat i, p) f)
  end.
Proof.
  intros Hp. unfold port_directive, get_target, port_index, PORTS_PER_SLOT.
  replace (N.to_nat (N.of_nat i * 3 + p)) with (i * N.to_nat 3 + N.to_nat p)%nat by lia.
  by destruct (ports n !! _) as [t|].
Qed.

Lemma omap_concat_imap {A B D} (h : B → option D) (f : nat → A → list B) l :
  omap h (concat (imap f l)) = concat (imap (λ i x, omap h (f i x)) l).
Proof.
  revert f. induction l as [|x l IH]; intros f; [done|]. cbn. rewrite omap_app. f_equal. apply (IH (λ i, f (S i))).
Qed.

Lemma concat_imap_ext {A B} (f g : nat → A → list B) l : (∀ i x, l !! i = Some x → f i x = g i x) →
  concat (imap f l) = concat (imap g l).
Proof. intros H. f_equal. apply imap_ext. exact H. Qed.

Lemma directives_net : directives (default_chunked_iter n) = omap at_slot (port_list n).
Proof using Hwf.
  unfold directives, default_chunked_iter. cbn. rewrite app_nil_r. unfold port_list. rewrite omap_concat_imap.
  apply concat_imap_ext. intros i [a|] Hi; [|done]. cbn [slot_directives]. rewrite (wf_index n i (Some a) Hwf Hi).
  generalize (range_u (total_ports (symbol a))) as l. induction l as [|p l IH]; [done|]. cbn. unfold at_slot. cbn [fst snd].
  rewrite Nat2N.id. by rewrite IH.
Qed.

Lemma at_slot_target x : x ∈ port_list n → at_slot x =
  match n.[x.1, x.2] with
  | AgentPort t q => if x.1 <? t then Some (Resolved x (t, q)) else None
  | FreePort f => if f =? u32_MAX then None else Some (FreePortInterface x f)
  end.
Proof using Hwf.
  destruct x as [id p]. intros Hx%elem_of_port_list; [|done]. unfold at_slot. cbn [fst snd].
  rewrite port_directive_target by eauto with net. by rewrite N2Nat.id.
Qed.

Lemma wires_net : wires (default_chunked_iter n) = cuts n apart_all.
Proof using Hwf.
  unfold wires, cuts. rewrite directives_net, omap_omap. apply omap_ext_in. intros [id p] Hx. rewrite at_slot_target by done.
  apply elem_of_port_list in Hx; [|done]. unfold cut. cbn [fst snd]. destruct (n.[id, p]) as [t q|f] eqn:E; cbn [mbind option_bind].
  - destruct (N.ltb_spec id t) as [Hlt|]; [|done]. cbn. destruct (wf_sym n Hwf id p t q ltac:(eauto with net) E) as (Hv & _ & _).
    rewrite (apart_all_lookup id p Hx), (apart_all_lookup t q Hv). rewrite decide_False; [done|]. intros [=]. lia.
  - by destruct (f =? u32_MAX).
Qed.

Definition face_at (x : Slot) : option (Slot * N) :=
  match n.[x.1, x.2] with FreePort f => if f =? u32_MAX then None else Some (x, f) | AgentPort _ _ => None end.

Lemma face_at_fst x e : face_at x = Some e → e.1 = x.
Proof. unfold face_at. destruct (n.[x.1, x.2]) as [|f]; [done|]. destruct (f =? u32_MAX); [done|]. by intros [= <-]. Qed.

Lemma faces_net : faces (default_chunked_iter n) = omap face_at (port_list n).
Proof using Hwf.
  unfold faces. rewrite directives_net, omap_omap. apply omap_ext_in. intros x Hx. rewrite at_slot_target by done. unfold face_at.
  destruct (n.[x.1, x.2]) as [t q|f]; cbn [mbind option_bind]; [by destruct (x.1 <? t)|by destruct (f =? u32_MAX)].
Qed.

Lemma agents_net : agents_of (default_chunked_iter n) = concat (imap slot_agent (agents n)).
Proof. apply app_nil_r. Qed.

Lemma elem_of_agents_net id s : (id, s) ∈ agents_of (default_chunked_iter n) ↔ ∃ a, get_agent n id = Some a ∧ symbol a = s.
Proof using Type.
  clear Hwf.
  rewrite agents_net, elem_of_concat_imap. unfold get_agent. split.
  - intros (i & [a|] & Hi & Hx); cbn in Hx; [|set_solver]. apply list_elem_of_singleton in Hx as [= -> ->].
    exists a. by rewrite Nat2N.id, Hi.
  - intros (a & Ha & <-). destruct (agents n !! N.to_nat id) as [[b|]|] eqn:E; simplify_eq/=.
    exists (N.to_nat id), (Some a). split; [done|]. cbn. rewrite N2Nat.id. set_solver.
Qed.

Lemma agents_net_nodup : NoDup (agents_of (default_chunked_iter n)).*1.
Proof using Type.
  rewrite agents_net.
  assert (H : (concat (imap slot_agent (agents n))).*1 = concat (imap (λ i s, (slot_agent i s).*1) (agents n))).
  { generalize slot_agent as f. induction (agents n) as [|x l IH]; intros f; [done|]. cbn. rewrite fmap_app. f_equal. apply (IH (λ i, f (S i))). }
  rewrite H. apply NoDup_concat_imap.
  - intros i [a|] _; cbn; [by apply NoDup_singleton|constructor].
  - intros i j x x' y _ _ Hy Hy'. destruct x, x'; cbn in *; try (by apply elem_of_nil in Hy); try (by apply elem_of_nil in Hy'). apply list_elem_of_singleton in Hy, Hy'. lia.
Qed.

Lemma elem_of_faces_net x f : (x, f) ∈ faces (default_chunked_iter n) ↔ valid_port n x.1 x.2 ∧ n.[x.1, x.2] = FreePort f ∧ f ≠ u32_MAX.
Proof using Hwf.
  rewrite faces_net, list_elem_of_omap. unfold face_at. split.
  - intros ([id p] & Hx%elem_of_port_list & Hf); [|done]. cbn [fst snd] in *. destruct (n.[id, p]) as [|g] eqn:E; [done|].
    destruct (N.eqb_spec g u32_MAX); [done|]. injection Hf as <- <-. done.
  - intros (Hv & E & Hf). exists x. split; [destruct x; by apply elem_of_port_list|]. rewrite E. by destruct (N.eqb_spec f u32_MAX).
Qed.

Lemma elem_of_wires_net x y : (x, y) ∈ wires (default_chunked_iter n) ↔ valid_port n x.1 x.2 ∧ n.[x.1, x.2] = AgentPort y.1 y.2 ∧ x.1 < y.1.
Proof using Hwf.
  rewrite wires_net, elem_of_cuts by done. unfold slot_port. split; [by intros (?&?&?&_)|]. intros (Hv & E & Hlt). split_and!; [done..|].
  destruct (wf_sym n Hwf _ _ _ _ ltac:(eauto with net) E) as (Hv' & _ & _).
  rewrite (apart_all_lookup _ _ Hv), (apart_all_lookup _ _ Hv'). intros [=]. lia.
Qed.

(** The net's agents fit the dense arena; no wire joins two ports of one agent;
    a label is a u32 and stands at one port. *)
Definition streamable : Prop :=
  N.of_nat (length (agents n)) ≤ Sparse.MAX_DENSE_ARENA_SLOTS ∧
  (∀ id p q, valid_port n id p → n.[id, p] ≠ AgentPort id q) ∧
  (∀ id p id' p' f, valid_port n id p → valid_port n id' p' → n.[id, p] = FreePort f → n.[id', p'] = FreePort f →
     f ≠ u32_MAX → (id, p) = (id', p')) ∧
  (∀ id p f, valid_port n id p → n.[id, p] = FreePort f → f ≤ u32_MAX).

Lemma port_list_length : (length (port_list n) <= 3 * length (agents n))%nat.
Proof.
  unfold port_list. assert (H : ∀ (f : nat → option Agent → list Slot) l, (∀ i s, (length (f i s) <= 3)%nat) →
    (length (concat (imap f l)) <= 3 * length l)%nat).
  { intros f l. revert f. induction l as [|x l IH]; intros f Hf; [done|]. cbn. rewrite length_app. specialize (IH (f ∘ S) (λ i, Hf (S i))).
    specialize (Hf 0%nat x). cbn in *. lia. }
  apply H. intros i [a|]; [|cbn; lia]. rewrite length_fmap. destruct (symbol a); vm_compute; lia.
Qed.

Lemma count_net : (length (wires (default_chunked_iter n)) + length (faces (default_chunked_iter n)) <= length (port_list n))%nat.
Proof using Hwf.
  unfold wires, faces. rewrite directives_net. induction (port_list n) as [|x l IH]; [cbn; lia|]. cbn.
  destruct (at_slot x) as [[]|]; cbn; lia.
Qed.

Lemma one_batch pre b post : default_chunked_iter n = pre ++ b :: post → pre = [] ∧ [b] = default_chunked_iter n.
Proof. destruct pre as [|c [|]]; cbn; intros [=]; subst; done. Qed.

Lemma end_valid c x : c ∈ wires (default_chunked_iter n) → c.1 = x ∨ c.2 = x → valid_port n x.1 x.2.
Proof using Hwf. intros Hc Hx. rewrite wires_net in Hc. by destruct (cut_ends n apart_all c x Hwf Hc Hx). Qed.

Lemma slots_net_nodup : NoDup (slots (wires (default_chunked_iter n))).
Proof using Hwf.
  rewrite wires_net. apply nodup_slots; [by apply cuts_nodup|..].
  - intros c Hc. destruct (cut_ends n apart_all c c.1 Hwf Hc) as (_ & _ & _ & ?); [by left|done].
  - intros c c' x [k Hk]%list_elem_of_lookup_1 [k' Hk']%list_elem_of_lookup_1 Hx Hx'.
    by destruct (border_of_cut n apart_all k k' c c' x Hwf Hk Hk' Hx Hx').
Qed.

Lemma faces_net_nodup : streamable → NoDup (faces (default_chunked_iter n)).*1 ∧ NoDup (faces (default_chunked_iter n)).*2.
Proof using Hwf.
  intros (_ & _ & Hone & _). assert (Hnd : NoDup (faces (default_chunked_iter n))).
  { rewrite faces_net. pose proof (port_list_nodup n Hwf) as Hp. induction Hp as [|x l Hx _ IH]; [constructor|]. cbn.
    destruct (face_at x) as [e|] eqn:E; [|done]. constructor; [|done]. intros (y & Hy & Ey)%list_elem_of_omap.
    apply face_at_fst in E as <-. apply face_at_fst in Ey as <-. done. }
  split; apply NoDup_fmap_2_strong; try done.
  - intros [x f] [y g] (_ & E & _)%elem_of_faces_net (_ & E' & _)%elem_of_faces_net; [|done..]. cbn [fst snd] in *. intros <-. congruence.
  - intros [[i p] f] [[i' p'] g] (Hv & E & Hf)%elem_of_faces_net (Hv' & E' & _)%elem_of_faces_net; [|done..]. cbn [fst snd] in *.
    intros <-. by rewrite (Hone _ _ _ _ _ Hv Hv' E E' Hf).
Qed.

Lemma known_port d id : d ∈ directives (default_chunked_iter n) → id ∈ known_ends d → live n id.
Proof using Hwf.
  rewrite directives_net. intros ([i p] & Hx & Hd)%list_elem_of_omap Hid. rewrite at_slot_target in Hd by done.
  apply elem_of_port_list in Hx; [|done]. cbn [fst snd] in *. destruct (n.[i, p]) as [t q|f] eqn:E.
  - destruct (i <? t); [|done]. injection Hd as <-. destruct (wf_sym n Hwf i p t q ltac:(eauto with net) E) as (Hv & _ & _).
    cbn in Hid. rewrite !elem_of_cons in Hid. destruct Hid as [->|[->|[]%elem_of_nil]]; eauto with net.
  - destruct (f =? u32_MAX); [done|]. injection Hd as <-. cbn in Hid. apply list_elem_of_singleton in Hid as ->. eauto with net.
Qed.

End net.

Lemma default_well_formed n : wf n → streamable n → well_formed (default_chunked_iter n).
Proof.
  intros Hwf Hs. destruct (faces_net_nodup n Hwf Hs) as [Hf1 Hf2]. destruct Hs as (Hsize & _ & _ & Hlabel).
  assert (Hcount : N.of_nat (length (wires (default_chunked_iter n)) + length (faces (default_chunked_iter n))) ≤ u32_MAX).
  { pose proof (count_net n Hwf). pose proof (port_list_length n). assert (Sparse.MAX_DENSE_ARENA_SLOTS = 16777216) as Hmax by done.
    assert (u32_MAX = 4294967295) as -> by done. rewrite Hmax in Hsize. lia. }
  split; [apply agents_net_nodup|..|done|done| |].
  - intros id ([id' s] & -> & (a & Ha & _)%elem_of_agents_net)%list_elem_of_fmap. cbn [fst]. unfold get_agent in Ha.
    destruct (agents n !! N.to_nat id') eqn:E; [|done]. apply lookup_lt_Some in E. lia.
  - apply NoDup_app. split; [by apply slots_net_nodup|]. split; [|done]. intros x (c & Hc & Hx)%elem_of_slots_of ([y f] & -> & Hy)%list_elem_of_fmap.
    apply (elem_of_faces_net n Hwf) in Hy as (_ & E & _). rewrite wires_net in Hc by done.
    destruct (cut_ends n _ c _ Hwf Hc Hx) as (_ & E' & _). cbn [fst] in E'. by rewrite E in E'.
  - intros x Hx. assert (Hv : valid_port n x.1 x.2).
    { apply elem_of_app in Hx as [(c & Hc & Hx)%elem_of_slots_of|([y f] & -> & (? & _)%elem_of_faces_net)%list_elem_of_fmap]; [by eapply end_valid|done|done]. }
    destruct Hv as (a & Ha & Hp). exists (symbol a). split; [|done]. apply elem_of_agents_net. by exists a.
  - intros pre b post Hpre f Hf. destruct (one_batch _ _ _ _ Hpre) as [-> Hb]. cbn. split; [lia|].
    assert (Hf' : f ∈ (faces (default_chunked_iter n)).*2).
    { rewrite <- Hb. unfold faces, directives. cbn [mbind list_bind]. by rewrite app_nil_r. }
    apply list_elem_of_fmap in Hf' as ([x g] & -> & (Hv & E & Hne)%elem_of_faces_net); [|done]. cbn [snd] in *. specialize (Hlabel _ _ _ Hv E). lia.
  - intros pre b post Hpre d id Hd Hid. destruct (one_batch _ _ _ _ Hpre) as [-> Hb]. cbn [app]. rewrite Hb.
    destruct (known_port n Hwf d id) as [a Ha]; [|done|].
    + rewrite <- Hb. unfold directives. cbn [mbind list_bind]. by rewrite app_nil_r.
    + apply list_elem_of_fmap. exists (id, symbol a). split; [done|]. apply elem_of_agents_net. by exists a.
Qed.

(** ** Pairs of erasers *)

Definition eraser_pair (i : N) : list (AgentId * Symbol) := [(2 * i, Era); (2 * i + 1, Era)].

Definition eraser_wire (i : N) : Slot * Slot := ((2 * i, 0), (2 * i + 1, 0)).

(** The pairs [m] to [m + k]. *)
Definition eraser_batch (m k : N) : AgentBatch :=
  mkAgentBatch (range_u k ≫= λ i, eraser_pair (m + i)) ((λ i, Resolved (eraser_wire (m + i)).1 (eraser_wire (m + i)).2) <$> range_u k).

Lemma range_u_add a b : range_u (a + b) = range_u a ++ (N.add a <$> range_u b).
Proof.
  unfold range_u. rewrite N2Nat.inj_add, seq_app, fmap_app. f_equal. rewrite Nat.add_0_l.
  rewrite <- (Nat.add_0_r (N.to_nat a)), <- fmap_add_seq, <- !list_fmap_compose. apply list_fmap_ext. intros i x _. cbn. lia.
Qed.

Lemma bind_range_add {B} (f : N → list B) a b : range_u (a + b) ≫= f = (range_u a ≫= f) ++ (range_u b ≫= λ i, f (a + i)).
Proof.
  rewrite range_u_add, bind_app. f_equal. generalize (range_u b) as l. induction l as [|x l IH]; [done|]. cbn. by rewrite IH.
Qed.

(** What the batches from pair [m] on hold, together. *)
Definition erasers_from (m k : N) (bs : list AgentBatch) : Prop :=
  agents_of bs = (range_u k ≫= λ i, eraser_pair (m + i)) ∧
  directives bs = (λ i, Resolved (eraser_wire (m + i)).1 (eraser_wire (m + i)).2) <$> range_u k ∧
  ∀ b, b ∈ bs → ∃ m k, b = eraser_batch m k.

Lemma erasers_cons m k k' bs : erasers_from (m + k) k' bs → erasers_from m (k + k') (eraser_batch m k :: bs).
Proof.
  intros (Ha & Hd & Hb). split_and!.
  - change (agents_of (?b :: bs)) with (batch_agents b ++ agents_of bs). rewrite bind_range_add, Ha. cbn. f_equal.
    apply list_bind_ext; [|done]. intros i. by rewrite N.add_assoc.
  - change (directives (?b :: bs)) with (connections b ++ directives bs). rewrite range_u_add, fmap_app, Hd, <- list_fmap_compose. cbn. f_equal.
    apply list_fmap_ext. intros i x _. cbn. by rewrite N.add_assoc.
  - intros b [->|Hin]%elem_of_cons; eauto.
Qed.

Lemma ep_next_batch size per m : m < size → 2 * size < 2 ^ 32 → per < 2 ^ 32 →
  ep_next (mkEpIter size per m) =
    Some (eraser_batch m (N.min per (size - m)), mkEpIter size per (m + N.min per (size - m))).
Proof.
  intros Hm Hs Hp. unfold ep_next. cbn [ep_size next_pair pairs_per_batch]. rewrite (proj2 (N.leb_gt _ _)) by done.
  rewrite (as_u32_small per) by (unfold u32_MAX; lia). set (k := N.min per (size - m)).
  assert (Hi : ∀ i, i ∈ range_u k → pair_start (as_u32 (m * 2)) i = 2 * (m + i) ∧ as_u32 (pair_start (as_u32 (m * 2)) i + 1) = 2 * (m + i) + 1).
  { intros i Hi%elem_of_range_u. subst k. unfold pair_start. rewrite !as_u32_small by (rewrite ?as_u32_small; unfold u32_MAX; lia). lia. }
  unfold eraser_batch. f_equal. f_equal. clearbody k. f_equal; revert Hi; generalize (range_u k) as l.
  - induction l as [|i l IH]; intros Hi; [done|]. cbn. destruct (Hi i ltac:(set_solver)) as [-> ->]. unfold eraser_pair. cbn.
    do 2 f_equal. apply IH. intros j Hj. apply Hi. set_solver.
  - intros l Hi. apply list_fmap_ext. intros j i Hj%list_elem_of_lookup_2. cbn. by destruct (Hi i Hj) as [-> ->].
Qed.

Lemma ep_collect_erasers size per : 2 * size < 2 ^ 32 → 0 < per < 2 ^ 32 → ∀ fuel m, m ≤ size → size - m < N.of_nat fuel →
  ∃ bs, ep_collect fuel (mkEpIter size per m) = Some bs ∧ erasers_from m (size - m) bs.
Proof.
  intros Hs Hp. induction fuel as [|fuel IH]; intros m Hm Hf; [lia|]. destruct (decide (m = size)) as [->|Hne].
  - exists []. cbn [ep_collect]. unfold ep_next. cbn [ep_size next_pair]. rewrite N.leb_refl, N.sub_diag. split; [done|].
    split_and!; [done|done|]. by intros b ?%elem_of_nil.
  - cbn [ep_collect]. rewrite ep_next_batch by lia. destruct (IH (m + N.min per (size - m))) as (bs & -> & H); [lia|lia|].
    eexists. split; [done|]. replace (size - m) with (N.min per (size - m) + (size - (m + N.min per (size - m)))) by lia.
    replace (N.min per (N.min per (size - m) + (size - (m + N.min per (size - m))))) with (N.min per (size - m)) by lia.
    by apply erasers_cons.
Qed.

Lemma elem_of_eraser_agents k x s : (x, s) ∈ (range_u k ≫= λ i, eraser_pair (0 + i)) ↔ s = Era ∧ x < 2 * k.
Proof.
  rewrite list_elem_of_bind. split.
  - intros (i & Hx & Hi%elem_of_range_u). unfold eraser_pair in Hx. rewrite !elem_of_cons in Hx.
    destruct Hx as [E|[E|[]%elem_of_nil]]; apply (f_equal fst) in E as Ex; apply (f_equal snd) in E; cbn [fst snd] in *; lia || (split; [done|lia]).
  - intros [-> Hx]. exists (x / 2). rewrite elem_of_range_u. split; [|apply N.Div0.div_lt_upper_bound; lia].
    pose proof (N.div_mod x 2 ltac:(done)) as Hdm. assert (Hlt : x mod 2 < 2) by by apply N.mod_lt.
    revert Hdm Hlt. generalize (x / 2), (x mod 2). intros d r -> Hr. unfold eraser_pair. rewrite !elem_of_cons.
    assert (r = 0 ∨ r = 1) as [->| ->] by lia; [left|right; left]; f_equal; lia.
Qed.

Lemma erasers_ids_nodup k : NoDup (range_u k ≫= λ i, eraser_pair (0 + i)).*1.
Proof.
  assert (Hp : ∀ l : list N, NoDup l → NoDup (l ≫= λ i, eraser_pair (0 + i)).*1 ∧ ∀ x, x ∈ (l ≫= λ i, eraser_pair (0 + i)).*1 → x / 2 ∈ l).
  { induction 1 as [|i l Hi _ [IH1 IH2]]; [split; [constructor|by intros x ?%elem_of_nil]|].
    assert (Hdiv : (2 * (0 + i)) / 2 = i ∧ (2 * (0 + i) + 1) / 2 = i).
    { rewrite N.add_0_l, (N.mul_comm 2 i). rewrite N.div_mul, N.div_add_l by done. change (1 / 2) with 0. lia. }
    cbn. destruct Hdiv as [D1 D2]. split.
    - constructor; [|constructor; [|done]].
      + intros [E|E%IH2]%elem_of_cons; [lia|]. by rewrite D1 in E.
      + intros E%IH2. by rewrite D2 in E.
    - intros x. rewrite !elem_of_cons. intros [->|[->|Hx]]; [left; lia|left; lia|right; by apply IH2]. }
  apply Hp, range_u_nodup.
Qed.

Lemma eraser_wires_inj i j x : (eraser_wire i).1 = x ∨ (eraser_wire i).2 = x → (eraser_wire j).1 = x ∨ (eraser_wire j).2 = x → i = j.
Proof. unfold eraser_wire. cbn [fst snd]. destruct x as [a p]. intros H H'. destruct H as [[= <- _]|[= <- _]], H' as [[= E _]|[= E _]]; lia. Qed.

Section erasers.
Variables (size : N) (bs : list AgentBatch).
Hypothesis Hbs : erasers_from 0 size bs.
Hypothesis Hsmall : 2 * size ≤ Sparse.MAX_DENSE_ARENA_SLOTS.

Lemma erasers_wires : wires bs = eraser_wire <$> range_u size.
Proof using Hbs.
  clear Hsmall.
  destruct Hbs as (_ & Hd & _). unfold wires. rewrite Hd. generalize (range_u size) as l. induction l as [|i l IH]; [done|]. cbn. by f_equal.
Qed.

Lemma erasers_faces : faces bs = [].
Proof using Hbs.
  clear Hsmall.
  destruct Hbs as (_ & Hd & _). unfold faces. rewrite Hd. generalize (range_u size) as l. induction l as [|i l IH]; [done|]. by cbn.
Qed.

Lemma erasers_resolved b d : b ∈ bs → d ∈ connections b → ∃ x y, d = Resolved x y ∧ x.1 ∈ (batch_agents b).*1 ∧ y.1 ∈ (batch_agents b).*1.
Proof using Hbs.
  clear Hsmall.
  destruct Hbs as (_ & _ & Hb). intros (m & k & ->)%Hb (i & -> & Hi)%list_elem_of_fmap. eexists _, _. split; [done|]. unfold eraser_wire. cbn [fst snd].
  split; apply list_elem_of_fmap; [exists (2 * (m + i), Era)|exists (2 * (m + i) + 1, Era)]; (split; [done|]); apply list_elem_of_bind; exists i;
    unfold eraser_pair; set_solver.
Qed.

Lemma batch_of pre b post : bs = pre ++ b :: post → b ∈ bs.
Proof using Type. clear Hbs Hsmall. intros ->. set_solver. Qed.

Lemma erasers_well_formed : well_formed bs.
Proof using Hbs Hsmall.
  assert (Sparse.MAX_DENSE_ARENA_SLOTS = 16777216) as Hmax by done. assert (u32_MAX = 4294967295) as Hu by done. rewrite Hmax in Hsmall.
  destruct Hbs as (Ha & _ & _). assert (Hin : ∀ x s, (x, s) ∈ agents_of bs ↔ s = Era ∧ x < 2 * size) by (intros; rewrite Ha; apply elem_of_eraser_agents).
  split; rewrite ?erasers_wires, ?erasers_faces, ?app_nil_r; cbn [fmap list_fmap].
  - rewrite Ha. apply erasers_ids_nodup.
  - intros id ([x s] & -> & [_ ?]%Hin)%list_elem_of_fmap. cbn [fst]. lia.
  - apply nodup_slots.
    + apply NoDup_fmap_2; [|apply range_u_nodup]. intros i j [= E _]. lia.
    + intros c (i & -> & _)%list_elem_of_fmap [= E]. lia.
    + intros c c' x (i & -> & _)%list_elem_of_fmap (j & -> & _)%list_elem_of_fmap H H'. by rewrite (eraser_wires_inj i j x H H').
  - intros x (c & (i & -> & Hi%elem_of_range_u)%list_elem_of_fmap & Hx)%elem_of_slots_of. exists Era. rewrite Hin.
    destruct Hx as [<-|<-]; cbn; split_and!; (done || lia).
  - rewrite length_fmap. unfold range_u. rewrite length_fmap, length_seq. cbn. lia.
  - constructor.
  - intros pre b post Hpre f ([x g] & -> & (d & Hd & Hf)%list_elem_of_omap)%list_elem_of_fmap.
    destruct (erasers_resolved b d (batch_of _ _ _ Hpre) Hd) as (? & ? & -> & _). done.
  - intros pre b post Hpre d id Hd Hid. rewrite agents_of_app, agents_of_one, fmap_app. apply elem_of_app. right.
    destruct (erasers_resolved b d (batch_of _ _ _ Hpre) Hd) as (? & ? & -> & ? & ?). cbn in Hid. set_solver.
Qed.

Lemma erasers_forward : forward bs.
Proof using Hbs.
  clear Hsmall.
  intros pre b post Hpre x id q Hd. by destruct (erasers_resolved b _ (batch_of _ _ _ Hpre) Hd) as (? & ? & [=] & _).
Qed.

End erasers.

(** ** The streams are accepted *)

(** C32. A well-formed net whose agents fit the dense arena, whose labels stand
    at one port each and that wires no two ports of one agent becomes one batch
    with exactly the net's agents, its wires from their smaller ends and its
    labelled ports; and the streaming partitioner, with any lawful strategy and
    a chunk size that streams, takes that batch without a panic: it returns
    partitions that hold the net's agents, wires and labels, or refuses because
    some worker's agents span more than four times their number, and for no
    other reason. *)
Theorem default_stream_faithful `{LawfulStrategy Strat} n k s chunk_size : wf n → streamable n →
  0 < k → lawful k s → chunk_size ≠ u32_MAX →
  let stream := default_chunked_iter n in
  (∀ id s, (id, s) ∈ agents_of stream ↔ ∃ a, get_agent n id = Some a ∧ symbol a = s) ∧
  (∀ x y, n.[x.1, x.2] = AgentPort y.1 y.2 → valid_port n x.1 x.2 → (x, y) ∈ wires stream ∨ (y, x) ∈ wires stream) ∧
  (∀ x y, (x, y) ∈ wires stream → n.[x.1, x.2] = AgentPort y.1 y.2) ∧
  (∀ x f, (x, f) ∈ faces stream ↔ valid_port n x.1 x.2 ∧ n.[x.1, x.2] = FreePort f ∧ f ≠ u32_MAX) ∧
  ∃ owner : gmap AgentId WorkerId, (∀ id, is_Some (owner !! id) ↔ live n id) ∧
    match generate_with_chunk_size stream k s chunk_size with
    | Done (inl c) => faithful stream k c owner
    | Done (inr e) => ∃ w, let ids := share stream owner w in
        4 * N.of_nat (length ids) < span ids ∧ e = PartitionArenaTooSparse w (span ids) (N.of_nat (length ids))
    | Panic => False
    end.
Proof.
  intros Hwf Hs Hk Hlaw Hchunk. cbn zeta. pose proof Hs as (_ & Hself & _).
  assert (Hag : ∀ id s, (id, s) ∈ agents_of (default_chunked_iter n) ↔ ∃ a, get_agent n id = Some a ∧ symbol a = s)
    by (intros id sym; by apply elem_of_agents_net).
  split; [exact Hag|]. split; [|split; [|split]].
  - intros x y E Hv. rewrite !(elem_of_wires_net n Hwf). destruct (wf_sym n Hwf _ _ _ _ (valid_port_lt3 _ _ _ Hv) E) as (Hv' & E' & _).
    destruct (N.lt_trichotomy x.1 y.1) as [|[Heq|]]; [by left| |by right]. destruct (Hself x.1 x.2 y.2 Hv). by rewrite E, Heq.
  - intros x y (_ & E & _)%elem_of_wires_net; done.
  - intros x f. by apply elem_of_faces_net.
  - assert (Hfw : forward (default_chunked_iter n)).
    { intros pre b post Hpre x id q Hd. destruct (one_batch _ _ _ _ Hpre) as [-> _]. apply not_elem_of_nil. }
    destruct (streaming_only_sparse_fails (default_chunked_iter n) k s chunk_size (default_well_formed n Hwf Hs) Hk Hlaw Hchunk Hfw)
      as (owner & Ho & Hrun). exists owner. split; [|exact Hrun]. intros id. rewrite Ho, list_elem_of_fmap. split.
    + intros ([i sym] & -> & (a & Ha & _)%Hag). by exists a.
    + intros [a Ha]. exists (id, symbol a). split; [done|]. apply Hag. by exists a.
Qed.

(** A constructor and a duplicator, wired at their principal ports and labelled
    0 to 3. *)
Definition crossing : Net :=
  connect (connect (connect (connect (connect (with_arena [Some (mkAgent Con 0); Some (mkAgent Dup 1)] (replicate 6 DISCONNECTED) (with_next_id 2 new))
    (AgentPort 0 0) (AgentPort 1 0)) (AgentPort 0 1) (FreePort 0)) (AgentPort 0 2) (FreePort 1)) (AgentPort 1 1) (FreePort 2)) (AgentPort 1 2) (FreePort 3).

Lemma crossing_ports id p : valid_port crossing id p →
  (id, p) ∈ [(0, 0); (0, 1); (0, 2); (1, 0); (1, 1); (1, 2)].
Proof.
  intros Hv. pose proof (valid_port_arena _ _ _ Hv) as Hid. pose proof (valid_port_lt3 _ _ _ Hv) as Hp. assert (length (agents crossing) = 2%nat) as El by (vm_compute; reflexivity). rewrite El in Hid.
  assert ((id = 0 ∨ id = 1) ∧ (p = 0 ∨ p = 1 ∨ p = 2)) as [[-> | ->] [-> |[-> | ->]]] by lia; set_solver.
Qed.

(** The label of a port is given by the port. *)
Lemma crossing_labels id p f : valid_port crossing id p → crossing.[id, p] = FreePort f → p ≠ 0 ∧ f = 2 * id + p - 1 ∧ id < 2 ∧ p < 3.
Proof.
  intros Hv%crossing_ports. rewrite !elem_of_cons, elem_of_nil in Hv.
  destruct Hv as [[= -> ->]|[[= -> ->]|[[= -> ->]|[[= -> ->]|[[= -> ->]|[[= -> ->]|[]]]]]]]; intros E; vm_compute in E; try discriminate E;
    injection E as <-; repeat split; discriminate.
Qed.

Lemma crossing_streamable : streamable crossing.
Proof.
  split; [vm_compute; discriminate|]. split_and!.
  - intros id p q Hv E. destruct (decide (p = 0)) as [->|Hp].
    + apply crossing_ports in Hv. rewrite !elem_of_cons, elem_of_nil in Hv.
      destruct Hv as [[= ->]|[[=]|[[=]|[[= ->]|[[=]|[[=]|[]]]]]]]; vm_compute in E; discriminate E.
    + apply crossing_ports in Hv. rewrite !elem_of_cons, elem_of_nil in Hv.
      destruct Hv as [[= -> ->]|[[= -> ->]|[[= -> ->]|[[= -> ->]|[[= -> ->]|[[= -> ->]|[]]]]]]]; try done; vm_compute in E; discriminate E.
  - intros id p id' p' f Hv Hv' E E' _. destruct (crossing_labels _ _ _ Hv E) as (? & ? & ? & ?). destruct (crossing_labels _ _ _ Hv' E') as (? & ? & ? & ?).
    assert (id = id' ∧ p = p') as [-> ->] by lia. done.
  - intros id p f Hv E. destruct (crossing_labels _ _ _ Hv E) as (? & ? & ? & ?). assert (u32_MAX = 4294967295) by done. lia.
Qed.

Lemma default_stream_faithful_witness :
  let stream := default_chunked_iter crossing in
  (∀ id s, (id, s) ∈ agents_of stream ↔ ∃ a, get_agent crossing id = Some a ∧ symbol a = s) ∧
  ∃ owner, match generate_with_chunk_size stream 2 two_workers 16 with
    | Done (inl c) => faithful stream 2 c owner
    | _ => False
    end.
Proof.
  assert (Hwf : wf crossing) by (apply wf_b_sound; vm_compute; reflexivity).
  destruct (default_stream_faithful crossing 2 two_workers 16 Hwf crossing_streamable) as (H1 & _ & _ & _ & owner & _ & H2);
    [lia|split; [lia|reflexivity]|discriminate|]. cbn zeta.
  split; [exact H1|]. exists owner. revert H2.
  assert (E : match generate_with_chunk_size (default_chunked_iter crossing) 2 two_workers 16 with Done (inl _) => true | _ => false end = true)
    by (vm_compute; reflexivity).
  destruct (generate_with_chunk_size _ _ _ _) as [[c|e]|]; [|discriminate E|discriminate E]. intros H2. exact H2.
Defined.

Import Church.

(** The wire of a numeral's inner abstraction joins two ports of one agent: the
    directive is only emitted when [id < tgt_id], so the numeral zero loses it. *)
Definition zero : Net := match encode_nat 0 with Done n => n | _ => new end.

Theorem self_wires_dropped :
  encode_nat 0 = Done zero ∧ zero.[1, 1] = AgentPort 1 2 ∧ zero.[1, 2] = AgentPort 1 1 ∧
  directives (default_chunked_iter zero) = [Resolved (0, 1) (2, 0); Resolved (0, 2) (1, 0)].
Proof. split_and!; vm_compute; reflexivity. Qed.

(** For at most 2^23 pairs the eraser stream ends, whatever the chunk size (below
    2^33: the pairs of a batch are counted in a u32), and is a stream the
    partitioner accepts: erasers 0 to [2 * size], wired in pairs. *)
Theorem eraser_stream_faithful size chunk_size fuel :
  2 * size ≤ Sparse.MAX_DENSE_ARENA_SLOTS → chunk_size < 2 ^ 33 → size < N.of_nat fuel →
  ∃ stream, ep_collect fuel (ep_annihilation_stream size chunk_size) = Some stream ∧
    well_formed stream ∧ forward stream ∧
    (∀ id s, (id, s) ∈ agents_of stream ↔ s = Era ∧ id < 2 * size) ∧
    wires stream = eraser_wire <$> range_u size ∧ faces stream = [].
Proof.
  intros Hsize Hchunk Hfuel. assert (Sparse.MAX_DENSE_ARENA_SLOTS = 16777216) as Hmax by done.
  assert (chunk_size / 2 < 2 ^ 32) by (apply N.Div0.div_lt_upper_bound; lia).
  destruct (ep_collect_erasers size (N.max (chunk_size / 2) 1) ltac:(lia) ltac:(lia) fuel 0 ltac:(lia) ltac:(lia)) as (bs & E & Hbs).
  rewrite N.sub_0_r in Hbs. exists bs. split; [exact E|]. split_and!.
  - by eapply erasers_well_formed.
  - by eapply erasers_forward.
  - intros id s. destruct Hbs as (-> & _). apply elem_of_eraser_agents.
  - by apply erasers_wires.
  - by eapply erasers_faces.
Qed.

Lemma eraser_stream_faithful_witness :
  ∃ stream, ep_collect 6 (ep_annihilation_stream 5 4) = Some stream ∧ length stream = 3%nat ∧ well_formed stream.
Proof.
  destruct (eraser_stream_faithful 5 4 6 ltac:(vm_compute; discriminate) ltac:(lia) ltac:(lia)) as (s & E & Hw & _).
  exists s. split; [exact E|]. split; [|exact Hw]. vm_compute in E. injection E as <-. reflexivity.
Defined.

(** 2^32 pairs to a batch are none: the iterator yields empty batches forever. *)
Theorem eraser_stream_stuck size fuel : 0 < size → ep_collect fuel (ep_annihilation_stream size (2 ^ 33)) = None.
Proof.
  intros Hs. unfold ep_annihilation_stream. replace (N.max (2 ^ 33 / 2) 1) with (2 ^ 32) by done.
  induction fuel as [|fuel IH]; [done|]. cbn [ep_collect]. unfold ep_next. cbn [ep_size next_pair pairs_per_batch].
  rewrite (proj2 (N.leb_gt _ _)) by done. change (N.min (as_u32 (2 ^ 32)) (size - 0)) with (N.min 0 (size - 0)).
  rewrite N.min_0_l. change (0 + 0) with 0. by rewrite IH.
Qed.

(** ** The dual tree *)

Definition tree_ok (depth : N) (chunk_size : nat) : bool :=
  match dual_tree_stream 40 depth chunk_size with
  | Some stream => check_stream stream && monotone_batches None stream &&
                   (N.of_nat (length (agents_of stream)) =? 2 * (2 ^ depth - 1))
  | None => false
  end.

Lemma trees_checked : forallb (λ d, forallb (tree_ok d) (seq 1 31)) [1; 2; 3; 4] = true.
Proof. vm_compute. reflexivity. Qed.

(** Dual trees up to depth 4, in batches of any size up to the whole net, are
    streams the partitioner accepts, with increasing ids. *)
Theorem dual_tree_stream_accepted depth chunk_size : 1 ≤ depth ≤ 4 → (1 <= chunk_size <= 31)%nat →
  ∃ stream, dual_tree_stream 40 depth chunk_size = Some stream ∧ well_formed stream ∧
    monotone_batches None stream = true ∧ N.of_nat (length (agents_of stream)) = 2 * (2 ^ depth - 1).
Proof.
  intros Hd Hc. pose proof trees_checked as H. rewrite forallb_forall in H.
  assert (Hin : depth ∈ [1; 2; 3; 4]) by (rewrite !elem_of_cons; lia). apply list_elem_of_In, H in Hin. rewrite forallb_forall in Hin.
  specialize (Hin chunk_size). rewrite in_seq in Hin. specialize (Hin ltac:(lia)). unfold tree_ok in Hin.
  destruct (dual_tree_stream 40 depth chunk_size) as [stream|]; [|discriminate]. exists stream.
  apply andb_prop in Hin as [[Hs Hm]%andb_prop Hn%N.eqb_eq]. split_and!; [done|by apply check_stream_ok|done|done].
Qed.

(** The error of partitioning the dual tree between two workers, each wire
    waiting at most [life] batches. *)
Definition tree_error (depth : N) (chunk_size : nat) (life : N) : option PartitionError :=
  match dual_tree_stream 40 depth chunk_size with
  | Some stream =>
      match generate_with_chunk_size_and_lifetime stream 2 two_workers (N.of_nat chunk_size) life with Done (inr e) => Some e | _ => None end
  | None => None
  end.

(** The documented bound on the wait, [ceil (2 ^ (depth - 1) / chunk_size)], is
    4 at depth 4 and chunk size 2; the wire between the roots waits longer. *)
Theorem dual_tree_lifetime_too_small :
  tree_error 4 2 4 = Some (PendingConnectionExpired 29 5 4) ∧ tree_error 4 2 6 = Some (PendingConnectionExpired 29 7 6) ∧
  tree_error 4 2 7 = None.
Proof. split_and!; vm_compute; reflexivity. Qed.
