(* ===== verification/TextDsl.v ===== *)
(** The text format of nets (io/text_dsl.rs) and the summary of a net
    (io/types.rs).

    A text is the list of its Unicode scalar values; the messages of the parser
    are constructors with the values they print. *)
From stdpp Require Import strings.
From S2P Require Import Prelude NetTypes NetCore Lambda.
Local Open Scope N_scope.

Module TextDsl.
Import Lambda.

Definition text : Type := list N.

Definition NEWLINE : N := 10.
Definition RETURN : N := 13.
Definition HASH : N := 35.
Definition PLUS : N := 43.

(** ** Lines and tokens *)

(** [s.split(sep)], pieces in order; never empty. *)
Fixpoint split_on (sep : N) (s : text) : list text :=
  match s with
  | [] => [[]]
  | c :: s =>
      if c =? sep then [] :: split_on sep s
      else match split_on sep s with piece :: rest => (c :: piece) :: rest | [] => [[c]] end
  end.

Definition strip_return (line : text) : text :=
  match last line with Some c => if c =? RETURN then removelast line else line | None => line end.

(** [str::lines]: the text after the last newline is a line when it is not empty. *)
Definition lines (s : text) : list text :=
  let pieces := split_on NEWLINE s in
  let unterminated := default [] (last pieces) in
  (strip_return <$> removelast pieces) ++ (match unterminated with [] => [] | _ => [unterminated] end).

Definition trim (s : text) : text := reverse (skip_ws (reverse (skip_ws s))).

(** The word being read, and the words after it. *)
Fixpoint words (s : text) : text * list text :=
  match s with
  | [] => ([], [])
  | c :: s =>
      let '(word, rest) := words s in
      if is_whitespace c then ([], if bool_decide (word = []) then rest else word :: rest)
      else (c :: word, rest)
  end.

Definition split_whitespace (s : text) : list text :=
  let '(word, rest) := words s in if bool_decide (word = []) then rest else word :: rest.

Definition starts_with_hash (s : text) : bool := match s with c :: _ => c =? HASH | [] => false end.

(** The tokens of a line that is neither blank nor a comment. *)
Definition line_tokens (i : nat) (line : text) : option (N * list text) :=
  let line := trim line in
  if bool_decide (line = []) || starts_with_hash line then None
  else match split_whitespace line with [] => None | tokens => Some (N.of_nat i + 1, tokens) end.

Definition statements (input : text) : list (N * list text) := omap id (imap line_tokens (lines input)).

(** ** Tokens *)

Inductive IcError : Type :=
  | AgentArity (line : N) | UnknownSymbol (line : N) (s : text) | DuplicateAgent (line : N) (name : text)
  | WireArity (line : N) | SelfWire (line : N) | FreeToFree (line : N)
  | DuplicateRoot (line : N) | RootArity (line : N) | UnknownKeyword (line : N) (keyword : text)
  | InvalidFreePort (line : N) (inner : text) | InvalidPortRef (line : N) (s : text)
  | UnknownAgent (line : N) (name : text) | EraPort (line : N) (name : text) | UnknownPortName (line : N) (name : text).

Definition is_digit (c : N) : bool := in_range 48 57 c.

Definition digits_value (s : text) : N := foldl (λ x c, 10 * x + (c - 48)) 0 s.

(** [str::parse::<u32>]. *)
Definition parse_u32 (s : text) : option N :=
  let s := match s with c :: rest => if c =? PLUS then rest else s | [] => s end in
  if bool_decide (s = []) || negb (forallb is_digit s) then None
  else let x := digits_value s in if x <=? u32_MAX then Some x else None.

Fixpoint strip_prefix (p s : text) : option text :=
  match p, s with
  | [], _ => Some s
  | x :: p, y :: s => if x =? y then strip_prefix p s else None
  | _ :: _, [] => None
  end.

Definition strip_close (s : text) : option text :=
  match last s with Some c => if c =? RPAREN then Some (removelast s) else None | None => None end.

(** [s.splitn(2, '.')] with two parts. *)
Fixpoint split_once (s : text) : option (text * text) :=
  match s with
  | [] => None
  | c :: s => if c =? DOT then Some ([], s) else '(a, b) ← split_once s; Some (c :: a, b)
  end.

Definition CON : text := chars "CON"%string.
Definition DUP : text := chars "DUP"%string.
Definition ERA : text := chars "ERA"%string.

Definition parse_symbol (s : text) (line : N) : Symbol + IcError :=
  if bool_decide (s = CON) then inl Con else if bool_decide (s = DUP) then inl Dup
  else if bool_decide (s = ERA) then inl Era else inr (UnknownSymbol line s).

Definition parse_port_name (name : text) (line : N) : PortId + IcError :=
  if bool_decide (name = chars "principal"%string ∨ name = chars "p0"%string) then inl 0
  else if bool_decide (name = chars "left"%string ∨ name = chars "p1"%string) then inl 1
  else if bool_decide (name = chars "right"%string ∨ name = chars "p2"%string) then inl 2
  else inr (UnknownPortName line name).

Definition parse_port_ref (s : text) (names : gmap text AgentId) (net : Net) (line : N) : PortRef + IcError :=
  match strip_prefix (chars "free("%string) s ≫= strip_close with
  | Some inner => match parse_u32 inner with Some id => inl (FreePort id) | None => inr (InvalidFreePort line inner) end
  | None =>
      match split_once s with
      | None => inr (InvalidPortRef line s)
      | Some (agent_name, port_name) =>
          match names !! agent_name with
          | None => inr (UnknownAgent line agent_name)
          | Some agent_id =>
              match parse_port_name port_name line with
              | inr e => inr e
              | inl port_id =>
                  match get_agent net agent_id with
                  | Some agent =>
                      if bool_decide (symbol agent = Era) && (0 <? port_id) then inr (EraPort line agent_name)
                      else inl (AgentPort agent_id port_id)
                  | None => inl (AgentPort agent_id port_id)
                  end
              end
          end
      end
  end.

(** ** The parser *)

Definition AGENT : text := chars "agent"%string.
Definition WIRE : text := chars "wire"%string.
Definition ROOT : text := chars "root"%string.

(** Pass 1 on one line. *)
Definition declare (st : Net * gmap text AgentId) (line : N) (tokens : list text) : outcome ((Net * gmap text AgentId) + IcError) :=
  let '(net, names) := st in
  match tokens with
  | keyword :: args =>
      if bool_decide (keyword = AGENT) then
        match args with
        | [name; sym] =>
            match parse_symbol sym line with
            | inr e => mret (inr e)
            | inl symbol =>
                if bool_decide (is_Some (names !! name)) then mret (inr (DuplicateAgent line name))
                else '(net, id) ← create_agent net symbol; mret (inl (net, <[name := id]> names))
            end
        | _ => mret (inr (AgentArity line))
        end
      else mret (inl st)
  | [] => mret (inl st)
  end.

(** Pass 2 on one line; the flag is [root_set]. *)
Definition wire (names : gmap text AgentId) (st : Net * bool) (line : N) (tokens : list text) : (Net * bool) + IcError :=
  let '(net, root_set) := st in
  match tokens with
  | keyword :: args =>
      if bool_decide (keyword = AGENT) then inl st
      else if bool_decide (keyword = WIRE) then
        match args with
        | [a; b] =>
            match parse_port_ref a names net line with
            | inr e => inr e
            | inl port_a =>
                match parse_port_ref b names net line with
                | inr e => inr e
                | inl port_b =>
                    if bool_decide (port_a = port_b) then inr (SelfWire line)
                    else match port_a, port_b with
                         | FreePort _, FreePort _ => inr (FreeToFree line)
                         | _, _ => inl (connect net port_a port_b, root_set)
                         end
                end
            end
        | _ => inr (WireArity line)
        end
      else if bool_decide (keyword = ROOT) then
        if root_set then inr (DuplicateRoot line)
        else match args with
             | [r] =>
                 match parse_port_ref r names net line with
                 | inr e => inr e
                 | inl port_ref => inl (with_root (Some port_ref) net, true)
                 end
             | _ => inr (RootArity line)
             end
      else inr (UnknownKeyword line keyword)
  | [] => inl st
  end.

Fixpoint declare_all (st : Net * gmap text AgentId) (l : list (N * list text)) : outcome ((Net * gmap text AgentId) + IcError) :=
  match l with
  | [] => mret (inl st)
  | (line, tokens) :: l =>
      r ← declare st line tokens;
      match r with inl st => declare_all st l | inr e => mret (inr e) end
  end.

Fixpoint wire_all (names : gmap text AgentId) (st : Net * bool) (l : list (N * list text)) : (Net * bool) + IcError :=
  match l with
  | [] => inl st
  | (line, tokens) :: l => match wire names st line tokens with inl st => wire_all names st l | inr e => inr e end
  end.

Definition parse_ic (input : text) : outcome (Net + IcError) :=
  r ← declare_all (new, ∅) (statements input);
  match r with
  | inr e => mret (inr e)
  | inl (net, names) =>
      mret (match wire_all names (net, false) (statements input) with inl (net, _) => inl net | inr e => inr e end)
  end.

(** ** The printer *)

Definition format_symbol (s : Symbol) : text := match s with Con => CON | Dup => DUP | Era => ERA end.

Definition agent_name (id : AgentId) : text := 97 :: decimal id.

Definition port_name (p : PortId) : text :=
  if p =? 0 then chars "principal"%string else if p =? 1 then chars "left"%string
  else if p =? 2 then chars "right"%string else chars "p?"%string.

Definition format_port_ref (r : PortRef) : text :=
  match r with
  | AgentPort id p => agent_name id ++ [DOT] ++ port_name p
  | FreePort id => chars "free("%string ++ decimal id ++ [RPAREN]
  end.

Definition USIZE_MAX : N := 2 ^ 64 - 1.

Definition wire_key (src : AgentId * PortId) (target : PortRef) : N * N :=
  let src_idx := src.1 * 3 + src.2 in
  let target_idx := match target with AgentPort id p => id * 3 + p | FreePort _ => USIZE_MAX end in
  if src_idx <? target_idx then (src_idx, target_idx) else (target_idx, src_idx).

Definition agent_line (a : Agent) : text :=
  chars "agent "%string ++ agent_name (agent_id a) ++ [SPACE] ++ format_symbol (symbol a) ++ [NEWLINE].

Definition wire_line (src : AgentId * PortId) (target : PortRef) : text :=
  chars "wire "%string ++ format_port_ref (AgentPort src.1 src.2) ++ [SPACE] ++ format_port_ref target ++ [NEWLINE].

(** One port: [emitted] holds the keys written so far. *)
Definition format_port (n : Net) (st : text * gset (N * N)) (src : AgentId * PortId) : text * gset (N * N) :=
  let '(out, emitted) := st in
  match ports n !! N.to_nat (src.1 * 3 + src.2) with
  | None => st
  | Some target =>
      let key := wire_key src target in
      if decide (key ∈ emitted) then st else (out ++ wire_line src target, {[key]} ∪ emitted)
  end.

Definition agent_slots (a : Agent) : list (AgentId * PortId) := (λ p, (agent_id a, p)) <$> range_u (arity (symbol a) + 1).

Definition format_ic (n : Net) : text :=
  let out := live_agents n ≫= agent_line in
  let '(out, _) := foldl (format_port n) (out, ∅) (live_agents n ≫= agent_slots) in
  match root n with
  | Some r => out ++ chars "root "%string ++ format_port_ref r ++ [NEWLINE]
  | None => out
  end.

(** ** The summary *)

Record NetSummary : Type := mkSummary {
  sm_agents : nat; sm_wires : nat; sm_redexes : nat; sm_con : nat; sm_dup : nat; sm_era : nat; sm_free_ports : nat; sm_normal_form : bool;
}.

Definition count_agents_by_symbol (n : Net) (s : Symbol) : nat := length (filter (λ a, symbol a = s) (live_agents n)).

(** [(wires, free_ports)] after one port. *)
Definition count_port (n : Net) (c : nat * nat) (src : AgentId * PortId) : nat * nat :=
  let idx := src.1 * 3 + src.2 in
  match ports n !! N.to_nat idx with
  | Some (AgentPort target_id target_port) => if idx <? target_id * 3 + target_port then (S c.1, c.2) else c
  | Some (FreePort _) => (c.1, S c.2)
  | None => c
  end.

Definition net_summary (n : Net) : NetSummary :=
  let '(wires, free_ports) := foldl (count_port n) (0, 0)%nat (live_agents n ≫= agent_slots) in
  let redexes := length (redex_queue n) in
  mkSummary (count_live_agents n) wires redexes (count_agents_by_symbol n Con) (count_agents_by_symbol n Dup)
    (count_agents_by_symbol n Era) free_ports (redexes =? 0)%nat.

End TextDsl.
