(* ===== verification/TextInv.v ===== *)
(** Lines, tokens and numbers of the text format of nets: what the parser reads
    from what the printer writes. *)
From stdpp Require Import strings.
From S2P Require Import Prelude NetTypes NetCore Lambda LambdaText TextDsl.
Local Open Scope N_scope.
Import Lambda TextDsl.

(** ** Words *)

(** A word of the format: not empty, no white space. *)
Definition plain (t : text) : Prop := t ≠ [] ∧ Forall (λ c, is_whitespace c = false) t.

Definition join (t : text) (ts : list text) : text := t ++ (ts ≫= λ u, SPACE :: u).

Lemma words_app t s : Forall (λ c, is_whitespace c = false) t → words (t ++ s) = (t ++ (words s).1, (words s).2).
Proof.
  induction 1 as [|c t Hc _ IH]; [cbn [app]; by destruct (words s)|]. cbn [app words]. by rewrite IH, Hc.
Qed.

Lemma split_words s : split_whitespace s = if bool_decide ((words s).1 = []) then (words s).2 else (words s).1 :: (words s).2.
Proof. unfold split_whitespace. by destruct (words s). Qed.

Lemma words_join t ts : plain t → Forall plain ts → words (join t ts) = (t, ts).
Proof.
  intros [_ Ht] Hts. revert t Ht. induction Hts as [|u ts [Hne Hu] _ IH]; intros t Ht; unfold join.
  - rewrite words_app by done. cbn. by rewrite app_nil_r.
  - rewrite words_app by done. change ((u :: ts) ≫= λ u, SPACE :: u) with (SPACE :: (u ++ (ts ≫= λ u, SPACE :: u))).
    cbn [words]. fold (join u ts). rewrite (IH u Hu). cbn. rewrite bool_decide_eq_false_2 by done. cbn. by rewrite app_nil_r.
Qed.

Lemma split_join t ts : plain t → Forall plain ts → split_whitespace (join t ts) = t :: ts.
Proof. intros Ht Hts. rewrite split_words, words_join by done. cbn. destruct Ht as [Hne _]. by rewrite bool_decide_eq_false_2. Qed.

Lemma plain_first t : plain t → ∃ c r, t = c :: r ∧ is_whitespace c = false.
Proof. intros [Hne Ht]. destruct t as [|c r]; [done|]. apply Forall_cons in Ht as [Hc _]. eauto. Qed.

Lemma plain_last t : plain t → ∃ r c, t = r ++ [c] ∧ is_whitespace c = false.
Proof.
  intros [Hne Ht]. destruct t as [|c r _] using rev_ind; [done|]. apply Forall_app in Ht as [_ Ht]. apply Forall_cons in Ht as [Hc _]. eauto.
Qed.

Lemma join_last t ts : plain t → Forall plain ts → ∃ r c, join t ts = r ++ [c] ∧ is_whitespace c = false.
Proof.
  intros Ht Hts. unfold join. destruct ts as [|u ts _] using rev_ind.
  - cbn. rewrite app_nil_r. by apply plain_last.
  - apply Forall_app in Hts as [_ Hu]. apply Forall_cons in Hu as [Hu _]. destruct (plain_last u Hu) as (r & c & -> & Hc).
    rewrite bind_app. cbn. rewrite app_nil_r. exists (t ++ (ts ≫= λ u, SPACE :: u) ++ SPACE :: r), c. split; [|done].
    by rewrite <- !app_assoc.
Qed.

Lemma trim_join t ts : plain t → Forall plain ts → trim (join t ts) = join t ts.
Proof.
  intros Ht Hts. destruct (join_last t ts Ht Hts) as (r & c & E & Hc). destruct (plain_first t Ht) as (c0 & r0 & -> & Hc0).
  unfold trim. unfold join at 1. cbn [app]. rewrite skip_ws_id by done. fold (app (c0 :: r0) (ts ≫= λ u, SPACE :: u)).
  change (c0 :: r0 ++ (ts ≫= λ u, SPACE :: u)) with (join (c0 :: r0) ts). rewrite E, reverse_app. cbn [reverse rev_append app].
  rewrite skip_ws_id by done. rewrite reverse_cons, reverse_involutive. done.
Qed.

(** ** Lines *)

(** A printed line: its tokens and a newline. *)
Definition printed (ts : text * list text) : text := join ts.1 ts.2 ++ [NEWLINE].

Definition writable (ts : text * list text) : Prop := plain ts.1 ∧ Forall plain ts.2 ∧ starts_with_hash ts.1 = false.

Lemma white_newline : is_whitespace NEWLINE = true ∧ is_whitespace RETURN = true ∧ is_whitespace SPACE = true.
Proof. done. Qed.

Lemma split_on_app sep l s : sep ∉ l → split_on sep (l ++ sep :: s) = l :: split_on sep s.
Proof.
  induction l as [|c l IH]; intros Hl; cbn; [by rewrite N.eqb_refl|]. apply not_elem_of_cons in Hl as [Hc Hl].
  rewrite IH by done. destruct (N.eqb_spec c sep); [congruence|done].
Qed.

Lemma plain_not_in t c : plain t → is_whitespace c = true → c ∉ t.
Proof. intros [_ Ht] Hc Hin. rewrite Forall_forall in Ht. by rewrite Ht in Hc. Qed.

Lemma join_no_newline t ts : plain t → Forall plain ts → NEWLINE ∉ join t ts.
Proof.
  intros Ht Hts. unfold join. rewrite elem_of_app, list_elem_of_bind. intros [Hin|(u & Hin & Hu)].
  - by eapply plain_not_in in Hin.
  - rewrite Forall_forall in Hts. apply elem_of_cons in Hin as [E|Hin]; [done|]. eapply plain_not_in in Hin; eauto.
Qed.

Lemma strip_return_join t ts : plain t → Forall plain ts → strip_return (join t ts) = join t ts.
Proof.
  intros Ht Hts. destruct (join_last t ts Ht Hts) as (r & c & E & Hc). unfold strip_return. rewrite E, last_snoc.
  destruct (N.eqb_spec c RETURN) as [->|]; [done|done].
Qed.

Lemma split_printed TS : Forall writable TS → split_on NEWLINE (concat (printed <$> TS)) = ((λ ts, join ts.1 ts.2) <$> TS) ++ [[]].
Proof.
  induction 1 as [|ts TS (Ht & Hts & _) _ IH]; [done|]. cbn [fmap list_fmap concat]. unfold printed at 1. rewrite <- app_assoc.
  cbn [app]. rewrite split_on_app by (by apply join_no_newline). by rewrite IH.
Qed.

Lemma lines_printed TS : Forall writable TS → lines (concat (printed <$> TS)) = (λ ts, join ts.1 ts.2) <$> TS.
Proof.
  intros H. unfold lines. rewrite (split_printed TS H), last_snoc, removelast_last. cbn. rewrite app_nil_r.
  induction H as [|ts TS (Ht & Hts & _) _ IH]; [done|]. cbn. rewrite strip_return_join by done. by f_equal.
Qed.

Lemma line_tokens_join i ts : writable ts → line_tokens i (join ts.1 ts.2) = Some (N.of_nat i + 1, ts.1 :: ts.2).
Proof.
  intros (Ht & Hts & Hh). unfold line_tokens. rewrite trim_join, split_join by done.
  destruct (plain_first _ Ht) as (c & r & E & _). unfold join. rewrite E in *. cbn in *. rewrite Hh. done.
Qed.

Lemma statements_printed TS : Forall writable TS →
  statements (concat (printed <$> TS)) = imap (λ i ts, (N.of_nat i + 1, ts.1 :: ts.2)) TS.
Proof.
  intros H. unfold statements. rewrite lines_printed by done. rewrite imap_fmap.
  assert (Hg : ∀ g, (∀ i ts, writable ts → line_tokens (g i) (join ts.1 ts.2) = Some (N.of_nat (g i) + 1, ts.1 :: ts.2)) →
    omap id (imap (λ i ts, line_tokens (g i) (join ts.1 ts.2)) TS) = imap (λ i ts, (N.of_nat (g i) + 1, ts.1 :: ts.2)) TS).
  { induction H as [|ts TS Hw _ IH]; intros g Hg; [done|]. cbn. rewrite Hg by done. f_equal. apply (IH (g ∘ S)). intros i ts' Hts'. by apply Hg. }
  apply (Hg id). intros i ts. apply line_tokens_join.
Qed.

(** ** Numbers *)

Definition digit_step (x c : N) : N := 10 * x + (c - 48).

Lemma digits_value_acc u : ∀ p, foldl digit_step (N.pos p) (digits u) = N.pos (Pos.of_uint_acc u p).
Proof. induction u; intros p; cbn [digits foldl Pos.of_uint_acc]; [done|..]; rewrite <- IHu; f_equal; unfold digit_step; lia. Qed.

Lemma digits_value_uint u : digits_value (digits u) = N.of_uint u.
Proof.
  unfold digits_value. change (λ x c : N, 10 * x + (c - 48)) with digit_step. unfold N.of_uint.
  induction u; cbn [digits foldl Pos.of_uint]; [done|exact IHu|..]; rewrite <- digits_value_acc; f_equal.
Qed.

Lemma digits_are_digits u : Forall (λ c, is_digit c = true) (digits u).
Proof. induction u; cbn; constructor; done. Qed.

Lemma decimal_not_nil x : decimal x ≠ [].
Proof.
  unfold decimal. intros E. assert (N.to_uint x = Decimal.Nil) as E' by (by destruct (N.to_uint x)).
  pose proof (DecimalN.Unsigned.of_to x) as H. rewrite E' in H. destruct x; [done|]. done.
Qed.

Lemma digit_plain c : is_digit c = true → is_whitespace c = false ∧ c ≠ DOT ∧ c ≠ PLUS.
Proof.
  unfold is_digit, in_range. rewrite andb_true_iff, !N.leb_le. intros H. split_and!; [|unfold DOT; lia|unfold PLUS; lia].
  apply ident_not_ws. chars. rewrite !orb_true_iff, !andb_true_iff, !N.leb_le. lia.
Qed.

Lemma decimal_digits_all x : Forall (λ c, is_digit c = true) (decimal x).
Proof. apply digits_are_digits. Qed.

Lemma parse_decimal x : x ≤ u32_MAX → parse_u32 (decimal x) = Some x.
Proof.
  intros Hx. pose proof (decimal_digits_all x) as Hd. pose proof (decimal_not_nil x) as Hne.
  assert (Hv : digits_value (decimal x) = x) by (unfold decimal; by rewrite digits_value_uint, DecimalN.Unsigned.of_to).
  assert (Hf : forallb is_digit (decimal x) = true) by (apply forallb_forall; intros c Hc%list_elem_of_In; rewrite Forall_forall in Hd; auto).
  unfold parse_u32. destruct (decimal x) as [|c r]; [done|]. apply Forall_cons in Hd as [Hc _]. destruct (digit_plain c Hc) as (_ & _ & Hp).
  destruct (N.eqb_spec c PLUS); [done|]. rewrite Hf, Hv. cbn. by rewrite (proj2 (N.leb_le _ _)).
Qed.

(** ** Names and ports *)

Lemma decimal_inj x y : decimal x = decimal y → x = y.
Proof.
  intros E. apply DecimalN.Unsigned.to_uint_inj. unfold decimal in E. revert E. generalize (N.to_uint x), (N.to_uint y).
  induction u; intros [] [=]; f_equal; auto.
Qed.

Lemma agent_name_inj x y : agent_name x = agent_name y → x = y.
Proof. intros [= E]. by apply decimal_inj. Qed.

Lemma agent_name_plain id : plain (agent_name id) ∧ DOT ∉ agent_name id.
Proof.
  pose proof (decimal_digits_all id) as Hd. unfold agent_name. split.
  - split; [done|]. constructor; [done|]. eapply Forall_impl; [exact Hd|]. intros c Hc. by apply digit_plain.
  - rewrite not_elem_of_cons. split; [done|]. intros Hin. rewrite Forall_forall in Hd. by destruct (digit_plain DOT (Hd _ Hin)) as (_ & ? & _).
Qed.

Lemma symbol_plain s : plain (format_symbol s).
Proof. destruct s; (split; [done|repeat constructor]). Qed.

Lemma parse_format_symbol s line : parse_symbol (format_symbol s) line = inl s.
Proof. by destruct s. Qed.

Lemma port_name_plain p : plain (port_name p).
Proof. unfold port_name. repeat case_match; (split; [done|repeat constructor]). Qed.

Lemma parse_port_name_ok p line : p < 3 → parse_port_name (port_name p) line = inl p.
Proof. intros Hp. assert (p = 0 ∨ p = 1 ∨ p = 2) as [->|[->| ->]] by lia; done. Qed.

Lemma plain_app a b : plain a → Forall (λ c, is_whitespace c = false) b → plain (a ++ b).
Proof. intros [Hne Ha] Hb. split; [by destruct a|by apply Forall_app]. Qed.

Lemma port_ref_plain r : plain (format_port_ref r).
Proof.
  destruct r as [id p|f]; cbn [format_port_ref].
  - apply plain_app; [apply agent_name_plain|]. constructor; [done|]. apply port_name_plain.
  - apply plain_app; [split; [done|repeat constructor]|]. apply Forall_app. split; [|repeat constructor].
    eapply Forall_impl; [apply decimal_digits_all|]. intros c Hc. by apply digit_plain.
Qed.

Lemma split_once_app a b : DOT ∉ a → split_once (a ++ DOT :: b) = Some (a, b).
Proof.
  induction a as [|c a IH]; intros Ha; [done|]. apply not_elem_of_cons in Ha as [Hc Ha]. cbn. rewrite IH by done.
  destruct (N.eqb_spec c DOT); [congruence|done].
Qed.

Lemma strip_prefix_same p s : TextDsl.strip_prefix p (p ++ s) = Some s.
Proof. induction p as [|x p IH]; [done|]. cbn. by rewrite N.eqb_refl. Qed.

(** Reading back a printed reference. *)
Lemma parse_agent_ref names n line id p x a : names !! agent_name id = Some x → get_agent n x = Some a → p < total_ports (symbol a) →
  parse_port_ref (format_port_ref (AgentPort id p)) names n line = inl (AgentPort x p).
Proof.
  intros Hn Ha Hp. unfold parse_port_ref. cbn [format_port_ref]. destruct (agent_name_plain id) as [_ Hdot].
  assert (E : TextDsl.strip_prefix (chars "free("%string) (agent_name id ++ [DOT] ++ port_name p) = None) by done. rewrite E.
  cbn [mbind option_bind]. change ([DOT] ++ port_name p) with (DOT :: port_name p). rewrite split_once_app by done. rewrite Hn.
  pose proof (total_ports_bounds (symbol a)). rewrite parse_port_name_ok by lia. rewrite Ha.
  destruct (symbol a); try done. change (total_ports Era) with 1 in Hp. assert (p = 0) as -> by lia. done.
Qed.

Lemma parse_free_ref names n line f : f ≤ u32_MAX → parse_port_ref (format_port_ref (FreePort f)) names n line = inl (FreePort f).
Proof.
  intros Hf. unfold parse_port_ref. cbn [format_port_ref]. rewrite strip_prefix_same. cbn [mbind option_bind]. unfold strip_close.
  rewrite last_snoc, N.eqb_refl, removelast_last. by rewrite parse_decimal.
Qed.
