(* ===== verification/TextSpec.v ===== *)
(** The text format: a printed net is read back, renumbered. *)
From stdpp Require Import strings.
From S2P Require Import Prelude NetTypes NetCore NetInv NetDebug Reduction ReductionInv SplitInv MergeInv LambdaBuild Lambda Church ChurchSpec Shape TextDsl TextInv.
Local Open Scope N_scope.
Open Scope net_scope.
Import TextDsl.

(** ** Wires that share no end *)

Lemma partner_wire ws a b : NoDup (filter (λ r, is_agent_port r = true) (ends ws)) → (a, b) ∈ ws →
  (is_agent_port a = true → partner ws a = Some b) ∧ (is_agent_port b = true → partner ws b = Some a).
Proof.
  induction ws as [|[c d] ws IH]; intros Hnd Hin; [by apply elem_of_nil in Hin|].
  change (ends ((c, d) :: ws)) with (c :: d :: ends ws) in Hnd. rewrite !filter_cons in Hnd.
  assert (Hnd' : NoDup (filter (λ r, is_agent_port r = true) (ends ws))) by (repeat case_decide; repeat (apply NoDup_cons in Hnd as [_ Hnd]); done).
  assert (Hout : ∀ r, is_agent_port r = true → r ∈ ends ws → r ≠ c ∧ r ≠ d).
  { intros r Hr Hin'. assert (Hf : r ∈ filter (λ r, is_agent_port r = true) (ends ws)) by (by apply list_elem_of_filter).
    split; intros ->; rewrite ?(decide_True (P := is_agent_port _ = true)) in Hnd by done; repeat case_decide; rewrite ?NoDup_cons, ?not_elem_of_cons in Hnd; tauto. }
  cbn [partner]. apply elem_of_cons in Hin as [[= -> ->]|Hin].
  - split; intros Ha; [|by rewrite decide_True]. destruct (decide (d = c)) as [->|]; [|by rewrite decide_True].
    rewrite !decide_True in Hnd by done. apply NoDup_cons in Hnd as [Hnd _]. set_solver.
  - destruct (IH Hnd' Hin) as [IHa IHb].
    assert (Ha : a ∈ ends ws ∧ b ∈ ends ws).
    { unfold ends. split; apply list_elem_of_In, in_flat_map; exists (a, b); (split; [by apply list_elem_of_In|cbn; auto]). }
    split; intros Hp; [destruct (Hout a Hp ltac:(tauto))|destruct (Hout b Hp ltac:(tauto))]; rewrite !decide_False by congruence; auto.
Qed.

(** ** The slots of a net, in order *)

Definition slot_index (x : AgentId * PortId) : N := x.1 * 3 + x.2.

Definition slots (n : Net) : list (AgentId * PortId) := live_agents n ≫= agent_slots.

Lemma slots_increasing l : ∀ k, (∀ i a, l !! i = Some (Some a) → agent_id a = N.of_nat (k + i)) →
  StronglySorted (λ x y, slot_index x < slot_index y) (omap id l ≫= agent_slots) ∧
  Forall (λ x, 3 * N.of_nat k ≤ slot_index x) (omap id l ≫= agent_slots).
Proof.
  induction l as [|slot l IH]; intros k Hk; [split; constructor|].
  destruct (IH (S k)) as [Hs Hf].
  { intros i a Hi. rewrite (Hk (S i) a Hi). lia. }
  assert (Hf' : ∀ j, j < 3 * N.of_nat (S k) → Forall (λ x, j < slot_index x) (omap id l ≫= agent_slots)).
  { intros j Hj. eapply Forall_impl; [exact Hf|]. intros x Hx. cbv beta in *. lia. }
  destruct slot as [a|]; cbn [omap list_omap id].
  - pose proof (Hk 0%nat a eq_refl) as Ha. rewrite Nat.add_0_r in Ha.
    change ((a :: ?r) ≫= agent_slots) with (agent_slots a ++ (r ≫= agent_slots)).
    assert (E : agent_slots a = match symbol a with Era => [(agent_id a, 0)] | _ => [(agent_id a, 0); (agent_id a, 1); (agent_id a, 2)] end)
      by (unfold agent_slots; by destruct (symbol a)).
    rewrite E, Ha. assert (Hge : ∀ p, 3 * N.of_nat k ≤ slot_index (N.of_nat k, p)) by (intros p; unfold slot_index; cbn; lia).
    split; destruct (symbol a); cbn [app]; repeat constructor; try apply Hf'; try apply Hge; try done;
      try (eapply Forall_impl; [exact Hf|]; intros x Hx; cbv beta in *; lia); unfold slot_index; cbn [fst snd]; lia.
  - split; [done|]. eapply Forall_impl; [exact Hf|]. intros x Hx. cbv beta in *. lia.
Qed.

Lemma printed_pair k a b : printed (k, [a; b]) = k ++ [Lambda.SPACE] ++ a ++ [Lambda.SPACE] ++ b ++ [NEWLINE].
Proof. unfold printed, join. cbn [fst snd]. change ([a; b] ≫= ?f) with (f a ++ f b ++ []). cbn [app]. rewrite app_nil_r. cbn. rewrite <- !app_assoc. cbn. by rewrite <- !app_assoc. Qed.

Lemma printed_single k a : printed (k, [a]) = k ++ [Lambda.SPACE] ++ a ++ [NEWLINE].
Proof. unfold printed, join. cbn [fst snd]. change ([a] ≫= ?f) with (f a ++ []). rewrite app_nil_r. cbn. by rewrite <- !app_assoc. Qed.

(** ** Declarations *)

Definition agent_entry (a : Agent) : text * list text := (AGENT, [agent_name (agent_id a); format_symbol (symbol a)]).

(** Agents [l], numbered in order, nothing wired. *)
Record declared (l : list Agent) (m : Net) (names : gmap text AgentId) : Prop := {
  dc_shape : ∃ O, shape m (symbol <$> l) [] O;
  dc_bare : ∀ b q, q < 3 → m.[b, q] = DISCONNECTED;
  dc_root : root m = None;
  dc_names : ∀ t x, names !! t = Some x ↔ ∃ k a, l !! k = Some a ∧ t = agent_name (agent_id a) ∧ x = N.of_nat k;
}.

Lemma declared_step l m names a line : declared l m names → (agent_id a) ∉ agent_id <$> l → N.of_nat (length l) < u32_MAX →
  ∃ m' names', declare (m, names) line (AGENT :: (agent_entry a).2) = Done (inl (m', names')) ∧ declared (l ++ [a]) m' names'.
Proof.
  intros [[O Hs] Hb Ht Hn] Ha Hr. unfold declare. cbn [agent_entry snd]. rewrite bool_decide_eq_true_2 by done. rewrite parse_format_symbol.
  assert (Hfresh : names !! agent_name (agent_id a) = None).
  { apply eq_None_not_Some. intros [x (k & b & Hk & E & _)%Hn]. apply agent_name_inj in E. apply Ha. rewrite E. apply list_elem_of_fmap.
    exists b. split; [done|]. by eapply list_elem_of_lookup_2. }
  rewrite Hfresh. rewrite bool_decide_eq_false_2 by (by intros []).
  destruct (shape_create m _ [] O (symbol a) Hs) as (m' & E & Hs' & _); [by rewrite length_fmap|]. rewrite E. cbn [mbind outcome_bind mret outcome_ret].
  eexists m', _. split; [reflexivity|]. rewrite length_fmap in *. split.
  - eexists. by rewrite fmap_app.
  - intros b q Hq. destruct (create_agent_spec m _ _ _ (lg_wf _ _ (sh_ledger _ _ _ _ Hs)) E) as [_ _ _ _ Tg _ _ _ _ _]. rewrite Tg by done. by apply Hb.
  - destruct (create_agent_spec m _ _ _ (lg_wf _ _ (sh_ledger _ _ _ _ Hs)) E) as [_ _ _ _ _ (-> & _) _ _ _ _]. done.
  - intros t x. destruct (decide (t = agent_name (agent_id a))) as [->|Hne].
    + rewrite lookup_insert_eq. split.
      * intros [= <-]. exists (length l), a. split_and!; [|done|done]. by rewrite list_lookup_middle.
      * intros (k & b & Hk & E' & ->). apply agent_name_inj in E'. apply lookup_app_Some in Hk as [Hk|[Hge Hk]].
        -- destruct Ha. rewrite E'. apply list_elem_of_fmap. exists b. split; [done|]. by eapply list_elem_of_lookup_2.
        -- assert (k = length l) as -> by (apply lookup_lt_Some in Hk; cbn in Hk; lia). done.
    + rewrite lookup_insert_ne by done. rewrite Hn. split.
      * intros (k & b & Hk & -> & ->). exists k, b. split_and!; [|done|done]. by apply lookup_app_l_Some.
      * intros (k & b & Hk & -> & ->). apply lookup_app_Some in Hk as [Hk|[Hge Hk]]; [eauto|].
        destruct (k - length l)%nat; [|done]. injection Hk as <-. done.
Qed.

Lemma declare_agents l : ∀ L pre m names rest, map snd L = (λ a, AGENT :: (agent_entry a).2) <$> l → declared pre m names →
  NoDup (agent_id <$> (pre ++ l)) → N.of_nat (length (pre ++ l)) ≤ u32_MAX →
  ∃ m' names', declare_all (m, names) (L ++ rest) = declare_all (m', names') rest ∧ declared (pre ++ l) m' names'.
Proof.
  induction l as [|a l IH]; intros L pre m names rest HL Hd Hnd Hr.
  - destruct L; [|done]. exists m, names. by rewrite app_nil_r.
  - destruct L as [|[line toks] L]; [done|]. injection HL as -> HL. cbn [app declare_all].
    assert (Hn : agent_id a ∉ agent_id <$> pre).
    { rewrite fmap_app in Hnd. apply NoDup_app in Hnd as (_ & Hd' & _). intros Hin. apply (Hd' _ Hin). cbn. set_solver. }
    destruct (declared_step pre m names a line Hd Hn) as (m1 & names1 & E & Hd1); [rewrite length_app in Hr; cbn in Hr; lia|].
    change (AGENT :: [agent_name (agent_id a); format_symbol (symbol a)]) with (AGENT :: (agent_entry a).2). rewrite E. cbn [mbind outcome_bind].
    rewrite (cons_middle a pre l), app_assoc in Hnd, Hr |- *. apply IH; done.
Qed.

Lemma declare_others L : ∀ st, Forall (λ e, ∃ k args, e.2 = k :: args ∧ k ≠ AGENT) L → declare_all st L = Done (inl st).
Proof.
  induction L as [|[line toks] L IH]; intros st HL; [done|]. apply Forall_cons in HL as [(k & args & E & Hk) HL]. cbn [snd] in E. subst toks.
  cbn [declare_all]. unfold declare. destruct st as [m names]. rewrite bool_decide_eq_false_2 by done. cbn [mbind outcome_bind mret outcome_ret]. by apply IH.
Qed.

Section net.
Variable n : Net.
Hypothesis Hwf : wf n.

Lemma live_index i a : agents n !! i = Some (Some a) → agent_id a = N.of_nat i.
Proof using Hwf. intros Hi. apply (wf_ids n Hwf). unfold get_agent. by rewrite Nat2N.id, Hi. Qed.

Lemma slots_sorted : StronglySorted (λ x y, slot_index x < slot_index y) (slots n).
Proof using Hwf. apply (slots_increasing (agents n) 0). intros i a Hi. by apply live_index. Qed.

Lemma elem_of_agents a : a ∈ live_agents n ↔ get_agent n (agent_id a) = Some a.
Proof using Hwf.
  unfold live_agents. rewrite list_elem_of_omap. unfold get_agent. split.
  - intros (slot & [i Hi]%list_elem_of_lookup_1 & E). cbn in E. subst slot. rewrite (live_index i a Hi), Nat2N.id. by rewrite Hi.
  - intros Ha. destruct (agents n !! N.to_nat (agent_id a)) as [slot|] eqn:E; [|done]. cbn in Ha. exists slot.
    split; [by eapply list_elem_of_lookup_2|done].
Qed.

Lemma elem_of_slots_net x : x ∈ slots n ↔ valid_port n x.1 x.2.
Proof using Hwf.
  unfold slots. rewrite list_elem_of_bind. destruct x as [id p]. unfold agent_slots, valid_port. cbn [fst snd]. split.
  - intros (a & (q & [= -> ->] & Hq%elem_of_range_u)%list_elem_of_fmap & Ha%elem_of_agents). exists a. split; [done|exact Hq].
  - intros (a & Ha & Hp). pose proof (wf_ids n Hwf id a Ha) as Hid. exists a. split; [|by apply elem_of_agents; rewrite Hid].
    apply list_elem_of_fmap. exists p. rewrite Hid. split; [done|]. by apply elem_of_range_u.
Qed.

Lemma slot_index_inj x y : valid_port n x.1 x.2 → valid_port n y.1 y.2 → slot_index x = slot_index y → x = y.
Proof using Type.
  intros Hx%valid_port_lt3 Hy%valid_port_lt3. destruct x as [a p], y as [b q]. unfold slot_index. cbn [fst snd] in *. intros E. f_equal; lia.
Qed.

Definition target (x : AgentId * PortId) : PortRef := n.[x.1, x.2].

(** The slot a wire is written from. *)
Definition kept (x : AgentId * PortId) : Prop :=
  match target x with AgentPort b q => slot_index x < slot_index (b, q) | FreePort _ => True end.

#[export] Instance kept_dec x : Decision (kept x).
Proof. unfold kept. destruct (target x); apply _. Defined.

Lemma target_sym x b q : valid_port n x.1 x.2 → target x = AgentPort b q →
  valid_port n b q ∧ target (b, q) = AgentPort x.1 x.2 ∧ slot_index x ≠ slot_index (b, q).
Proof using Hwf.
  intros Hv E. unfold target in *. destruct (wf_sym n Hwf x.1 x.2 b q (valid_port_lt3 _ _ _ Hv) E) as (Hv' & E' & Hne). split_and!; [done|done|].
  intros Hi. apply Hne. by apply (slot_index_inj (b, q) (x.1, x.2)).
Qed.

Lemma slot_small x : valid_port n x.1 x.2 → slot_index x < USIZE_MAX.
Proof using Hwf.
  intros Hv. pose proof (live_lt_next n x.1 Hwf (valid_port_live _ _ _ Hv)). pose proof (wf_u32 n Hwf). apply valid_port_lt3 in Hv.
  assert (u32_MAX = 4294967295) as Hm by done. assert (USIZE_MAX = 18446744073709551615) as -> by done. unfold slot_index. lia.
Qed.

Lemma key_lookup x : valid_port n x.1 x.2 → ports n !! N.to_nat (x.1 * 3 + x.2) = Some (target x).
Proof using Hwf.
  intros Hv. pose proof (valid_port_cell n x.1 x.2 Hwf Hv) as Hc. unfold target, get_target.
  change (port_index x.1 x.2) with (x.1 * 3 + x.2) in *.
  destruct (ports n !! N.to_nat (x.1 * 3 + x.2)) eqn:E; [done|]. apply lookup_ge_None in E. lia.
Qed.

Definition target_index (x : AgentId * PortId) : N :=
  match target x with AgentPort b q => slot_index (b, q) | FreePort _ => USIZE_MAX end.

Lemma wire_key_min x : wire_key x (target x) = (N.min (slot_index x) (target_index x), N.max (slot_index x) (target_index x)).
Proof using Type.
  unfold wire_key, target_index, slot_index. destruct (target x) as [b q|f]; cbn [fst snd]; match goal with |- context [?a <? ?b] => destruct (N.ltb_spec a b) end; f_equal; lia.
Qed.

(** A key is written once, from the end with the smaller index. *)
Lemma key_written pre x post : slots n = pre ++ x :: post → ((∃ y, y ∈ pre ∧ wire_key x (target x) = wire_key y (target y)) ↔ ¬ kept x).
Proof using Hwf.
  intros Hs. assert (Hin : ∀ y, y ∈ slots n → valid_port n y.1 y.2) by (intros y; apply elem_of_slots_net).
  assert (Hx : valid_port n x.1 x.2) by (apply Hin; rewrite Hs; set_solver).
  pose proof slots_sorted as Hsort. rewrite Hs in Hsort. apply StronglySorted_app in Hsort as (Hpre & _ & Hpost).
  assert (Hlt : ∀ y, y ∈ pre → slot_index y < slot_index x) by (intros y Hy; apply Hpre; [done|set_solver]).
  setoid_rewrite wire_key_min. unfold kept. split.
  - intros (y & Hy & [= Emin Emax]) Hk. pose proof (Hlt y Hy). assert (Ht : target_index x = slot_index y) by lia.
    assert (Hvy : valid_port n y.1 y.2) by (apply Hin; rewrite Hs; set_solver). pose proof (slot_small y Hvy).
    unfold target_index in Ht. destruct (target x) as [b q|f]; lia.
  - destruct (target x) as [b q|f] eqn:E; [|tauto]. intros Hk. destruct (target_sym x b q Hx E) as (Hv' & E' & Hne).
    exists (b, q). assert (Hty : target_index (b, q) = slot_index x) by (unfold target_index; rewrite E'; done).
    assert (Htx : target_index x = slot_index (b, q)) by (unfold target_index; by rewrite E). split; [|rewrite Hty, Htx; f_equal; lia].
    assert (Hby : (b, q) ∈ slots n) by (by apply elem_of_slots_net). rewrite Hs in Hby. apply elem_of_app in Hby as [|Hby]; [done|].
    inversion Hpost as [|? ? _ Hall]; subst. apply elem_of_cons in Hby as [Eb|Hby]; [by rewrite <- Eb in Hne|].
    rewrite Forall_forall in Hall. apply Hall in Hby. lia.
Qed.

(** ** The printed document *)

Definition wire_entry (x : AgentId * PortId) : text * list text :=
  (WIRE, [format_port_ref (AgentPort x.1 x.2); format_port_ref (target x)]).

Definition root_entry : list (text * list text) :=
  match root n with Some r => [(ROOT, [format_port_ref r])] | None => [] end.

Definition kept_slots : list (AgentId * PortId) := filter kept (slots n).

Definition document : list (text * list text) := (agent_entry <$> live_agents n) ++ (wire_entry <$> kept_slots) ++ root_entry.

Lemma format_ports l : ∀ pre out S, slots n = pre ++ l → (∀ k, k ∈ S ↔ ∃ y, y ∈ pre ∧ k = wire_key y (target y)) →
  (foldl (format_port n) (out, S) l).1 = out ++ concat (printed <$> (wire_entry <$> filter kept l)).
Proof using Hwf.
  induction l as [|x l IH]; intros pre out S Hs HS; [cbn; by rewrite app_nil_r|]. cbn [foldl].
  assert (Hx : valid_port n x.1 x.2) by (apply elem_of_slots_net; rewrite Hs; set_solver).
  pose proof (key_written pre x l Hs) as Hkey. unfold format_port at 2. rewrite key_lookup by done.
  assert (Hs' : slots n = (pre ++ [x]) ++ l) by (by rewrite <- app_assoc).
  assert (Hin : wire_key x (target x) ∈ S ↔ ¬ kept x) by (rewrite <- Hkey, HS; naive_solver).
  rewrite filter_cons. destruct (decide (wire_key x (target x) ∈ S)) as [Hk|Hk].
  - rewrite (decide_False (P := kept x)) by tauto. apply (IH (pre ++ [x])); [done|]. intros k. rewrite HS. split; intros (y & Hy & Ek); [exists y; set_solver|].
    apply elem_of_app in Hy as [Hy|Hy%list_elem_of_singleton]; [eauto|]. subst y. rewrite Ek. by apply HS.
  - rewrite (decide_True (P := kept x)) by (destruct (decide (kept x)); tauto).
    rewrite (IH (pre ++ [x])); [|done|].
    + cbn [fmap list_fmap concat]. rewrite <- app_assoc. f_equal. unfold wire_line, wire_entry.
      change (chars "wire "%string) with (WIRE ++ [Lambda.SPACE]). by rewrite printed_pair, <- !app_assoc.
    + intros k. rewrite elem_of_union, elem_of_singleton, HS. split.
      * intros [->|(y & Hy & ->)]; [exists x; set_solver|exists y; set_solver].
      * intros (y & Hy & ->). apply elem_of_app in Hy as [Hy|Hy%list_elem_of_singleton]; [eauto|by subst; left].
Qed.

Lemma format_document : format_ic n = concat (printed <$> document).
Proof using Hwf.
  unfold format_ic, document. fold (slots n).
  assert (Ha : (live_agents n ≫= agent_line) = concat (printed <$> (agent_entry <$> live_agents n))).
  { induction (live_agents n) as [|a l IH]; [done|]. change ((a :: l) ≫= agent_line) with (agent_line a ++ (l ≫= agent_line)). rewrite IH.
    cbn [fmap list_fmap concat]. f_equal. unfold agent_line, agent_entry.
    change (chars "agent "%string) with (AGENT ++ [Lambda.SPACE]). by rewrite printed_pair, <- !app_assoc. }
  rewrite Ha. pose proof (format_ports (slots n) [] (concat (printed <$> (agent_entry <$> live_agents n))) ∅ eq_refl) as Hf.
  destruct (foldl (format_port n) _ (slots n)) as [out S]. cbn [fst] in Hf. rewrite Hf by (intros k; set_solver).
  rewrite !fmap_app, !concat_app. unfold kept_slots, root_entry. destruct (root n) as [r|]; [|cbn; by rewrite app_nil_r].
  rewrite <- app_assoc. do 2 f_equal. cbn [fmap list_fmap concat]. change (chars "root "%string) with (ROOT ++ [Lambda.SPACE]).
  by rewrite printed_single, app_nil_r, <- !app_assoc.
Qed.

Lemma document_writable : Forall writable document.
Proof using Type.
  unfold document. rewrite !Forall_app, !Forall_fmap. split_and!.
  - apply Forall_true. intros a. unfold writable. cbn. split; [split; [done|repeat constructor]|]. split; [|done].
    constructor; [apply agent_name_plain|constructor; [apply symbol_plain|constructor]].
  - apply Forall_true. intros x. unfold writable. cbn [fst snd wire_entry]. split; [split; [done|repeat constructor]|]. split; [|done].
    constructor; [apply port_ref_plain|constructor; [apply port_ref_plain|constructor]].
  - unfold root_entry. destruct (root n) as [r|]; [|constructor]. constructor; [|constructor]. unfold writable. cbn [fst snd].
    split; [split; [done|repeat constructor]|]. split; [|done]. constructor; [apply port_ref_plain|constructor].
Qed.

(** ** Renumbering *)

(** The agents alive before the slot of [id]. *)
Definition rank (id : AgentId) : AgentId := N.of_nat (length (omap (λ slot, slot) (take (N.to_nat id) (agents n)))).

Definition renumber (r : PortRef) : PortRef := match r with AgentPort id p => AgentPort (rank id) p | FreePort f => FreePort f end.

Lemma rank_lookup x a : get_agent n x = Some a → live_agents n !! N.to_nat (rank x) = Some a.
Proof using Type.
  unfold get_agent, live_agents, rank. rewrite Nat2N.id. destruct (agents n !! N.to_nat x) as [slot|] eqn:E; [|done]. cbn. intros ->.
  change (λ slot : option Agent, slot) with (@id (option Agent)). set (l := take (N.to_nat x) (agents n)).
  assert (El : agents n = l ++ Some a :: drop (S (N.to_nat x)) (agents n)) by (symmetry; by apply take_drop_middle).
  rewrite El, omap_app, lookup_app_r by lia. by rewrite Nat.sub_diag.
Qed.

Lemma rank_inj x y : live n x → live n y → rank x = rank y → x = y.
Proof using Hwf.
  intros [a Ha] [b Hb] E. pose proof (rank_lookup x a Ha) as H. rewrite E, (rank_lookup y b Hb) in H. injection H as <-.
  by rewrite <- (wf_ids n Hwf x b Ha), <- (wf_ids n Hwf y b Hb).
Qed.

Lemma renumber_inj r r' : (∀ id p, r = AgentPort id p → live n id) → (∀ id p, r' = AgentPort id p → live n id) →
  renumber r = renumber r' → r = r'.
Proof using Hwf.
  intros Hr Hr'. destruct r as [x p|f], r' as [y q|g]; cbn [renumber]; intros [=]; [|congruence]. f_equal; [|done].
  eapply rank_inj; eauto.
Qed.

(** ** Wiring *)

Hypothesis Hlabels : ∀ x f, valid_port n x.1 x.2 → target x = FreePort f → f ≤ u32_MAX.

Definition wire_of (x : AgentId * PortId) : Wire := (renumber (AgentPort x.1 x.2), renumber (target x)).

Definition net_wires : list Wire := wire_of <$> kept_slots.

(** The agents of the net that is read. *)
Definition numbered (m : Net) : Prop := ∀ x a, get_agent n x = Some a → get_agent m (rank x) = Some (mkAgent (symbol a) (rank x)).

Lemma declared_numbered m names : declared (live_agents n) m names → numbered m ∧ ∀ x, live n x → names !! agent_name x = Some (rank x).
Proof using Hwf.
  intros [[O [_ Ha _ _ _ _ _]] _ _ Hn]. split.
  - intros x a E. apply rank_lookup in E. unfold get_agent. rewrite Ha, list_lookup_imap, list_lookup_fmap, E. cbn. by rewrite N2Nat.id.
  - intros x [a E]. apply Hn. exists (N.to_nat (rank x)), a. split_and!; [by apply rank_lookup|by rewrite (wf_ids n Hwf x a E)|by rewrite N2Nat.id].
Qed.

(** Reading back a reference of the net. *)
Lemma parse_target names c line r : numbered c → (∀ x, live n x → names !! agent_name x = Some (rank x)) →
  (match r with AgentPort x p => valid_port n x p | FreePort f => f ≤ u32_MAX end) →
  parse_port_ref (format_port_ref r) names c line = inl (renumber r).
Proof using Type.
  intros Hc Hn Hr. destruct r as [x p|f]; [|by apply parse_free_ref].
  pose proof (Hn x (valid_port_live _ _ _ Hr)) as Hx. destruct Hr as (a & Ha & Hp). eapply parse_agent_ref; [done|by apply Hc|done].
Qed.

Lemma target_valid x : valid_port n x.1 x.2 → match target x with AgentPort b q => valid_port n b q | FreePort f => f ≤ u32_MAX end.
Proof using Hwf Hlabels.
  intros Hv. destruct (target x) as [b q|f] eqn:E; [|by eapply Hlabels]. by destruct (target_sym x b q Hv E) as (? & _).
Qed.

Lemma kept_valid x : x ∈ kept_slots → valid_port n x.1 x.2 ∧ kept x.
Proof using Hwf. unfold kept_slots. rewrite list_elem_of_filter. intros [Hk Hx%elem_of_slots_net]. done. Qed.

Lemma wire_slot names c b line x : numbered c → (∀ x, live n x → names !! agent_name x = Some (rank x)) → x ∈ kept_slots →
  wire names (c, b) line (WIRE :: (wire_entry x).2) = inl (connect c (wire_of x).1 (wire_of x).2, b).
Proof using Hwf Hlabels.
  intros Hc Hn [Hv Hk]%kept_valid. unfold wire. cbn [wire_entry snd]. rewrite bool_decide_eq_false_2, bool_decide_eq_true_2 by done.
  rewrite (parse_target names c line (AgentPort x.1 x.2)) by done. rewrite (parse_target names c line (target x)) by (try done; by apply target_valid).
  rewrite bool_decide_eq_false_2; [done|]. intros E. apply renumber_inj in E.
  - unfold target in E. symmetry in E. by apply (wf_no_self n x.1 x.2 Hwf (valid_port_lt3 _ _ _ Hv)) in E.
  - intros id p [= <- <-]. by apply valid_port_live in Hv.
  - intros id p E'. pose proof (target_valid x Hv) as Ht. rewrite E' in Ht. by apply valid_port_live in Ht.
Qed.

Lemma wire_slots names b rest K : ∀ L c, map snd L = (λ x, WIRE :: (wire_entry x).2) <$> K → (∀ x, x ∈ K → x ∈ kept_slots) →
  numbered c → (∀ x, live n x → names !! agent_name x = Some (rank x)) →
  wire_all names (c, b) (L ++ rest) = wire_all names (plug c (wire_of <$> K), b) rest.
Proof using Hwf Hlabels.
  induction K as [|x K IH]; intros L c HL HK Hc Hn; [by destruct L|]. destruct L as [|[line toks] L]; [done|].
  assert (toks = WIRE :: (wire_entry x).2 ∧ map snd L = (λ x, WIRE :: (wire_entry x).2) <$> K) as [-> HL'] by (injection HL; done).
  cbn [app wire_all]. rewrite wire_slot by (try done; apply HK; set_solver). apply (IH L); [done|set_solver| |done].
  intros y a E. rewrite connect_get_agent. by apply Hc.
Qed.

Lemma wire_agents names st rest l : ∀ L, map snd L = (λ a, AGENT :: (agent_entry a).2) <$> l → wire_all names st (L ++ rest) = wire_all names st rest.
Proof using Type.
  induction l as [|a l IH]; intros L HL; [by destruct L|]. destruct L as [|[line toks] L]; [done|]. injection HL as -> HL.
  cbn [app wire_all]. destruct st as [c b]. by apply IH.
Qed.

(** The agent ports among the ends of the wires: every slot once. *)
Definition end_slots (x : AgentId * PortId) : list (AgentId * PortId) :=
  x :: match target x with AgentPort b q => [(b, q)] | FreePort _ => [] end.

Lemma end_slots_ends K : filter (λ r, is_agent_port r = true) (ends (wire_of <$> K)) = (λ x, renumber (AgentPort x.1 x.2)) <$> (K ≫= end_slots).
Proof using Type.
  induction K as [|x K IH]; [done|]. change ((x :: K) ≫= end_slots) with (end_slots x ++ (K ≫= end_slots)). rewrite fmap_app, <- IH.
  cbn [fmap list_fmap]. change (ends (wire_of x :: ?l)) with ((wire_of x).1 :: (wire_of x).2 :: ends l). unfold end_slots, wire_of. cbn [fst snd].
  rewrite !filter_cons. rewrite decide_True by done. destruct (target x) as [b q|f]; cbn [renumber fmap list_fmap app fst snd]; [by rewrite decide_True|by rewrite decide_False].
Qed.

Lemma end_slots_owner x y : x ∈ kept_slots → y ∈ end_slots x → valid_port n y.1 y.2 ∧ (if decide (kept y) then x = y else target y = AgentPort x.1 x.2).
Proof using Hwf.
  intros [Hv Hk]%kept_valid Hy. unfold end_slots in Hy. apply elem_of_cons in Hy as [->|Hy]; [by rewrite decide_True|].
  destruct (target x) as [b q|f] eqn:E; [|by apply elem_of_nil in Hy]. apply list_elem_of_singleton in Hy as ->.
  destruct (target_sym x b q Hv E) as (Hv' & E' & Hne). split; [done|]. unfold kept in Hk. rewrite E in Hk.
  rewrite decide_False; [done|]. unfold kept. rewrite E'. change (x.1, x.2) with (x.1, x.2). destruct x. cbn [fst snd]. lia.
Qed.

Lemma end_slots_nodup : NoDup (kept_slots ≫= end_slots).
Proof using Hwf.
  apply NoDup_bind.
  - intros x1 x2 y H1 H2 Y1 Y2. destruct (end_slots_owner x1 y H1 Y1) as [_ O1], (end_slots_owner x2 y H2 Y2) as [_ O2].
    case_decide; [congruence|]. rewrite O1 in O2. injection O2 as E1 E2. destruct x1, x2; cbn in *; congruence.
  - intros x [Hv Hk]%kept_valid. unfold end_slots. destruct (target x) as [b q|f] eqn:E; [|by apply NoDup_singleton].
    apply NoDup_cons. split; [|by apply NoDup_singleton]. rewrite list_elem_of_singleton. intros ->. by destruct (target_sym (b, q) b q Hv E) as (_ & _ & ?).
  - apply NoDup_filter. pose proof slots_sorted as Hs. induction Hs as [|x l _ IH Hall]; [constructor|]. constructor; [|done].
    intros Hin. rewrite Forall_forall in Hall. apply Hall in Hin. lia.
Qed.

Lemma net_wires_pluggable m : numbered m → (∀ b q, q < 3 → m.[b, q] = DISCONNECTED) → pluggable m net_wires.
Proof using Hwf Hlabels.
  intros Hm Hb. unfold net_wires. assert (Hfree : ∀ x p, valid_port n x p → free_end m (AgentPort (rank x) p)).
  { intros x p Hv. split; [|apply Hb; by eapply valid_port_lt3]. destruct Hv as (a & Ha & Hp). exists (mkAgent (symbol a) (rank x)). split; [by apply Hm|done]. }
  split.
  - apply Forall_forall. intros r Hr. unfold ends in Hr. apply list_elem_of_In, in_flat_map in Hr as (w & Hw & Hr).
    apply list_elem_of_In, list_elem_of_fmap in Hw as (x & -> & [Hv _]%kept_valid). unfold wire_of in Hr. cbn [In fst snd] in Hr. destruct Hr as [<-|[<-|[]]].
    + by apply Hfree.
    + pose proof (target_valid x Hv) as Ht. destruct (target x) as [b q|f]; cbn [renumber]; [by apply Hfree|done].
  - rewrite end_slots_ends. apply NoDup_fmap_2_strong; [|apply end_slots_nodup].
    intros x y (kx & Hx & Kx)%list_elem_of_bind (ky & Hy & Ky)%list_elem_of_bind E.
    destruct (end_slots_owner kx x Kx Hx) as [Vx _], (end_slots_owner ky y Ky Hy) as [Vy _]. cbn [renumber] in E. injection E as E1 E2.
    apply rank_inj in E1; [|by eapply valid_port_live..]. destruct x, y; cbn in *; congruence.
Qed.

Lemma kept_other x b q : valid_port n x.1 x.2 → target x = AgentPort b q → ¬ kept x → (b, q) ∈ kept_slots ∧ target (b, q) = AgentPort x.1 x.2.
Proof using Hwf.
  intros Hv E Hk. destruct (target_sym x b q Hv E) as (Hv' & E' & Hne). split; [|done].
  apply list_elem_of_filter. split; [|by apply elem_of_slots_net]. unfold kept in *. rewrite E in Hk. rewrite E'. destruct x. cbn [fst snd] in *. lia.
Qed.

Lemma net_wires_partner m x : pluggable m net_wires → valid_port n x.1 x.2 →
  partner net_wires (AgentPort (rank x.1) x.2) = Some (renumber (target x)).
Proof using Hwf.
  intros [_ Hnd] Hv. destruct (decide (kept x)) as [Hk|Hk].
  - apply (partner_wire net_wires _ (renumber (target x)) Hnd); [|done]. apply list_elem_of_fmap. exists x. split; [done|].
    apply list_elem_of_filter. split; [done|]. by apply elem_of_slots_net.
  - destruct (target x) as [b q|f] eqn:E; [|unfold kept in Hk; rewrite E in Hk; tauto]. destruct (kept_other x b q Hv E Hk) as [Hin E'].
    apply (partner_wire net_wires (renumber (AgentPort b q)) _ Hnd); [|done]. apply list_elem_of_fmap. exists (b, q). split; [|done].
    unfold wire_of. cbn [fst snd]. by rewrite E'.
Qed.

End net.

(** [m] is [n] with its agents numbered in order: same symbols, wires, labels
    and root; every active pair is queued and only active pairs are. *)
Record renumbered (n m : Net) : Prop := {
  rn_wf : wf m;
  rn_agents : agents m = imap (λ k s, Some (mkAgent s (N.of_nat k))) (symbol <$> live_agents n);
  rn_wires : ∀ x, valid_port n x.1 x.2 → m.[rank n x.1, x.2] = renumber n (target n x);
  rn_root : root m = renumber n <$> root n;
  rn_queue : queue_complete m;
  rn_active : ∀ a b, (a, b) ∈ redex_queue m → m.[a, 0] = AgentPort b 0;
}.

Lemma wire_redexes_In ws a b : (a, b) ∈ wire_redexes ws → (AgentPort a 0, AgentPort b 0) ∈ ws.
Proof.
  induction ws as [|[c d] ws IH]; intros Hin; [by apply elem_of_nil in Hin|]. rewrite wire_redexes_cons in Hin. cbn [fst snd] in Hin. apply elem_of_app in Hin as [Hin|Hin].
  - apply elem_of_push in Hin as [Hin|[-> ->]]; [by apply elem_of_nil in Hin|by apply list_elem_of_here].
  - right. by apply IH.
Qed.

Lemma declared_nil : declared [] new ∅.
Proof.
  split; [exists []; exact shape_new|done|done|]. intros t x. rewrite lookup_empty. split; [done|]. intros (k & a & Hk & _). by rewrite lookup_nil in Hk.
Qed.

Lemma numbered_tokens {A} (f : nat → N) (g : A → list text) l : map snd (imap (λ i x, (f i, g x)) l) = g <$> l.
Proof. revert f. induction l as [|x l IH]; intros f; [done|]. cbn. f_equal. apply (IH (f ∘ S)). Qed.

(** The statements of a document: declarations, wires, root. *)
Lemma document_lines n : ∃ L1 L2 L3, imap (λ i ts, (N.of_nat i + 1, ts.1 :: ts.2)) (document n) = L1 ++ L2 ++ L3 ∧
  map snd L1 = (λ a, AGENT :: (agent_entry a).2) <$> live_agents n ∧
  map snd L2 = (λ x, WIRE :: (wire_entry n x).2) <$> kept_slots n ∧
  map snd L3 = match root n with Some r => [[ROOT; format_port_ref r]] | None => [] end.
Proof.
  unfold document. rewrite imap_app, imap_app. eexists _, _, _. split; [reflexivity|]. rewrite !numbered_tokens, <- !list_fmap_compose.
  split_and!; [done|done|]. unfold root_entry. by destruct (root n).
Qed.

Lemma entries_not_agent (L : list (N * list text)) (l : list (list text)) : map snd L = l → Forall (λ t, ∃ k args, t = k :: args ∧ k ≠ AGENT) l →
  Forall (λ e, ∃ k args, e.2 = k :: args ∧ k ≠ AGENT) L.
Proof. intros <-. rewrite Forall_map. done. Qed.

Lemma live_count n : wf n → N.of_nat (length (live_agents n)) ≤ u32_MAX.
Proof.
  intros Hwf. assert (H : (length (live_agents n) <= length (agents n))%nat).
  { unfold live_agents. induction (agents n) as [|[a|] l IH]; cbn; lia. }
  pose proof (wf_arena n Hwf). pose proof (wf_u32 n Hwf). lia.
Qed.

Lemma live_ids_increasing l : ∀ k, (∀ i a, l !! i = Some (Some a) → agent_id a = N.of_nat (k + i)) →
  NoDup (agent_id <$> omap id l) ∧ Forall (λ a, N.of_nat k ≤ agent_id a) (omap id l).
Proof.
  induction l as [|slot l IH]; intros k Hk; [split; constructor|].
  destruct (IH (S k)) as [Hs Hf]; [intros i a Hi; rewrite (Hk (S i) a Hi); lia|].
  destruct slot as [a|]; cbn [omap list_omap id fmap list_fmap].
  - pose proof (Hk 0%nat a eq_refl) as Ha. rewrite Nat.add_0_r in Ha. split.
    + constructor; [|done]. intros (b & Eb & Hb)%list_elem_of_fmap. rewrite Forall_forall in Hf. apply Hf in Hb. lia.
    + constructor; [lia|]. eapply Forall_impl; [exact Hf|]. intros b Hb. cbv beta in *. lia.
  - split; [done|]. eapply Forall_impl; [exact Hf|]. intros b Hb. cbv beta in *. lia.
Qed.

Lemma live_ids_nodup_net n : wf n → NoDup (agent_id <$> live_agents n).
Proof. intros Hwf. apply (live_ids_increasing (agents n) 0). intros i a Hi. by apply (live_index n Hwf). Qed.

Lemma plug_agents ws : ∀ n, agents (plug n ws) = agents n.
Proof.
  induction ws as [|[a b] ws IH]; intros n; [done|]. change (plug n ((a, b) :: ws)) with (plug (connect n a b) ws). rewrite IH.
  by destruct (connect_frame n a b) as (_ & _ & _ & -> & _).
Qed.

(** The wires plugged into the declared agents. *)
Lemma plugged_renumbered n : wf n → (∀ x f, valid_port n x.1 x.2 → target n x = FreePort f → f ≤ u32_MAX) →
  ∀ m names, declared (live_agents n) m names → root (plug m (net_wires n)) = None ∧
    ∀ r, r = renumber n <$> root n → renumbered n (with_root r (plug m (net_wires n))).
Proof.
  intros Hwf Hlabels m names Hd. destruct (declared_numbered n Hwf m names Hd) as [Hm _]. destruct Hd as [[O [L A _ _ _ _ Q _]] Hb Hr _].
  pose proof (net_wires_pluggable n Hwf Hlabels m Hm Hb) as Hpl. pose proof (plug_spec _ m (lg_wf _ _ L) Hpl) as [W (Fr & _) _ _ Qu T].
  split; [by rewrite Fr|]. intros r ->. set (c := plug m (net_wires n)) in *.
  split; [by apply with_root_wf|..|done| |].
  - change (agents (with_root (renumber n <$> root n) c)) with (agents c). unfold c. by rewrite plug_agents.
  - intros x Hv. change ((with_root _ c).[rank n x.1, x.2]) with (c.[rank n x.1, x.2]). rewrite T by (by eapply valid_port_lt3).
    by rewrite (net_wires_partner n Hwf m x Hpl Hv).
  - intros a b [_ _ Hab]. cbn [redex_queue with_root]. rewrite Qu, Q. cbn [app]. apply partner_queued.
    change ((with_root _ c).[a, 0]) with (c.[a, 0]) in Hab. rewrite T in Hab by lia. rewrite Hb in Hab by lia.
    destruct (partner (net_wires n) (AgentPort a 0)) as [r|]; [by rewrite Hab|done].
  - intros a b Hin. cbn [redex_queue with_root] in Hin. rewrite Qu, Q in Hin. apply wire_redexes_In in Hin.
    change ((with_root _ c).[a, 0]) with (c.[a, 0]). rewrite T by lia. by rewrite (proj1 (partner_wire _ _ _ (proj2 Hpl) Hin) eq_refl).
Qed.

Lemma parse_formatted n : wf n →
  (∀ x f, valid_port n x.1 x.2 → target n x = FreePort f → f ≤ u32_MAX) →
  match root n with Some (AgentPort x p) => valid_port n x p | Some (FreePort f) => f ≤ u32_MAX | None => True end →
  ∃ m, parse_ic (format_ic n) = Done (inl m) ∧ renumbered n m.
Proof.
  intros Hwf Hlabels Hroot. unfold parse_ic. rewrite format_document, (statements_printed _ (document_writable n)) by done.
  destruct (document_lines n) as (L1 & L2 & L3 & -> & H1 & H2 & H3).
  destruct (declare_agents (live_agents n) L1 [] new ∅ (L2 ++ L3) H1 declared_nil) as (m & names & E & Hd); [by apply live_ids_nodup_net|by apply live_count|].
  rewrite E, declare_others 
    by (apply Forall_app; split; [apply (entries_not_agent _ _ H2), Forall_fmap, Forall_true; intros x; by eexists _, _|
      apply (entries_not_agent _ _ H3); destruct (root n); [apply Forall_singleton; by eexists _, _|constructor]]).
  cbn [mbind outcome_bind mret outcome_ret]. rewrite (wire_agents names (m, false) (L2 ++ L3) (live_agents n) L1 H1).
  destruct (declared_numbered n Hwf m names Hd) as [Hm Hn].
  rewrite (wire_slots n Hwf Hlabels names false L3 (kept_slots n) L2 m H2 (λ x Hx, Hx) Hm Hn). fold (net_wires n).
  pose proof (plugged_renumbered n Hwf Hlabels m names Hd) as [Hnone Hpl]. set (c := plug m (net_wires n)) in *.
  destruct (root n) as [r|] eqn:Er.
  - destruct L3 as [|[line toks] [|]]; [done| |done]. injection H3 as ->. cbn [wire_all]. unfold wire. rewrite !bool_decide_eq_false_2, bool_decide_eq_true_2 by done.
    rewrite (parse_target n names c line r); [|intros y a Ey; unfold c; rewrite plug_get_agent; by apply Hm|done|by destruct r].
    eexists. split; [reflexivity|]. by apply Hpl.
  - destruct L3; [|done]. cbn [wire_all]. exists c. split; [reflexivity|].
    assert (Ec : with_root (root c) c = c) by (by destruct c). rewrite <- Ec. apply Hpl. by rewrite Hnone.
Qed.

(** C18. The text format loses nothing but the numbering: a well-formed net whose
    labels are u32 values and whose root is a port of it (or a label) is
    printed to a text that the parser accepts, and what it returns is the net
    with its agents numbered from 0 in the order of their ids. *)
Theorem format_parse_round_trip n : wf n →
  (∀ x f, valid_port n x.1 x.2 → target n x = FreePort f → f ≤ u32_MAX) →
  match root n with Some (AgentPort x p) => valid_port n x p | Some (FreePort f) => f ≤ u32_MAX | None => True end →
  ∃ m, parse_ic (format_ic n) = Done (inl m) ∧ renumbered n m.
Proof. apply parse_formatted. Qed.

(** A net that has been reduced: dead ids, a label, a duplicator, two active pairs. *)
Definition example_text_net : Net :=
  match Arithmetic.build_add 1 2 with
  | Done n => match reduce_n n 3 with Done (n, _) => n | Panic => new end
  | Panic => new
  end.

Definition labels_small_b (n : Net) : bool :=
  forallb (λ t, match t with FreePort f => f <=? u32_MAX | AgentPort _ _ => true end) (ports n).

Lemma labels_small n : wf n → labels_small_b n = true → ∀ x f, valid_port n x.1 x.2 → target n x = FreePort f → f ≤ u32_MAX.
Proof.
  intros Hwf Hb x f Hv E. pose proof (key_lookup n Hwf x Hv) as Hk. rewrite E in Hk. unfold labels_small_b in Hb. rewrite forallb_forall in Hb.
  apply list_elem_of_lookup_2, list_elem_of_In, Hb, N.leb_le in Hk. done.
Qed.

Lemma format_parse_round_trip_witness :
  ∃ m, parse_ic (format_ic example_text_net) = Done (inl m) ∧ renumbered example_text_net m ∧ length (agents m) = 13%nat.
Proof.
  assert (Hwf : wf example_text_net) by (apply wf_b_sound; vm_compute; reflexivity).
  destruct (format_parse_round_trip example_text_net Hwf (labels_small _ Hwf ltac:(vm_compute; reflexivity)) ltac:(vm_compute; exact I)) as (m & E & H).
  exists m. split; [exact E|]. split; [exact H|]. rewrite (rn_agents _ _ H). vm_compute. reflexivity.
Defined.

(** ** The parser answers *)

Lemma declare_total l : ∀ m names syms O, shape m syms [] O → N.of_nat (length syms + length l) ≤ u32_MAX → ∃ r, declare_all (m, names) l = Done r.
Proof.
  induction l as [|[line toks] l IH]; intros m names syms O Hs Hr; [by eexists|]. cbn [declare_all length] in *.
  assert (Hsame : ∃ r, declare_all (m, names) l = Done r) by (apply (IH m names syms O Hs); lia). destruct Hsame as [r0 Hsame].
  unfold declare. destruct toks as [|k args]; [by exists r0|]. case_bool_decide; [|by exists r0].
  destruct args as [|name [|sym [|]]]; try (by eexists). destruct (parse_symbol sym line) as [s|e]; [|by eexists].
  case_bool_decide; [by eexists|]. destruct (shape_create m syms [] O s Hs ltac:(lia)) as (m' & E & Hs' & _). rewrite E.
  cbn [mbind outcome_bind mret outcome_ret]. apply (IH _ _ _ _ Hs'). rewrite length_app. cbn. lia.
Qed.

(** The parser answers on every text of fewer than 2^32 statements: a net or an
    error, never a panic. *)
Theorem parse_ic_total input : N.of_nat (length (statements input)) ≤ u32_MAX → ∃ r, parse_ic input = Done r.
Proof.
  intros Hl. unfold parse_ic. destruct (declare_total (statements input) new ∅ [] [] shape_new Hl) as [[[net names]|e] ->].
  - cbn. by eexists.
  - by eexists.
Qed.

(** A port wired twice is accepted: the second wire takes the port over and
    leaves the first partner pointing to it. *)
Definition double_wire : text :=
  chars "agent a ERA"%string ++ [NEWLINE] ++ chars "agent b ERA"%string ++ [NEWLINE] ++ chars "agent c ERA"%string ++ [NEWLINE] ++
  chars "wire a.p0 b.p0"%string ++ [NEWLINE] ++ chars "wire a.p0 c.p0"%string ++ [NEWLINE].

Theorem double_wire_accepted :
  ∃ n, parse_ic double_wire = Done (inl n) ∧ n.[1, 0] = AgentPort 0 0 ∧ n.[0, 0] = AgentPort 2 0 ∧ ¬ wf n.
Proof.
  assert (H : match parse_ic double_wire with
              | Done (inl n) => bool_decide (n.[1, 0] = AgentPort 0 0) && bool_decide (n.[0, 0] = AgentPort 2 0)
              | _ => false end = true) by (vm_compute; reflexivity).
  destruct (parse_ic double_wire) as [[n|e]|]; [|done|done]. apply andb_prop in H as [H1%bool_decide_eq_true H2%bool_decide_eq_true].
  exists n. split_and!; [done|done|done|]. intros Hwf. destruct (wf_sym n Hwf 1 0 0 0 ltac:(lia) H1) as (_ & H & _). congruence.
Qed.

(** ** The summary *)

Lemma count_slots n l : wf n → (∀ x, x ∈ l → valid_port n x.1 x.2) → ∀ c, foldl (count_port n) c l =
  ((c.1 + length (filter (λ x, is_agent_port (target n x) = true ∧ kept n x) l))%nat, (c.2 + length (filter (λ x, is_agent_port (target n x) = false) l))%nat).
Proof.
  intros Hwf. induction l as [|x l IH]; intros Hl c; [cbn; destruct c; f_equal; cbn; lia|]. cbn [foldl]. rewrite IH by set_solver.
  assert (Hx : valid_port n x.1 x.2) by (apply Hl; set_solver).
  rewrite !filter_cons. unfold count_port at 1 2. rewrite key_lookup by done. destruct (target n x) as [b q|f] eqn:E; cbn [is_agent_port].
  - assert (Hk : kept n x ↔ x.1 * 3 + x.2 < b * 3 + q) by (unfold kept; rewrite E; done).
    rewrite (decide_False (P := true = false)) by done. destruct (N.ltb_spec (x.1 * 3 + x.2) (b * 3 + q)).
    + rewrite decide_True by tauto. cbn [length fst snd]. f_equal; lia.
    + rewrite decide_False by (intros [_ Hk']; apply Hk in Hk'; lia). done.
  - rewrite (decide_True (P := false = false)) by done. rewrite decide_False by (by intros []). cbn [length fst snd]. f_equal; lia.
Qed.

Lemma end_slots_length n K : length (K ≫= end_slots n) =
  (2 * length (filter (λ x, is_agent_port (target n x) = true) K) + length (filter (λ x, is_agent_port (target n x) = false) K))%nat.
Proof.
  induction K as [|x K IH]; [done|]. change ((x :: K) ≫= end_slots n) with (end_slots n x ++ (K ≫= end_slots n)). rewrite length_app, IH, !filter_cons.
  unfold end_slots. destruct (target n x); cbn [is_agent_port length]; [rewrite decide_True, decide_False by done|rewrite decide_False, decide_True by done]; cbn [length]; lia.
Qed.

(** Every slot is an end of exactly one written wire. *)
Lemma slots_are_ends n : wf n → slots n ≡ₚ kept_slots n ≫= end_slots n.
Proof.
  intros Hwf. apply NoDup_Permutation; [|by apply end_slots_nodup|].
  - pose proof (slots_sorted n Hwf) as Hs. induction Hs as [|x l _ IH Hall]; [constructor|]. constructor; [|done].
    intros Hin. rewrite Forall_forall in Hall. apply Hall in Hin. lia.
  - intros x. rewrite list_elem_of_bind. split.
    + intros Hx. apply (elem_of_slots_net n Hwf) in Hx as Hv. destruct (decide (kept n x)) as [Hk|Hk].
      * exists x. split; [by left|]. by apply list_elem_of_filter.
      * destruct (target n x) as [b q|f] eqn:E; [|unfold kept in Hk; rewrite E in Hk; tauto]. destruct (kept_other n Hwf x b q Hv E Hk) as [Hin E'].
        exists (b, q). split; [|done]. unfold end_slots. rewrite E'. right. destruct x. by left.
    + intros (y & Hy & Hk). apply (elem_of_slots_net n Hwf). by destruct (end_slots_owner n Hwf y x Hk Hy).
Qed.

(** The summary of a well-formed net counts every port once, as one end of a
    wire or as a free port, whichever end the wire is counted from; a port with
    nothing attached counts as a free port. *)
Theorem summary_exact n : wf n → let s := net_summary n in
  sm_agents s = length (live_agents n) ∧ (sm_con s + sm_dup s + sm_era s)%nat = sm_agents s ∧
  (2 * sm_wires s + sm_free_ports s)%nat = length (slots n) ∧
  (sm_normal_form s = true ↔ redex_queue n = []).
Proof.
  intros Hwf. cbn zeta. unfold net_summary. fold (slots n).
  rewrite (count_slots n (slots n) Hwf) by (intros x; apply elem_of_slots_net, Hwf). cbn [sm_agents sm_con sm_dup sm_era sm_wires sm_free_ports sm_normal_form fst snd].
  assert (Ha : count_live_agents n = length (live_agents n)).
  { unfold count_live_agents, live_agents. induction (agents n) as [|[a|] l IH]; [done|..]; rewrite filter_cons.
    - rewrite decide_True by done. cbn. by f_equal.
    - rewrite decide_False by (by intros []). exact IH. }
  split_and!.
  - exact Ha.
  - rewrite Ha. clear Ha. unfold count_agents_by_symbol. induction (live_agents n) as [|a l IH]; [done|]. rewrite !filter_cons. cbn [length].
    destruct a as [[] i]; repeat case_decide; cbn [symbol length] in *; done || lia.
  - rewrite (slots_are_ends n Hwf) at 3. rewrite end_slots_length. unfold kept_slots. rewrite !list_filter_filter. cbn [Nat.add].
    assert (E : length (filter (λ x, is_agent_port (target n x) = false) (slots n)) = length (filter (λ x, is_agent_port (target n x) = false ∧ kept n x) (slots n))).
    { f_equal. apply list_filter_iff. intros x. split; [|tauto]. intros Hx. split; [done|]. unfold kept. by destruct (target n x). }
    lia.
  - rewrite Nat.eqb_eq. by destruct (redex_queue n).
Qed.
