(* ===== verification/Codecs.v ===== *)
(** The codecs and their registry (encoding/traits.rs, encoding/codec_church.rs,
    encoding/horner.rs, encoding/codec_lambda.rs, encoding/registry.rs) and the
    recipes (encoding/recipe.rs).

    [serde_json] is a class parameter: the decoded input structures and the
    values built from an output.  The texts of the error messages are replaced
    by what they print. *)
From stdpp Require Import strings.
From S2P Require Import Prelude NetTypes NetCore Church Horner Lambda Partition.
Local Open Scope N_scope.
Import Church Arithmetic.

(** ** Errors and the codec interface (traits.rs) *)

Module Traits.

Definition text : Type := list N.
Definition bytes : Type := list N.

(** What an invalid input is told. *)
Inductive Complaint : Type :=
| JsonParseFailed
| OpMismatch (op : text) (codec_name : text)
| OperandOverCap (operand : text) (value max : N)
| EmptyCoeffs
| CoefficientOverCap (idx : nat) (value max : N)
| TermParseFailed
| MissingField
| ExpectedSize
| NoWorkers.

(** What is wrong with a net. *)
Inductive NetFault : Type :=
| TargetsDead (id : AgentId) (p : PortId) (other_id : AgentId)
| SelfPort (port : PortRef)
| AsymmetricWire (port target back : PortRef)
| NothingToReduce.

Inductive EncodeError : Type :=
| InvalidInput (why : Complaint)
| InvalidNet (why : NetFault)
| InputTooLarge (size limit : N).

Inductive DecodeError : Type :=
| NotNormalForm (redexes : nat)
| UnrecognizedStructure
| DecodeFailed.

(** E1 at one port. *)
Definition port_fault (n : Net) (x : AgentId * PortId) : option NetFault :=
  let port := AgentPort x.1 x.2 in
  let target := get_target n port in
  match target with
  | AgentPort other_id _ =>
      match get_agent n other_id with
      | None => Some (TargetsDead x.1 x.2 other_id)
      | Some _ =>
          if decide (target = port) then Some (SelfPort port)
          else if decide (get_target n target = port) then None
          else Some (AsymmetricWire port target (get_target n target))
      end
  | FreePort _ => None
  end.

(** The first port at fault, slot by slot, ports 0 to 2. *)
Definition first_fault (n : Net) : option NetFault :=
  head (omap (port_fault n) (live_agents n ≫= λ a, (λ p, (agent_id a, p)) <$> range_u 3)).

Definition validate_encoded_net_inner (n : Net) (allow_normal_form : bool) : unit + EncodeError :=
  match first_fault n with
  | Some fault => inr (InvalidNet fault)
  | None => if negb allow_normal_form && is_reduced n then inr (InvalidNet NothingToReduce) else inl tt
  end.

Definition validate_encoded_net (n : Net) : unit + EncodeError := validate_encoded_net_inner n false.
Definition validate_encoded_net_allowing_normal_form (n : Net) : unit + EncodeError := validate_encoded_net_inner n true.

(** [Box<dyn Codec>].  A panic of the encoder is a value of [outcome]; the fuel
    bounds the walks of the decoder. *)
Record Codec (Value : Type) : Type := mkCodec {
  name : text;
  description : text;
  encode : bytes → outcome (Net + EncodeError);
  decode : nat → Net → option (Value + DecodeError);
  accepts_normal_form_input : bytes → bool;
}.
Arguments mkCodec {_} _ _ _ _ _.
Arguments name {_} _.
Arguments description {_} _.
Arguments encode {_} _ _.
Arguments decode {_} _ _ _.
Arguments accepts_normal_form_input {_} _ _.

(** The decoded inputs. *)
Record ChurchInput : Type := mkChurchInput { op_field : option text; a_field : N; b_field : option N }.
Record HornerInput : Type := mkHornerInput { coeffs_field : list N; x_field : N }.
Record LambdaInput : Type := mkLambdaInput { term_field : option text; ast_field : option Lambda.Term }.

(** What the codecs use of [serde_json]. *)
Class SerdeJson (Value : Type) : Type := {
  church_input : bytes → option ChurchInput;
  horner_input : bytes → option HornerInput;
  lambda_input : bytes → option LambdaInput;
  size_input : bytes → option N;
  church_output : N → option Value;
  horner_output : text → N → Value;
  lambda_output : text → nat → option Value;
}.

End Traits.

(** ** The built-in codecs *)

Module BuiltIn.
Import Traits.

Inductive ChurchOp : Type := Add | Mul | Exp | SumOfSquares.

#[export] Instance ChurchOp_eq_dec : EqDecision ChurchOp.
Proof. solve_decision. Defined.

Definition codec_name (op : ChurchOp) : text :=
  match op with
  | Add => chars "church_add"%string
  | Mul => chars "church_mul"%string
  | Exp => chars "church_exp"%string
  | SumOfSquares => chars "church_sum_of_squares"%string
  end.

Definition op_description (op : ChurchOp) : text :=
  match op with
  | Add => chars "Church numeral addition (a + b)"%string
  | Mul => chars "Church numeral multiplication (a * b)"%string
  | Exp => chars "Church numeral exponentiation (a ^ b)"%string
  | SumOfSquares => chars "Sum of squares (1^2 + 2^2 + ... + n^2)"%string
  end.

(** The [op] field the codec expects. *)
Definition expected_op (op : ChurchOp) : text :=
  match op with
  | Add => chars "add"%string
  | Mul => chars "mul"%string
  | Exp => chars "exp"%string
  | SumOfSquares => chars "sum_of_squares"%string
  end.

Section built_in.
Context {Value : Type} `{SerdeJson Value}.

Definition church_encode (op : ChurchOp) (input : bytes) : outcome (Net + EncodeError) :=
  match church_input input with
  | None => mret (inr (InvalidInput JsonParseFailed))
  | Some params =>
      let mismatch := match op_field params with
                      | Some op_str => if decide (op_str = expected_op op) then None else Some op_str
                      | None => None
                      end in
      match mismatch with
      | Some op_str => mret (inr (InvalidInput (OpMismatch op_str (codec_name op))))
      | None =>
          if MAX_CHURCH_NAT <? a_field params then
            mret (inr (InvalidInput (OperandOverCap (chars "a"%string) (a_field params) MAX_CHURCH_NAT)))
          else
            let b := default 0 (b_field params) in
            if negb (bool_decide (op = SumOfSquares)) && (MAX_CHURCH_NAT <? b) then
              mret (inr (InvalidInput (OperandOverCap (chars "b"%string) b MAX_CHURCH_NAT)))
            else
              n ← match op with
                  | Add => build_add (a_field params) b
                  | Mul => build_mul (a_field params) b
                  | Exp => build_exp (a_field params) b
                  | SumOfSquares => build_sum_of_squares (a_field params)
                  end;
              mret (inl n)
      end
  end.

Definition church_decode (fuel : nat) (n : Net) : option (Value + DecodeError) :=
  result ← decode_nat_or_shared fuel n;
  Some (match result with
        | None => inr UnrecognizedStructure
        | Some result => match church_output result with Some v => inl v | None => inr DecodeFailed end
        end).

Definition ChurchArithmeticCodec (op : ChurchOp) : Codec Value :=
  mkCodec (codec_name op) (op_description op) (church_encode op) church_decode (λ _, false).

(** The oracle's errors, as the codec words them. *)
Definition horner_complaint (e : Oracle.OracleError) : Complaint :=
  match e with
  | Oracle.EmptyCoeffs => EmptyCoeffs
  | Oracle.CoefficientOverflow idx value max => CoefficientOverCap idx value max
  | Oracle.XOverflow value max => OperandOverCap (chars "x"%string) value max
  end.

Definition horner_encode (input : bytes) : outcome (Net + EncodeError) :=
  match horner_input input with
  | None => mret (inr (InvalidInput JsonParseFailed))
  | Some i =>
      r ← Horner.encode (coeffs_field i) (x_field i);
      mret (match r with inl n => inl n | inr e => inr (InvalidInput (horner_complaint e)) end)
  end.

Definition horner_decode (fuel : nat) (n : Net) : option (Value + DecodeError) :=
  r ← Readback.decode_biguint fuel n;
  Some (match r with
        | inl value => inl (horner_output (Lambda.decimal value) (N.size value))
        | inr (Readback.NotNormalForm redexes) => inr (NotNormalForm redexes)
        | inr Readback.NoRoot => inr DecodeFailed
        | inr Readback.UnrecognizedStructure => inr UnrecognizedStructure
        end).

Definition horner_accepts (input : bytes) : bool :=
  match horner_input input with Some i => (length (coeffs_field i) =? 1)%nat | None => false end.

Definition HornerCodec : Codec Value :=
  mkCodec (chars "horner"%string) (chars "Polynomial evaluation via Horner's method"%string) horner_encode horner_decode horner_accepts.

(** The parser's fuel suffices, so [None] is an error like the others. *)
Definition lambda_encode (input : bytes) : outcome (Net + EncodeError) :=
  match lambda_input input with
  | None => mret (inr (InvalidInput JsonParseFailed))
  | Some env =>
      let term := match term_field env, ast_field env with
                  | Some s, _ => match Lambda.parse_term s with Some (inl (t, _)) => inl t | _ => inr TermParseFailed end
                  | None, Some ast => inl ast
                  | None, None => inr MissingField
                  end in
      match term with
      | inr why => mret (inr (InvalidInput why))
      | inl t => n ← Lambda.encode_lambda t; mret (inl n)
      end
  end.

Definition lambda_decode (fuel : nat) (n : Net) : option (Value + DecodeError) :=
  Some (match Lambda.decode_lambda n with
        | inl t => match lambda_output (Lambda.print_term t) (count_live_agents n) with Some v => inl v | None => inr DecodeFailed end
        | inr _ => inr UnrecognizedStructure
        end).

Definition LambdaCodec : Codec Value :=
  mkCodec (chars "lambda"%string) (chars "Pure lambda-calculus (encode, reduce, port-directed readback)"%string)
    lambda_encode lambda_decode (λ _, false).

End built_in.

End BuiltIn.

(** ** The registry (registry.rs) *)

Module Registry.
Import Traits BuiltIn.

Section registry.
Context {Value : Type} `{SerdeJson Value}.

Record EncoderRegistry : Type := mkRegistry { codecs : gmap text (Codec Value) }.

Inductive RegistryError : Type :=
| DuplicateName (name : text)
| NotFound (name : text)
| Encode (e : EncodeError)
| Decode (e : DecodeError).

Definition new : EncoderRegistry := mkRegistry ∅.

Definition register (r : EncoderRegistry) (codec : Codec Value) : EncoderRegistry + RegistryError :=
  match codecs r !! name codec with
  | Some _ => inr (DuplicateName (name codec))
  | None => inl (mkRegistry (<[name codec := codec]> (codecs r)))
  end.

Definition get (r : EncoderRegistry) (name : text) : option (Codec Value) := codecs r !! name.

(** The order of [str], on scalar values. *)
Fixpoint text_le (s t : text) : bool :=
  match s, t with
  | [], _ => true
  | _ :: _, [] => false
  | x :: s, y :: t => if x <? y then true else if x =? y then text_le s t else false
  end.

(** [sort_by_key] on the names, from the values in the map's order. *)
Definition sort_pairs (pairs : list (text * text)) : list (text * text) := merge_sort (λ p q, Is_true (text_le p.1 q.1)) pairs.

Definition list_codecs (r : EncoderRegistry) : list (text * text) :=
  sort_pairs ((λ c, (name c, description c)) <$> (map_to_list (codecs r)).*2).

Definition encode_and_validate (r : EncoderRegistry) (name : text) (input : bytes) : outcome (Net + RegistryError) :=
  match get r name with
  | None => mret (inr (NotFound name))
  | Some codec =>
      let allow_nf := accepts_normal_form_input codec input in
      e ← encode codec input;
      mret (match e with
            | inr e => inr (Encode e)
            | inl net =>
                match (if allow_nf then validate_encoded_net_allowing_normal_form net else validate_encoded_net net) with
                | inr e => inr (Encode e)
                | inl _ => inl net
                end
            end)
  end.

Definition decode (r : EncoderRegistry) (fuel : nat) (name : text) (net : Net) : option (Value + RegistryError) :=
  match get r name with
  | None => Some (inr (NotFound name))
  | Some codec => d ← Traits.decode codec fuel net; Some (match d with inl v => inl v | inr e => inr (Decode e) end)
  end.

(** [.expect("... registers")]. *)
Definition register_expect (r : EncoderRegistry) (codec : Codec Value) : outcome EncoderRegistry :=
  match register r codec with inl r => Done r | inr _ => Panic end.

Definition default_codecs : list (Codec Value) :=
  [ChurchArithmeticCodec Add; ChurchArithmeticCodec Mul; ChurchArithmeticCodec Exp; ChurchArithmeticCodec SumOfSquares; HornerCodec].

Definition default_registry : outcome EncoderRegistry := fold_outcome register_expect new default_codecs.

End registry.
Arguments EncoderRegistry Value : clear implicits.

End Registry.

(** ** Recipes (recipe.rs) *)

Module Recipe.
Import Traits.

Section recipe.
Context {Value : Type} `{SerdeJson Value}.

Record MinimalRecipe : Type := mkRecipe { recipe_worker : N; recipe_pairs : N }.

Definition parse_size (input : bytes) : N + EncodeError :=
  match size_input input with Some size => inl size | None => inr (InvalidInput ExpectedSize) end.

Definition make_recipes (input : bytes) (num_workers : N) : list MinimalRecipe + EncodeError :=
  if num_workers =? 0 then inr (InvalidInput NoWorkers)
  else match parse_size input with
       | inr e => inr e
       | inl size =>
           let base := size / num_workers in
           let remainder := size mod num_workers in
           inl ((λ w, mkRecipe w (base + (if w <? remainder then 1 else 0))) <$> range_u num_workers)
       end.

(** One (Con, Era) pair; [connect] queues it and the code queues it again. *)
Definition add_pair (n : Net) : outcome Net :=
  '(n, c) ← create_agent n Con;
  '(n, e) ← create_agent n Era;
  let n := connect n (AgentPort c 0) (AgentPort e 0) in
  mret (with_redex_queue (redex_queue n ++ [(c, e)]) n).

Fixpoint add_pairs (k : nat) (n : Net) : outcome Net :=
  match k with O => mret n | S k => n ← add_pair n; add_pairs k n end.

Definition generate_partition (recipe : MinimalRecipe) : outcome Partition :=
  net ← add_pairs (N.to_nat (N.max (recipe_pairs recipe) 1)) NetCore.new;
  mret (mkPartition net (recipe_worker recipe) ∅ (mkIdRange 0 u32_MAX) 0 0).

Definition minimal_encode (input : bytes) : outcome (Net + EncodeError) :=
  match parse_size input with
  | inr e => mret (inr e)
  | inl size => p ← generate_partition (mkRecipe 0 size); mret (inl (subnet p))
  end.

End recipe.
End Recipe.
