(* ===== verification/CodecsSpec.v ===== *)
(** What the registry does with every name and every input: which nets the
    encoders build, which inputs are refused and with which error, and which
    make an encoder panic. *)
From stdpp Require Import strings.
From S2P Require Import Prelude NetTypes NetCore NetInv Reduction ReductionInv EngineInv NetSpec LambdaBuild Church ChurchSpec Horner HornerSpec Shape ArithSpec Partition Codecs.
Local Open Scope N_scope.
Open Scope net_scope.
Import Church Arithmetic Traits.

(** ** Validation *)

(** E1 at one port: it leads to a label, or to another port of a live agent that
    leads back. *)
Definition symmetric_port (n : Net) (id : AgentId) (p : PortId) : Prop :=
  match n.[id, p] with
  | AgentPort b q => live n b ∧ (b, q) ≠ (id, p) ∧ n.[b, q] = AgentPort id p
  | FreePort _ => True
  end.

Lemma port_fault_None n x : port_fault n x = None ↔ symmetric_port n x.1 x.2.
Proof.
  unfold port_fault, symmetric_port, live. destruct (n.[x.1, x.2]) as [b q|f]; [|done]. destruct (get_agent n b) as [a|].
  - destruct (decide (AgentPort b q = AgentPort x.1 x.2)) as [[= -> ->]|Hne]; [split; [done|by intros (_ & Hne & _)]|].
    destruct (decide (n.[b, q] = AgentPort x.1 x.2)) as [E|E]; split; try done.
    + intros _. split_and!; [by exists a|by intros [= -> ->]|done].
    + by intros (_ & _ & ?).
  - split; [done|]. by intros ([? ?] & _).
Qed.

Lemma first_fault_None n : first_fault n = None ↔ ∀ a p, a ∈ live_agents n → p < 3 → symmetric_port n (agent_id a) p.
Proof.
  unfold first_fault. assert (H : ∀ l : list NetFault, head l = None ↔ l = []) by (intros []; done). rewrite H. split.
  - intros E a p Ha Hp. apply (port_fault_None n (agent_id a, p)). destruct (port_fault n (agent_id a, p)) as [f|] eqn:Ef; [|done].
    assert (Hin : f ∈ []); [|by apply elem_of_nil in Hin]. rewrite <- E. apply list_elem_of_omap. exists (agent_id a, p). split; [|done].
    apply list_elem_of_bind. exists a. split; [|done]. apply list_elem_of_fmap. exists p. split; [done|]. by apply elem_of_range_u.
  - intros Hs. destruct (omap _ _) as [|f l] eqn:El; [done|]. assert (Hin : f ∈ f :: l) by left. rewrite <- El in Hin.
    apply list_elem_of_omap in Hin as (x & (a & (p & -> & Hp%elem_of_range_u)%list_elem_of_fmap & Ha)%list_elem_of_bind & Ef).
    specialize (Hs a p Ha Hp). apply (port_fault_None n (agent_id a, p)) in Hs. congruence.
Qed.

(** The validator accepts exactly the nets whose every port of a live agent
    leads to a label or to a port that leads back, and that have a queued pair
    unless a normal form is allowed. *)
Theorem validate_exact n allow :
  validate_encoded_net_inner n allow = inl tt ↔
  (∀ a p, a ∈ live_agents n → p < 3 → symmetric_port n (agent_id a) p) ∧ (allow = true ∨ redex_queue n ≠ []).
Proof.
  rewrite <- first_fault_None. unfold validate_encoded_net_inner, is_reduced.
  destruct (first_fault n); [split; [done|by intros [? _]]|]. destruct allow, (redex_queue n); cbn; naive_solver.
Qed.

Lemma wf_no_fault n : wf n → first_fault n = None.
Proof.
  intros Hwf. apply first_fault_None. intros a p _ Hp. unfold symmetric_port. destruct (n.[agent_id a, p]) as [b q|] eqn:E; [|done].
  destruct (wf_sym n Hwf _ _ _ _ Hp E) as (Hv & E' & Hne). split_and!; [eauto with net|done|done].
Qed.

Lemma validate_wf n allow : wf n → validate_encoded_net_inner n allow = if negb allow && is_reduced n then inr (InvalidNet NothingToReduce) else inl tt.
Proof. intros Hwf. unfold validate_encoded_net_inner. by rewrite wf_no_fault. Qed.

(** ** The built-in encoders behind the registry *)

Import BuiltIn Registry.

Section registry.
Context {Value : Type} `{SerdeJson Value}.

(** What the registry answers: an error, a panic of the encoder, or a net built
    to a plan. *)
Inductive verdict : Type :=
| Refused (e : RegistryError)
| Panics
| Accepted (p : plan) (r : option PortRef).

Definition conforms (answer : outcome (Net + RegistryError)) (v : verdict) : Prop :=
  match v with
  | Refused e => answer = Done (inr e)
  | Panics => answer = Panic
  | Accepted p r => ∃ n, answer = Done (inl n) ∧ built p.1 p.2 r n
  end.

Definition refuse (why : Complaint) : verdict := Refused (Encode (InvalidInput why)).

Definition church_verdict (op : ChurchOp) (i : ChurchInput) : verdict :=
  let a := a_field i in
  let b := default 0 (b_field i) in
  if decide (op_field i ≠ None ∧ op_field i ≠ Some (expected_op op)) then refuse (OpMismatch (default [] (op_field i)) (codec_name op))
  else if MAX_CHURCH_NAT <? a then refuse (OperandOverCap (chars "a"%string) a MAX_CHURCH_NAT)
  else if decide (op ≠ SumOfSquares ∧ MAX_CHURCH_NAT < b) then refuse (OperandOverCap (chars "b"%string) b MAX_CHURCH_NAT)
  else match op with
       | Add => Accepted (binary_plan add_agents a b) None
       | Mul => Accepted (binary_plan mul_agents a b) None
       | Exp => if b =? 0 then Refused (Encode (InvalidNet NothingToReduce)) else Accepted (binary_plan exp_agents a b) None
       | SumOfSquares =>
           if a <=? 1 then Refused (Encode (InvalidNet NothingToReduce))
           else if a <=? 1000 then Accepted (squares_plan a) None else Panics
       end.

Definition horner_verdict (i : HornerInput) : verdict :=
  match rev (coeffs_field i) with
  | [] => refuse EmptyCoeffs
  | leading :: rest =>
      match Oracle.first_overflow 0 (coeffs_field i) with
      | Some (idx, v) => refuse (CoefficientOverCap idx v MAX_CHURCH_NAT)
      | None =>
          if MAX_CHURCH_NAT <? x_field i then refuse (OperandOverCap (chars "x"%string) (x_field i) MAX_CHURCH_NAT)
          else match rest with
               | [] => Accepted (church_agents leading, []) (Some (AgentPort 0 0))
               | _ => Accepted (horner_plan leading rest (x_field i)) None
               end
      end
  end.

Definition registry_verdict (name : text) (input : bytes) : verdict :=
  match head (filter (λ op, codec_name op = name) [Add; Mul; Exp; SumOfSquares]) with
  | Some op => match church_input input with None => refuse JsonParseFailed | Some i => church_verdict op i end
  | None =>
      if decide (name = chars "horner"%string) then
        match horner_input input with None => refuse JsonParseFailed | Some i => horner_verdict i end
      else Refused (NotFound name)
  end.

(** The answer of the registry once the encoder has answered. *)
Definition validated (allow : bool) (answer : outcome (Net + EncodeError)) : outcome (Net + RegistryError) :=
  e ← answer;
  mret (match e with
        | inr e => inr (Encode e)
        | inl net => match validate_encoded_net_inner net allow with inr e => inr (Encode e) | inl _ => inl net end
        end).

Lemma validated_built allow p r n : built p.1 p.2 r n → p.2 ≠ [] ∨ allow = true → conforms (validated allow (Done (inl n))) (Accepted p r).
Proof.
  intros B Ha. exists n. split; [|done]. unfold validated. rewrite done_bind, validate_wf by (apply (bt_wf _ _ _ _ B)).
  unfold is_reduced. rewrite (bt_queue _ _ _ _ B). destruct Ha as [Ha| ->]; [|done]. destruct p as [syms [|q Q]]; [done|]. by destruct allow.
Qed.

Lemma validated_normal p r n : built p.1 p.2 r n → p.2 = [] → conforms (validated false (Done (inl n))) (Refused (Encode (InvalidNet NothingToReduce))).
Proof.
  intros B E. unfold conforms, validated. rewrite done_bind, validate_wf by (apply (bt_wf _ _ _ _ B)). unfold is_reduced. by rewrite (bt_queue _ _ _ _ B), E.
Qed.

Lemma church_numeral_refused k : k ≤ MAX_CHURCH → ∀ answer, answer = encode_nat k →
  conforms (validated false (n ← answer; mret (inl n))) (Refused (Encode (InvalidNet NothingToReduce))).
Proof.
  intros Hk answer ->. destruct (encode_nat_built k Hk) as (n & -> & B). rewrite done_bind. by apply (validated_normal (church_agents k, []) (Some (AgentPort 0 0)) n B).
Qed.

Lemma built_accepted p r answer : p.2 ≠ [] → (∃ n, answer = Done n ∧ built p.1 p.2 r n) →
  conforms (validated false (n ← answer; mret (inl n))) (Accepted p r).
Proof. intros Hp (n & -> & B). rewrite done_bind. by apply validated_built; [|left]. Qed.

Lemma applied_pairs m ags st : (apply_plan m ags st).2 ≠ [].
Proof. unfold apply_plan, applied. cbn [snd]. by destruct (st.2). Qed.

Lemma fold_applied_pairs {A} (g : plan → A → plan) l st : (∀ st x, (g st x).2 ≠ []) → l ≠ [] → (foldl g st l).2 ≠ [].
Proof.
  intros Hg. revert st. induction l as [|x l IH]; [done|]. intros st _. cbn [foldl]. destruct l as [|y l]; [apply Hg|]. by apply IH.
Qed.

Lemma squares_pairs k : 2 ≤ k → (squares_plan k).2 ≠ [].
Proof.
  intros Hk. apply fold_applied_pairs; [intros; apply applied_pairs|]. intros E. apply (f_equal length) in E.
  rewrite length_rev, length_fmap, length_seq in E. cbn in E. lia.
Qed.

Lemma church_encode_verdict op i input : church_input input = Some i →
  conforms (validated false (church_encode op input)) (church_verdict op i).
Proof.
  intros Ei. assert (MAX_CHURCH = 1000000 ∧ MAX_CHURCH_NAT = 10000) as [Hm Hm'] by done. unfold church_encode, church_verdict. rewrite Ei.
  assert (Emm : match op_field i with Some op_str => if decide (op_str = expected_op op) then None else Some op_str | None => None end =
    if decide (op_field i ≠ None ∧ op_field i ≠ Some (expected_op op)) then Some (default [] (op_field i)) else None).
  { destruct (op_field i) as [s|]; repeat case_decide; naive_solver. }
  rewrite Emm. case_decide; [done|]. destruct (N.ltb_spec MAX_CHURCH_NAT (a_field i)) as [|Ha]; [done|].
  set (b := default 0 (b_field i)). case_decide as Hb.
  { destruct Hb as [Hop Hb]. rewrite bool_decide_eq_false_2 by done. by rewrite (proj2 (N.ltb_lt _ _) Hb). }
  assert (Eb : negb (bool_decide (op = SumOfSquares)) && (MAX_CHURCH_NAT <? b) = false).
  { destruct (decide (op = SumOfSquares)) as [->|]; [done|]. rewrite bool_decide_eq_false_2 by done. apply N.ltb_ge. destruct (N.le_gt_cases b MAX_CHURCH_NAT); [done|tauto]. }
  rewrite Eb. assert (Hb' : op ≠ SumOfSquares → b ≤ MAX_CHURCH) by (intros; destruct (N.le_gt_cases b MAX_CHURCH_NAT); [lia|tauto]). clear Hb Eb Emm.
  destruct op.
  - apply built_accepted; [done|]. apply build_add_built; [lia|auto].
  - apply built_accepted; [done|]. apply build_mul_built; [lia|auto].
  - destruct (N.eqb_spec b 0) as [Hz|Hz]; [|apply built_accepted; [done|]; apply build_exp_built; [lia|auto|done]].
    apply (church_numeral_refused 1); [lia|]. unfold build_exp. by rewrite Hz.
  - destruct (N.leb_spec (a_field i) 1) as [H1|H1].
    + assert (a_field i = 0 ∨ a_field i = 1) as [E|E] by lia; rewrite E; [by apply (church_numeral_refused 0)|by apply (church_numeral_refused 1)].
    + destruct (N.leb_spec (a_field i) 1000); [apply built_accepted; [by apply squares_pairs; lia|]; apply build_sum_of_squares_built; lia|].
      rewrite build_sum_of_squares_panics; [done|done|]. change (2 ^ 32) with 4294967296. lia.
Qed.

Lemma horner_encode_verdict i input : horner_input input = Some i → N.of_nat (length (coeffs_field i)) ≤ 80000 →
  conforms (validated (horner_accepts input) (horner_encode input)) (horner_verdict i).
Proof.
  intros Ei Hlen. assert (MAX_CHURCH = 1000000 ∧ MAX_CHURCH_NAT = 10000) as [Hm Hm'] by done.
  unfold horner_encode, horner_verdict, horner_accepts, Horner.encode. rewrite Ei. set (cs := coeffs_field i) in *.
  destruct (rev cs) as [|leading rest] eqn:Erev; [done|].
  destruct (Oracle.first_overflow 0 cs) as [[idx v]|] eqn:Eo; [done|]. destruct (N.ltb_spec MAX_CHURCH_NAT (x_field i)) as [|Hx]; [done|].
  assert (Hcs : Forall (λ c, c ≤ MAX_CHURCH_NAT) (leading :: rest)).
  { rewrite <- Erev. apply Forall_rev. pose proof (first_overflow_spec cs 0) as Hs. rewrite Eo in Hs. exact Hs. }
  apply Forall_cons in Hcs as [Hl Hrest]. assert (El : length cs = S (length rest)) by (by rewrite <- length_rev, Erev). rewrite El in *.
  destruct rest as [|c rest].
  - destruct (encode_nat_built leading ltac:(lia)) as (n & E & B). unfold encode_nat in E. rewrite (proj2 (N.ltb_ge _ _)) in E by lia.
    destruct (encode_church_into NetCore.new leading) as [[n0 lam]|]; [|done]. rewrite done_bind in E. injection E as <-. rewrite !done_bind.
    by apply (validated_built true (church_agents leading, [])); [|right].
  - destruct (horner_fold_built leading (c :: rest) (x_field i) Hl Hx Hrest ltac:(lia)) as (n & id & acc & E & Ef & B). rewrite E, done_bind. cbv beta iota.
    rewrite Ef, done_bind. destruct acc as [n' port]. rewrite !done_bind. apply validated_built; [exact B|]. left.
    apply fold_applied_pairs; [intros; apply applied_pairs|done].
Qed.

(** ** The registry *)

Lemma op_of_name op : head (filter (λ op', codec_name op' = codec_name op) [Add; Mul; Exp; SumOfSquares]) = Some op.
Proof. by destruct op. Qed.

Lemma op_of_horner : head (filter (λ op, codec_name op = chars "horner"%string) [Add; Mul; Exp; SumOfSquares]) = None.
Proof. done. Qed.

Lemma default_registry_get : ∃ r, default_registry (Value := Value) = Done r ∧
  ∀ name, get r name =
    match head (filter (λ op, codec_name op = name) [Add; Mul; Exp; SumOfSquares]) with
    | Some op => Some (ChurchArithmeticCodec op)
    | None => if decide (name = chars "horner"%string) then Some HornerCodec else None
    end.
Proof.
  eexists. split; [reflexivity|]. intros name. unfold get. cbn [codecs].
  cbn [Traits.name ChurchArithmeticCodec HornerCodec new codecs].
  rewrite lookup_insert. case_decide as Hn; [by subst name; rewrite op_of_horner|].
  assert (Hop : ∀ op, codec_name op = name → Some (ChurchArithmeticCodec (Value := Value) op) =
    match head (filter (λ op, codec_name op = name) [Add; Mul; Exp; SumOfSquares]) with
    | Some op => Some (ChurchArithmeticCodec op)
    | None => if decide (name = chars "horner"%string) then Some HornerCodec else None
    end) by (intros op <-; by rewrite op_of_name).
  do 4 (rewrite lookup_insert; destruct (decide (codec_name _ = name)); [by apply Hop|]). rewrite lookup_empty.
  rewrite decide_False by done. by rewrite !filter_cons_False by done.
Qed.

Lemma registry_conforms name input :
  (∀ i, horner_input input = Some i → N.of_nat (length (coeffs_field i)) ≤ 80000) →
  ∃ r, default_registry = Done r ∧ conforms (encode_and_validate r name input) (registry_verdict name input).
Proof.
  intros Hlen. destruct default_registry_get as (r & Er & Hget). exists r. split; [exact Er|].
  unfold encode_and_validate, registry_verdict. rewrite Hget. destruct (head _) as [op|].
  - destruct (church_input input) as [i|] eqn:Ei; [by apply church_encode_verdict|].
    cbn [Traits.encode ChurchArithmeticCodec]. unfold church_encode. by rewrite Ei.
  - case_decide; [|done]. destruct (horner_input input) as [i|] eqn:Ei.
    + pose proof (horner_encode_verdict i input Ei (Hlen i eq_refl)) as H'. unfold validated in H'. cbn [Traits.encode accepts_normal_form_input HornerCodec].
      by destruct (horner_accepts input).
    + cbn [Traits.encode HornerCodec]. unfold horner_encode. by rewrite Ei.
Qed.

(** Every plan has an agent, so what an encoder builds is exactly what its file
    holds. *)
Lemma applied_agents m ags st : (apply_plan m ags st).1 ≠ [].
Proof. unfold apply_plan, applied. cbn [fst]. unfold church_agents. by destruct (st.1). Qed.

Lemma fold_applied_agents {A} (g : plan → A → plan) l st : (∀ st x, (g st x).1 ≠ []) → st.1 ≠ [] → (foldl g st l).1 ≠ [].
Proof. intros Hg. revert st. induction l as [|x l IH]; [done|]. intros st _. cbn [foldl]. apply IH, Hg. Qed.

Lemma verdict_agents name input p r : registry_verdict name input = Accepted p r → p.1 ≠ [].
Proof.
  unfold registry_verdict, church_verdict, horner_verdict, refuse. intros E.
  repeat case_match; try done; injection E as <- _; try done; apply fold_applied_agents; try done; intros; apply applied_agents.
Qed.

Lemma encoded_plain name input n r : (∀ i, horner_input input = Some i → N.of_nat (length (coeffs_field i)) ≤ 80000) →
  default_registry = Done r → encode_and_validate r name input = Done (inl n) → wf n ∧ persisted n = n.
Proof.
  intros Hl Er E. destruct (registry_conforms name input Hl) as (r' & Er' & Hc). rewrite Er in Er'. injection Er' as <-. rewrite E in Hc.
  destruct (registry_verdict name input) as [|p|p rt] eqn:Ev; [done..|]. destruct Hc as (n' & En & B). injection En as <-.
  split; [apply (bt_wf _ _ _ _ B)|]. apply (bt_plain _ _ _ _ B), (verdict_agents _ _ _ _ Ev).
Qed.

(** C20. The registry's answer to every name and every input (with at most 80000
    coefficients) is its verdict: an unknown name, an input that is not JSON, a
    wrong [op], an operand over the cap or an empty polynomial is refused with
    the error that says so; sums, products, powers, sums of squares and
    polynomials are built to their plan, well-formed, with a queued pair unless
    the polynomial is constant; a power with exponent 0 and the sums of 0 or 1
    squares are refused as nets without redexes; more than 1000 squares make
    the encoder panic. *)
Theorem registry_exact_verdict name input :
  (∀ i, horner_input input = Some i → N.of_nat (length (coeffs_field i)) ≤ 80000) →
  ∃ r, default_registry = Done r ∧ conforms (encode_and_validate r name input) (registry_verdict name input).
Proof. apply registry_conforms. Qed.
End registry.

(** A concrete JSON library: two operands, or a polynomial and its point. *)
Definition toy_json : SerdeJson N := {|
  church_input := λ b, match b with [x; y] => Some (mkChurchInput None x (Some y)) | _ => None end;
  horner_input := λ b, match b with x :: cs => Some (mkHornerInput cs x) | [] => None end;
  lambda_input := λ _, None;
  size_input := head;
  church_output := Some;
  horner_output := λ _ bits, bits;
  lambda_output := λ _ _, None;
|}.

Lemma registry_exact_verdict_witness :
  ∃ r : EncoderRegistry N, @default_registry N toy_json = Done r ∧
    (∃ n, encode_and_validate r (chars "church_mul"%string) [300; 200] = Done (inl n) ∧ wf n ∧ length (redex_queue n) = 1%nat) ∧
    encode_and_validate r (chars "church_sum_of_squares"%string) [1001; 0] = Panic.
Proof.
  destruct (@registry_exact_verdict N toy_json (chars "church_mul"%string) [300; 200]) as (r & E & (n & En & B)); [by intros i [= <-]|].
  exists r. split; [exact E|]. split.
  - exists n. split; [exact En|]. split; [exact (bt_wf _ _ _ _ B)|]. rewrite (bt_queue _ _ _ _ B). reflexivity.
  - destruct (@registry_exact_verdict N toy_json (chars "church_sum_of_squares"%string) [1001; 0]) as (r' & E' & H'); [by intros i [= <-]|].
    rewrite E in E'. injection E' as <-. exact H'.
Defined.

(** ** Registration and listing *)

Section laws.
Context {Value : Type}.
Implicit Types (r : EncoderRegistry Value) (c : Codec Value).

(** Registering a list of codecs, the refused ones being dropped. *)
Definition register_all (cs : list (Codec Value)) : EncoderRegistry Value :=
  foldl (λ r c, match register r c with inl r => r | inr _ => r end) new cs.

(** [text_le] is the order of the texts. *)
Lemma text_le_refl s : text_le s s = true.
Proof. induction s as [|x s IH]; [done|]. cbn. rewrite N.eqb_refl. by destruct (x <? x). Qed.

Lemma text_le_trans s : ∀ t u, text_le s t = true → text_le t u = true → text_le s u = true.
Proof.
  induction s as [|x s IH]; intros [|y t] [|z u]; cbn; try done.
  destruct (N.ltb_spec x y), (N.ltb_spec y z), (N.ltb_spec x z), (N.eqb_spec x y), (N.eqb_spec y z), (N.eqb_spec x z); try done; try lia. apply IH.
Qed.

Lemma text_le_antisym s : ∀ t, text_le s t = true → text_le t s = true → s = t.
Proof.
  induction s as [|x s IH]; intros [|y t]; cbn; try done.
  destruct (N.ltb_spec x y), (N.ltb_spec y x), (N.eqb_spec x y), (N.eqb_spec y x); try done; try lia. intros. subst. f_equal. by apply IH.
Qed.

Lemma text_le_total s : ∀ t, text_le s t = true ∨ text_le t s = true.
Proof.
  induction s as [|x s IH]; intros [|y t]; cbn; auto.
  destruct (N.ltb_spec x y), (N.ltb_spec y x), (N.eqb_spec x y), (N.eqb_spec y x); auto; lia.
Qed.

(** The keys of the map are the names of the codecs. *)
Definition keyed r : Prop := ∀ nm c, get r nm = Some c → name c = nm.

Lemma register_keyed r c r' : keyed r → register r c = inl r' → keyed r'.
Proof.
  unfold keyed, register, get. intros Hk. case_match; [done|]. intros [= <-] nm c'. cbn [codecs]. rewrite lookup_insert. case_decide as E; [by intros [= <-]|apply Hk].
Qed.

Lemma register_all_keyed cs : keyed (register_all cs).
Proof.
  unfold register_all. assert (H : keyed (@new Value)) by (intros nm c; unfold get, new; cbn [codecs]; by rewrite lookup_empty).
  revert H. generalize (@new Value). induction cs as [|c cs IH]; intros r Hk; [done|]. cbn [foldl]. apply IH.
  destruct (register r c) as [r'|e] eqn:E; [by eapply register_keyed|done].
Qed.

Lemma register_get r c nm :
  get (match register r c with inl r => r | inr _ => r end) nm = match get r nm with Some c' => Some c' | None => if decide (name c = nm) then Some c else None end.
Proof.
  unfold register, get. destruct (codecs r !! name c) as [c0|] eqn:E.
  - destruct (codecs r !! nm) eqn:E'; [done|]. case_decide as Hn; [subst; congruence|done].
  - cbn [codecs]. rewrite lookup_insert. case_decide as Hn; [subst nm; by rewrite E|]. by destruct (codecs r !! nm).
Qed.
End laws.

Lemma text_le_dec_trans : Transitive (λ p q : text * text, Is_true (text_le p.1 q.1)).
Proof. intros p q u H1 H2. apply Is_true_true. apply Is_true_true in H1, H2. by eapply text_le_trans. Qed.

Lemma text_le_dec_total : Total (λ p q : text * text, Is_true (text_le p.1 q.1)).
Proof. intros p q. rewrite !Is_true_true. apply text_le_total. Qed.

Lemma registered_first {Value} (cs : list (Codec Value)) nm : get (register_all cs) nm = head (filter (λ c, name c = nm) cs).
Proof.
  unfold register_all. assert (H : ∀ r, get (foldl (λ r c, match register r c with inl r => r | inr _ => r end) r cs) nm =
    match get r nm with Some c => Some c | None => head (filter (λ c, name c = nm) cs) end).
  { induction cs as [|c cs IH]; intros r; cbn [foldl]; [by destruct (get r nm)|]. rewrite IH, register_get, filter_cons.
    destruct (get r nm); [done|]. by case_decide. }
  rewrite H. unfold get at 1, new. cbn [codecs]. by rewrite lookup_empty.
Qed.

Lemma NoDup_fst_inj {A B} (l : list (A * B)) x y z : NoDup l.*1 → (x, y) ∈ l → (x, z) ∈ l → (x, y) = (x, z).
Proof.
  intros Hnd [i Hi]%list_elem_of_lookup [j Hj]%list_elem_of_lookup. assert (i = j) as <-.
  { eapply NoDup_lookup; [exact Hnd|by rewrite list_lookup_fmap, Hi|by rewrite list_lookup_fmap, Hj]. }
  congruence.
Qed.

Definition labels {Value} (values : list (Codec Value)) : list (text * text) := (λ c, (name c, description c)) <$> values.

Lemma keyed_labels {Value} (r : EncoderRegistry Value) : keyed r → (labels (map_to_list (codecs r)).*2).*1 = (map_to_list (codecs r)).*1.
Proof.
  intros Hk. unfold labels. rewrite <- !list_fmap_compose. apply list_fmap_ext. intros i [nm c] Hi. cbn.
  apply Hk. apply list_elem_of_lookup_2, elem_of_map_to_list in Hi. exact Hi.
Qed.

(** C34. Whatever is registered and in whatever order, each name holds the first
    codec registered under it, and the listing is the same for every order in
    which the map yields its values: sorted by name, one entry per name, each
    with its codec's description. *)
Theorem registry_listing_exact {Value} (cs : list (Codec Value)) :
  let r := register_all cs in
  (∀ nm, get r nm = head (filter (λ c, name c = nm) cs)) ∧
  (∀ values, values ≡ₚ (map_to_list (codecs r)).*2 → sort_pairs ((λ c, (name c, description c)) <$> values) = list_codecs r) ∧
  (∀ nm d, (nm, d) ∈ list_codecs r ↔ ∃ c, get r nm = Some c ∧ description c = d) ∧
  NoDup (list_codecs r).*1 ∧ StronglySorted (λ p q, Is_true (text_le p.1 q.1)) (list_codecs r).
Proof.
  intros r. pose proof (register_all_keyed cs) as Hk. fold r in Hk. pose proof text_le_dec_trans. pose proof text_le_dec_total.
  assert (Hnd : NoDup (labels (map_to_list (codecs r)).*2).*1) by (rewrite (keyed_labels r Hk); apply NoDup_fst_map_to_list).
  assert (Hperm : ∀ values : list (Codec Value), sort_pairs (labels values) ≡ₚ labels values) by (intros; apply merge_sort_Permutation).
  assert (Hsort : ∀ values : list (Codec Value), StronglySorted (λ p q, Is_true (text_le p.1 q.1)) (sort_pairs (labels values))) by (intros; apply (StronglySorted_merge_sort _)).
  unfold list_codecs. fold (labels (map_to_list (codecs r)).*2). split_and!; [apply registered_first| | | |apply Hsort].
  - intros values Hv. fold (labels values). assert (Hl : labels values ≡ₚ labels (map_to_list (codecs r)).*2) by (unfold labels; by rewrite Hv).
    eapply StronglySorted_unique_strong; [|apply Hsort|apply Hsort|by rewrite !Hperm].
    intros [x d] [y e]. rewrite !Hperm, Hl. intros Hx Hy Hxy%Is_true_true Hyx%Is_true_true. cbn in *.
    pose proof (text_le_antisym _ _ Hxy Hyx) as ->. by apply (NoDup_fst_inj _ _ _ _ Hnd Hx Hy).
  - intros nm d. rewrite Hperm. unfold labels. rewrite list_elem_of_fmap. split.
    + intros (c & [= -> ->] & ([nm' c'] & -> & Hin)%list_elem_of_fmap). apply elem_of_map_to_list in Hin. exists c'. cbn [snd]. split; [|done]. by rewrite (Hk _ _ Hin).
    + intros (c & Hc & <-). exists c. split; [by rewrite (Hk _ _ Hc)|]. apply list_elem_of_fmap. exists (nm, c). split; [done|by apply elem_of_map_to_list].
  - by rewrite Hperm.
Qed.

(** ** Recipes *)

Import Recipe.

(** The queue of a partition: every pair twice. *)
Definition doubled (k : nat) : list (AgentId * AgentId) := seq 0 k ≫= λ i, let c := 2 * N.of_nat i in [(c, c + 1); (c, c + 1)].

Lemma shape_add_pair k n O : shape n (concat (replicate k [Con; Era])) (doubled k) O → 2 * N.of_nat k + 2 ≤ u32_MAX →
  ∃ n' O', add_pair n = Done n' ∧ shape n' (concat (replicate (S k) [Con; Era])) (doubled (S k)) O'.
Proof.
  intros H Hr. set (syms := concat (replicate k [Con; Era])) in *.
  assert (Hl : N.of_nat (length syms) = 2 * N.of_nat k).
  { unfold syms. clear. induction k as [|k IH]; [done|]. cbn [replicate concat]. rewrite length_app. cbn [length]. lia. }
  destruct (shape_create n syms _ O Con H ltac:(lia)) as (n1 & E1 & H1 & _). unfold add_pair. rewrite E1, done_bind. cbv beta iota.
  destruct (shape_create n1 _ _ _ Era H1) as (n2 & E2 & H2 & _); [rewrite length_app; cbn [length]; lia|]. rewrite E2, done_bind. cbv beta iota.
  rewrite length_app in E2, H2 |- *. cbn [length] in E2, H2 |- *. rewrite Nat2N.inj_add, Hl in *. cbn [N.of_nat] in *. change (N.pos (Pos.of_succ_nat 0)) with 1 in *.
  set (c := 2 * N.of_nat k) in *. rewrite <- app_assoc in H2. cbn [app] in H2.
  assert (H3 : shape n2 (syms ++ [Con; Era]) (doubled k) (open_end (AgentPort c 0) ++ open_end (AgentPort (c + 1) 0) ++ [AgentPort c 1; AgentPort c 2] ++ O)).
  { revert H2. apply shape_proper. change (range_u (total_ports Con)) with [0; 1; 2]. change (range_u (total_ports Era)) with [0].
    cbn [fmap list_fmap open_end app]. solve_Permutation. }
  destruct (shape_connect _ _ _ _ _ _ H3) as [H4 _]; [done|done|done|]. cbn [push_redex] in H4. eexists _, _. split; [reflexivity|].
  assert (Es : concat (replicate (S k) [Con; Era]) = syms ++ [Con; Era]).
  { replace (S k) with (k + 1)%nat by lia. by rewrite replicate_add, concat_app. }
  assert (Eq : doubled (S k) = (doubled k ++ [(c, c + 1)]) ++ [(c, c + 1)]).
  { unfold doubled. rewrite seq_S, bind_app, <- app_assoc. done. }
  rewrite Es, Eq. destruct H4 as [[W D Op] A Nx F I Rt Q P]. split; try done.
  - split; [by apply with_queue_wf|done|]. exact Op.
  - change (N.of_nat 1) with 1. rewrite <- I. reflexivity.
  - change (redex_queue (connect n2 (AgentPort c 0) (AgentPort (c + 1) 0)) ++ [(c, c + 1)] = (doubled k ++ [(c, c + 1)]) ++ [(c, c + 1)]). by rewrite Q.
  - intros a b. change ((with_redex_queue _ _).[a, 0]) with ((connect n2 (AgentPort c 0) (AgentPort (c + 1) 0)).[a, 0]).
    rewrite P. set_solver.
Qed.

Lemma add_pairs_shape m : ∀ k n O, shape n (concat (replicate k [Con; Era])) (doubled k) O → 2 * N.of_nat (k + m) ≤ u32_MAX →
  ∃ n' O', add_pairs m n = Done n' ∧ shape n' (concat (replicate (k + m) [Con; Era])) (doubled (k + m)) O'.
Proof.
  induction m as [|m IH]; intros k n O H Hr; [exists n, O; by rewrite Nat.add_0_r|]. cbn [add_pairs].
  destruct (shape_add_pair k n O H ltac:(lia)) as (n1 & O1 & -> & H1). rewrite done_bind. rewrite <- Nat.add_succ_comm in *. by apply (IH _ _ _ H1).
Qed.

Lemma live_all (syms : list Symbol) n : agents n = imap (λ i s, Some (mkAgent s (N.of_nat i))) syms → count_live_agents n = length syms.
Proof.
  intros E. unfold count_live_agents. rewrite E. clear E. generalize 0%nat as j.
  assert (H : ∀ (f : nat → Symbol → Agent), length (filter (λ slot, is_Some slot) (imap (λ i s, Some (f i s)) syms)) = length syms).
  { induction syms as [|s syms IH]; intros f; [done|]. cbn [imap]. rewrite filter_cons_True by done. cbn [length]. f_equal. apply (IH (λ i, f (S i))). }
  intros _. apply (H (λ i s, mkAgent s (N.of_nat i))).
Qed.

Lemma length_concat_pairs k : length (concat (replicate k [Con; Era])) = (2 * k)%nat.
Proof. induction k as [|k IH]; [done|]. cbn [replicate concat]. rewrite length_app, IH. cbn. lia. Qed.

Lemma generate_partition_spec recipe : recipe_pairs recipe ≤ 2 ^ 30 →
  let k := N.to_nat (N.max (recipe_pairs recipe) 1) in
  ∃ p, generate_partition recipe = Done p ∧ wf (subnet p) ∧ Partition.worker_id p = recipe_worker recipe ∧
    agents (subnet p) = imap (λ i s, Some (mkAgent s (N.of_nat i))) (concat (replicate k [Con; Era])) ∧ redex_queue (subnet p) = doubled k.
Proof.
  intros Hp k. assert (u32_MAX = 4294967295) as Hu by done. change (2 ^ 30) with 1073741824 in Hp.
  destruct (add_pairs_shape k 0 NetCore.new [] shape_new ltac:(lia)) as (n & O & E & [[W _ _] A _ _ _ _ Q _]).
  unfold generate_partition. fold k. rewrite E, done_bind. by eexists.
Qed.

Section recipes.
Context {Value : Type} `{SerdeJson Value}.

(** The pairs a fair division gives to each worker. *)
Definition share (size workers w : N) : N := size / workers + (if w <? size mod workers then 1 else 0).

Lemma share_sum size workers (k : nat) : 0 < workers → N.of_nat k ≤ workers →
  sum_list ((λ w, N.to_nat (share size workers w)) <$> range_u (N.of_nat k)) = N.to_nat (N.of_nat k * (size / workers) + N.min (N.of_nat k) (size mod workers)).
Proof.
  intros Hw. induction k as [|k IH]; intros Hk; [change (N.of_nat 0) with 0; by rewrite N.min_0_l, N.mul_0_l|]. unfold range_u in *. rewrite Nat2N.id in *.
  rewrite seq_S, !fmap_app, sum_list_with_app, IH by lia. cbn. unfold share. destruct (N.ltb_spec (N.of_nat k) (size mod workers)); unfold id; lia.
Qed.

Lemma made_sum size workers (k : nat) : 0 < workers → N.of_nat k ≤ workers →
  sum_list ((λ w, N.to_nat (N.max (share size workers w) 1)) <$> range_u (N.of_nat k)) =
  N.to_nat (if size <? workers then N.of_nat k else N.of_nat k * (size / workers) + N.min (N.of_nat k) (size mod workers)).
Proof.
  intros Hw. induction k as [|k IH]; intros Hk; [change (N.of_nat 0) with 0; rewrite N.min_0_l, N.mul_0_l; by destruct (size <? workers)|]. unfold range_u in *. rewrite Nat2N.id in *.
  rewrite seq_S, !fmap_app, sum_list_with_app, IH by lia. cbn. unfold share, id. destruct (N.ltb_spec size workers) as [Hs|Hs].
  - rewrite N.div_small by done. destruct (_ <? _); lia.
  - assert (1 ≤ size / workers) by (apply N.div_le_lower_bound; lia). destruct (N.ltb_spec (N.of_nat k) (size mod workers)); lia.
Qed.

(** The partitions of a list of recipes. *)
Lemma generate_all (rs : list MinimalRecipe) : (∀ r, r ∈ rs → recipe_pairs r ≤ 2 ^ 30) →
  ∃ parts, Forall2 (λ r p, generate_partition r = Done p ∧ wf (subnet p)) rs parts ∧
    sum_list ((λ p, count_live_agents (subnet p)) <$> parts) = (2 * sum_list ((λ r, N.to_nat (N.max (recipe_pairs r) 1)) <$> rs))%nat.
Proof.
  induction rs as [|r rs IH]; intros Hr; [by exists []|]. destruct IH as (parts & H2 & Hs); [intros r' Hin; apply Hr; set_solver|].
  destruct (generate_partition_spec r (Hr r ltac:(set_solver))) as (p & E & W & _ & A & _). exists (p :: parts). split; [by constructor|].
  cbn [fmap list_fmap sum_list_with]. rewrite Hs, (live_all _ _ A), length_concat_pairs. unfold id. lia.
Qed.

(** C33. [make_recipes] divides the pairs fairly: one recipe per worker, in order,
    sizes that differ by at most one and add up to the input.  But what the
    workers then materialise has [2 * max size workers] agents, while [encode]
    builds [2 * max size 1]: with fewer pairs than workers the recipes describe a
    larger net than the encoder's. *)
Theorem recipes_exact input size workers : size_input input = Some size → 0 < workers → size ≤ 2 ^ 29 → workers ≤ 2 ^ 29 →
  ∃ rs parts net, make_recipes input workers = inl rs ∧
    recipe_worker <$> rs = range_u workers ∧
    (∀ r, r ∈ rs → size / workers ≤ recipe_pairs r ≤ size / workers + 1) ∧
    sum_list ((λ r, N.to_nat (recipe_pairs r)) <$> rs) = N.to_nat size ∧
    Forall2 (λ r p, generate_partition r = Done p ∧ wf (subnet p)) rs parts ∧
    sum_list ((λ p, count_live_agents (subnet p)) <$> parts) = (2 * N.to_nat (N.max size workers))%nat ∧
    minimal_encode input = Done (inl net) ∧ count_live_agents net = (2 * N.to_nat (N.max size 1))%nat.
Proof.
  intros Es Hw Hs Hws. change (2 ^ 29) with 536870912 in *.
  set (rs := (λ w, mkRecipe w (share size workers w)) <$> range_u workers).
  assert (Hshare : ∀ w, size / workers ≤ share size workers w ≤ size / workers + 1) by (intros w; unfold share; destruct (_ <? _); lia).
  assert (Hdiv : size / workers ≤ size) by (apply N.Div0.div_le_upper_bound; nia). pose proof (N.Div0.div_mod size workers) as Hdm.
  assert (Hin : ∀ r, r ∈ rs → ∃ w, r = mkRecipe w (share size workers w)) by (intros r (w & -> & _)%list_elem_of_fmap; by exists w).
  destruct (generate_all rs) as (parts & H2 & Hsum).
  { intros r (w & ->)%Hin. cbn [recipe_pairs]. specialize (Hshare w). change (2 ^ 30) with 1073741824. lia. }
  destruct (generate_partition_spec (mkRecipe 0 size)) as (p & E & W & _ & A & _); [cbn [recipe_pairs]; change (2 ^ 30) with 1073741824; lia|].
  exists rs, parts, (subnet p). assert (Ek : N.of_nat (N.to_nat workers) = workers) by lia. split_and!.
  - unfold make_recipes, parse_size. by rewrite (proj2 (N.eqb_neq workers 0)), Es by lia.
  - unfold rs. rewrite <- list_fmap_compose. apply list_fmap_id.
  - intros r (w & ->)%Hin. apply Hshare.
  - unfold rs. rewrite <- list_fmap_compose. pose proof (share_sum size workers (N.to_nat workers) Hw ltac:(lia)) as Hsh. rewrite Ek in Hsh.
    etrans; [exact Hsh|]. pose proof (N.mod_lt size workers). lia.
  - exact H2.
  - rewrite Hsum. unfold rs. rewrite <- list_fmap_compose. pose proof (made_sum size workers (N.to_nat workers) Hw ltac:(lia)) as Hm. rewrite Ek in Hm.
    etrans; [apply (f_equal (λ x, 2 * x)%nat), Hm|]. pose proof (N.mod_lt size workers). destruct (N.ltb_spec size workers); lia.
  - unfold minimal_encode, parse_size. by rewrite Es, E.
  - rewrite (live_all _ _ A), length_concat_pairs. cbn [recipe_pairs]. lia.
Qed.
End recipes.

Lemma recipes_exact_witness : ∃ rs parts net, @make_recipes N toy_json [1] 3 = inl rs ∧
  Forall2 (λ r p, generate_partition r = Done p ∧ wf (subnet p)) rs parts ∧
  sum_list ((λ p, count_live_agents (subnet p)) <$> parts) = 6%nat ∧
  @minimal_encode N toy_json [1] = Done (inl net) ∧ count_live_agents net = 2%nat.
Proof.
  destruct (@recipes_exact N toy_json [1] 1 3 eq_refl ltac:(lia) ltac:(lia) ltac:(lia)) as (rs & parts & net & E & _ & _ & _ & H2 & Hs & En & Hc).
  exists rs, parts, net. split; [exact E|]. split; [exact H2|]. split; [exact Hs|]. split; [exact En|exact Hc].
Defined.
