(* ===== verification/Config.v ===== *)
(** The command line's arguments and the configurations built from them
    (config.rs, and the transport part of protocol/config.rs).

    A path and a string are texts; an [f32] is its bits; the model is the build
    with default features on Unix.  The parsing of [clap] and the resolution of
    addresses are not modelled. *)
From stdpp Require Import strings.
From S2P Require Import Prelude NetTypes NetCore Partition Coordinator Split Grid.
Local Open Scope N_scope.

Module Config.

Definition text : Type := list N.

(** ** Arguments *)

Inductive LogFormat : Type := Text | Json.

Inductive StreamingStrategyArg : Type := RoundRobin | Fennel.

Inductive DispatchModeArg : Type := Auto | Push | Pull.

(** [impl From<DispatchModeArg> for DispatchMode]. *)
Definition dispatch_mode_from (arg : DispatchModeArg) : DispatchMode :=
  match arg with
  | Auto => Coordinator.Auto
  | Push => Coordinator.PushMode
  | Pull => Coordinator.PullMode
  end.

Record CoordinatorArgs : Type := mkCoordinatorArgs {
  ca_workers : N;
  ca_bind : text;
  ca_input : text;
  ca_max_rounds : option N;
  ca_strict_bsp : bool;
  ca_output : option text;
  ca_metrics : option text;
  ca_strategy : text;
  ca_log_format : option LogFormat;
  ca_token : option text;
  ca_token_file : text;
  ca_transport : text;
  ca_socket_path : option text;
  ca_no_tcp_nodelay : bool;
  ca_send_buffer : N;
  ca_recv_buffer : N;
  ca_keepalive : N;
  ca_compression_threshold : N;
  ca_use_zero_copy : bool;
  ca_delta_mode : bool;
  ca_hybrid : bool;
  ca_elastic_departure : bool;
  ca_retain_partitions : bool;
  ca_elastic_join : bool;
  ca_checkpoint_partitions : bool;
  ca_initial_wait_timeout : N;
  ca_join_window_min_ms : N;
  ca_join_window_max_ms : N;
  ca_solo_budget : N;
  ca_chunk_size : N;
  ca_streaming_strategy : StreamingStrategyArg;
  ca_fennel_alpha : option N;
  ca_dispatch_mode : DispatchModeArg;
  ca_max_pending_lifetime : N;
}.

Record LocalArgs : Type := mkLocalArgs {
  la_workers : N;
  la_input : text;
  la_max_rounds : option N;
  la_strict_bsp : bool;
  la_delta_mode : bool;
  la_hybrid : bool;
  la_elastic_departure : bool;
  la_elastic_join : bool;
  la_initial_wait_timeout : N;
  la_solo_budget : N;
  la_chunk_size : N;
  la_streaming_strategy : StreamingStrategyArg;
  la_fennel_alpha : option N;
  la_dispatch_mode : DispatchModeArg;
  la_max_pending_lifetime : N;
  la_output : option text;
  la_metrics : option text;
  la_strategy : text;
  la_log_format : option LogFormat;
}.

Record ReduceArgs : Type := mkReduceArgs { ra_input : text; ra_output : option text }.

Record InspectArgs : Type := mkInspectArgs { ia_input : text }.

Inductive ArithmeticOp : Type := Add | Mul | Exp.

Record ComputeArgs : Type := mkComputeArgs {
  operation : option ArithmeticOp;
  operand_a : option N;
  operand_b : option N;
  ma_encoder : option text;
  ma_codec : option text;
  ma_input : option text;
  ma_workers : option N;
  ma_output : option text;
  ma_metrics : option text;
  encode_only : bool;
}.

Record DecodeArgs : Type := mkDecodeArgs { da_codec : option text; da_encoder : option text; da_input : text; da_output : option text }.

(** ** Errors

    What a refused configuration is told; the texts of the messages are left
    out. *)
Inductive Refusal : Type :=
| UnknownStrategy (name : text)
| UnknownTransport (name : text).

(** ** The grid's configuration *)

(** 1.0 as the bits of an [f32]. *)
Definition ONE_F32 : N := 1065353216.

Definition args_to_streaming_strategy (arg : StreamingStrategyArg) (fennel_alpha : option N) : StreamingStrategyConfig :=
  match arg with
  | RoundRobin => Grid.RoundRobin
  | Fennel => Grid.Fennel (default ONE_F32 fennel_alpha)
  end.

(** A [Duration] is in milliseconds; [from_secs]. *)
Definition from_secs (s : N) : N := 1000 * s.

Definition build_grid_config (args : CoordinatorArgs) : GridConfig :=
  normalize {|
    num_workers := ca_workers args;
    max_rounds := ca_max_rounds args;
    strict_bsp := ca_strict_bsp args;
    delta_mode := ca_delta_mode args;
    coordinator_free_rounds := false;
    hybrid_coordinator := ca_hybrid args;
    elastic_departure := ca_elastic_departure args;
    retain_partitions := ca_retain_partitions args;
    elastic_join := ca_elastic_join args;
    checkpoint_partitions := ca_checkpoint_partitions args;
    initial_wait_timeout := from_secs (ca_initial_wait_timeout args);
    join_window_min := ca_join_window_min_ms args;
    join_window_max := ca_join_window_max_ms args;
    solo_budget := ca_solo_budget args;
    recycle_under_delta := DisableUnderDelta;
    chunk_size_cfg := ca_chunk_size args;
    streaming_strategy := args_to_streaming_strategy (ca_streaming_strategy args) (ca_fennel_alpha args);
    dispatch_mode := dispatch_mode_from (ca_dispatch_mode args);
    max_pending_lifetime := ca_max_pending_lifetime args;
  |}.

Definition build_grid_config_from_local (args : LocalArgs) : GridConfig :=
  let d := grid_config_default in
  normalize {|
    num_workers := la_workers args;
    max_rounds := la_max_rounds args;
    strict_bsp := la_strict_bsp args;
    delta_mode := la_delta_mode args;
    coordinator_free_rounds := coordinator_free_rounds d;
    hybrid_coordinator := la_hybrid args;
    elastic_departure := la_elastic_departure args;
    retain_partitions := retain_partitions d;
    elastic_join := la_elastic_join args;
    checkpoint_partitions := checkpoint_partitions d;
    initial_wait_timeout := from_secs (la_initial_wait_timeout args);
    join_window_min := join_window_min d;
    join_window_max := join_window_max d;
    solo_budget := la_solo_budget args;
    recycle_under_delta := recycle_under_delta d;
    chunk_size_cfg := la_chunk_size args;
    streaming_strategy := args_to_streaming_strategy (la_streaming_strategy args) (la_fennel_alpha args);
    dispatch_mode := dispatch_mode_from (la_dispatch_mode args);
    max_pending_lifetime := la_max_pending_lifetime args;
  |}.

(** ** The transport's configuration *)

Inductive TransportBackend : Type := Tcp | Unix | Channel.

Record TransportConfig : Type := mkTransport {
  backend : TransportBackend;
  tcp_nodelay : bool;
  send_buffer_bytes : option N;
  recv_buffer_bytes : option N;
  keepalive_idle : option N;
  keepalive_interval : N;
  keepalive_count : N;
  unix_socket_path : option text;
  tc_compression_threshold : N;
  tc_use_zero_copy : bool;
}.

Definition transport_config_default : TransportConfig :=
  mkTransport Tcp true (Some 4194304) (Some 4194304) (Some (from_secs 30)) (from_secs 10) 3 None 1024 false.

Definition build_transport_config (backend_str : text) (socket_path : option text) (no_tcp_nodelay : bool)
    (send_buffer recv_buffer keepalive compression_threshold : N) (use_zero_copy : bool) : TransportConfig + Refusal :=
  let backend :=
    if bool_decide (backend_str = chars "tcp"%string) then inl Tcp
    else if bool_decide (backend_str = chars "unix"%string) then inl Unix
    else inr (UnknownTransport backend_str) in
  match backend with
  | inr e => inr e
  | inl backend =>
      let keepalive_idle := if keepalive =? 0 then None else Some (from_secs keepalive) in
      let d := transport_config_default in
      inl (mkTransport backend (negb no_tcp_nodelay) (Some send_buffer) (Some recv_buffer) keepalive_idle
             (keepalive_interval d) (keepalive_count d) socket_path compression_threshold use_zero_copy)
  end.

(** The strategy is boxed: an instance of the class. *)
Definition parse_strategy (name : text) : PartitionStrategy + Refusal :=
  if bool_decide (name = chars "round-robin"%string) then inl ContiguousIdStrategy else inr (UnknownStrategy name).

End Config.
