(* ===== verification/Security.v ===== *)
(** Tokens and the security configuration (security/token.rs, security/error.rs,
    security/mod.rs).  The random number generator and base64 are a class; the
    constant-time comparison of two tokens is in Runtime.v.  The messages of the
    errors are left out. *)
From stdpp Require Import strings.
From S2P Require Import Prelude NetTypes NetCore Runtime.
Local Open Scope N_scope.

Module Security.

Definition text : Type := list N.

(** ** Errors *)

Inductive TokenError : Type :=
| InvalidBase64
| InvalidLength (len : nat).

Inductive SecurityError : Type :=
| Token (e : TokenError)
| TlsConfig
| Certificate
| AuthFailed
| Config.

(** ** Tokens *)

Class TokenLibraries : Type := {
  (** [OsRng], [None] when the system has no entropy. *)
  os_random : option (list N);
  base64_decode : text → option (list N);
  base64_encode : list N → text;
}.

Section security.
Context `{TokenLibraries}.

Definition generate : outcome Runtime.AuthToken := Runtime.mkToken <$> unwrap os_random.

Definition from_base64 (s : text) : Runtime.AuthToken + TokenError :=
  match base64_decode s with
  | None => inr InvalidBase64
  | Some bytes => if negb (length bytes =? 32)%nat then inr (InvalidLength (length bytes)) else inl (Runtime.mkToken bytes)
  end.

Definition to_base64 (token : Runtime.AuthToken) : text := base64_encode (Runtime.as_bytes token).

(** ** The configuration *)

Inductive SecurityTier : Type := Development | PrivateNetwork | Production.

(** The timeout is in milliseconds. *)
Record SecurityConfig : Type := mkSecurity {
  tier : SecurityTier;
  token : option Runtime.AuthToken;
  max_connections : N;
  idle_timeout : N;
}.

Definition security_config_default : SecurityConfig := mkSecurity Development None 1024 30000.

Definition detect_tier (has_token has_tls : bool) : SecurityTier :=
  match has_token, has_tls with
  | false, _ => Development
  | true, false => PrivateNetwork
  | true, true => Production
  end.

Definition AUTO : text := chars "auto"%string.

Definition build_security_config (token_flag : option text) (has_tls : bool) : outcome (SecurityConfig + SecurityError) :=
  token ← match token_flag with
          | None => mret (inl None)
          | Some value =>
              if bool_decide (value = AUTO) then t ← generate; mret (inl (Some t))
              else mret (match from_base64 value with inl t => inl (Some t) | inr e => inr (Token e) end)
          end;
  match token with
  | inr e => mret (inr e)
  | inl token =>
      let has_token := bool_decide (is_Some token) in
      let tier := detect_tier has_token has_tls in
      if has_tls && negb has_token then mret (inr Config)
      else mret (inl (mkSecurity tier token 1024 30000))
  end.

End security.
End Security.
