(* ===== verification/Commands.v ===== *)
(** Files and the commands of the binary (io/mod.rs, io/binary.rs, the file
    functions of io/text_dsl.rs, commands.rs).

    A command threads a world, the files and what has been printed, through
    fuel, panics and errors.  Bincode, the JSON printer and the clock are the
    operations of a class; the command line's parser runs before the commands
    and is not modelled. *)
From stdpp Require Import strings.
From S2P Require Import Prelude NetTypes NetCore Reduction Partition Split Grid DeltaGrid Church Lambda TextDsl Codecs Generators Config Runtime Security.
Local Open Scope N_scope.

(** ** Unicode scalar values and bytes (std) *)

Module Utf8.
Import Lambda.

Definition scalar (c : N) : Prop := c < 55296 ∨ 57343 < c < 1114112.

Definition encode_char (c : N) : list N :=
  if c <? 128 then [c]
  else if c <? 2048 then [192 + c / 64; 128 + c mod 64]
  else if c <? 65536 then [224 + c / 4096; 128 + c / 64 mod 64; 128 + c mod 64]
  else [240 + c / 262144; 128 + c / 4096 mod 64; 128 + c / 64 mod 64; 128 + c mod 64].

(** [String::into_bytes]. *)
Definition encode (s : list N) : list N := s ≫= encode_char.

Definition cont (b : N) : bool := in_range 128 191 b.
Definition low (b : N) : N := b - 128.

(** One scalar value and the rest: no overlong form, no surrogate. *)
Definition decode_char (b : N) (r : list N) : option (N * list N) :=
  if b <? 128 then Some (b, r)
  else if in_range 194 223 b then
    match r with
    | b1 :: r => if cont b1 then Some ((b - 192) * 64 + low b1, r) else None
    | _ => None
    end
  else if in_range 224 239 b then
    match r with
    | b1 :: b2 :: r =>
        let c := (b - 224) * 4096 + low b1 * 64 + low b2 in
        if cont b1 && cont b2 && (2047 <? c) && negb (in_range 55296 57343 c) then Some (c, r) else None
    | _ => None
    end
  else if in_range 240 244 b then
    match r with
    | b1 :: b2 :: b3 :: r =>
        let c := (b - 240) * 262144 + low b1 * 4096 + low b2 * 64 + low b3 in
        if cont b1 && cont b2 && cont b3 && in_range 65536 1114111 c then Some (c, r) else None
    | _ => None
    end
  else None.

(** Every turn consumes a byte, so the length is fuel enough. *)
Fixpoint decode_from (fuel : nat) (r : list N) : option (list N) :=
  match fuel, r with
  | _, [] => Some []
  | O, _ => None
  | S fuel, b :: r =>
      '(c, r) ← decode_char b r;
      s ← decode_from fuel r;
      Some (c :: s)
  end.

(** [String::from_utf8]. *)
Definition decode (r : list N) : option (list N) := decode_from (length r) r.

End Utf8.

(** ** Paths (std) *)

Module Path.
Import Lambda TextDsl.

Definition SLASH : N := 47.

Definition components (p : text) : list text :=
  filter (λ c, c ≠ [] ∧ c ≠ chars "."%string) (split_on SLASH p).

Definition file_name (p : text) : option text :=
  c ← last (components p);
  if bool_decide (c = chars ".."%string) then None else Some c.

(** What follows the last dot of the file name, unless nothing precedes it. *)
Definition extension (p : text) : option text :=
  name ← file_name p;
  '(after, before) ← split_once (reverse name);
  if bool_decide (before = []) then None else Some (reverse after).

End Path.

(** ** The world and the commands' monad *)

Module World.
Import Lambda TextDsl Traits Registry.

Abbreviation text := (list N).
Abbreviation bytes := (list N).

(** The files by path, and what the process has printed. *)
Record World : Type := mkWorld { files : gmap text bytes; stdout : text }.

Inductive IoError : Type := NotFound | Denied | InvalidUtf8.

(** What a [Config] error says. *)
Inductive Fault : Type :=
| SerializationFailed
| DeserializationFailed (path : text)
| IcRejected (path : text) (e : IcError)
| UnknownExtension (path : text)
| JsonUnsupported
| MetricsSerialization
| Refused (why : Config.Refusal)
| SecurityRefused (e : Security.SecurityError)
| TokenFile (e : Security.SecurityError)
| DeltaModeOnLocal
| InputRequired
| EncodeOnlyNeedsOutput
| OrphanInput
| EncodeOnlyNeedsEncoder
| OperationRequired
| OperandARequired
| OperandBRequired
| CodecRequired.

(** The cases of [RelativistError] that the commands raise. *)
Inductive RelativistError : Type :=
| Io (e : IoError)
| Config (why : Fault)
| Encoding (why : option RegistryError).

(** [impl From<RegistryError> for RelativistError]; [Encoding None] is the JSON
    printer's failure. *)
Definition from_registry (e : RegistryError) : RelativistError := Encoding (Some e).

Definition exit_code (e : RelativistError) : N :=
  match e with Config _ => 1 | Io _ => 2 | Encoding _ => 3 end.

Definition command (A : Type) : Type := World → fueled (World * (A + RelativistError)).

Definition ok {A} (a : A) : command A := λ w, Some (Done (w, inl a)).
Definition fail {A} (e : RelativistError) : command A := λ w, Some (Done (w, inr e)).

(** The [?] operator. *)
Definition and_then {A B} (m : command A) (f : A → command B) : command B := λ w,
  '(w, r) ←! m w;
  match r with inl a => f a w | inr e => Some (Done (w, inr e)) end.

(** A computation without I/O. *)
Definition lift {A} (m : fueled A) : command A := λ w, a ←! m; Some (Done (w, inl a)).

Definition ok_or {A} (o : option A) (e : RelativistError) : command A :=
  match o with Some a => ok a | None => fail e end.

Definition print (s : text) : command unit := λ w, Some (Done (mkWorld (files w) (stdout w ++ s), inl tt)).
Definition println (s : text) : command unit := print (s ++ [NEWLINE]).

Definition when {A} (o : option A) (f : A → command unit) : command unit :=
  match o with Some a => f a | None => ok tt end.

Definition nat_text (k : nat) : text := decimal (N.of_nat k).

End World.

Declare Scope command_scope.
Delimit Scope command_scope with command.
Notation "x '⇐' c ; k" := (World.and_then c (λ x, k)) (at level 20, c at level 100, k at level 200) : command_scope.
Notation "' p '⇐' c ; k" := (World.and_then c (λ p, k)) (at level 20, p pattern, c at level 100, k at level 200) : command_scope.
Notation "c '⨟' k" := (World.and_then c (λ _, k)) (at level 90, k at level 200, right associativity) : command_scope.

(** ** What is not in the repository *)

Class Platform (Value : Type) : Type := {
  bincode_encode : Net → option (list N);
  bincode_decode : list N → option Net;
  to_string_pretty : Value → option (list N);
  metrics_json : GridMetrics → option (list N);
  (** Opening the path for writing fails. *)
  refuses : list N → bool;
  (** [set_permissions] on the path fails; only Unix makes the call. *)
  keeps_permissions : list N → bool;
  (** What the commands print of the time taken. *)
  reduction_time : N → list N;
  total_time : GridMetrics → list N;
  average_round_time : GridMetrics → list N;
  (** Partition, compute, merge, send and receive time of a round. *)
  round_times : GridMetrics → nat → list (list N);
}.

(** ** Reading and writing nets *)

Module Io.
Import Lambda TextDsl World.
Local Open Scope command_scope.

Inductive NetFormat : Type := Bin | Ic | Json.

Definition detect_format (path : text) : option NetFormat :=
  match Path.extension path with
  | Some e =>
      if bool_decide (e = chars "bin"%string) then Some Bin
      else if bool_decide (e = chars "ic"%string) then Some Ic
      else if bool_decide (e = chars "json"%string) then Some Json
      else None
  | None => None
  end.

Section io.
Context {Value : Type} `{Platform Value}.

(** [std::fs::read], [std::fs::read_to_string], [std::fs::write]. *)
Definition fs_read (path : text) : command bytes := λ w, ok_or (files w !! path) (World.Io NotFound) w.

Definition fs_read_to_string (path : text) : command text :=
  b ⇐ fs_read path;
  ok_or (Utf8.decode b) (World.Io InvalidUtf8).

Definition fs_write (path : text) (b : bytes) : command unit := λ w,
  if refuses path then fail (World.Io Denied) w
  else Some (Done (mkWorld (<[path := b]> (files w)) (stdout w), inl tt)).

Definition serialize_net (n : Net) : command bytes := ok_or (bincode_encode n) (Config SerializationFailed).

Definition load_bin (path : text) : command Net :=
  b ⇐ fs_read path;
  ok_or (bincode_decode b) (Config (DeserializationFailed path)).

Definition save_bin (n : Net) (path : text) : command unit :=
  b ⇐ serialize_net n;
  fs_write path b.

Definition load_ic (path : text) : command Net :=
  s ⇐ fs_read_to_string path;
  r ⇐ lift (Some (parse_ic s));
  match r with inl n => ok n | inr e => fail (Config (IcRejected path e)) end.

Definition save_ic (n : Net) (path : text) : command unit := fs_write path (Utf8.encode (format_ic n)).

Definition load_net_from_file (path : text) : command Net :=
  format ⇐ ok_or (detect_format path) (Config (UnknownExtension path));
  match format with
  | Bin => load_bin path
  | Ic => load_ic path
  | Json => fail (Config JsonUnsupported)
  end.

Definition save_net_to_file (n : Net) (path : text) : command unit :=
  format ⇐ ok_or (detect_format path) (Config (UnknownExtension path));
  match format with
  | Bin => save_bin n path
  | Ic => save_ic n path
  | Json => fail (Config JsonUnsupported)
  end.

(** The metrics of an in-process run: no byte is sent or received. *)
Definition csv_header : text :=
  chars "round,agents,local_interactions,border_interactions,border_redexes,partition_time_ms,compute_time_ms,merge_time_ms,bytes_sent,bytes_received,network_send_time_ms,network_recv_time_ms"%string ++ [NEWLINE].

Fixpoint comma_separated (l : list text) : text :=
  match l with [] => [] | [s] => s | s :: l => s ++ chars ","%string ++ comma_separated l end.

Definition csv_row (m : GridMetrics) (r : nat) : text :=
  let times := round_times m r in
  comma_separated ([nat_text (r + 1); nat_text (default 0%nat (agents_per_round m !! r));
    decimal (default 0 (local_interactions_per_round m !! r)); decimal (default 0 (border_interactions_per_round m !! r));
    decimal (default 0 (border_redexes_per_round m !! r))] ++ take 3 times ++ [decimal 0; decimal 0] ++ drop 3 times) ++ [NEWLINE].

Definition write_metrics_csv (m : GridMetrics) (path : text) : command unit :=
  fs_write path (Utf8.encode (csv_header ++ (seq 0 (N.to_nat (rounds m)) ≫= csv_row m))).

Definition write_metrics_json (m : GridMetrics) (path : text) : command unit :=
  json ⇐ ok_or (metrics_json m) (Config MetricsSerialization);
  fs_write path (Utf8.encode json).

Definition write_metrics (m : GridMetrics) (path : text) : command unit :=
  if bool_decide (Path.extension path = Some (chars "csv"%string)) then write_metrics_csv m path else write_metrics_json m path.

Definition yes_no (b : bool) : text := if b then chars "yes"%string else chars "no"%string.

Definition print_symbols (n : Net) : command unit :=
  println (chars "  CON: "%string ++ nat_text (count_agents_by_symbol n Con)) ⨟
  println (chars "  DUP: "%string ++ nat_text (count_agents_by_symbol n Dup)) ⨟
  println (chars "  ERA: "%string ++ nat_text (count_agents_by_symbol n Era)).

(** An in-process run has no network bytes, so the last block prints nothing. *)
Definition print_summary (fuel : nat) (n : Net) (m : GridMetrics) : command unit :=
  println (chars "=== Relativist Execution Summary ==="%string) ⨟
  println (chars "Converged:          "%string ++ yes_no (converged m)) ⨟
  println (chars "Rounds:             "%string ++ decimal (rounds m)) ⨟
  println (chars "Total interactions: "%string ++ decimal (gm_total_interactions m)) ⨟
  println (chars "Total time:         "%string ++ total_time m ++ chars "s"%string) ⨟
  println (chars "Final agents:       "%string ++ nat_text (count_live_agents n)) ⨟
  print_symbols n ⨟
  value ⇐ lift (r ← Arithmetic.decode_nat_or_shared fuel n; Some (Done r));
  (match value with
   | Some value => println (chars "Decoded result:     "%string ++ decimal value)
   | None =>
       let con := count_agents_by_symbol n Con in
       let era := count_agents_by_symbol n Era in
       if (2 <=? con)%nat && (era =? 0)%nat
       then println (chars "Decoded result:     "%string ++ nat_text (con - 2) ++ chars " (from agent counts)"%string)
       else ok tt
   end) ⨟
  (if 0 <? rounds m then
     println (chars "Avg round time:     "%string ++ average_round_time m ++ chars "s"%string) ⨟
     println (chars "Local interactions: "%string ++ decimal (foldr N.add 0 (local_interactions_per_round m))) ⨟
     println (chars "Border interactions:"%string ++ decimal (foldr N.add 0 (border_interactions_per_round m)))
   else ok tt).

End io.
End Io.

(** ** The commands *)

Module Commands.
Import Lambda TextDsl World Io Config Traits Registry Generators.
Local Open Scope command_scope.

Section commands.
Context {Value : Type} `{SerdeJson Value} `{Platform Value}.

(** The fuel bounds the reduction, the grid's rounds and the decoders. *)
Variable fuel : nat.

Section local.
Context `{WorkerDispatch D} (order : PartitionPlan → list N).

Definition run_local_command (args : LocalArgs) : command unit :=
  let grid_config := build_grid_config_from_local args in
  strategy ⇐ (match parse_strategy (la_strategy args) with inl s => ok s | inr e => fail (World.Config (Refused e)) end);
  if delta_mode grid_config then fail (World.Config DeltaModeOnLocal)
  else
    n ⇐ load_net_from_file (la_input args);
    '(_, n, m) ⇐ lift (@run_grid_entry strategy D _ order fuel fuel n grid_config None);
    let '(n, _) := Arithmetic.discover_root n in
    print_summary fuel n (base m) ⨟
    when (la_output args) (save_net_to_file n) ⨟
    when (la_metrics args) (write_metrics (base m)).

End local.

Definition run_reduce_command (args : ReduceArgs) : command unit :=
  n ⇐ load_net_from_file (ra_input args);
  '(n, stats) ⇐ lift (reduce_all fuel n);
  println (chars "=== Relativist Reduce Summary ==="%string) ⨟
  println (chars "Interactions: "%string ++ decimal (total_interactions stats)) ⨟
  println (chars "Final agents: "%string ++ nat_text (count_live_agents n)) ⨟
  when (ra_output args) (save_net_to_file n).

Definition run_inspect_command (args : InspectArgs) : command unit :=
  n ⇐ load_net_from_file (ia_input args);
  println (chars "=== Relativist Inspect ==="%string) ⨟
  println (chars "Agents:  "%string ++ nat_text (count_live_agents n)) ⨟
  print_symbols n ⨟
  println (chars "Redexes: "%string ++ nat_text (length (redex_queue n))) ⨟
  println (chars "Normal Form: "%string ++ yes_no (is_reduced n)).

(** [{:?}] of the example. *)
Definition example_name (e : ExampleNet) : text :=
  match e with
  | EpAnnihilation => chars "EpAnnihilation"%string
  | EpAnnihilationCon => chars "EpAnnihilationCon"%string
  | EpAnnihilationDup => chars "EpAnnihilationDup"%string
  | ConDupExpansion => chars "ConDupExpansion"%string
  | DualTree => chars "DualTree"%string
  | MixedRules => chars "MixedRules"%string
  | ErasurePropagation => chars "ErasurePropagation"%string
  | TreeSum => chars "TreeSum"%string
  | SumOfSquares => chars "SumOfSquares"%string
  end.

Definition run_generate_command (example : ExampleNet) (size : N) (output : text) : command unit :=
  n ⇐ lift (Some (generate example size));
  println (chars "=== Relativist Generate ==="%string) ⨟
  println (chars "Example: "%string ++ example_name example) ⨟
  println (chars "Size:    "%string ++ decimal size) ⨟
  println (chars "Agents:  "%string ++ nat_text (count_live_agents n)) ⨟
  println (chars "Redexes: "%string ++ nat_text (length (redex_queue n))) ⨟
  save_net_to_file n output ⨟
  println (chars "Saved to: "%string ++ output).

(** *** The compute command *)

Definition print_encoding (n : Net) : command unit :=
  println (chars "Encoding:    "%string ++ nat_text (count_live_agents n) ++ chars " agents, "%string
             ++ nat_text (length (redex_queue n)) ++ chars " redexes"%string).

Definition print_reduction (interactions : N) : command unit :=
  println (chars "Reduction:   "%string ++ decimal interactions ++ chars " interactions in "%string ++ reduction_time interactions).

Definition run_compute_with_encoder (name : text) (input : bytes) (encode_only_output output_after_reduce : option text)
    : command unit :=
  registry ⇐ lift (Some default_registry);
  println (chars "=== Relativist Compute (encoder: "%string ++ name ++ chars ") ==="%string) ⨟
  encoded ⇐ lift (Some (encode_and_validate registry name input));
  n ⇐ (match encoded with inl n => ok n | inr e => fail (from_registry e) end);
  print_encoding n ⨟
  match encode_only_output with
  | Some path =>
      save_bin n path ⨟
      println (chars "Encoded:     "%string ++ nat_text (count_live_agents n) ++ chars " agents -> "%string ++ path)
  | None =>
      '(n, stats) ⇐ lift (reduce_all fuel n);
      print_reduction (total_interactions stats) ⨟
      let n := match root n with None => (Arithmetic.discover_root n).1 | Some _ => n end in
      decoded ⇐ lift (d ← Registry.decode registry fuel name n; Some (Done d));
      json_out ⇐ (match decoded with inl v => ok v | inr e => fail (from_registry e) end);
      pretty ⇐ ok_or (to_string_pretty json_out) (Encoding None);
      println (chars "Result:      "%string ++ pretty) ⨟
      when output_after_reduce (λ path,
        save_bin n path ⨟
        println (chars "Saved:       "%string ++ nat_text (count_live_agents n) ++ chars " agents (reduced) -> "%string ++ path))
  end.

Definition op_name (op : ArithmeticOp) : text :=
  match op with
  | Add => chars "add"%string
  | Mul => chars "mul"%string
  | Exp => chars "exp"%string
  end.

Definition build (op : ArithmeticOp) (a b : N) : outcome Net :=
  match op with
  | Add => Arithmetic.build_add a b
  | Mul => Arithmetic.build_mul a b
  | Exp => Arithmetic.build_exp a b
  end.

(** The reduction of the positional form, in the grid or in place. *)
Definition compute_reduction (order : PartitionPlan → list N) (args : ComputeArgs) (n : Net) : command Net :=
  match ma_workers args with
  | Some workers =>
      let d := grid_config_default in
      let grid_config := mkGridConfig workers None (strict_bsp d) (delta_mode d) (coordinator_free_rounds d)
        (hybrid_coordinator d) (elastic_departure d) (retain_partitions d) (elastic_join d) (checkpoint_partitions d)
        (initial_wait_timeout d) (join_window_min d) (join_window_max d) (solo_budget d) (recycle_under_delta d)
        (chunk_size_cfg d) (streaming_strategy d) (dispatch_mode d) (max_pending_lifetime d) in
      '(n, m) ⇐ lift (@run_grid ContiguousIdStrategy order fuel fuel n grid_config);
      print_reduction (gm_total_interactions m) ⨟
      println (chars "Workers:     "%string ++ decimal workers) ⨟
      println (chars "Rounds:      "%string ++ decimal (rounds m)) ⨟
      when (ma_metrics args) (write_metrics m) ⨟
      ok n
  | None =>
      '(n, stats) ⇐ lift (reduce_all fuel n);
      print_reduction (total_interactions stats) ⨟
      ok n
  end.

Definition print_result (n : Net) (result : option N) : command unit :=
  match result with
  | Some k => println (chars "Result:      "%string ++ decimal k)
  | None =>
      println (chars "Result:      (non-decodable normal form)"%string) ⨟
      println (chars "  The net is in normal form but uses a non-canonical Church encoding"%string) ⨟
      println (chars "  (e.g., cyclic DUP sharing from exponentiation)."%string) ⨟
      println (chars "  Final agents: "%string ++ nat_text (count_live_agents n))
  end.

Definition run_compute_legacy (order : PartitionPlan → list N) (args : ComputeArgs) (op : ArithmeticOp) (a b : N) : command unit :=
  n ⇐ lift (Some (build op a b));
  println (chars "=== Relativist Compute ==="%string) ⨟
  println (chars "Expression:  "%string ++ op_name op ++ chars "("%string ++ decimal a ++ chars ", "%string ++ decimal b ++ chars ")"%string) ⨟
  print_encoding n ⨟
  n ⇐ compute_reduction order args n;
  let '(n, _) := Arithmetic.discover_root n in
  result ⇐ lift (r ← Arithmetic.decode_either fuel n; Some (Done r));
  print_result n result ⨟
  when (ma_output args) (save_net_to_file n).

(** [a.or(b)]. *)
Definition or_else {A} (a b : option A) : option A := match a with Some x => Some x | None => b end.

Definition run_compute_command (order : PartitionPlan → list N) (args : ComputeArgs) : command unit :=
  match or_else (ma_encoder args) (ma_codec args) with
  | Some name =>
      input ⇐ ok_or (ma_input args) (World.Config InputRequired);
      encode_only_out ⇐ (if encode_only args
                         then path ⇐ ok_or (ma_output args) (World.Config EncodeOnlyNeedsOutput); ok (Some path)
                         else ok None);
      let output_after_reduce := if encode_only args then None else ma_output args in
      run_compute_with_encoder name (Utf8.encode input) encode_only_out output_after_reduce
  | None =>
      if bool_decide (ma_input args ≠ None) then fail (World.Config OrphanInput)
      else if encode_only args then fail (World.Config EncodeOnlyNeedsEncoder)
      else
        op ⇐ ok_or (operation args) (World.Config OperationRequired);
        a ⇐ ok_or (operand_a args) (World.Config OperandARequired);
        b ⇐ ok_or (operand_b args) (World.Config OperandBRequired);
        run_compute_legacy order args op a b
  end.

(** *** The codecs' commands *)

Definition run_decode_command (args : DecodeArgs) : command unit :=
  name ⇐ ok_or (or_else (da_codec args) (da_encoder args)) (World.Config CodecRequired);
  n ⇐ load_bin (da_input args);
  let n := match root n with None => (Arithmetic.discover_root n).1 | Some _ => n end in
  registry ⇐ lift (Some default_registry);
  decoded ⇐ lift (d ← Registry.decode registry fuel name n; Some (Done d));
  json_out ⇐ (match decoded with inl v => ok v | inr e => fail (from_registry e) end);
  pretty ⇐ ok_or (to_string_pretty json_out) (Encoding None);
  match da_output args with
  | Some path => fs_write path (Utf8.encode pretty)
  | None => println pretty
  end.

(** [{:<width$}]. *)
Definition pad (width : nat) (s : text) : text := s ++ replicate (width - length s) SPACE.

Definition format_encoders_list : outcome text :=
  r ← default_registry (Value := Value);
  let pairs := list_codecs r in
  let max_name := foldr Nat.max 0%nat ((λ p, length (Utf8.encode p.1)) <$> pairs) in
  mret (chars "Available encoders:"%string ++ [NEWLINE] ++
    (pairs ≫= λ p, chars "  "%string ++ pad max_name p.1 ++ chars "  "%string ++ p.2 ++ [NEWLINE])).

Definition run_encoders_command : command unit :=
  s ⇐ lift (Some format_encoders_list);
  print s.

End commands.

(** *** Tokens in the coordinator and worker commands *)

Section tokens.
Context {Value : Type} `{Platform Value} `{Security.TokenLibraries}.

(** The file is written first and restricted to its owner afterwards; what the
    permissions are is not part of the world. *)
Definition write_token_file (token : Runtime.AuthToken) (path : text) : command (unit + Security.SecurityError) := λ w,
  match fs_write path (Utf8.encode (Security.to_base64 token)) w with
  | Some (Done (w, inl _)) =>
      if keeps_permissions path then Some (Done (w, inl (inr Security.Config))) else Some (Done (w, inl (inl tt)))
  | Some (Done (w, inr _)) => Some (Done (w, inl (inr Security.Config)))
  | Some Panic => Some Panic
  | None => None
  end.

(** Without the [tls] feature [has_tls] is false. *)
Definition build_security (token_flag : option text) : command Security.SecurityConfig :=
  s ⇐ lift (Some (Security.build_security_config token_flag false));
  match s with inl c => ok c | inr e => fail (World.Config (SecurityRefused e)) end.

Definition save_token (args : CoordinatorArgs) (security : Security.SecurityConfig) : command unit :=
  when (Security.token security) (λ token,
    r ⇐ write_token_file token (ca_token_file args);
    match r with inl _ => ok tt | inr e => fail (World.Config (TokenFile e)) end).

Definition coordinator_security (args : CoordinatorArgs) : command Security.SecurityConfig :=
  security ⇐ build_security (ca_token args);
  save_token args security ⨟
  ok security.

Definition worker_security (token_flag : option text) : command Security.SecurityConfig := build_security token_flag.

End tokens.
End Commands.
