(* ===== verification/FilesInv.v ===== *)
(** Lemmas on files: UTF-8 is decoded to what was encoded, the printed nets are
    ASCII, and the decoders read nothing of a net that its file does not hold. *)
From stdpp Require Import strings.
From Stdlib Require Import Lia Zify.
From S2P Require Import Prelude NetTypes NetCore NetInv Reduction Church Horner Lambda TextDsl TextInv Shape Codecs Commands.
Local Open Scope N_scope.
#[local] Ltac Zify.zify_post_hook ::= Z.to_euclidean_division_equations.

(** ** UTF-8 *)

Import Utf8.

Lemma in_range_true lo hi c : Lambda.in_range lo hi c = true ↔ lo ≤ c ≤ hi.
Proof. unfold Lambda.in_range. rewrite andb_true_iff, !N.leb_le. done. Qed.

Lemma in_range_false lo hi c : Lambda.in_range lo hi c = false ↔ c < lo ∨ hi < c.
Proof. rewrite <- not_true_iff_false, in_range_true. lia. Qed.

(** Decides the comparisons of a range test by arithmetic. *)
Ltac ranges :=
  repeat match goal with
  | |- context [N.ltb ?x ?y] => first [rewrite (proj2 (N.ltb_lt x y)) by lia | rewrite (proj2 (N.ltb_ge x y)) by lia]
  | |- context [Lambda.in_range ?lo ?hi ?c] =>
      first [rewrite (proj2 (in_range_true lo hi c)) by lia | rewrite (proj2 (in_range_false lo hi c)) by lia]
  end.

Lemma decode_encode_char c r : scalar c → ∃ b bs, encode_char c = b :: bs ∧ decode_char b (bs ++ r) = Some (c, r).
Proof.
  intros Hc. unfold scalar in Hc. unfold encode_char.
  destruct (N.ltb_spec c 128); [|destruct (N.ltb_spec c 2048); [|destruct (N.ltb_spec c 65536)]]; eexists _, _;
    (split; [reflexivity|]); unfold decode_char, cont, low; cbn [app]; ranges; cbn [andb negb]; do 2 f_equal; lia.
Qed.

Lemma decode_from_encode s : Forall scalar s → ∀ fuel, (length (encode s) ≤ fuel)%nat → decode_from fuel (encode s) = Some s.
Proof.
  induction 1 as [|c s Hc Hs IH]; intros fuel Hf; [by destruct fuel|]. unfold encode in *. cbn [mbind list_bind] in *.
  destruct (decode_encode_char c (s ≫= encode_char) Hc) as (b & bs & E & D). rewrite E in *. cbn [app length] in *. rewrite length_app in Hf.
  destruct fuel as [|fuel]; [lia|]. cbn [decode_from]. rewrite D. cbn. rewrite IH by lia. done.
Qed.

(** Decoding undoes encoding. *)
Lemma utf8_decode_encode s : Forall scalar s → decode (encode s) = Some s.
Proof. intros Hs. by apply decode_from_encode. Qed.

Lemma encode_decode_char b r c r' : decode_char b r = Some (c, r') → scalar c ∧ b :: r = encode_char c ++ r'.
Proof.
  unfold decode_char, cont, low, encode_char, scalar. destruct (N.ltb_spec b 128).
  - intros [= <- <-]. ranges. split; [lia|done].
  - destruct (Lambda.in_range 194 223 b) eqn:E2; [apply in_range_true in E2|clear E2].
    + destruct r as [|b1 r]; [done|]. destruct (Lambda.in_range 128 191 b1) eqn:F1; [|done]. apply in_range_true in F1.
      intros [= <- <-]. ranges. split; [lia|]. cbn [app]. repeat f_equal; lia.
    + destruct (Lambda.in_range 224 239 b) eqn:E3; [apply in_range_true in E3|clear E3].
      * destruct r as [|b1 [|b2 r]]; [done..|]. set (v := (b - 224) * 4096 + _ + _).
        destruct (_ && _ && (2047 <? v) && _) eqn:F; [|done]. rewrite !andb_true_iff, negb_true_iff, !in_range_true, in_range_false, N.ltb_lt in F.
        intros [= <- <-]. unfold v. ranges. split; [lia|]. cbn [app]. repeat f_equal; lia.
      * destruct (Lambda.in_range 240 244 b) eqn:E4; [apply in_range_true in E4|done].
        destruct r as [|b1 [|b2 [|b3 r]]]; [done..|]. set (v := (b - 240) * 262144 + _ + _ + _).
        destruct (_ && _ && _ && _) eqn:F; [|done]. rewrite !andb_true_iff, !in_range_true in F.
        intros [= <- <-]. unfold v. ranges. split; [lia|]. cbn [app]. repeat f_equal; lia.
Qed.

(** Only the encoding of a text is decoded to it. *)
Lemma utf8_encode_decode r : ∀ s, decode r = Some s → Forall scalar s ∧ encode s = r.
Proof.
  unfold decode. generalize (length r). intros fuel. revert r. induction fuel as [|fuel IH]; intros [|b r] s; cbn; try (by intros [= <-]).
  destruct (decode_char b r) as [[c r']|] eqn:E; [|done]. cbn. destruct (decode_from fuel r') as [s'|] eqn:E'; [|done].
  intros [= <-]. destruct (IH _ _ E') as [Hs <-]. destruct (encode_decode_char _ _ _ _ E) as [Hc ->]. split; [by constructor|done].
Qed.

(** ** The text format is ASCII *)

Import TextDsl.

Definition ascii (s : list N) : Prop := Forall (λ c, c < 128) s.

Lemma ascii_scalar s : ascii s → Forall scalar s.
Proof. intros Hs. eapply Forall_impl; [exact Hs|]. unfold scalar. cbn. lia. Qed.

Lemma ascii_app a b : ascii a → ascii b → ascii (a ++ b).
Proof. intros. by apply Forall_app. Qed.

Lemma ascii_decimal x : ascii (Lambda.decimal x).
Proof.
  eapply Forall_impl; [apply decimal_digits_all|]. intros c Hc. apply in_range_true in Hc. lia.
Qed.

Lemma ascii_true s : forallb (λ c, c <? 128) s = true → ascii s.
Proof. rewrite forallb_forall. intros H. apply Forall_forall. intros c Hc. apply N.ltb_lt, H. by apply list_elem_of_In. Qed.

Create HintDb ascii discriminated.
#[export] Hint Resolve ascii_app ascii_decimal : ascii.
#[export] Hint Extern 5 (ascii _) => (apply ascii_true; reflexivity) : ascii.

Lemma ascii_port_name p : ascii (port_name p).
Proof. unfold port_name. repeat case_match; auto with ascii. Qed.

Lemma ascii_agent_name id : ascii (agent_name id).
Proof. apply (ascii_app [97]); auto with ascii. Qed.
#[export] Hint Resolve ascii_port_name ascii_agent_name : ascii.

Lemma ascii_port_ref r : ascii (format_port_ref r).
Proof. destruct r; unfold format_port_ref; auto 6 with ascii. Qed.
#[export] Hint Resolve ascii_port_ref : ascii.

Lemma ascii_agent_line a : ascii (agent_line a).
Proof. unfold agent_line. destruct (symbol a); cbn [format_symbol]; auto 8 with ascii. Qed.

Lemma ascii_format_port n l : ∀ st, ascii st.1 → ascii (foldl (format_port n) st l).1.
Proof.
  induction l as [|x l IH]; intros st Hst; [done|]. cbn [foldl]. apply IH. destruct st as [out emitted]. unfold format_port.
  destruct (ports n !! _); [|done]. case_decide; [done|]. cbn [fst] in *. unfold wire_line. auto 8 with ascii.
Qed.

Lemma ascii_format_ic n : ascii (format_ic n).
Proof.
  unfold format_ic. pose proof (ascii_format_port n (live_agents n ≫= agent_slots) (live_agents n ≫= agent_line, ∅)) as H.
  destruct (foldl _ _ _) as [out emitted]. cbn [fst] in H.
  assert (Ho : ascii out). { apply H. unfold ascii. apply Forall_bind, Forall_true. intros a. apply ascii_agent_line. }
  destruct (root n); [|done]. auto 8 with ascii.
Qed.

(** ** Reading a net that went through a file *)

Section persisted.
Variable n : Net.
Notation m := (persisted n).

(** Rewrites the accessors of [m] into those of [n], also under binders. *)
Ltac read :=
  change (get_target m) with (get_target n) in *; change (get_agent m) with (get_agent n) in *;
  change (Church.expect_symbol m) with (Church.expect_symbol n) in *.

Ltac walk := read; repeat case_match; simplify_eq/=; auto.

Lemma persisted_walk_chain fuel : ∀ lam_x count r, Church.walk_chain fuel m lam_x count r = Church.walk_chain fuel n lam_x count r.
Proof. induction fuel as [|fuel IH]; intros; [done|]. cbn [Church.walk_chain]. walk. Qed.

Lemma persisted_decode_nat fuel : Church.decode_nat fuel m = Church.decode_nat fuel n.
Proof.
  unfold Church.decode_nat. change (Church.find_lambdas m) with (Church.find_lambdas n). change (redex_queue m) with (redex_queue n).
  read. destruct (negb _); [done|]. destruct (Church.find_lambdas n) as [[f x]|]; [|done]. by rewrite persisted_walk_chain.
Qed.

Lemma persisted_follow fuel : ∀ r, Arithmetic.follow_through fuel m r = Arithmetic.follow_through fuel n r.
Proof.
  induction fuel as [|fuel IH]; intros [id p|f]; cbn [Arithmetic.follow_through]; [done..| |done]. read.
  destruct (_ || _); [|done]. destruct (get_agent n id); cbn; [|done]. case_decide; [|done]. apply IH.
Qed.

Lemma persisted_count_boundary fuel : ∀ k d x, Arithmetic.count_boundary fuel m k d x = Arithmetic.count_boundary fuel n k d x.
Proof.
  induction fuel as [|fuel IH]; intros k d x; [done|]. cbn [Arithmetic.count_boundary]. read.
  change (Arithmetic.classify_dup_branch m) with (Arithmetic.classify_dup_branch n).
  destruct (Arithmetic.classify_dup_branch n _ x) as [c1|]; cbn [mbind option_bind]; [|done].
  destruct (Arithmetic.classify_dup_branch n _ x) as [c2|]; cbn [mbind option_bind]; [|done]. destruct c1, c2; auto.
Qed.

Lemma persisted_shared_chain fuel : ∀ x k r, Arithmetic.shared_chain fuel m x k r = Arithmetic.shared_chain fuel n x k r.
Proof.
  induction fuel as [|fuel IH]; intros x k [id p|f]; cbn [Arithmetic.shared_chain]; [done..| |done]. read.
  unfold Arithmetic.count_dup_boundary_multiplier. rewrite persisted_count_boundary. generalize (Arithmetic.count_boundary 1000 n 2 id x). intros b. walk.
Qed.

Lemma persisted_decode_either fuel : Arithmetic.decode_either fuel m = Arithmetic.decode_either fuel n.
Proof.
  unfold Arithmetic.decode_either. rewrite persisted_decode_nat.
  assert (E : Arithmetic.decode_shared_chain fuel m = Arithmetic.decode_shared_chain fuel n); [|by rewrite E].
  unfold Arithmetic.decode_shared_chain, Arithmetic.follow_through_dup_aux. change (Church.find_lambdas m) with (Church.find_lambdas n). read.
  destruct (Church.find_lambdas n) as [[f x]|]; cbn [mbind option_bind snd]; [|done]. rewrite persisted_follow.
  destruct (Arithmetic.follow_through 1000 n _) as [r|]; cbn [mbind option_bind]; [|done]. apply persisted_shared_chain.
Qed.

(** The readback of large numerals. *)
Lemma persisted_all_era fuel : ∀ v s, Readback.all_aux_leaves_are_era fuel m v s = Readback.all_aux_leaves_are_era fuel n v s.
Proof.
  induction fuel as [|fuel IH]; intros v [|id s]; [done..|]. cbn [Readback.all_aux_leaves_are_era].
  change (Readback.discard_leaf m) with (Readback.discard_leaf n). walk.
Qed.

Lemma persisted_readback_walk fuel at1 at2 : (∀ k v id, at1 k v id = at2 k v id) →
  ∀ x s k v r, Readback.walk_chain fuel m x at1 s k v r = Readback.walk_chain fuel n x at2 s k v r.
Proof.
  intros Hat. induction fuel as [|fuel IH]; intros x s k v r; [done|]. cbn [Readback.walk_chain].
  change (Readback.chain_step m) with (Readback.chain_step n). walk.
Qed.

Lemma persisted_follow_branch turns : ∀ x v e r, Readback.follow_branch turns m x v e r = Readback.follow_branch turns n x v e r.
Proof. induction turns as [|turns IH]; intros x v e [id p|f]; cbn [Readback.follow_branch]; [done..| |done]. walk. Qed.

Lemma persisted_classify r x v : Readback.classify_dup_branch m r x v = Readback.classify_dup_branch n r x v.
Proof. unfold Readback.classify_dup_branch. read. by rewrite persisted_follow_branch. Qed.

Lemma persisted_walk_branch fuel x v d k p t : Readback.walk_branch fuel m x v d k p t = Readback.walk_branch fuel n x v d k p t.
Proof.
  unfold Readback.walk_branch. rewrite persisted_classify. destruct (Readback.classify_dup_branch _ _ _ _); try done.
  unfold Readback.read_chain_terminal. case_match; [done|]. by erewrite persisted_readback_walk.
Qed.

Lemma bind_answer_ext {A B} (a : Readback.answer A) (f g : A → Readback.answer B) : (∀ x, f x = g x) → Readback.bind_answer a f = Readback.bind_answer a g.
Proof. intros Hfg. destruct a as [[a|e]|]; cbn; auto. Qed.

Lemma persisted_mult_tree fuel : ∀ x v ds t, Readback.walk_mult_tree fuel m x v ds t = Readback.walk_mult_tree fuel n x v ds t.
Proof.
  induction fuel as [|fuel IH]; intros x v ds [P k e]; [done|]. cbn [Readback.walk_mult_tree Readback.pending]. read.
  destruct P as [|[d depth] P]; [done|]. repeat case_match; try done; rewrite persisted_walk_branch.
  apply bind_answer_ext. intros t. rewrite persisted_walk_branch. apply bind_answer_ext. auto.
Qed.

Lemma persisted_read_zero fuel r : Readback.read_zero fuel m r = Readback.read_zero fuel n r.
Proof.
  unfold Readback.read_zero. read. destruct r as [id [|p]|]; try done. destruct (symbol <$> get_agent n id) as [[]|]; try done.
  by rewrite persisted_all_era.
Qed.

Lemma persisted_read_chain fuel r x v d : Readback.read_chain fuel m r x v d = Readback.read_chain fuel n r x v d.
Proof.
  unfold Readback.read_chain. case_match; [done|]. apply persisted_readback_walk. intros k v' id. read. case_match; [|done].
  unfold Readback.read_mult_subnet. case_match; [done|]. by rewrite persisted_mult_tree.
Qed.

Lemma persisted_decode_biguint fuel : Readback.decode_biguint fuel m = Readback.decode_biguint fuel n.
Proof.
  unfold Readback.decode_biguint. change (count_valid_active_pairs m) with (count_valid_active_pairs n). change (root m) with (root n).
  change (Readback.lambda_at m) with (Readback.lambda_at n). read.
  repeat case_match; try done; [apply persisted_read_zero|apply persisted_read_chain].
Qed.

(** Root discovery. *)
Lemma persisted_discover : Arithmetic.discover_root m = (persisted (Arithmetic.discover_root n).1, (Arithmetic.discover_root n).2).
Proof.
  unfold Arithmetic.discover_root. change (live_agents m) with (live_agents n).
  assert (Es : ∀ l c, Arithmetic.scan_root m l c = Arithmetic.scan_root n l c).
  { induction l as [|a l IH]; intros c; cbn [Arithmetic.scan_root]; [done|]. walk. }
  rewrite Es. destruct (Arithmetic.scan_root n _ None) as [id|]; [|done]. cbn [fst snd]. f_equal. unfold disconnect. read.
  unfold set_port. repeat case_match; try done.
Qed.

End persisted.

(** The root found before a numeral is read. *)
Definition rooted (n : Net) : Net := match root n with None => (Arithmetic.discover_root n).1 | Some _ => n end.

Lemma persisted_rooted n : rooted (persisted n) = persisted (rooted n).
Proof. unfold rooted. change (root (persisted n)) with (root n). destruct (root n); [done|]. by rewrite persisted_discover. Qed.

Lemma persisted_decode_nat_or_shared fuel n : Arithmetic.decode_nat_or_shared fuel (persisted n) = Arithmetic.decode_nat_or_shared fuel n.
Proof.
  unfold Arithmetic.decode_nat_or_shared. change (root (persisted n)) with (root n). rewrite persisted_decode_either, persisted_discover.
  destruct (root n); [done|]. destruct (Arithmetic.discover_root n) as [n' b]. cbn [fst snd]. by rewrite persisted_decode_either.
Qed.
