(* ===== verification/CommandsSpec.v ===== *)
(** What the commands do: nets through files, the staged pipeline against the
    direct one, the refusals of the command line. *)
From stdpp Require Import strings.
From S2P Require Import Prelude NetTypes NetCore NetInv Reduction Church ChurchSpec Horner Lambda TextDsl TextInv TextSpec Shape ArithSpec Partition Split Coordinator Grid DeltaGrid Isomorphism Runtime Codecs CodecsSpec Generators Config Security Commands FilesInv.
Local Open Scope N_scope.
Import Config.Config Lambda TextDsl World Io Commands.

(** ** Steps *)

(** What has been printed once [s] has been printed too. *)
Definition said (w : World) (s : list N) : World := mkWorld (files w) (stdout w ++ s).

Lemma then_ok {A B} (m : command A) (f : A → command B) w w' a :
  m w = Some (Done (w', inl a)) → and_then m f w = f a w'.
Proof. unfold and_then. by intros ->. Qed.

Lemma then_fail {A B} (m : command A) (f : A → command B) w w' e :
  m w = Some (Done (w', inr e)) → and_then m f w = Some (Done (w', inr e)).
Proof. unfold and_then. by intros ->. Qed.

Lemma then_lift {A B} (m : fueled A) (f : A → command B) w :
  and_then (lift m) f w = match m with Some (Done a) => f a w | Some Panic => Some Panic | None => None end.
Proof. unfold and_then, lift. by destruct m as [[a|]|]. Qed.

Lemma then_pure {A B} a (f : A → command B) w : and_then (ok a) f w = f a w.
Proof. done. Qed.

Lemma then_println {B} s (k : unit → command B) w : and_then (println s) k w = k tt (said w (s ++ [NEWLINE])).
Proof. done. Qed.

Lemma then_assoc {A B C} (m : command A) (f : A → command B) (g : B → command C) w :
  and_then (and_then m f) g w = and_then m (λ a, and_then (f a) g) w.
Proof. unfold and_then. by destruct (m w) as [[[w' [a|e]]|]|]. Qed.

(** ** Nets through files *)

(** Bincode writes every net and reads back what [serde] keeps of it. *)
Class Faithful `{Platform Value} : Prop :=
  bincode_faithful : ∀ n, ∃ b, bincode_encode n = Some b ∧ bincode_decode b = Some (persisted n).

Section files.
Context {Value : Type} `{Platform Value} `{!Faithful}.

Lemma save_bin_run n path : refuses path = false →
  ∃ b, bincode_decode b = Some (persisted n) ∧ ∀ w, save_bin n path w = Some (Done (mkWorld (<[path := b]> (files w)) (stdout w), inl tt)).
Proof.
  intros Hp. destruct (bincode_faithful n) as (b & Eb & Db). exists b. split; [done|]. intros w.
  unfold save_bin, serialize_net, fs_write. rewrite Eb. cbn. by rewrite Hp.
Qed.

Lemma load_bin_run path w b n : files w !! path = Some b → bincode_decode b = Some n → load_bin path w = Some (Done (w, inl n)).
Proof. intros Ef Ed. unfold load_bin, fs_read, and_then. rewrite Ef. cbn. by rewrite Ed. Qed.

Lemma save_ic_run n path w : refuses path = false →
  save_ic n path w = Some (Done (mkWorld (<[path := Utf8.encode (format_ic n)]> (files w)) (stdout w), inl tt)).
Proof. intros Hp. unfold save_ic, fs_write. by rewrite Hp. Qed.

Lemma load_ic_run path w s n : files w !! path = Some (Utf8.encode s) → ascii s → parse_ic s = Done (inl n) →
  load_ic path w = Some (Done (w, inl n)).
Proof.
  intros Ef Hs Ep. unfold load_ic, fs_read_to_string, fs_read, and_then. rewrite Ef. cbn. rewrite utf8_decode_encode by by apply ascii_scalar.
  unfold lift, ok. cbn. by rewrite Ep.
Qed.

(** What the text of a net can express: a well-formed net whose labels are
    [u32]s and whose root, if any, is a label or a live agent's port. *)
Definition printable (n : Net) : Prop :=
  wf n ∧ (∀ x f, valid_port n x.1 x.2 → target n x = FreePort f → f ≤ u32_MAX) ∧
  match root n with Some (AgentPort x p) => valid_port n x p | Some (FreePort f) => f ≤ u32_MAX | None => True end.

(** C22. A net saved to a file comes back: from a [.bin] file any net, with its
    unserialised fields at their defaults; from an [.ic] file a well-formed net
    whose labels are [u32]s and whose root, if it has one, is a label or a port
    of a live agent, with its agents renumbered.  Only that file changes.  A path
    that the file system refuses to write gives an input/output error, and any
    other extension is refused both ways, with the world as it was. *)
Theorem net_files_round_trip n path w :
  let back (read : Net → Prop) :=
    if refuses path then save_net_to_file n path w = Some (Done (w, inr (World.Io Denied)))
    else ∃ b m, let w' := mkWorld (<[path := b]> (files w)) (stdout w) in
      save_net_to_file n path w = Some (Done (w', inl tt)) ∧ load_net_from_file path w' = Some (Done (w', inl m)) ∧ read m in
  match detect_format path with
  | Some Bin => back (λ m, m = persisted n)
  | Some Ic => printable n → back (renumbered n)
  | Some Json => save_net_to_file n path w = Some (Done (w, inr (World.Config JsonUnsupported))) ∧
                 load_net_from_file path w = Some (Done (w, inr (World.Config JsonUnsupported)))
  | None => save_net_to_file n path w = Some (Done (w, inr (World.Config (UnknownExtension path)))) ∧
            load_net_from_file path w = Some (Done (w, inr (World.Config (UnknownExtension path))))
  end.
Proof.
  cbv zeta. unfold save_net_to_file, load_net_from_file. destruct (detect_format path) as [[]|] eqn:Ef; cbn [ok_or]; [| |done..].
  - destruct (refuses path) eqn:Hp.
    + destruct (bincode_faithful n) as (b & Eb & _). unfold and_then, ok, save_bin, serialize_net, fs_write. rewrite Eb. cbn. by rewrite Hp.
    + destruct (save_bin_run n path Hp) as (b & Db & E). exists b, (persisted n). split_and!; [apply E| |done].
      unfold and_then, ok. cbn. eapply load_bin_run; [|exact Db]. cbn. by rewrite lookup_insert, decide_True.
  - intros (Hwf & Hl & Hr). destruct (refuses path) eqn:Hp.
    + unfold and_then, ok, save_ic, fs_write. by rewrite Hp.
    + destruct (parse_formatted n Hwf Hl Hr) as (m & Em & Hm). eexists _, m. split_and!; [by apply save_ic_run| |exact Hm].
      unfold and_then, ok. cbn. eapply load_ic_run; [|apply ascii_format_ic|exact Em]. cbn. by rewrite lookup_insert, decide_True.
Qed.

End files.

(** ** The staged pipeline *)

Section pipeline.
Context {Value : Type} `{Traits.SerdeJson Value} `{Platform Value} `{!Faithful}.
Variable fuel : nat.
Variable order : PartitionPlan → list N.

(** [compute --encoder name --input input]. *)
Definition direct (name input : list N) : command unit :=
  run_compute_command (Value := Value) fuel order (mkComputeArgs None None None (Some name) None (Some input) None None None false).

(** [compute --encoder name --input input --encode-only -o f], then
    [reduce -i f -o g], then [decode --codec name -i g -o out]. *)
Definition encode_stage (name input f : list N) : command unit :=
  run_compute_command (Value := Value) fuel order (mkComputeArgs None None None (Some name) None (Some input) None (Some f) None true).
Definition reduce_stage (f g : list N) : command unit := run_reduce_command (Value := Value) fuel (mkReduceArgs f (Some g)).
Definition decode_stage (name g out : list N) : command unit := run_decode_command (Value := Value) fuel (mkDecodeArgs (Some name) None g (Some out)).

Definition staged (name input f g out : list N) : command unit :=
  and_then (encode_stage name input f) (λ _, and_then (reduce_stage f g) (λ _, decode_stage name g out)).

Lemma registry_decode_persisted r name n : Registry.default_registry (Value := Value) = Done r →
  Registry.decode r fuel name (persisted n) = Registry.decode r fuel name n.
Proof.
  intros Er. destruct default_registry_get as (r' & Er' & Hget). rewrite Er in Er'. injection Er' as <-.
  unfold Registry.decode. rewrite Hget. destruct (head _) as [op|]; [|case_decide; [|done]]; cbn [Traits.decode BuiltIn.ChurchArithmeticCodec BuiltIn.HornerCodec].
  - unfold BuiltIn.church_decode. by rewrite persisted_decode_nat_or_shared.
  - unfold BuiltIn.horner_decode. by rewrite persisted_decode_biguint.
Qed.

Lemma encode_stage_run r name input f w : Registry.default_registry (Value := Value) = Done r → refuses f = false →
  match Registry.encode_and_validate r name (Utf8.encode input) with
  | Panic => encode_stage name input f w = Some Panic
  | Done (inr e) => ∃ w', encode_stage name input f w = Some (Done (w', inr (from_registry e)))
  | Done (inl n) => ∃ b out, bincode_decode b = Some (persisted n) ∧
      encode_stage name input f w = Some (Done (mkWorld (<[f := b]> (files w)) out, inl tt))
  end.
Proof.
  intros Er Hf. unfold encode_stage, run_compute_command. cbn [or_else ma_encoder ma_codec ma_input encode_only ma_output ok_or].
  rewrite then_pure, then_assoc, !then_pure.
  unfold run_compute_with_encoder. rewrite then_lift, Er, then_println. set (w1 := said w _). rewrite then_lift.
  destruct (Registry.encode_and_validate r name _) as [[n|e]|]; [|by eexists|done].
  destruct (save_bin_run n f Hf) as (b & Db & E). exists b. eexists. split; [exact Db|].
  rewrite then_pure. unfold print_encoding. rewrite then_println, (then_ok _ _ _ _ _ (E _)). reflexivity.
Qed.

Lemma reduce_stage_run f g w b n : files w !! f = Some b → bincode_decode b = Some n →
  detect_format f = Some Bin → detect_format g = Some Bin → refuses g = false →
  match reduce_all fuel n with
  | None => reduce_stage f g w = None
  | Some Panic => reduce_stage f g w = Some Panic
  | Some (Done (n', _)) => ∃ b' out, bincode_decode b' = Some (persisted n') ∧
      reduce_stage f g w = Some (Done (mkWorld (<[g := b']> (files w)) out, inl tt))
  end.
Proof.
  intros Ef Db Hf Hg Hr. unfold reduce_stage, run_reduce_command, load_net_from_file, save_net_to_file.
  cbn [ra_input ra_output when]. rewrite then_assoc, Hf, Hg. cbn [ok_or]. rewrite then_pure, (then_ok _ _ _ _ _ (load_bin_run _ _ _ _ Ef Db)), then_lift.
  destruct (reduce_all fuel n) as [[[n' st]|]|]; [|done..]. destruct (save_bin_run n' g Hr) as (b' & Db' & E).
  exists b'. eexists. split; [exact Db'|]. rewrite !then_println, then_pure, E. reflexivity.
Qed.

Lemma decode_stage_run r name g out w b n : Registry.default_registry (Value := Value) = Done r → refuses out = false →
  files w !! g = Some b → bincode_decode b = Some (persisted n) →
  match Registry.decode r fuel name (rooted n) with
  | None => decode_stage name g out w = None
  | Some (inr e) => decode_stage name g out w = Some (Done (w, inr (from_registry e)))
  | Some (inl v) =>
      match to_string_pretty v with
      | None => decode_stage name g out w = Some (Done (w, inr (Encoding None)))
      | Some pretty => decode_stage name g out w = Some (Done (mkWorld (<[out := Utf8.encode pretty]> (files w)) (stdout w), inl tt))
      end
  end.
Proof.
  intros Er Ho Ef Db. unfold decode_stage, run_decode_command. cbn [or_else da_codec da_encoder da_input da_output ok_or].
  rewrite then_pure, (then_ok _ _ _ _ _ (load_bin_run _ _ _ _ Ef Db)). fold (rooted (persisted n)). cbv zeta.
  rewrite then_lift, Er, then_lift, persisted_rooted, (registry_decode_persisted _ _ _ Er).
  destruct (Registry.decode r fuel name (rooted n)) as [[v|e]|]; [|done..]. cbn [mbind option_bind]. rewrite then_pure.
  destruct (to_string_pretty v) as [pretty|]; [|done]. cbn [ok_or]. rewrite then_pure. unfold fs_write. by rewrite Ho.
Qed.

(** The direct command, its verdict once the input has been encoded. *)
Lemma direct_run r name input w : Registry.default_registry (Value := Value) = Done r →
  match Registry.encode_and_validate r name (Utf8.encode input) with
  | Panic => direct name input w = Some Panic
  | Done (inr e) => ∃ w', direct name input w = Some (Done (w', inr (from_registry e)))
  | Done (inl n) =>
      match reduce_all fuel n with
      | None => direct name input w = None
      | Some Panic => direct name input w = Some Panic
      | Some (Done (n', _)) =>
          match Registry.decode r fuel name (rooted n') with
          | None => direct name input w = None
          | Some (inr e) => ∃ w', direct name input w = Some (Done (w', inr (from_registry e)))
          | Some (inl v) =>
              match to_string_pretty v with
              | None => ∃ w', direct name input w = Some (Done (w', inr (Encoding None)))
              | Some pretty => ∃ log, direct name input w =
                  Some (Done (mkWorld (files w) (log ++ chars "Result:      "%string ++ pretty ++ [NEWLINE]), inl tt))
              end
          end
      end
  end.
Proof.
  intros Er. unfold direct, run_compute_command. cbn [or_else ma_encoder ma_codec ma_input encode_only ma_output ok_or].
  rewrite !then_pure. unfold run_compute_with_encoder. rewrite then_lift, Er, then_println, then_lift.
  destruct (Registry.encode_and_validate r name _) as [[n|e]|]; [|by eexists|done]. rewrite then_pure. unfold print_encoding. rewrite then_println, then_lift.
  destruct (reduce_all fuel n) as [[[n' st]|]|]; [|done..]. unfold print_reduction. rewrite then_println. fold (rooted n'). cbv zeta. rewrite then_lift.
  destruct (Registry.decode r fuel name (rooted n')) as [[v|e]|]; [|by eexists|done]. cbn [mbind option_bind]. rewrite then_pure.
  destruct (to_string_pretty v) as [pretty|]; [|by eexists]. cbn [ok_or]. rewrite then_pure, then_println. cbn [when]. unfold ok, said. cbn [files stdout].
  eexists. rewrite <- (app_assoc _ pretty). reflexivity.
Qed.

(** C21. The pipeline in three stages (encode to a file, reduce the file to
    another, decode that one) and the direct [compute] agree for every codec
    name and every input (with at most 80000 coefficients): when the direct
    command prints a result the pipeline writes that result, when it reports an error
    the pipeline reports the same error, and they panic on the same inputs; for any
    fuel the one runs out exactly when the other does. *)
Theorem staged_pipeline_agrees name input f g out w :
  (∀ i, Traits.horner_input (Utf8.encode input) = Some i → N.of_nat (length (Traits.coeffs_field i)) ≤ 80000) →
  detect_format f = Some Bin → detect_format g = Some Bin → refuses f = false → refuses g = false → refuses out = false →
  match direct name input w with
  | Some (Done (w', inl _)) => ∃ log pretty w'',
      stdout w' = log ++ chars "Result:      "%string ++ pretty ++ [NEWLINE] ∧
      staged name input f g out w = Some (Done (w'', inl tt)) ∧ files w'' !! out = Some (Utf8.encode pretty)
  | Some (Done (_, inr e)) => ∃ w'', staged name input f g out w = Some (Done (w'', inr e))
  | Some Panic => staged name input f g out w = Some Panic
  | None => staged name input f g out w = None
  end.
Proof.
  intros Hl Ff Fg Rf Rg Ro. destruct default_registry_get as (r & Er & _).
  pose proof (direct_run r name input w Er) as D. pose proof (encode_stage_run r name input f w Er Rf) as E. unfold staged.
  destruct (Registry.encode_and_validate r name (Utf8.encode input)) as [[n|e]|] eqn:En.
  2:{ destruct D as [w' ->], E as [w'' E]. exists w''. by apply then_fail. }
  2:{ rewrite D. unfold and_then. by rewrite E. }
  destruct (encoded_plain name _ n r Hl Er En) as [_ Hn]. destruct E as (b & o & Db & E). rewrite Hn in Db. rewrite (then_ok _ _ _ _ _ E).
  clear E. set (w1 := mkWorld _ o). pose proof (reduce_stage_run f g w1 b n) as R.
  specialize (R ltac:(cbn; by rewrite lookup_insert, decide_True) Db Ff Fg Rg).
  destruct (reduce_all fuel n) as [[[n' st]|]|]; [|rewrite D; unfold and_then; by rewrite R..].
  destruct R as (b' & o' & Db' & R). rewrite (then_ok _ _ _ _ _ R). clear R. set (w2 := mkWorld _ o').
  pose proof (decode_stage_run r name g out w2 b' n' Er Ro ltac:(cbn; by rewrite lookup_insert, decide_True) Db') as F.
  destruct (Registry.decode r fuel name (rooted n')) as [[v|e]|]; [|destruct D as [w' ->]; by eexists|by rewrite D].
  destruct (to_string_pretty v) as [pretty|]; [|destruct D as [w' ->]; by eexists]. destruct D as [log ->].
  exists log, pretty. eexists. split; [done|]. split; [exact F|]. cbn. by rewrite lookup_insert, decide_True.
Qed.

End pipeline.

(** ** Limits of the operands *)

Section operands.
Context {Value : Type} `{Traits.SerdeJson Value} `{Platform Value}.
Variable fuel : nat.
Variable order : PartitionPlan → list N.

(** [compute op a b]. *)
Definition positional (op : ArithmeticOp) (a b : N) (workers : option N) (out : option (list N)) : command unit :=
  run_compute_command (Value := Value) fuel order (mkComputeArgs (Some op) (Some a) (Some b) None None None workers out None false).

(** The codec of an operation. *)
Definition codec_of (op : ArithmeticOp) : BuiltIn.ChurchOp :=
  match op with Add => BuiltIn.Add | Mul => BuiltIn.Mul | Exp => BuiltIn.Exp end.

Lemma encode_two_panics {A} a b (k : Net * AgentId → Net * AgentId → outcome A) : Church.MAX_CHURCH < a ∨ Church.MAX_CHURCH < b →
  ('(n, m) ← Church.encode_church_into new a; '(n, p) ← Church.encode_church_into n b; k (n, m) (n, p)) = Panic.
Proof.
  intros Hab. assert (Hp : ∀ n c, Church.MAX_CHURCH < c → Church.encode_church_into n c = Panic).
  { intros n c Hc. unfold Church.encode_church_into. by rewrite (proj2 (N.ltb_lt _ _) Hc). }
  destruct Hab as [Ha|Hb]; [by rewrite Hp|]. destruct (Church.encode_church_into new a) as [[n m]|]; [|done]. rewrite done_bind. by rewrite Hp.
Qed.

Lemma build_panics op a b : Church.MAX_CHURCH < a ∨ Church.MAX_CHURCH < b → (op = Exp → b ≠ 0) → build op a b = Panic.
Proof.
  intros Hab Hb. destruct op; cbn [build].
  - exact (encode_two_panics a b (λ x y, '(n, o) ← Arithmetic.wire_add_into y.1 (AgentPort x.2 0) (AgentPort y.2 0); mret (Arithmetic.output n o)) Hab).
  - exact (encode_two_panics a b (λ x y, '(n, o) ← Arithmetic.wire_mul_into y.1 (AgentPort x.2 0) (AgentPort y.2 0); mret (Arithmetic.output n o)) Hab).
  - unfold Arithmetic.build_exp. rewrite (proj2 (N.eqb_neq b 0) (Hb eq_refl)).
    exact (encode_two_panics a b (λ x y, '(n, o) ← Arithmetic.wire_exp_into y.1 x.2 y.2; mret (Arithmetic.output n o)) Hab).
Qed.

Lemma build_within op a b : a ≤ Church.MAX_CHURCH → b ≤ Church.MAX_CHURCH → (op = Exp → b ≠ 0) → ∃ n, build op a b = Done n ∧ wf n.
Proof.
  intros Ha Hb He. destruct op; cbn [build].
  - destruct (build_add_built a b Ha Hb) as (n & E & B). exists n. split; [done|apply (bt_wf _ _ _ _ B)].
  - destruct (build_mul_built a b Ha Hb) as (n & E & B). exists n. split; [done|apply (bt_wf _ _ _ _ B)].
  - destruct (build_exp_built a b Ha Hb (He eq_refl)) as (n & E & B). exists n. split; [done|apply (bt_wf _ _ _ _ B)].
Qed.

(** C23. The two forms of [compute] disagree on large operands, for addition,
    multiplication and exponentiation with an exponent other than 0.  The
    positional form builds a well-formed net up to a million and panics beyond;
    the codec refuses any operand above ten thousand with an encoding error
    (exit code 3), which names the operand and its value, and leaves the files
    alone. *)
Theorem operand_limits op a b workers out w : (op = Exp → b ≠ 0) →
  (Church.MAX_CHURCH < a ∨ Church.MAX_CHURCH < b → positional op a b workers out w = Some Panic) ∧
  (a ≤ Church.MAX_CHURCH → b ≤ Church.MAX_CHURCH → ∃ n, build op a b = Done n ∧ wf n) ∧
  (Church.MAX_CHURCH_NAT < a ∨ Church.MAX_CHURCH_NAT < b → ∀ input,
     Traits.church_input (Utf8.encode input) = Some (Traits.mkChurchInput None a (Some b)) →
     ∃ w' operand value,
       direct (Value := Value) fuel order (BuiltIn.codec_name (codec_of op)) input w =
         Some (Done (w', inr (Encoding (Some (Registry.Encode (Traits.InvalidInput (Traits.OperandOverCap operand value Church.MAX_CHURCH_NAT))))))) ∧
       exit_code (Encoding (Some (Registry.Encode (Traits.InvalidInput (Traits.OperandOverCap operand value Church.MAX_CHURCH_NAT))))) = 3 ∧
       Church.MAX_CHURCH_NAT < value ∧ files w' = files w).
Proof.
  intros He. split_and!; [|by intros; apply build_within|].
  - intros Hab. unfold positional, run_compute_command. cbn [or_else ma_encoder ma_codec ma_input encode_only operation operand_a operand_b].
    rewrite bool_decide_eq_false_2 by naive_solver. cbn [ok_or]. rewrite !then_pure. unfold run_compute_legacy. by rewrite then_lift, build_panics.
  - intros Hab input Ei. destruct default_registry_get as (r & Er & Hget).
    assert (Ev : ∃ operand value, Registry.encode_and_validate r (BuiltIn.codec_name (codec_of op)) (Utf8.encode input) =
      Done (inr (Registry.Encode (Traits.InvalidInput (Traits.OperandOverCap operand value Church.MAX_CHURCH_NAT)))) ∧ Church.MAX_CHURCH_NAT < value).
    { unfold Registry.encode_and_validate. rewrite Hget, op_of_name. cbn [Traits.encode BuiltIn.ChurchArithmeticCodec]. unfold BuiltIn.church_encode.
      rewrite Ei. cbn [Traits.op_field Traits.a_field Traits.b_field from_option id]. destruct (N.ltb_spec Church.MAX_CHURCH_NAT a) as [Ha|Ha]; [by eexists _, _|].
      destruct Hab as [?|Hb]; [lia|]. rewrite bool_decide_eq_false_2 by by destruct op. rewrite (proj2 (N.ltb_lt _ _) Hb). by eexists _, _. }
    destruct Ev as (operand & value & Ev & Hv). unfold direct, run_compute_command. cbn [or_else ma_encoder ma_codec ma_input encode_only ma_output ok_or].
    rewrite !then_pure. unfold run_compute_with_encoder. rewrite then_lift, Er, then_println, then_lift, Ev. by eexists _, _, _.
Qed.

End operands.

(** ** The grid's configuration *)

(** What the command line accepts is normalised, but not validated: the
    validator would refuse the windows and the budgets that the line lets through. *)
Theorem cli_configs_exact args largs :
  normalize (build_grid_config args) = build_grid_config args ∧
  (ca_delta_mode args = true → coordinator_free_rounds (build_grid_config args) = true) ∧
  Grid.validate (build_grid_config args) =
    (if ca_join_window_max_ms args <? ca_join_window_min_ms args then inr (JoinWindowOrdering (ca_join_window_min_ms args) (ca_join_window_max_ms args))
     else if ca_solo_budget args =? 0 then inr SoloBudgetZero else inl tt) ∧
  normalize (build_grid_config_from_local largs) = build_grid_config_from_local largs ∧
  Grid.validate (build_grid_config_from_local largs) = if la_solo_budget largs =? 0 then inr SoloBudgetZero else inl tt.
Proof.
  assert (Hn : ∀ c, normalize (normalize c) = normalize c) by (intros []; unfold normalize; cbn; f_equal; by repeat match goal with b : bool |- _ => destruct b end).
  split_and!; [apply Hn| | |apply Hn|].
  - intros Hd. unfold build_grid_config. cbn. by rewrite Hd.
  - unfold Grid.validate, build_grid_config. cbn. by destruct (ca_elastic_departure args), (ca_retain_partitions args).
  - unfold Grid.validate, build_grid_config_from_local. cbn. by destruct (la_elastic_departure largs).
Qed.

(** ** Refusals of the other commands *)

(** [decode] with an unknown codec: the file is read first, and the refusal is an
    encoding error (exit code 3), not a configuration error. *)
Theorem decode_unknown_codec {Value : Type} `{Traits.SerdeJson Value} `{Platform Value} fuel name g out b n w :
  head (filter (λ op, BuiltIn.codec_name op = name) [BuiltIn.Add; BuiltIn.Mul; BuiltIn.Exp; BuiltIn.SumOfSquares]) = None →
  name ≠ chars "horner"%string → files w !! g = Some b → bincode_decode b = Some n →
  run_decode_command (Value := Value) fuel (mkDecodeArgs (Some name) None g out) w = Some (Done (w, inr (Encoding (Some (Registry.NotFound name))))) ∧
  exit_code (Encoding (Some (Registry.NotFound name))) = 3.
Proof.
  intros Hop Hh Ef Db. split; [|done]. destruct default_registry_get as (r & Er & Hget).
  unfold run_decode_command. cbn [or_else da_codec da_encoder da_input da_output ok_or].
  rewrite then_pure, (then_ok _ _ _ _ _ (load_bin_run _ _ _ _ Ef Db)). cbv zeta. rewrite then_lift, Er, then_lift.
  unfold Registry.decode. rewrite Hget, Hop, decide_False by done. done.
Qed.

(** [local --delta-mode] is refused before the input is opened. *)
Theorem local_delta_refused {Value : Type} `{Platform Value} `{WorkerDispatch D} fuel order args w :
  la_strategy args = chars "round-robin"%string → la_delta_mode args = true →
  run_local_command (Value := Value) fuel order args w = Some (Done (w, inr (World.Config DeltaModeOnLocal))).
Proof.
  intros Es Ed. unfold run_local_command, parse_strategy. rewrite Es. unfold build_grid_config_from_local. cbn. by rewrite Ed.
Qed.

(** ** Tokens *)

Definition bytes (b : list N) : Prop := Forall (λ x, x < 256) b.

(** Random tokens have 32 bytes; base64 writes ASCII, no shorter than what it
    encodes, and reads back what it has written. *)
Class TokenLaws `{Security.TokenLibraries} : Prop := {
  random_bytes b : Security.os_random = Some b → length b = 32%nat ∧ bytes b;
  decoded_bytes s b : Security.base64_decode s = Some b → bytes b;
  base64_law b : bytes b → Security.base64_decode (Security.base64_encode b) = Some b ∧
    (length b <= length (Security.base64_encode b))%nat ∧ ascii (Security.base64_encode b);
}.

Section tokens.
Context {Value : Type} `{Platform Value} `{TokenLaws}.

(** The configuration with a token, without TLS. *)
Definition with_token (b : list N) : Security.SecurityConfig :=
  Security.mkSecurity Security.PrivateNetwork (Some (Runtime.mkToken b)) 1024 30000.

(** The token file holds a text that gives a worker a token which the
    coordinator accepts. *)
Definition handed_over (path : list N) (c : Security.SecurityConfig) (w : World) : Prop :=
  ∃ t s c' t', Security.token c = Some t ∧ Security.tier c = Security.PrivateNetwork ∧ length (Runtime.as_bytes t) = 32%nat ∧
    fs_read_to_string path w = Some (Done (w, inl s)) ∧
    worker_security (Some s) w = Some (Done (w, inl c')) ∧ Security.token c' = Some t' ∧
    Runtime.token_ok (Security.token c) (Some (Runtime.as_bytes t')) = true.

(** The text of a token is not the word [auto]. *)
Lemma token_text_given b w : length b = 32%nat → bytes b →
  worker_security (Some (Security.base64_encode b)) w = Some (Done (w, inl (with_token b))).
Proof.
  intros Hb H256. destruct (base64_law b H256) as (Ed & El & _). unfold worker_security, build_security. rewrite then_lift. unfold Security.build_security_config.
  rewrite bool_decide_eq_false_2 by (intros E; rewrite E in El; cbn in El; lia). unfold Security.from_base64. rewrite Ed, Hb. reflexivity.
Qed.

(** The token file holds the text of a token of 32 bytes. *)
Definition token_written (path : list N) (w w' : World) : Prop :=
  ∃ b, length b = 32%nat ∧ w' = mkWorld (<[path := Utf8.encode (Security.base64_encode b)]> (files w)) (stdout w).

Lemma save_token_run args b w : length b = 32%nat → bytes b →
  match save_token args (with_token b) w with
  | Some (Done (w', inl _)) => handed_over (ca_token_file args) (with_token b) w' ∧ token_written (ca_token_file args) w w' ∧
      refuses (ca_token_file args) = false ∧ keeps_permissions (ca_token_file args) = false
  | Some (Done (w', inr e)) => e = World.Config (TokenFile Security.Config) ∧
      (refuses (ca_token_file args) = true ∧ w' = w ∨
       keeps_permissions (ca_token_file args) = true ∧ token_written (ca_token_file args) w w')
  | _ => False
  end.
Proof.
  intros Hb H256. unfold save_token, and_then, write_token_file, fs_write. cbn.
  destruct (refuses (ca_token_file args)) eqn:Hf; cbn; [by split; [|left]|].
  destruct (keeps_permissions (ca_token_file args)) eqn:Hk; cbn; [split; [done|right; split; [done|by exists b]]|].
  split; [|by split; [exists b|]].
  exists (Runtime.mkToken b), (Security.base64_encode b), (with_token b), (Runtime.mkToken b). split_and!; try done.
  - unfold fs_read_to_string, fs_read, and_then. cbn. rewrite lookup_insert, decide_True by done. cbn.
    rewrite utf8_decode_encode; [done|]. apply ascii_scalar, base64_law, H256.
  - by apply token_text_given.
  - cbn. by apply bool_decide_eq_true_2.
Qed.

(** What the flag is turned into. *)
Lemma build_security_run flag w :
  match build_security flag w with
  | Some (Done (w', inl c)) => w' = w ∧ match flag with None => c = Security.security_config_default | Some _ => ∃ b, length b = 32%nat ∧ bytes b ∧ c = with_token b end
  | Some (Done (w', inr e)) => w' = w ∧ exit_code e = 1 ∧ ∃ s, flag = Some s ∧ s ≠ Security.AUTO ∧ ∀ b, Security.base64_decode s = Some b → length b ≠ 32%nat
  | Some Panic => flag = Some Security.AUTO ∧ Security.os_random = None
  | None => False
  end.
Proof.
  unfold build_security. rewrite then_lift. unfold Security.build_security_config. destruct flag as [flag|]; [|done]. case_bool_decide as Ha.
  - unfold Security.generate. destruct Security.os_random as [b|] eqn:Eo; cbn; [|by rewrite Ha]. split; [done|]. destruct (random_bytes b Eo). by exists b.
  - unfold Security.from_base64. destruct (Security.base64_decode flag) as [b|] eqn:Eb.
    + destruct (Nat.eqb_spec (length b) 32) as [Hb|Hb]; cbn; [split; [done|exists b; split_and!; [done|by eapply decoded_bytes|done]]|]. split_and!; [done|done|]. exists flag.
      split_and!; [done|done|]. intros b' E. rewrite Eb in E. by injection E as <-.
    + cbn. split_and!; [done|done|]. exists flag. split_and!; [done|done|]. intros b E. by rewrite Eb in E.
Qed.

(** C24. The token reaches the worker.  When the coordinator's security set-up
    succeeds, without the flag it is the default configuration and no file is
    written; with it the token file is written, nothing else changes, and
    whoever passes the text of that file to a worker gives it a token of 32 bytes
    that the coordinator accepts.  It is refused, always with exit code 1, in
    three cases: for a given text that is not base64 or not 32 bytes long, with
    nothing written; when the token file cannot be written, with nothing
    changed; and when the permissions of the token file cannot be restricted, in
    which case the file stays there with the token in it.  It panics only when
    a token is to be generated without entropy. *)
Theorem token_handover args w :
  let path := ca_token_file args in
  match coordinator_security args w with
  | Some (Done (w', inl c)) =>
      match ca_token args with
      | None => c = Security.security_config_default ∧ w' = w
      | Some _ => handed_over path c w' ∧ token_written path w w' ∧ refuses path = false ∧ keeps_permissions path = false
      end
  | Some (Done (w', inr e)) => exit_code e = 1 ∧ ∃ flag, ca_token args = Some flag ∧
      (flag ≠ Security.AUTO ∧ (∀ b, Security.base64_decode flag = Some b → length b ≠ 32%nat) ∧ w' = w ∨
       e = World.Config (TokenFile Security.Config) ∧ refuses path = true ∧ w' = w ∨
       e = World.Config (TokenFile Security.Config) ∧ keeps_permissions path = true ∧ token_written path w w')
  | Some Panic => ca_token args = Some Security.AUTO ∧ Security.os_random = None
  | None => False
  end.
Proof.
  cbv zeta. unfold coordinator_security, and_then at 1. pose proof (build_security_run (ca_token args) w) as Hb.
  destruct (build_security (ca_token args) w) as [[[w' [c|e]]|]|]; cbn; [| |done..].
  - destruct Hb as [-> Hc]. destruct (ca_token args) as [flag|]; [|subst c; done].
    destruct Hc as (b & Hb & H256 & ->). pose proof (save_token_run args b w Hb H256) as Hs. unfold and_then.
    destruct (save_token args (with_token b) w) as [[[w' [u|e]]|]|]; [exact Hs| |done..].
    destruct Hs as [-> Hs]. split; [done|]. exists flag. split; [done|]. right. tauto.
  - destruct Hb as (-> & He & flag & Hfl & Hn & Hd). split; [done|]. exists flag. split; [done|]. by left.
Qed.

End tokens.

(** ** A concrete platform *)

Module Toy.

#[export] Instance Agent_countable : Countable Agent :=
  inj_countable' (λ a, (symbol a, agent_id a)) (λ x, mkAgent x.1 x.2) ltac:(by intros []).

#[export] Instance PortRef_countable : Countable PortRef.
Proof.
  refine (inj_countable' (λ r, match r with AgentPort i p => inl (i, p) | FreePort f => inr f end)
    (λ x : (N * N) + N, match x with inl (i, p) => AgentPort i p | inr f => FreePort f end) _).
  by intros [].
Defined.

(** The serialised fields. *)
Definition Fields : Type := list (option Agent) * list PortRef * list (AgentId * AgentId) * N * option PortRef * list AgentId.

Definition fields (n : Net) : Fields := (agents n, ports n, redex_queue n, next_id n, root n, free_list n).

Definition of_fields (x : Fields) : Net :=
  let '(a, p, q, i, r, f) := x in mkNet a p q i r ∅ f None None DisableUnderDelta false false debug_fields_init.

(** One big byte per net; results print in decimal; the clock stands still. *)
#[export] Instance platform : Platform N := {|
  bincode_encode := λ n, Some [Npos (encode (fields n))];
  bincode_decode := λ b, match b with [Npos p] => of_fields <$> decode p | _ => None end;
  to_string_pretty := λ v, Some (decimal v);
  metrics_json := λ _, Some [];
  refuses := λ _, false;
  keeps_permissions := λ _, false;
  reduction_time := λ _, [];
  total_time := λ _, [];
  average_round_time := λ _, [];
  round_times := λ _ _, [];
|}.

#[export] Instance platform_faithful : Faithful.
Proof. intros n. eexists. split; [reflexivity|]. cbn. by rewrite decode_encode. Qed.

#[export] Existing Instance toy_json.

(** The first operand in thousands. *)
Definition thousands_json : Traits.SerdeJson N := {|
  Traits.church_input := λ b, match b with [x; y] => Some (Traits.mkChurchInput None (1000 * x) (Some y)) | _ => None end;
  Traits.horner_input := λ _, None;
  Traits.lambda_input := λ _, None;
  Traits.size_input := λ _, None;
  Traits.church_output := Some;
  Traits.horner_output := λ _ bits, bits;
  Traits.lambda_output := λ _ _, None;
|}.

Definition empty_world : World := mkWorld ∅ [].
Definition f_bin : list N := chars "dir/f.bin"%string.
Definition g_bin : list N := chars "./g.v2.bin"%string.
Definition f_ic : list N := chars "net.ic"%string.
Definition out_json : list N := chars "out.json"%string.

End Toy.
Import Toy.

(** [3 + 5]: the operands are the bytes of the input. *)
Lemma staged_pipeline_agrees_witness :
  ∃ log w', direct 300 (λ _, []) (chars "church_add"%string) [3; 5] empty_world = Some (Done (w', inl tt)) ∧
    stdout w' = log ++ chars "Result:      8"%string ++ [NEWLINE] ∧
    ∃ log pretty w'', stdout w' = log ++ chars "Result:      "%string ++ pretty ++ [NEWLINE] ∧
      staged 300 (λ _, []) (chars "church_add"%string) [3; 5] f_bin g_bin out_json empty_world = Some (Done (w'', inl tt)) ∧
      files w'' !! out_json = Some (Utf8.encode pretty).
Proof.
  pose proof (@staged_pipeline_agrees N toy_json Toy.platform Toy.platform_faithful 300 (λ _, []) (chars "church_add"%string) [3; 5] f_bin g_bin out_json empty_world
    ltac:(intros i E; vm_compute in E; by injection E as <-) eq_refl eq_refl eq_refl eq_refl eq_refl) as H.
  set (d := direct _ _ _ _ _) in *.
  assert (E : (match d with Some (Done (w', inl tt)) => Some (drop (length (stdout w') - 15) (stdout w')) | _ => None end) =
    Some (chars "Result:      8"%string ++ [NEWLINE])) by (vm_compute; reflexivity).
  destruct d as [[[w' [[]|e]]|]|]; [|discriminate..]. exists (take (length (stdout w') - 15) (stdout w')), w'.
  split; [reflexivity|]. split; [|exact H]. apply (inj Some) in E. rewrite <- E. symmetry. apply take_drop.
Defined.

Lemma net_files_round_trip_witness :
  ∃ b m, let w' := mkWorld (<[f_ic := b]> ∅) [] in
    save_net_to_file (Value := N) example_text_net f_ic empty_world = Some (Done (w', inl tt)) ∧
    load_net_from_file (Value := N) f_ic w' = Some (Done (w', inl m)) ∧ renumbered example_text_net m ∧
    ∃ b, let w' := mkWorld (<[f_bin := b]> ∅) [] in
      save_net_to_file (Value := N) example_text_net f_bin empty_world = Some (Done (w', inl tt)) ∧
      load_net_from_file (Value := N) f_bin w' = Some (Done (w', inl (persisted example_text_net))).
Proof.
  assert (Hwf : wf example_text_net) by (apply NetDebug.wf_b_sound; vm_compute; reflexivity).
  assert (Hl := labels_small example_text_net Hwf ltac:(vm_compute; reflexivity)).
  assert (Hp : printable example_text_net).
  { split; [exact Hwf|]. split; [exact Hl|]. vm_compute. exact I. }
  pose proof (@net_files_round_trip N platform platform_faithful example_text_net f_ic empty_world) as H1. cbv zeta in H1.
  pose proof (@net_files_round_trip N platform platform_faithful example_text_net f_bin empty_world) as H2. cbv zeta in H2.
  assert (E1 : detect_format f_ic = Some Ic) by (vm_compute; reflexivity).
  assert (E2 : detect_format f_bin = Some Bin) by (vm_compute; reflexivity).
  rewrite E1 in H1. rewrite E2 in H2. destruct (H1 Hp) as (b & m & A1 & A2 & Hm).
  destruct H2 as (b' & m' & B1 & B2 & Hm'). rewrite Hm' in B2.
  exists b, m. split; [exact A1|]. split; [exact A2|]. split; [exact Hm|]. exists b'. split; [exact B1|exact B2].
Defined.

Lemma operand_limits_witness :
  @positional N toy_json platform 0 (λ _, []) Mul 1000001 2 None None empty_world = Some Panic ∧
  ∃ w' operand value,
    @direct N thousands_json platform 0 (λ _, []) (chars "church_mul"%string) [20; 2] empty_world =
      Some (Done (w', inr (Encoding (Some (Registry.Encode (Traits.InvalidInput (Traits.OperandOverCap operand value Church.MAX_CHURCH_NAT)))))))
    ∧ files w' = ∅.
Proof.
  pose proof (@operand_limits N toy_json platform 0 (λ _, []) Mul 1000001 2 None None empty_world ltac:(done)) as (H1 & _ & _).
  pose proof (@operand_limits N thousands_json platform 0 (λ _, []) Mul 20000 2 None None empty_world ltac:(done)) as (_ & _ & H2).
  split; [by apply H1; left|].
  destruct (H2 ltac:(by left) [20; 2] eq_refl) as (w' & operand & value & E & _ & _ & Hf). exists w', operand, value. split; [exact E|exact Hf].
Defined.

(** Base 16 in the place of base 64. *)
Fixpoint digit_pairs (s : list N) : list N :=
  match s with x :: y :: s => (16 * x + y) mod 256 :: digit_pairs s | _ => [] end.

Instance toy_tokens : Security.TokenLibraries := {|
  Security.os_random := Some (replicate 32 7);
  Security.base64_decode := λ s, Some (digit_pairs s);
  Security.base64_encode := λ b, b ≫= λ x, [x / 16; x mod 16];
|}.

Lemma digit_pairs_bytes n : ∀ s, (length s <= n)%nat → bytes (digit_pairs s).
Proof.
  induction n as [|n IH]; intros [|x [|y s]] Hs; cbn in *; try (by constructor); [lia|]. constructor; [apply N.mod_lt; lia|]. apply IH. lia.
Qed.

Instance toy_laws : TokenLaws.
Proof.
  split.
  - intros b [= <-]. split; [done|]. unfold bytes. repeat constructor; lia.
  - intros s b [= <-]. by apply (digit_pairs_bytes (length s)).
  - intros b Hb. cbn. induction Hb as [|x b Hx Hb IH]; [split_and!; [done|cbn; lia|constructor]|]. destruct IH as (E & L & A). cbn. split_and!.
    + do 2 f_equal; [|by injection E]. rewrite <- N.div_mod by lia. by apply N.mod_small.
    + lia.
    + constructor; [apply N.Div0.div_lt_upper_bound; lia|]. constructor; [|exact A]. pose proof (N.mod_lt x 16). lia.
Qed.

Definition auto_args : CoordinatorArgs :=
  mkCoordinatorArgs 1 [] [] None false None None [] None (Some Security.AUTO) (chars "./relativist-token"%string) [] None false 0 0 0 0 false
    false false false false false false 0 0 0 0 0 RoundRobin None Auto 0.

Lemma token_handover_witness : ∃ c w', coordinator_security auto_args empty_world = Some (Done (w', inl c)) ∧
  handed_over (chars "./relativist-token"%string) c w'.
Proof.
  pose proof (@token_handover N platform toy_tokens toy_laws auto_args empty_world) as H.
  destruct (coordinator_security auto_args empty_world) as [[[w' [c|e]]|]|] eqn:E; [|discriminate..].
  exists c, w'. split; [reflexivity|exact (proj1 H)].
Defined.
